(* ===== verification/_CoqProject ===== *)
-Q . S2P
Prelude.v
Values.v
Router.v
Keeps.v
DList.v
AgendaState.v
Strategy.v
StrategyProofs.v
AgendaRep.v
PlaceProofs.v
Focus.v
Agenda.v
AgendaProofs.v
SystemInv.v
AddProofs.v
RemoveProofs.v
RemoveSystem.v
AgendaWitness.v
ReorderSystem.v
AgendaKeeps.v
Run.v
RunInv.v
RunProofs.v
RunLoop.v
RunTheorems.v
AgendaTheorems.v
Process.v
Hash.v
TextBuffer.v
IOState.v
NumberText.v
Expr.v
Functions.v
Args.v
Multifield.v
Math.v
Predicates.v
Procedural.v
Sort.v
UserFunctions.v
MultifieldFunctions.v
StringFunctions.v
Evaluate.v
EvalLaws.v
EvalLemmas.v
MathProofs.v
EvalTheorems.v
SortTheorems.v
FunctionTheorems.v
ControlTheorems.v
MultifieldProofs.v
MultifieldTheorems.v
SList.v
AtomState.v
Atoms.v
AtomProofs.v
Garbage.v
CollectProofs.v
RetainProofs.v
BlockProofs.v
SymbolMatch.v
BlockEnd.v
AtomWitness.v
AtomTheorems.v
GarbageTheorems.v
TextProofs.v
StringTheorems.v
StringRouters.v
Routers.v
PPrint.v
Scanner.v
RouterProofs.v
Lexer.v
ScanProofs.v
LexProofs.v
Print.v
IOWitness.v
RouterTheorems.v
ScanTheorems.v
CommandLine.v
