(* ===== verification/Prelude.v ===== *)
(** * The CLIPS engine of clara-cerebellum

    The repository embeds two inference engines in Rust services: CLIPS 6.4,
    whose C sources are under [src/clara-clips/clips-src/core], and SWI-Prolog,
    which is vendored.  This development models parts of the CLIPS engine, the
    C code that decides which rule fires next, that evaluates the expressions
    of rules and that reads and prints their text, with the wrappers ([userfunctions.c]) through which
    rules call back into the Rust host.  File names below are relative to
    [clips-src/core].

    ** How the code is represented

    - Stateful C code is a function in the monad [M S A := S -> option (A * S)]
      of this file.  [None] is undefined behaviour (a dereference of [NULL] or of
      a freed object, signed overflow, an array index out of bounds) or
      exhausted fuel; the theorems prove that neither happens, or say when it does.
    - Pointers to objects that the code links and frees (activations, salience
      groups, modules, rules, partial matches, globals) are addresses into
      explicit stores ([gmap ptr]); [get_struct] and [rtn_struct] allocate and free
      an entry, so dangling pointers and aliasing are visible.
    - Machine integers are in [Z] with their range written out: [long long]
      arithmetic goes through [long_long], which is [None] outside the range;
      unsigned counters wrap.  [double] is [spec_float] with IEEE binary64 rounding.
    - Text the evaluator writes is appended to a log, one item per call of
      [WriteString], [WriteInteger], ...; below, [Routers] has the routers.
    - Code outside the C core is a parameter: the salience expressions of rules
      as seen by the agenda (class [Host] of [AgendaState]), the Rust callbacks and
      the periodic functions (class [EvalHost] of [Expr]).  [rust_clara_evaluate]
      has the two parameters the C code declares and passes; the Rust function
      of that name has one.
    - Loops over linked structures take fuel computed from the size of the
      store; the theorems on the operations prove that it is enough.  The
      evaluator takes fuel for the depth of calls and the iterations of loops;
      a result never depends on it ([EvaluateExpression_fuel]), and the theorems on
      functions give an amount that is enough.

    ** The agenda: [agenda.c], [crstrtgy.c], the focus part of [engine.c], [moduldef.c]

    - [DList]: doubly linked segments in a store, the representation predicate
      the agenda and its salience groups share.
    - [AgendaState]: the C structures as records, the environment, the store.
    - [Strategy]: [SortPartialMatch], [ComparePartialMatches], the seven placement
      functions, [PlaceActivation]; [StrategyProofs]: each placement is an
      insertion by a total preorder on activations.
    - [AgendaRep], [PlaceProofs], [AgendaProofs]: what a
      well-formed agenda is (a list of activations cut into salience groups of
      decreasing salience, each ordered by the strategy) and what the
      operations on one agenda do to it.
    - [Focus], [Agenda]: the focus stack, the current module, adding, removing,
      detaching, moving, reordering and refreshing activations.
    - [SystemInv], [AddProofs], [RemoveProofs], [RemoveSystem],
      [ReorderSystem]: the invariant of the whole system
      (every module's agenda, the markers of partial matches, the counters) and
      its preservation by every operation.
    - [AgendaTheorems]: the properties, with runs on the system of
      [AgendaWitness]: an abstract agenda is a sorted list, and every C routine
      refines an operation on it.
    - [Keeps], [AgendaKeeps]: what code leaves alone, by one traversal of its
      definitions.

    ** The run loop: [Run] of [engine.c]

    - [Run]: the state of a run next to that of the agenda, the functions called
      around a firing, the steps of one firing, the loop, breakpoints.  The
      actions of a rule, the registered functions, the disposal of retracted
      matches and the periodic functions are the interface [RunHost].
    - [RunInv]: the invariant of a run, the phases of a firing (activation
      chosen, off the agenda with a busy basis, gone) and the laws ([RunLaws])
      by which the code behind the interface keeps the phase it is called in.
    - [RunProofs], [RunLoop]: each step takes one phase to the next; a run is a
      sequence of firings, and the fuel, which bounds the firings of an
      unlimited run, does not change a result.  A limited run needs as much
      fuel as its limit.
    - The end of [RunLoop]: adding an activation, focusing, [halt] and [return]
      keep the phase of a firing, so a host whose rules run scripts of them
      satisfies the laws; [RunTheorems]: the properties, with runs of such a rule base.

    ** The evaluator: [evaluatn.c], [extnfunc.c], [argacces.c], [prntutil.c]

    - [Values]: values, type codes and type bits, machine integers, doubles;
      [Router]: the output log and the error flags.
    - [Expr]: expressions, function definitions, the state of the evaluator, the
      context of a call.  [Functions]: registration and lookup of functions,
      restriction strings.  [Args]: argument access, type checks, error messages.
    - [Evaluate]: [EvaluateExpression], which resolves a [functionPointer] to the
      functions of [Math] ([bmathfun.c]), [Predicates] ([prdctfun.c]), [Procedural]
      ([prcdrfun.c] and the globals of [globldef.c]), [Sort] ([sortfun.c]),
      [MultifieldFunctions] ([multifun.c], [create$]), [StringFunctions] ([strngfun.c]) and
      [UserFunctions] ([userfunctions.c]); [Multifield] has the segments of [multifld.c].
    - [EvalLaws]: what every piece of code keeps ([Keeps]), by one traversal of the
      functions; [EvalLemmas]: more fuel keeps every result; argument
      access in the interface [EvaluatorLaws], against which the functions are
      proved; [MathProofs], [SortTheorems]: the loops of [bmathfun.c], [prdctfun.c] and
      [sortfun.c] against their specifications.
    - [MultifieldProofs]: arguments that evaluate to given values, multifields as
      the lists of their fields, each multifield function as a function on lists.
    - [EvalTheorems], [SortTheorems], [FunctionTheorems], [ControlTheorems],
      [MultifieldTheorems], [StringTheorems]: the properties, with runs in the
      environment of [EvalTheorems], built by the registration functions themselves.

    ** Symbol tables: [symbol.c]

    - [Process]: the outcome monad [P], for code whose internal consistency
      checks end the process: a computation returns, exits with a code
      ([SystemError], [ExitRouter]), or is undefined.
    - [Hash]: the five hash functions on 64-bit words; [char] is signed.  A
      [double] is its bit pattern here, since [HashFloat] reads its bytes.
    - [SList]: singly linked segments in a store, and their search.
    - [AtomState], [Atoms]: the hash nodes, the buckets of the five tables, the
      lists of ephemeral nodes of the garbage frames; interning, lookup,
      reference counts, removal, initialization.
    - [AtomProofs], [CollectProofs], [AtomWitness]: the
      invariant (each live node once, in the bucket of its hash value, no two of
      the same contents; each unreferenced node on one list of one frame) and
      its preservation by every operation.
    - [SymbolMatch]: completion of a prefix over the symbol table.
    - [AtomTheorems]: the properties, with runs from the empty tables.

    ** The garbage collector: [utility.c], [multifld.c], [evaluatn.c]

    - [Garbage]: reference counts of values and multifields, the multifields a
      frame may free, collections, garbage blocks.  What facts, instances and
      cleanup functions do in a collection is the interface [GarbageHost].
    - [RetainProofs]: the lists of multifields; retaining and
      releasing values.  [BlockProofs]: the invariant [gc_inv], in which the
      rest of the system owns some of the references, and the laws
      ([GarbageLaws]) by which it gives up only what it owns.
    - [BlockProofs], [BlockEnd]: a value over a collection, the end
      and the start of a block; [GarbageTheorems]: the properties, on the host of
      [AtomWitness], which holds a list of references.

    ** Strings, routers and the scanner: [utility.c], [router.c], [strngrtr.c],
       [scanner.c], [pprint.c], [prntutil.c]

    - [TextBuffer]: growing strings as memory whose bytes may be uninitialised,
      with their position and size; UTF-8 indices; string builders.
      [TextProofs]: the representation predicate [holds] of a terminated string.
    - [IOState]: the routers, the string routers, the data of the scanner and of
      the pretty print buffer, arrays, files and string builders behind
      pointers.  A logical name is a pointer with its text, since the fast paths
      compare pointers and the others text.  The other routers (terminal and
      file routers) are the interface [RouterHost]; [RouterProofs]: its laws,
      string destinations and builders as a text that grows, and what the scanner
      asks of its input ([CharSource]), with the string source as an instance.
    - [StringRouters], [Routers]: the callbacks of the string routers; dispatch,
      fast paths and line counts, the list of routers.  Messages nest: fuel 2 is
      enough, since a message about an unknown name goes to [STDERR], which is
      not reported again.
    - [NumberText]: [strtoll], [atof] and the printf formats [%lld] and [%.15g] as
      functions on decimal digits; [PPrint]: the pretty print buffer; [Print]:
      [PrintAtom].
    - [Scanner]: [GetToken] over the routers and the symbol tables, which are its
      state.  Its loops take fuel, one unit per character of the input and two
      more at the end.  [Lexer]: the reference tokenizer, a function from the
      characters to the token and the characters after it.
    - [ScanProofs]: each scanner against the reference
      tokenizer, for any source; [LexProofs]: printed forms read back.
    - [RouterTheorems], [ScanTheorems]: the properties, with runs on
      the terminal, the string and the builder of [IOWitness].

    ** The command loop: [commline.c]

    - [CommandLine]: the command string, [CompleteCommand] with its look-ahead
      loops, [RouteCommand], the loops over events and batch files, completion
      of the last token, over the routers, the scanner and the symbol tables.
      The parsers, the evaluator, batch files and callbacks are the interface
      [CommandHost]; [CommandLaws] are its laws for the code that cleans up
      between commands.  Then an automaton that reads one character at a time,
      to which [CompleteCommand] is equal, function calls as a grammar, what the
      command string is while characters are typed, and constants from the
      keyboard to their echo.  The fuel of the loops is the length of the
      command; the endless loop runs for a number of turns.

    ** What the theorems show

    - Agenda: adding, removing, detaching, moving, clearing, reordering and
      refreshing keep the system invariant and act on the sorted list as
      specified, freeing what they empty and evaluating saliences again; the next
      activation to fire is the first of the first non-empty module in focus;
      saliences stay within their bounds.
    - Run: a run returns to a well-formed system after at most the limit's
      number of firings, each of the activation that is first by salience and
      strategy in the module in focus, and ends early only for a reason; an
      unlimited run never meets undefined behaviour.
    - Evaluator: determinism in the fuel; restoration of the current expression,
      the loop counters and the sort functions by any expression; exact
      arithmetic within [long long] and undefined behaviour outside, as for the
      least [long long], which [CreateInteger] cannot hash;
      [div] without undefined behaviour; the comparison chains; short circuits;
      conditionals, variables, error handlers and counted loops.
    - Multifields: [insert$], [delete$] and [replace$] act on the fields of a
      segment as specified, whatever their indices; [member$] finds the first
      occurrence; [replace-member$] and the set functions return, without
      duplicates and within their arrays; [delete-member$] is right on a
      multifield that starts at its first field, and overruns on others.
    - Strings of the evaluator: [str-cat] and [str-replace] stay within the
      memory they allocate; [sub-string] and [str-index] agree on UTF-8.
    - Sorting: [MergeSort] terminates with a permutation for any comparison, and
      sorts stably for a weak order; [sort] with [>] on integers is ascending.
    - Host calls: the Rust callbacks are called once, with the text of the
      arguments, or not at all; [clara-evaluate] passes the address of the
      environment before the text.
    - Function table: registration, lookup and removal; restriction strings
      against their reading as segments; argument counts.
    - Symbol tables: the creating functions return the one node of their
      contents, so that comparing the pointers they return compares values; any
      sequence of operations leaves well-formed tables; exactly the unreferenced nodes of a
      frame are removed; completion finds the lexemes with a prefix.
    - Garbage collector: a collection and the end of a garbage block keep the
      value that is returned and everything that is held, and free no node or
      multifield in use.
    - Strings: however a string is built, it stays terminated inside its
      allocation; the UTF-8 indices are inverse to each other.
    - Routers: the list stays sorted with distinct names; text goes to the first
      router that answers; string destinations stay within their arrays.
    - Scanner: on any source it is the reference tokenizer, returns, and meets a
      stop token; what [PrintAtom] writes of a readable atom is read back as
      the same node.
    - Command loop: a call or construct is complete exactly at the end of its
      line, whatever strings, comments and line feeds it has; a constant typed
      at the prompt is read, printed and followed by a new prompt.

    ** Not modelled

    - Deffunctions and generic functions as callees, the object system, the
      parsers: an expression is what the parser delivers.
    - The rete network, the fact manager and logical dependencies.  The next
      step would be the expression parser on top of the scanner.
    - Of the command loop, the program's arguments ([RerouteStdin]), the setters
      of its callbacks and the allocation of its data.
    - The functions that scan or parse: [explode$], [implode$], [progn$], [foreach],
      [string-to-field], [eval], [build].
    - File routers and the free lists of [memalloc.c]; the evaluator and the run
      loop write to the output log and not through [Routers].
    - In [Run]: the statistics watched by [(watch statistics)] and the frames of
      the garbage collector, which change neither the agenda nor the output
      modelled here.  The evaluator of the actions has its own state
      ([EvalEnv]); [Run] sees it through [EvaluateActions].
    - In the evaluator: garbage collection and reference counts.  Its values
      are immutable, and no modelled result depends on when they are freed; the
      store of [AtomState] has the pointers behind them.
    - In the routers: a callback of another router acts only on the rest of the
      system, and neither adds nor removes routers.  In the scanner: the C
      locale; sizes and positions as natural numbers, which never wrap; one
      NaN; [PrintErrorID] outside a load; one character of push-back per file.
    - In the symbol tables: memory accounting, the accessors of the tables and
      the release of all tables with their environment.
    - SWI-Prolog (vendored) and the Rust, Python and JavaScript code: other
      languages, or third-party code. *)

(** ** Prelude: addresses, the monad, lists *)
From Stdlib Require Export ZArith Lia.
From Stdlib Require Import Sorting.Sorted.
From stdpp Require Export base gmap strings numbers.
From stdpp Require Export list.

#[global] Set Default Goal Selector "!".
#[global] Unset Printing Records.

(** ** Addresses *)

(** A C pointer is [option ptr]; [None] is [NULL]. *)
Abbreviation ptr := positive.

(** [get_struct] hands out an address no live object has. *)
Definition fresh_ptr {A} (m : gmap ptr A) : ptr :=
  Pos.succ (map_fold (fun k _ acc => Pos.max k acc) 1%positive m).

Lemma fresh_ptr_bound {A} (m : gmap ptr A) k :
  is_Some (m !! k) → (k <= map_fold (fun k _ acc => Pos.max k acc) 1 m)%positive.
Proof.
  revert k. induction m as [|i x m Hi Hf IH] using map_first_key_ind; intros k Hk.
  { destruct Hk. by simplify_map_eq. }
  rewrite map_fold_insert_first_key by done.
  destruct (decide (i = k)) as [->|]; [lia|].
  rewrite lookup_insert_ne in Hk by done. specialize (IH _ Hk). lia.
Qed.

Lemma fresh_ptr_None {A} (m : gmap ptr A) : m !! fresh_ptr m = None.
Proof.
  destruct (m !! fresh_ptr m) eqn:E; [|done].
  assert (H : is_Some (m !! fresh_ptr m)) by eauto.
  apply fresh_ptr_bound in H. unfold fresh_ptr in H. lia.
Qed.

Lemma alter_as_insert {A} (f : A → A) (m : gmap ptr A) p x :
  m !! p = Some x → alter f p m = <[p := f x]> m.
Proof.
  intros Hx. apply map_eq. intros k. destruct (decide (p = k)) as [->|].
  - by rewrite lookup_alter_eq, lookup_insert_eq, Hx.
  - by rewrite lookup_alter_ne, lookup_insert_ne.
Qed.

(** ** The monad of stateful code with undefined behaviour *)

(** [M S A] is code over the state [S]: [None] is undefined behaviour (the
    dereference of [NULL] or of a freed object) or exhausted fuel; the
    theorems prove that neither happens. *)
Definition M (S A : Type) : Type := S → option (A * S).

#[export] Instance M_ret S : MRet (M S) := fun A a s => Some (a, s).
#[export] Instance M_bind S : MBind (M S) := fun A B f m s =>
  match m s with Some (a, s') => f a s' | None => None end.

Definition undefined {S A} : M S A := fun _ => None.
Definition gets {S A} (f : S → A) : M S A := fun s => Some (f s, s).
Definition modify {S} (f : S → S) : M S unit := fun s => Some (tt, f s).
Definition fromOption {S A} (o : option A) : M S A := fun s => (fun a => (a, s)) <$> o.
Definition whenM {S} (b : bool) (m : M S unit) : M S unit := if b then m else mret tt.

(** Monad laws, used to normalise code before a proof. *)
Lemma M_bind_ret {S A B} (a : A) (f : A → M S B) s : (mret a ≫= f) s = f a s.
Proof. done. Qed.
Lemma M_fromOption_Some {S A B} (a : A) (f : A → M S B) s : (fromOption (Some a) ≫= f) s = f a s.
Proof. done. Qed.
Lemma M_bind_assoc {S A B C} (m : M S A) (f : A → M S B) (g : B → M S C) s :
  ((m ≫= f) ≫= g) s = (m ≫= fun a => f a ≫= g) s.
Proof. unfold mbind, M_bind. by destruct (m s) as [[??]|]. Qed.
Lemma M_bind_Some {S A B} (m : M S A) (f : A → M S B) s a s' :
  m s = Some (a, s') → (m ≫= f) s = f a s'.
Proof. unfold mbind, M_bind. by intros ->. Qed.
Lemma M_bind_inv {S A B} (m : M S A) (f : A → M S B) s b s'' :
  (m ≫= f) s = Some (b, s'') → ∃ a s', m s = Some (a, s') ∧ f a s' = Some (b, s'').
Proof. unfold mbind, M_bind. destruct (m s) as [[??]|]; naive_solver. Qed.

(** Run the first half of a bind: by a known equation, or by the hints. *)
Ltac mrun H := rewrite (M_bind_Some _ _ _ _ _ H); cbn beta.
Ltac mstep := erewrite M_bind_Some by eauto with clips; cbn beta.

(** ** Lists *)

(** The longest prefix of elements that satisfy [f], and the rest. *)
Fixpoint take_while {A} (f : A → bool) (l : list A) : list A :=
  match l with x :: l' => if f x then x :: take_while f l' else [] | [] => [] end.
Fixpoint drop_while {A} (f : A → bool) (l : list A) : list A :=
  match l with x :: l' => if f x then drop_while f l' else l | [] => [] end.

Lemma take_drop_while {A} (f : A → bool) l : take_while f l ++ drop_while f l = l.
Proof. induction l as [|x l IH]; simpl; [done|]. destruct (f x); simpl; congruence. Qed.
Lemma take_while_all {A} (f : A → bool) l x : x ∈ take_while f l → f x = true.
Proof.
  induction l as [|y l IH]; simpl; [set_solver|].
  destruct (f y) eqn:E; [|set_solver]. intros [->|?]%elem_of_cons; auto.
Qed.
Lemma take_while_ext {A} (f g : A → bool) l :
  (∀ x, x ∈ l → f x = g x) → take_while f l = take_while g l.
Proof.
  induction l as [|x l IH]; simpl; [done|]. intros Heq.
  rewrite Heq by set_solver. destruct (g x); [|done]. f_equal. apply IH. set_solver.
Qed.
Lemma drop_while_ext {A} (f g : A → bool) l :
  (∀ x, x ∈ l → f x = g x) → drop_while f l = drop_while g l.
Proof.
  induction l as [|x l IH]; simpl; [done|]. intros Heq.
  rewrite Heq by set_solver. destruct (g x); [|done]. apply IH. set_solver.
Qed.

Lemma StronglySorted_app_inv {A} (R : A → A → Prop) l1 l2 :
  StronglySorted R (l1 ++ l2) →
  StronglySorted R l1 ∧ StronglySorted R l2 ∧ ∀ x y, x ∈ l1 → y ∈ l2 → R x y.
Proof.
  induction l1 as [|x l1 IH]; simpl.
  { intros Hs. split_and!; [constructor|done|set_solver]. }
  intros [Hs HF]%StronglySorted_inv. destruct (IH Hs) as (H1 & H2 & H3).
  rewrite Forall_app, !Forall_forall in HF. destruct HF as [HF1 HF2].
  split_and!; [|done|set_solver]. constructor; [done|]. by apply Forall_forall.
Qed.

Create HintDb clips.
#[export] Hint Resolve fresh_ptr_None : clips.
