(* ===== verification/Values.v ===== *)
(** * Values

    [entities.h] and [constant.h]: the CLIPS values, their type codes and the
    type-restriction bits.  A [CLIPSValue] is a pointer to an interned object
    that starts with a [TypeHeader]; here it is an element of [value], one
    constructor per type code.  Lexemes, integers and floats are interned, so
    comparing pointers of those types is comparing contents. *)
From Stdlib Require Export SpecFloat.
From S2P Require Import Prelude.

(** An IEEE binary64 [double], as the Standard Library's executable [spec_float]. *)
Abbreviation double := spec_float.

Inductive value :=
  | VFloat (d : double)
  | VInteger (z : Z)
  | VSymbol (s : string)
  | VString (s : string)
  | VMultifield (contents : list value)
  | VExternalAddress (contents : option ptr)
  | VFactAddress (p : ptr)
  | VInstanceAddress (p : ptr)
  | VInstanceName (s : string)
  | VVoid.

(** [struct udfValue]: a value and, for a multifield, the segment
    [begin .. begin+range-1] of its contents. *)
Record UDFValue := mkUDFValue {
  uv_value : value;
  uv_begin : Z;
  uv_range : Z;
}.

(** The type codes of [constant.h]. *)
Definition FLOAT_TYPE : Z := 0.
Definition INTEGER_TYPE : Z := 1.
Definition SYMBOL_TYPE : Z := 2.
Definition STRING_TYPE : Z := 3.
Definition MULTIFIELD_TYPE : Z := 4.
Definition EXTERNAL_ADDRESS_TYPE : Z := 5.
Definition FACT_ADDRESS_TYPE : Z := 6.
Definition INSTANCE_ADDRESS_TYPE : Z := 7.
Definition INSTANCE_NAME_TYPE : Z := 8.
Definition VOID_TYPE : Z := 9.

(** [theValue.header->type] *)
Definition header_type (v : value) : Z :=
  match v with
  | VFloat _ => FLOAT_TYPE
  | VInteger _ => INTEGER_TYPE
  | VSymbol _ => SYMBOL_TYPE
  | VString _ => STRING_TYPE
  | VMultifield _ => MULTIFIELD_TYPE
  | VExternalAddress _ => EXTERNAL_ADDRESS_TYPE
  | VFactAddress _ => FACT_ADDRESS_TYPE
  | VInstanceAddress _ => INSTANCE_ADDRESS_TYPE
  | VInstanceName _ => INSTANCE_NAME_TYPE
  | VVoid => VOID_TYPE
  end.

(** ** Equality of values *)

#[export] Instance spec_float_eq_dec : EqDecision spec_float.
Proof. solve_decision. Defined.

#[export] Instance value_eq_dec : EqDecision value.
Proof.
  refine (fix go (v w : value) : Decision (v = w) :=
    match v, w with
    | VFloat x, VFloat y => cast_if (decide (x = y))
    | VInteger x, VInteger y => cast_if (decide (x = y))
    | VSymbol x, VSymbol y => cast_if (decide (x = y))
    | VString x, VString y => cast_if (decide (x = y))
    | VMultifield x, VMultifield y =>
    let _ : EqDecision value := go in cast_if (decide (x = y))
    | VExternalAddress x, VExternalAddress y => cast_if (decide (x = y))
    | VFactAddress x, VFactAddress y => cast_if (decide (x = y))
    | VInstanceAddress x, VInstanceAddress y => cast_if (decide (x = y))
    | VInstanceName x, VInstanceName y => cast_if (decide (x = y))
    | VVoid, VVoid => left eq_refl
    | _, _ => right _
    end); abstract congruence.
Defined.

Definition is_nan (v : value) : bool :=
  match v with VFloat S754_nan => true | _ => false end.

(** [v->value == w->value]: the same interned object.  [CreateFloat] compares
    with [==], so every NaN it makes is a new object and contents do not say
    whether two of them are the same; [None] stands for that case.  Zeros of
    both signs hash to different buckets, so they are different objects.
    Multifields are not interned either: the code compares them by address
    nowhere but after testing that the type is another. *)
Definition same_object (v w : value) : option bool :=
  if is_nan v && is_nan w then None else Some (bool_decide (v = w)).

Definition FalseSymbol : value := VSymbol "FALSE".
Definition TrueSymbol : value := VSymbol "TRUE".
Definition is_false (v : value) : bool := bool_decide (v = FalseSymbol).
Definition bool_symbol (b : bool) : value := if b then TrueSymbol else FalseSymbol.

(** ** Type bits *)

Definition FLOAT_BIT : Z := Z.shiftl 1 0.
Definition INTEGER_BIT : Z := Z.shiftl 1 1.
Definition SYMBOL_BIT : Z := Z.shiftl 1 2.
Definition STRING_BIT : Z := Z.shiftl 1 3.
Definition MULTIFIELD_BIT : Z := Z.shiftl 1 4.
Definition EXTERNAL_ADDRESS_BIT : Z := Z.shiftl 1 5.
Definition FACT_ADDRESS_BIT : Z := Z.shiftl 1 6.
Definition INSTANCE_ADDRESS_BIT : Z := Z.shiftl 1 7.
Definition INSTANCE_NAME_BIT : Z := Z.shiftl 1 8.
Definition VOID_BIT : Z := Z.shiftl 1 9.
Definition BOOLEAN_BIT : Z := Z.shiftl 1 10.

Definition NUMBER_BITS : Z := Z.lor INTEGER_BIT FLOAT_BIT.
Definition LEXEME_BITS : Z := Z.lor (Z.lor SYMBOL_BIT STRING_BIT) BOOLEAN_BIT.
Definition ADDRESS_BITS : Z := Z.lor (Z.lor EXTERNAL_ADDRESS_BIT FACT_ADDRESS_BIT) INSTANCE_ADDRESS_BIT.
Definition SINGLEFIELD_BITS : Z := Z.lor (Z.lor (Z.lor NUMBER_BITS LEXEME_BITS) ADDRESS_BITS) INSTANCE_NAME_BIT.
Definition ANY_TYPE_BITS : Z := Z.lor (Z.lor VOID_BIT SINGLEFIELD_BITS) MULTIFIELD_BIT.

(** [x & bits], as a condition. *)
Definition has_bits (x bits : Z) : bool := negb (Z.land x bits =? 0)%Z.

Definition CVIsType (v : value) (cvType : Z) : bool := has_bits (Z.shiftl 1 (header_type v)) cvType.

(** ** Machine integers and doubles *)

Definition SIZE_MAX : Z := 18446744073709551615.
Definition USHRT_MAX : Z := 65535.
Definition LLONG_MAX : Z := 9223372036854775807.
Definition LLONG_MIN : Z := -9223372036854775808.
Definition in_long_long (z : Z) : bool := ((LLONG_MIN <=? z) && (z <=? LLONG_MAX))%Z.

(** The result of a signed [long long] operation: undefined out of range. *)
Definition long_long (z : Z) : option Z := if in_long_long z then Some z else None.

Lemma in_long_long_spec z : in_long_long z = true ↔ (LLONG_MIN <= z <= LLONG_MAX)%Z.
Proof. unfold in_long_long. rewrite andb_true_iff, !Z.leb_le. done. Qed.
Lemma long_long_Some z : (LLONG_MIN <= z <= LLONG_MAX)%Z → long_long z = Some z.
Proof. intros Hz. unfold long_long. by rewrite (proj2 (in_long_long_spec z) Hz). Qed.
Lemma long_long_None z : ¬ ((LLONG_MIN <= z <= LLONG_MAX)%Z) → long_long z = None.
Proof.
  intros Hz. unfold long_long. destruct (in_long_long z) eqn:E; [|done].
  by apply in_long_long_spec in E.
Qed.

Definition dadd : double → double → double := SFadd 53 1024.
Definition dsub : double → double → double := SFsub 53 1024.
Definition dmul : double → double → double := SFmul 53 1024.
Definition ddiv : double → double → double := SFdiv 53 1024.

(** [(double) z], rounded to nearest even. *)
Definition double_of_Z (z : Z) : double := binary_normalize 53 1024 z 0 false.

(** [(long long) d]: truncation, undefined for NaN, infinities and values out of range. *)
Definition Z_of_double (d : double) : option Z :=
  match d with
  | S754_zero _ => Some 0%Z
  | S754_finite s m e =>
      let a := if (0 <=? e)%Z then (Zpos m * 2 ^ e)%Z else (Zpos m / 2 ^ (- e))%Z in
      long_long (if s then - a else a)%Z
  | _ => None
  end.

(** The macros that convert a number; undefined on anything else. *)
Definition CVCoerceToFloat (v : value) : option double :=
  match v with VFloat d => Some d | VInteger z => Some (double_of_Z z) | _ => None end.
Definition CVCoerceToInteger (v : value) : option Z :=
  match v with VInteger z => Some z | VFloat d => Z_of_double d | _ => None end.

(** ** Fields of a [UDFValue] *)

Definition set_uv_value (v : value) (u : UDFValue) : UDFValue := mkUDFValue v (uv_begin u) (uv_range u).
Definition set_uv_range (r : Z) (u : UDFValue) : UDFValue := mkUDFValue (uv_value u) (uv_begin u) r.

(** The fields [begin .. begin+range-1] of a multifield, [None] when they run past its end. *)
Definition segment (contents : list value) (b r : Z) : option (list value) :=
  if ((0 <=? b) && (0 <=? r) && (b + r <=? Z.of_nat (length contents)))%Z
  then Some (take (Z.to_nat r) (drop (Z.to_nat b) contents)) else None.
