(* ===== verification/Router.v ===== *)
(** * Output and error flags

    What every component uses of [router.c], [prntutil.c] and [evaluatn.c]:
    text sent to a logical name, and the two flags that stop an evaluation.
    A state that has them is an instance of [Router] and of [EvalFlags]; the
    error messages are written once, against these interfaces. *)
From S2P Require Import Prelude Values.
From stdpp Require Export pretty.

(** What [WriteString] and the printers of matches and of values send to a logical name. *)
Inductive output_item :=
  | OString (logicalName s : string)
  | OPartialMatch (logicalName : string) (m : option ptr)
  | OValue (logicalName : string) (u : UDFValue).

(** A state with an output log. *)
Class Router (S : Type) := {
  map_output : (list output_item → list output_item) → S → S;
}.

(** A state with [EvaluationError] and [HaltExecution]. *)
Class EvalFlags (S : Type) := {
  get_EvaluationError : S → bool;
  get_HaltExecution : S → bool;
  put_EvaluationError : bool → S → S;
  put_HaltExecution : bool → S → S;
}.

Definition STDOUT : string := "stdout".
Definition STDERR : string := "stderr".
Definition STDWRN : string := "stdwrn".
Definition newline : string := String (Ascii.ascii_of_nat 10) EmptyString.

Section output.
Context {S : Type} `{!Router S}.

Definition write_item (i : output_item) : M S unit := modify (map_output (fun o => o ++ [i])).
Definition WriteString (logicalName str : string) : M S unit := write_item (OString logicalName str).
Definition WriteInteger (logicalName : string) (number : Z) : M S unit := WriteString logicalName (pretty number).
Definition PrintUnsignedInteger (logicalName : string) (number : Z) : M S unit := WriteString logicalName (pretty number).

(** [PrintErrorID] outside a [load]. *)
Definition PrintErrorID (module : string) (errorID : Z) (printCR : bool) : M S unit :=
  _ ← whenM printCR (WriteString STDERR newline);
  _ ← WriteString STDERR "[";
  _ ← WriteString STDERR module;
  _ ← WriteInteger STDERR errorID;
  WriteString STDERR "] ".

(** [PrintWarningID] outside a [load]. *)
Definition PrintWarningID (module : string) (warningID : Z) (printCR : bool) : M S unit :=
  _ ← whenM printCR (WriteString STDWRN newline);
  _ ← WriteString STDWRN "[";
  _ ← WriteString STDWRN module;
  _ ← WriteInteger STDWRN warningID;
  _ ← WriteString STDWRN "] ";
  WriteString STDWRN "WARNING: ".

Definition DivideByZeroErrorMessage (functionName : string) : M S unit :=
  _ ← PrintErrorID "PRNTUTIL" 7 false;
  _ ← WriteString STDERR "Attempt to divide by zero in '";
  _ ← WriteString STDERR functionName;
  WriteString STDERR ("' function." +:+ newline).

(** The [error] branch; the warning branch has no caller among the modelled functions. *)
Definition ArgumentOverUnderflowErrorMessage (functionName : string) : M S unit :=
  _ ← PrintErrorID "PRNTUTIL" 17 false;
  _ ← WriteString STDERR "Over or underflow of long long integer in '";
  _ ← WriteString STDERR functionName;
  WriteString STDERR ("' function." +:+ newline).
End output.

Section flags.
Context {S : Type} `{!EvalFlags S}.

Definition SetHaltExecution (value : bool) : M S unit := modify (put_HaltExecution value).
Definition GetHaltExecution : M S bool := gets get_HaltExecution.
Definition GetEvaluationError : M S bool := gets get_EvaluationError.
Definition SetEvaluationError (value : bool) : M S unit :=
  _ ← modify (put_EvaluationError value);
  whenM value (modify (put_HaltExecution true)).
Lemma SetEvaluationError_Some v s :
  SetEvaluationError v s =
  Some (tt, if v then put_HaltExecution true (put_EvaluationError v s) else put_EvaluationError v s).
Proof. by destruct v. Qed.
Definition ResetErrorFlags : M S unit :=
  _ ← modify (put_EvaluationError false);
  modify (put_HaltExecution false).
End flags.
