(* ===== verification/Keeps.v ===== *)
(** * What a computation keeps

    [Keeps f m]: however [m] runs, the part [f] of the state is what it was.
    The predicate is closed under the combinators of the monad, so its proofs
    follow the code ([walk]); output and the error flags come with the
    interfaces of [Router]. *)
From S2P Require Import Prelude Values Router.

Definition Keeps {St X A} (f : St → X) (m : M St A) : Prop :=
  ∀ s a s', m s = Some (a, s') → f s' = f s.

Section keeps.
Context {St X : Type} (f : St → X).

Lemma keeps_ret {A} (a : A) : Keeps f (mret a).
Proof. intros s a' s' [= <- <-]. done. Qed.
Lemma keeps_undefined {A} : Keeps f (A := A) undefined.
Proof. intros s a s' [=]. Qed.
Lemma keeps_gets {A} (g : St → A) : Keeps f (gets g).
Proof. intros s a s' [= <- <-]. done. Qed.
Lemma keeps_fromOption {A} (o : option A) : Keeps f (fromOption o).
Proof. intros s a s'. destruct o; [intros [= <- <-]; done|intros [=]]. Qed.
Lemma keeps_modify g : (∀ s, f (g s) = f s) → Keeps f (modify g).
Proof. intros Hg s a s' [= <- <-]. apply Hg. Qed.
Lemma keeps_bind {A B} (m : M St A) (k : A → M St B) :
  Keeps f m → (∀ a, Keeps f (k a)) → Keeps f (m ≫= k).
Proof.
  intros Hm Hk s b s'' (a & s' & H1 & H2)%M_bind_inv.
  rewrite (Hk a _ _ _ H2). eauto.
Qed.
Lemma keeps_whenM b (m : M St unit) : Keeps f m → Keeps f (whenM b m).
Proof. destruct b; [done|]. intros _. apply keeps_ret. Qed.
End keeps.

(** Follow the code: binds, conditionals and matches; the leaves by [tac]. *)
Ltac walk tac :=
  repeat first
    [ assumption
    | tac
    | match goal with |- ∀ _, _ => intro end
    | match goal with |- context [match ?x with _ => _ end] => destruct x end ].
Ltac keeps_base :=
  first
    [ apply keeps_ret | apply keeps_undefined | apply keeps_gets | apply keeps_fromOption
    | apply keeps_whenM | apply keeps_bind
    | apply keeps_modify; first [by intros [] | done] ].

(** ** Messages and flags *)

(** A view of the state that output and the two flags do not show in. *)
Class Insensitive {St X} `{!Router St, !EvalFlags St} (f : St → X) := {
  ins_output g s : f (map_output g s) = f s;
  ins_halt b s : f (put_HaltExecution b s) = f s;
  ins_error b s : f (put_EvaluationError b s) = f s;
}.

Create HintDb keeps.

Section keeps_messages.
Context {St X : Type} `{!Router St, !EvalFlags St} (f : St → X) `{!Insensitive f}.

Lemma keeps_write_item i : Keeps f (write_item i).
Proof. apply keeps_modify. intros s. apply ins_output. Qed.
Lemma keeps_WriteString l x : Keeps f (WriteString l x).
Proof. apply keeps_write_item. Qed.
Lemma keeps_SetHaltExecution b : Keeps f (SetHaltExecution b).
Proof. apply keeps_modify. intros s. apply ins_halt. Qed.
Lemma keeps_SetEvaluationError b : Keeps f (SetEvaluationError b).
Proof.
  intros s u s'. rewrite SetEvaluationError_Some. intros [= <- <-].
  destruct b; [rewrite ins_halt|]; apply ins_error.
Qed.
Lemma keeps_GetEvaluationError : Keeps f GetEvaluationError.
Proof. apply keeps_gets. Qed.
Lemma keeps_GetHaltExecution : Keeps f GetHaltExecution.
Proof. apply keeps_gets. Qed.
#[local] Hint Resolve keeps_write_item keeps_WriteString keeps_SetHaltExecution keeps_SetEvaluationError : keeps.

Ltac keeps_msg := walk ltac:(first [ solve [eauto with keeps] | keeps_base ]).
Lemma keeps_WriteInteger l z : Keeps f (WriteInteger l z).
Proof. apply keeps_WriteString. Qed.
#[local] Hint Resolve keeps_WriteInteger : keeps.
Lemma keeps_PrintErrorID m i b : Keeps f (PrintErrorID m i b).
Proof. unfold PrintErrorID. keeps_msg. Qed.
#[local] Hint Resolve keeps_PrintErrorID : keeps.
Lemma keeps_DivideByZero n : Keeps f (DivideByZeroErrorMessage n).
Proof. unfold DivideByZeroErrorMessage. keeps_msg. Qed.
Lemma keeps_Overflow n : Keeps f (ArgumentOverUnderflowErrorMessage n).
Proof. unfold ArgumentOverUnderflowErrorMessage. keeps_msg. Qed.
End keeps_messages.

#[export] Hint Resolve keeps_ret keeps_gets keeps_write_item keeps_WriteString keeps_SetHaltExecution
  keeps_SetEvaluationError keeps_GetEvaluationError keeps_GetHaltExecution
  keeps_WriteInteger keeps_PrintErrorID keeps_DivideByZero keeps_Overflow : keeps.
#[export] Hint Extern 2 (Insensitive _) => (apply _) : keeps.
