(* ===== verification/DList.v ===== *)
(** * Doubly linked lists in a store

    The agenda and the list of salience groups are intrusive doubly linked
    lists: every node carries its own [prev] and [next] pointers.  This file
    states, once for every node type, what it means that a store holds such a
    list, and that the pointer updates of the C code link and unlink a node. *)
From S2P Require Import Prelude.

(** A node type with two link fields; [payload] is everything else. *)
Class Linked (N P : Type) := {
  prv : N → option ptr;
  nxt : N → option ptr;
  set_prv : option ptr → N → N;
  set_nxt : option ptr → N → N;
  payload : N → P;
  prv_set_prv v n : prv (set_prv v n) = v;
  nxt_set_prv v n : nxt (set_prv v n) = nxt n;
  prv_set_nxt v n : prv (set_nxt v n) = prv n;
  nxt_set_nxt v n : nxt (set_nxt v n) = v;
  payload_set_prv v n : payload (set_prv v n) = payload n;
  payload_set_nxt v n : payload (set_nxt v n) = payload n;
}.

Definition hd_or {A} (l : list A) (n : option A) : option A :=
  match l with [] => n | x :: _ => Some x end.
Definition last_or {A} (p : option A) (l : list A) : option A :=
  match last l with None => p | s => s end.

(** Update the node at an optional address, nothing when it is [NULL]. *)
Definition upd_opt {N} (f : N → N) (o : option ptr) (h : gmap ptr N) : gmap ptr N :=
  match o with Some p => alter f p h | None => h end.

Lemma last_or_snoc {A} p (l : list A) x : last_or p (l ++ [x]) = Some x.
Proof. unfold last_or. by rewrite last_snoc. Qed.
Lemma last_or_cons {A} p (l : list A) x : last_or p (x :: l) = last_or (Some x) l.
Proof. unfold last_or. rewrite last_cons. by destruct (last l). Qed.
Lemma last_or_app {A} p (l1 l2 : list A) :
  last_or p (l1 ++ l2) = last_or (last_or p l1) l2.
Proof.
  unfold last_or. rewrite last_app. by destruct (last l2), (last l1).
Qed.
Lemma last_or_elem {A} (l : list A) x : last_or None l = Some x → x ∈ l.
Proof.
  unfold last_or. destruct (last l) eqn:E; [|done]. intros [= <-].
  apply last_Some in E as [l' ->]. set_solver.
Qed.
Lemma hd_or_app {A} (l1 l2 : list A) n : hd_or (l1 ++ l2) n = hd_or l1 (hd_or l2 n).
Proof. by destruct l1. Qed.
Lemma hd_or_elem {A} (l : list A) x : hd_or l None = Some x → x ∈ l.
Proof. destruct l; [done|]. intros [= ->]. set_solver. Qed.

Section dll.
Context {N P : Type} `{!Linked N P}.
Implicit Types (h : gmap ptr N) (l : list ptr).

(** [dseg h p l n]: the nodes [l] are linked in order in [h]; the first one's
    [prev] is [p], the last one's [next] is [n]. *)
Fixpoint dseg h (p : option ptr) l (n : option ptr) : Prop :=
  match l with
  | [] => True
  | x :: l' => ∃ a, h !! x = Some a ∧ prv a = p ∧ nxt a = hd_or l' n ∧ dseg h (Some x) l' n
  end.

(** A whole list: nothing before, nothing after, no node twice. *)
Definition dll h l : Prop := NoDup l ∧ dseg h None l None.

Lemma dseg_app h p l1 l2 n :
  dseg h p (l1 ++ l2) n ↔ dseg h p l1 (hd_or l2 n) ∧ dseg h (last_or p l1) l2 n.
Proof.
  revert p. induction l1 as [|x l1 IH]; intros p; simpl.
  { unfold last_or. simpl. naive_solver. }
  setoid_rewrite IH. rewrite hd_or_app, last_or_cons. naive_solver.
Qed.

Lemma dseg_ext h h' p l n :
  (∀ x, x ∈ l → h' !! x = h !! x) → dseg h p l n → dseg h' p l n.
Proof.
  revert p. induction l as [|x l IH]; intros p Heq; [done|].
  intros (a & Hx & Hp & Hn & Hl). exists a. rewrite Heq by set_solver.
  repeat split; [done..|]. apply IH; [|done]. set_solver.
Qed.

Lemma dseg_lookup h p l n x : dseg h p l n → x ∈ l → is_Some (h !! x).
Proof.
  revert p. induction l as [|y l IH]; intros p Hl Hx; [set_solver|].
  destruct Hl as (a & Hy & _ & _ & Hl).
  apply elem_of_cons in Hx as [->|Hx]; [eauto|]. eapply IH; eauto.
Qed.

Lemma dseg_mid h p l1 x l2 n a :
  dseg h p (l1 ++ x :: l2) n → h !! x = Some a →
  prv a = last_or p l1 ∧ nxt a = hd_or l2 n.
Proof. rewrite dseg_app. intros [_ (a' & ? & ? & ? & ?)] ?. naive_solver. Qed.

Lemma dseg_insert_notin h p l n x a : x ∉ l → dseg h p l n → dseg (<[x:=a]> h) p l n.
Proof. intros Hx. apply dseg_ext. intros y Hy. rewrite lookup_insert_ne; set_solver. Qed.
Lemma dseg_delete_notin h p l n x : x ∉ l → dseg h p l n → dseg (delete x h) p l n.
Proof. intros Hx. apply dseg_ext. intros y Hy. rewrite lookup_delete_ne; set_solver. Qed.
Lemma dseg_alter_notin h p l n x f : x ∉ l → dseg h p l n → dseg (alter f x h) p l n.
Proof. intros Hx. apply dseg_ext. intros y Hy. rewrite lookup_alter_ne; set_solver. Qed.

(** An update that keeps the links keeps the list. *)
Lemma dseg_alter_links h p l n x f :
  (∀ a, prv (f a) = prv a) → (∀ a, nxt (f a) = nxt a) →
  dseg h p l n → dseg (alter f x h) p l n.
Proof.
  intros Hp Hn. revert p. induction l as [|y l IH]; intros p; [done|].
  intros (a & Hy & Ha & Hb & Hl). destruct (decide (x = y)) as [->|].
  - exists (f a). rewrite lookup_alter_eq, Hy. simpl.
    rewrite Hp, Hn. naive_solver.
  - exists a. rewrite lookup_alter_ne by done. naive_solver.
Qed.

Lemma dseg_insert_links h p l n x a b :
  h !! x = Some a → prv b = prv a → nxt b = nxt a →
  dseg h p l n → dseg (<[x:=b]> h) p l n.
Proof.
  intros Hx Hp Hn. revert p. induction l as [|y l IH]; intros p; [done|].
  intros (c & Hy & Ha & Hb & Hl). destruct (decide (x = y)) as [->|].
  - exists b. rewrite lookup_insert_eq. simplify_eq. naive_solver congruence.
  - exists c. rewrite lookup_insert_ne by done. naive_solver.
Qed.

Lemma dseg_set_nxt h p l n n' x :
  x ∉ l → dseg h p (l ++ [x]) n → dseg (alter (set_nxt n') x h) p (l ++ [x]) n'.
Proof.
  intros Hx. rewrite !dseg_app. simpl. intros [Hl (a & Ha & Hp & Hn & _)].
  split; [by apply dseg_alter_notin|].
  exists (set_nxt n' a). rewrite lookup_alter_eq, Ha. simpl.
  by rewrite prv_set_nxt, nxt_set_nxt.
Qed.

Lemma dseg_set_prv h p p' l n x :
  x ∉ l → dseg h p (x :: l) n → dseg (alter (set_prv p') x h) p' (x :: l) n.
Proof.
  intros Hx (a & Ha & Hp & Hn & Hl).
  exists (set_prv p' a). rewrite lookup_alter_eq, Ha. simpl.
  rewrite prv_set_prv, nxt_set_prv. repeat split; [done..|].
  by apply dseg_alter_notin.
Qed.

(** The two link updates at the ends, [NULL] allowed. *)
Lemma dseg_upd_last h p l n n' :
  NoDup l → dseg h p l n → dseg (upd_opt (set_nxt n') (last_or None l) h) p l n'.
Proof.
  destruct l as [|y l _] using rev_ind; [done|].
  intros Hnd Hl. rewrite last_or_snoc. simpl.
  apply dseg_set_nxt with n; [|done].
  apply NoDup_app in Hnd as (_ & Hd & _). intros ?. apply (Hd y); set_solver.
Qed.
Lemma dseg_upd_first h p p' l n :
  NoDup l → dseg h p l n → dseg (upd_opt (set_prv p') (hd_or l None) h) p' l n.
Proof.
  destruct l as [|y l]; [done|]. intros Hnd Hl. simpl hd_or. simpl upd_opt.
  apply dseg_set_prv with p; [|done]. by apply NoDup_cons in Hnd as [? _].
Qed.
Lemma dseg_upd_opt_notin h p l n f o :
  (∀ x, o = Some x → x ∉ l) → dseg h p l n → dseg (upd_opt f o h) p l n.
Proof. destruct o; simpl; [|done]. intros Ho. apply dseg_alter_notin. by apply Ho. Qed.

Lemma upd_opt_lookup_notin f o h x : o ≠ Some x → upd_opt f o h !! x = h !! x.
Proof. destruct o; simpl; [|done]. intros ?. rewrite lookup_alter_ne; congruence. Qed.

Lemma upd_opt_comm f1 f2 o1 o2 h :
  (o1 = o2 → o1 = None) →
  upd_opt f1 o1 (upd_opt f2 o2 h) = upd_opt f2 o2 (upd_opt f1 o1 h).
Proof.
  destruct o1 as [x|], o2 as [y|]; simpl; try done. intros Hne.
  apply alter_alter_ne. intros ->. by specialize (Hne eq_refl).
Qed.
Lemma upd_opt_is_Some f o h k : is_Some (upd_opt f o h !! k) ↔ is_Some (h !! k).
Proof. destruct o; simpl; [|done]. apply lookup_alter_is_Some. Qed.

(** Linking [x] between [l1] and [l2]. *)
Lemma dll_link h l1 l2 x a :
  dll h (l1 ++ l2) → x ∉ l1 ++ l2 →
  prv a = last_or None l1 → nxt a = hd_or l2 None →
  dll (upd_opt (set_prv (Some x)) (hd_or l2 None)
       (upd_opt (set_nxt (Some x)) (last_or None l1) (<[x:=a]> h))) (l1 ++ x :: l2).
Proof.
  intros [Hnd Hd] Hx Hp Hn. split.
  { rewrite <- Permutation_middle. by apply NoDup_cons. }
  apply NoDup_app in Hnd as (Hnd1 & Hdisj & Hnd2).
  rewrite dseg_app in Hd. destruct Hd as [Hd1 Hd2].
  apply dseg_app. split; simpl.
  - apply dseg_upd_opt_notin.
    { intros y Hy%hd_or_elem ?. by apply (Hdisj y). }
    apply dseg_upd_last with (hd_or l2 None); [done|].
    apply dseg_insert_notin; [set_solver|done].
  - exists a. rewrite !upd_opt_lookup_notin, lookup_insert_eq.
    { repeat split; [done..|].
      apply dseg_upd_first with (last_or None l1); [done|].
      apply dseg_upd_opt_notin.
      { intros y Hy%last_or_elem ?. by apply (Hdisj y). }
      apply dseg_insert_notin; [set_solver|done]. }
    { intros Hy%last_or_elem. set_solver. }
    { intros Hy%hd_or_elem. set_solver. }
Qed.

(** Unlinking [x]; the node itself is left as it is. *)
Lemma dll_unlink h l1 l2 x :
  dll h (l1 ++ x :: l2) →
  dll (upd_opt (set_prv (last_or None l1)) (hd_or l2 None)
       (upd_opt (set_nxt (hd_or l2 None)) (last_or None l1) h)) (l1 ++ l2).
Proof.
  intros [Hnd Hd]. rewrite <- Permutation_middle in Hnd.
  apply NoDup_cons in Hnd as [Hx Hnd]. split; [done|].
  apply NoDup_app in Hnd as (Hnd1 & Hdisj & Hnd2).
  rewrite dseg_app in Hd. destruct Hd as [Hd1 (a & Ha & Hp & Hn & Hd2)].
  apply dseg_app. split.
  - apply dseg_upd_opt_notin.
    { intros y Hy%hd_or_elem ?. by apply (Hdisj y). }
    by apply dseg_upd_last with (hd_or (x :: l2) None).
  - apply dseg_upd_first with (Some x); [done|].
    apply dseg_upd_opt_notin; [|done].
    intros y Hy%last_or_elem ?. by apply (Hdisj y).
Qed.

(** Link updates never touch the payload. *)
Lemma payload_upd_prv h v o k :
  payload <$> upd_opt (set_prv v) o h !! k = payload <$> h !! k.
Proof.
  destruct o as [x|]; simpl; [|done]. destruct (decide (x = k)) as [->|].
  - rewrite lookup_alter_eq. destruct (h !! k); simpl; [|done]. by rewrite payload_set_prv.
  - by rewrite lookup_alter_ne.
Qed.
Lemma payload_upd_nxt h v o k :
  payload <$> upd_opt (set_nxt v) o h !! k = payload <$> h !! k.
Proof.
  destruct o as [x|]; simpl; [|done]. destruct (decide (x = k)) as [->|].
  - rewrite lookup_alter_eq. destruct (h !! k); simpl; [|done]. by rewrite payload_set_nxt.
  - by rewrite lookup_alter_ne.
Qed.

Lemma dll_nil h : dll h [].
Proof. split; [constructor|done]. Qed.
Lemma dll_NoDup h l : dll h l → NoDup l.
Proof. by intros [? _]. Qed.
Lemma dll_ext h h' l : (∀ x, x ∈ l → h' !! x = h !! x) → dll h l → dll h' l.
Proof. intros ? [? ?]. split; [done|]. by eapply dseg_ext. Qed.
Lemma dll_mid h l1 x l2 a :
  dll h (l1 ++ x :: l2) → h !! x = Some a →
  prv a = last_or None l1 ∧ nxt a = hd_or l2 None.
Proof. intros [_ ?]. by apply dseg_mid. Qed.
Lemma dll_insert_links h l x a b :
  h !! x = Some a → prv b = prv a → nxt b = nxt a → dll h l → dll (<[x:=b]> h) l.
Proof. intros ? ? ? [? ?]. split; [done|]. by eapply dseg_insert_links. Qed.
Lemma dll_lookup h l x : dll h l → x ∈ l → is_Some (h !! x).
Proof. intros [_ ?]. by eapply dseg_lookup. Qed.
End dll.

#[export] Hint Resolve dll_nil dll_NoDup : clips.
