(* ===== verification/AgendaState.v ===== *)
(** * The state of the agenda

    The structures of [agenda.h], [ruledef.h], [match.h] and the part of
    [engine.h] the agenda uses, with the store they live in: activations,
    salience groups, modules, rules and partial matches each have an address,
    and the intrusive links are fields of the nodes, as in C. *)
From S2P Require Import Prelude Router DList Values.

Inductive StrategyType :=
  | DEPTH_STRATEGY | BREADTH_STRATEGY | LEX_STRATEGY | MEA_STRATEGY
  | COMPLEXITY_STRATEGY | SIMPLICITY_STRATEGY | RANDOM_STRATEGY.

Inductive SalienceEvaluationType := WHEN_DEFINED | WHEN_ACTIVATED | EVERY_CYCLE.

#[export] Instance StrategyType_eq_dec : EqDecision StrategyType.
Proof. solve_decision. Defined.
#[export] Instance SalienceEvaluationType_eq_dec : EqDecision SalienceEvaluationType.
Proof. solve_decision. Defined.

Definition MAX_DEFRULE_SALIENCE : Z := 10000.
Definition MIN_DEFRULE_SALIENCE : Z := -10000.

(** [struct activation] *)
Record Activation := mkActivation {
  theRule : ptr;
  basis : option ptr;
  act_salience : Z;
  timetag : Z;
  randomID : Z;
  act_prev : option ptr;
  act_next : option ptr;
}.

(** [struct salienceGroup] *)
Record SalienceGroup := mkSalienceGroup {
  sg_salience : Z;
  sg_first : option ptr;
  sg_last : option ptr;
  sg_next : option ptr;
  sg_prev : option ptr;
}.

(** A module and its [struct defruleModule] item, which share an address here:
    [GetDefruleModuleItem] is a bijection between the two. *)
Record DefruleModule := mkDefruleModule {
  module_name : string;
  groupings : option ptr;
  agenda : option ptr;
}.

Record PatternEntity := mkPatternEntity { timeTag : Z }.
(** [struct alphaMatch]; [None] is a [NULL] [matchingItem]. *)
Record AlphaMatch := mkAlphaMatch { matchingItem : option PatternEntity }.
(** [struct partialMatch]: [binds] are the [gm.theMatch] pointers, [None] for
    [NULL], and [bcount] is their number. *)
Record PartialMatch := mkPartialMatch {
  binds : list (option AlphaMatch);
  marker : option ptr;
}.

Definition bcount (m : PartialMatch) : nat := length (binds m).

(** [struct defrule]; [leftMemory] lists [lastJoin->leftMemory->beta], a list
    of partial matches per bucket, and [ruleToActivate] says whether
    [lastJoin->ruleToActivate] is set. *)
Record Defrule (E : Type) := mkDefrule {
  rule_name : string;
  whichModule : ptr;
  salience : Z;
  complexity : Z;
  watchActivation : bool;
  autoFocus : bool;
  dynamicSalience : option E;
  leftMemory : list (list ptr);
  ruleToActivate : bool;
  disjunct : option ptr;
}.
Arguments mkDefrule {E}. Arguments rule_name {E}. Arguments whichModule {E}.
Arguments salience {E}. Arguments complexity {E}. Arguments watchActivation {E}.
Arguments autoFocus {E}. Arguments dynamicSalience {E}. Arguments leftMemory {E}.
Arguments ruleToActivate {E}. Arguments disjunct {E}.

(** The rest of the system, as the agenda sees it: [rand] and the evaluator of
    salience expressions, which returns the error flag and the value. *)
Class Host (H E : Type) := {
  rand : H → Z * H;
  EvaluateSalienceExpression : E → H → bool * UDFValue * H;
}.

(** The objects, by address. *)
Record Store (E : Type) := mkStore {
  acts : gmap ptr Activation;
  groups : gmap ptr SalienceGroup;
  modules : gmap ptr DefruleModule;
  rules : gmap ptr (Defrule E);
  matches : gmap ptr PartialMatch;
}.
Arguments mkStore {E}. Arguments acts {E}. Arguments groups {E}.
Arguments modules {E}. Arguments rules {E}. Arguments matches {E}.

(** [struct agendaData]; [NumberOfActivations] and [CurrentTimetag] are 64-bit
    unsigned. *)
Record AgendaData := mkAgendaData {
  NumberOfActivations : Z;
  CurrentTimetag : Z;
  AgendaChanged : bool;
  SalienceEvaluation : SalienceEvaluationType;
  Strategy : StrategyType;
}.

(** The fields of [struct engineData] the agenda and the focus stack use;
    [CurrentFocus] is the stack of [focalModule]s, top first. *)
Record EngineData := mkEngineData {
  CurrentFocus : list ptr;
  FocusChanged : bool;
  WatchFocus : bool;
}.

(** The fields of [struct defmoduleData] for the current module; [ModuleStack]
    is the stack of [moduleStackItem]s: change flag and module.  The registered
    [AfterModuleChangeFunctions] are not modelled. *)
Record DefmoduleData := mkDefmoduleData {
  ListOfDefmodules : list ptr;
  CurrentModule : option ptr;
  CallModuleChangeFunctions : bool;
  ModuleChangeIndex : Z;
  ModuleStack : list (bool * option ptr);
}.

(** The flags of [evaluationData] and [constructData] the agenda reads;
    [CurrentExpression] says whether an expression is being evaluated. *)
Record Flags := mkFlags {
  EvaluationError : bool;
  HaltExecution : bool;
  CurrentExpression : bool;
  ClearReadyInProgress : bool;
  ClearInProgress : bool;
}.

Record Environment (H E : Type) := mkEnvironment {
  store : Store E;
  agendaData : AgendaData;
  engineData : EngineData;
  defmoduleData : DefmoduleData;
  flags : Flags;
  output : list output_item;
  host : H;
}.
Arguments mkEnvironment {H E}. Arguments store {H E}. Arguments agendaData {H E}.
Arguments engineData {H E}. Arguments defmoduleData {H E}. Arguments flags {H E}.
Arguments output {H E}. Arguments host {H E}.

(** ** Field assignments *)

Definition set_theRule v a := mkActivation v (basis a) (act_salience a) (timetag a) (randomID a) (act_prev a) (act_next a).
Definition set_act_salience v a := mkActivation (theRule a) (basis a) v (timetag a) (randomID a) (act_prev a) (act_next a).
Definition set_act_prev v a := mkActivation (theRule a) (basis a) (act_salience a) (timetag a) (randomID a) v (act_next a).
Definition set_act_next v a := mkActivation (theRule a) (basis a) (act_salience a) (timetag a) (randomID a) (act_prev a) v.
Definition set_sg_first v g := mkSalienceGroup (sg_salience g) v (sg_last g) (sg_next g) (sg_prev g).
Definition set_sg_last v g := mkSalienceGroup (sg_salience g) (sg_first g) v (sg_next g) (sg_prev g).
Definition set_sg_next v g := mkSalienceGroup (sg_salience g) (sg_first g) (sg_last g) v (sg_prev g).
Definition set_sg_prev v g := mkSalienceGroup (sg_salience g) (sg_first g) (sg_last g) (sg_next g) v.
Definition set_groupings v m := mkDefruleModule (module_name m) v (agenda m).
Definition set_agenda v m := mkDefruleModule (module_name m) (groupings m) v.
Definition set_marker v m := mkPartialMatch (binds m) v.
Definition set_salience {E} v (r : Defrule E) :=
  mkDefrule (rule_name r) (whichModule r) v (complexity r) (watchActivation r) (autoFocus r)
    (dynamicSalience r) (leftMemory r) (ruleToActivate r) (disjunct r).

Section setters.
Context {H E : Type}.
Implicit Types (st : Store E) (s : Environment H E).

Definition with_acts (f : gmap ptr Activation → gmap ptr Activation) st : Store E := mkStore (f (acts st)) (groups st) (modules st) (rules st) (matches st).
Definition with_groups (f : gmap ptr SalienceGroup → gmap ptr SalienceGroup) st : Store E := mkStore (acts st) (f (groups st)) (modules st) (rules st) (matches st).
Definition with_modules (f : gmap ptr DefruleModule → gmap ptr DefruleModule) st : Store E := mkStore (acts st) (groups st) (f (modules st)) (rules st) (matches st).
Definition with_rules (f : gmap ptr (Defrule E) → gmap ptr (Defrule E)) st : Store E := mkStore (acts st) (groups st) (modules st) (f (rules st)) (matches st).
Definition with_matches (f : gmap ptr PartialMatch → gmap ptr PartialMatch) st : Store E := mkStore (acts st) (groups st) (modules st) (rules st) (f (matches st)).

Definition with_store (f : Store E → Store E) s : Environment H E :=
  mkEnvironment (f (store s)) (agendaData s) (engineData s) (defmoduleData s) (flags s) (output s) (host s).
Definition with_agendaData (f : AgendaData → AgendaData) s : Environment H E :=
  mkEnvironment (store s) (f (agendaData s)) (engineData s) (defmoduleData s) (flags s) (output s) (host s).
Definition with_engineData (f : EngineData → EngineData) s : Environment H E :=
  mkEnvironment (store s) (agendaData s) (f (engineData s)) (defmoduleData s) (flags s) (output s) (host s).
Definition with_defmoduleData (f : DefmoduleData → DefmoduleData) s : Environment H E :=
  mkEnvironment (store s) (agendaData s) (engineData s) (f (defmoduleData s)) (flags s) (output s) (host s).
Definition with_flags (f : Flags → Flags) s : Environment H E :=
  mkEnvironment (store s) (agendaData s) (engineData s) (defmoduleData s) (f (flags s)) (output s) (host s).
Definition with_output (f : list output_item → list output_item) s : Environment H E :=
  mkEnvironment (store s) (agendaData s) (engineData s) (defmoduleData s) (flags s) (f (output s)) (host s).
Definition with_host (f : H → H) s : Environment H E :=
  mkEnvironment (store s) (agendaData s) (engineData s) (defmoduleData s) (flags s) (output s) (f (host s)).
End setters.

Definition set_NumberOfActivations v d := mkAgendaData v (CurrentTimetag d) (AgendaChanged d) (SalienceEvaluation d) (Strategy d).
Definition set_CurrentTimetag v d := mkAgendaData (NumberOfActivations d) v (AgendaChanged d) (SalienceEvaluation d) (Strategy d).
Definition set_AgendaChanged v d := mkAgendaData (NumberOfActivations d) (CurrentTimetag d) v (SalienceEvaluation d) (Strategy d).
Definition set_SalienceEvaluation v d := mkAgendaData (NumberOfActivations d) (CurrentTimetag d) (AgendaChanged d) v (Strategy d).
Definition set_Strategy v d := mkAgendaData (NumberOfActivations d) (CurrentTimetag d) (AgendaChanged d) (SalienceEvaluation d) v.
Definition set_CurrentFocus v d := mkEngineData v (FocusChanged d) (WatchFocus d).
Definition set_FocusChanged v d := mkEngineData (CurrentFocus d) v (WatchFocus d).
Definition set_CurrentModule v d := mkDefmoduleData (ListOfDefmodules d) v (CallModuleChangeFunctions d) (ModuleChangeIndex d) (ModuleStack d).
Definition set_CallModuleChangeFunctions v d := mkDefmoduleData (ListOfDefmodules d) (CurrentModule d) v (ModuleChangeIndex d) (ModuleStack d).
Definition set_ModuleChangeIndex v d := mkDefmoduleData (ListOfDefmodules d) (CurrentModule d) (CallModuleChangeFunctions d) v (ModuleStack d).
Definition set_ModuleStack v d := mkDefmoduleData (ListOfDefmodules d) (CurrentModule d) (CallModuleChangeFunctions d) (ModuleChangeIndex d) v.
Definition set_EvaluationError v d := mkFlags v (HaltExecution d) (CurrentExpression d) (ClearReadyInProgress d) (ClearInProgress d).
Definition set_HaltExecution v d := mkFlags (EvaluationError d) v (CurrentExpression d) (ClearReadyInProgress d) (ClearInProgress d).

#[export] Instance Environment_Router {H E} : Router (Environment H E) := {
  map_output := with_output;
}.
#[export] Instance Environment_EvalFlags {H E} : EvalFlags (Environment H E) := {
  get_EvaluationError s := EvaluationError (flags s);
  get_HaltExecution s := HaltExecution (flags s);
  put_EvaluationError v := with_flags (set_EvaluationError v);
  put_HaltExecution v := with_flags (set_HaltExecution v);
}.

(** ** The two kinds of linked nodes *)

#[export] Program Instance Activation_Linked : Linked Activation (ptr * option ptr * Z * Z * Z) := {|
  prv := act_prev; nxt := act_next; set_prv := set_act_prev; set_nxt := set_act_next;
  payload a := (theRule a, basis a, act_salience a, timetag a, randomID a);
|}.
Solve All Obligations with done.

#[export] Program Instance SalienceGroup_Linked : Linked SalienceGroup (Z * option ptr * option ptr) := {|
  prv := sg_prev; nxt := sg_next; set_prv := set_sg_prev; set_nxt := set_sg_next;
  payload g := (sg_salience g, sg_first g, sg_last g);
|}.
Solve All Obligations with done.

(** ** Memory accesses *)

Section access.
Context {H E : Type}.
Abbreviation MA := (M (Environment H E)).

(** Reading and writing through a pointer is undefined unless the object is live. *)
Definition load_act (p : ptr) : MA Activation := s ← gets store; fromOption (acts s !! p).
Definition load_group (p : ptr) : MA SalienceGroup := s ← gets store; fromOption (groups s !! p).
Definition load_module (p : ptr) : MA DefruleModule := s ← gets store; fromOption (modules s !! p).
Definition load_rule (p : ptr) : MA (Defrule E) := s ← gets store; fromOption (rules s !! p).
Definition load_match (p : ptr) : MA PartialMatch := s ← gets store; fromOption (matches s !! p).

Definition update_act (p : ptr) (f : Activation → Activation) : MA unit :=
  load_act p ≫= fun _ => modify (with_store (with_acts (alter f p))).
Definition update_group (p : ptr) (f : SalienceGroup → SalienceGroup) : MA unit :=
  load_group p ≫= fun _ => modify (with_store (with_groups (alter f p))).
Definition update_module (p : ptr) (f : DefruleModule → DefruleModule) : MA unit :=
  load_module p ≫= fun _ => modify (with_store (with_modules (alter f p))).
Definition update_rule (p : ptr) (f : Defrule E → Defrule E) : MA unit :=
  load_rule p ≫= fun _ => modify (with_store (with_rules (alter f p))).
Definition update_match (p : ptr) (f : PartialMatch → PartialMatch) : MA unit :=
  load_match p ≫= fun _ => modify (with_store (with_matches (alter f p))).

(** Dereferencing a pointer that may be [NULL]. *)
Definition deref (o : option ptr) : MA ptr := fromOption o.

(** [get_struct] and [rtn_struct]. *)
Definition alloc_act (a : Activation) : MA ptr :=
  s ← gets store; let p := fresh_ptr (acts s) in
  _ ← modify (with_store (with_acts <[p := a]>)); mret p.
Definition free_act (p : ptr) : MA unit :=
  load_act p ≫= fun _ => modify (with_store (with_acts (delete p))).
Definition alloc_group (g : SalienceGroup) : MA ptr :=
  s ← gets store; let p := fresh_ptr (groups s) in
  _ ← modify (with_store (with_groups <[p := g]>)); mret p.
Definition free_group (p : ptr) : MA unit :=
  load_group p ≫= fun _ => modify (with_store (with_groups (delete p))).
End access.
Abbreviation MA H E := (M (Environment H E)).
