(* ===== verification/Strategy.v ===== *)
(** * Conflict resolution strategies

    [crstrtgy.c]: where a new activation goes on the agenda.  Each
    [Place...Activation] function finds, within the salience group of the new
    activation, the activation after which it is to be linked ([None] for the
    top of the agenda) and updates the group's [first] and [last]. *)
From S2P Require Import Prelude DList Values AgendaState.

Inductive comparison3 := LESS_THAN | GREATER_THAN | EQUAL.
#[export] Instance comparison3_eq_dec : EqDecision comparison3.
Proof. solve_decision. Defined.

Section strategy.
Context {H E : Type}.
Abbreviation MA := (M (Environment H E)).

(** ** SortPartialMatch *)

(** The timetag stored for one bind: 0 for a negated pattern. *)
Definition bind_timetag (b : option AlphaMatch) : Z :=
  match b with
  | Some a => match matchingItem a with Some e => timeTag e | None => 0 end
  | None => 0
  end.

(** One pass [for (j = 0; j < k; j++)] of the exchange sort: the array after
    the pass and the [flag] that says whether anything was exchanged. *)
Fixpoint sort_pass (k : nat) (l : list Z) : list Z * bool :=
  match k, l with
  | S k', x :: y :: l' =>
    if (x <? y)%Z
    then let '(r, _) := sort_pass k' (x :: l') in (y :: r, true)
    else let '(r, flag) := sort_pass k' (y :: l') in (x :: r, flag)
  | _, _ => (l, false)
  end.

(** [for (flag = true, k = bcount - 1; flag == true; k--)]; [fuel] bounds the
    number of passes. *)
Fixpoint sort_loop (fuel : nat) (flag : bool) (k : nat) (l : list Z) : option (list Z) :=
  if flag then
  match fuel with
  | O => None
  | S fuel' => let '(l', flag') := sort_pass k l in sort_loop fuel' flag' (k - 1) l'
  end
  else Some l.

(** With no binds at all [bcount - 1] wraps to 65535 and the pass runs off the
    array: undefined. *)
Definition SortPartialMatch (m : PartialMatch) : option (list Z) :=
  match bcount m with
  | O => None
  | S k => sort_loop (S (S k)) true k (bind_timetag <$> binds m)
  end.

(** ** ComparePartialMatches *)

(** [for (i = 0; i < mCount; i++)]: the first difference, if any. *)
Fixpoint compare_timetags (mCount : nat) (basis1 basis2 : list Z) : option comparison3 :=
  match mCount, basis1, basis2 with
  | S n, x :: b1, y :: b2 =>
    if (x <? y)%Z then Some LESS_THAN
    else if (x >? y)%Z then Some GREATER_THAN
    else compare_timetags n b1 b2
  | _, _, _ => None
  end.

Definition ComparePartialMatches (actPtr newActivation : Activation) : MA comparison3 :=
  nb ← deref (basis newActivation); nm ← load_match nb;
  basis1 ← fromOption (SortPartialMatch nm);
  ab ← deref (basis actPtr); am ← load_match ab;
  basis2 ← fromOption (SortPartialMatch am);
  let cCount := bcount nm in
  let oCount := bcount am in
  let mCount := if (cCount <? oCount)%nat then cCount else oCount in
  match compare_timetags mCount basis1 basis2 with
  | Some r => mret r
  | None =>
    if (cCount <? oCount)%nat then mret LESS_THAN
    else if (oCount <? cCount)%nat then mret GREATER_THAN
    else
      nr ← load_rule (theRule newActivation);
      ar ← load_rule (theRule actPtr);
      if (complexity nr <? complexity ar)%Z then mret LESS_THAN
      else if (complexity nr >? complexity ar)%Z then mret GREATER_THAN
      else mret EQUAL
  end.

(** ** Searching a salience group *)

(** [lastAct] before the search: the last activation of the preceding group. *)
Definition initial_lastAct (theGroup : SalienceGroup) : MA (option ptr) :=
  match sg_prev theGroup with
  | None => mret None
  | Some p => g ← load_group p; mret (sg_last g)
  end.

(** The loop the forward strategies share: starting at [actPtr], step over
    the activations the new one goes after, but not past the group's last. *)
Fixpoint find_forward (fuel : nat) (goes_after : Activation → MA bool)
  (group_last lastAct actPtr : option ptr) : MA (option ptr) :=
  match actPtr with
  | None => mret lastAct
  | Some p =>
    match fuel with
    | O => undefined
    | S fuel' =>
        a ← load_act p;
        b ← goes_after a;
        if (b : bool) then
          if decide (Some p = group_last) then mret (Some p)
          else find_forward fuel' goes_after group_last (Some p) (act_next a)
        else mret lastAct
    end
  end.

(** The loop of the breadth strategy, from the group's last activation
    backwards; [before_group] is [theGroup->prev->last] or [NULL]. *)
Fixpoint find_backward (fuel : nat) (tag : Z)
  (group_first before_group lastAct actPtr : option ptr) : MA (option ptr) :=
  match actPtr with
  | None => mret lastAct
  | Some p =>
    match fuel with
    | O => undefined
    | S fuel' =>
        a ← load_act p;
        if (tag <? timetag a)%Z then
          if decide (Some p = group_first) then mret before_group
          else find_backward fuel' tag group_first before_group lastAct (act_prev a)
        else mret (Some p)
    end
  end.

(** "Update the salience group information." *)
Definition update_salience_group (gp : ptr) (newActivation : ptr) (lastAct : option ptr) : MA unit :=
  g ← load_group gp;
  prev_last ← initial_lastAct g;
  _ ← whenM (bool_decide (lastAct = None ∨ (sg_prev g ≠ None ∧ prev_last = lastAct)))
      (update_group gp (set_sg_first (Some newActivation)));
  whenM (bool_decide (sg_last g = None ∨ sg_last g = lastAct))
  (update_group gp (set_sg_last (Some newActivation))).

(** Every live activation can be visited at most once. *)
Definition search_fuel : MA nat := s ← gets store; mret (S (size (acts s))).

Definition PlaceForward (goes_after : Activation → MA bool) (newActivation gp : ptr) : MA (option ptr) :=
  g ← load_group gp;
  lastAct0 ← initial_lastAct g;
  fuel ← search_fuel;
  lastAct ← find_forward fuel goes_after (sg_last g) lastAct0 (sg_first g);
  _ ← update_salience_group gp newActivation lastAct;
  mret lastAct.

Definition PlaceDepthActivation (newActivation gp : ptr) : MA (option ptr) :=
  new ← load_act newActivation;
  PlaceForward (fun a => mret (timetag new <? timetag a)%Z) newActivation gp.

Definition PlaceBreadthActivation (newActivation gp : ptr) : MA (option ptr) :=
  new ← load_act newActivation;
  g ← load_group gp;
  before_group ← initial_lastAct g;
  let lastAct0 := match sg_last g with None => before_group | l => l end in
  fuel ← search_fuel;
  lastAct ← find_backward fuel (timetag new) (sg_first g) before_group lastAct0 (sg_last g);
  _ ← update_salience_group gp newActivation lastAct;
  mret lastAct.

(** The tie rule of the lex and mea strategies. *)
Definition flag_goes_after (flag : comparison3) (new a : Activation) : bool :=
  match flag with
  | LESS_THAN => true
  | GREATER_THAN => false
  | EQUAL => (timetag new >? timetag a)%Z
  end.

Definition lex_goes_after (new a : Activation) : MA bool :=
  flag ← ComparePartialMatches a new; mret (flag_goes_after flag new a).

(** "Look first at the very end of the group": then the generic search. *)
Definition PlaceAtEndOrForward (at_end goes_after : Activation → MA bool)
  (newActivation gp : ptr) : MA (option ptr) :=
  g ← load_group gp;
  match sg_last g with
  | Some lp =>
    a ← load_act lp;
    b ← at_end a;
    if (b : bool) then
      _ ← update_group gp (set_sg_last (Some newActivation)); mret (Some lp)
    else PlaceForward goes_after newActivation gp
  | None => PlaceForward goes_after newActivation gp
  end.

Definition PlaceLEXActivation (newActivation gp : ptr) : MA (option ptr) :=
  new ← load_act newActivation;
  PlaceAtEndOrForward (lex_goes_after new) (lex_goes_after new) newActivation gp.

(** [GetMatchingItem(x,0)] *)
Definition GetMatchingItem0 (x : Activation) : MA (option PatternEntity) :=
  b ← deref (basis x); m ← load_match b;
  b0 ← fromOption (binds m !! 0);
  mret (b0 ≫= matchingItem).

(** The comparison against the group's last activation. *)
Definition mea_flag_at_end (new a : Activation) : MA comparison3 :=
  c ← GetMatchingItem0 new;
  o ← GetMatchingItem0 a;
  match c, o with
  | None, None => ComparePartialMatches a new
  | Some _, None => mret GREATER_THAN
  | None, Some _ => mret LESS_THAN
  | Some ce, Some oe =>
    if (timeTag oe <? timeTag ce)%Z then mret GREATER_THAN
    else if (timeTag oe >? timeTag ce)%Z then mret LESS_THAN
    else ComparePartialMatches a new
  end.

(** The comparison inside the search loop. *)
Definition mea_flag (new a : Activation) : MA comparison3 :=
  c ← GetMatchingItem0 new;
  o ← GetMatchingItem0 a;
  let cWhoset := match c with Some e => timeTag e | None => 0 end%Z in
  let oWhoset := match o with Some e => timeTag e | None => 0 end%Z in
  if (oWhoset <? cWhoset)%Z then
  mret (if (cWhoset >? 0)%Z then GREATER_THAN else LESS_THAN)
  else if (oWhoset >? cWhoset)%Z then
  mret (if (oWhoset >? 0)%Z then LESS_THAN else GREATER_THAN)
  else ComparePartialMatches a new.

Definition PlaceMEAActivation (newActivation gp : ptr) : MA (option ptr) :=
  new ← load_act newActivation;
  PlaceAtEndOrForward
  (fun a => flag ← mea_flag_at_end new a; mret (flag_goes_after flag new a))
  (fun a => flag ← mea_flag new a; mret (flag_goes_after flag new a))
  newActivation gp.

Definition PlaceComplexityActivation (newActivation gp : ptr) : MA (option ptr) :=
  new ← load_act newActivation;
  nr ← load_rule (theRule new);
  PlaceForward (fun a =>
  ar ← load_rule (theRule a);
  mret (if (complexity nr <? complexity ar)%Z then true
        else if (complexity nr >? complexity ar)%Z then false
        else (timetag new >? timetag a)%Z)) newActivation gp.

Definition PlaceSimplicityActivation (newActivation gp : ptr) : MA (option ptr) :=
  new ← load_act newActivation;
  nr ← load_rule (theRule new);
  PlaceForward (fun a =>
  ar ← load_rule (theRule a);
  mret (if (complexity nr >? complexity ar)%Z then true
        else if (complexity nr <? complexity ar)%Z then false
        else (timetag new >? timetag a)%Z)) newActivation gp.

Definition PlaceRandomActivation (newActivation gp : ptr) : MA (option ptr) :=
  new ← load_act newActivation;
  PlaceForward (fun a =>
  mret (if (randomID new >? randomID a)%Z then true
        else if (randomID new <? randomID a)%Z then false
        else (timetag new >? timetag a)%Z)) newActivation gp.

(** ** PlaceActivation *)

Definition place_by_strategy (strategy : StrategyType) : ptr → ptr → MA (option ptr) :=
  match strategy with
  | DEPTH_STRATEGY => PlaceDepthActivation
  | BREADTH_STRATEGY => PlaceBreadthActivation
  | LEX_STRATEGY => PlaceLEXActivation
  | MEA_STRATEGY => PlaceMEAActivation
  | COMPLEXITY_STRATEGY => PlaceComplexityActivation
  | SIMPLICITY_STRATEGY => PlaceSimplicityActivation
  | RANDOM_STRATEGY => PlaceRandomActivation
  end.

(** Linking the new activation into the agenda of module [m]. *)
Definition link_activation (m newActivation : ptr) (placeAfter : option ptr) : MA unit :=
  match placeAfter with
  | None =>
    md ← load_module m;
    _ ← update_act newActivation (set_act_next (agenda md));
    _ ← update_module m (set_agenda (Some newActivation));
    match agenda md with
    | Some p => update_act p (set_act_prev (Some newActivation))
    | None => mret tt
    end
  | Some q =>
    qa ← load_act q;
    _ ← update_act newActivation (set_act_next (act_next qa));
    _ ← update_act newActivation (set_act_prev (Some q));
    _ ← update_act q (set_act_next (Some newActivation));
    match act_next qa with
    | Some p => update_act p (set_act_prev (Some newActivation))
    | None => mret tt
    end
  end.

Definition SetAgendaChanged (v : bool) : MA unit :=
  modify (with_agendaData (set_AgendaChanged v)).

(** [whichAgenda] is [&module->agenda], given here by the module. *)
Definition PlaceActivation (whichAgenda newActivation theGroup : ptr) : MA unit :=
  _ ← SetAgendaChanged true;
  md ← load_module whichAgenda;
  d ← gets agendaData;
  placeAfter ← (match agenda md with
  | Some _ => place_by_strategy (Strategy d) newActivation theGroup
  | None =>
      _ ← update_group theGroup (set_sg_first (Some newActivation));
      _ ← update_group theGroup (set_sg_last (Some newActivation));
      mret None
  end);
  link_activation whichAgenda newActivation placeAfter.

Definition GetStrategy : MA StrategyType := d ← gets agendaData; mret (Strategy d).

Definition GetStrategyName (strategy : StrategyType) : string :=
  match strategy with
  | DEPTH_STRATEGY => "depth"
  | BREADTH_STRATEGY => "breadth"
  | LEX_STRATEGY => "lex"
  | MEA_STRATEGY => "mea"
  | COMPLEXITY_STRATEGY => "complexity"
  | SIMPLICITY_STRATEGY => "simplicity"
  | RANDOM_STRATEGY => "random"
  end.

(** The [strcmp] chain of [SetStrategyCommand]. *)
Definition strategy_of_argument (argument : string) : option StrategyType :=
  if decide (argument = "depth") then Some DEPTH_STRATEGY
  else if decide (argument = "breadth") then Some BREADTH_STRATEGY
  else if decide (argument = "lex") then Some LEX_STRATEGY
  else if decide (argument = "mea") then Some MEA_STRATEGY
  else if decide (argument = "complexity") then Some COMPLEXITY_STRATEGY
  else if decide (argument = "simplicity") then Some SIMPLICITY_STRATEGY
  else if decide (argument = "random") then Some RANDOM_STRATEGY
  else None.
End strategy.
