(* ===== verification/StrategyProofs.v ===== *)
(** * The order each strategy keeps

    Every strategy orders the activations of a salience group by a key, a list
    of integers compared lexicographically.  This file defines the keys,
    proves the exchange sort of [SortPartialMatch] correct, and shows that the
    tests of the [Place...] loops decide that order. *)
From S2P Require Import Prelude DList Values AgendaState Strategy.
From Stdlib Require Import Sorting.Sorted Sorting.Permutation.

(** ** The lexicographic order *)

Fixpoint lexlt (l1 l2 : list Z) : bool :=
  match l1, l2 with
  | [], [] => false
  | [], _ :: _ => true
  | _ :: _, [] => false
  | x :: l1', y :: l2' => if (x <? y)%Z then true else if (y <? x)%Z then false else lexlt l1' l2'
  end.

Ltac zcases :=
  repeat match goal with
  | |- context [(?x <? ?y)%Z] => destruct (Z.ltb_spec x y)
  | H : context [(?x <? ?y)%Z] |- _ => destruct (Z.ltb_spec x y)
  | |- context [(?x =? ?y)%Z] => destruct (Z.eqb_spec x y)
  | H : context [(?x =? ?y)%Z] |- _ => destruct (Z.eqb_spec x y)
  end.

Lemma lexlt_irrefl l : lexlt l l = false.
Proof. induction l; simpl; [done|]. zcases; try lia; done. Qed.
Lemma lexlt_trans l1 l2 l3 : lexlt l1 l2 → lexlt l2 l3 → lexlt l1 l3.
Proof.
  revert l2 l3. induction l1 as [|x l1 IH]; intros [|y l2] [|z l3]; simpl; try done.
  intros H1 H2. zcases; try lia; try done. eapply IH; done.
Qed.
Lemma lexlt_total l1 l2 : l1 ≠ l2 → lexlt l1 l2 = false → lexlt l2 l1 = true.
Proof.
  revert l2. induction l1 as [|x l1 IH]; intros [|y l2]; simpl; try done.
  intros Hne H. zcases; try lia; try done. apply IH; [|done].
  intros ->. apply Hne. f_equal. lia.
Qed.
Lemma lexlt_asym l1 l2 : lexlt l1 l2 → lexlt l2 l1 = false.
Proof.
  intros H. destruct (lexlt l2 l1) eqn:E; [|done].
  assert (lexlt l1 l1) as Hc by (eapply lexlt_trans; [done|by rewrite E]).
  by rewrite lexlt_irrefl in Hc.
Qed.

(** ** The keys *)

Section keys.
Context {E : Type}.
Implicit Types (st : Store E) (a : Activation).

Definition key_complexity st a : Z :=
  match rules st !! theRule a with Some r => complexity r | None => 0 end.
Definition key_match st a : option PartialMatch := b ← basis a; matches st !! b.
Definition key_timetags st a : list Z := default [] (key_match st a ≫= SortPartialMatch).
Definition key_first st a : Z :=
  match key_match st a ≫= (fun m => binds m !! 0) with Some b => bind_timetag b | None => 0 end.

Definition key_lex st a : list Z :=
  (Z.opp <$> key_timetags st a) ++ [1; - key_complexity st a; timetag a]%Z.

(** What each strategy promises: the agenda runs through increasing keys.
    Depth: newest first.  Breadth: oldest first.  Complexity and simplicity:
    most and least complex first.  Random: by random number.  Lex: largest
    sorted timetags first, longer before its prefixes, then complexity.
    Mea: the timetag of the first pattern before all that.  The activation
    timetag comes last. *)
Definition strategy_key (strat : StrategyType) st a : list Z :=
  match strat with
  | DEPTH_STRATEGY => [- timetag a]%Z
  | BREADTH_STRATEGY => [timetag a]
  | LEX_STRATEGY => key_lex st a
  | MEA_STRATEGY => (- key_first st a)%Z :: key_lex st a
  | COMPLEXITY_STRATEGY => [- key_complexity st a; timetag a]%Z
  | SIMPLICITY_STRATEGY => [key_complexity st a; timetag a]
  | RANDOM_STRATEGY => [randomID a; timetag a]
  end.

Lemma strategy_key_timetag strat st a b :
  strategy_key strat st a = strategy_key strat st b → timetag a = timetag b.
Proof.
  destruct strat; simpl; unfold key_lex; intros Heq; simplify_eq; try lia.
  all: match goal with Heq : _ ++ _ = _ ++ _ |- _ =>
    apply (f_equal last) in Heq; rewrite !last_app in Heq; simpl in Heq; congruence end.
Qed.
End keys.

(** ** The exchange sort *)

Definition descending : list Z → Prop := StronglySorted Z.ge.

(** A pass over a whole array [x :: l], the carried element apart. *)
Fixpoint bubble (x : Z) (l : list Z) : list Z * bool :=
  match l with
  | [] => ([x], false)
  | y :: l' => if (x <? y)%Z then (y :: (bubble x l').1, true)
               else (x :: (bubble y l').1, (bubble y l').2)
  end.

Lemma sort_pass_bubble x A D :
  sort_pass (length A) (x :: A ++ D) = ((bubble x A).1 ++ D, (bubble x A).2).
Proof.
  revert x. induction A as [|y A IH]; intros x; simpl; [by destruct D|].
  by zcases; rewrite IH.
Qed.

Lemma bubble_perm x l : (bubble x l).1 ≡ₚ x :: l.
Proof.
  revert x. induction l as [|y l IH]; intros x; simpl; [done|].
  zcases; simpl; rewrite IH; [constructor|done].
Qed.

(** The last element of the result is the least. *)
Lemma bubble_last x l :
  ∃ r m, (bubble x l).1 = r ++ [m] ∧ length r = length l ∧ Forall (fun y => y >= m)%Z r.
Proof.
  revert x. induction l as [|y l IH]; intros x; simpl; [by exists [], x|].
  zcases; simpl.
  - destruct (IH x) as (r & m & Heq & Hlen & HF). exists (y :: r), m.
    rewrite Heq. simpl. split_and!; [done|lia|]. constructor; [|done].
    assert (x ∈ r ++ [m]) as [Hx|Hx%list_elem_of_singleton]%elem_of_app
      by (rewrite <- Heq, bubble_perm; set_solver); [|lia].
    rewrite Forall_forall in HF. apply HF in Hx. lia.
  - destruct (IH y) as (r & m & Heq & Hlen & HF). exists (x :: r), m.
    rewrite Heq. simpl. split_and!; [done|lia|]. constructor; [|done].
    assert (y ∈ r ++ [m]) as [Hx|Hx%list_elem_of_singleton]%elem_of_app
      by (rewrite <- Heq, bubble_perm; set_solver); [|lia].
    rewrite Forall_forall in HF. apply HF in Hx. lia.
Qed.

(** No exchange: the array was in order and is unchanged. *)
Lemma bubble_false x l :
  (bubble x l).2 = false → (bubble x l).1 = x :: l ∧ descending (x :: l).
Proof.
  revert x. induction l as [|y l IH]; intros x; simpl.
  { split; [done|]. repeat constructor. }
  zcases; simpl; [done|]. intros Hf. destruct (IH y Hf) as [-> Hd]. split; [done|].
  constructor; [done|]. constructor; [lia|].
  apply StronglySorted_inv in Hd as [_ Hd]. eapply Forall_impl; [exact Hd|]. simpl. lia.
Qed.

Lemma descending_app A D :
  descending A → descending D → (∀ x y, x ∈ A → y ∈ D → (x >= y)%Z) → descending (A ++ D).
Proof.
  intros HA HD Hx. induction A as [|a A IH]; [done|]. simpl.
  apply StronglySorted_inv in HA as [HA Hall]. constructor.
  - apply IH; [done|]. set_solver.
  - rewrite Forall_app. split; [done|]. apply Forall_forall. set_solver.
Qed.

(** The loop with [D], already in place, below the part [x :: A] still open. *)
Lemma sort_loop_spec fuel x A D :
  length A < fuel → descending D → (∀ y z, y ∈ x :: A → z ∈ D → (y >= z)%Z) →
  ∃ l, sort_loop fuel true (length A) (x :: A ++ D) = Some l ∧ l ≡ₚ x :: A ++ D ∧ descending l.
Proof.
  revert x A D. induction fuel as [|fuel IH]; intros x A D Hf HD Hle; [lia|].
  cbn [sort_loop]. rewrite sort_pass_bubble. simpl.
  pose proof (bubble_perm x A) as HP.
  destruct (bubble x A).2 eqn:Hflag.
  - destruct (bubble_last x A) as (r & m & Heq & Hlen & HF). rewrite Heq in *.
    destruct r as [|x' r].
    { destruct A; [done|simpl in Hlen; lia]. }
    simpl in Hlen. rewrite <- Hlen.
    replace (S (length r) - 1) with (length r) by lia.
    rewrite <- app_assoc. simpl.
    destruct (IH x' r (m :: D)) as (l & Hl & HPl & Hd).
    + lia.
    + constructor; [done|]. apply Forall_forall. intros z Hz. apply Hle; [|done].
      rewrite <- HP. set_solver.
    + intros y z Hy [->|Hz]%elem_of_cons.
      { rewrite Forall_forall in HF. by apply HF. }
      apply Hle; [|done]. rewrite <- HP. set_solver.
    + exists l. split_and!; [done| |done]. rewrite HPl.
      change (x' :: r ++ m :: D) with ((x' :: r) ++ [m] ++ D).
      by rewrite (assoc_L (++)), HP.
  - apply bubble_false in Hflag as [Heq Hd]. rewrite Heq.
    exists (x :: A ++ D). destruct fuel; (split_and!; [done|done|]);
      change (x :: A ++ D) with ((x :: A) ++ D); by apply descending_app.
Qed.

Lemma SortPartialMatch_spec m :
  0 < bcount m →
  ∃ l, SortPartialMatch m = Some l ∧ l ≡ₚ bind_timetag <$> binds m ∧ descending l.
Proof.
  unfold SortPartialMatch, bcount. intros Hm.
  destruct (binds m) as [|b bs] eqn:Hb; simpl in *; [lia|].
  destruct (sort_loop_spec (S (S (length bs))) (bind_timetag b) (bind_timetag <$> bs) [])
    as (l & Hl & HP & Hd).
  - rewrite length_fmap. lia.
  - constructor.
  - set_solver.
  - rewrite length_fmap, app_nil_r in Hl. rewrite app_nil_r in HP. eauto.
Qed.

(** ** The tests of the placement loops decide the key order *)

Lemma compare_timetags_not_equal n b1 b2 : compare_timetags n b1 b2 ≠ Some EQUAL.
Proof.
  revert b1 b2. induction n as [|n IH]; intros [|x b1] [|y b2]; simpl; try done.
  rewrite Z.gtb_ltb. by zcases.
Qed.

Lemma lexlt_timetags b1 b2 r1 r2 :
  Forall (fun z => 0 <= z)%Z b1 → Forall (fun z => 0 <= z)%Z b2 →
  lexlt ((Z.opp <$> b2) ++ 1%Z :: r2) ((Z.opp <$> b1) ++ 1%Z :: r1) =
  match compare_timetags (length b1 `min` length b2) b1 b2 with
  | Some LESS_THAN => true
  | Some _ => false
  | None => if (length b1 <? length b2)%nat then true
            else if (length b2 <? length b1)%nat then false
            else lexlt r2 r1
  end.
Proof.
  intros H1. revert b2. induction H1 as [|x b1 Hx H1 IH]; intros b2 H2.
  { destruct H2 as [|y b2 Hy H2]; simpl.
    - zcases; [lia..|done].
    - zcases; [done|lia|lia]. }
  destruct H2 as [|y b2 Hy H2]; simpl.
  { zcases; [lia|done|lia]. }
  rewrite Z.gtb_ltb. zcases; try lia; try done. by apply IH.
Qed.

Section tests.
Context {H E : Type}.
Implicit Types (s : Environment H E) (st : Store E) (a new : Activation).

(** A well-formed activation: its rule is live, its partial match is live
    and not empty, and the matched entities have positive timetags. *)
Definition act_wf st a : Prop :=
  is_Some (rules st !! theRule a) ∧
  ∃ b m, basis a = Some b ∧ matches st !! b = Some m ∧ 0 < bcount m ∧
  Forall (fun o => ∀ al e, o = Some al → matchingItem al = Some e → (0 < timeTag e)%Z) (binds m).

Lemma load_act_Some s p a : acts (store s) !! p = Some a → load_act p s = Some (a, s).
Proof. unfold load_act, mbind, M_bind, gets, fromOption. by intros ->. Qed.
Lemma load_group_Some s p g : groups (store s) !! p = Some g → load_group p s = Some (g, s).
Proof. unfold load_group, mbind, M_bind, gets, fromOption. by intros ->. Qed.
Lemma load_module_Some s p m : modules (store s) !! p = Some m → load_module p s = Some (m, s).
Proof. unfold load_module, mbind, M_bind, gets, fromOption. by intros ->. Qed.
Lemma load_rule_Some s p r : rules (store s) !! p = Some r → load_rule p s = Some (r, s).
Proof. unfold load_rule, mbind, M_bind, gets, fromOption. by intros ->. Qed.
Lemma load_match_Some s p m : matches (store s) !! p = Some m → load_match p s = Some (m, s).
Proof. unfold load_match, mbind, M_bind, gets, fromOption. by intros ->. Qed.
Lemma deref_Some s p : deref (Some p) s = Some (p, s).
Proof. done. Qed.
Lemma fromOption_Some {A} s (x : A) o : o = Some x → fromOption o s = Some (x, s).
Proof. by intros ->. Qed.

(** Running a bind whose first half is known. *)
Ltac run H := rewrite (M_bind_Some _ _ _ _ _ H); cbn beta.

Lemma bind_timetags_nonneg m :
  Forall (fun o => ∀ al e, o = Some al → matchingItem al = Some e → (0 < timeTag e)%Z) (binds m) →
  Forall (fun z => 0 <= z)%Z (bind_timetag <$> binds m).
Proof.
  intros HF. rewrite Forall_fmap. eapply Forall_impl; [exact HF|].
  intros [al|] Ho; simpl; [|lia]. destruct (matchingItem al) as [e|] eqn:He; [|lia].
  specialize (Ho _ _ eq_refl He). lia.
Qed.

(** The timetag list of a well-formed activation's key. *)
Lemma act_wf_timetags st a :
  act_wf st a → ∃ b m r l, basis a = Some b ∧ matches st !! b = Some m ∧
  rules st !! theRule a = Some r ∧
  SortPartialMatch m = Some l ∧ key_timetags st a = l ∧ length l = bcount m ∧
  Forall (fun z => 0 <= z)%Z l ∧ key_complexity st a = complexity r ∧
  ∃ b0, binds m !! 0 = Some b0 ∧ key_first st a = bind_timetag b0.
Proof.
  intros ([r Hr] & b & m & Hb & Hm & Hlen & HF).
  destruct (SortPartialMatch_spec m Hlen) as (l & Hl & HP & _).
  exists b, m, r, l. unfold key_timetags, key_complexity, key_first, key_match.
  rewrite Hb. simpl. rewrite Hm, Hr. simpl. rewrite Hl.
  assert (length l = bcount m) by (rewrite HP; by rewrite length_fmap).
  assert (Forall (fun z => 0 <= z)%Z l) by (rewrite HP; by apply bind_timetags_nonneg).
  repeat (split; [done|]).
  unfold bcount in Hlen. destruct (binds m) as [|b0 bs] eqn:E0; [simpl in Hlen; lia|].
  exists b0. done.
Qed.

Lemma ComparePartialMatches_spec s a new :
  act_wf (store s) a → act_wf (store s) new →
  ∃ flag, ComparePartialMatches a new s = Some (flag, s) ∧
  flag_goes_after flag new a = lexlt (key_lex (store s) a) (key_lex (store s) new).
Proof.
  intros (b2 & m2 & r2 & l2 & Hb2 & Hm2 & Hr2 & Hl2 & Hk2 & Hn2 & HF2 & Hc2 & _)%act_wf_timetags.
  intros (b1 & m1 & r1 & l1 & Hb1 & Hm1 & Hr1 & Hl1 & Hk1 & Hn1 & HF1 & Hc1 & _)%act_wf_timetags.
  unfold ComparePartialMatches, key_lex. rewrite Hk1, Hk2, Hc1, Hc2, Hb1, Hb2.
  rewrite lexlt_timetags by done.
  run (deref_Some s b1). run (load_match_Some s _ _ Hm1). run (fromOption_Some s _ _ Hl1).
  run (deref_Some s b2). run (load_match_Some s _ _ Hm2). run (fromOption_Some s _ _ Hl2).
  cbv zeta. rewrite <- Hn1, <- Hn2.
  replace (if (length l1 <? length l2)%nat then length l1 else length l2)
    with (length l1 `min` length l2) by (destruct (Nat.ltb_spec (length l1) (length l2)); lia).
  destruct (compare_timetags _ _ _) as [[]|] eqn:Hcmp.
  1,2: eexists; split; reflexivity.
  { by apply compare_timetags_not_equal in Hcmp. }
  destruct (length l1 <? length l2)%nat; [by eexists|].
  destruct (length l2 <? length l1)%nat; [by eexists|].
  run (load_rule_Some s _ _ Hr1). run (load_rule_Some s _ _ Hr2).
  rewrite Z.gtb_ltb. simpl. zcases; try lia. all: (eexists; split; [reflexivity|]); simpl; try done.
  all: rewrite Z.gtb_ltb; by zcases; try lia.
Qed.

Lemma GetMatchingItem0_spec s a :
  act_wf (store s) a →
  ∃ o, GetMatchingItem0 a s = Some (o, s) ∧
  key_first (store s) a = match o with Some e => timeTag e | None => 0 end%Z ∧
  (∀ e, o = Some e → (0 < timeTag e)%Z).
Proof.
  intros Hwf. pose proof Hwf as (_ & b & m & Hb & Hm & _ & HF).
  destruct (act_wf_timetags _ _ Hwf) as (b' & m' & r & l & Hb' & Hm' & _ & _ & _ & _ & _ & _ & b0 & H0 & Hk).
  rewrite Hb in Hb'. injection Hb' as <-. rewrite Hm in Hm'. injection Hm' as <-. exists (b0 ≫= matchingItem). unfold GetMatchingItem0. rewrite Hb.
  run (deref_Some s b). run (load_match_Some s _ _ Hm). run (fromOption_Some s _ _ H0).
  split_and!; [done| |].
  - rewrite Hk. destruct b0 as [al|]; [|done]. simpl. by destruct (matchingItem al).
  - intros e He. destruct b0 as [al|]; [|done]. simpl in He.
    rewrite Forall_lookup in HF. eapply HF; eauto.
Qed.

(** The two mea comparisons agree with the mea key. *)
Lemma mea_spec s a new :
  act_wf (store s) a → act_wf (store s) new →
  (∃ flag, mea_flag new a s = Some (flag, s) ∧ flag_goes_after flag new a =
  lexlt (strategy_key MEA_STRATEGY (store s) a) (strategy_key MEA_STRATEGY (store s) new)) ∧
  (∃ flag, mea_flag_at_end new a s = Some (flag, s) ∧ flag_goes_after flag new a =
  lexlt (strategy_key MEA_STRATEGY (store s) a) (strategy_key MEA_STRATEGY (store s) new)).
Proof.
  intros Ha Hn.
  destruct (GetMatchingItem0_spec s a Ha) as (o & Ho & Hko & Hpo).
  destruct (GetMatchingItem0_spec s new Hn) as (c & Hc & Hkc & Hpc).
  destruct (ComparePartialMatches_spec s a new Ha Hn) as (f & Hf & Hlex).
  simpl. rewrite Hko, Hkc, <- Hlex. split.
  - unfold mea_flag. run Hc. run Ho. cbv zeta.
    destruct c as [c|], o as [o|]; rewrite ?Z.gtb_ltb;
      try specialize (Hpc _ eq_refl); try specialize (Hpo _ eq_refl);
      zcases; try lia; (eexists; split; [done|]); done.
  - unfold mea_flag_at_end. run Hc. run Ho.
    destruct c as [c|], o as [o|]; rewrite ?Z.gtb_ltb;
      try specialize (Hpc _ eq_refl); try specialize (Hpo _ eq_refl);
      zcases; try lia; (eexists; split; [done|]); done.
Qed.
End tests.

#[export] Hint Resolve load_act_Some load_group_Some load_module_Some load_rule_Some
  load_match_Some deref_Some fromOption_Some : clips.
