(* ===== verification/AgendaRep.v ===== *)
(** * What the store of an agenda represents

    The representation predicate [agenda_rep]: a module's agenda is one doubly
    linked list of activations, cut into consecutive segments of equal
    salience, each described by a salience group.  [PlaceActivation] is shown
    to insert into the segment at the place the strategy's key demands. *)
From S2P Require Import Prelude DList Values AgendaState Strategy StrategyProofs.
From Stdlib Require Import Sorting.Sorted.

(** A salience group: its address, its salience and its activations in order. *)
Record Seg := mkSeg { g_addr : ptr; g_sal : Z; g_mem : list ptr }.

Definition members (segs : list Seg) : list ptr := concat (g_mem <$> segs).
Definition nonempty (segs : list Seg) : Prop := Forall (fun s => g_mem s ≠ []) segs.

Lemma members_app S1 S2 : members (S1 ++ S2) = members S1 ++ members S2.
Proof. unfold members. by rewrite fmap_app, concat_app. Qed.
Lemma members_cons s S2 : members (s :: S2) = g_mem s ++ members S2.
Proof. done. Qed.
Lemma members_mid S1 s S2 : members (S1 ++ s :: S2) = members S1 ++ g_mem s ++ members S2.
Proof. by rewrite members_app. Qed.

Lemma elem_of_members x segs : x ∈ members segs ↔ ∃ sg, sg ∈ segs ∧ x ∈ g_mem sg.
Proof.
  induction segs as [|sg segs IH]; [set_solver|].
  rewrite members_cons, elem_of_app, IH. set_solver.
Qed.

Section rep.
Context {E : Type}.
Implicit Types (st : Store E).

(** An activation [x] that belongs to module [m] with salience [sal]. *)
Definition act_in st (m : ptr) (sal : Z) (x : ptr) : Prop :=
  ∃ a r, acts st !! x = Some a ∧ act_salience a = sal ∧
  rules st !! theRule a = Some r ∧ whichModule r = m ∧ act_wf st a.

Definition seg_ok st (m : ptr) (s : Seg) : Prop :=
  (∃ g, groups st !! g_addr s = Some g ∧ sg_salience g = g_sal s ∧
  sg_first g = hd_or (g_mem s) None ∧ sg_last g = last_or None (g_mem s)) ∧
  ∀ x, x ∈ g_mem s → act_in st m (g_sal s) x.

Record agenda_rep st (m : ptr) (segs : list Seg) : Prop := {
  rep_module : ∃ md, modules st !! m = Some md ∧
  groupings md = hd_or (g_addr <$> segs) None ∧ agenda md = hd_or (members segs) None;
  rep_groups : dll (groups st) (g_addr <$> segs);
  rep_acts : dll (acts st) (members segs);
  rep_segs : Forall (seg_ok st m) segs;
  rep_desc : StronglySorted Z.gt (g_sal <$> segs);
}.

(** The key of the activation at an address. *)
Definition key_at strat st (x : ptr) : list Z :=
  match acts st !! x with Some a => strategy_key strat st a | None => [] end.

Definition before strat st (x y : ptr) : bool := lexlt (key_at strat st x) (key_at strat st y).
Definition seg_sorted strat st (s : Seg) : Prop :=
  StronglySorted (fun x y => before strat st x y) (g_mem s).
End rep.

(** The nodes other than the links: an update of the links keeps the keys. *)
Definition same_payloads (h h' : gmap ptr Activation) : Prop :=
  ∀ k, payload <$> h' !! k = payload <$> h !! k.

(** The fields of a rule the order and the membership of an agenda depend on. *)
Definition rule_static {E} (r : Defrule E) : ptr * Z := (whichModule r, complexity r).

(** The store [st] with the links, the groups and the modules of [st']. *)
Definition relinked_store {E} (st st' : Store E) : Store E :=
  mkStore (acts st') (groups st') (modules st') (rules st) (matches st).

(** What an operation on the agenda of module [m] leaves alone: the static part
    of the rules, the binds of the partial matches, the payload of every live
    activation outside [D], the activations outside [X], the groups outside [G]
    and the other modules. *)
Record frame {E} (m : ptr) (X G D : list ptr) (st st' : Store E) : Prop := {
  frame_rules k : rule_static <$> rules st' !! k = rule_static <$> rules st !! k;
  frame_matches k : binds <$> matches st' !! k = binds <$> matches st !! k;
  frame_payloads k a : k ∉ D → acts st !! k = Some a →
    ∃ a', acts st' !! k = Some a' ∧ payload a' = payload a;
  frame_acts x : x ∉ X → acts st' !! x = acts st !! x;
  frame_groups x : x ∉ G → groups st' !! x = groups st !! x;
  frame_modules k : k ≠ m → modules st' !! k = modules st !! k;
}.

Section frame.
Context {E : Type}.
Implicit Types (st : Store E).

Lemma same_payloads_lookup h h' x a :
  same_payloads h h' → h !! x = Some a → ∃ a', h' !! x = Some a' ∧ payload a' = payload a.
Proof.
  intros Hs Ha. specialize (Hs x). rewrite Ha in Hs.
  destruct (h' !! x) as [a'|]; [|done]. exists a'. split; [done|].
  change (Some (payload a') = Some (payload a)) in Hs. by apply (inj Some) in Hs.
Qed.

(** Stores whose rules and partial matches agree on what matters here. *)
Definition static_eq st st' : Prop :=
  (∀ k, rule_static <$> rules st' !! k = rule_static <$> rules st !! k) ∧
  (∀ k, binds <$> matches st' !! k = binds <$> matches st !! k).

Lemma static_eq_rule st st' k r :
  static_eq st st' → rules st !! k = Some r →
  ∃ r', rules st' !! k = Some r' ∧ whichModule r' = whichModule r ∧ complexity r' = complexity r.
Proof.
  intros [Hr _] Hk. specialize (Hr k). rewrite Hk in Hr.
  destruct (rules st' !! k) as [r'|]; [|done]. exists r'. simpl in Hr.
  unfold rule_static in Hr. by simplify_eq.
Qed.

Lemma act_wf_same st st' a a' :
  static_eq st st' → payload a' = payload a → act_wf st a → act_wf st' a'.
Proof.
  intros Hst Hp ([r Hr] & b & m & Hb & Hm & Hrest). simpl in Hp. injection Hp as Hp1 Hp2 _ _ _.
  unfold act_wf. rewrite Hp1, Hp2. split.
  - destruct (static_eq_rule _ _ _ _ Hst Hr) as (r' & -> & _). by eexists.
  - destruct Hst as [_ Hms]. specialize (Hms b). rewrite Hm in Hms.
    destruct (matches st' !! b) as [m'|] eqn:Hm'; [|done]. simpl in Hms.
    exists b, m'. unfold bcount. assert (binds m' = binds m) as -> by congruence. done.
Qed.

Lemma SortPartialMatch_binds m m' :
  binds m' = binds m → SortPartialMatch m' = SortPartialMatch m.
Proof. unfold SortPartialMatch, bcount. by intros ->. Qed.

Lemma strategy_key_same strat st st' a a' :
  static_eq st st' → payload a' = payload a → strategy_key strat st' a' = strategy_key strat st a.
Proof.
  intros [Hr Hm] Hp. simpl in Hp. injection Hp as H1 H2 _ H4 H5.
  assert (Hc : key_complexity st' a' = key_complexity st a).
  { unfold key_complexity. rewrite H1. specialize (Hr (theRule a)).
    destruct (rules st' !! theRule a), (rules st !! theRule a); try done.
    simpl in Hr. unfold rule_static in Hr. congruence. }
  assert (Hk12 : key_timetags st' a' = key_timetags st a ∧ key_first st' a' = key_first st a).
  { unfold key_timetags, key_first, key_match. rewrite H2.
    destruct (basis a) as [b|]; [|done]. simpl. specialize (Hm b).
    destruct (matches st' !! b) as [m'|], (matches st !! b) as [m|]; try done.
    simpl in Hm. assert (binds m' = binds m) as Hb by congruence. simpl.
    by rewrite (SortPartialMatch_binds _ _ Hb), Hb. }
  destruct Hk12 as [Hk1 Hk2]. unfold strategy_key, key_lex. by rewrite Hc, Hk1, Hk2, H4, H5.
Qed.

Lemma frame_static m X G D st st' : frame m X G D st st' → static_eq st st'.
Proof. intros [? ? _ _ _ _]. by split. Qed.

Lemma act_in_frame m X G D st st' k sal x :
  frame m X G D st st' → x ∉ D → act_in st k sal x → act_in st' k sal x.
Proof.
  intros HF HD (a & r & Ha & Hs & Hr & Hm & Hw). pose proof (frame_static _ _ _ _ _ _ HF) as Hst.
  destruct (frame_payloads _ _ _ _ _ _ HF _ _ HD Ha) as (a' & Ha' & Hp).
  destruct (static_eq_rule _ _ _ _ Hst Hr) as (r' & Hr' & Hm' & _).
  exists a', r'. pose proof Hp as Hp'. simpl in Hp'. injection Hp' as H1 H2 H3 _ _.
  rewrite H1, H3. split_and!; [done..|congruence|]. by eapply act_wf_same.
Qed.

Lemma key_at_frame strat m X G D st st' x :
  frame m X G D st st' → x ∉ D → is_Some (acts st !! x) → key_at strat st' x = key_at strat st x.
Proof.
  intros HF HD [a Ha]. destruct (frame_payloads _ _ _ _ _ _ HF _ _ HD Ha) as (a' & Ha' & Hp).
  unfold key_at. rewrite Ha, Ha'. eapply strategy_key_same; [by eapply frame_static|done].
Qed.

Lemma seg_sorted_frame strat m X G D st st' sg :
  frame m X G D st st' → (∀ x, x ∈ g_mem sg → x ∉ D ∧ is_Some (acts st !! x)) →
  seg_sorted strat st sg → seg_sorted strat st' sg.
Proof.
  intros HF. unfold seg_sorted. generalize (g_mem sg). intros l Hl.
  induction 1 as [|x l Hs IH HFa]; constructor; [apply IH; set_solver|].
  rewrite Forall_forall in *. intros y Hy. unfold before.
  rewrite !(key_at_frame _ _ _ _ _ _ _ _ HF); try apply Hl; set_solver.
Qed.

(** Another module's agenda is untouched. *)
Lemma agenda_rep_frame m X G D st st' k segs :
  frame m X G D st st' → modules st' !! k = modules st !! k → agenda_rep st k segs →
  (∀ x, x ∈ members segs → x ∉ X ∧ x ∉ D) → (∀ x, x ∈ g_addr <$> segs → x ∉ G) →
  agenda_rep st' k segs.
Proof.
  intros HF Hk [Hm Hg Ha Hs Hd] HX HG. split; [|..|done].
  - by rewrite Hk.
  - eapply dll_ext; [|done]. intros x Hx. apply (frame_groups _ _ _ _ _ _ HF). auto.
  - eapply dll_ext; [|done]. intros x Hx. apply (frame_acts _ _ _ _ _ _ HF). by apply HX.
  - rewrite Forall_forall in *. intros sg Hsg. destruct (Hs sg Hsg) as [(g & Hgg & ?) Hin].
    assert (Hsub : ∀ x, x ∈ g_mem sg → x ∈ members segs).
    { intros x Hx. apply elem_of_members. eauto. }
    split.
    + exists g. split; [|done]. rewrite (frame_groups _ _ _ _ _ _ HF); [done|].
      apply HG. apply list_elem_of_fmap. eauto.
    + intros x Hx. eapply act_in_frame; eauto. apply HX. auto.
Qed.

Lemma frame_refl m X G D st : frame m X G D st st.
Proof. split; naive_solver. Qed.
Lemma frame_trans m X G D X' G' D' st st' st'' :
  frame m X G D st st' → frame m X' G' D' st' st'' →
  frame m (X ++ X') (G ++ G') (D ++ D') st st''.
Proof.
  intros H1 H2. split.
  - intros k. by rewrite (frame_rules _ _ _ _ _ _ H2), (frame_rules _ _ _ _ _ _ H1).
  - intros k. by rewrite (frame_matches _ _ _ _ _ _ H2), (frame_matches _ _ _ _ _ _ H1).
  - intros k a Hk Ha. destruct (frame_payloads _ _ _ _ _ _ H1 k a) as (a' & Ha' & Hp); [set_solver|done|].
    destruct (frame_payloads _ _ _ _ _ _ H2 k a') as (a'' & Ha'' & Hp'); [set_solver|done|].
    exists a''. split; [done|]. by rewrite Hp'.
  - intros x Hx. rewrite (frame_acts _ _ _ _ _ _ H2), (frame_acts _ _ _ _ _ _ H1); set_solver.
  - intros x Hx. rewrite (frame_groups _ _ _ _ _ _ H2), (frame_groups _ _ _ _ _ _ H1); set_solver.
  - intros k Hk. by rewrite (frame_modules _ _ _ _ _ _ H2), (frame_modules _ _ _ _ _ _ H1).
Qed.
Lemma frame_weaken m X G D X' G' D' st st' :
  frame m X G D st st' → X ⊆ X' → G ⊆ G' → D ⊆ D' → frame m X' G' D' st st'.
Proof.
  intros [? ? ? Ha Hg ?] HX HG HD. split; try done.
  - intros k a Hk. set_solver.
  - intros x Hx. apply Ha. set_solver.
  - intros x Hx. apply Hg. set_solver.
Qed.
End frame.

(** ** List facts *)

Lemma dll_size {N P} `{!Linked N P} (h : gmap ptr N) l : dll h l → length l ≤ size h.
Proof.
  intros [Hnd Hd].
  assert (Hsub : list_to_set (C := gset ptr) l ⊆ dom h).
  { intros x Hx%elem_of_list_to_set. apply elem_of_dom. by eapply dseg_lookup. }
  apply subseteq_size in Hsub. by rewrite size_list_to_set, size_dom in Hsub.
Qed.

Lemma last_or_members S1 S : nonempty (S1 ++ [S]) →
  last_or None (members (S1 ++ [S])) = last_or None (g_mem S).
Proof.
  intros HF. rewrite members_mid. simpl. unfold members at 2. simpl. rewrite app_nil_r.
  rewrite last_or_app. unfold nonempty in HF. rewrite Forall_app in HF.
  destruct HF as [_ HF]. apply Forall_inv in HF.
  destruct (g_mem S) as [|x l _] using rev_ind; [done|]. by rewrite !last_or_snoc.
Qed.

Section search.
Context {H E : Type}.
Implicit Types (s : Environment H E).

Lemma find_forward_spec fuel goes (f : ptr → bool) s p l n la :
  NoDup l → dseg (acts (store s)) p l n → length l ≤ fuel →
  (∀ x a, x ∈ l → acts (store s) !! x = Some a → goes a s = Some (f x, s)) →
  find_forward fuel goes (last_or None l) la (hd_or l None) s =
  Some (last_or la (take_while f l), s).
Proof.
  revert p l la. induction fuel as [|fuel IH]; intros p l la Hnd Hd Hlen Hg.
  { destruct l; [done|simpl in Hlen; lia]. }
  destruct l as [|x l]; [done|]. simpl in *.
  destruct Hd as (a & Ha & _ & Hnx & Hd). apply NoDup_cons in Hnd as [Hx Hnd].
  mrun (load_act_Some s x a Ha).
  mrun (Hg x a ltac:(set_solver) Ha). destruct (f x) eqn:Ef; [|done].
  rewrite last_or_cons. case_decide as Hlast.
  - destruct l as [|y l]; [done|]. exfalso. apply Hx.
    rewrite last_or_cons in Hlast. rewrite <- (last_or_cons None l y) in Hlast.
    apply last_or_elem. by symmetry.
  - destruct l as [|y l].
    { done. }
    rewrite !last_or_cons. rewrite <- (last_or_cons None l y), Hnx.
    change (hd_or (y :: l) n) with (hd_or (y :: l) None).
    rewrite (IH (Some x) (y :: l) (Some x)); [done|done|done|simpl in *; lia|].
    intros z b Hz. apply Hg. set_solver.
Qed.

(** The prefix left when the longest suffix satisfying [f] is dropped. *)
Definition strip_while {A} (f : A → bool) (l : list A) : list A :=
  reverse (drop_while f (reverse l)).

Lemma strip_while_snoc {A} (f : A → bool) l x :
  strip_while f (l ++ [x]) = if f x then strip_while f l else l ++ [x].
Proof.
  unfold strip_while. rewrite reverse_snoc. simpl. destruct (f x); [done|].
  by rewrite reverse_cons, reverse_involutive.
Qed.

Lemma find_backward_spec fuel tag (f : ptr → bool) s p l n before la first_of :
  NoDup l → dseg (acts (store s)) p l n → length l ≤ fuel → l ≠ [] →
  hd_or l None = first_of →
  (∀ x a, x ∈ l → acts (store s) !! x = Some a → (tag <? timetag a)%Z = f x) →
  find_backward fuel tag first_of before la (last_or None l) s =
  Some (last_or before (strip_while f l), s).
Proof.
  revert l n la. induction fuel as [|fuel IH]; intros l n la Hnd Hd Hlen Hne Hhd Hg.
  { destruct l; [done|simpl in Hlen; lia]. }
  destruct l as [|x l _] using rev_ind; [done|]. rewrite last_or_snoc. cbn [find_backward].
  rewrite dseg_app in Hd. destruct Hd as [Hd (a & Ha & Hp & _ & _)].
  apply NoDup_app in Hnd as (Hnd & Hdisj & _). rewrite length_app in Hlen. simpl in Hlen.
  mrun (load_act_Some s x a Ha). rewrite (Hg x a) by (done || set_solver).
  rewrite strip_while_snoc. destruct (f x) eqn:Ef; [|by rewrite last_or_snoc].
  destruct l as [|y l].
  { simpl in Hhd. rewrite decide_True by done. done. }
  simpl in Hhd. case_decide as Hfst.
  - exfalso. rewrite <- Hhd in Hfst. apply (Hdisj x); [|set_solver].
    injection Hfst as ->. set_solver.
  - simpl in Hp. rewrite Hp, last_or_cons, <- (last_or_cons None l y).
    apply (IH (y :: l) (Some x)); [done|done|simpl in *; lia|done|done|].
    intros z b Hz. apply Hg. set_solver.
Qed.
End search.

(** On a segment sorted by the key both searches stop at the same place. *)
Section sorted.
Context {A : Type} (key : A → list Z).

Lemma sorted_take_while l k x :
  StronglySorted (fun x y => lexlt (key x) (key y)) l →
  x ∈ drop_while (fun y => lexlt (key y) k) l → lexlt (key x) k = false.
Proof.
  induction 1 as [|y l Hs IH HF]; simpl; [set_solver|].
  destruct (lexlt (key y) k) eqn:Ey; [done|]. intros [->|Hx]%elem_of_cons; [done|].
  destruct (lexlt (key x) k) eqn:Ex; [|done]. rewrite Forall_forall in HF.
  assert (lexlt (key y) k) as Hc; [|by rewrite Ey in Hc].
  eapply lexlt_trans; [by apply HF|by rewrite Ex].
Qed.

Lemma take_while_app (f : A → bool) l1 l2 :
  Forall (fun x => f x = true) l1 → take_while f (l1 ++ l2) = l1 ++ take_while f l2.
Proof. induction 1 as [|x l1 Hx _ IH]; simpl; [done|]. by rewrite Hx, IH. Qed.

Lemma sorted_strip_while l k :
  StronglySorted (fun x y => lexlt (key x) (key y)) l →
  strip_while (fun y => negb (lexlt (key y) k)) l = take_while (fun y => lexlt (key y) k) l.
Proof.
  induction l as [|x l IH] using rev_ind; intros Hs; [done|].
  assert (StronglySorted (fun x y => lexlt (key x) (key y)) l ∧
    Forall (fun y => lexlt (key y) (key x)) l) as [Hsl HF].
  { clear IH. induction l as [|y l IHl]; [split; constructor|].
    simpl in Hs. apply StronglySorted_inv in Hs as [Hs Hy].
    rewrite Forall_app in Hy. destruct Hy as [Hy Hyx]. apply Forall_inv in Hyx.
    destruct (IHl Hs) as [? ?]. split; by constructor. }
  rewrite strip_while_snoc. destruct (lexlt (key x) k) eqn:Ex; simpl.
  - rewrite take_while_app; [simpl; by rewrite Ex|].
    eapply Forall_impl; [exact HF|]. intros y Hy. simpl in *.
    apply Is_true_true. eapply lexlt_trans; [exact Hy|by rewrite Ex].
  - rewrite IH by done. clear IH Hs Hsl HF.
    induction l as [|y l IHl]; simpl; [by rewrite Ex|].
    destruct (lexlt (key y) k); [|done]. by rewrite IHl.
Qed.

(** Inserting a new key at that place keeps the order. *)
Lemma sorted_insert l x :
  StronglySorted (fun x y => lexlt (key x) (key y)) l →
  (∀ y, y ∈ l → key y ≠ key x) →
  StronglySorted (fun x y => lexlt (key x) (key y))
  (take_while (fun y => lexlt (key y) (key x)) l ++ x ::
   drop_while (fun y => lexlt (key y) (key x)) l).
Proof.
  induction 1 as [|y l Hs IH HF]; intros Hne; simpl.
  { repeat constructor. }
  destruct (lexlt (key y) (key x)) eqn:Ey; simpl.
  - constructor; [apply IH; set_solver|].
    rewrite <- (take_drop_while (fun y => lexlt (key y) (key x)) l) in HF.
    rewrite Forall_app in *. destruct HF. split; [done|]. constructor; [|done].
    by rewrite Ey.
  - assert (lexlt (key x) (key y)) as Hxy.
    { apply Is_true_true. apply lexlt_total; [set_solver|done]. }
    constructor; [by constructor|]. constructor; [done|].
    eapply Forall_impl; [exact HF|]. intros z Hz. simpl in *. by eapply lexlt_trans.
Qed.

(** The last element goes before the new one: the whole segment does. *)
Lemma sorted_take_while_all l k x :
  StronglySorted (fun x y => lexlt (key x) (key y)) l →
  last_or None l = Some x → lexlt (key x) k = true →
  take_while (fun y => lexlt (key y) k) l = l ∧ drop_while (fun y => lexlt (key y) k) l = [].
Proof.
  intros Hs Hl Hx.
  assert (Hall : drop_while (fun y => lexlt (key y) k) l = []).
  { induction Hs as [|y l Hs IH HF]; [done|]. simpl.
    destruct l as [|z l].
    { unfold last_or in Hl. simpl in Hl. simplify_eq. by rewrite Hx. }
    rewrite !last_or_cons, <- (last_or_cons None l z) in Hl.
    apply last_or_elem in Hl as Hin. rewrite Forall_forall in HF. apply HF in Hin.
    rewrite (Is_true_true_1 _ (lexlt_trans _ _ _ Hin ltac:(by rewrite Hx))). by apply IH. }
  split; [|done]. pose proof (take_drop_while (fun y => lexlt (key y) k) l) as Heq.
  by rewrite Hall, app_nil_r in Heq.
Qed.
End sorted.
