(* ===== verification/PlaceProofs.v ===== *)
(** * PlaceActivation inserts by key

    Proofs about [crstrtgy.c]: in a represented agenda each strategy finds the
    place its key demands, the group keeps its end points, and linking the
    activation there gives the represented agenda with the new member. *)
From S2P Require Import Prelude DList Values AgendaState Strategy StrategyProofs AgendaRep.
From Stdlib Require Import Sorting.Sorted.

Section update.
Context {H E : Type}.
Implicit Types (s : Environment H E).

Lemma update_act_Some s p f a :
  acts (store s) !! p = Some a →
  update_act p f s = Some (tt, with_store (with_acts (alter f p)) s).
Proof. intros Ha. unfold update_act. by mrun (load_act_Some s p a Ha). Qed.
Lemma update_group_Some s p f g :
  groups (store s) !! p = Some g →
  update_group p f s = Some (tt, with_store (with_groups (alter f p)) s).
Proof. intros Ha. unfold update_group. by mrun (load_group_Some s p g Ha). Qed.
Lemma update_module_Some s p f m :
  modules (store s) !! p = Some m →
  update_module p f s = Some (tt, with_store (with_modules (alter f p)) s).
Proof. intros Ha. unfold update_module. by mrun (load_module_Some s p m Ha). Qed.
Lemma update_rule_Some s p f r :
  rules (store s) !! p = Some r →
  update_rule p f s = Some (tt, with_store (with_rules (alter f p)) s).
Proof. intros Ha. unfold update_rule. by mrun (load_rule_Some s p r Ha). Qed.
Lemma update_match_Some s p f r :
  matches (store s) !! p = Some r →
  update_match p f s = Some (tt, with_store (with_matches (alter f p)) s).
Proof. intros Ha. unfold update_match. by mrun (load_match_Some s p r Ha). Qed.
Lemma mret_Some {A} (x : A) s : (mret x : MA H E A) s = Some (x, s).
Proof. done. Qed.
Lemma gets_Some {A} (f : Environment H E → A) s : gets f s = Some (f s, s).
Proof. done. Qed.
Lemma modify_Some f s : modify f s = Some (tt, f s).
Proof. done. Qed.

(** An update as an insertion of the new record. *)
Lemma with_groups_alter f p gr (st : Store E) :
  groups st !! p = Some gr → with_groups (alter f p) st = with_groups <[p := f gr]> st.
Proof. intros Hg. unfold with_groups. f_equal. by apply alter_as_insert. Qed.
Lemma whenM_group b f s p gr :
  groups (store s) !! p = Some gr →
  whenM b (update_group p f) s =
  Some (tt, with_store (with_groups <[p := if b then f gr else gr]>) s).
Proof.
  intros Hg. destruct b; simpl.
  - rewrite (update_group_Some s p f gr Hg). unfold with_store.
    by rewrite (with_groups_alter f p gr).
  - unfold with_store, with_groups. rewrite insert_id by done. by destruct s as [[]].
Qed.
Lemma with_groups_twice p g1 g2 s :
  with_store (with_groups <[p := g2]>) (with_store (with_groups <[p := g1]>) s) =
  with_store (with_groups <[p := g2]>) s.
Proof. unfold with_store, with_groups. simpl. by rewrite insert_insert_eq. Qed.

Lemma search_fuel_Some s : search_fuel s = Some (S (size (acts (store s))), s).
Proof. done. Qed.
End update.

#[export] Hint Resolve update_act_Some update_group_Some update_module_Some update_rule_Some
  update_match_Some mret_Some gets_Some modify_Some search_fuel_Some : clips.

Section place.
Context {H E : Type} (s : Environment H E).
Abbreviation st := (store s).
Context (m : ptr) (S1 S2 : list Seg) (g : ptr) (sal : Z) (l : list ptr).
Abbreviation segs := (S1 ++ mkSeg g sal l :: S2).
Context (Hrep : agenda_rep st m segs) (Hne : nonempty S1).
Context (new : ptr) (na : Activation).
Context (Hna : acts st !! new = Some na) (Hnew : new ∉ members segs) (Hwf : act_wf st na).

(** The group's own record. *)
Definition group_record (l : list ptr) : SalienceGroup :=
  mkSalienceGroup sal (hd_or l None) (last_or None l)
  (hd_or (g_addr <$> S2) None) (last_or None (g_addr <$> S1)).

Lemma rep_group_record : groups st !! g = Some (group_record l).
Proof.
  destruct Hrep as [_ Hg _ Hs _]. rewrite Forall_app in Hs. destruct Hs as [_ Hs].
  apply Forall_inv in Hs as [(gr & Hgr & Hsal & Hf & Hl) _]. simpl in *.
  rewrite Hgr. f_equal. rewrite fmap_app in Hg. simpl in Hg.
  destruct (dll_mid _ _ _ _ _ Hg Hgr) as [Hp Hn]. simpl in *.
  destruct gr. simpl in *. unfold group_record. by subst.
Qed.

Lemma rep_initial_lastAct :
  initial_lastAct (group_record l) s = Some (last_or None (members S1), s).
Proof.
  unfold initial_lastAct, group_record. simpl.
  destruct S1 as [|sp S1' _] eqn:E1 using rev_ind; [done|].
  rewrite fmap_app. simpl. rewrite last_or_snoc.
  destruct Hrep as [_ _ _ Hs _]. rewrite <- app_assoc, Forall_app in Hs.
  destruct Hs as [_ Hs]. apply Forall_inv in Hs as [(gr & Hgr & _ & _ & Hl) _].
  mrun (load_group_Some s _ _ Hgr). rewrite Hl, last_or_members; [done|done].
Qed.

Lemma rep_NoDup : NoDup l.
Proof.
  destruct Hrep as [_ _ [Hnd _] _ _]. rewrite members_mid in Hnd. simpl in Hnd.
  apply NoDup_app in Hnd as (_ & _ & Hnd). by apply NoDup_app in Hnd as (? & _ & _).
Qed.
Lemma rep_disjoint x : x ∈ members S1 → x ∉ l.
Proof.
  destruct Hrep as [_ _ [Hnd _] _ _]. rewrite members_mid in Hnd. simpl in Hnd.
  apply NoDup_app in Hnd as (_ & Hd & _). intros Hx Hl. apply (Hd x Hx). set_solver.
Qed.
Lemma rep_dseg :
  dseg (acts st) (last_or None (members S1)) l (hd_or (members S2) None).
Proof.
  destruct Hrep as [_ _ [_ Hd] _ _]. rewrite members_mid in Hd. simpl in Hd.
  rewrite !dseg_app in Hd. tauto.
Qed.
Lemma rep_length : length l ≤ S (size (acts st)).
Proof.
  destruct Hrep as [_ _ Hd _ _]. apply dll_size in Hd. rewrite members_mid in Hd.
  rewrite !length_app in Hd. simpl in Hd. lia.
Qed.
Lemma rep_act_wf x a : x ∈ l → acts st !! x = Some a → act_wf st a.
Proof.
  intros Hx Ha. destruct Hrep as [_ _ _ Hs _]. rewrite Forall_app in Hs.
  destruct Hs as [_ Hs]. apply Forall_inv in Hs as [_ Hs]. simpl in Hs.
  destruct (Hs x Hx) as (a' & r & Ha' & _ & _ & _ & ?). congruence.
Qed.

(** "Update the salience group information", once the place is found. *)
Lemma update_salience_group_spec pre post :
  l = pre ++ post →
  update_salience_group g new (last_or (last_or None (members S1)) pre) s =
  Some (tt, with_store (with_groups <[g := group_record (pre ++ new :: post)]>) s).
Proof.
  intros Hl. pose proof rep_NoDup as Hnd. rewrite Hl in Hnd.
  apply NoDup_app in Hnd as (_ & Hpp & _).
  unfold update_salience_group. mrun (load_group_Some s _ _ rep_group_record).
  mrun rep_initial_lastAct.
  assert (Hfirst : bool_decide (last_or (last_or None (members S1)) pre = None
    ∨ sg_prev (group_record l) ≠ None
    ∧ last_or None (members S1) = last_or (last_or None (members S1)) pre)
    = bool_decide (pre = [])).
  { apply bool_decide_ext. simpl. destruct pre as [|x pre _] using rev_ind.
    - unfold last_or at 1. simpl. split; [done|]. intros _.
      destruct S1 as [|sp S1' _] eqn:E1 using rev_ind; [by left|right].
      by rewrite fmap_app; simpl; rewrite last_or_snoc.
    - rewrite last_or_snoc. split; [|by destruct pre].
      intros [?|[_ Hlast%last_or_elem]]; [done|]. exfalso.
      eapply rep_disjoint; [exact Hlast|]. rewrite Hl. set_solver. }
  assert (Hlast : bool_decide (sg_last (group_record l) = None ∨
    sg_last (group_record l) = last_or (last_or None (members S1)) pre)
    = bool_decide (post = [])).
  { apply bool_decide_ext. simpl. rewrite Hl.
    destruct post as [|y post _] using rev_ind.
    - rewrite app_nil_r. split; [done|]. intros _.
      destruct pre as [|x pre _] using rev_ind; [by left|right]. by rewrite !last_or_snoc.
    - rewrite (assoc_L (++)), last_or_snoc. split; [|by destruct post].
      intros [?|Hy]; [done|]. exfalso.
      destruct pre as [|x pre _] using rev_ind.
      + unfold last_or at 1 in Hy. simpl in Hy. symmetry in Hy. apply last_or_elem in Hy.
        eapply rep_disjoint; [exact Hy|]. rewrite Hl. set_solver.
      + rewrite last_or_snoc in Hy. injection Hy as ->. apply (Hpp x); set_solver. }
  rewrite Hfirst, Hlast. mrun (whenM_group (bool_decide (pre = [])) (set_sg_first (Some new)) _ _ _ rep_group_record).
  erewrite whenM_group by (simpl; apply lookup_insert_eq).
  rewrite with_groups_twice. do 5 f_equal. unfold group_record. rewrite Hl.
  destruct pre as [|x pre], post as [|y post]; simpl; unfold set_sg_first, set_sg_last; simpl;
    f_equal; rewrite ?app_nil_r, ?app_comm_cons, ?last_or_snoc, ?last_or_app, ?last_or_cons; done.
Qed.

(** ** The place each strategy finds *)

Context (strat : StrategyType).
Context (Hsort : seg_sorted strat st (mkSeg g sal l)).

Context (Hkeys : ∀ y, y ∈ l → key_at strat st y ≠ strategy_key strat st na).

Definition goes_before (y : ptr) : bool := lexlt (key_at strat st y) (strategy_key strat st na).
Definition place_pre : list ptr := take_while goes_before l.
Definition place_post : list ptr := drop_while goes_before l.
Definition place_result : option (option ptr * Environment H E) :=
  Some (last_or (last_or None (members S1)) place_pre,
  with_store (with_groups <[g := group_record (place_pre ++ new :: place_post)]>) s).

Lemma key_at_act x a : acts st !! x = Some a → key_at strat st x = strategy_key strat st a.
Proof. unfold key_at. by intros ->. Qed.

Lemma finish_place :
  (r ← update_salience_group g new (last_or (last_or None (members S1)) place_pre);
   mret (last_or (last_or None (members S1)) place_pre)) s = place_result.
Proof.
  erewrite M_bind_Some; [|apply (update_salience_group_spec place_pre place_post);
    symmetry; apply take_drop_while].
  done.
Qed.

Lemma PlaceForward_spec goes :
  (∀ x a, x ∈ l → acts st !! x = Some a →
  goes a s = Some (lexlt (strategy_key strat st a) (strategy_key strat st na), s)) →
  PlaceForward goes new g s = place_result.
Proof.
  intros Hgoes. unfold PlaceForward. mrun (load_group_Some s _ _ rep_group_record).
  mrun rep_initial_lastAct. mrun (search_fuel_Some s). change (sg_last (group_record l)) with (last_or None l);
    change (sg_first (group_record l)) with (hd_or l None).
  erewrite M_bind_Some.
  2:{ apply (find_forward_spec _ _ goes_before) with (1 := rep_NoDup) (2 := rep_dseg);
      [apply rep_length|].
    intros x a Hx Ha. rewrite (Hgoes x a Hx Ha). unfold goes_before. by rewrite (key_at_act x a Ha). }
  apply finish_place.
Qed.

Lemma PlaceAtEndOrForward_spec at_end goes :
  (∀ x a, x ∈ l → acts st !! x = Some a →
  at_end a s = Some (lexlt (strategy_key strat st a) (strategy_key strat st na), s)) →
  (∀ x a, x ∈ l → acts st !! x = Some a →
  goes a s = Some (lexlt (strategy_key strat st a) (strategy_key strat st na), s)) →
  PlaceAtEndOrForward at_end goes new g s = place_result.
Proof.
  intros Hend Hgoes. unfold PlaceAtEndOrForward.
  mrun (load_group_Some s _ _ rep_group_record).
  change (sg_last (group_record l)) with (last_or None l).
  destruct (last_or None l) as [x|] eqn:Hl; [|by apply PlaceForward_spec].
  pose proof (last_or_elem _ _ Hl) as Hx.
  assert (is_Some (acts st !! x)) as [a Ha].
  { eapply dll_lookup; [apply Hrep|]. rewrite members_mid. simpl. set_solver. }
  mrun (load_act_Some s _ _ Ha). mrun (Hend x a Hx Ha).
  destruct (lexlt _ _) eqn:Elt; [|by apply PlaceForward_spec].
  assert (place_pre = l ∧ place_post = []) as [Hpre Hpost].
  { eapply (sorted_take_while_all (key_at strat st)); [exact Hsort|exact Hl|].
    by rewrite (key_at_act x a Ha). }
  unfold place_result. rewrite Hpre, Hpost.
  mrun (update_group_Some s _ (set_sg_last (Some new)) _ rep_group_record).
  unfold mret, M_ret, with_store. rewrite (with_groups_alter _ _ _ _ rep_group_record).
  unfold last_or at 1. unfold last_or in Hl. destruct (last l) as [x'|]; [|done]. simplify_eq.
  do 6 f_equal. unfold group_record, set_sg_last. simpl. rewrite last_or_snoc.
  f_equal. destruct l; [by apply not_elem_of_nil in Hx|done].
Qed.

Lemma PlaceBreadth_spec :
  strat = BREADTH_STRATEGY → PlaceBreadthActivation new g s = place_result.
Proof.
  intros Hstrat. unfold PlaceBreadthActivation.
  mrun (load_act_Some s _ _ Hna). mrun (load_group_Some s _ _ rep_group_record).
  mrun rep_initial_lastAct. mrun (search_fuel_Some s). change (sg_last (group_record l)) with (last_or None l);
    change (sg_first (group_record l)) with (hd_or l None).
  assert (Heq : find_backward (S (size (acts st))) (timetag na) (hd_or l None)
    (last_or None (members S1))
    match last_or None l with Some p => Some p | None => last_or None (members S1) end
    (last_or None l) s = Some (last_or (last_or None (members S1)) place_pre, s)).
  { destruct (decide (l = [])) as [Hl|Hl]; [by unfold place_pre; rewrite Hl|].
    erewrite (find_backward_spec _ _ (fun y => negb (goes_before y)));
      [|apply rep_NoDup|apply rep_dseg|apply rep_length|done|done|].
    { unfold goes_before. by rewrite (sorted_strip_while (key_at strat st)). }
    intros x a Hx Ha. pose proof (Hkeys x Hx) as Hk. revert Hk.
    unfold goes_before. rewrite (key_at_act x a Ha), Hstrat. simpl. intros Hk.
    assert (timetag a ≠ timetag na) by congruence. by zcases; try lia. }
  erewrite M_bind_Some; [|exact Heq]. apply finish_place.
Qed.

Lemma place_by_strategy_spec : place_by_strategy strat new g s = place_result.
Proof.
  assert (Hlex : ∀ x a, x ∈ l → acts st !! x = Some a → strat = LEX_STRATEGY →
    lex_goes_after na a s = Some (lexlt (strategy_key strat st a) (strategy_key strat st na), s)).
  { intros x a Hx Ha ->. unfold lex_goes_after.
    destruct (ComparePartialMatches_spec s a na) as (flag & Hf & Hk);
      [by eapply rep_act_wf|done|]. mrun Hf. unfold mret, M_ret. by rewrite Hk. }
  assert (Hmea : ∀ x a, x ∈ l → acts st !! x = Some a → strat = MEA_STRATEGY → _)
    by (intros x a Hx Ha _; exact (mea_spec s a na (rep_act_wf x a Hx Ha) Hwf)).
  enough (Hall : ∀ x, strat = x → place_by_strategy x new g s = place_result) by by apply Hall.
  intros [] Hs; cbn [place_by_strategy]; [ | apply PlaceBreadth_spec; exact Hs | .. ];
    unfold PlaceDepthActivation, PlaceLEXActivation, PlaceMEAActivation,
    PlaceComplexityActivation, PlaceSimplicityActivation, PlaceRandomActivation;
    mrun (load_act_Some s _ _ Hna).
  - apply PlaceForward_spec. intros x a Hx Ha. rewrite Hs. simpl.
    unfold mret, M_ret. do 2 f_equal. by zcases; try lia.
  - apply PlaceAtEndOrForward_spec; intros x a Hx Ha; by eapply Hlex.
  - apply PlaceAtEndOrForward_spec; intros x a Hx Ha; rewrite Hs;
      destruct (Hmea x a Hx Ha Hs) as [(f1 & Hf1 & Hk1) (f2 & Hf2 & Hk2)].
    + mrun Hf2. unfold mret, M_ret. by rewrite Hk2.
    + mrun Hf1. unfold mret, M_ret. by rewrite Hk1.
  - destruct Hwf as [[nr Hnr] _]. mrun (load_rule_Some s _ _ Hnr).
    apply PlaceForward_spec. intros x a Hx Ha. rewrite Hs.
    destruct (rep_act_wf x a Hx Ha) as [[ar Har] _]. mrun (load_rule_Some s _ _ Har).
    unfold mret, M_ret. simpl. unfold key_complexity. rewrite Hnr, Har, !Z.gtb_ltb.
    do 2 f_equal. by zcases; try lia.
  - destruct Hwf as [[nr Hnr] _]. mrun (load_rule_Some s _ _ Hnr).
    apply PlaceForward_spec. intros x a Hx Ha. rewrite Hs.
    destruct (rep_act_wf x a Hx Ha) as [[ar Har] _]. mrun (load_rule_Some s _ _ Har).
    unfold mret, M_ret. simpl. unfold key_complexity. rewrite Hnr, Har, !Z.gtb_ltb.
    do 2 f_equal. by zcases; try lia.
  - apply PlaceForward_spec. intros x a Hx Ha. rewrite Hs.
    unfold mret, M_ret. simpl. rewrite !Z.gtb_ltb. do 2 f_equal. by zcases; try lia.
Qed.
End place.

(** ** Linking *)

Section link.
Context {H E : Type}.
Implicit Types (s : Environment H E).

Definition set_acts (h : gmap ptr Activation) s : Environment H E :=
  with_store (with_acts (fun _ => h)) s.

Lemma update_act_opt (o : option ptr) f s :
  (∀ p, o = Some p → is_Some (acts (store s) !! p)) →
  match o with Some p => update_act p f | None => mret tt end s =
  Some (tt, with_store (with_acts (upd_opt f o)) s).
Proof.
  intros Ho. destruct o as [p|]; simpl.
  - destruct (Ho p eq_refl) as [a Ha]. by rewrite (update_act_Some s p f a Ha).
  - unfold with_store, with_acts. by destruct s as [[]].
Qed.

(** What a link operation does to the store. *)
Definition relinked s s' (m : ptr) (h' : gmap ptr Activation) (top : option ptr) : Prop :=
  ∃ mods', s' = with_store (fun st => with_modules (fun _ => mods') (with_acts (fun _ => h') st)) s ∧
  (∀ md, modules (store s) !! m = Some md → mods' !! m = Some (set_agenda top md)) ∧
  (∀ k, k ≠ m → mods' !! k = modules (store s) !! k).

Lemma link_activation_spec s m md L1 L2 new na :
  modules (store s) !! m = Some md → agenda md = hd_or (L1 ++ L2) None →
  dll (acts (store s)) (L1 ++ L2) → new ∉ L1 ++ L2 →
  acts (store s) !! new = Some na → act_prev na = None →
  ∃ s' h', link_activation m new (last_or None L1) s = Some (tt, s') ∧
  relinked s s' m h' (hd_or (L1 ++ new :: L2) None) ∧
  h' = upd_opt (set_prv (Some new)) (hd_or L2 None)
    (upd_opt (set_nxt (Some new)) (last_or None L1)
      (<[new := set_act_prev (last_or None L1) (set_act_next (hd_or L2 None) na)]> (acts (store s)))).
Proof.
  intros Hm Hag Hd Hnew Hna Hprev.
  set (h' := upd_opt _ _ _).
  set (mods' := match L1 with [] => alter (set_agenda (Some new)) m (modules (store s))
    | _ => modules (store s) end).
  exists (with_store (fun st => with_modules (fun _ => mods') (with_acts (fun _ => h') st)) s), h'.
  split; [|split; [exists mods'; split; [done|split]|done]].
  - unfold link_activation. destruct L1 as [|q L1 _] using rev_ind.
    + simpl in *. mrun (load_module_Some s _ _ Hm).
      mrun (update_act_Some s _ (set_act_next (agenda md)) _ Hna).
      erewrite M_bind_Some by (eapply update_module_Some; exact Hm). cbn beta.
      rewrite Hag. rewrite update_act_opt.
      2:{ simpl. intros p Hp%hd_or_elem. rewrite lookup_alter_is_Some.
        by eapply dll_lookup. }
      do 2 f_equal. unfold with_store, with_acts, with_modules, h', mods'. simpl.
      rewrite (alter_as_insert _ _ _ _ Hna). do 5 f_equal.
      destruct na; simpl in *. by subst.
    + unfold h', mods'. rewrite last_or_snoc. rewrite <- app_assoc in Hd. simpl in Hd.
      assert (is_Some (acts (store s) !! q)) as [qa Hqa].
      { eapply dll_lookup; [exact Hd|set_solver]. }
      destruct (dll_mid _ _ _ _ _ Hd Hqa) as [_ Hqn]. simpl in Hqn.
      assert (q ≠ new) by (intros ->; set_solver).
      mrun (load_act_Some s _ _ Hqa). rewrite Hqn.
      mrun (update_act_Some s _ (set_act_next (hd_or L2 None)) _ Hna).
      erewrite M_bind_Some.
      2:{ eapply update_act_Some. simpl. by rewrite lookup_alter_eq, Hna. }
      cbn beta. erewrite M_bind_Some.
      2:{ eapply update_act_Some. simpl. by rewrite !lookup_alter_ne, Hqa. }
      cbn beta. rewrite update_act_opt.
      2:{ simpl. intros p Hp%hd_or_elem. rewrite !lookup_alter_is_Some.
        eapply dll_lookup; [exact Hd|set_solver]. }
      do 2 f_equal. unfold with_store, with_acts, with_modules. simpl.
      rewrite (alter_as_insert _ (acts (store s)) _ _ Hna), alter_insert_eq.
      destruct L1; done.
  - intros md' Hmd. rewrite Hm in Hmd. injection Hmd as <-. unfold mods'.
    destruct L1 as [|q L1]; [by rewrite lookup_alter_eq, Hm|].
    rewrite Hm. simpl. destruct md; simpl in *. by subst.
  - intros k Hk. unfold mods'. destruct L1; [by rewrite lookup_alter_ne|done].
Qed.

Lemma relinked_dll s h' L1 L2 new na b :
  dll (acts (store s)) (L1 ++ L2) → new ∉ L1 ++ L2 → acts (store s) !! new = Some na →
  b = set_act_prev (last_or None L1) (set_act_next (hd_or L2 None) na) →
  h' = upd_opt (set_prv (Some new)) (hd_or L2 None)
    (upd_opt (set_nxt (Some new)) (last_or None L1) (<[new := b]> (acts (store s)))) →
  dll h' (L1 ++ new :: L2) ∧ same_payloads (acts (store s)) h' ∧
  ∀ x, x ∉ new :: L1 ++ L2 → h' !! x = acts (store s) !! x.
Proof.
  intros Hd Hnew Hna -> ->. split_and!.
  - by apply dll_link.
  - intros k. rewrite payload_upd_prv, payload_upd_nxt.
    destruct (decide (new = k)) as [<-|]; [|by rewrite lookup_insert_ne].
    by rewrite lookup_insert_eq, Hna.
  - intros x Hx. rewrite !upd_opt_lookup_notin, lookup_insert_ne; [done|set_solver|..].
    + intros Hl%last_or_elem. set_solver.
    + intros Hl%hd_or_elem. set_solver.
Qed.
End link.

(** ** PlaceActivation *)

Section place_activation.
Context {H E : Type} (s : Environment H E).
Abbreviation st := (store s).
Context (m : ptr) (S1 S2 : list Seg) (g : ptr) (sal : Z) (l : list ptr).
Abbreviation segs := (S1 ++ mkSeg g sal l :: S2).
Context (Hrep : agenda_rep st m segs) (Hne : nonempty S1) (Hne2 : nonempty S2).
Context (new : ptr) (na : Activation).
Context (Hna : acts st !! new = Some na) (Hnew : new ∉ members segs).
Context (Hin : act_in st m sal new) (Hprev : act_prev na = None).

Let L1 pre := members S1 ++ pre : list ptr.
Let L2 post := post ++ members S2 : list ptr.

Lemma members_split pre post :
  l = pre ++ post → members segs = L1 pre ++ L2 post.
Proof. intros ->. rewrite members_mid. simpl. unfold L1, L2. by rewrite <- !app_assoc. Qed.

(** The store after the group record and the links are updated. *)
Lemma rep_insert pre post st' h' :
  l = pre ++ post →
  dll h' (L1 pre ++ new :: L2 post) → same_payloads (acts st) h' →
  (∀ x, x ∉ new :: members segs → h' !! x = acts st !! x) →
  acts st' = h' → rules st' = rules st → matches st' = matches st →
  groups st' = <[g := group_record S1 S2 sal (pre ++ new :: post)]> (groups st) →
  (∀ md, modules st !! m = Some md →
  modules st' !! m = Some (set_agenda (hd_or (L1 pre ++ new :: L2 post) None) md)) →
  (∀ k, k ≠ m → modules st' !! k = modules st !! k) →
  agenda_rep st' m (S1 ++ mkSeg g sal (pre ++ new :: post) :: S2) ∧
  frame m (new :: members segs) [g] [] st st'.
Proof.
  intros Hl Hd Hp Hout Ha Hr Hm Hg Hmd Hmo.
  assert (HF : frame m (new :: members segs) [g] [] st st').
  { split; rewrite ?Ha, ?Hr, ?Hm; try done.
    - intros k a _. by apply same_payloads_lookup.
    - intros x Hx. rewrite Hg, lookup_insert_ne; set_solver. }
  split; [|done].
  assert (Hmem : members (S1 ++ mkSeg g sal (pre ++ new :: post) :: S2) = L1 pre ++ new :: L2 post).
  { rewrite members_mid. simpl. unfold L1, L2. by rewrite <- !app_assoc. }
  assert (Haddr : g_addr <$> S1 ++ mkSeg g sal (pre ++ new :: post) :: S2 = g_addr <$> segs)
    by by rewrite !fmap_app.
  pose proof (rep_group_record s m S1 S2 g sal l Hrep) as Hgr.
  destruct Hrep as [(md & Hmd0 & Hgp & Hag) Hgs Has Hss Hdesc]. split.
  - exists (set_agenda (hd_or (L1 pre ++ new :: L2 post) None) md).
    rewrite Hmem, Haddr. split; [by apply Hmd|]. done.
  - rewrite Haddr, Hg. by eapply dll_insert_links.
  - by rewrite Hmem, Ha.
  - assert (HNd : NoDup (g_addr <$> segs)) by apply Hgs.
    rewrite fmap_app in HNd. simpl in HNd. apply NoDup_app in HNd as (_ & Hd1 & HNd).
    apply NoDup_cons in HNd as [Hd2 _].
    assert (Hother : ∀ sg, sg ∈ S1 ∨ sg ∈ S2 → seg_ok st m sg → seg_ok st' m sg).
    { intros sg Hsg [(gr & Hgg & ?) Hmem']. split; [|intros; eapply act_in_frame; eauto; set_solver].
      exists gr. split; [|done]. rewrite Hg, lookup_insert_ne; [done|].
      intros ->. destruct Hsg as [Hsg|Hsg].
      - apply (Hd1 (g_addr sg)); [|set_solver]. apply list_elem_of_fmap. eauto.
      - apply Hd2. apply list_elem_of_fmap. eauto. }
    rewrite Forall_app in Hss. destruct Hss as [Hs1 Hs2].
    apply Forall_cons in Hs2 as [[_ Hsl] Hs2].
    rewrite Forall_app, Forall_cons. rewrite !Forall_forall in *. split_and!; [by eauto| |by eauto].
    split.
    + exists (group_record S1 S2 sal (pre ++ new :: post)). rewrite Hg. simpl.
      by rewrite lookup_insert_eq.
    + simpl in *. intros x Hx. eapply act_in_frame; [done|set_solver|].
      destruct (decide (x = new)) as [->|]; [done|]. apply Hsl. subst l. set_solver.
  - by rewrite fmap_app in *.
Qed.

Context (strat := Strategy (agendaData s)).
Context (Hsort : seg_sorted strat st (mkSeg g sal l)).
Context (Hkeys : ∀ y, y ∈ l → key_at strat st y ≠ strategy_key strat st na).

Lemma new_wf : act_wf st na.
Proof. destruct Hin as (a & r & Ha & _ & _ & _ & Hw). congruence. Qed.

Abbreviation pre := (place_pre s l na strat).
Abbreviation post := (place_post s l na strat).

(** An empty agenda has no other group, and the direct assignment of the
    group's end points is what every strategy would do. *)
Lemma place_empty :
  members segs = [] → S1 = [] ∧ S2 = [] ∧ l = [].
Proof.
  rewrite members_mid. simpl. intros Heq. apply app_eq_nil in Heq as [H1 [H2 H3]%app_eq_nil].
  split_and!; [| |done].
  - destruct S1 as [|sg S1']; [done|]. apply Forall_inv in Hne.
    rewrite members_cons in H1. by apply app_eq_nil in H1 as [? _].
  - destruct S2 as [|sg S2']; [done|]. apply Forall_inv in Hne2.
    rewrite members_cons in H3. by apply app_eq_nil in H3 as [? _].
Qed.

Lemma PlaceActivation_spec :
  ∃ s', PlaceActivation m new g s = Some (tt, s') ∧
  agenda_rep (store s') m (S1 ++ mkSeg g sal (pre ++ new :: post) :: S2) ∧
  frame m (new :: members segs) [g] [] st (store s') ∧
  s' = with_agendaData (set_AgendaChanged true) (with_store (fun st => relinked_store st (store s')) s).
Proof.
  pose proof (take_drop_while (goes_before s na strat) l) as Hl.
  pose proof (members_split pre post (eq_sym Hl)) as Hmem.
  destruct Hrep as [(md & Hmd & Hgp & Hag) Hgs Has Hss Hdesc].
  set (s0 := with_agendaData (set_AgendaChanged true) s).
  set (s1 := with_store (with_groups <[g := group_record S1 S2 sal (pre ++ new :: post)]>) s0).
  assert (Hplace : match agenda md with
    | Some _ => place_by_strategy strat new g
    | None => _ ← update_group g (set_sg_first (Some new));
    _ ← update_group g (set_sg_last (Some new)); mret None
    end s0 = Some (last_or None (L1 pre), s1)).
  { destruct (agenda md) eqn:Hamd.
    - unfold L1. rewrite last_or_app.
      exact (place_by_strategy_spec s0 m S1 S2 g sal l Hrep Hne new na Hna Hnew new_wf strat Hsort Hkeys).
    - destruct place_empty as (H1 & H2 & H3).
      { destruct (members segs); [done|]. by simpl in Hag. }
      pose proof (rep_group_record s m S1 S2 g sal l Hrep) as Hgr.
      unfold s1, L1, place_pre, place_post. rewrite H3 in *. rewrite H1 in *. rewrite H2 in *. simpl.
      mrun (update_group_Some s0 g (set_sg_first (Some new)) _ Hgr).
      erewrite M_bind_Some.
      2:{ eapply update_group_Some. simpl. by rewrite lookup_alter_eq, Hgr. }
      unfold mret, M_ret, with_store, with_groups. simpl.
      rewrite (alter_as_insert _ _ _ _ Hgr), alter_insert_eq. done. }
  assert (Hd1 : dll (acts (store s1)) (L1 pre ++ L2 post)) by by rewrite <- Hmem.
  assert (Hag1 : agenda md = hd_or (L1 pre ++ L2 post) None) by by rewrite <- Hmem.
  assert (Hnew1 : new ∉ L1 pre ++ L2 post) by by rewrite <- Hmem.
  destruct (link_activation_spec s1 m md (L1 pre) (L2 post) new na Hmd Hag1 Hd1 Hnew1 Hna Hprev)
    as (s' & h' & Hrun & (mods' & -> & Hm1 & Hm2) & Hh').
  destruct (relinked_dll s1 h' _ _ new na _ Hd1 Hnew1 Hna eq_refl Hh') as (Hd' & Hp' & Hout).
  rewrite <- Hmem in Hout.
  eexists. split; [|split_and!].
  - unfold PlaceActivation. erewrite M_bind_Some by apply modify_Some. cbn beta.
    erewrite M_bind_Some by (eapply load_module_Some; exact Hmd). cbn beta.
    erewrite M_bind_Some by apply gets_Some. cbn beta.
    change (Strategy (agendaData (with_agendaData (set_AgendaChanged true) s))) with strat.
    erewrite M_bind_Some by exact Hplace. exact Hrun.
  - eapply rep_insert; [exact (eq_sym Hl)|exact Hd'|exact Hp'|exact Hout|done..].
  - eapply rep_insert; [exact (eq_sym Hl)|exact Hd'|exact Hp'|exact Hout|done..].
  - by destruct s as [[]].
Qed.
End place_activation.
