(* ===== verification/Focus.v ===== *)
(** * The current module and the focus stack

    [SetCurrentModule], [SaveCurrentModule] and [RestoreCurrentModule] of
    [moduldef.c], and the focus stack of [engine.c] that decides which agenda
    the next activation is fired from. *)
From S2P Require Import Prelude Router DList Values AgendaState.

Section focus.
Context {H E : Type}.
Abbreviation MA := (M (Environment H E)).

Definition SetCurrentModule (newModule : option ptr) : MA (option ptr) :=
  dd ← gets defmoduleData;
  let oldModule := CurrentModule dd in
  _ ← modify (with_defmoduleData (set_CurrentModule newModule));
  _ ← whenM (CallModuleChangeFunctions dd)
      (modify (with_defmoduleData (set_ModuleChangeIndex (ModuleChangeIndex dd + 1)%Z)));
  mret oldModule.

Definition SaveCurrentModule : MA unit :=
  dd ← gets defmoduleData;
  _ ← modify (with_defmoduleData (set_CallModuleChangeFunctions false));
  modify (with_defmoduleData (set_ModuleStack
  ((CallModuleChangeFunctions dd, CurrentModule dd) :: ModuleStack dd))).

Definition RestoreCurrentModule : MA unit :=
  dd ← gets defmoduleData;
  match ModuleStack dd with
  | [] => undefined
  | (changeFlag, theModule) :: next =>
    _ ← modify (with_defmoduleData (set_ModuleStack next));
    _ ← modify (with_defmoduleData (set_CallModuleChangeFunctions changeFlag));
    modify (with_defmoduleData (set_CurrentModule theModule))
  end.

Fixpoint find_defmodule_loop (name : string) (l : list ptr) : MA (option ptr) :=
  match l with
  | [] => mret None
  | p :: l' =>
    md ← load_module p;
    if decide (module_name md = name) then mret (Some p) else find_defmodule_loop name l'
  end.

Definition FindDefmodule (name : string) : MA (option ptr) :=
  dd ← gets defmoduleData; find_defmodule_loop name (ListOfDefmodules dd).

Definition watch_focus : MA bool :=
  e ← gets engineData; fl ← gets flags;
  mret (WatchFocus e && negb (ClearReadyInProgress fl) && negb (ClearInProgress fl)).

(** Printing the name of the module on top of the stack after [sep]. *)
Definition write_top (sep : string) (stack : list ptr) : MA unit :=
  match stack with
  | f :: _ => fm ← load_module f; _ ← WriteString STDOUT sep; WriteString STDOUT (module_name fm)
  | [] => mret tt
  end.

Definition Focus (theModule : option ptr) : MA unit :=
  match theModule with
  | None => mret tt
  | Some m =>
    _ ← SetCurrentModule (Some m);
    e ← gets engineData;
    if decide (head (CurrentFocus e) = Some m) then mret tt
    else
      w ← watch_focus;
      _ ← whenM w
        (md ← load_module m;
         _ ← WriteString STDOUT "==> Focus ";
         _ ← WriteString STDOUT (module_name md);
         _ ← write_top " from " (CurrentFocus e);
         WriteString STDOUT newline);
      _ ← modify (with_engineData (set_CurrentFocus (m :: CurrentFocus e)));
      modify (with_engineData (set_FocusChanged true))
  end.

(** The loop of [RemoveFocus]: the stack without the first occurrence of the
    module, and whether that was the top; [None] when it is not there. *)
Fixpoint remove_first (m : ptr) (stack : list ptr) (at_top : bool) : option (list ptr * bool) :=
  match stack with
  | [] => None
  | x :: rest =>
    if decide (x = m) then Some (rest, at_top)
    else '(rest', top) ← remove_first m rest false; Some (x :: rest', top)
  end.

Definition RemoveFocus (m : ptr) : MA (option ptr) :=
  e ← gets engineData;
  match CurrentFocus e with
  | [] => mret None
  | top :: _ =>
    match remove_first m (CurrentFocus e) true with
    | None => mret (Some top)
    | Some (stack, currentFocusRemoved) =>
        _ ← modify (with_engineData (set_CurrentFocus stack));
        w ← watch_focus;
        _ ← whenM w
          (md ← load_module m;
           _ ← WriteString STDOUT "<== Focus ";
           _ ← WriteString STDOUT (module_name md);
           _ ← whenM currentFocusRemoved (write_top " to " stack);
           WriteString STDOUT newline);
        _ ← match stack with
            | f :: _ => if (currentFocusRemoved : bool)
                        then _ ← SetCurrentModule (Some f); mret tt else mret tt
            | [] => mret tt
            end;
        _ ← modify (with_engineData (set_FocusChanged true));
        mret (Some m)
    end
  end.

Definition PopFocus : MA (option ptr) :=
  e ← gets engineData;
  match CurrentFocus e with
  | [] => mret None
  | top :: _ => RemoveFocus top
  end.

(** [while (CurrentFocus != NULL) PopFocus(theEnv)] *)
Fixpoint clear_focus_loop (fuel : nat) : MA unit :=
  e ← gets engineData;
  match CurrentFocus e, fuel with
  | [], _ => mret tt
  | _ :: _, O => undefined
  | _ :: _, S fuel' => _ ← PopFocus; clear_focus_loop fuel'
  end.

Definition ClearFocusStack : MA unit :=
  e ← gets engineData;
  _ ← clear_focus_loop (length (CurrentFocus e));
  modify (with_engineData (set_FocusChanged true)).

(** The top of the agenda of the current focus. *)
Definition focus_agenda (top : ptr) : MA (option ptr) :=
  md ← load_module top; mret (agenda md).

(** [while ((theActivation == NULL) && (CurrentFocus != NULL))] *)
Fixpoint next_activation_loop (fuel : nat) (theActivation : option ptr) : MA (option ptr) :=
  e ← gets engineData;
  match theActivation, CurrentFocus e with
  | None, _ :: _ =>
    match fuel with
    | O => undefined
    | S fuel' =>
        _ ← PopFocus;
        e' ← gets engineData;
        theActivation' ← (match CurrentFocus e' with
                          | top :: _ => focus_agenda top
                          | [] => mret theActivation
                          end);
        next_activation_loop fuel' theActivation'
    end
  | _, _ => mret theActivation
  end.

Definition NextActivationToFire : MA (option ptr) :=
  e ← gets engineData;
  _ ← match CurrentFocus e with
    | [] => theModule ← FindDefmodule "MAIN"; Focus theModule
    | _ :: _ => mret tt
    end;
  e' ← gets engineData;
  match CurrentFocus e' with
  | [] => undefined
  | top :: _ =>
    theActivation ← focus_agenda top;
    next_activation_loop (length (CurrentFocus e')) theActivation
  end.
End focus.
