(* ===== verification/Agenda.v ===== *)
(** * The agenda

    [agenda.c]: creating, removing, moving, refreshing and reordering
    activations. *)
From S2P Require Import Prelude Router DList Values AgendaState Strategy Focus.

Section agenda.
Context {H E : Type} `{!Host H E}.
Abbreviation MA := (M (Environment H E)).

(** ** Salience groups *)

(** The search of [ReuseOrCreateSalienceGroup] from [theGroup]: a group of
    that salience ([inl]), or the pair ([lastGroup], [theGroup]) between
    which a new one goes ([inr]). *)
Fixpoint search_groups (fuel : nat) (salience : Z) (lastGroup theGroup : option ptr) :
  MA (ptr + option ptr * option ptr) :=
  match theGroup with
  | None => mret (inr (lastGroup, None))
  | Some p =>
    match fuel with
    | O => undefined
    | S fuel' =>
        g ← load_group p;
        if (sg_salience g =? salience)%Z then mret (inl p)
        else if (sg_salience g <? salience)%Z then mret (inr (lastGroup, Some p))
        else search_groups fuel' salience (Some p) (sg_next g)
    end
  end.

Definition group_fuel : MA nat := s ← gets store; mret (S (size (groups s))).

Definition ReuseOrCreateSalienceGroup (theRuleModule : ptr) (salience : Z) : MA ptr :=
  md ← load_module theRuleModule;
  fuel ← group_fuel;
  r ← search_groups fuel salience None (groupings md);
  match r with
  | inl theGroup => mret theGroup
  | inr (lastGroup, theGroup) =>
    newGroup ← alloc_group (mkSalienceGroup salience None None theGroup lastGroup);
    _ ← match theGroup with
        | Some p => update_group p (set_sg_prev (Some newGroup))
        | None => mret tt
        end;
    _ ← match lastGroup with
        | Some p => update_group p (set_sg_next (Some newGroup))
        | None => update_module theRuleModule (set_groupings (Some newGroup))
        end;
    mret newGroup
  end.

Fixpoint find_group_loop (fuel : nat) (salience : Z) (theGroup : option ptr) : MA (option ptr) :=
  match theGroup with
  | None => mret None
  | Some p =>
    match fuel with
    | O => undefined
    | S fuel' =>
        g ← load_group p;
        if (sg_salience g =? salience)%Z then mret (Some p)
        else if (sg_salience g <? salience)%Z then mret None
        else find_group_loop fuel' salience (sg_next g)
    end
  end.

Definition FindSalienceGroup (theRuleModule : ptr) (salience : Z) : MA (option ptr) :=
  md ← load_module theRuleModule;
  fuel ← group_fuel;
  find_group_loop fuel salience (groupings md).

(** ** Printing *)

(** [gensnprintf("%-6d ")] *)
Definition pad_right (n : nat) (s : string) : string :=
  (fix go k s := match k with O => s | S k' => go k' (s +:+ " ") end) (n - String.length s) s.

Definition PrintActivation (logicalName : string) (theActivation : ptr) : MA unit :=
  a ← load_act theActivation;
  r ← load_rule (theRule a);
  _ ← WriteString logicalName (pad_right 6 (pretty (act_salience a)) +:+ " ");
  _ ← WriteString logicalName (rule_name r);
  _ ← WriteString logicalName ": ";
  write_item (OPartialMatch logicalName (basis a)).

Definition watch_activation (prefix : string) (theActivation : ptr) : MA unit :=
  a ← load_act theActivation;
  r ← load_rule (theRule a);
  fl ← gets flags;
  whenM (watchActivation r && negb (ClearReadyInProgress fl) && negb (ClearInProgress fl))
  (_ ← WriteString STDOUT prefix;
   _ ← PrintActivation STDOUT theActivation;
   WriteString STDOUT newline).

(** ** Salience *)

Definition GetSalienceEvaluation : MA SalienceEvaluationType :=
  d ← gets agendaData; mret (SalienceEvaluation d).

Definition SetSalienceEvaluation (value : SalienceEvaluationType) : MA SalienceEvaluationType :=
  ov ← GetSalienceEvaluation;
  _ ← modify (with_agendaData (set_SalienceEvaluation value));
  mret ov.

Definition SalienceInformationError (constructType constructName : string) : MA unit :=
  _ ← PrintErrorID "PRNTUTIL" 8 true;
  _ ← WriteString STDERR "This error occurred while evaluating the salience";
  _ ← WriteString STDERR " for ";
  _ ← WriteString STDERR constructType;
  _ ← WriteString STDERR " '";
  _ ← WriteString STDERR constructName;
  _ ← WriteString STDERR "'";
  WriteString STDERR ("." +:+ newline).

Definition SalienceRangeError (min max : Z) : MA unit :=
  _ ← PrintErrorID "PRNTUTIL" 9 true;
  _ ← WriteString STDERR "Salience value out of range ";
  _ ← WriteString STDERR (pretty min);
  _ ← WriteString STDERR " to ";
  _ ← WriteString STDERR (pretty max);
  WriteString STDERR ("." +:+ newline).

Definition SalienceNonIntegerError : MA unit :=
  _ ← PrintErrorID "PRNTUTIL" 10 true;
  WriteString STDERR ("Salience value must be an integer value." +:+ newline).

(** The salience expression is evaluated by the host, which returns the
    [EvaluationError] flag and the value. *)
Definition EvaluateSalience (theDefrule : ptr) : MA Z :=
  r ← load_rule theDefrule;
  se ← GetSalienceEvaluation;
  if decide (se = WHEN_DEFINED) then mret (salience r)
  else
  match dynamicSalience r with
  | None => mret (salience r)
  | Some e =>
      _ ← SetEvaluationError false;
      h ← gets host;
      let '(error, salienceValue, h') := EvaluateSalienceExpression e h in
      _ ← modify (with_host (fun _ => h'));
      _ ← SetEvaluationError error;
      if (error : bool) then
        _ ← SalienceInformationError "defrule" (rule_name r); mret (salience r)
      else
        match uv_value salienceValue with
        | VInteger z =>
            if (z >? MAX_DEFRULE_SALIENCE)%Z || (z <? MIN_DEFRULE_SALIENCE)%Z then
              _ ← SalienceRangeError MIN_DEFRULE_SALIENCE MAX_DEFRULE_SALIENCE;
              _ ← SetEvaluationError true;
              _ ← SalienceInformationError "defrule" (rule_name r);
              mret (salience r)
            else
              _ ← update_rule theDefrule (set_salience z);
              mret z
        | _ =>
            _ ← SalienceNonIntegerError;
            _ ← SalienceInformationError "defrule" (rule_name r);
            _ ← SetEvaluationError true;
            mret (salience r)
        end
  end.

(** ** Access functions *)

Definition GetNextActivation (actPtr : option ptr) : MA (option ptr) :=
  match actPtr with
  | None =>
    dd ← gets defmoduleData; m ← deref (CurrentModule dd);
    md ← load_module m; mret (agenda md)
  | Some p => a ← load_act p; mret (act_next a)
  end.
Definition GetActivationBasis (actPtr : ptr) : MA (option ptr) := a ← load_act actPtr; mret (basis a).
Definition GetActivationRule (actPtr : ptr) : MA ptr := a ← load_act actPtr; mret (theRule a).
Definition ActivationRuleName (actPtr : ptr) : MA string :=
  a ← load_act actPtr; r ← load_rule (theRule a); mret (rule_name r).
Definition ActivationGetSalience (actPtr : ptr) : MA Z := a ← load_act actPtr; mret (act_salience a).
Definition GetAgendaChanged : MA bool := d ← gets agendaData; mret (AgendaChanged d).
Definition GetNumberOfActivations : MA Z := d ← gets agendaData; mret (NumberOfActivations d).

Definition ActivationSetSalience (actPtr : ptr) (value : Z) : MA Z :=
  let value := if (value >? MAX_DEFRULE_SALIENCE)%Z then MAX_DEFRULE_SALIENCE
             else if (value <? MIN_DEFRULE_SALIENCE)%Z then MIN_DEFRULE_SALIENCE
             else value in
  a ← load_act actPtr;
  _ ← update_act actPtr (set_act_salience value);
  mret (act_salience a).

(** ** Adding an activation *)

Definition wrap64u (z : Z) : Z := (z mod 2 ^ 64)%Z.

Definition genrand : MA Z :=
  h ← gets host; let '(r, h') := rand h in
  _ ← modify (with_host (fun _ => h')); mret r.

(** The first half of [AddActivation]: focus, timetag, salience and the new
    activation, which is announced but not yet on the agenda. *)
Definition create_activation (theRule0 bindsp : ptr) : MA (ptr * Z * ptr) :=
  r ← load_rule theRule0;
  _ ← whenM (autoFocus r) (Focus (Some (whichModule r)));
  d ← gets agendaData;
  let tag := CurrentTimetag d in
  _ ← modify (with_agendaData (set_CurrentTimetag (wrap64u (tag + 1))));
  sal ← EvaluateSalience theRule0;
  rnd ← genrand;
  newActivation ← alloc_act (mkActivation theRule0 (Some bindsp) sal tag rnd None None);
  d' ← gets agendaData;
  _ ← modify (with_agendaData (set_NumberOfActivations (wrap64u (NumberOfActivations d' + 1))));
  _ ← update_match bindsp (set_marker (Some newActivation));
  _ ← watch_activation "==> Activation " newActivation;
  mret (whichModule r, sal, newActivation).

Definition AddActivation (theRule0 bindsp : ptr) : MA unit :=
  '(theModuleItem, salience, newActivation) ← create_activation theRule0 bindsp;
  theGroup ← ReuseOrCreateSalienceGroup theModuleItem salience;
  PlaceActivation theModuleItem newActivation theGroup.

(** ** Removing activations *)

Definition RemoveActivationFromGroup (theActivation theRuleModule : ptr) : MA unit :=
  a ← load_act theActivation;
  og ← FindSalienceGroup theRuleModule (act_salience a);
  match og with
  | None => mret tt
  | Some gp =>
    g ← load_group gp;
    if decide (Some theActivation = sg_first g) then
      if decide (Some theActivation = sg_last g) then
        _ ← match sg_prev g with
            | None => update_module theRuleModule (set_groupings (sg_next g))
            | Some p => update_group p (set_sg_next (sg_next g))
            end;
        _ ← match sg_next g with
            | Some n => update_group n (set_sg_prev (sg_prev g))
            | None => mret tt
            end;
        free_group gp
      else update_group gp (set_sg_first (act_next a))
    else if decide (Some theActivation = sg_last g) then
      update_group gp (set_sg_last (act_prev a))
    else mret tt
  end.

(** Updating the pointer links between activations on the agenda. *)
Definition unlink_activation (theModuleItem theActivation : ptr) : MA unit :=
  a ← load_act theActivation;
  match act_prev a with
  | None =>
    md ← load_module theModuleItem;
    top ← deref (agenda md);
    ta ← load_act top;
    _ ← update_module theModuleItem (set_agenda (act_next ta));
    match act_next ta with
    | Some n => update_act n (set_act_prev None)
    | None => mret tt
    end
  | Some p =>
    _ ← update_act p (set_act_next (act_next a));
    match act_next a with
    | Some n => update_act n (set_act_prev (act_prev a))
    | None => mret tt
    end
  end.

Definition RemoveActivation (theActivation : ptr) (updateAgenda updateLinks : bool) : MA unit :=
  a0 ← load_act theActivation;
  r ← load_rule (theRule a0);
  let theModuleItem := whichModule r in
  _ ← whenM updateAgenda
  (_ ← RemoveActivationFromGroup theActivation theModuleItem;
   _ ← unlink_activation theModuleItem theActivation;
   _ ← watch_activation "<== Activation " theActivation;
   SetAgendaChanged true);
  _ ← whenM updateLinks
  (match basis a0 with
   | Some b => update_match b (set_marker None)
   | None => mret tt
   end);
  d ← gets agendaData;
  _ ← modify (with_agendaData (set_NumberOfActivations (wrap64u (NumberOfActivations d - 1))));
  free_act theActivation.

Definition DeleteActivation (theActivation : ptr) : MA unit :=
  RemoveActivation theActivation true true.

Definition DetachActivation (theActivation : ptr) : MA bool :=
  a0 ← load_act theActivation;
  r ← load_rule (theRule a0);
  let theModuleItem := whichModule r in
  _ ← RemoveActivationFromGroup theActivation theModuleItem;
  md ← load_module theModuleItem;
  a ← load_act theActivation;
  _ ← whenM (bool_decide (agenda md = Some theActivation))
      (update_module theModuleItem (set_agenda (act_next a)));
  _ ← match act_prev a with
    | Some p => update_act p (set_act_next (act_next a))
    | None => mret tt
    end;
  _ ← match act_next a with
    | Some n => update_act n (set_act_prev (act_prev a))
    | None => mret tt
    end;
  _ ← update_act theActivation (set_act_prev None);
  _ ← update_act theActivation (set_act_next None);
  _ ← SetAgendaChanged true;
  mret true.

Definition MoveActivationToTop (theActivation : ptr) : MA bool :=
  a ← load_act theActivation;
  r ← load_rule (theRule a);
  let theModuleItem := whichModule r in
  md ← load_module theModuleItem;
  if decide (agenda md = Some theActivation) then mret false
  else
  prevPtr ← deref (act_prev a);
  _ ← update_act prevPtr (set_act_next (act_next a));
  _ ← match act_next a with
      | Some n => update_act n (set_act_prev (Some prevPtr))
      | None => mret tt
      end;
  md' ← load_module theModuleItem;
  _ ← update_act theActivation (set_act_next (agenda md'));
  top ← deref (agenda md');
  _ ← update_act top (set_act_prev (Some theActivation));
  _ ← update_act theActivation (set_act_prev None);
  _ ← update_module theModuleItem (set_agenda (Some theActivation));
  _ ← SetAgendaChanged true;
  mret true.

(** The loops that change the agenda they walk read the next activation
    before the body runs: [tempPtr = theActivation->next; ...]. *)
Fixpoint agenda_loop (body : ptr → MA unit) (fuel : nat) (theActivation : option ptr) : MA unit :=
  match theActivation with
  | None => mret tt
  | Some p =>
    match fuel with
    | O => undefined
    | S fuel' =>
        a ← load_act p;
        let tempPtr := act_next a in
        _ ← body p;
        agenda_loop body fuel' tempPtr
    end
  end.

(** [while (theGroup != NULL) rtn_struct(theGroup)] *)
Fixpoint free_groups_loop (fuel : nat) (theGroup : option ptr) : MA unit :=
  match theGroup with
  | None => mret tt
  | Some p =>
    match fuel with
    | O => undefined
    | S fuel' =>
        g ← load_group p;
        let tempGroup := sg_next g in
        _ ← free_group p;
        free_groups_loop fuel' tempGroup
    end
  end.

Definition RemoveAllActivations : MA unit :=
  dd ← gets defmoduleData; m ← deref (CurrentModule dd);
  md ← load_module m;
  fuel ← search_fuel;
  _ ← agenda_loop (fun p => RemoveActivation p true true) fuel (agenda md);
  md' ← load_module m;
  gfuel ← group_fuel;
  free_groups_loop gfuel (groupings md').

(** The argument's module only gives the environment: the agenda cleared is
    the current module's, as [GetDefruleModuleItem(theEnv,NULL)] says. *)
Definition DeleteAllActivations (theModule : ptr) : MA unit :=
  dd ← gets defmoduleData; m ← deref (CurrentModule dd);
  md ← load_module m;
  fuel ← search_fuel;
  _ ← agenda_loop (fun p => RemoveActivation p true true) fuel (agenda md);
  md' ← load_module m;
  gfuel ← group_fuel;
  free_groups_loop gfuel (groupings md').

(** ** Clearing a rule, refreshing *)

(** The disjuncts of a rule. *)
Fixpoint is_disjunct (fuel : nat) (tempRule : option ptr) (r : ptr) : MA bool :=
  match tempRule with
  | None => mret false
  | Some p =>
    if decide (r = p) then mret true
    else match fuel with
         | O => undefined
         | S fuel' => d ← load_rule p; is_disjunct fuel' (disjunct d) r
         end
  end.

Definition rule_fuel : MA nat := s ← gets store; mret (S (size (rules s))).

Definition clear_rule_body (theRule0 agendaPtr : ptr) : MA unit :=
  a ← load_act agendaPtr;
  rf ← rule_fuel;
  b ← is_disjunct rf (Some theRule0) (theRule a);
  whenM b (RemoveActivation agendaPtr true true).

Definition ClearRuleFromAgenda (theRule0 : ptr) : MA unit :=
  r ← load_rule theRule0;
  md ← load_module (whichModule r);
  fuel ← search_fuel;
  agenda_loop (clear_rule_body theRule0) fuel (agenda md).

Definition refresh_match (rulePtr : ptr) (r : Defrule E) (m : ptr) : MA unit :=
  pm ← load_match m;
  whenM (ruleToActivate r && bool_decide (marker pm = None)) (AddActivation rulePtr m).

Fixpoint forM_ {A} (f : A → MA unit) (l : list A) : MA unit :=
  match l with [] => mret tt | x :: l' => _ ← f x; forM_ f l' end.

Fixpoint refresh_loop (fuel : nat) (rulePtr : option ptr) : MA unit :=
  match rulePtr with
  | None => mret tt
  | Some p =>
    match fuel with
    | O => undefined
    | S fuel' =>
        r ← load_rule p;
        _ ← forM_ (fun bucket => forM_ (refresh_match p r) bucket) (leftMemory r);
        refresh_loop fuel' (disjunct r)
    end
  end.

Definition Refresh (theRule0 : ptr) : MA unit :=
  fuel ← rule_fuel; refresh_loop fuel (Some theRule0).

(** ** Reordering *)

Definition reorder_body (theModuleItem theActivation : ptr) : MA unit :=
  a ← load_act theActivation;
  _ ← update_act theActivation (set_act_next None);
  _ ← update_act theActivation (set_act_prev None);
  theGroup ← ReuseOrCreateSalienceGroup theModuleItem (act_salience a);
  PlaceActivation theModuleItem theActivation theGroup.

Definition ReorderAgenda (theModule : ptr) : MA unit :=
  md ← load_module theModule;
  let theActivation := agenda md in
  _ ← update_module theModule (set_agenda None);
  gfuel ← group_fuel;
  _ ← free_groups_loop gfuel (groupings md);
  _ ← update_module theModule (set_groupings None);
  fuel ← search_fuel;
  agenda_loop (reorder_body theModule) fuel theActivation.

Definition ReorderAllAgendas : MA unit :=
  dd ← gets defmoduleData; forM_ ReorderAgenda (ListOfDefmodules dd).

Definition SetStrategy (value : StrategyType) : MA StrategyType :=
  d ← gets agendaData;
  let oldStrategy := Strategy d in
  _ ← modify (with_agendaData (set_Strategy value));
  _ ← whenM (bool_decide (oldStrategy ≠ value)) ReorderAllAgendas;
  mret oldStrategy.

Fixpoint refresh_saliences (fuel : nat) (theActivation : option ptr) : MA unit :=
  match theActivation with
  | None => mret tt
  | Some p =>
    match fuel with
    | O => undefined
    | S fuel' =>
        a ← load_act p;
        sal ← EvaluateSalience (theRule a);
        _ ← update_act p (set_act_salience sal);
        a' ← load_act p;
        refresh_saliences fuel' (act_next a')
    end
  end.

(** Recomputing the salience of every activation, then the order. *)
Definition refresh_module (theModule : ptr) : MA unit :=
  md ← load_module theModule;
  fuel ← search_fuel;
  _ ← refresh_saliences fuel (agenda md);
  ReorderAgenda theModule.

Definition RefreshAgenda (theModule : ptr) : MA unit :=
  fl ← gets flags;
  _ ← whenM (negb (CurrentExpression fl)) ResetErrorFlags;
  _ ← SaveCurrentModule;
  oldValue ← GetSalienceEvaluation;
  _ ← SetSalienceEvaluation WHEN_ACTIVATED;
  _ ← SetCurrentModule (Some theModule);
  _ ← refresh_module theModule;
  _ ← SetSalienceEvaluation oldValue;
  RestoreCurrentModule.

Definition RefreshAllAgendas : MA unit :=
  dd ← gets defmoduleData; forM_ RefreshAgenda (ListOfDefmodules dd).

Definition AgendaClearFunction : MA unit :=
  modify (with_agendaData (set_CurrentTimetag 1)).

Definition SalienceEvaluationName (strategy : SalienceEvaluationType) : string :=
  match strategy with
  | WHEN_DEFINED => "when-defined"
  | WHEN_ACTIVATED => "when-activated"
  | EVERY_CYCLE => "every-cycle"
  end.
End agenda.
