(* ===== verification/AgendaProofs.v ===== *)
(** * The salience group of a new activation

    [ReuseOrCreateSalienceGroup]: the group of that salience, or a new empty
    group linked in at its place in the order.

    Then the two calls that put an activation on an agenda, as an insertion
    into the abstract agenda, and the list of the salience groups. *)
From Stdlib Require Import Sorting.Sorted.
From S2P Require Import Prelude Values DList AgendaState Strategy StrategyProofs AgendaRep PlaceProofs.
From S2P Require Import Focus Agenda.
Lemma StronglySorted_app {A} (R : A → A → Prop) l1 l2 :
  StronglySorted R l1 → StronglySorted R l2 → (∀ x y, x ∈ l1 → y ∈ l2 → R x y) →
  StronglySorted R (l1 ++ l2).
Proof.
  intros H1 H2 H3. induction H1 as [|x l1 H1 IH HF]; simpl; [done|].
  constructor; [apply IH; set_solver|]. rewrite Forall_app. split; [done|].
  apply Forall_forall. set_solver.
Qed.

Section groups.
Context {H E : Type}.
Implicit Types (s : Environment H E).

(** The record of a group in the middle of a represented agenda. *)
Lemma rep_group_at (st : Store E) m S1 sg S2 :
  agenda_rep st m (S1 ++ sg :: S2) →
  ∃ g, groups st !! g_addr sg = Some g ∧ sg_salience g = g_sal sg ∧
  sg_next g = hd_or (g_addr <$> S2) None ∧ sg_prev g = last_or None (g_addr <$> S1) ∧
  sg_first g = hd_or (g_mem sg) None ∧ sg_last g = last_or None (g_mem sg).
Proof.
  intros [_ Hg _ Hs _]. rewrite Forall_app in Hs. destruct Hs as [_ Hs].
  apply Forall_inv in Hs as [(g & Hgg & Hsal & Hf & Hl) _]. exists g.
  rewrite fmap_app in Hg. simpl in Hg. destruct (dll_mid _ _ _ _ _ Hg Hgg). done.
Qed.

(** Where the search stops. *)
Definition search_result (sal : Z) (segs : list Seg) (r : ptr + option ptr * option ptr) : Prop :=
  match r with
  | inl g => ∃ S1 l S2, segs = S1 ++ mkSeg g sal l :: S2
  | inr (lastGroup, theGroup) => ∃ S1 S2, segs = S1 ++ S2 ∧
    lastGroup = last_or None (g_addr <$> S1) ∧ theGroup = hd_or (g_addr <$> S2) None ∧
    (∀ sg, sg ∈ S1 → g_sal sg > sal)%Z ∧ (∀ sg, sg ∈ S2 → sal > g_sal sg)%Z
  end.

Lemma search_groups_spec fuel sal s m S0 R :
  agenda_rep (store s) m (S0 ++ R) → (∀ sg, sg ∈ S0 → g_sal sg > sal)%Z → length R < fuel →
  ∃ r, search_groups fuel sal (last_or None (g_addr <$> S0)) (hd_or (g_addr <$> R) None) s
  = Some (r, s) ∧ search_result sal (S0 ++ R) r.
Proof.
  revert S0 R. induction fuel as [|fuel IH]; intros S0 R Hrep H0 Hf; [lia|].
  destruct R as [|sg R]; simpl.
  { eexists. split; [done|]. exists S0, []. split_and!; [done..|set_solver]. }
  destruct (rep_group_at _ _ _ _ _ Hrep) as (g & Hg & Hsal & Hn & _).
  mrun (load_group_Some s _ _ Hg). rewrite Hsal, Hn. destruct (Z.eqb_spec (g_sal sg) sal) as [He|He].
  { eexists. split; [done|]. exists S0, (g_mem sg), R. by destruct sg; simpl in *; subst. }
  destruct (Z.ltb_spec (g_sal sg) sal) as [Hlt|Hge].
  - eexists. split; [done|]. exists S0, (sg :: R). split_and!; [done..|].
    intros t [->|Ht]%elem_of_cons; [lia|].
    pose proof (rep_desc _ _ _ Hrep) as Hd. rewrite fmap_app in Hd. simpl in Hd.
    apply StronglySorted_app_inv in Hd as (_ & Hd & _).
    apply StronglySorted_inv in Hd as [_ Hd]. rewrite Forall_forall in Hd.
    assert (g_sal sg > g_sal t)%Z; [|lia]. apply Hd. apply list_elem_of_fmap. eauto.
  - replace (Some (g_addr sg)) with (last_or None (g_addr <$> S0 ++ [sg]))
      by (rewrite fmap_app; simpl; by rewrite last_or_snoc).
    replace (S0 ++ sg :: R) with ((S0 ++ [sg]) ++ R) in * by by rewrite <- app_assoc.
    apply IH; [done| |simpl in Hf; lia].
    intros t [Ht|Ht]%elem_of_app; [by apply H0|]. apply list_elem_of_singleton in Ht as ->. lia.
Qed.

Lemma rep_groups_size (st : Store E) m segs :
  agenda_rep st m segs → length segs ≤ size (groups st).
Proof. intros [_ Hg _ _ _]. apply dll_size in Hg. by rewrite length_fmap in Hg. Qed.

Lemma update_group_opt (o : option ptr) f s :
  (∀ p, o = Some p → is_Some (groups (store s) !! p)) →
  match o with Some p => update_group p f | None => mret tt end s =
  Some (tt, with_store (with_groups (upd_opt f o)) s).
Proof.
  intros Ho. destruct o as [p|]; simpl.
  - destruct (Ho p eq_refl) as [a Ha]. by rewrite (update_group_Some s p f a Ha).
  - unfold with_store, with_groups. by destruct s as [[]].
Qed.

Lemma alloc_group_Some g s :
  alloc_group g s = Some (fresh_ptr (groups (store s)),
  with_store (with_groups <[fresh_ptr (groups (store s)) := g]>) s).
Proof. done. Qed.
Lemma group_fuel_Some s : group_fuel s = Some (S (size (groups (store s))), s).
Proof. done. Qed.

(** What [ReuseOrCreateSalienceGroup] promises. *)
Record group_ready (m : ptr) (sal : Z) (segs : list Seg) s (g : ptr) s' S1 l S2 : Prop := {
  gr_rep : agenda_rep (store s') m (S1 ++ mkSeg g sal l :: S2);
  gr_before : nonempty S1;
  gr_after : nonempty S2;
  gr_segs : segs = S1 ++ mkSeg g sal l :: S2 ∨
  (segs = S1 ++ S2 ∧ l = [] ∧ groups (store s) !! g = None);
  gr_frame : frame m [] (g :: (g_addr <$> segs)) [] (store s) (store s');
  gr_acts : acts (store s') = acts (store s);
  gr_state : s' = with_store (fun st => relinked_store st (store s')) s;
}.

(** Linking a new, empty group between [S1] and [S2]. *)
Lemma rep_new_group (st st' : Store E) m S1 S2 sal p :
  agenda_rep st m (S1 ++ S2) → groups st !! p = None →
  (∀ sg, sg ∈ S1 → g_sal sg > sal)%Z → (∀ sg, sg ∈ S2 → sal > g_sal sg)%Z →
  groups st' = upd_opt (set_prv (Some p)) (hd_or (g_addr <$> S2) None)
  (upd_opt (set_nxt (Some p)) (last_or None (g_addr <$> S1))
    (<[p := mkSalienceGroup sal None None (hd_or (g_addr <$> S2) None)
             (last_or None (g_addr <$> S1))]> (groups st))) →
  acts st' = acts st → rules st' = rules st → matches st' = matches st →
  (∀ md, modules st !! m = Some md → modules st' !! m =
  Some (set_groupings (hd_or (g_addr <$> S1 ++ mkSeg p sal [] :: S2) None) md)) →
  (∀ k, k ≠ m → modules st' !! k = modules st !! k) →
  agenda_rep st' m (S1 ++ mkSeg p sal [] :: S2) ∧
  frame m [] (p :: (g_addr <$> S1 ++ S2)) [] st st'.
Proof.
  intros Hrep Hp Hgt Hlt Hg Ha Hr Hm Hmd Hmo.
  assert (Hpn : p ∉ g_addr <$> S1 ++ S2).
  { intros Hin. destruct (dll_lookup _ _ _ (rep_groups _ _ _ Hrep) Hin). congruence. }
  rewrite fmap_app in Hpn.
  assert (HF : frame m [] (p :: (g_addr <$> S1 ++ S2)) [] st st').
  { split; rewrite ?Ha, ?Hr, ?Hm; try done; [naive_solver|].
    intros x Hx. rewrite fmap_app in Hx.
    rewrite Hg, !upd_opt_lookup_notin, lookup_insert_ne; [done|set_solver|..].
    - intros Hl%last_or_elem. set_solver.
    - intros Hl%hd_or_elem. set_solver. }
  split; [|done].
  assert (Hmem : members (S1 ++ mkSeg p sal [] :: S2) = members (S1 ++ S2))
    by by rewrite members_mid, members_app.
  destruct Hrep as [(md & Hmd0 & Hgp & Hag) Hgs Has Hss Hdesc]. split.
  - exists (set_groupings (hd_or (g_addr <$> S1 ++ mkSeg p sal [] :: S2) None) md).
    rewrite Hmem. split; [by apply Hmd|]. done.
  - rewrite fmap_app. simpl. rewrite Hg. apply dll_link; [by rewrite <- fmap_app|done..].
  - by rewrite Hmem, Ha.
  - assert (Hother : ∀ sg, sg ∈ S1 ++ S2 → seg_ok st m sg → seg_ok st' m sg).
    { intros sg Hsg [(gr & Hgg & Hrest) Hmem']. split; [|intros; eapply act_in_frame; eauto; set_solver].
      assert (Hpay : payload <$> groups st' !! g_addr sg = payload <$> groups st !! g_addr sg).
      { rewrite Hg, payload_upd_prv, payload_upd_nxt, lookup_insert_ne; [done|].
        intros ->. apply Hpn. rewrite <- fmap_app. apply list_elem_of_fmap. eauto. }
      rewrite Hgg in Hpay. destruct (groups st' !! g_addr sg) as [gr'|]; [|done].
      exists gr'. simpl in Hpay. simplify_eq. naive_solver congruence. }
    rewrite Forall_app in *. destruct Hss as [Hs1 Hs2]. rewrite Forall_cons, !Forall_forall in *.
    split_and!; [intros; apply Hother; set_solver| |intros; apply Hother; set_solver].
    split; [|set_solver]. eexists. simpl. rewrite Hg, !upd_opt_lookup_notin, lookup_insert_eq.
    + split; [done|]. done.
    + intros Hl%last_or_elem. set_solver.
    + intros Hl%hd_or_elem. set_solver.
  - rewrite fmap_app in *. simpl. apply StronglySorted_app_inv in Hdesc as (H1 & H2 & H3).
    apply StronglySorted_app; [done|constructor; [done|]|].
    + apply Forall_forall. intros z (sg & -> & Hsg)%list_elem_of_fmap. by apply Hlt.
    + intros x y (sg & -> & Hsg)%list_elem_of_fmap [->|Hy]%elem_of_cons; [by apply Hgt|].
      apply H3; [|done]. apply list_elem_of_fmap. eauto.
Qed.

Lemma ReuseOrCreateSalienceGroup_spec s m sal segs :
  agenda_rep (store s) m segs → nonempty segs →
  ∃ g s' S1 l S2, ReuseOrCreateSalienceGroup m sal s = Some (g, s') ∧
  group_ready m sal segs s g s' S1 l S2.
Proof.
  intros Hrep Hne. destruct (rep_module _ _ _ Hrep) as (md & Hmd & Hgp & _).
  unfold ReuseOrCreateSalienceGroup. mrun (load_module_Some s _ _ Hmd).
  mrun (group_fuel_Some s).
  destruct (search_groups_spec (S (size (groups (store s)))) sal s m [] segs Hrep) as (r & Hr & Hres).
  { set_solver. } { pose proof (rep_groups_size _ _ _ Hrep). lia. }
  rewrite Hgp. mrun Hr. simpl in Hres. destruct r as [g|[lastGroup theGroup]]; simpl in Hres.
  - destruct Hres as (S1 & l & S2 & ->). exists g, s, S1, l, S2. split; [done|].
    unfold nonempty in Hne. rewrite Forall_app, Forall_cons in Hne. destruct Hne as (? & _ & ?).
    split; [done..|by left|apply frame_refl|done|]. by destruct s as [[]].
  - destruct Hres as (S1 & S2 & -> & -> & -> & Hgt & Hlt).
    set (p := fresh_ptr (groups (store s))).
    assert (Hp : groups (store s) !! p = None) by apply fresh_ptr_None.
    set (rec := mkSalienceGroup sal None None (hd_or (g_addr <$> S2) None) (last_or None (g_addr <$> S1))).
    set (gs' := upd_opt (set_sg_next (Some p)) (last_or None (g_addr <$> S1))
      (upd_opt (set_sg_prev (Some p)) (hd_or (g_addr <$> S2) None) (<[p := rec]> (groups (store s))))).
    set (mods' := match S1 with
      | [] => alter (set_groupings (Some p)) m (modules (store s)) | _ => modules (store s) end).
    set (s' := with_store (fun st => with_modules (fun _ => mods') (with_groups (fun _ => gs') st)) s).
    pose proof (rep_groups _ _ _ Hrep) as Hdg.
    assert (Hlive : ∀ q, q ∈ g_addr <$> S1 ++ S2 →
      is_Some (<[p := rec]> (groups (store s)) !! q)).
    { intros q Hq. rewrite lookup_insert_is_Some'. right. by eapply dll_lookup. }
    rewrite fmap_app in Hlive, Hdg. unfold nonempty in Hne. rewrite Forall_app in Hne.
    exists p, s', S1, [], S2. split.
    + mrun (alloc_group_Some rec s). fold p.
      erewrite M_bind_Some.
      2:{ apply (update_group_opt (hd_or (g_addr <$> S2) None)). simpl.
        intros q Hq%hd_or_elem. apply Hlive. set_solver. }
      cbn beta. destruct S1 as [|sg S1' _] eqn:E1 using rev_ind.
      * simpl. erewrite M_bind_Some by (eapply update_module_Some; exact Hmd). done.
      * unfold s', gs', mods'. rewrite fmap_app. simpl. rewrite last_or_snoc.
        erewrite M_bind_Some; [cbn beta|eapply (update_group_opt (Some (g_addr sg)))].
        2:{ simpl. intros q [= <-]. rewrite upd_opt_is_Some. apply Hlive. set_solver. }
        do 3 f_equal. unfold with_store, with_groups, with_modules. simpl.
        destruct S1'; done.
    + edestruct (rep_new_group (store s) (store s') m S1 S2 sal p) as [Hrep' HF];
        [done|done|done|done| |done|done|done| | |].
      * unfold s', gs'. simpl. apply upd_opt_comm.
        intros Heq. destruct (last_or None (g_addr <$> S1)) as [q|] eqn:Hq; [|done]. exfalso.
        apply dll_NoDup, NoDup_app in Hdg as (_ & Hdisj & _).
        apply (Hdisj q); [by apply last_or_elem|]. by apply hd_or_elem.
      * intros md' Hmd'. rewrite Hmd in Hmd'. injection Hmd' as <-. unfold s', mods'. simpl.
        destruct S1 as [|sg S1']; simpl; [by rewrite lookup_alter_eq, Hmd|].
        rewrite Hmd. destruct md; simpl in *. by subst.
      * intros k Hk. unfold s', mods'. simpl. destruct S1; [by rewrite lookup_alter_ne|done].
      * split; [done|by apply Hne|by apply Hne|by right|done|done|done].
Qed.
End groups.

(** * The agenda refines its specification

    The abstract agenda of a module is a list of (salience, activations) pairs.
    [place_on_agenda], the two calls with which [AddActivation] and
    [ReorderAgenda] put an activation on the agenda, refines the abstract
    insertion [spec_place]. *)

(** ** The abstract agenda *)

Definition abs (segs : list Seg) : list (Z * list ptr) := (fun sg => (g_sal sg, g_mem sg)) <$> segs.

(** Insertion among activations of equal salience, by key. *)
Definition spec_insert (key : ptr → list Z) (new : ptr) (l : list ptr) : list ptr :=
  take_while (fun y => lexlt (key y) (key new)) l ++
  new :: drop_while (fun y => lexlt (key y) (key new)) l.

(** Insertion by salience first. *)
Fixpoint spec_place (key : ptr → list Z) (sal : Z) (new : ptr) (A : list (Z * list ptr)) :=
  match A with
  | [] => [(sal, [new])]
  | (s, l) :: A' =>
      if (s =? sal)%Z then (s, spec_insert key new l) :: A'
      else if (s <? sal)%Z then (sal, [new]) :: (s, l) :: A'
      else (s, l) :: spec_place key sal new A'
  end.

Lemma spec_place_ext key key' sal new A :
  (∀ x, x = new ∨ x ∈ concat A.*2 → key x = key' x) →
  spec_place key sal new A = spec_place key' sal new A.
Proof.
  induction A as [|[s l] A IH]; simpl; intros Heq; [done|]. rewrite IH by set_solver.
  assert (Hi : spec_insert key new l = spec_insert key' new l); [|by rewrite Hi].
  assert (∀ y, y ∈ l → lexlt (key y) (key new) = lexlt (key' y) (key' new)) as Hx.
  { intros y Hy. by rewrite !Heq by set_solver. }
  unfold spec_insert. by rewrite (take_while_ext _ _ _ Hx), (drop_while_ext _ _ _ Hx).
Qed.

Lemma spec_insert_perm key new l : spec_insert key new l ≡ₚ new :: l.
Proof. unfold spec_insert. by rewrite <- Permutation_middle, take_drop_while. Qed.

(** The concatenation of the groups: the agenda in firing order. *)
Definition firing_order (A : list (Z * list ptr)) : list ptr := concat A.*2.

Lemma spec_place_perm key sal new A : firing_order (spec_place key sal new A) ≡ₚ new :: firing_order A.
Proof.
  unfold firing_order. induction A as [|[s l] A IH]; simpl; [done|].
  destruct (s =? sal)%Z; simpl.
  { by rewrite spec_insert_perm. }
  destruct (s <? sal)%Z; simpl; [done|]. rewrite IH. by rewrite Permutation_middle.
Qed.

Lemma firing_order_abs segs : firing_order (abs segs) = members segs.
Proof.
  unfold firing_order, members, abs. rewrite <- list_fmap_compose. done.
Qed.

Lemma spec_place_reuse key sal new S1 g l S2 :
  (∀ sg, sg ∈ S1 → g_sal sg > sal)%Z →
  spec_place key sal new (abs (S1 ++ mkSeg g sal l :: S2)) =
  abs (S1 ++ mkSeg g sal (spec_insert key new l) :: S2).
Proof.
  induction S1 as [|sg S1 IH]; intros Hgt; simpl; [by rewrite Z.eqb_refl|].
  assert (g_sal sg > sal)%Z by (apply Hgt; set_solver). zcases; try lia.
  f_equal. apply IH. set_solver.
Qed.
Lemma spec_place_new key sal new S1 g S2 :
  (∀ sg, sg ∈ S1 → g_sal sg > sal)%Z → (∀ sg, sg ∈ S2 → sal > g_sal sg)%Z →
  spec_place key sal new (abs (S1 ++ S2)) = abs (S1 ++ mkSeg g sal [new] :: S2).
Proof.
  intros Hgt Hlt. induction S1 as [|sg S1 IH]; simpl.
  - destruct S2 as [|sg S2]; [done|]. simpl.
    assert (sal > g_sal sg)%Z by (apply Hlt; set_solver). zcases; try lia. done.
  - assert (g_sal sg > sal)%Z by (apply Hgt; set_solver). zcases; try lia.
    f_equal. apply IH. set_solver.
Qed.

(** ** Well-formed agendas *)

Record wf_agenda {E} (strat : StrategyType) (st : Store E) (m : ptr) (segs : list Seg) : Prop := {
  wa_rep : agenda_rep st m segs;
  wa_nonempty : nonempty segs;
  wa_sorted : Forall (seg_sorted strat st) segs;
}.

Section facts.
Context {E : Type}.
Implicit Types (st : Store E).

Lemma rep_live st m segs x : agenda_rep st m segs → x ∈ members segs → is_Some (acts st !! x).
Proof. intros Hrep Hx. by eapply dll_lookup; [apply Hrep|]. Qed.

Lemma rep_act_in st m segs sg x :
  agenda_rep st m segs → sg ∈ segs → x ∈ g_mem sg → act_in st m (g_sal sg) x.
Proof.
  intros Hrep Hsg Hx. pose proof (rep_segs _ _ _ Hrep) as Hs. rewrite Forall_forall in Hs.
  by apply Hs.
Qed.

(** The whole agenda is in order: by salience, then by the strategy's key. *)
Definition salience_at st (x : ptr) : Z :=
  match acts st !! x with Some a => act_salience a | None => 0 end.
Definition fires_before strat st (x y : ptr) : Prop :=
  (salience_at st x > salience_at st y)%Z ∨
  (salience_at st x = salience_at st y ∧ before strat st x y).

Lemma act_in_salience st m sal x : act_in st m sal x → salience_at st x = sal.
Proof. intros (a & r & Ha & <- & _). unfold salience_at. by rewrite Ha. Qed.

Lemma wf_agenda_ordered strat st m segs :
  wf_agenda strat st m segs → StronglySorted (fires_before strat st) (members segs).
Proof.
  intros [Hrep _ Hs]. pose proof (rep_desc _ _ _ Hrep) as Hd.
  assert (Hin : ∀ sg x, sg ∈ segs → x ∈ g_mem sg → salience_at st x = g_sal sg).
  { intros sg x Hsg Hx. eapply act_in_salience. by eapply rep_act_in. }
  clear Hrep. induction segs as [|sg segs IH]; [constructor|].
  rewrite members_cons. apply Forall_cons in Hs as [Hsg Hs].
  simpl in Hd. apply StronglySorted_inv in Hd as [Hd Hgt].
  apply StronglySorted_app.
  - assert (Hsal : ∀ x, x ∈ g_mem sg → salience_at st x = g_sal sg) by (intros; apply Hin; set_solver).
    unfold seg_sorted in Hsg. clear Hin. induction Hsg as [|x l Hl IHl HF]; constructor; [apply IHl; set_solver|].
    rewrite Forall_forall in *. intros y Hy. right.
    split; [rewrite !Hsal; set_solver|by apply HF].
  - apply IH; [done|done|]. intros; apply Hin; set_solver.
  - intros x y Hx (sg' & Hsg' & Hy)%elem_of_members. left.
    rewrite (Hin sg x), (Hin sg' y) by set_solver.
    rewrite Forall_forall in Hgt. apply Hgt. apply list_elem_of_fmap. eauto.
Qed.
End facts.

(** ** Placing an activation *)

Section place.
Context {H E : Type}.
Implicit Types (s : Environment H E).

Definition place_on_agenda (m new : ptr) (sal : Z) : MA H E unit :=
  theGroup ← ReuseOrCreateSalienceGroup m sal; PlaceActivation m new theGroup.

(** The groups an operation may touch: those of the agenda, or new ones. *)
Definition own_or_new (st : Store E) (segs : list Seg) (G : list ptr) : Prop :=
  ∀ x, x ∈ G → x ∈ g_addr <$> segs ∨ groups st !! x = None.

Lemma split_saliences (st : Store E) m S1 g sal l S2 :
  agenda_rep st m (S1 ++ mkSeg g sal l :: S2) →
  (∀ sg, sg ∈ S1 → g_sal sg > sal)%Z ∧ (∀ sg, sg ∈ S2 → sal > g_sal sg)%Z.
Proof.
  intros Hrep. pose proof (rep_desc _ _ _ Hrep) as Hd. rewrite fmap_app in Hd. simpl in Hd.
  apply StronglySorted_app_inv in Hd as (_ & Hd & Hx). apply StronglySorted_inv in Hd as [_ Hd].
  rewrite Forall_forall in Hd. split; intros sg Hsg.
  - apply Hx; [apply list_elem_of_fmap; eauto|set_solver].
  - apply Hd. apply list_elem_of_fmap; eauto.
Qed.

Lemma place_on_agenda_spec s m new na sal segs :
  let strat := Strategy (agendaData s) in
  wf_agenda strat (store s) m segs →
  acts (store s) !! new = Some na → act_in (store s) m sal new → act_prev na = None →
  new ∉ members segs →
  (∀ y, y ∈ members segs → key_at strat (store s) y ≠ key_at strat (store s) new) →
  ∃ s' segs' G, place_on_agenda m new sal s = Some (tt, s') ∧
  wf_agenda strat (store s') m segs' ∧
  abs segs' = spec_place (key_at strat (store s)) sal new (abs segs) ∧
  frame m (new :: members segs) G [] (store s) (store s') ∧ own_or_new (store s) segs G ∧
  (∀ x, x ∈ g_addr <$> segs' → x ∈ g_addr <$> segs ∨ groups (store s) !! x = None) ∧
  s' = with_agendaData (set_AgendaChanged true) (with_store (fun st => relinked_store st (store s')) s).
Proof.
  intros strat [Hrep Hne Hs] Hna Hin Hprev Hnew Hkeys.
  destruct (ReuseOrCreateSalienceGroup_spec s m sal segs Hrep Hne)
    as (g & s1 & S1 & l & S2 & Hrun1 & [Hrep1 Hn1 Hn2 Hsegs HF1 Ha1 Hs1]).
  assert (Hmem : members segs = members (S1 ++ mkSeg g sal l :: S2)).
  { destruct Hsegs as [->|(-> & -> & _)]; [done|]. by rewrite members_mid, members_app. }
  assert (Hsub : ∀ sg, sg ∈ S1 ∨ sg ∈ S2 → sg ∈ segs).
  { intros sg Hsg. destruct Hsegs as [->|(-> & -> & _)]; set_solver. }
  assert (Hlive : ∀ x, x ∈ members segs → is_Some (acts (store s) !! x)) by by intros; eapply rep_live.
  assert (Hl : ∀ x, x ∈ l → x ∈ members segs).
  { intros x Hx. rewrite Hmem, members_mid. simpl. set_solver. }
  assert (Hstrat1 : Strategy (agendaData s1) = strat) by by rewrite Hs1.
  assert (Hkey1 : ∀ x, is_Some (acts (store s) !! x) → key_at strat (store s1) x = key_at strat (store s) x).
  { intros x Hx. eapply key_at_frame; [exact HF1|set_solver|done]. }
  assert (Hna1 : acts (store s1) !! new = Some na) by by rewrite Ha1.
  assert (Hsort1 : seg_sorted strat (store s1) (mkSeg g sal l)).
  { eapply seg_sorted_frame; [exact HF1| |].
    { simpl. intros x Hx. split; [set_solver|auto]. }
    destruct Hsegs as [->|(-> & -> & _)]; [|constructor].
    rewrite Forall_app, Forall_cons in Hs. apply Hs. }
  assert (Hkn : key_at strat (store s1) new = strategy_key strat (store s1) na)
    by (unfold key_at; by rewrite Hna1).
  destruct (PlaceActivation_spec s1 m S1 S2 g sal l Hrep1 Hn1 Hn2 new na Hna1)
    as (s2 & Hrun2 & Hrep2 & HF2 & Hs2);
    [by rewrite <- Hmem|eapply act_in_frame; [exact HF1|set_solver|done]|done|by rewrite Hstrat1| |].
  { rewrite Hstrat1, <- Hkn. intros y Hy. rewrite !Hkey1 by eauto. auto. }
  rewrite Hstrat1 in Hrep2.
  assert (Hpl : place_pre s1 l na strat ++ new :: place_post s1 l na strat =
    spec_insert (key_at strat (store s)) new l).
  { unfold spec_insert, place_pre, place_post.
    assert (Hgb : ∀ y, y ∈ l → goes_before s1 na strat y =
      lexlt (key_at strat (store s) y) (key_at strat (store s) new)).
    { intros y Hy. unfold goes_before. rewrite <- Hkn, !Hkey1 by eauto. done. }
    by rewrite (take_while_ext _ _ _ Hgb), (drop_while_ext _ _ _ Hgb). }
  rewrite Hpl in Hrep2.
  pose proof (frame_trans _ _ _ _ _ _ _ _ _ _ HF1 HF2) as HF. rewrite <- Hmem in HF.
  exists s2, (S1 ++ mkSeg g sal (spec_insert (key_at strat (store s)) new l) :: S2), ((g :: (g_addr <$> segs)) ++ [g]).
  assert (Hg : g ∈ g_addr <$> segs ∨ groups (store s) !! g = None).
  { destruct Hsegs as [->|(-> & -> & ?)]; [left|by right]. rewrite fmap_app. simpl. set_solver. }
  split_and!.
  - unfold place_on_agenda. by mrun Hrun1.
  - split; [done| |].
    + unfold nonempty. rewrite Forall_app, Forall_cons. split_and!; [done| |done].
      simpl. intros Hnil. pose proof (spec_insert_perm (key_at strat (store s)) new l) as HP.
      rewrite Hnil in HP. by apply Permutation_nil_cons in HP.
    + assert (Hold : ∀ sg, sg ∈ segs → seg_sorted strat (store s2) sg).
      { intros sg Hsg. rewrite Forall_forall in Hs. eapply seg_sorted_frame; [exact HF| |by apply Hs].
        intros x Hx. split; [set_solver|]. apply Hlive. apply elem_of_members. eauto. }
      rewrite Forall_app, Forall_cons, !Forall_forall. split_and!; [by eauto| |by eauto].
      unfold seg_sorted, before. simpl.
      assert (Hk2 : ∀ x, x = new ∨ x ∈ l → key_at strat (store s2) x = key_at strat (store s) x).
      { intros x Hx. eapply key_at_frame; [exact HF|set_solver|].
        destruct Hx as [->|Hx]; [by eexists|eauto]. }
      assert (Hsorted : StronglySorted (fun x y => lexlt (key_at strat (store s) x) (key_at strat (store s) y))
        (spec_insert (key_at strat (store s)) new l)).
      { apply sorted_insert; [|auto].
        destruct Hsegs as [->|(-> & -> & _)]; [|constructor].
        rewrite Forall_app, Forall_cons in Hs. apply Hs. }
      assert (Hall : ∀ x, x ∈ spec_insert (key_at strat (store s)) new l → x = new ∨ x ∈ l).
      { intros x. rewrite spec_insert_perm. set_solver. }
      clear -Hsorted Hall Hk2. induction Hsorted as [|x l' Hs' IH HFa]; constructor; [apply IH; set_solver|].
      rewrite Forall_forall in *. intros y Hy. rewrite !Hk2 by (apply Hall; set_solver). auto.
  - destruct Hsegs as [->|(-> & -> & _)].
    + symmetry. apply spec_place_reuse. by eapply split_saliences.
    + destruct (split_saliences _ _ _ _ _ _ _ Hrep1). symmetry. by apply spec_place_new.
  - eapply frame_weaken; [exact HF|set_solver..].
  - intros x [[->|Hx]%elem_of_cons|Hx]%elem_of_app; [done|by left|].
    apply list_elem_of_singleton in Hx as ->. done.
  - intros x. rewrite fmap_app. simpl. intros [Hx|[->|Hx]%elem_of_cons]%elem_of_app; [|done|];
      left; apply list_elem_of_fmap in Hx as (sg & -> & Hsg); apply list_elem_of_fmap; eauto.
  - rewrite Hs2 at 1. rewrite Hs1. done.
Qed.
End place.

(** * The list of salience groups

    [groups_rep]: the groups of a module form one doubly linked list whose
    records describe the segments.  Removing the last activation of a group
    unlinks and frees the group, any other removal only moves its end points. *)

(** [gs] represents the groups of [segs]. *)
Definition group_ok (gs : gmap ptr SalienceGroup) (sg : Seg) : Prop :=
  ∃ gr, gs !! g_addr sg = Some gr ∧ sg_salience gr = g_sal sg ∧
    sg_first gr = hd_or (g_mem sg) None ∧ sg_last gr = last_or None (g_mem sg).
Definition groups_rep (gs : gmap ptr SalienceGroup) (segs : list Seg) : Prop :=
  dll gs (g_addr <$> segs) ∧ ∀ sg, sg ∈ segs → group_ok gs sg.

Lemma agenda_rep_groups {E} (st : Store E) m segs : agenda_rep st m segs → groups_rep (groups st) segs.
Proof.
  intros [_ Hg _ Hs _]. split; [done|]. rewrite Forall_forall in Hs. intros sg Hsg. by apply Hs.
Qed.

(** The parts of [agenda_rep], put together. *)
Lemma agenda_rep_intro {E} (st : Store E) m segs md :
  modules st !! m = Some md → groupings md = hd_or (g_addr <$> segs) None →
  agenda md = hd_or (members segs) None → groups_rep (groups st) segs →
  dll (acts st) (members segs) → (∀ sg x, sg ∈ segs → x ∈ g_mem sg → act_in st m (g_sal sg) x) →
  StronglySorted Z.gt (g_sal <$> segs) → agenda_rep st m segs.
Proof.
  intros Hmd Hg Ha [Hgs Hok] Hd Hin Hs. split; [by exists md|done|done| |done].
  apply Forall_forall. intros sg Hsg. split; [by apply Hok|]. intros x. by apply Hin.
Qed.

Section group_list.
Implicit Types (gs : gmap ptr SalienceGroup).

Lemma groups_rep_notin gs S1 g sal l S2 :
  groups_rep gs (S1 ++ mkSeg g sal l :: S2) → ∀ sg, sg ∈ S1 ∨ sg ∈ S2 → g_addr sg ≠ g.
Proof.
  intros [[Hnd _] _] sg Hsg Heq. rewrite fmap_app in Hnd. simpl in Hnd.
  apply NoDup_app in Hnd as (_ & Hd1 & [Hd2 _]%NoDup_cons).
  destruct Hsg as [Hsg|Hsg].
  - apply (Hd1 g); [|set_solver]. apply list_elem_of_fmap. eauto.
  - apply Hd2. apply list_elem_of_fmap. eauto.
Qed.

(** New end points for a group. *)
Lemma groups_rep_insert gs S1 g sal l l' S2 gr :
  groups_rep gs (S1 ++ mkSeg g sal l :: S2) → gs !! g = Some gr →
  groups_rep (<[g := mkSalienceGroup sal (hd_or l' None) (last_or None l') (sg_next gr) (sg_prev gr)]> gs)
  (S1 ++ mkSeg g sal l' :: S2).
Proof.
  intros Hrep Hgr. pose proof (groups_rep_notin _ _ _ _ _ _ Hrep) as Hne.
  destruct Hrep as [Hd Hok]. split.
  - assert (Haddr : g_addr <$> S1 ++ mkSeg g sal l' :: S2 = g_addr <$> S1 ++ mkSeg g sal l :: S2)
      by by rewrite !fmap_app.
    rewrite Haddr. by eapply dll_insert_links.
  - assert (Hother : ∀ sg, sg ∈ S1 ∨ sg ∈ S2 → group_ok (<[g := mkSalienceGroup sal (hd_or l' None)
      (last_or None l') (sg_next gr) (sg_prev gr)]> gs) sg).
    { intros sg Hsg. unfold group_ok. rewrite lookup_insert_ne.
      - apply Hok. set_solver.
      - intros Heq. by apply (Hne sg). }
    intros sg [Hsg|[->|Hsg]%elem_of_cons]%elem_of_app; [by auto| |by auto].
    eexists. simpl. by rewrite lookup_insert_eq.
Qed.

(** Unlinking and freeing a group. *)
Definition groups_unlinked gs S1 g S2 : gmap ptr SalienceGroup :=
  delete g (upd_opt (set_prv (last_or None (g_addr <$> S1))) (hd_or (g_addr <$> S2) None)
  (upd_opt (set_nxt (hd_or (g_addr <$> S2) None)) (last_or None (g_addr <$> S1)) gs)).

Lemma groups_rep_unlink gs S1 g sal l S2 :
  groups_rep gs (S1 ++ mkSeg g sal l :: S2) → groups_rep (groups_unlinked gs S1 g S2) (S1 ++ S2).
Proof.
  intros Hrep. pose proof (groups_rep_notin _ _ _ _ _ _ Hrep) as Hne.
  destruct Hrep as [Hd Hok]. rewrite fmap_app in Hd. simpl in Hd.
  assert (Hk : ∀ y, y ∈ g_addr <$> S1 ++ S2 → g ≠ y).
  { intros y (sg & -> & Hsg)%list_elem_of_fmap. intros Heq. apply (Hne sg); [set_solver|done]. }
  split.
  - eapply dll_ext; [|rewrite fmap_app; apply dll_unlink with g; exact Hd].
    intros y Hy. unfold groups_unlinked. rewrite lookup_delete_ne; [done|by apply Hk].
  - intros sg Hsg. destruct (Hok sg) as (gr & Hgr & Hrest); [set_solver|].
    assert (Hpay : payload <$> groups_unlinked gs S1 g S2 !! g_addr sg = payload <$> gs !! g_addr sg).
    { unfold groups_unlinked. rewrite lookup_delete_ne.
      - by rewrite payload_upd_prv, payload_upd_nxt.
      - apply Hk. apply list_elem_of_fmap. eauto. }
    rewrite Hgr in Hpay. unfold group_ok.
    destruct (groups_unlinked gs S1 g S2 !! g_addr sg) as [gr'|]; [|done].
    exists gr'. simpl in Hpay. simplify_eq. naive_solver congruence.
Qed.

Lemma groups_unlinked_notin gs S1 g sal l S2 y :
  y ∉ g_addr <$> S1 ++ mkSeg g sal l :: S2 → groups_unlinked gs S1 g S2 !! y = gs !! y.
Proof.
  rewrite fmap_app. simpl. intros Hy. unfold groups_unlinked.
  rewrite lookup_delete_ne, !upd_opt_lookup_notin; [done|..].
  - intros Hl%last_or_elem. set_solver.
  - intros Hl%hd_or_elem. set_solver.
  - set_solver.
Qed.
End group_list.

(** The segments left when the activations of a group become [l]. *)
Definition seg_keep (S1 : list Seg) (g : ptr) (sal : Z) (l : list ptr) (S2 : list Seg) : list Seg :=
  match l with [] => S1 ++ S2 | _ => S1 ++ mkSeg g sal l :: S2 end.

Lemma members_keep S1 g sal l S2 : members (seg_keep S1 g sal l S2) = members S1 ++ l ++ members S2.
Proof. unfold seg_keep. destruct l; [by rewrite members_app|by rewrite members_mid]. Qed.

Section find_group.
Context {H E : Type}.
Implicit Types (s : Environment H E).

Lemma find_group_loop_spec fuel s m sal S0 S1 g l S2 :
  agenda_rep (store s) m (S0 ++ S1 ++ mkSeg g sal l :: S2) → length (S1 ++ mkSeg g sal l :: S2) ≤ fuel →
  find_group_loop fuel sal (hd_or (g_addr <$> S1 ++ mkSeg g sal l :: S2) None) s = Some (Some g, s).
Proof.
  revert S0 S1. induction fuel as [|fuel IH]; intros S0 S1 Hrep Hf.
  { rewrite length_app in Hf. simpl in Hf. lia. }
  pose proof (rep_desc _ _ _ Hrep) as Hd. rewrite fmap_app in Hd.
  apply StronglySorted_app_inv in Hd as (_ & Hd & _).
  destruct S1 as [|sg S1]; simpl.
  - destruct (rep_group_at _ _ _ _ _ Hrep) as (gr & Hgr & Hsal & _). simpl in *.
    mrun (load_group_Some s _ _ Hgr). rewrite Hsal, Z.eqb_refl. done.
  - simpl in Hrep. destruct (rep_group_at _ _ _ _ _ Hrep) as (gr & Hgr & Hsal & Hn & _).
    mrun (load_group_Some s _ _ Hgr). rewrite Hsal, Hn.
    simpl in Hd. apply StronglySorted_inv in Hd as [_ Hd]. rewrite Forall_forall in Hd.
    assert (g_sal sg > sal)%Z by (apply Hd; rewrite fmap_app; simpl; set_solver).
    zcases; try lia. apply (IH (S0 ++ [sg]) S1).
    + by rewrite <- app_assoc.
    + simpl in Hf. lia.
Qed.

Lemma FindSalienceGroup_spec s m S1 g sal l S2 :
  agenda_rep (store s) m (S1 ++ mkSeg g sal l :: S2) →
  FindSalienceGroup m sal s = Some (Some g, s).
Proof.
  intros Hrep. destruct (rep_module _ _ _ Hrep) as (md & Hmd & Hg & _).
  unfold FindSalienceGroup. mrun (load_module_Some s _ _ Hmd). mrun (group_fuel_Some s).
  rewrite Hg. apply (find_group_loop_spec _ s m sal [] S1 g l S2); [done|].
  pose proof (rep_groups_size _ _ _ Hrep). lia.
Qed.
End find_group.
