(* ===== verification/SystemInv.v ===== *)
(** * The invariant of all agendas

    [system_inv s AG]: every module [AG] lists has a well-formed agenda, no two
    modules share a salience group, and every activation is older than the
    next timetag.  An operation on one module's agenda keeps the others. *)
From S2P Require Import Prelude DList Values AgendaState Strategy StrategyProofs AgendaRep PlaceProofs.
From S2P Require Import Focus Agenda AgendaProofs.
From Stdlib Require Import Sorting.Sorted.

Section inv.
Context {H E : Type}.
Implicit Types (s : Environment H E) (st : Store E).

(** No two activations of the list have the same timetag. *)
Definition tags_inj st (l : list ptr) : Prop :=
  ∀ x y a b, x ∈ l → y ∈ l → acts st !! x = Some a → acts st !! y = Some b →
  timetag a = timetag b → x = y.

Definition strategy_of s : StrategyType := Strategy (agendaData s).

(** The invariant with the strategy each module's agenda is sorted by, which
    differs between modules only while [SetStrategy] is reordering them. *)
Record inv_with (strat : ptr → StrategyType) s (AG : gmap ptr (list Seg)) : Prop := {
  si_wf m segs : AG !! m = Some segs → wf_agenda (strat m) (store s) m segs;
  si_groups m1 m2 segs1 segs2 x : AG !! m1 = Some segs1 → AG !! m2 = Some segs2 → m1 ≠ m2 →
  x ∈ g_addr <$> segs1 → x ∉ g_addr <$> segs2;
  si_tags m segs x a : AG !! m = Some segs → x ∈ members segs →
  acts (store s) !! x = Some a → (timetag a < CurrentTimetag (agendaData s))%Z;
  si_tags_inj m segs : AG !! m = Some segs → tags_inj (store s) (members segs);
}.
Definition system_inv s AG : Prop := inv_with (fun _ => strategy_of s) s AG.

Lemma rep_member_module st m segs x :
  agenda_rep st m segs → x ∈ members segs →
  ∃ a r, acts st !! x = Some a ∧ rules st !! theRule a = Some r ∧ whichModule r = m.
Proof.
  intros Hrep (sg & Hsg & Hx)%elem_of_members.
  destruct (rep_act_in _ _ _ _ _ Hrep Hsg Hx) as (a & r & ? & _ & ? & ? & _). eauto.
Qed.

(** The agendas of two modules share no activation: an activation belongs to
    the module of its rule. *)
Lemma rep_members_disjoint st m1 m2 segs1 segs2 x :
  agenda_rep st m1 segs1 → agenda_rep st m2 segs2 → m1 ≠ m2 →
  x ∈ members segs1 → x ∉ members segs2.
Proof.
  intros H1 H2 Hne Hx1 Hx2.
  destruct (rep_member_module _ _ _ _ H1 Hx1) as (a & r & Ha & Hr & Hm).
  destruct (rep_member_module _ _ _ _ H2 Hx2) as (a' & r' & Ha' & Hr' & Hm').
  congruence.
Qed.

Lemma rep_group_live st m segs x :
  agenda_rep st m segs → x ∈ g_addr <$> segs → is_Some (groups st !! x).
Proof. intros Hrep Hx. by eapply dll_lookup; [apply Hrep|]. Qed.

Lemma wf_agenda_frame strat m X G D st st' k segs :
  frame m X G D st st' → modules st' !! k = modules st !! k → wf_agenda strat st k segs →
  (∀ x, x ∈ members segs → x ∉ X ∧ x ∉ D) → (∀ x, x ∈ g_addr <$> segs → x ∉ G) →
  wf_agenda strat st' k segs.
Proof.
  intros HF Hk [Hrep Hne Hs] HX HG. split; [by eapply agenda_rep_frame|done|].
  rewrite Forall_forall in *. intros sg Hsg.
  eapply seg_sorted_frame; [exact HF| |by apply Hs].
  intros x Hx. assert (x ∈ members segs) by (apply elem_of_members; eauto).
  split; [by apply HX|]. by eapply rep_live.
Qed.

Lemma tags_inj_frame m X G D st st' l l' :
  frame m X G D st st' → tags_inj st l → (∀ x, x ∈ l' → x ∈ l ∧ x ∉ D ∧ is_Some (acts st !! x)) →
  tags_inj st' l'.
Proof.
  intros HF Hinj Hl x y a b Hx Hy Ha Hb.
  destruct (Hl x Hx) as (Hx1 & Hx2 & [a0 Ha0]), (Hl y Hy) as (Hy1 & Hy2 & [b0 Hb0]).
  destruct (frame_payloads _ _ _ _ _ _ HF x a0 Hx2 Ha0) as (a1 & Ha1 & Hp).
  destruct (frame_payloads _ _ _ _ _ _ HF y b0 Hy2 Hb0) as (b1 & Hb1 & Hq).
  rewrite Ha in Ha1. rewrite Hb in Hb1. injection Ha1 as <-. injection Hb1 as <-.
  simpl in Hp, Hq. injection Hp as _ _ _ -> _. injection Hq as _ _ _ -> _.
  by apply (Hinj x y a0 b0).
Qed.

Lemma tags_inj_cons st l l' new na :
  tags_inj st l → acts st !! new = Some na → (∀ x, x ∈ l' → x = new ∨ x ∈ l) →
  (∀ y a, y ∈ l → acts st !! y = Some a → (timetag a < timetag na)%Z) → tags_inj st l'.
Proof.
  intros Hinj Hna Hl Hlt x y a b Hx%Hl Hy%Hl Ha Hb Heq.
  destruct Hx as [->|Hx], Hy as [->|Hy]; [done|..|by eapply Hinj].
  - rewrite Hna in Ha. injection Ha as <-. specialize (Hlt _ _ Hy Hb). lia.
  - rewrite Hna in Hb. injection Hb as <-. specialize (Hlt _ _ Hx Ha). lia.
Qed.

(** An operation on module [m] that keeps its own agenda well formed and
    touches nothing of the others keeps the invariant. *)
Lemma inv_step strat strat' s s' AG m segs segs' X G D :
  inv_with strat s AG → AG !! m = Some segs →
  frame m X G D (store s) (store s') → own_or_new (store s) segs G →
  (∀ x k ks, k ≠ m → AG !! k = Some ks → x ∈ members ks → x ∉ X ∧ x ∉ D) →
  wf_agenda (strat' m) (store s') m segs' → (∀ k, k ≠ m → strat' k = strat k) →
  (∀ x, x ∈ g_addr <$> segs' → x ∈ g_addr <$> segs ∨ groups (store s) !! x = None) →
  (CurrentTimetag (agendaData s) <= CurrentTimetag (agendaData s'))%Z →
  (∀ x a, x ∈ members segs' → acts (store s') !! x = Some a →
  (timetag a < CurrentTimetag (agendaData s'))%Z) →
  tags_inj (store s') (members segs') →
  inv_with strat' s' (<[m := segs']> AG).
Proof.
  intros Hinv Hm HF HG HX Hwf Hstrat Haddr Htag Hnew Hinj.
  assert (Hother : ∀ k ks, k ≠ m → AG !! k = Some ks →
    (∀ x, x ∈ g_addr <$> ks → x ∉ g_addr <$> segs ∧ is_Some (groups (store s) !! x))).
  { intros k ks Hk Hks x Hx. split.
    - intros Hx'. by eapply (si_groups _ _ _ Hinv k m).
    - eapply rep_group_live; [apply (si_wf _ _ _ Hinv k ks Hks)|done]. }
  split.
  - intros k ks. rewrite lookup_insert. case_decide as Hkm; [by intros [= <-]; subst|].
    intros Hks. rewrite Hstrat by done. eapply wf_agenda_frame; [exact HF|..].
    + by apply (frame_modules _ _ _ _ _ _ HF).
    + by apply (si_wf _ _ _ Hinv).
    + intros x Hx. by eapply HX.
    + intros x Hx HxG. destruct (Hother k ks) with (x := x) as [Hn [y Hy]]; [done..|].
      destruct (HG x HxG) as [?|?]; [done|congruence].
  - intros k1 k2 ks1 ks2 x. rewrite !lookup_insert. case_decide; case_decide; subst; try done.
    + intros [= <-] Hk2 Hne Hx Hx2. destruct (Hother k2 ks2) with (x := x) as [Hn [y Hy]]; [done..|].
      destruct (Haddr x Hx); [done|congruence].
    + intros Hk1 [= <-] Hne Hx Hx2. destruct (Hother k1 ks1) with (x := x) as [Hn [y Hy]]; [done..|].
      destruct (Haddr x Hx2); [done|congruence].
    + intros. by eapply (si_groups _ _ _ Hinv k1 k2).
  - intros k ks x a. rewrite lookup_insert. case_decide as Hkm; [intros [= <-]; by apply Hnew|].
    intros Hks Hx Ha. destruct (HX x k ks ltac:(done) Hks Hx) as [HnX HnD].
    rewrite (frame_acts _ _ _ _ _ _ HF) in Ha by done.
    pose proof (si_tags _ _ _ Hinv k ks x a Hks Hx Ha). lia.
  - intros k ks. rewrite lookup_insert. case_decide as Hkm; [by intros [= <-]|]. intros Hks.
    eapply tags_inj_frame; [exact HF|by apply (si_tags_inj _ _ _ Hinv k)|].
    intros x Hx. split; [done|]. split; [by eapply HX|].
    eapply rep_live; [apply (si_wf _ _ _ Hinv k ks Hks)|done].
Qed.

Lemma system_step s s' AG m segs segs' X G D :
  system_inv s AG → AG !! m = Some segs →
  frame m X G D (store s) (store s') → own_or_new (store s) segs G →
  (∀ x k ks, k ≠ m → AG !! k = Some ks → x ∈ members ks → x ∉ X ∧ x ∉ D) →
  wf_agenda (strategy_of s') (store s') m segs' → strategy_of s' = strategy_of s →
  (∀ x, x ∈ g_addr <$> segs' → x ∈ g_addr <$> segs ∨ groups (store s) !! x = None) →
  (CurrentTimetag (agendaData s) <= CurrentTimetag (agendaData s'))%Z →
  (∀ x a, x ∈ members segs' → acts (store s') !! x = Some a →
  (timetag a < CurrentTimetag (agendaData s'))%Z) →
  tags_inj (store s') (members segs') →
  system_inv s' (<[m := segs']> AG).
Proof. intros Hinv Hm HF HG HX Hwf Hstrat. eapply inv_step; try done. Qed.
End inv.
Arguments si_wf {H E strat}. Arguments si_groups {H E strat}. Arguments si_tags {H E strat}.
Arguments si_tags_inj {H E strat}.
