(* ===== verification/AddProofs.v ===== *)
(** * AddActivation

    The whole of [AddActivation]: focus, timetag, salience, random number,
    allocation, marker, watch output and placement, from the invariant of all
    agendas to the same invariant with the new activation in its place.

    Then the focus stack. *)
From S2P Require Import Prelude Values Router DList AgendaState Strategy StrategyProofs AgendaRep.
From S2P Require Import PlaceProofs Focus Agenda AgendaProofs SystemInv.
(** ** Code that only prints *)

Section prints.
Context {H E : Type}.
Implicit Types (s : Environment H E).

Definition prints (m : MA H E unit) s : Prop :=
  ∀ o0, ∃ o, m (with_output (fun _ => o0) s) = Some (tt, with_output (fun _ => o) s).

Lemma prints_ret s : prints (mret tt) s.
Proof. intros o0. by exists o0. Qed.
Lemma prints_modify f s : prints (modify (with_output f)) s.
Proof. intros o0. by exists (f o0). Qed.
Lemma prints_write l t s : prints (WriteString l t) s.
Proof. apply prints_modify. Qed.
Lemma prints_bind (m k : MA H E unit) s : prints m s → prints k s → prints (m ≫= fun _ => k) s.
Proof.
  intros Hm Hk o0. destruct (Hm o0) as [o1 H1]. destruct (Hk o1) as [o H2]. exists o.
  by mrun H1.
Qed.
Lemma prints_load_act p a k s :
  acts (store s) !! p = Some a → prints (k a) s → prints (load_act p ≫= k) s.
Proof. intros Ha Hk o0. erewrite M_bind_Some; [|by apply load_act_Some]. apply Hk. Qed.
Lemma prints_load_rule p r k s :
  rules (store s) !! p = Some r → prints (k r) s → prints (load_rule p ≫= k) s.
Proof. intros Ha Hk o0. erewrite M_bind_Some; [|by apply load_rule_Some]. apply Hk. Qed.
Lemma prints_load_module p r k s :
  modules (store s) !! p = Some r → prints (k r) s → prints (load_module p ≫= k) s.
Proof. intros Ha Hk o0. erewrite M_bind_Some; [|by apply load_module_Some]. apply Hk. Qed.
Lemma prints_gets_flags k s : prints (k (flags s)) s → prints (gets flags ≫= k) s.
Proof. intros Hk o0. apply Hk. Qed.
Lemma prints_when b m s : (b = true → prints m s) → prints (whenM b m) s.
Proof. destruct b; simpl; intros Hb; [by apply Hb|apply prints_ret]. Qed.
Lemma prints_then {A} m (k : unit → MA H E A) s :
  prints m s → ∃ o, (m ≫= k) s = k tt (with_output (fun _ => o) s).
Proof. intros Hm. destruct (Hm (output s)) as [o Ho]. exists o.
  rewrite <- (M_bind_Some _ k _ _ _ Ho). by destruct s. Qed.
Lemma prints_run m s : prints m s → ∃ o, m s = Some (tt, with_output (fun _ => o) s).
Proof. intros Hm. destruct (Hm (output s)) as [o Ho]. exists o. by destruct s. Qed.
End prints.
Create HintDb prints.
#[export] Hint Resolve prints_ret prints_modify prints_write prints_bind prints_load_act
  prints_load_rule prints_load_module prints_gets_flags prints_when : prints.
Ltac prints := repeat lazymatch goal with
  | |- prints (mret tt) _ => apply prints_ret
  | |- prints (WriteString _ _) _ => apply prints_write
  | |- prints (whenM _ _) _ => apply prints_when; intros _
  | |- prints (gets flags ≫= _) _ => apply prints_gets_flags
  | |- prints (load_act _ ≫= _) _ => eapply prints_load_act; [eassumption|]
  | |- prints (load_rule _ ≫= _) _ => eapply prints_load_rule; [eassumption|]
  | |- prints (load_module _ ≫= _) _ => eapply prints_load_module; [eassumption|]
  | |- prints (_ ≫= fun _ => _) _ => apply prints_bind
  | |- prints _ _ => apply prints_modify
  end.

(** Run the printing code in front. *)
Ltac mprint lem :=
  match goal with |- context [(?m ≫= ?k) ?s] =>
    destruct (prints_then m k s) as [? ->]; [apply lem|] end; cbn beta.

Section helpers.
Context {H E : Type} `{!Host H E}.
Implicit Types (s : Environment H E).

Lemma PrintErrorID_prints m i b s : prints (PrintErrorID m i b) s.
Proof. unfold PrintErrorID. prints. Qed.
Lemma SalienceInformationError_prints c n s : prints (SalienceInformationError c n) s.
Proof. unfold SalienceInformationError. apply prints_bind; [apply PrintErrorID_prints|prints]. Qed.
Lemma SalienceRangeError_prints a b s : prints (SalienceRangeError a b) s.
Proof. unfold SalienceRangeError. apply prints_bind; [apply PrintErrorID_prints|prints]. Qed.
Lemma SalienceNonIntegerError_prints s : prints SalienceNonIntegerError s.
Proof. apply prints_bind; [apply PrintErrorID_prints|prints]. Qed.

Lemma watch_activation_prints prefix p a r s :
  acts (store s) !! p = Some a → rules (store s) !! theRule a = Some r →
  prints (watch_activation prefix p) s.
Proof.
  intros Ha Hr. unfold watch_activation, PrintActivation. prints.
Qed.

(** What leaves the store, the agenda data and the modules as they are. *)
Record same_agenda s s' : Prop := {
  sa_store : store s' = store s;
  sa_data : agendaData s' = agendaData s;
}.

Definition focus_ok s : Prop :=
  ∀ f, f ∈ CurrentFocus (engineData s) → is_Some (modules (store s) !! f).

Lemma write_top_prints sep stack s :
  (∀ f, f ∈ stack → is_Some (modules (store s) !! f)) → prints (write_top sep stack) s.
Proof.
  intros Hs. destruct stack as [|f stack]; simpl; [prints|].
  destruct (Hs f) as [md Hmd]; [set_solver|]. prints.
Qed.

(** [Focus] makes the module current and pushes it unless it is on top. *)
Lemma Focus_spec s m :
  focus_ok s → is_Some (modules (store s) !! m) →
  ∃ s', Focus (Some m) s = Some (tt, s') ∧ same_agenda s s' ∧ host s' = host s ∧ flags s' = flags s ∧
  CurrentModule (defmoduleData s') = Some m ∧
  CurrentFocus (engineData s') = (if decide (head (CurrentFocus (engineData s)) = Some m)
    then CurrentFocus (engineData s) else m :: CurrentFocus (engineData s)).
Proof.
  intros Hf [md Hmd]. unfold Focus.
  set (s1 := if CallModuleChangeFunctions (defmoduleData s) then
    with_defmoduleData (set_ModuleChangeIndex (ModuleChangeIndex (defmoduleData s) + 1)%Z)
    (with_defmoduleData (set_CurrentModule (Some m)) s)
    else with_defmoduleData (set_CurrentModule (Some m)) s).
  assert (H1 : SetCurrentModule (Some m) s = Some (CurrentModule (defmoduleData s), s1)).
  { unfold SetCurrentModule, s1. erewrite M_bind_Some by reflexivity. cbn beta zeta.
    erewrite M_bind_Some by reflexivity. cbn beta. unfold whenM.
    destruct (CallModuleChangeFunctions (defmoduleData s)); reflexivity. }
  mrun H1. assert (Hs1 : store s1 = store s ∧ agendaData s1 = agendaData s ∧ host s1 = host s ∧
    flags s1 = flags s ∧ engineData s1 = engineData s ∧ CurrentModule (defmoduleData s1) = Some m).
  { unfold s1. destruct (CallModuleChangeFunctions (defmoduleData s)); split_and!; done. }
  destruct Hs1 as (Hst & Hag & Hh & Hfl & He & Hc). clearbody s1.
  erewrite M_bind_Some by reflexivity. cbn beta. rewrite He.
  case_decide; [exists s1; split_and!; first [done|by split|by rewrite He]|].
  erewrite M_bind_Some by reflexivity. cbn beta.
  match goal with |- context [whenM ?b ?m] =>
    destruct (prints_run (whenM b m) s1) as [o Ho] end.
  { rewrite <- Hst in Hmd. prints. apply write_top_prints. intros f. rewrite Hst. apply Hf. }
  erewrite M_bind_Some by exact Ho. cbn beta.
  eexists. split; [reflexivity|]. split_and!; first [done|by split|by rewrite He].
Qed.

(** [EvaluateSalience] always returns: the rule's salience, refreshed when
    the expression gives an integer in range, the old one otherwise. *)
Lemma EvaluateSalience_spec s R r :
  rules (store s) !! R = Some r →
  ∃ z s' r', EvaluateSalience R s = Some (z, s') ∧
  agendaData s' = agendaData s ∧ engineData s' = engineData s ∧
  defmoduleData s' = defmoduleData s ∧
  store s' = with_rules <[R := r']> (store s) ∧ (r' = set_salience z r) ∧
  (z = salience r ∨ MIN_DEFRULE_SALIENCE <= z <= MAX_DEFRULE_SALIENCE)%Z.
Proof.
  intros Hr. unfold EvaluateSalience, GetSalienceEvaluation.
  assert (Hid : set_salience (salience r) r = r) by by destruct r.
  assert (Hsame : ∀ s', store s' = store s →
    store s' = with_rules <[R := set_salience (salience r) r]> (store s)).
  { intros s' ->. rewrite Hid. unfold with_rules. rewrite insert_id by done. by destruct (store s). }
  mrun (load_rule_Some s _ _ Hr). erewrite M_bind_Some by reflexivity. cbn beta.
  case_decide.
  { exists (salience r), s, (set_salience (salience r) r). split_and!; auto. }
  destruct (dynamicSalience r) as [e|].
  2:{ exists (salience r), s, (set_salience (salience r) r). split_and!; auto. }
  mrun (SetEvaluationError_Some false s). erewrite M_bind_Some by reflexivity. cbn beta.
  destruct (EvaluateSalienceExpression e _) as [[error v] h'] eqn:Hev.
  erewrite M_bind_Some by reflexivity. cbn beta.
  erewrite M_bind_Some by apply SetEvaluationError_Some. cbn beta.
  match goal with |- context [(if error then put_HaltExecution true ?x else ?y)] =>
    set (s1 := if error then put_HaltExecution true x else y) end.
  assert (Hs1 : store s1 = store s ∧ agendaData s1 = agendaData s ∧
    engineData s1 = engineData s ∧ defmoduleData s1 = defmoduleData s) by by destruct error.
  clearbody s1. destruct Hs1 as (Hst & Hag & He & Hd).
  destruct error.
  { mprint SalienceInformationError_prints.
    eexists (salience r), _, _. split; [reflexivity|]. split_and!; auto. }
  assert (Hbad : ∃ z s' r', (_ ← SalienceNonIntegerError;
    _ ← SalienceInformationError "defrule" (rule_name r);
    _ ← SetEvaluationError true; mret (salience r)) s1 = Some (z, s') ∧
    agendaData s' = agendaData s ∧ engineData s' = engineData s ∧
    defmoduleData s' = defmoduleData s ∧
    store s' = with_rules <[R := r']> (store s) ∧ (r' = set_salience z r) ∧
    (z = salience r ∨ MIN_DEFRULE_SALIENCE <= z <= MAX_DEFRULE_SALIENCE)%Z).
  { mprint SalienceNonIntegerError_prints. mprint SalienceInformationError_prints.
    erewrite M_bind_Some by apply SetEvaluationError_Some. cbn beta.
    eexists (salience r), _, _. split; [reflexivity|]. split_and!; auto. }
  destruct (uv_value v) as [|z| | | | | | | |]; try exact Hbad. clear Hbad.
  destruct ((z >? MAX_DEFRULE_SALIENCE)%Z || (z <? MIN_DEFRULE_SALIENCE)%Z) eqn:Hrange.
  - mprint SalienceRangeError_prints.
    erewrite M_bind_Some by apply SetEvaluationError_Some. cbn beta.
    mprint SalienceInformationError_prints.
    eexists (salience r), _, _. split; [reflexivity|]. split_and!; auto.
  - rewrite <- Hst in Hr. erewrite M_bind_Some by (eapply update_rule_Some; exact Hr). cbn beta.
    eexists z, _, _. split; [reflexivity|]. split_and!; [done..| |reflexivity|right; lia].
    simpl. unfold with_rules. by rewrite (alter_as_insert _ _ _ _ Hr), Hst.
Qed.
End helpers.

(** ** The new activation *)

Section create.
Context {H E : Type} `{!Host H E}.
Implicit Types (s : Environment H E) (r : Defrule E).

Lemma alloc_act_Some a s :
  alloc_act a s = Some (fresh_ptr (acts (store s)),
  with_store (with_acts <[fresh_ptr (acts (store s)) := a]>) s).
Proof. done. Qed.
Lemma genrand_Some s : genrand s = Some ((rand (host s)).1, with_host (fun _ => (rand (host s)).2) s).
Proof. unfold genrand, mbind, M_bind, gets. by destruct (rand (host s)). Qed.

(** [sal] is what [EvaluateSalience] returns for the rule [R], with the objects
    and the evaluation mode of [s]. *)
Definition salience_evaluated (R : ptr) s (sal : Z) : Prop :=
  ∃ s0 s1, EvaluateSalience R s0 = Some (sal, s1) ∧ store s0 = store s ∧
  SalienceEvaluation (agendaData s0) = SalienceEvaluation (agendaData s).

(** The state after [create_activation]. *)
Record created (R b : ptr) (r : Defrule E) (pm : PartialMatch) s (sal : Z) (new : ptr) s' : Prop := {
  cr_new : new = fresh_ptr (acts (store s));
  cr_sal : (sal = salience r ∨ MIN_DEFRULE_SALIENCE <= sal <= MAX_DEFRULE_SALIENCE)%Z;
  cr_store : ∃ rnd, store s' =
  with_matches <[b := set_marker (Some new) pm]>
    (with_acts <[new := mkActivation R (Some b) sal (CurrentTimetag (agendaData s)) rnd None None]>
      (with_rules <[R := set_salience sal r]> (store s)));
  cr_data : agendaData s' =
  set_NumberOfActivations (wrap64u (NumberOfActivations (agendaData s) + 1))
    (set_CurrentTimetag (wrap64u (CurrentTimetag (agendaData s) + 1)) (agendaData s));
  cr_focus : CurrentFocus (engineData s') =
  if autoFocus r && negb (bool_decide (head (CurrentFocus (engineData s)) = Some (whichModule r)))
  then whichModule r :: CurrentFocus (engineData s) else CurrentFocus (engineData s);
  cr_evaluated : salience_evaluated R s sal;
}.

Lemma auto_focus_spec s r :
  focus_ok s → is_Some (modules (store s) !! whichModule r) →
  ∃ s', whenM (autoFocus r) (Focus (Some (whichModule r))) s = Some (tt, s') ∧ same_agenda s s' ∧
  CurrentFocus (engineData s') =
  if autoFocus r && negb (bool_decide (head (CurrentFocus (engineData s)) = Some (whichModule r)))
  then whichModule r :: CurrentFocus (engineData s) else CurrentFocus (engineData s).
Proof.
  intros Hf Hm. destruct (autoFocus r).
  - destruct (Focus_spec s (whichModule r) Hf Hm) as (s' & Hrun & Hsame & _ & _ & _ & Hc).
    exists s'. split_and!; [exact Hrun|done|]. rewrite Hc. by repeat case_decide; case_bool_decide.
  - exists s. split_and!; [done|by split|done].
Qed.

Lemma create_activation_spec s R r b pm :
  rules (store s) !! R = Some r → matches (store s) !! b = Some pm →
  focus_ok s → is_Some (modules (store s) !! whichModule r) →
  ∃ sal new s', create_activation R b s = Some ((whichModule r, sal, new), s') ∧
  created R b r pm s sal new s'.
Proof.
  intros Hr Hb Hf Hm. unfold create_activation. mrun (load_rule_Some s _ _ Hr).
  destruct (auto_focus_spec s r Hf Hm) as (s1 & H1 & [Hst1 Hag1] & Hc1). mrun H1.
  erewrite M_bind_Some by reflexivity. cbn beta zeta.
  erewrite M_bind_Some by reflexivity. cbn beta.
  set (s2 := with_agendaData _ s1). assert (Hr2 : rules (store s2) !! R = Some r) by by rewrite <- Hst1 in Hr.
  destruct (EvaluateSalience_spec s2 R r Hr2) as (sal & s3 & r' & H3 & Ha3 & He3 & _ & Hst3 & -> & Hsal).
  mrun H3. mrun (genrand_Some s3). erewrite M_bind_Some by apply alloc_act_Some. cbn beta.
  set (new := fresh_ptr _). erewrite M_bind_Some by reflexivity. cbn beta.
  erewrite M_bind_Some by reflexivity. cbn beta.
  erewrite M_bind_Some.
  2:{ eapply update_match_Some. simpl. rewrite Hst3. simpl. rewrite Hst1. exact Hb. }
  cbn beta. set (s4 := with_store _ _).
  assert (Hw : prints (watch_activation "==> Activation " new) s4).
  { eapply watch_activation_prints; simpl; [apply lookup_insert_eq|]. simpl. rewrite Hst3. apply lookup_insert_eq. }
  destruct (prints_then _ (fun _ => mret (whichModule r, sal, new)) s4 Hw) as [o ->].
  exists sal, new. eexists. split; [reflexivity|].
  assert (Hac : acts (store s3) = acts (store s)) by (rewrite Hst3; simpl; by rewrite Hst1).
  split.
  - unfold new. simpl. by rewrite Hac.
  - done.
  - exists (rand (host s3)).1. unfold s4. simpl. rewrite Hst3. unfold with_matches, with_acts, with_rules. simpl.
    rewrite Hst1, Hag1. f_equal. by rewrite (alter_as_insert _ _ _ _ Hb).
  - simpl. rewrite Ha3. simpl. rewrite Hag1. done.
  - simpl. rewrite He3. simpl. done.
  - exists s2, s3. simpl. by rewrite Hst1, Hag1.
Qed.

(** Creating an activation leaves every agenda alone. *)
Lemma created_frame m R b r pm s sal new s' :
  rules (store s) !! R = Some r → matches (store s) !! b = Some pm →
  created R b r pm s sal new s' → frame m [new] [] [] (store s) (store s').
Proof.
  intros Hr Hb [-> _ (rnd & ->) _ _ _]. split; simpl; try done.
  - intros k. rewrite lookup_insert. case_decide; subst; [by rewrite Hr|done].
  - intros k. rewrite lookup_insert. case_decide; subst; [by rewrite Hb|done].
  - intros k a _ Ha. exists a. split; [|done]. rewrite lookup_insert_ne; [done|].
    intros Heq. pose proof (fresh_ptr_None (acts (store s))). by rewrite Heq, Ha in *.
  - intros x Hx. rewrite lookup_insert_ne; [done|set_solver].
Qed.
End create.

(** ** The whole operation *)

Section add.
Context {H E : Type} `{!Host H E}.
Implicit Types (s : Environment H E) (r : Defrule E).

(** The partial match of a new activation. *)
Definition match_wf (pm : PartialMatch) : Prop :=
  0 < bcount pm ∧
  Forall (fun o => ∀ al e, o = Some al → matchingItem al = Some e → (0 < timeTag e)%Z) (binds pm).

Definition timetag_ok s : Prop := (0 <= CurrentTimetag (agendaData s) < 2 ^ 64 - 1)%Z.

(** The key a new activation has. *)
Definition new_key s' (new : ptr) (old : Environment H E) (x : ptr) : list Z :=
  key_at (strategy_of old) (store s') x.

Lemma created_act_in R b r pm s sal new s' :
  rules (store s) !! R = Some r → matches (store s) !! b = Some pm → match_wf pm →
  created R b r pm s sal new s' → act_in (store s') (whichModule r) sal new.
Proof.
  intros Hr Hb [Hlen HF] [-> _ (rnd & ->) _ _ _]. eexists _, (set_salience sal r). simpl.
  split_and!; [apply lookup_insert_eq|done|apply lookup_insert_eq|by destruct r|].
  split; simpl; [rewrite lookup_insert_eq; by eexists|].
  exists b, (set_marker (Some (fresh_ptr (acts (store s)))) pm). by rewrite lookup_insert_eq.
Qed.

Lemma created_system_inv R b r pm s sal new s' AG :
  rules (store s) !! R = Some r → matches (store s) !! b = Some pm → timetag_ok s →
  created R b r pm s sal new s' → system_inv s AG → system_inv s' AG.
Proof.
  intros Hr Hb Htag Hc Hinv.
  pose proof (λ m, created_frame m _ _ _ _ _ _ _ _ Hr Hb Hc) as HF.
  destruct Hc as [-> _ (rnd & Hst) Hd _ _].
  assert (Hm : modules (store s') = modules (store s)) by by rewrite Hst.
  assert (Hs : strategy_of s' = strategy_of s) by (unfold strategy_of; by rewrite Hd).
  assert (Hnew : ∀ k ks x, AG !! k = Some ks → x ∈ members ks → x ∉ [fresh_ptr (acts (store s))]).
  { intros k ks x Hk Hx Heq%list_elem_of_singleton. destruct (rep_live _ _ _ _ (wa_rep _ _ _ _ (si_wf _ _ Hinv _ _ Hk)) Hx) as [a Ha].
    subst x. by rewrite fresh_ptr_None in Ha. }
  split.
  - intros k ks Hk. rewrite Hs. eapply wf_agenda_frame; [apply (HF k)|by rewrite Hm|by apply (si_wf _ _ Hinv k)|..].
    + intros x Hx. split; [by eapply Hnew|set_solver].
    + set_solver.
  - apply (si_groups _ _ Hinv).
  - intros k ks x a Hk Hx Ha. rewrite (frame_acts _ _ _ _ _ _ (HF k)) in Ha by by eapply Hnew.
    pose proof (si_tags _ _ Hinv _ _ _ _ Hk Hx Ha). rewrite Hd. simpl. unfold wrap64u.
    unfold timetag_ok in Htag. rewrite Z.mod_small; lia.
  - intros k ks Hk. eapply tags_inj_frame; [apply (HF k)|by apply (si_tags_inj _ _ Hinv k)|].
    intros x Hx. split; [done|]. split; [set_solver|].
    by eapply rep_live; [apply (si_wf _ _ Hinv k ks Hk)|].
Qed.

(** What [AddActivation] does to the system. *)
Record added (R b : ptr) r s AG segs segs' (sal : Z) (new : ptr) s' : Prop := {
  ad_inv : system_inv s' (<[whichModule r := segs']> AG);
  ad_abs : abs segs' = spec_place (key_at (strategy_of s) (store s')) sal new (abs segs);
  ad_new : acts (store s) !! new = None;
  ad_act : ∃ a, acts (store s') !! new = Some a ∧ theRule a = R ∧ basis a = Some b ∧
  act_salience a = sal ∧ timetag a = CurrentTimetag (agendaData s);
  ad_sal : (sal = salience r ∨ MIN_DEFRULE_SALIENCE <= sal <= MAX_DEFRULE_SALIENCE)%Z;
  ad_marker : marker <$> matches (store s') !! b = Some (Some new);
  ad_data : agendaData s' = mkAgendaData
  (wrap64u (NumberOfActivations (agendaData s) + 1)) (CurrentTimetag (agendaData s) + 1) true
  (SalienceEvaluation (agendaData s)) (strategy_of s);
  ad_focus : CurrentFocus (engineData s') =
  if autoFocus r && negb (bool_decide (head (CurrentFocus (engineData s)) = Some (whichModule r)))
  then whichModule r :: CurrentFocus (engineData s) else CurrentFocus (engineData s);
  ad_evaluated : salience_evaluated R s sal;
}.

Lemma AddActivation_system s R r b pm AG segs :
  system_inv s AG → rules (store s) !! R = Some r → AG !! whichModule r = Some segs →
  matches (store s) !! b = Some pm → match_wf pm → focus_ok s → timetag_ok s →
  ∃ s' segs' sal new, AddActivation R b s = Some (tt, s') ∧ added R b r s AG segs segs' sal new s'.
Proof.
  intros Hinv Hr Hm Hb Hpm Hf Htag. set (m := whichModule r) in *.
  assert (Hmod : is_Some (modules (store s) !! m)).
  { destruct (rep_module _ _ _ (wa_rep _ _ _ _ (si_wf _ _ Hinv _ _ Hm))) as (md & ? & _). eauto. }
  destruct (create_activation_spec s R r b pm Hr Hb Hf Hmod) as (sal & new & s1 & Hrun1 & Hc).
  pose proof (created_system_inv _ _ _ _ _ _ _ _ _ Hr Hb Htag Hc Hinv) as Hinv1.
  pose proof (created_act_in _ _ _ _ _ _ _ _ Hr Hb Hpm Hc) as Hin.
  pose proof Hc as [Hnew Hsal (rnd & Hst1) Hd1 Hf1 Hev1].
  assert (Hfresh : acts (store s) !! new = None) by (rewrite Hnew; apply fresh_ptr_None).
  set (na := mkActivation R (Some b) sal (CurrentTimetag (agendaData s)) rnd None None) in *.
  assert (Hna : acts (store s1) !! new = Some na) by (rewrite Hst1; apply lookup_insert_eq).
  assert (Hs1 : strategy_of s1 = strategy_of s) by (unfold strategy_of; by rewrite Hd1).
  assert (Hnotin : ∀ k ks, AG !! k = Some ks → new ∉ members ks).
  { intros k ks Hk Hx. destruct (rep_live _ _ _ _ (wa_rep _ _ _ _ (si_wf _ _ Hinv _ _ Hk)) Hx) as [a Ha].
    by rewrite Hfresh in Ha. }
  assert (Htags : ∀ y a, y ∈ members segs → acts (store s1) !! y = Some a →
    (timetag a < CurrentTimetag (agendaData s))%Z).
  { intros y a Hy Ha. rewrite Hst1 in Ha. simpl in Ha. rewrite lookup_insert_ne in Ha.
    - by eapply (si_tags _ _ Hinv m segs).
    - intros <-. by apply (Hnotin m segs). }
  destruct (place_on_agenda_spec s1 m new na sal segs) as (s2 & segs' & G & Hrun2 & Hwf & Habs & HF2 & HG & Hgaddr & Hs2).
  { by apply (si_wf _ _ Hinv1). }
  { exact Hna. }
  { exact Hin. }
  { done. }
  { by apply (Hnotin m). }
  { intros y Hy Heq. destruct (rep_live _ _ _ _ (wa_rep _ _ _ _ (si_wf _ _ Hinv1 _ _ Hm)) Hy) as [a Ha].
    unfold key_at in Heq. rewrite Ha, Hna in Heq. apply strategy_key_timetag in Heq. simpl in Heq.
    specialize (Htags _ _ Hy Ha). lia. }
  assert (Hg1 : groups (store s1) = groups (store s)) by by rewrite Hst1.
  assert (Hpay : ∃ a, acts (store s2) !! new = Some a ∧ payload a = payload na).
  { by apply (frame_payloads _ _ _ _ _ _ HF2); [set_solver|]. }
  destruct Hpay as (a2 & Ha2 & Hp2). simpl in Hp2. injection Hp2 as Hp_rule Hp_basis Hp_sal Hp_tag _.
  assert (Hd2 : agendaData s2 = set_AgendaChanged true (agendaData s1)) by by rewrite Hs2.
  assert (Htags2 : ∀ x a, x ∈ members segs → acts (store s2) !! x = Some a →
    (timetag a < CurrentTimetag (agendaData s))%Z).
  { intros x a Hx Ha.
    destruct (rep_live _ _ _ _ (wa_rep _ _ _ _ (si_wf _ _ Hinv1 _ _ Hm)) Hx) as [a1 Ha1].
    destruct (frame_payloads _ _ _ _ _ _ HF2 x a1) as (a' & Ha' & Hp'); [set_solver|done|].
    rewrite Ha in Ha'. injection Ha' as <-. simpl in Hp'. injection Hp' as _ _ _ Ht _. rewrite Ht.
    by apply (Htags _ _ Hx Ha1). }
  exists s2, segs', sal, new. split; [unfold AddActivation; by mrun Hrun1|]. split.
  - eapply (system_step s1 s2 AG m segs segs' (new :: members segs) G []); try done.
    + intros x k ks Hk Hks Hx. split; [|set_solver].
      intros [->|Hx']%elem_of_cons; [by apply (Hnotin k ks)|]. revert Hx.
      by eapply (rep_members_disjoint _ _ _ _ _ _ (wa_rep _ _ _ _ (si_wf _ _ Hinv1 _ _ Hm)) (wa_rep _ _ _ _ (si_wf _ _ Hinv1 _ _ Hks))).
    + unfold strategy_of. by rewrite Hd2.
    + unfold strategy_of. by rewrite Hd2.
    + rewrite Hd2. done.
    + intros x a Hx Ha. rewrite Hd2. simpl. rewrite Hd1. simpl. unfold wrap64u. unfold timetag_ok in Htag.
      rewrite Z.mod_small by lia.
      rewrite <- firing_order_abs, Habs, spec_place_perm, firing_order_abs in Hx.
      apply elem_of_cons in Hx as [->|Hx].
      { rewrite Ha2 in Ha. simplify_eq. rewrite Hp_tag. lia. }
      specialize (Htags2 _ _ Hx Ha). lia.
    + eapply (tags_inj_cons _ (members segs)); [|exact Ha2| |].
      * eapply tags_inj_frame; [exact HF2|by apply (si_tags_inj _ _ Hinv1 m)|].
        intros x Hx. split; [done|]. split; [set_solver|].
        by eapply rep_live; [apply (si_wf _ _ Hinv1 m segs Hm)|].
      * intros x. rewrite <- firing_order_abs, Habs, spec_place_perm, firing_order_abs. set_solver.
      * rewrite Hp_tag. exact Htags2.
  - rewrite Habs. apply spec_place_ext. rewrite <- Hs1. intros x Hx.
    symmetry. eapply key_at_frame; [exact HF2|set_solver|].
    destruct Hx as [->|Hx]; [by eexists|]. eapply rep_live; [apply (si_wf _ _ Hinv1 _ _ Hm)|].
    rewrite <- firing_order_abs. exact Hx.
  - done.
  - exists a2. split_and!; done.
  - done.
  - assert (matches (store s2) = matches (store s1)) as -> by (rewrite Hs2; done).
    rewrite Hst1. simpl. by rewrite lookup_insert_eq.
  - rewrite Hd2, Hd1. unfold timetag_ok in Htag.
    unfold set_AgendaChanged, set_NumberOfActivations, set_CurrentTimetag. cbn [CurrentTimetag
      NumberOfActivations SalienceEvaluation Strategy AgendaChanged]. f_equal.
    unfold wrap64u. apply Z.mod_small. lia.
  - rewrite Hs2. simpl. rewrite Hf1. done.
  - done.
Qed.
End add.

(** * The focus stack

    [PopFocus] and [RemoveFocus] take a module off the stack and make the new
    top current; [NextActivationToFire] drops the modules on top whose agendas
    are empty and returns the first activation of the first that is not. *)

Section focus_proofs.
Context {H E : Type}.
Implicit Types (s : Environment H E) (st : Store E).

(** What leaves the objects and the agenda settings alone. *)
Lemma SetCurrentModule_run s o :
  ∃ s', SetCurrentModule o s = Some (CurrentModule (defmoduleData s), s') ∧ same_agenda s s' ∧
  engineData s' = engineData s ∧ flags s' = flags s ∧ CurrentModule (defmoduleData s') = o ∧
  ListOfDefmodules (defmoduleData s') = ListOfDefmodules (defmoduleData s).
Proof.
  unfold SetCurrentModule. erewrite M_bind_Some by reflexivity. cbn beta zeta.
  erewrite M_bind_Some by reflexivity. cbn beta. unfold whenM.
  destruct (CallModuleChangeFunctions (defmoduleData s)); (eexists; split; [reflexivity|]);
    split_and!; by split.
Qed.

Lemma watch_focus_run s : ∃ b, watch_focus s = Some (b, s).
Proof. eexists. reflexivity. Qed.

Lemma remove_first_at m stack b pre post :
  stack = pre ++ m :: post → m ∉ pre →
  remove_first m stack b = Some (pre ++ post, match pre with [] => b | _ => false end).
Proof.
  intros -> Hm. revert b. induction pre as [|x pre IH]; intros b; simpl; [by rewrite decide_True|].
  rewrite decide_False by set_solver. rewrite IH by set_solver. simpl. by destruct pre.
Qed.
Lemma remove_first_notin m stack b : m ∉ stack → remove_first m stack b = None.
Proof.
  revert b. induction stack as [|x stack IH]; intros b Hm; simpl; [done|].
  rewrite decide_False by set_solver. by rewrite IH by set_solver.
Qed.

(** The state after [m] was taken off the stack. *)
Record unfocused s (m : ptr) pre post s' : Prop := {
  uf_agenda : same_agenda s s';
  uf_stack : CurrentFocus (engineData s') = pre ++ post;
  uf_changed : FocusChanged (engineData s') = true;
  uf_modules : ListOfDefmodules (defmoduleData s') = ListOfDefmodules (defmoduleData s);
  uf_current : CurrentModule (defmoduleData s') =
  match pre, post with [], f :: _ => Some f | _, _ => CurrentModule (defmoduleData s) end;
}.

(** The announcement of a focus change prints only. *)
Lemma remove_focus_prints s m stack b md :
  focus_ok s → modules (store s) !! m = Some md → (∀ f, f ∈ stack → is_Some (modules (store s) !! f)) →
  prints (md ← load_module m;
        _ ← WriteString STDOUT "<== Focus ";
        _ ← WriteString STDOUT (module_name md);
        _ ← whenM b (write_top " to " stack);
        WriteString STDOUT newline) s.
Proof.
  intros Hf Hmd Hs. eapply prints_load_module; [exact Hmd|].
  repeat (apply prints_bind; [|]); try apply prints_write.
  apply prints_when. intros _. by apply write_top_prints.
Qed.

Lemma RemoveFocus_spec s m pre post :
  focus_ok s → CurrentFocus (engineData s) = pre ++ m :: post → m ∉ pre →
  ∃ s', RemoveFocus m s = Some (Some m, s') ∧ unfocused s m pre post s'.
Proof.
  intros Hf Hst Hm. unfold RemoveFocus. erewrite M_bind_Some by reflexivity. cbn beta.
  destruct (CurrentFocus (engineData s)) as [|top stack0] eqn:Hstack; [by destruct pre|].
  rewrite (remove_first_at m (top :: stack0) true pre post Hst Hm).
  erewrite M_bind_Some by reflexivity. cbn beta.
  set (s1 := with_engineData _ s). set (atop := match pre with [] => true | _ => false end).
  destruct (watch_focus_run s1) as [w Hw]. mrun Hw.
  assert (Hlive : ∀ f, f ∈ pre ++ post → is_Some (modules (store s1) !! f)).
  { intros f Hin. apply Hf. rewrite Hstack, Hst. set_solver. }
  destruct (Hf m) as [md Hmd]; [rewrite Hstack, Hst; set_solver|].
  assert (Hf1 : focus_ok s1) by (intros f; apply Hlive).
  match goal with |- context [whenM w ?P] => destruct (prints_run (whenM w P) s1) as [o Ho] end.
  { apply prints_when. intros _. by eapply remove_focus_prints. }
  mrun Ho. set (s2 := with_output _ s1).
  assert (∃ s3, match pre ++ post with
    | f :: _ => if atop then (_ ← SetCurrentModule (Some f); mret tt) else mret tt
    | [] => mret tt end s2 = Some (tt, s3) ∧ same_agenda s s3 ∧ engineData s3 = engineData s1 ∧
    ListOfDefmodules (defmoduleData s3) = ListOfDefmodules (defmoduleData s) ∧
    CurrentModule (defmoduleData s3) =
    match pre, post with [], f :: _ => Some f | _, _ => CurrentModule (defmoduleData s) end)
    as (s3 & Hrun & Hsame & He & Hl & Hc).
  { unfold atop. destruct pre as [|p pre]; simpl; [|exists s2; by split_and!; [done|split|..]].
    destruct post as [|f post]; [exists s2; by split_and!; [done|split|..]|].
    destruct (SetCurrentModule_run s2 (Some f)) as (s3 & Hrun & [Hs1 Hs2] & He & _ & Hc & Hl).
    exists s3. split; [by mrun Hrun|]. split_and!; [by split|by rewrite He|done|done]. }
  erewrite M_bind_Some; [cbn beta|].
  2:{ destruct (pre ++ post) eqn:Hpp; [exact Hrun|]. exact Hrun. }
  erewrite M_bind_Some by reflexivity. cbn beta. eexists. split; [reflexivity|].
  destruct Hsame. split; simpl; try done. by rewrite He.
Qed.

(** Removing a module that is not on the stack changes nothing. *)
Lemma RemoveFocus_absent s m :
  m ∉ CurrentFocus (engineData s) → RemoveFocus m s = Some (head (CurrentFocus (engineData s)), s).
Proof.
  intros Hm. unfold RemoveFocus. erewrite M_bind_Some by reflexivity. cbn beta.
  destruct (CurrentFocus (engineData s)) as [|top stack] eqn:Hs; [done|].
  by rewrite (remove_first_notin m (top :: stack) true Hm).
Qed.

Lemma PopFocus_spec s top rest :
  focus_ok s → CurrentFocus (engineData s) = top :: rest →
  ∃ s', PopFocus s = Some (Some top, s') ∧ unfocused s top [] rest s'.
Proof.
  intros Hf Hst. unfold PopFocus. erewrite M_bind_Some by reflexivity. cbn beta. rewrite Hst.
  apply RemoveFocus_spec; [done|done|set_solver].
Qed.

Lemma unfocused_ok s m pre post s' :
  focus_ok s → CurrentFocus (engineData s) = pre ++ m :: post → unfocused s m pre post s' → focus_ok s'.
Proof.
  intros Hf Hst [[Hs _] Hc _ _ _] f. rewrite Hc, Hs. intros Hin. apply Hf. rewrite Hst. set_solver.
Qed.

Lemma clear_focus_loop_spec fuel s :
  focus_ok s → length (CurrentFocus (engineData s)) ≤ fuel →
  ∃ s', clear_focus_loop fuel s = Some (tt, s') ∧ same_agenda s s' ∧ CurrentFocus (engineData s') = [].
Proof.
  revert s. induction fuel as [|fuel IH]; intros s Hf Hlen; simpl;
    erewrite M_bind_Some by reflexivity; cbn beta;
    destruct (CurrentFocus (engineData s)) as [|top rest] eqn:Hst; simpl in Hlen; try lia.
  1,2: exists s; by split_and!; [done|split|].
  destruct (PopFocus_spec s top rest Hf Hst) as (s1 & Hrun & Huf). mrun Hrun.
  pose proof (unfocused_ok s top [] rest s1 Hf Hst Huf) as Hf1. destruct Huf as [[Hs1 Ha1] Hc _ _ _].
  destruct (IH s1 Hf1) as (s' & Hrun' & [Hs' Ha'] & Hc'); [rewrite Hc; simpl; lia|].
  exists s'. split; [done|]. split; [|done]. by split; [rewrite Hs'|rewrite Ha'].
Qed.

(** ** The next activation *)

Definition agenda_of st (f : ptr) : option ptr := modules st !! f ≫= agenda.
Definition has_no_activation st (f : ptr) : bool := bool_decide (agenda_of st f = None).

(** The activation to fire, given the stack. *)
Definition next_on_stack st (stack : list ptr) : option ptr := head stack ≫= agenda_of st.

Lemma focus_agenda_run s f :
  is_Some (modules (store s) !! f) → focus_agenda f s = Some (agenda_of (store s) f, s).
Proof.
  intros [md Hmd]. unfold focus_agenda, agenda_of. mrun (load_module_Some s _ _ Hmd). by rewrite Hmd.
Qed.

Record chosen s (stack : list ptr) (r : option ptr) s' : Prop := {
  ch_agenda : same_agenda s s';
  ch_stack : CurrentFocus (engineData s') = drop_while (has_no_activation (store s)) stack;
  ch_result : r = next_on_stack (store s) (drop_while (has_no_activation (store s)) stack);
}.

Lemma next_activation_loop_spec fuel s stack :
  focus_ok s → CurrentFocus (engineData s) = stack → length stack ≤ fuel →
  ∃ r s', next_activation_loop fuel (next_on_stack (store s) stack) s = Some (r, s') ∧
  chosen s stack r s'.
Proof.
  revert s stack. induction fuel as [|fuel IH]; intros s stack Hf Hst Hlen.
  { destruct stack; [|simpl in Hlen; lia]. simpl. erewrite M_bind_Some by reflexivity. cbn beta.
    rewrite Hst. exists None, s. split; [done|]. split; [by split|done|done]. }
  simpl. erewrite M_bind_Some by reflexivity. cbn beta. rewrite Hst.
  destruct stack as [|top rest]; simpl.
  { exists None, s. split; [done|]. split; [by split|done|done]. }
  unfold next_on_stack. simpl.
  destruct (agenda_of (store s) top) as [x|] eqn:Hag.
  { exists (Some x), s. split; [done|]. split; [by split|..]; simpl; unfold has_no_activation;
      rewrite Hag; simpl; [done|]. unfold next_on_stack. simpl. by rewrite Hag. }
  destruct (PopFocus_spec s top rest Hf Hst) as (s1 & Hrun & Huf). mrun Hrun.
  pose proof (unfocused_ok s top [] rest s1 Hf Hst Huf) as Hf1. destruct Huf as [[Hs1 Ha1] Hc _ _ _].
  simpl in Hc. erewrite M_bind_Some by reflexivity. cbn beta. rewrite Hc.
  erewrite (M_bind_Some _ _ s1 (next_on_stack (store s1) rest) s1).
  2:{ destruct rest as [|f rest]; [done|]. apply focus_agenda_run. apply Hf1. rewrite Hc. set_solver. }
  cbn beta. simpl in Hlen.
  destruct (IH s1 rest Hf1 Hc) as (r & s' & Hrun' & [[Hs' Ha'] Hst' Hr]); [lia|].
  exists r, s'. split; [done|]. rewrite Hs1 in Hst', Hr.
  split; [by split; [rewrite Hs'|rewrite Ha']|..]; simpl; unfold has_no_activation at 1; rewrite Hag; done.
Qed.
End focus_proofs.

(** ** [NextActivationToFire] *)

Section next.
Context {H E : Type}.
Implicit Types (s : Environment H E) (st : Store E).

(** The first module of that name. *)
Fixpoint first_named st (name : string) (l : list ptr) : option ptr :=
  match l with
  | [] => None
  | p :: l' => if decide (module_name <$> modules st !! p = Some name) then Some p else first_named st name l'
  end.

Lemma first_named_elem st name l p : first_named st name l = Some p → p ∈ l.
Proof.
  induction l as [|q l IH]; simpl; [done|]. case_decide; [intros [= ->]|]; set_solver.
Qed.

Lemma find_defmodule_spec s name l :
  (∀ k, k ∈ l → is_Some (modules (store s) !! k)) →
  find_defmodule_loop name l s = Some (first_named (store s) name l, s).
Proof.
  induction l as [|p l IH]; intros Hl; [done|]. simpl. destruct (Hl p) as [md Hmd]; [set_solver|].
  mrun (load_module_Some s _ _ Hmd). rewrite Hmd. simpl. repeat case_decide; simplify_eq/=; try done.
  apply IH. set_solver.
Qed.

Definition listed_live s : Prop :=
  ∀ k, k ∈ ListOfDefmodules (defmoduleData s) → is_Some (modules (store s) !! k).

(** The stack [NextActivationToFire] starts from: [MAIN] when it is empty. *)
Definition starting_stack s : list ptr :=
  match CurrentFocus (engineData s) with
  | [] => match first_named (store s) "MAIN" (ListOfDefmodules (defmoduleData s)) with
        | Some m => [m] | None => [] end
  | l => l
  end.

Lemma starting_focus s :
  focus_ok s → listed_live s →
  ∃ s', (match CurrentFocus (engineData s) with
       | [] => theModule ← FindDefmodule "MAIN"; Focus theModule
       | _ :: _ => mret tt
       end) s = Some (tt, s') ∧ same_agenda s s' ∧ CurrentFocus (engineData s') = starting_stack s ∧
  focus_ok s'.
Proof.
  intros Hf Hl. unfold starting_stack. destruct (CurrentFocus (engineData s)) as [|top rest] eqn:Hst.
  2:{ exists s. by split_and!; [done|split|..]. }
  unfold FindDefmodule. rewrite M_bind_assoc. erewrite M_bind_Some by reflexivity. cbn beta.
  rewrite (M_bind_Some _ _ _ _ _ (find_defmodule_spec s "MAIN" _ Hl)). cbn beta.
  destruct (first_named (store s) "MAIN" _) as [p|] eqn:Hp.
  - apply first_named_elem in Hp. apply Hl in Hp as [md Hmd].
    destruct (Focus_spec s p Hf (ex_intro _ md Hmd)) as (s' & Hrun & [Hs Ha] & _ & _ & _ & Hc).
    exists s'. split; [exact Hrun|]. split; [by split|].
    assert (Hc' : CurrentFocus (engineData s') = [p]) by (rewrite Hc, Hst; done).
    split; [exact Hc'|]. intros f. rewrite Hc', Hs. intros ->%list_elem_of_singleton. eauto.
  - exists s. by split_and!; [done|split|..].
Qed.

Lemma NextActivationToFire_run s :
  focus_ok s → listed_live s → starting_stack s ≠ [] →
  ∃ r s', NextActivationToFire s = Some (r, s') ∧ chosen s (starting_stack s) r s'.
Proof.
  intros Hf Hl Hne. destruct (starting_focus s Hf Hl) as (s1 & Hrun & [Hs1 Ha1] & Hc & Hf1).
  unfold NextActivationToFire. erewrite M_bind_Some by reflexivity. cbn beta. mrun Hrun.
  erewrite M_bind_Some by reflexivity. cbn beta. rewrite Hc.
  destruct (starting_stack s) as [|top rest] eqn:Hst; [done|].
  assert (Htop : focus_agenda top s1 = Some (next_on_stack (store s1) (top :: rest), s1)).
  { apply focus_agenda_run, Hf1. rewrite Hc. set_solver. }
  mrun Htop.
  destruct (next_activation_loop_spec (length (top :: rest)) s1 (top :: rest) Hf1 Hc)
    as (r & s' & Hrun' & [[Hs Ha] Hst' Hr]); [done|].
  exists r, s'. split; [exact Hrun'|]. rewrite Hs1 in Hst', Hr.
  split; [by split; [rewrite Hs|rewrite Ha]|done|done].
Qed.
End next.
