(* ===== verification/RemoveProofs.v ===== *)
(** * Removing activations

    [RemoveActivation], [DetachActivation], [RemoveAllActivations]: the
    activation leaves the list, an emptied salience group is unlinked and
    freed, and every agenda stays well formed. *)
From S2P Require Import Prelude DList Values AgendaState Strategy StrategyProofs AgendaRep PlaceProofs.
From S2P Require Import Focus Agenda AgendaProofs SystemInv AddProofs.
From Stdlib Require Import Sorting.Sorted.

Section list_ends.
Context {A : Type} `{EqDecision A}.
Implicit Types (l : list A).

Lemma NoDup_hd_mid l1 x l2 : NoDup (l1 ++ x :: l2) → hd_or (l1 ++ x :: l2) None = Some x ↔ l1 = [].
Proof.
  intros Hnd. destruct l1 as [|y l1]; simpl; [done|]. split; [|done]. intros [= ->].
  apply NoDup_cons in Hnd as [Hx _]. exfalso. apply Hx. set_solver.
Qed.
Lemma NoDup_last_mid l1 x l2 : NoDup (l1 ++ x :: l2) → last_or None (l1 ++ x :: l2) = Some x ↔ l2 = [].
Proof.
  intros Hnd. rewrite last_or_app, last_or_cons. destruct l2 as [|y l2]; [done|]. split; [|done].
  rewrite last_or_cons, <- (last_or_cons None l2 y). intros Hx%last_or_elem.
  apply NoDup_app in Hnd as (_ & _ & [Hn _]%NoDup_cons). done.
Qed.
End list_ends.

Section remove.
Context {H E : Type} `{!Host H E}.
Implicit Types (s : Environment H E) (st : Store E).

Lemma store_groups_alter s f g gr :
  groups (store s) !! g = Some gr →
  with_store (with_groups (alter f g)) s = with_store (with_groups <[g := f gr]>) s.
Proof. intros Hgr. unfold with_store, with_groups. by rewrite (alter_as_insert _ _ _ _ Hgr). Qed.

(** The groups that stay allocated: an emptied group [g] does not. *)
Definition kept_groups (g : ptr) (l : list ptr) (gs : gset ptr) : gset ptr :=
  match l with [] => gs ∖ {[g]} | _ => gs end.

(** What removing [x] from its group does to groups and modules. *)
Record from_group s (m : ptr) S1 (g : ptr) sal l S2 s' : Prop := {
  fg_state : ∃ gs' mods', s' = with_store (fun st => with_modules (fun _ => mods') (with_groups (fun _ => gs') st)) s;
  fg_groups : groups_rep (groups (store s')) (seg_keep S1 g sal l S2);
  fg_module md : modules (store s) !! m = Some md →
  modules (store s') !! m = Some (set_groupings (hd_or (g_addr <$> seg_keep S1 g sal l S2) None) md);
  fg_modules k : k ≠ m → modules (store s') !! k = modules (store s) !! k;
  fg_other y l0 : y ∉ g_addr <$> S1 ++ mkSeg g sal l0 :: S2 →
  groups (store s') !! y = groups (store s) !! y;
  fg_live : dom (groups (store s')) = kept_groups g l (dom (groups (store s)));
}.

(** The group keeps some activation: its end points become those of [l']. *)
Lemma from_group_insert s m S1 g sal l S2 l' gr :
  agenda_rep (store s) m (S1 ++ mkSeg g sal l :: S2) → groups (store s) !! g = Some gr → l' ≠ [] →
  from_group s m S1 g sal l' S2 (with_store (with_groups
  <[g := mkSalienceGroup sal (hd_or l' None) (last_or None l') (sg_next gr) (sg_prev gr)]>) s).
Proof.
  intros Hrep Hgr Hl. assert (Hk : seg_keep S1 g sal l' S2 = S1 ++ mkSeg g sal l' :: S2) by by destruct l'.
  split; rewrite ?Hk.
  - eexists _, (modules (store s)). reflexivity.
  - eapply groups_rep_insert; [by eapply agenda_rep_groups|done].
  - intros md Hmd. simpl. rewrite Hmd. f_equal. destruct (rep_module _ _ _ Hrep) as (md' & Hmd' & Hg & _).
    rewrite Hmd in Hmd'. injection Hmd' as <-.
    rewrite fmap_app in *. simpl in *. rewrite <- Hg. by destruct md.
  - done.
  - intros y l0 Hy. rewrite fmap_app in Hy. simpl in *. rewrite lookup_insert_ne; [done|set_solver].
  - simpl. rewrite dom_insert_L. apply elem_of_dom_2 in Hgr. destruct l'; [done|]. simpl. set_solver.
Qed.

Lemma dom_groups_unlinked gs S1 g S2 : dom (groups_unlinked gs S1 g S2) = dom gs ∖ {[g]}.
Proof.
  apply set_eq. intros y. unfold groups_unlinked. rewrite dom_delete_L, !elem_of_difference, !elem_of_dom.
  by rewrite !upd_opt_is_Some.
Qed.

Lemma from_group_unlink s m S1 g sal l S2 md :
  agenda_rep (store s) m (S1 ++ mkSeg g sal l :: S2) → modules (store s) !! m = Some md →
  from_group s m S1 g sal [] S2 (with_store (fun st =>
  with_modules (fun mods => match S1 with
    | [] => alter (set_groupings (hd_or (g_addr <$> S2) None)) m mods | _ => mods end)
  (with_groups (fun gs => groups_unlinked gs S1 g S2) st)) s).
Proof.
  intros Hrep Hmd. split; simpl.
  - eexists _, _. reflexivity.
  - eapply groups_rep_unlink. by eapply agenda_rep_groups.
  - intros md' Hmd'. rewrite Hmd in Hmd'. injection Hmd' as <-.
    destruct S1 as [|sg S1]; simpl; [by rewrite lookup_alter_eq, Hmd|].
    destruct (rep_module _ _ _ Hrep) as (md' & Hmd' & Hg & _). rewrite Hmd in Hmd'. injection Hmd' as <-.
    rewrite Hmd. simpl in *. rewrite <- Hg. by destruct md.
  - intros k Hk. destruct S1; [by rewrite lookup_alter_ne|done].
  - intros y l0 Hy. by eapply groups_unlinked_notin.
  - apply dom_groups_unlinked.
Qed.

Lemma free_group_Some s p :
  is_Some (groups (store s) !! p) → free_group p s = Some (tt, with_store (with_groups (delete p)) s).
Proof. intros [g Hg]. unfold free_group. by mrun (load_group_Some s p g Hg). Qed.

Lemma unlink_group_run s m S1 g sal l S2 gr :
  agenda_rep (store s) m (S1 ++ mkSeg g sal l :: S2) → groups (store s) !! g = Some gr →
  (_ ← match sg_prev gr with
     | None => update_module m (set_groupings (sg_next gr))
     | Some p => update_group p (set_sg_next (sg_next gr))
     end;
   _ ← match sg_next gr with
     | Some n => update_group n (set_sg_prev (sg_prev gr))
     | None => mret tt
     end;
   free_group g) s = Some (tt, with_store (fun st =>
  with_modules (fun mods => match S1 with
    | [] => alter (set_groupings (hd_or (g_addr <$> S2) None)) m mods | _ => mods end)
  (with_groups (fun gs => groups_unlinked gs S1 g S2) st)) s).
Proof.
  intros Hrep Hgr. destruct (rep_module _ _ _ Hrep) as (md & Hmd & _).
  destruct (rep_group_at _ _ _ _ _ Hrep) as (gr' & Hgr' & _ & Hgn & Hgp & _).
  simpl in Hgr'. rewrite Hgr in Hgr'. injection Hgr' as <-. rewrite Hgn, Hgp.
  pose proof (rep_groups _ _ _ Hrep) as Hd. rewrite fmap_app in Hd. simpl in Hd.
  assert (Hlive : ∀ q, q ∈ (g_addr <$> S1) ∨ q ∈ (g_addr <$> S2) → is_Some (groups (store s) !! q)).
  { intros q Hq. eapply dll_lookup; [exact Hd|]. set_solver. }
  destruct S1 as [|sg S1' _] using rev_ind; simpl.
  - erewrite M_bind_Some by (eapply update_module_Some; exact Hmd). cbn beta.
    erewrite M_bind_Some.
    2:{ apply update_group_opt. simpl. intros p Hp%hd_or_elem. set_solver. }
    cbn beta. rewrite free_group_Some; [done|]. simpl. rewrite upd_opt_is_Some. by eexists.
  - assert (Hlast : last_or None (g_addr <$> S1' ++ [sg]) = Some (g_addr sg))
      by by rewrite fmap_app; apply last_or_snoc.
    rewrite Hlast. destruct (Hlive (g_addr sg)) as [gs Hgs]; [rewrite fmap_app; simpl; set_solver|].
    erewrite M_bind_Some by (eapply update_group_Some; exact Hgs). cbn beta.
    erewrite M_bind_Some.
    2:{ apply update_group_opt. simpl. intros p Hp%hd_or_elem. rewrite lookup_alter_is_Some. set_solver. }
    cbn beta. rewrite free_group_Some by (simpl; rewrite upd_opt_is_Some, lookup_alter_is_Some; by eexists).
    unfold with_store, with_groups, with_modules, groups_unlinked. simpl.
    rewrite Hlast. by destruct S1'.
Qed.

Lemma RemoveActivationFromGroup_spec s m S1 g sal l1 x l2 S2 :
  agenda_rep (store s) m (S1 ++ mkSeg g sal (l1 ++ x :: l2) :: S2) →
  ∃ s', RemoveActivationFromGroup x m s = Some (tt, s') ∧ from_group s m S1 g sal (l1 ++ l2) S2 s'.
Proof.
  intros Hrep. pose proof (rep_acts _ _ _ Hrep) as Hd. rewrite members_mid in Hd. simpl in Hd.
  destruct (rep_module _ _ _ Hrep) as (md & Hmd & _).
  assert (Hnd : NoDup (l1 ++ x :: l2)).
  { apply dll_NoDup, NoDup_app in Hd as (_ & _ & Hd). by apply NoDup_app in Hd as (? & _). }
  assert (∃ a, acts (store s) !! x = Some a ∧ act_salience a = sal) as (a & Ha & Hsal).
  { edestruct (rep_act_in (store s) m _ (mkSeg g sal (l1 ++ x :: l2)) x Hrep) as (a & r & ? & ? & _);
      [set_solver|set_solver|]. eauto. }
  assert (Hlinks : act_prev a = last_or None (members S1 ++ l1) ∧ act_next a = hd_or (l2 ++ members S2) None).
  { rewrite <- app_assoc, app_assoc in Hd. simpl in Hd. by apply (dll_mid _ _ _ _ _ Hd Ha). }
  destruct (rep_group_at _ _ _ _ _ Hrep) as (gr & Hgr & Hgs & Hgn & Hgp & Hgf & Hgl). simpl in *.
  unfold RemoveActivationFromGroup. mrun (load_act_Some s _ _ Ha). rewrite Hsal.
  mrun (FindSalienceGroup_spec s m S1 g sal _ S2 Hrep). mrun (load_group_Some s _ _ Hgr).
  pose proof (NoDup_hd_mid l1 x l2 Hnd) as Hh. pose proof (NoDup_last_mid l1 x l2 Hnd) as Hl.
  assert (Hgr' : gr = mkSalienceGroup sal (hd_or (l1 ++ x :: l2) None) (last_or None (l1 ++ x :: l2)) (sg_next gr) (sg_prev gr)).
  { destruct gr; simpl in *; by subst. }
  rewrite Hgf, Hgl. case_decide as Hf; [symmetry in Hf; apply Hh in Hf as ->|].
  - case_decide as Hx; [symmetry in Hx; apply Hl in Hx as ->|]; simpl in *.
    + eexists. split; [by eapply unlink_group_run|by eapply from_group_unlink].
    + destruct l2 as [|y l2]; [by rewrite last_or_cons in Hx|].
      eexists. split; [|eapply (from_group_insert _ _ _ _ _ _ _ (y :: l2)); done].
      rewrite (update_group_Some s _ _ _ Hgr). rewrite (store_groups_alter _ _ _ _ Hgr). do 5 f_equal.
      unfold set_sg_first. rewrite (proj2 Hlinks), Hgl, Hgs. done.
  - assert (l1 ≠ []) as Hl1 by (intros ->; by apply Hf).
    case_decide as Hx; [symmetry in Hx; apply Hl in Hx as ->|].
    + rewrite app_nil_r. eexists. split; [|by eapply from_group_insert].
      rewrite (update_group_Some s _ _ _ Hgr). rewrite (store_groups_alter _ _ _ _ Hgr). do 5 f_equal.
      unfold set_sg_last. rewrite Hgf, Hgs. destruct Hlinks as [-> _].
      rewrite last_or_app. f_equal; [by destruct l1|]. by destruct l1 using rev_ind; [|rewrite !last_or_snoc].
    + eexists. split; [|eapply from_group_insert; [done|done|by destruct l1]].
      assert (l2 ≠ []) as Hl2 by (intros ->; apply Hx; by rewrite last_or_snoc).
      assert (hd_or (l1 ++ l2) None = hd_or (l1 ++ x :: l2) None) as -> by by destruct l1.
      assert (last_or None (l1 ++ l2) = last_or None (l1 ++ x :: l2)) as ->.
      { destruct l2 as [|y l2 _] using rev_ind; [done|]. by rewrite app_assoc, app_comm_cons, app_assoc, !last_or_snoc. }
      rewrite <- Hgr'. unfold with_store, with_groups. rewrite insert_id by done. by destruct s as [[]].
Qed.
(** ** Unlinking an activation *)

Definition acts_unlinked (h : gmap ptr Activation) (L1 L2 : list ptr) : gmap ptr Activation :=
  upd_opt (set_prv (last_or None L1)) (hd_or L2 None)
  (upd_opt (set_nxt (hd_or L2 None)) (last_or None L1) h).

Lemma acts_unlinked_lookup h L1 x L2 y :
  dll h (L1 ++ x :: L2) → y ∉ L1 ++ L2 → acts_unlinked h L1 L2 !! y = h !! y.
Proof.
  intros _ Hy. unfold acts_unlinked. rewrite !upd_opt_lookup_notin; [done|..].
  - intros Hl%last_or_elem. set_solver.
  - intros Hl%hd_or_elem. set_solver.
Qed.
Lemma acts_unlinked_payloads h L1 L2 : same_payloads h (acts_unlinked h L1 L2).
Proof. intros k. unfold acts_unlinked. by rewrite payload_upd_prv, payload_upd_nxt. Qed.

Lemma unlink_activation_spec s m md L1 x L2 :
  modules (store s) !! m = Some md → agenda md = hd_or (L1 ++ x :: L2) None →
  dll (acts (store s)) (L1 ++ x :: L2) →
  ∃ s', unlink_activation m x s = Some (tt, s') ∧
  relinked s s' m (acts_unlinked (acts (store s)) L1 L2) (hd_or (L1 ++ L2) None).
Proof.
  intros Hmd Hag Hd.
  assert (is_Some (acts (store s) !! x)) as [a Ha] by (eapply dll_lookup; [exact Hd|set_solver]).
  destruct (dll_mid _ _ _ _ _ Hd Ha) as [Hp Hn]. simpl in Hp, Hn.
  set (mods' := match L1 with [] => alter (set_agenda (hd_or L2 None)) m (modules (store s))
    | _ => modules (store s) end).
  exists (with_store (fun st => with_modules (fun _ => mods')
    (with_acts (fun _ => acts_unlinked (acts (store s)) L1 L2) st)) s). split.
  - unfold unlink_activation. mrun (load_act_Some s _ _ Ha). rewrite Hp, Hn.
    destruct L1 as [|q L1 _] using rev_ind; simpl in *.
    + mrun (load_module_Some s _ _ Hmd). rewrite Hag. erewrite M_bind_Some by reflexivity. cbn beta.
      mrun (load_act_Some s _ _ Ha). rewrite Hn.
      erewrite M_bind_Some by (eapply update_module_Some; exact Hmd). cbn beta.
      rewrite update_act_opt; [done|].
      simpl. intros p Hl%hd_or_elem. eapply dll_lookup; [exact Hd|set_solver].
    + rewrite last_or_snoc.
      assert (is_Some (acts (store s) !! q)) as [qa Hqa] by (eapply dll_lookup; [exact Hd|set_solver]).
      erewrite M_bind_Some by (eapply update_act_Some; exact Hqa). cbn beta.
      rewrite update_act_opt.
      2:{ simpl. intros p Hl%hd_or_elem. rewrite lookup_alter_is_Some. eapply dll_lookup; [exact Hd|set_solver]. }
      unfold with_store, with_acts, with_modules, acts_unlinked, mods'. simpl. rewrite last_or_snoc.
      by destruct L1.
  - eexists. split; [reflexivity|]. split.
    + intros md' Hmd'. rewrite Hmd in Hmd'. injection Hmd' as <-. unfold mods'.
      destruct L1 as [|q L1]; simpl in *; [by rewrite lookup_alter_eq, Hmd|].
      rewrite Hmd. destruct md; simpl in *. by subst.
    + intros k Hk. unfold mods'. destruct L1; [by rewrite lookup_alter_ne|done].
Qed.

(** ** The agenda after an activation left it *)

Lemma rep_removed st st' m S1 g sal l1 x l2 S2 :
  agenda_rep st m (S1 ++ mkSeg g sal (l1 ++ x :: l2) :: S2) →
  groups_rep (groups st') (seg_keep S1 g sal (l1 ++ l2) S2) →
  dll (acts st') ((members S1 ++ l1) ++ l2 ++ members S2) →
  (∃ md, modules st' !! m = Some md ∧ groupings md = hd_or (g_addr <$> seg_keep S1 g sal (l1 ++ l2) S2) None ∧
  agenda md = hd_or ((members S1 ++ l1) ++ l2 ++ members S2) None) →
  (∀ y sal, y ∈ (members S1 ++ l1) ++ l2 ++ members S2 → act_in st m sal y → act_in st' m sal y) →
  agenda_rep st' m (seg_keep S1 g sal (l1 ++ l2) S2).
Proof.
  intros Hrep Hg Hd (md & Hmd & Hgp & Hag) Hin.
  assert (Hmem : members (seg_keep S1 g sal (l1 ++ l2) S2) = (members S1 ++ l1) ++ l2 ++ members S2).
  { rewrite members_keep. by rewrite <- !app_assoc. }
  assert (Hold : ∀ sg y, sg ∈ seg_keep S1 g sal (l1 ++ l2) S2 → y ∈ g_mem sg → act_in st m (g_sal sg) y).
  { intros sg y Hsg Hy.
    assert (sg ∈ S1 ∨ sg ∈ S2 ∨ (sg = mkSeg g sal (l1 ++ l2))) as Hcases.
    { unfold seg_keep in Hsg. destruct (l1 ++ l2); set_solver. }
    destruct Hcases as [?|[?|Hs]].
    1,2: eapply rep_act_in; [exact Hrep|set_solver|done].
    rewrite Hs in *. simpl in *. apply (rep_act_in _ _ _ (mkSeg g sal (l1 ++ x :: l2)) _ Hrep); set_solver. }
  eapply agenda_rep_intro; [exact Hmd|exact Hgp| |exact Hg|by rewrite Hmem| |].
  - by rewrite Hmem.
  - intros sg y Hsg Hy. apply Hin; [|by eapply Hold].
    rewrite <- Hmem. apply elem_of_members. eauto.
  - pose proof (rep_desc _ _ _ Hrep) as Hs. unfold seg_keep. rewrite fmap_app in Hs. simpl in Hs.
    apply StronglySorted_app_inv in Hs as (H1 & [H2 H3]%StronglySorted_inv & H4).
    destruct (l1 ++ l2); rewrite fmap_app; simpl.
    + apply StronglySorted_app; [done|done|]. intros; apply H4; [done|set_solver].
    + apply StronglySorted_app; [done|by constructor|done].
Qed.

(** The agenda of [m] without [x], which stays allocated. *)
Record off s (m : ptr) S1 g sal l1 x l2 S2 s' : Prop := {
  of_rep : agenda_rep (store s') m (seg_keep S1 g sal (l1 ++ l2) S2);
  of_frame : frame m (members S1 ++ l1 ++ l2 ++ members S2)
  (g_addr <$> S1 ++ mkSeg g sal (l1 ++ x :: l2) :: S2) [] (store s) (store s');
  of_state : s' = with_store (fun st => relinked_store st (store s')) s;
  of_live : dom (groups (store s')) = kept_groups g (l1 ++ l2) (dom (groups (store s)));
}.

Lemma off_intro s s1 s2 m S1 g sal l1 x l2 S2 top mods' :
  agenda_rep (store s) m (S1 ++ mkSeg g sal (l1 ++ x :: l2) :: S2) →
  from_group s m S1 g sal (l1 ++ l2) S2 s1 →
  top = hd_or ((members S1 ++ l1) ++ l2 ++ members S2) None →
  s2 = with_store (fun st => with_modules (fun _ => mods')
  (with_acts (fun _ => acts_unlinked (acts (store s)) (members S1 ++ l1) (l2 ++ members S2)) st)) s1 →
  (∀ md, modules (store s1) !! m = Some md → mods' !! m = Some (set_agenda top md)) →
  (∀ k, k ≠ m → mods' !! k = modules (store s1) !! k) →
  off s m S1 g sal l1 x l2 S2 s2.
Proof.
  intros Hrep [(gs' & mods1 & Hs1) Hg Hm Hmo Hgo Hlive] -> -> Hm2 Hmo2.
  pose proof (rep_acts _ _ _ Hrep) as Hd. rewrite members_mid in Hd. simpl in Hd.
  rewrite <- app_assoc, app_assoc in Hd. simpl in Hd.
  destruct (rep_module _ _ _ Hrep) as (md & Hmd & _).
  set (s2 := with_store _ s1).
  assert (HF : frame m (members S1 ++ l1 ++ l2 ++ members S2)
    (g_addr <$> S1 ++ mkSeg g sal (l1 ++ x :: l2) :: S2) [] (store s) (store s2)).
  { split; simpl.
    - by rewrite Hs1.
    - by rewrite Hs1.
    - intros k a _. apply same_payloads_lookup. apply acts_unlinked_payloads.
    - intros y Hy. eapply acts_unlinked_lookup; [exact Hd|]. by rewrite <- app_assoc.
    - intros y Hy. by eapply Hgo.
    - intros k Hk. rewrite Hmo2, Hmo; done. }
  split; [|done| |exact Hlive].
  - eapply rep_removed; [exact Hrep|exact Hg|by apply dll_unlink with x| |].
    + eexists. split; [simpl; by apply Hm2, Hm|]. done.
    + intros y sal' _. eapply act_in_frame; [exact HF|set_solver].
  - unfold s2. by rewrite Hs1.
Qed.

Lemma take_off_spec s m S1 g sal l1 x l2 S2 :
  agenda_rep (store s) m (S1 ++ mkSeg g sal (l1 ++ x :: l2) :: S2) →
  ∃ s', (_ ← RemoveActivationFromGroup x m; unlink_activation m x) s = Some (tt, s') ∧
  off s m S1 g sal l1 x l2 S2 s'.
Proof.
  intros Hrep. destruct (RemoveActivationFromGroup_spec _ _ _ _ _ _ _ _ _ Hrep) as (s1 & Hrun & Hfg).
  destruct (rep_module _ _ _ Hrep) as (md & Hmd & _ & Hag).
  pose proof (rep_acts _ _ _ Hrep) as Hd. rewrite members_mid in Hd, Hag. simpl in Hd, Hag.
  rewrite <- app_assoc, app_assoc in Hd, Hag. simpl in Hd, Hag.
  assert (Hacts : acts (store s1) = acts (store s)) by (destruct (fg_state _ _ _ _ _ _ _ _ Hfg) as (? & ? & ->); done).
  destruct (unlink_activation_spec s1 m _ (members S1 ++ l1) x (l2 ++ members S2) (fg_module _ _ _ _ _ _ _ _ Hfg md Hmd))
    as (s2 & Hrun2 & mods' & Hs2 & Hm2 & Hmo2); [done|by rewrite Hacts|].
  exists s2. split; [by mrun Hrun|]. rewrite Hacts in Hs2.
  eapply off_intro; [exact Hrep|exact Hfg|reflexivity|exact Hs2|done|done].
Qed.

Lemma DetachActivation_spec s a r m S1 g sal l1 x l2 S2 :
  acts (store s) !! x = Some a → rules (store s) !! theRule a = Some r → whichModule r = m →
  agenda_rep (store s) m (S1 ++ mkSeg g sal (l1 ++ x :: l2) :: S2) →
  ∃ s1, off s m S1 g sal l1 x l2 S2 s1 ∧
  DetachActivation x s = Some (true, with_agendaData (set_AgendaChanged true)
    (with_store (with_acts <[x := set_act_next None (set_act_prev None a)]>) s1)).
Proof.
  intros Ha Hr Hwm Hrep. unfold DetachActivation.
  mrun (load_act_Some s _ _ Ha). mrun (load_rule_Some s _ _ Hr). rewrite Hwm.
  destruct (RemoveActivationFromGroup_spec _ _ _ _ _ _ _ _ _ Hrep) as (s1 & Hrun & Hfg). mrun Hrun.
  destruct (rep_module _ _ _ Hrep) as (md & Hmd & _ & Hag).
  pose proof (rep_acts _ _ _ Hrep) as Hd. rewrite members_mid in Hd, Hag. simpl in Hd, Hag.
  rewrite <- app_assoc, app_assoc in Hd, Hag. simpl in Hd, Hag.
  assert (Hacts : acts (store s1) = acts (store s)) by (destruct (fg_state _ _ _ _ _ _ _ _ Hfg) as (? & ? & ->); done).
  destruct (dll_mid _ _ _ _ _ Hd Ha) as [Hp Hn]. simpl in Hp, Hn.
  set (L1 := members S1 ++ l1) in *. set (L2 := l2 ++ members S2) in *.
  pose proof (fg_module _ _ _ _ _ _ _ _ Hfg md Hmd) as Hmd1. set (md1 := set_groupings _ md) in *.
  mrun (load_module_Some s1 _ _ Hmd1). rewrite <- Hacts in Ha, Hd. mrun (load_act_Some s1 _ _ Ha).
  assert (Htop : bool_decide (agenda md1 = Some x) = bool_decide (L1 = [])).
  { apply bool_decide_ext. change (agenda md1) with (agenda md). rewrite Hag.
    apply NoDup_hd_mid. by apply dll_NoDup in Hd. }
  set (mods' := if bool_decide (L1 = []) then alter (set_agenda (act_next a)) m (modules (store s1))
    else modules (store s1)).
  set (s2 := with_store (with_modules (fun _ => mods')) s1).
  rewrite Htop. clear Htop. erewrite (M_bind_Some _ _ s1 tt s2).
  2:{ unfold s2, mods'. destruct (bool_decide (L1 = [])); simpl.
    - eapply update_module_Some. exact Hmd1.
    - unfold mret, M_ret, with_store, with_modules. by destruct s1 as [[]]. }
  cbn beta. rewrite Hp, Hn.
  assert (Hlive : ∀ y, y ∈ L1 ∨ y ∈ L2 → is_Some (acts (store s1) !! y)).
  { intros y Hy. eapply dll_lookup; [exact Hd|set_solver]. }
  erewrite M_bind_Some.
  2:{ apply update_act_opt. intros p Hl%last_or_elem. auto. }
  cbn beta. erewrite M_bind_Some.
  2:{ apply update_act_opt. intros p Hl%hd_or_elem. simpl. rewrite upd_opt_is_Some. auto. }
  cbn beta. set (s3 := with_store _ (with_store _ s2)).
  assert (Hs3 : s3 = with_store (fun st => with_modules (fun _ => mods')
    (with_acts (fun _ => acts_unlinked (acts (store s)) L1 L2) st)) s1).
  { unfold s3, s2, with_store, with_acts, with_modules, acts_unlinked. simpl. by rewrite Hacts. }
  assert (Hx : x ∉ L1 ++ L2).
  { apply dll_NoDup in Hd. rewrite <- Permutation_middle in Hd. by apply NoDup_cons in Hd as [? _]. }
  assert (Ha3 : acts (store s3) !! x = Some a).
  { rewrite Hs3. simpl. rewrite <- Hacts. erewrite acts_unlinked_lookup; [exact Ha|exact Hd|done]. }
  clearbody s3. exists s3. split.
  - eapply off_intro; [exact Hrep|exact Hfg|reflexivity|exact Hs3|..].
    + intros md' Hmd'. rewrite Hmd1 in Hmd'. injection Hmd' as <-. unfold mods'.
      case_bool_decide as HL; fold L1 L2.
      * rewrite lookup_alter_eq, Hmd1, HL, Hn. done.
      * rewrite Hmd1. f_equal. replace (hd_or (L1 ++ L2) None) with (agenda md); [by destruct md|].
        rewrite Hag. by destruct L1.
    + intros k Hk. unfold mods'. case_bool_decide; [by rewrite lookup_alter_ne|done].
  - erewrite M_bind_Some by (eapply update_act_Some; exact Ha3). cbn beta.
    erewrite M_bind_Some.
    2:{ eapply update_act_Some. simpl. by rewrite lookup_alter_eq, Ha3. }
    cbn beta. erewrite M_bind_Some by reflexivity. unfold mret, M_ret. do 3 f_equal.
    unfold with_store, with_acts. simpl. do 2 f_equal.
    by rewrite (alter_as_insert _ _ _ _ Ha3), alter_insert_eq.
Qed.
End remove.
