(* ===== verification/RemoveSystem.v ===== *)
(** * Removal and the invariant of all agendas

    [RemoveActivation] refines the abstract removal [spec_filter] and keeps the
    invariant; the loops of [RemoveAllActivations] and [ClearRuleFromAgenda]
    remove exactly the activations they name.

    Then the loops that sweep an agenda. *)
From Stdlib Require Import Sorting.Sorted.
From S2P Require Import Prelude Values DList AgendaState Strategy StrategyProofs AgendaRep PlaceProofs.
From S2P Require Import Focus Agenda AgendaProofs SystemInv AddProofs RemoveProofs.
(** ** The abstract removal *)

(** Keep the activations that satisfy [keep], drop the emptied groups. *)
Fixpoint spec_filter (keep : ptr → bool) (A : list (Z * list ptr)) : list (Z * list ptr) :=
  match A with
  | [] => []
  | (sal, l) :: A' =>
      match filter (fun x => keep x) l with
      | [] => spec_filter keep A'
      | l' => (sal, l') :: spec_filter keep A'
      end
  end.

Definition except (x : ptr) (y : ptr) : bool := bool_decide (y ≠ x).

Lemma filter_true {A} (f : A → bool) (l : list A) : (∀ x, x ∈ l → f x = true) → filter (fun x => f x) l = l.
Proof.
  intros Hl. induction l as [|x l IH]; [done|]. rewrite filter_cons_True by (rewrite Hl; [done|set_solver]).
  f_equal. apply IH. set_solver.
Qed.
Lemma filter_filter_bool {A} (f g : A → bool) (l : list A) :
  filter (fun x => f x) (filter (fun x => g x) l) = filter (fun x => g x && f x) l.
Proof.
  induction l as [|x l IH]; [done|]. rewrite !filter_cons. destruct (g x) eqn:Hg; simpl; [|done].
  rewrite filter_cons, IH. destruct (f x); done.
Qed.
Lemma filter_ext_bool {A} (f g : A → bool) (l : list A) :
  (∀ x, x ∈ l → f x = g x) → filter (fun x => f x) l = filter (fun x => g x) l.
Proof.
  intros Hl. induction l as [|x l IH]; [done|]. rewrite !filter_cons, Hl by set_solver.
  rewrite IH by set_solver. done.
Qed.

Lemma spec_filter_true keep A :
  Forall (fun p => p.2 ≠ []) A → (∀ x, x ∈ firing_order A → keep x = true) → spec_filter keep A = A.
Proof.
  unfold firing_order. induction 1 as [|[sal l] A Hne HF IH]; simpl; intros Hk; [done|].
  rewrite filter_true by (intros; apply Hk; set_solver). simpl in Hne. rewrite IH by set_solver.
  by destruct l.
Qed.

Lemma spec_filter_ext f g A :
  (∀ x, x ∈ firing_order A → f x = g x) → spec_filter f A = spec_filter g A.
Proof.
  unfold firing_order. induction A as [|[sal l] A IH]; simpl; intros Hk; [done|].
  rewrite (filter_ext_bool f g) by set_solver. rewrite IH by set_solver. done.
Qed.

Lemma spec_filter_compose f g A :
  spec_filter f (spec_filter g A) = spec_filter (fun x => g x && f x) A.
Proof.
  induction A as [|[sal l] A IH]; simpl; [done|]. rewrite <- filter_filter_bool.
  destruct (filter (fun x => g x) l) as [|y l'] eqn:Hg; simpl; [done|].
  by rewrite IH.
Qed.

(** Filtering keeps the firing order of what is left. *)
Lemma firing_order_filter keep A :
  firing_order (spec_filter keep A) = filter (fun x => keep x) (firing_order A).
Proof.
  unfold firing_order. induction A as [|[sal l] A IH]; csimpl; [done|].
  rewrite filter_app, <- IH. by destruct (filter (fun x => keep x) l).
Qed.

Lemma abs_nonempty segs : nonempty segs → Forall (fun p => p.2 ≠ []) (abs segs).
Proof.
  unfold nonempty, abs. intros HF. apply Forall_forall. intros p (sg & -> & Hsg)%list_elem_of_fmap.
  rewrite Forall_forall in HF. simpl. by apply HF.
Qed.

Lemma spec_filter_app f A B : spec_filter f (A ++ B) = spec_filter f A ++ spec_filter f B.
Proof.
  induction A as [|[sal l] A IH]; simpl; [done|]. rewrite IH. by destruct (filter _ l).
Qed.

Lemma abs_seg_keep S1 g sal l1 x l2 S2 :
  nonempty (S1 ++ mkSeg g sal (l1 ++ x :: l2) :: S2) →
  NoDup (members (S1 ++ mkSeg g sal (l1 ++ x :: l2) :: S2)) →
  abs (seg_keep S1 g sal (l1 ++ l2) S2) =
  spec_filter (except x) (abs (S1 ++ mkSeg g sal (l1 ++ x :: l2) :: S2)).
Proof.
  intros Hne Hnd. unfold nonempty in Hne. rewrite Forall_app, Forall_cons in Hne.
  destruct Hne as (Hn1 & _ & Hn2). rewrite members_mid in Hnd. simpl in Hnd.
  rewrite <- app_assoc in Hnd. simpl in Hnd. rewrite app_assoc, <- Permutation_middle in Hnd.
  apply NoDup_cons in Hnd as [Hx _].
  assert (Hk : ∀ y, y ∈ (members S1 ++ l1) ++ l2 ++ members S2 → except x y = true).
  { intros y Hy. unfold except. apply bool_decide_eq_true. intros ->. done. }
  assert (Hkeep : ∀ S, nonempty S → (∀ y, y ∈ members S → except x y = true) → spec_filter (except x) (abs S) = abs S).
  { intros S HS HkS. apply spec_filter_true; [by apply abs_nonempty|].
    intros y. rewrite firing_order_abs. apply HkS. }
  assert (Hf : filter (fun y => except x y) (l1 ++ x :: l2) = l1 ++ l2).
  { rewrite filter_app, filter_cons_False.
    - rewrite (filter_true (except x) l1), (filter_true (except x) l2); [done|..];
        intros y Hy; apply Hk; rewrite !elem_of_app; auto.
    - unfold except. by intros Hb%bool_decide_unpack. }
  unfold abs at 2. rewrite fmap_app, spec_filter_app. simpl.
  fold (abs S1) (abs S2). rewrite Hf, !Hkeep by (done || intros; apply Hk; set_solver).
  unfold seg_keep, abs. destruct (l1 ++ l2) eqn:Hl; by rewrite fmap_app.
Qed.

Lemma StronglySorted_drop_mid {A} (R : A → A → Prop) l1 x l2 :
  StronglySorted R (l1 ++ x :: l2) → StronglySorted R (l1 ++ l2).
Proof.
  intros (H1 & [H2 _]%StronglySorted_inv & H3)%StronglySorted_app_inv.
  apply StronglySorted_app; [done|done|]. set_solver.
Qed.

(** ** [RemoveActivation] *)

Section remove_system.
Context {H E : Type} `{!Host H E}.
Implicit Types (s : Environment H E) (st : Store E) (r : Defrule E).

Lemma members_decompose (segs : list Seg) x :
  x ∈ members segs → ∃ S1 g sal l1 l2 S2, segs = S1 ++ mkSeg g sal (l1 ++ x :: l2) :: S2.
Proof.
  intros ([g sal l] & Hsg & Hx)%elem_of_members. simpl in Hx.
  apply list_elem_of_split in Hsg as (S1 & S2 & ->).
  apply list_elem_of_split in Hx as (l1 & l2 & ->). by exists S1, g, sal, l1, l2, S2.
Qed.

Lemma seg_keep_wf strat st st' m S1 g sal l1 x l2 S2 X G D :
  wf_agenda strat st m (S1 ++ mkSeg g sal (l1 ++ x :: l2) :: S2) →
  frame m X G D st st' → (∀ y, y ∈ (members S1 ++ l1) ++ l2 ++ members S2 → y ∉ D) →
  agenda_rep st' m (seg_keep S1 g sal (l1 ++ l2) S2) →
  wf_agenda strat st' m (seg_keep S1 g sal (l1 ++ l2) S2).
Proof.
  intros [Hrep Hne Hs] HF HD Hrep'.
  unfold nonempty in Hne. rewrite Forall_app, Forall_cons in Hne, Hs.
  destruct Hne as (Hn1 & _ & Hn2), Hs as (Hs1 & Hs & Hs2).
  assert (Hsorted : Forall (seg_sorted strat st) (seg_keep S1 g sal (l1 ++ l2) S2)).
  { unfold seg_keep. destruct (l1 ++ l2) eqn:Hl; rewrite Forall_app; [done|].
    rewrite Forall_cons. split_and!; [done| |done]. rewrite <- Hl.
    by eapply StronglySorted_drop_mid. }
  split; [done| |].
  - unfold nonempty, seg_keep. destruct (l1 ++ l2); rewrite Forall_app; [done|]. by rewrite Forall_cons.
  - rewrite Forall_forall in *. intros sg Hsg. eapply seg_sorted_frame; [exact HF| |by apply Hsorted].
    intros y Hy. assert (Hm : y ∈ members (seg_keep S1 g sal (l1 ++ l2) S2)) by (apply elem_of_members; eauto).
    rewrite members_keep, <- app_assoc, app_assoc in Hm. split; [by apply HD|].
    eapply rep_live; [exact Hrep|]. rewrite members_mid. simpl. set_solver.
Qed.

(** Freeing an activation and clearing the marker of its partial match. *)
Lemma free_frame m st x (f : gmap ptr PartialMatch → gmap ptr PartialMatch) :
  (∀ k, binds <$> f (matches st) !! k = binds <$> matches st !! k) →
  frame m [x] [] [x] st (with_acts (delete x) (with_matches f st)).
Proof.
  intros Hf. split; simpl; try done.
  - intros k a Hk Ha. exists a. rewrite lookup_delete_ne; [done|set_solver].
  - intros y Hy. rewrite lookup_delete_ne; [done|set_solver].
Qed.

Definition clear_marker (ul : bool) (b : ptr) (ms : gmap ptr PartialMatch) : gmap ptr PartialMatch :=
  if ul then alter (set_marker None) b ms else ms.

Lemma clear_marker_binds ul b ms k : binds <$> clear_marker ul b ms !! k = binds <$> ms !! k.
Proof.
  unfold clear_marker. destruct ul; [|done]. destruct (decide (b = k)) as [->|].
  - rewrite lookup_alter_eq. by destruct (ms !! k).
  - by rewrite lookup_alter_ne.
Qed.

(** The salience groups that [x] is the only member of. *)
Definition emptied (x : ptr) (segs : list Seg) : gset ptr :=
  list_to_set (g_addr <$> filter (fun sg => g_mem sg = [x]) segs).

Lemma emptied_notin x segs : x ∉ members segs → emptied x segs = ∅.
Proof.
  intros Hx. apply set_eq. intros y. unfold emptied. rewrite elem_of_list_to_set, list_elem_of_fmap.
  split; [|set_solver]. intros (sg & _ & [Hsg Hin]%list_elem_of_filter). exfalso. apply Hx, elem_of_members.
  exists sg. rewrite Hsg. set_solver.
Qed.

Lemma kept_emptied S1 g sal l1 x l2 S2 (D : gset ptr) :
  NoDup (members (S1 ++ mkSeg g sal (l1 ++ x :: l2) :: S2)) →
  kept_groups g (l1 ++ l2) D = D ∖ emptied x (S1 ++ mkSeg g sal (l1 ++ x :: l2) :: S2).
Proof.
  intros Hnd. rewrite members_mid in Hnd. simpl in Hnd.
  rewrite <- app_assoc in Hnd. simpl in Hnd. rewrite app_assoc, <- Permutation_middle in Hnd.
  apply NoDup_cons in Hnd as [Hx _].
  assert (He : emptied x (S1 ++ mkSeg g sal (l1 ++ x :: l2) :: S2) = emptied x [mkSeg g sal (l1 ++ x :: l2)]).
  { apply set_eq. intros y. change (mkSeg g sal (l1 ++ x :: l2) :: S2) with ([mkSeg g sal (l1 ++ x :: l2)] ++ S2).
    pose proof (emptied_notin x S1 ltac:(set_solver)) as H1. pose proof (emptied_notin x S2 ltac:(set_solver)) as H2.
    unfold emptied in *. rewrite !filter_app, !fmap_app, !list_to_set_app_L, H1, H2. set_solver. }
  rewrite He. unfold emptied, kept_groups. destruct (l1 ++ l2) as [|y l] eqn:Hl.
  - apply app_nil in Hl as [-> ->]. rewrite filter_cons_True by done. simpl. set_solver.
  - rewrite filter_cons_False; [simpl; set_solver|]. simpl. intros Heq. apply (f_equal length) in Heq, Hl.
    rewrite length_app in *. simpl in *. lia.
Qed.

Record removed (x b : ptr) (ul : bool) s AG m segs segs' s' : Prop := {
  rm_inv : system_inv s' (<[m := segs']> AG);
  rm_abs : abs segs' = spec_filter (except x) (abs segs);
  rm_acts : acts (store s') !! x = None;
  rm_frame : frame m (members segs) (g_addr <$> segs) [x] (store s) (store s');
  rm_rules : rules (store s') = rules (store s);
  rm_matches : matches (store s') = clear_marker ul b (matches (store s));
  rm_data : agendaData s' = mkAgendaData (wrap64u (NumberOfActivations (agendaData s) - 1))
  (CurrentTimetag (agendaData s)) true (SalienceEvaluation (agendaData s)) (strategy_of s);
  rm_engine : engineData s' = engineData s;
  rm_defmodule : defmoduleData s' = defmoduleData s;
  rm_live : dom (groups (store s')) = dom (groups (store s)) ∖ emptied x segs;
}.

(** An activation taken off its agenda, and then changed or freed. *)
Lemma off_inv s AG m segs x S1 g sal l1 l2 S2 s1 s' D :
  system_inv s AG → AG !! m = Some segs → segs = S1 ++ mkSeg g sal (l1 ++ x :: l2) :: S2 →
  off s m S1 g sal l1 x l2 S2 s1 →
  frame m [x] [] D (store s1) (store s') → (∀ y, y ∈ D → y = x) →
  modules (store s') !! m = modules (store s1) !! m →
  strategy_of s' = strategy_of s → CurrentTimetag (agendaData s') = CurrentTimetag (agendaData s) →
  let segs' := seg_keep S1 g sal (l1 ++ l2) S2 in
  system_inv s' (<[m := segs']> AG) ∧ abs segs' = spec_filter (except x) (abs segs) ∧ x ∉ members segs' ∧
  frame m (members segs) (g_addr <$> segs) D (store s) (store s').
Proof.
  intros Hinv Hm Hsegs [Hrep1 HF1 Hs1 _] HF2 HD Hmods Hstrat Htag segs'.
  pose proof (si_wf _ _ Hinv _ _ Hm) as Hwf. pose proof Hwf as [Hrep Hne _].
  assert (Hnd : NoDup (members segs)) by apply (rep_acts _ _ _ Hrep).
  assert (Hx : x ∉ (members S1 ++ l1) ++ l2 ++ members S2).
  { rewrite Hsegs, members_mid in Hnd. simpl in Hnd. rewrite <- app_assoc, app_assoc in Hnd. simpl in Hnd.
    rewrite <- Permutation_middle in Hnd. by apply NoDup_cons in Hnd as [? _]. }
  assert (Hmem' : members segs' = (members S1 ++ l1) ++ l2 ++ members S2)
    by (unfold segs'; by rewrite members_keep, <- !app_assoc).
  assert (HxD : ∀ y, y ∈ members segs' → y ∉ D).
  { intros y Hy HyD. apply Hx. rewrite Hmem' in Hy. by rewrite <- (HD y HyD). }
  assert (Hsub : ∀ y, y ∈ members segs' → y ∈ members segs).
  { intros y. rewrite Hmem', Hsegs, members_mid. simpl. set_solver. }
  assert (HF : frame m (members segs) (g_addr <$> segs) D (store s) (store s')).
  { eapply frame_weaken; [exact (frame_trans _ _ _ _ _ _ _ _ _ _ HF1 HF2)|..].
    - rewrite Hsegs, members_mid. simpl. set_solver.
    - rewrite Hsegs. set_solver.
    - set_solver. }
  assert (Hrep' : agenda_rep (store s') m segs').
  { eapply agenda_rep_frame; [exact HF2|exact Hmods|exact Hrep1| |set_solver].
    intros y Hy. split; [|by apply HxD]. intros ->%list_elem_of_singleton. by rewrite Hmem' in Hy. }
  split_and!; [| |by rewrite Hmem'|done].
  - eapply (system_step s s' AG m segs segs' (members segs) (g_addr <$> segs) D); try done.
    + intros y Hy. by left.
    + intros y k ks Hk Hks Hy. assert (y ∉ members segs) as Hn.
      { eapply rep_members_disjoint; [|exact Hrep|exact Hk|exact Hy]. apply (si_wf _ _ Hinv _ _ Hks). }
      split; [done|]. intros ->%HD. apply Hn. rewrite Hsegs, members_mid. simpl. set_solver.
    + rewrite Hstrat. unfold segs'. rewrite Hsegs in Hwf.
      eapply seg_keep_wf; [exact Hwf|exact HF| |exact Hrep']. rewrite <- Hmem'. exact HxD.
    + intros y Hy. left. rewrite Hsegs. unfold segs', seg_keep in Hy.
      destruct (l1 ++ l2); rewrite fmap_app in *; simpl in *; set_solver.
    + by rewrite Htag.
    + intros y ya Hy Hya. rewrite Htag.
      destruct (rep_live _ _ _ _ Hrep (Hsub y Hy)) as [y0 Hy0].
      destruct (frame_payloads _ _ _ _ _ _ HF y y0 (HxD y Hy) Hy0) as (y1 & Hy1 & Hp).
      rewrite Hya in Hy1. injection Hy1 as <-. simpl in Hp. injection Hp as _ _ _ -> _.
      by apply (si_tags _ _ Hinv _ _ _ _ Hm (Hsub y Hy)).
    + eapply tags_inj_frame; [exact HF|by apply (si_tags_inj _ _ Hinv m)|].
      intros y Hy. split; [by apply Hsub|]. split; [by apply HxD|].
      eapply rep_live; [exact Hrep|by apply Hsub].
  - unfold segs'. rewrite Hsegs. apply abs_seg_keep; by rewrite <- Hsegs.
Qed.

Lemma off_removed s AG m segs x a b ul S1 g sal l1 l2 S2 s1 s' :
  system_inv s AG → AG !! m = Some segs → segs = S1 ++ mkSeg g sal (l1 ++ x :: l2) :: S2 →
  basis a = Some b → off s m S1 g sal l1 x l2 S2 s1 →
  store s' = with_acts (delete x) (with_matches (clear_marker ul b) (store s1)) →
  agendaData s' = mkAgendaData (wrap64u (NumberOfActivations (agendaData s) - 1))
  (CurrentTimetag (agendaData s)) true (SalienceEvaluation (agendaData s)) (strategy_of s) →
  engineData s' = engineData s → defmoduleData s' = defmoduleData s →
  removed x b ul s AG m segs (seg_keep S1 g sal (l1 ++ l2) S2) s'.
Proof.
  intros Hinv Hm Hsegs Hb Hoff Hs' Hd He Hdm.
  destruct (off_inv s AG m segs x S1 g sal l1 l2 S2 s1 s' [x] Hinv Hm Hsegs Hoff) as (Hinv' & Habs & _ & HF).
  - rewrite Hs'. apply free_frame. intros k. apply clear_marker_binds.
  - by intros y ->%list_elem_of_singleton.
  - by rewrite Hs'.
  - unfold strategy_of at 1. by rewrite Hd.
  - by rewrite Hd.
  - pose proof (of_state _ _ _ _ _ _ _ _ _ _ Hoff) as Hs1.
    split; try done; rewrite Hs'; simpl; [by rewrite lookup_delete_eq|by rewrite Hs1|by rewrite Hs1|].
    rewrite (of_live _ _ _ _ _ _ _ _ _ _ Hoff), Hsegs. apply kept_emptied. rewrite <- Hsegs.
    apply (rep_acts _ _ _ (wa_rep _ _ _ _ (si_wf _ _ Hinv _ _ Hm))).
Qed.

Lemma RemoveActivation_system s AG m segs x ul :
  system_inv s AG → AG !! m = Some segs → x ∈ members segs →
  ∃ s' segs' a b, RemoveActivation x true ul s = Some (tt, s') ∧
  acts (store s) !! x = Some a ∧ basis a = Some b ∧
  removed x b ul s AG m segs segs' s'.
Proof.
  intros Hinv Hm Hx. pose proof (si_wf _ _ Hinv _ _ Hm) as Hwf.
  destruct (members_decompose _ _ Hx) as (S1 & g & sal & l1 & l2 & S2 & Hsegs).
  assert (∃ a r, acts (store s) !! x = Some a ∧ rules (store s) !! theRule a = Some r ∧
    whichModule r = m ∧ act_wf (store s) a) as (a & r & Ha & Hr & Hwm & Haw).
  { apply elem_of_members in Hx as (sg & Hsg & Hx).
    destruct (rep_act_in _ _ _ _ _ (wa_rep _ _ _ _ Hwf) Hsg Hx) as (a & r & ? & _ & ? & ? & ?). by exists a, r. }
  destruct Haw as (_ & b & pm & Hb & Hpm & _).
  pose proof (wa_rep _ _ _ _ Hwf) as Hrep. rewrite Hsegs in Hrep.
  destruct (take_off_spec s m S1 g sal l1 x l2 S2 Hrep) as (s1 & Hrun & Hoff).
  unfold RemoveActivation. mrun (load_act_Some s _ _ Ha). mrun (load_rule_Some s _ _ Hr). rewrite Hwm.
  pose proof (of_frame _ _ _ _ _ _ _ _ _ _ Hoff) as HF1. pose proof (of_state _ _ _ _ _ _ _ _ _ _ Hoff) as Hs1.
  assert (∃ a1, acts (store s1) !! x = Some a1 ∧ theRule a1 = theRule a) as (a1 & Ha1 & Hra1).
  { destruct (frame_payloads _ _ _ _ _ _ HF1 x a ltac:(set_solver) Ha) as (a1 & ? & Hp).
    exists a1. split; [done|]. simpl in Hp. by injection Hp. }
  assert (Hrules1 : rules (store s1) = rules (store s)) by by rewrite Hs1.
  assert (Hmatches1 : matches (store s1) = matches (store s)) by by rewrite Hs1.
  assert (Hw : prints (watch_activation "<== Activation " x) s1).
  { eapply watch_activation_prints; [exact Ha1|]. rewrite Hrules1, Hra1. exact Hr. }
  destruct (prints_run _ _ Hw) as [o Ho].
  set (s2 := with_agendaData (set_AgendaChanged true) (with_output (fun _ => o) s1)).
  erewrite (M_bind_Some _ _ s tt s2).
  2:{ simpl. rewrite <- M_bind_assoc. mrun Hrun. by mrun Ho. }
  cbn beta.
  set (s3 := with_store (with_matches (clear_marker ul b)) s2).
  erewrite (M_bind_Some _ _ s2 tt s3).
  2:{ rewrite Hb. unfold s3. destruct ul; simpl.
    - eapply update_match_Some. simpl. rewrite Hmatches1. exact Hpm.
    - unfold mret, M_ret, with_store, with_matches. by destruct s2 as [[]]. }
  cbn beta. erewrite M_bind_Some by reflexivity. cbn beta.
  erewrite M_bind_Some by reflexivity. cbn beta.
  unfold free_act. erewrite M_bind_Some by (apply load_act_Some; exact Ha1). cbn beta.
  eexists _, _, a, b. split; [reflexivity|]. split; [done|]. split; [done|].
  eapply off_removed; [exact Hinv|exact Hm|exact Hsegs|exact Hb|exact Hoff|done|..].
  - simpl. rewrite Hs1. done.
  - simpl. by rewrite Hs1.
  - simpl. by rewrite Hs1.
Qed.
End remove_system.

(** * Sweeping an agenda

    [RemoveAllActivations] empties the agenda of the current module and
    [ClearRuleFromAgenda] removes the activations of a rule and its disjuncts;
    both terminate, although they walk the list they unlink. *)

Section sweep.
Context {H E : Type} `{!Host H E}.
Implicit Types (s : Environment H E) (st : Store E) (r : Defrule E).

(** What is left when the activations with [keep x = false] are gone. *)
Record swept (keep : ptr → bool) s AG m segs segs' s' : Prop := {
  sw_inv : system_inv s' (<[m := segs']> AG);
  sw_abs : abs segs' = spec_filter keep (abs segs);
  sw_rules : rules (store s') = rules (store s);
  sw_modules k : k ≠ m → modules (store s') !! k = modules (store s) !! k;
  sw_acts x : x ∉ members segs → acts (store s') !! x = acts (store s) !! x;
  sw_gone x : x ∈ members segs → keep x = false → acts (store s') !! x = None;
  sw_tag : CurrentTimetag (agendaData s') = CurrentTimetag (agendaData s);
  sw_strategy : strategy_of s' = strategy_of s;
  sw_engine : engineData s' = engineData s;
  sw_defmodule : defmoduleData s' = defmoduleData s;
}.

Context (RS : gmap ptr (Defrule E)) (m : ptr) (doomed : Store E → ptr → bool) (body : ptr → MA H E unit).

(** The body removes the doomed activations; whether one is doomed depends
    on the rules and on its payload only. *)
Hypothesis doomed_stable : ∀ st st' x a a',
  rules st' = rules st → acts st !! x = Some a → acts st' !! x = Some a' →
  payload a' = payload a → doomed st' x = doomed st x.
Hypothesis body_spec : ∀ s AG segs x,
  rules (store s) = RS → system_inv s AG → AG !! m = Some segs → x ∈ members segs →
  body x s = (if doomed (store s) x then RemoveActivation x true true s else Some (tt, s)).

Lemma sweep_loop fuel s AG segs done rest :
  rules (store s) = RS → system_inv s AG → AG !! m = Some segs → members segs = done ++ rest → length rest ≤ fuel →
  ∃ s' segs', agenda_loop body fuel (hd_or rest None) s = Some (tt, s') ∧
  swept (fun x => bool_decide (x ∈ done) || negb (doomed (store s) x)) s AG m segs segs' s'.
Proof.
  revert s AG segs done rest. induction fuel as [|fuel IH]; intros s AG segs done rest HRS Hinv Hm Hmem Hlen.
  all: pose proof (si_wf _ _ Hinv _ _ Hm) as [Hrep Hne _].
  all: destruct rest as [|x rest]; [|simpl in Hlen; try lia].
  1,2: exists s, segs; split; [done|]; split; try done;
    [by rewrite insert_id| |];
    rewrite app_nil_r in Hmem; subst done.
  1,3: rewrite spec_filter_true; [done|by apply abs_nonempty|];
    intros x; rewrite firing_order_abs; intros Hx; by rewrite bool_decide_true.
  1,2: intros x Hx; by rewrite bool_decide_true.
  assert (Hx : x ∈ members segs) by (rewrite Hmem; set_solver).
  destruct (rep_live _ _ _ _ Hrep Hx) as [a Ha].
  pose proof (rep_acts _ _ _ Hrep) as Hd. rewrite Hmem in Hd.
  destruct (dll_mid _ _ _ _ _ Hd Ha) as [_ Hn]. simpl in Hn.
  assert (Hnd : x ∉ done ∧ x ∉ rest).
  { apply dll_NoDup in Hd. rewrite <- Permutation_middle in Hd.
    apply NoDup_cons in Hd as [Hd _]. set_solver. }
  simpl. mrun (load_act_Some s _ _ Ha). rewrite Hn.
  destruct (doomed (store s) x) eqn:Hdoom.
  - destruct (RemoveActivation_system s AG m segs x true Hinv Hm Hx)
      as (s1 & segs1 & a0 & b & Hrun & _ & _ & [Hinv1 Habs1 Hgone1 HF1 Hr1 _ Hd1 He1 Hdm1 _]).
    erewrite M_bind_Some by (rewrite (body_spec s AG segs x HRS Hinv Hm Hx), Hdoom; exact Hrun). cbn beta.
    assert (Hmem1 : members segs1 = done ++ rest).
    { rewrite <- firing_order_abs, Habs1, firing_order_filter, firing_order_abs, Hmem.
      rewrite filter_app, filter_cons_False by (unfold except; by intros Hb%bool_decide_unpack).
      rewrite !filter_true; [done|..]; unfold except; intros y Hy; apply bool_decide_eq_true; set_solver. }
    destruct (IH s1 (<[m := segs1]> AG) segs1 done rest) as (s' & segs' & Hrun' & [Hi Ha' Hr Hmo Hp Hg Ht Hst He Hdm]);
      [congruence|done|by rewrite lookup_insert_eq|done|lia|].
    assert (Hdoomed : ∀ y, y ∈ members segs → y ≠ x → doomed (store s1) y = doomed (store s) y).
    { intros y Hy Hyx. destruct (rep_live _ _ _ _ Hrep Hy) as [y0 Hy0].
      destruct (frame_payloads _ _ _ _ _ _ HF1 y y0) as (y1 & Hy1 & Hpy); [set_solver|done|].
      by eapply doomed_stable. }
    exists s', segs'. split; [done|]. split.
    + by rewrite insert_insert_eq in Hi.
    + rewrite Ha', Habs1, spec_filter_compose. apply spec_filter_ext. intros y.
      rewrite firing_order_abs. intros Hy. unfold except. case_bool_decide as Hyx; simpl.
      { by rewrite Hdoomed. }
      assert (y = x) as -> by (by destruct (decide (y = x))).
      rewrite Hdoom, bool_decide_false; [done|apply Hnd].
    + by rewrite Hr.
    + intros k Hk. rewrite Hmo by done. by apply (frame_modules _ _ _ _ _ _ HF1).
    + intros y Hy. rewrite Hp by (rewrite Hmem1; rewrite Hmem in Hy; set_solver).
      by apply (frame_acts _ _ _ _ _ _ HF1).
    + intros y Hy Hkeep. destruct (decide (y = x)) as [->|Hyx].
      * rewrite Hp; [done|]. rewrite Hmem1. set_solver.
      * apply Hg; [rewrite Hmem1; rewrite Hmem in Hy; set_solver|]. by rewrite Hdoomed.
    + rewrite Ht. by rewrite Hd1.
    + rewrite Hst. unfold strategy_of. by rewrite Hd1.
    + by rewrite He.
    + by rewrite Hdm.
  - erewrite M_bind_Some by (rewrite (body_spec s AG segs x HRS Hinv Hm Hx), Hdoom; reflexivity). cbn beta.
    destruct (IH s AG segs (done ++ [x]) rest) as (s' & segs' & Hrun' & [Hi Ha' Hr Hmo Hp Hg Ht Hst He Hdm]);
      [done|done|done|by rewrite <- app_assoc|lia|].
    assert (Hk : ∀ y, bool_decide (y ∈ done ++ [x]) || negb (doomed (store s) y) =
      bool_decide (y ∈ done) || negb (doomed (store s) y)).
    { intros y. destruct (decide (y = x)) as [->|Hyx].
      - by rewrite Hdoom, !orb_true_r.
      - f_equal. apply bool_decide_ext. set_solver. }
    exists s', segs'. split; [done|]. split; try done.
    + rewrite Ha'. apply spec_filter_ext. intros y _. apply Hk.
    + intros y Hy Hkeep. apply Hg; [done|]. by rewrite Hk.
Qed.
End sweep.

(** ** The two sweeps *)

Lemma spec_filter_false keep A : (∀ x, keep x = false) → spec_filter keep A = [].
Proof.
  intros Hk. induction A as [|[sal l] A IH]; simpl; [done|].
  assert (filter (fun x => keep x) l = []) as ->; [|done].
  induction l as [|y l IHl]; [done|]. rewrite filter_cons_False; [exact IHl|]. intros Hy. by rewrite Hk in Hy.
Qed.

Section sweeps.
Context {H E : Type} `{!Host H E}.
Implicit Types (s : Environment H E) (st : Store E) (r : Defrule E).

(** The fuel of the loops covers the agenda. *)
Lemma search_fuel_enough st m segs : agenda_rep st m segs → length (members segs) ≤ S (size (acts st)).
Proof. intros Hrep. pose proof (dll_size _ _ (rep_acts _ _ _ Hrep)). lia. Qed.

Lemma free_groups_nil fuel s : free_groups_loop fuel None s = Some (tt, s).
Proof. by destruct fuel. Qed.

Lemma RemoveAllActivations_sweep s AG m segs :
  system_inv s AG → AG !! m = Some segs → CurrentModule (defmoduleData s) = Some m →
  ∃ s', RemoveAllActivations s = Some (tt, s') ∧ swept (fun _ => false) s AG m segs [] s'.
Proof.
  intros Hinv Hm Hcur. pose proof (wa_rep _ _ _ _ (si_wf _ _ Hinv _ _ Hm)) as Hrep.
  destruct (rep_module _ _ _ Hrep) as (md & Hmd & _ & Hag).
  unfold RemoveAllActivations. erewrite M_bind_Some by reflexivity. cbn beta. rewrite Hcur.
  erewrite M_bind_Some by reflexivity. cbn beta. mrun (load_module_Some s _ _ Hmd). rewrite Hag.
  erewrite M_bind_Some by apply search_fuel_Some. cbn beta.
  destruct (sweep_loop (rules (store s)) m (fun _ _ => true) (fun p => RemoveActivation p true true)
    ltac:(done) ltac:(done) (S (size (acts (store s)))) s AG segs [] (members segs))
    as (s' & segs' & Hrun & [Hi Ha Hr Hmo Hp Hg Ht Hst He Hdm]); [done..|by apply search_fuel_enough with m|].
  erewrite M_bind_Some by exact Hrun. cbn beta.
  assert (Hnil : segs' = []).
  { assert (abs segs' = []) as Hn; [|by destruct segs'].
    rewrite Ha. apply spec_filter_false. intros x. by rewrite bool_decide_false by set_solver. }
  subst segs'. pose proof (wa_rep _ _ _ _ (si_wf _ _ Hi m [] ltac:(by rewrite lookup_insert_eq))) as Hrep'.
  destruct (rep_module _ _ _ Hrep') as (md' & Hmd' & Hg' & _).
  erewrite M_bind_Some by (eapply load_module_Some; exact Hmd'). cbn beta.
  erewrite M_bind_Some by apply group_fuel_Some. cbn beta. rewrite Hg'. simpl hd_or.
  rewrite free_groups_nil. exists s'. split; [done|]. split; try done.
Qed.

(** ** The disjuncts of a rule *)

Fixpoint rule_chain (rs : gmap ptr (Defrule E)) (o : option ptr) (l : list ptr) : Prop :=
  match l with
  | [] => o = None
  | x :: l' => o = Some x ∧ ∃ r, rs !! x = Some r ∧ rule_chain rs (disjunct r) l'
  end.

Lemma rule_chain_live rs o l x : rule_chain rs o l → x ∈ l → is_Some (rs !! x).
Proof.
  revert o. induction l as [|y l IH]; intros o; [set_solver|].
  intros (_ & r & Hr & Hc) [->|Hx]%elem_of_cons; [eauto|]. by eapply IH.
Qed.
Lemma rule_chain_size rs o l : rule_chain rs o l → NoDup l → length l ≤ size rs.
Proof.
  intros Hc Hnd. assert (Hsub : list_to_set (C := gset ptr) l ⊆ dom rs).
  { intros x Hx%elem_of_list_to_set. apply elem_of_dom. by eapply rule_chain_live. }
  apply subseteq_size in Hsub. by rewrite size_list_to_set, size_dom in Hsub.
Qed.

Lemma is_disjunct_spec fuel s o l x :
  rule_chain (rules (store s)) o l → length l ≤ fuel →
  is_disjunct fuel o x s = Some (bool_decide (x ∈ l), s).
Proof.
  revert o l. induction fuel as [|fuel IH]; intros o [|y l] Hc Hf.
  1,3: simpl in Hc; subst o; done.
  { simpl in Hf. lia. }
  destruct Hc as (-> & r & Hr & Hc). simpl. case_decide as Hxy.
  { rewrite bool_decide_true by set_solver. done. }
  mrun (load_rule_Some s _ _ Hr). simpl in Hf. rewrite (IH _ l) by (done || lia).
  do 2 f_equal. apply bool_decide_ext. set_solver.
Qed.

(** Whether an activation is of a rule of the chain. *)
Definition of_chain (chain : list ptr) st (x : ptr) : bool :=
  match acts st !! x with Some a => bool_decide (theRule a ∈ chain) | None => false end.

Lemma clear_rule_body_spec R chain m s AG segs x :
  rule_chain (rules (store s)) (Some R) chain → NoDup chain →
  system_inv s AG → AG !! m = Some segs → x ∈ members segs →
  clear_rule_body R x s = if of_chain chain (store s) x then RemoveActivation x true true s else Some (tt, s).
Proof.
  intros Hc Hnd Hinv Hm Hx.
  destruct (rep_live _ _ _ _ (wa_rep _ _ _ _ (si_wf _ _ Hinv _ _ Hm)) Hx) as [a Ha].
  unfold clear_rule_body, of_chain. mrun (load_act_Some s _ _ Ha). rewrite Ha.
  erewrite M_bind_Some by reflexivity. cbn beta.
  erewrite M_bind_Some.
  2:{ apply is_disjunct_spec; [exact Hc|]. pose proof (rule_chain_size _ _ _ Hc Hnd). lia. }
  cbn beta. by case_bool_decide.
Qed.

Lemma of_chain_stable chain st st' x a a' :
  rules st' = rules st → acts st !! x = Some a → acts st' !! x = Some a' →
  payload a' = payload a → of_chain chain st' x = of_chain chain st x.
Proof. intros _ Ha Ha' Hp. unfold of_chain. rewrite Ha, Ha'. simpl in Hp. by injection Hp as -> _. Qed.

Lemma ClearRuleFromAgenda_sweep s AG segs R r chain :
  system_inv s AG → rules (store s) !! R = Some r → AG !! whichModule r = Some segs →
  rule_chain (rules (store s)) (Some R) chain → NoDup chain →
  ∃ s' segs', ClearRuleFromAgenda R s = Some (tt, s') ∧
  swept (fun x => negb (of_chain chain (store s) x)) s AG (whichModule r) segs segs' s'.
Proof.
  intros Hinv Hr Hm Hc Hnd. set (m := whichModule r) in *.
  pose proof (wa_rep _ _ _ _ (si_wf _ _ Hinv _ _ Hm)) as Hrep.
  destruct (rep_module _ _ _ Hrep) as (md & Hmd & _ & Hag).
  unfold ClearRuleFromAgenda. mrun (load_rule_Some s _ _ Hr). mrun (load_module_Some s _ _ Hmd).
  erewrite M_bind_Some by apply search_fuel_Some. cbn beta. rewrite Hag.
  destruct (@sweep_loop H E (rules (store s)) m (of_chain chain) (clear_rule_body R) (of_chain_stable chain))
    with (s := s) (fuel := S (size (acts (store s)))) (AG := AG) (segs := segs) (done := @nil ptr)
    (rest := members segs) as (s' & segs' & Hrun & [Hi Ha Hr' Hmo Hp Hg Ht Hst He Hdm]); try done.
  { intros s0 AG0 segs0 x HRS Hi Hm0 Hx. eapply clear_rule_body_spec; try done. by rewrite HRS. }
  { by apply search_fuel_enough with m. }
  exists s', segs'. split; [done|]. split; try done.
Qed.
End sweeps.
