(* ===== verification/AgendaWitness.v ===== *)
(** * A concrete agenda

    A small store that satisfies the invariant, on which the theorems about
    the agenda are applied: two activations of module [MAIN], of saliences 10
    and 0, and a third rule whose partial match has no activation yet. *)
From S2P Require Import Prelude DList Values AgendaState Strategy StrategyProofs AgendaRep PlaceProofs.
From S2P Require Import Focus Agenda AgendaProofs SystemInv AddProofs.
From Stdlib Require Import Sorting.Sorted.

(** A host whose salience expressions are integer constants. *)
#[export] Instance const_host : Host Z Z := {
  rand h := (h, (h + 1)%Z);
  EvaluateSalienceExpression e h := (false, mkUDFValue (VInteger e) 0 0, h);
}.

Definition g_rule {E} (name : string) (sal : Z) (dyn : option E) (auto : bool) (m : ptr) (d : option ptr) : Defrule E :=
  mkDefrule name 1%positive sal 4 true auto dyn [[m]] true d.
Abbreviation w_rule := (g_rule (E := Z)).
Definition w_match (t : Z) (mk : option ptr) : PartialMatch :=
  mkPartialMatch [Some (mkAlphaMatch (Some (mkPatternEntity t)))] mk.

Definition w_acts : gmap ptr Activation := list_to_map [
  (1%positive, mkActivation 1 (Some 1%positive) 10 2 5 None (Some 2%positive));
  (2%positive, mkActivation 2 (Some 2%positive) 0 1 7 (Some 1%positive) None)].
Definition w_groups : gmap ptr SalienceGroup := list_to_map [
  (1%positive, mkSalienceGroup 10 (Some 1%positive) (Some 1%positive) (Some 2%positive) None);
  (2%positive, mkSalienceGroup 0 (Some 2%positive) (Some 2%positive) None (Some 1%positive))].
Definition w_modules : gmap ptr DefruleModule := list_to_map [
  (1%positive, mkDefruleModule "MAIN" (Some 1%positive) (Some 1%positive))].
(** The salience expression of the second rule is [const 20]. *)
Definition g_rules {E} (const : Z → E) : gmap ptr (Defrule E) := list_to_map [
  (1%positive, g_rule "r1" 10 None false 1 None);
  (2%positive, g_rule "r2" 0 (Some (const 20%Z)) false 2 None);
  (3%positive, g_rule "r3" 10 None true 3 None)].
Definition w_matches : gmap ptr PartialMatch := list_to_map [
  (1%positive, w_match 11 (Some 1%positive)); (2%positive, w_match 12 (Some 2%positive));
  (3%positive, w_match 13 None)].

Definition g_env {E} (const : Z → E) : Environment Z E := mkEnvironment
  (mkStore w_acts w_groups w_modules (g_rules const) w_matches)
  (mkAgendaData 2 3 false WHEN_DEFINED DEPTH_STRATEGY)
  (mkEngineData [1%positive] false true)
  (mkDefmoduleData [1%positive] (Some 1%positive) false 0 [])
  (mkFlags false false false false false) [] 0%Z.
Definition w_env : Environment Z Z := g_env id.
Definition w_segs : list Seg := [mkSeg 1 10 [1%positive]; mkSeg 2 0 [2%positive]].
Definition w_AG : gmap ptr (list Seg) := {[ 1%positive := w_segs ]}.

Lemma w_lookup m segs : w_AG !! m = Some segs → m = 1%positive ∧ segs = w_segs.
Proof. unfold w_AG. by intros [<- <-]%lookup_singleton_Some. Qed.

Lemma g_act_in {E} (const : Z → E) x sal :
  (x = 1%positive ∧ sal = 10%Z) ∨ (x = 2%positive ∧ sal = 0%Z) → act_in (store (g_env const)) 1 sal x.
Proof.
  intros [[-> ->]|[-> ->]]; eexists _, _; (split; [reflexivity|]); (split; [reflexivity|]);
    (split; [reflexivity|]); (split; [reflexivity|]); split; (try by eexists);
    (eexists _, _; split; [reflexivity|split; [reflexivity|split; [cbn; lia|]]]); simpl;
    repeat constructor; intros al e Hal He; simplify_eq/=; lia.
Qed.

Lemma g_rep {E} (const : Z → E) : agenda_rep (store (g_env const)) 1 w_segs.
Proof.
  eapply agenda_rep_intro; [reflexivity|reflexivity|reflexivity|..].
  - split; [split; [apply (bool_decide_unpack _); reflexivity|]|].
    + eexists; split; [reflexivity|]. split; [done|]. split; [done|].
      eexists; split; [reflexivity|]. done.
    + intros sg [->|[->|[]%elem_of_nil]%elem_of_cons]%elem_of_cons; by eexists.
  - split; [apply (bool_decide_unpack _); reflexivity|].
    eexists; split; [reflexivity|]. split; [done|]. split; [done|].
    eexists; split; [reflexivity|]. done.
  - intros sg x [->|[->|[]%elem_of_nil]%elem_of_cons]%elem_of_cons;
      intros ->%list_elem_of_singleton; apply (g_act_in const); auto.
  - repeat constructor; lia.
Qed.

Lemma g_wf {E} (const : Z → E) strat : wf_agenda strat (store (g_env const)) 1 w_segs.
Proof. split; [apply (g_rep const)|repeat constructor; done|repeat constructor]. Qed.

Lemma w_members x : x ∈ members w_segs → x = 1%positive ∨ x = 2%positive.
Proof. unfold w_segs, members. simpl. set_solver. Qed.

Lemma g_tags_inj {E} (const : Z → E) : tags_inj (store (g_env const)) (members w_segs).
Proof.
  intros x y a b [->| ->]%w_members [->| ->]%w_members Ha Hb; vm_compute in Ha, Hb; simplify_eq; done.
Qed.

Lemma g_inv {E} (const : Z → E) : system_inv (g_env const) w_AG.
Proof.
  split.
  - intros m segs [-> ->]%w_lookup. apply (g_wf const).
  - intros m1 m2 segs1 segs2 x [-> ->]%w_lookup [-> ->]%w_lookup. done.
  - intros m segs x a [-> ->]%w_lookup [->| ->]%w_members Ha; vm_compute in Ha; by simplify_eq.
  - intros m segs [-> ->]%w_lookup. apply (g_tags_inj const).
Qed.

Lemma w_match_wf t mk : (0 < t)%Z → match_wf (w_match t mk).
Proof.
  intros Ht. split; [cbn; lia|]. repeat constructor. intros al e Hal He. by simplify_eq/=.
Qed.

Lemma g_focus {E} (const : Z → E) : focus_ok (g_env const).
Proof. intros f ->%list_elem_of_singleton. by eexists. Qed.
Lemma g_timetag {E} (const : Z → E) : timetag_ok (g_env const).
Proof. split; [done|]. by vm_compute. Qed.
Lemma g_listed {E} (const : Z → E) : listed_live (g_env const).
Proof. intros f ->%list_elem_of_singleton. by eexists. Qed.

Definition w_rep : agenda_rep (store w_env) 1 w_segs := g_rep id.
Definition w_wf strat : wf_agenda strat (store w_env) 1 w_segs := g_wf id strat.
Definition w_tags_inj : tags_inj (store w_env) (members w_segs) := g_tags_inj id.
Definition w_inv : system_inv w_env w_AG := g_inv id.
Definition w_focus : focus_ok w_env := g_focus id.
Definition w_timetag : timetag_ok w_env := g_timetag id.
Definition w_listed : listed_live w_env := g_listed id.
