(* ===== verification/ReorderSystem.v ===== *)
(** * Reordering an agenda

    [ReorderAgenda] rebuilds an agenda whose activations may be in any order
    and have any salience: the result is the one the abstract insertions give,
    sorted by salience and by the current strategy.

    Then all agendas, the strategy and the saliences. *)
From Stdlib Require Import Sorting.Sorted.
From S2P Require Import Prelude Values DList AgendaState Strategy StrategyProofs AgendaRep PlaceProofs.
From S2P Require Import Focus Agenda AgendaProofs SystemInv AddProofs.
(** Placing the activations of a list one by one. *)
Definition spec_reorder (key : ptr → list Z) (sal : ptr → Z) (L : list ptr) A :=
  foldl (fun A x => spec_place key (sal x) x A) A L.

Lemma spec_reorder_perm key sal L A :
  firing_order (spec_reorder key sal L A) ≡ₚ L ++ firing_order A.
Proof.
  revert A. induction L as [|x L IH]; intros A; [done|]. unfold spec_reorder in *. simpl.
  rewrite IH, spec_place_perm. by rewrite Permutation_middle.
Qed.

Lemma spec_reorder_ext key key' sal sal' L A :
  (∀ x, x ∈ L ∨ x ∈ firing_order A → key x = key' x) → (∀ x, x ∈ L → sal x = sal' x) →
  spec_reorder key sal L A = spec_reorder key' sal' L A.
Proof.
  unfold spec_reorder. revert A. induction L as [|x L IH]; intros A Hk Hs; [done|]. simpl.
  rewrite (spec_place_ext key key'), Hs by (unfold firing_order in *; set_solver).
  apply IH; [|set_solver]. intros y. rewrite spec_place_perm. set_solver.
Qed.

Section reorder.
Context {H E : Type}.
Implicit Types (s : Environment H E) (st : Store E).

(** ** Freeing the groups *)

Definition free_all (G : list ptr) (gs : gmap ptr SalienceGroup) : gmap ptr SalienceGroup :=
  foldl (fun gs g => delete g gs) gs G.

Lemma free_all_lookup G gs y : free_all G gs !! y = if decide (y ∈ G) then None else gs !! y.
Proof.
  unfold free_all. revert gs. induction G as [|g G IH]; intros gs; simpl; [done|].
  rewrite IH. destruct (decide (y = g)) as [->|Hyg].
  - rewrite lookup_delete_eq, (decide_True (P := g ∈ g :: G)) by set_solver. by case_decide.
  - rewrite lookup_delete_ne by done. apply decide_ext. set_solver.
Qed.

Lemma free_groups_spec fuel s p G :
  NoDup G → dseg (groups (store s)) p G None → length G ≤ fuel →
  free_groups_loop fuel (hd_or G None) s = Some (tt, with_store (with_groups (free_all G)) s).
Proof.
  revert s p G. induction fuel as [|fuel IH]; intros s p [|g G] Hnd Hd Hf.
  1,3: simpl; unfold with_store, with_groups; simpl; by destruct s as [[]].
  { simpl in Hf. lia. }
  apply NoDup_cons in Hnd as [Hg Hnd]. destruct Hd as (gr & Hgr & _ & Hn & Hd). simpl in Hn.
  simpl. mrun (load_group_Some s _ _ Hgr). rewrite Hn.
  unfold free_group. erewrite M_bind_Some by (by mrun (load_group_Some s _ _ Hgr)). cbn beta.
  rewrite (IH _ (Some g) G); [done|done| |simpl in Hf; lia].
  simpl. by apply dseg_delete_notin.
Qed.

(** ** The loop *)

Lemma salience_at_frame m X G D st st' x :
  frame m X G D st st' → x ∉ D → is_Some (acts st !! x) → salience_at st' x = salience_at st x.
Proof.
  intros HF HD [a Ha]. destruct (frame_payloads _ _ _ _ _ _ HF _ _ HD Ha) as (a' & Ha' & Hp).
  unfold salience_at. rewrite Ha, Ha'. simpl in Hp. by injection Hp.
Qed.

(** The activations still to be placed: a list segment outside the agenda. *)
Record pending st (m : ptr) (placed rest : list ptr) : Prop := {
  pe_nodup : NoDup rest;
  pe_disjoint x : x ∈ rest → x ∉ placed;
  pe_seg : ∃ p, dseg (acts st) p rest None;
  pe_in x : x ∈ rest → act_in st m (salience_at st x) x;
  pe_tags : tags_inj st (placed ++ rest);
}.

Lemma act_in_live st m sal x : act_in st m sal x → is_Some (acts st !! x).
Proof. intros (a & _ & Ha & _). eauto. Qed.

(** The pending part after one of them was placed. *)
Lemma pending_step st st' m placed placed' x rest X G :
  pending st m placed (x :: rest) → frame m X G [] st st' →
  (∀ y, y ∈ rest → acts st' !! y = acts st !! y) → placed' ≡ₚ x :: placed →
  (∀ y, y ∈ placed → is_Some (acts st !! y)) →
  pending st' m placed' rest.
Proof.
  intros [[Hx Hnd]%NoDup_cons Hdis [p Hd] Hin Htags] HF Hsame Hperm Hlive.
  destruct Hd as (a & Ha & _ & _ & Hd). split; [done|..].
  - intros y Hy. rewrite Hperm. specialize (Hdis y). set_solver.
  - exists (Some x). eapply dseg_ext; [|exact Hd]. done.
  - intros y Hy. assert (Hiny : act_in st m (salience_at st y) y) by (apply Hin; set_solver).
    rewrite (salience_at_frame _ _ _ _ _ _ _ HF); [|set_solver|by eapply act_in_live].
    eapply act_in_frame; [exact HF|set_solver|done].
  - eapply tags_inj_frame; [exact HF|exact Htags|]. intros y. rewrite Hperm.
    intros [[->|Hy]%elem_of_cons|Hy]%elem_of_app; (split; [set_solver|split; [set_solver|]]).
    + by eexists.
    + by apply Hlive.
    + eapply act_in_live. apply Hin. set_solver.
Qed.

(** What a run of the loop guarantees. *)
Record reordered strat (m : ptr) segs rest s segs' s' : Prop := {
  ro_wf : wf_agenda strat (store s') m segs';
  ro_abs : abs segs' = spec_reorder (key_at strat (store s)) (salience_at (store s)) rest (abs segs);
  ro_frame : ∃ G, frame m (members segs ++ rest) G [] (store s) (store s') ∧
  own_or_new (store s) segs G;
  ro_addr x : x ∈ g_addr <$> segs' → x ∈ g_addr <$> segs ∨ groups (store s) !! x = None;
  ro_state : ∃ b, s' = with_agendaData (set_AgendaChanged b)
  (with_store (fun st => relinked_store st (store s')) s);
}.

(** Resetting the links of a pending activation touches nothing else. *)
Lemma reset_frame st m x a b :
  acts st !! x = Some a → payload b = payload a → frame m [x] [] [] st (with_acts <[x := b]> st).
Proof.
  intros Ha Hb. split; simpl; try done.
  - intros k c _ Hc. destruct (decide (k = x)) as [->|Hk].
    + exists b. rewrite lookup_insert_eq. split; [done|]. rewrite Ha in Hc. by injection Hc as <-.
    + exists c. by rewrite lookup_insert_ne.
  - intros y Hy. rewrite lookup_insert_ne; [done|set_solver].
Qed.

Lemma wf_agenda_reset strat st m segs x a b :
  wf_agenda strat st m segs → acts st !! x = Some a → payload b = payload a → x ∉ members segs →
  wf_agenda strat (with_acts <[x := b]> st) m segs.
Proof.
  intros Hwf Ha Hb Hx. eapply wf_agenda_frame; [exact (reset_frame st m x a b Ha Hb)|done|exact Hwf|..].
  - intros y Hy. split; [|set_solver]. intros ->%list_elem_of_singleton. done.
  - set_solver.
Qed.

(** One iteration. *)
Lemma reorder_body_spec s m segs x rest :
  let strat := strategy_of s in
  wf_agenda strat (store s) m segs → pending (store s) m (members segs) (x :: rest) →
  ∃ s' segs', reorder_body m x s = Some (tt, s') ∧ reordered strat m segs [x] s segs' s' ∧
  pending (store s') m (members segs') rest.
Proof.
  intros strat Hwf Hp. pose proof Hp as [Hnd Hdis [p Hd] Hin Htags].
  destruct Hd as (a & Ha & _ & _ & Hd). apply NoDup_cons in Hnd as [Hx Hnd].
  set (a1 := set_act_prev None (set_act_next None a)).
  set (s1 := with_store (with_acts <[x := a1]>) s).
  assert (HF1 : frame m [x] [] [] (store s) (store s1)) by by eapply reset_frame.
  assert (Hxm : x ∉ members segs) by (apply Hdis; set_solver).
  assert (Hwf1 : wf_agenda strat (store s1) m segs) by by eapply wf_agenda_reset.
  assert (Hinx : act_in (store s) m (salience_at (store s) x) x) by (apply Hin; set_solver).
  assert (Hsal : salience_at (store s) x = act_salience a) by (unfold salience_at; by rewrite Ha).
  assert (Ha1 : acts (store s1) !! x = Some a1) by apply lookup_insert_eq.
  assert (Hlive : ∀ y, y ∈ members segs → is_Some (acts (store s) !! y)).
  { intros y Hy. eapply rep_live; [apply (wa_rep _ _ _ _ Hwf)|done]. }
  assert (Hkey1 : ∀ y, is_Some (acts (store s) !! y) → key_at strat (store s1) y = key_at strat (store s) y).
  { intros y Hy. eapply key_at_frame; [exact HF1|set_solver|done]. }
  destruct (place_on_agenda_spec s1 m x a1 (act_salience a) segs)
    as (s2 & segs' & G & Hrun & Hwf2 & Habs & HF2 & HG & Haddr & Hs2); [exact Hwf1|exact Ha1| |done|done|..].
  { rewrite <- Hsal. eapply act_in_frame; [exact HF1|set_solver|done]. }
  { change (Strategy (agendaData s1)) with strat. intros y Hy. rewrite !Hkey1 by eauto.
    destruct (Hlive y Hy) as [ya Hya]. unfold key_at. rewrite Ha, Hya.
    intros Heq%strategy_key_timetag. apply Hxm.
    rewrite <- (Htags y x ya a); [done|set_solver|set_solver|done|done|done]. }
  change (Strategy (agendaData s1)) with strat in *.
  exists s2, segs'. split; [|split].
  - unfold reorder_body. mrun (load_act_Some s _ _ Ha).
    erewrite M_bind_Some by (eapply update_act_Some; exact Ha). cbn beta.
    erewrite M_bind_Some by (eapply update_act_Some; simpl; by rewrite lookup_alter_eq, Ha).
    cbn beta. rewrite <- Hrun. unfold place_on_agenda. f_equal.
    unfold s1, with_store, with_acts. simpl. do 2 f_equal.
    by rewrite (alter_as_insert _ _ _ _ Ha), alter_insert_eq.
  - pose proof (frame_trans _ _ _ _ _ _ _ _ _ _ HF1 HF2) as HF. split.
    + exact Hwf2.
    + rewrite Habs. unfold spec_reorder. simpl. rewrite Hsal. apply spec_place_ext.
      intros y Hy. apply Hkey1. destruct Hy as [->|Hy]; [by eexists|]. apply Hlive.
      rewrite <- firing_order_abs. exact Hy.
    + exists G. split; [|exact HG]. eapply frame_weaken; [exact HF|set_solver..].
    + exact Haddr.
    + exists true. rewrite Hs2 at 1. done.
  - pose proof (frame_trans _ _ _ _ _ _ _ _ _ _ HF1 HF2) as HF.
    eapply pending_step; [exact Hp|exact HF| | |exact Hlive].
    + intros y Hy. assert (y ≠ x) by (intros ->; done).
      rewrite (frame_acts _ _ _ _ _ _ HF); [done|].
      assert (y ∉ members segs) by (apply Hdis; set_solver). set_solver.
    + rewrite <- firing_order_abs, Habs, spec_place_perm. by rewrite firing_order_abs.
Qed.

Lemma reorder_loop_spec fuel s m segs rest :
  let strat := strategy_of s in
  wf_agenda strat (store s) m segs → pending (store s) m (members segs) rest → length rest ≤ fuel →
  ∃ s' segs', agenda_loop (reorder_body m) fuel (hd_or rest None) s = Some (tt, s') ∧
  reordered strat m segs rest s segs' s'.
Proof.
  revert s segs rest. induction fuel as [|fuel IH]; intros s segs [|x rest] strat Hwf Hp Hf.
  1,3: exists s, segs; split; [done|]; split; [done|done| |by left|];
    [exists []; split; [apply frame_refl|intros y; set_solver]
    |exists (AgendaChanged (agendaData s)); by destruct s as [[] []]].
  { simpl in Hf. lia. }
  destruct (reorder_body_spec s m segs x rest Hwf Hp) as (s1 & segs1 & Hrun & [Hwf1 Habs1 (G1 & HF1 & HG1) Had1 [b1 Hs1]] & Hp1).
  fold strat in Hwf1, Habs1. destruct (pe_seg _ _ _ _ Hp) as (p & a & Ha & _ & Hn & _). simpl in Hn.
  simpl. mrun (load_act_Some s _ _ Ha). rewrite Hn. mrun Hrun.
  assert (Hstrat1 : strategy_of s1 = strat) by (unfold strategy_of; by rewrite Hs1).
  destruct (IH s1 segs1 rest) as (s' & segs' & Hrun' & [Hwf' Habs' (G & HF & HG) Had [b Hs']]);
    [by rewrite Hstrat1|done|simpl in Hf; lia|].
  rewrite Hstrat1 in Hwf', Habs'. exists s', segs'. split; [done|].
  assert (Hmem1 : members segs1 ≡ₚ x :: members segs).
  { rewrite <- !firing_order_abs, Habs1, spec_reorder_perm. done. }
  assert (Hlive : ∀ y, y ∈ members segs ∨ y ∈ x :: rest → is_Some (acts (store s) !! y)).
  { intros y [Hy|Hy]; [eapply rep_live; [apply (wa_rep _ _ _ _ Hwf)|done]|].
    eapply act_in_live. by apply (pe_in _ _ _ _ Hp). }
  split; [done|..].
  - rewrite Habs', Habs1. unfold spec_reorder at 3. simpl.
    change (foldl _ ?A rest) with (spec_reorder (key_at strat (store s)) (salience_at (store s)) rest A).
    apply spec_reorder_ext.
    + intros y Hy. eapply key_at_frame; [exact HF1|set_solver|]. apply Hlive.
      destruct Hy as [Hy|Hy]; [set_solver|]. unfold spec_reorder in Hy. simpl in Hy.
      rewrite spec_place_perm, firing_order_abs in Hy. set_solver.
    + intros y Hy. eapply salience_at_frame; [exact HF1|set_solver|]. apply Hlive. set_solver.
  - exists (G1 ++ G). split.
    + eapply frame_weaken; [exact (frame_trans _ _ _ _ _ _ _ _ _ _ HF1 HF)|..]; [|set_solver|set_solver].
      intros y. rewrite !elem_of_app, Hmem1. set_solver.
    + intros y [Hy|Hy]%elem_of_app; [by apply HG1|].
      destruct (HG y Hy) as [Hy1|Hy1]; [by apply Had1|].
      destruct (decide (y ∈ G1)) as [?|Hn1]; [by apply HG1|]. right.
      by rewrite <- (frame_groups _ _ _ _ _ _ HF1).
  - intros y Hy. destruct (Had y Hy) as [Hy1|Hy1]; [by apply Had1|].
    destruct (decide (y ∈ G1)) as [?|Hn1]; [by apply HG1|]. right.
    by rewrite <- (frame_groups _ _ _ _ _ _ HF1).
  - exists b. rewrite Hs' at 1. rewrite Hs1 at 1. done.
Qed.
End reorder.

(** * Reordering all agendas, changing the strategy, refreshing saliences *)

Section reorder_system.
Context {H E : Type}.
Implicit Types (s : Environment H E) (st : Store E).

(** A module whose activations [L] may be in any order and whose groups [G]
    may describe anything. *)
Record loose st (m : ptr) (G L : list ptr) : Prop := {
  lo_module : ∃ md, modules st !! m = Some md ∧ groupings md = hd_or G None ∧ agenda md = hd_or L None;
  lo_groups : dll (groups st) G;
  lo_acts : dll (acts st) L;
  lo_in x : x ∈ L → act_in st m (salience_at st x) x;
  lo_tags : tags_inj st L;
}.

Lemma wf_agenda_loose strat st m segs :
  wf_agenda strat st m segs → tags_inj st (members segs) → loose st m (g_addr <$> segs) (members segs).
Proof.
  intros [Hrep _ _] Htags. split; [|apply Hrep|apply Hrep| |done].
  - destruct (rep_module _ _ _ Hrep) as (md & ? & ? & ?). by exists md.
  - intros x (sg & Hsg & Hx)%elem_of_members. pose proof (rep_act_in _ _ _ _ _ Hrep Hsg Hx) as Hin.
    by rewrite (act_in_salience _ _ _ _ Hin).
Qed.

(** What [ReorderAgenda] does to a loose agenda. *)
Record rebuilt s (m : ptr) (G L : list ptr) segs' s' : Prop := {
  rb_wf : wf_agenda (strategy_of s) (store s') m segs';
  rb_abs : abs segs' = spec_reorder (key_at (strategy_of s) (store s)) (salience_at (store s)) L [];
  rb_frame : ∃ G', frame m L G' [] (store s) (store s') ∧
  ∀ x, x ∈ G' → x ∈ G ∨ groups (store s) !! x = None;
  rb_addr x : x ∈ g_addr <$> segs' → x ∈ G ∨ groups (store s) !! x = None;
  rb_state : ∃ b, s' = with_agendaData (set_AgendaChanged b)
  (with_store (fun st => relinked_store st (store s')) s);
}.

Lemma ReorderAgenda_loose s m G L :
  loose (store s) m G L → ∃ s' segs', ReorderAgenda m s = Some (tt, s') ∧ rebuilt s m G L segs' s'.
Proof.
  intros [(md & Hmd & Hg & Ha) HG HL Hin Htags].
  unfold ReorderAgenda. mrun (load_module_Some s _ _ Hmd).
  erewrite M_bind_Some by (eapply update_module_Some; exact Hmd). cbn beta.
  erewrite M_bind_Some by apply group_fuel_Some. cbn beta. rewrite Hg.
  erewrite M_bind_Some.
  2:{ apply (free_groups_spec _ _ None); [apply HG|apply HG|].
    simpl. pose proof (dll_size _ _ HG). lia. }
  cbn beta. erewrite M_bind_Some.
  2:{ eapply update_module_Some. simpl. by rewrite lookup_alter_eq, Hmd. }
  cbn beta. erewrite M_bind_Some by apply search_fuel_Some. cbn beta.
  set (s1 := with_store _ (with_store _ (with_store _ s))).
  set (md1 := mkDefruleModule (module_name md) None None).
  assert (Hmd1 : modules (store s1) !! m = Some md1) by (simpl; by rewrite !lookup_alter_eq, Hmd).
  assert (Hacts1 : acts (store s1) = acts (store s)) by done.
  assert (HF1 : frame m [] G [] (store s) (store s1)).
  { split; simpl; try done; [naive_solver| |].
    - intros x Hx. by rewrite free_all_lookup, decide_False.
    - intros k Hk. by rewrite !lookup_alter_ne. }
  assert (Hwf1 : wf_agenda (strategy_of s) (store s1) m []).
  { split; [|constructor|constructor]. split.
    - exists md1. done.
    - apply dll_nil.
    - apply dll_nil.
    - constructor.
    - constructor. }
  assert (Hp1 : pending (store s1) m (members []) L).
  { split; [apply HL|set_solver|exists None; apply HL| |done].
    intros x Hx. eapply act_in_frame; [exact HF1|set_solver|]. by apply Hin. }
  destruct (reorder_loop_spec (S (size (acts (store s1)))) s1 m [] L) as (s' & segs' & Hrun & [Hwf Habs (G' & HF & HG') Had [b Hs']]);
    [done|done|pose proof (dll_size _ _ HL); rewrite Hacts1; lia|].
  rewrite Ha. exists s', segs'. split; [exact Hrun|].
  assert (Hnew : ∀ x, x ∈ g_addr <$> [] ∨ groups (store s1) !! x = None → x ∈ G ∨ groups (store s) !! x = None).
  { intros x [Hx|Hx]; [set_solver|]. simpl in Hx. rewrite free_all_lookup in Hx. case_decide; auto. }
  split; [exact Hwf|exact Habs| | |].
  - exists (G ++ G'). split.
    + eapply frame_weaken; [exact (frame_trans _ _ _ _ _ _ _ _ _ _ HF1 HF)|set_solver..].
    + intros x [Hx|Hx]%elem_of_app; [by left|]. by apply Hnew, HG'.
  - intros x Hx. by apply Hnew, Had.
  - exists b. rewrite Hs' at 1. done.
Qed.

(** A rebuilt agenda is in order and has the same activations. *)
Lemma rebuilt_perm s m G L segs' s' : rebuilt s m G L segs' s' → members segs' ≡ₚ L.
Proof.
  intros Hrb. rewrite <- firing_order_abs, (rb_abs _ _ _ _ _ _ Hrb), spec_reorder_perm.
  unfold firing_order. simpl. by rewrite app_nil_r.
Qed.

(** ** One module of the system *)

Lemma ReorderAgenda_inv strat s AG m segs :
  inv_with strat s AG → AG !! m = Some segs →
  ∃ s' segs', ReorderAgenda m s = Some (tt, s') ∧
  rebuilt s m (g_addr <$> segs) (members segs) segs' s' ∧
  inv_with (fun k => if decide (k = m) then strategy_of s else strat k) s' (<[m := segs']> AG).
Proof.
  intros Hinv Hm. pose proof (si_wf _ _ Hinv _ _ Hm) as Hwf.
  destruct (ReorderAgenda_loose s m (g_addr <$> segs) (members segs)) as (s' & segs' & Hrun & Hrb).
  { eapply wf_agenda_loose; [exact Hwf|by apply (si_tags_inj _ _ Hinv m)]. }
  exists s', segs'. split; [done|]. split; [done|]. pose proof (rebuilt_perm _ _ _ _ _ _ Hrb) as Hperm.
  destruct Hrb as [Hwf' _ (G & HF & HG) Had [b Hs']].
  assert (Htag : CurrentTimetag (agendaData s') = CurrentTimetag (agendaData s)) by by rewrite Hs'.
  eapply (inv_step strat _ s s' AG m segs segs' (members segs) G []); try done.
  - intros x k ks Hk Hks Hx. split; [|set_solver].
    eapply rep_members_disjoint; [|apply (wa_rep _ _ _ _ Hwf)|exact Hk|exact Hx].
    apply (si_wf _ _ Hinv _ _ Hks).
  - by rewrite decide_True.
  - intros k Hk. by rewrite decide_False.
  - by rewrite Htag.
  - intros x a Hx Ha. rewrite Hperm in Hx. rewrite Htag.
    destruct (rep_live _ _ _ _ (wa_rep _ _ _ _ Hwf) Hx) as [a0 Ha0].
    destruct (frame_payloads _ _ _ _ _ _ HF x a0) as (a1 & Ha1 & Hp); [set_solver|done|].
    rewrite Ha in Ha1. injection Ha1 as <-. simpl in Hp. injection Hp as _ _ _ -> _.
    by apply (si_tags _ _ Hinv _ _ _ _ Hm Hx).
  - eapply tags_inj_frame; [exact HF|by apply (si_tags_inj _ _ Hinv m)|].
    intros x. rewrite Hperm. intros Hx. split; [done|]. split; [set_solver|].
    by eapply rep_live; [apply (wa_rep _ _ _ _ Hwf)|].
Qed.
End reorder_system.

(** ** All modules *)

Section all_agendas.
Context {H E : Type}.
Implicit Types (s : Environment H E) (st : Store E).

(** The agendas of [l] are rebuilt by the strategy of [s], the others kept. *)
Definition agendas_rebuilt s (l : list ptr) (AG AG' : gmap ptr (list Seg)) : Prop :=
  ∀ k segs, AG !! k = Some segs → ∃ segs', AG' !! k = Some segs' ∧
  abs segs' = if decide (k ∈ l) then
      spec_reorder (key_at (strategy_of s) (store s)) (salience_at (store s)) (members segs) []
    else abs segs.

Lemma ReorderAll_loop s strat AG l :
  inv_with strat s AG → NoDup l → (∀ k, k ∈ l → is_Some (AG !! k)) →
  ∃ s' AG', forM_ ReorderAgenda l s = Some (tt, s') ∧
  inv_with (fun k => if decide (k ∈ l) then strategy_of s else strat k) s' AG' ∧
  agendas_rebuilt s l AG AG' ∧ dom AG' = dom AG ∧
  ∃ b, s' = with_agendaData (set_AgendaChanged b) (with_store (fun st => relinked_store st (store s')) s).
Proof.
  revert s strat AG. induction l as [|m l IH]; intros s strat AG Hinv Hnd Hl.
  { exists s, AG. split; [done|]. split; [exact Hinv|]. split; [|split; [done|]].
    - intros k segs Hk. by exists segs.
    - exists (AgendaChanged (agendaData s)). by destruct s as [[] []]. }
  apply NoDup_cons in Hnd as [Hml Hnd]. destruct (Hl m) as [segs Hm]; [set_solver|].
  destruct (ReorderAgenda_inv strat s AG m segs Hinv Hm) as (s1 & segs1 & Hrun & Hrb & Hinv1).
  destruct (rb_state _ _ _ _ _ _ Hrb) as [b1 Hs1]. destruct (rb_frame _ _ _ _ _ _ Hrb) as (G1 & HF1 & _).
  assert (Hstrat : strategy_of s1 = strategy_of s) by (unfold strategy_of; by rewrite Hs1).
  destruct (IH s1 _ (<[m := segs1]> AG) Hinv1 Hnd) as (s' & AG' & Hrun' & Hinv' & Hreb & Hdom & b & Hs').
  { intros k Hk. rewrite lookup_insert_is_Some'. right. apply Hl. set_solver. }
  exists s', AG'. split; [simpl; by mrun Hrun|]. split; [|split; [|split]].
  - rewrite Hstrat in Hinv'. destruct Hinv' as [Hw Hgr Ht Hi]. split; try done.
    intros k ks Hk. specialize (Hw k ks Hk). revert Hw. simpl.
    destruct (decide (k ∈ l)) as [?|Hkl].
    { rewrite decide_True by set_solver. done. }
    destruct (decide (k = m)) as [->|Hkm].
    { rewrite decide_True by set_solver. done. }
    rewrite decide_False by set_solver. done.
  - intros k ks Hk. destruct (decide (k = m)) as [->|Hkm].
    + destruct (Hreb m segs1) as (segs' & Hk' & Habs); [by rewrite lookup_insert_eq|].
      exists segs'. split; [done|]. rewrite Hm in Hk. injection Hk as <-.
      rewrite decide_True by set_solver. rewrite decide_False in Habs by done.
      rewrite Habs. apply Hrb.
    + destruct (Hreb k ks) as (segs' & Hk' & Habs); [by rewrite lookup_insert_ne|].
      exists segs'. split; [done|]. rewrite Habs, Hstrat.
      destruct (decide (k ∈ l)) as [Hkl|Hkl]; [|by rewrite decide_False by set_solver].
      rewrite decide_True by set_solver.
      assert (Hlive : ∀ x, x ∈ members ks → is_Some (acts (store s) !! x)).
      { intros x Hx. eapply rep_live; [apply (wa_rep _ _ _ _ (si_wf _ _ Hinv k ks Hk))|done]. }
      apply spec_reorder_ext.
      * intros x [Hx|Hx]; [|by apply elem_of_nil in Hx].
        eapply key_at_frame; [exact HF1|set_solver|by apply Hlive].
      * intros x Hx. eapply salience_at_frame; [exact HF1|set_solver|by apply Hlive].
  - rewrite Hdom, dom_insert_L. apply elem_of_dom_2 in Hm. set_solver.
  - exists b. rewrite Hs' at 1. rewrite Hs1 at 1. done.
Qed.

(** Every module of the invariant is in the list of modules, once. *)
Definition modules_listed s (AG : gmap ptr (list Seg)) : Prop :=
  NoDup (ListOfDefmodules (defmoduleData s)) ∧
  ∀ k, k ∈ ListOfDefmodules (defmoduleData s) ↔ is_Some (AG !! k).

Lemma SetStrategy_run s AG value :
  system_inv s AG → modules_listed s AG →
  ∃ s' AG', SetStrategy value s = Some (strategy_of s, s') ∧
  system_inv s' AG' ∧ strategy_of s' = value ∧ dom AG' = dom AG ∧
  ∀ k segs, AG !! k = Some segs → ∃ segs', AG' !! k = Some segs' ∧
    abs segs' = if decide (strategy_of s = value) then abs segs
      else spec_reorder (key_at value (store s)) (salience_at (store s)) (members segs) [].
Proof.
  intros Hinv [Hnd Hl]. unfold SetStrategy. erewrite M_bind_Some by reflexivity. cbn beta zeta.
  erewrite M_bind_Some by reflexivity. cbn beta. set (s1 := with_agendaData (set_Strategy value) s).
  change (Strategy (agendaData s)) with (strategy_of s).
  assert (Hinv1 : inv_with (fun _ => strategy_of s) s1 AG) by (destruct Hinv; by split).
  destruct (decide (strategy_of s = value)) as [Heq|Hne].
  - rewrite bool_decide_false by (intros Hn; by apply Hn). exists s1, AG. simpl.
    split; [done|]. unfold system_inv. change (strategy_of s1) with value. rewrite <- Heq.
    split_and!; [done..|]. intros k ks Hk. by exists ks.
  - rewrite bool_decide_true by done. unfold whenM, ReorderAllAgendas.
    destruct (ReorderAll_loop s1 _ AG (ListOfDefmodules (defmoduleData s)) Hinv1 Hnd)
      as (s' & AG' & Hrun & Hinv' & Hreb & Hdom & b & Hs'); [intros k; apply Hl|].
    exists s', AG'. split; [|split; [|split; [|split]]].
    + erewrite M_bind_Some; [reflexivity|]. by erewrite M_bind_Some by reflexivity.
    + assert (Hst : strategy_of s' = value) by (rewrite Hs'; done). unfold system_inv. rewrite Hst.
      destruct Hinv' as [Hw Hgr Ht Hi]. split; try done. intros k ks Hk. specialize (Hw k ks Hk).
      simpl in Hw. rewrite decide_True in Hw; [done|]. apply Hl.
      apply elem_of_dom. rewrite <- Hdom. by apply elem_of_dom_2 in Hk.
    + by rewrite Hs'.
    + done.
    + intros k ks Hk. destruct (Hreb k ks Hk) as (segs' & Hk' & Habs). exists segs'. split; [done|].
      rewrite decide_True in Habs; [done|]. apply Hl. eauto.
Qed.
End all_agendas.

(** ** Refreshing the saliences *)

Section refresh.
Context {H E : Type} `{!Host H E}.
Implicit Types (s : Environment H E) (st : Store E).

(** The saliences of the activations of [l], and those of rules, may change. *)
Record resalienced (l : list ptr) st st' : Prop := {
  rs_rules k : rule_static <$> rules st' !! k = rule_static <$> rules st !! k;
  rs_matches : matches st' = matches st;
  rs_groups : groups st' = groups st;
  rs_modules : modules st' = modules st;
  rs_acts x : x ∉ l → acts st' !! x = acts st !! x;
  rs_in x a : x ∈ l → acts st !! x = Some a → ∃ z, acts st' !! x = Some (set_act_salience z a);
}.

Lemma resalienced_frame m l st st' : resalienced l st st' → frame m l [] l st st'.
Proof.
  intros [Hr Hm Hg Hmo Ha Hi]. split; [done|by intros; rewrite Hm| |done|by rewrite Hg|by rewrite Hmo].
  intros k a Hk. rewrite Ha by done. eauto.
Qed.

Lemma resalienced_trans l l' st st' st'' :
  resalienced l st st' → resalienced l' st' st'' → (∀ x, x ∈ l → x ∉ l') →
  resalienced (l ++ l') st st''.
Proof.
  intros H1 H2 Hdis. split.
  - intros k. by rewrite (rs_rules _ _ _ H2), (rs_rules _ _ _ H1).
  - by rewrite (rs_matches _ _ _ H2), (rs_matches _ _ _ H1).
  - by rewrite (rs_groups _ _ _ H2), (rs_groups _ _ _ H1).
  - by rewrite (rs_modules _ _ _ H2), (rs_modules _ _ _ H1).
  - intros x Hx. rewrite (rs_acts _ _ _ H2), (rs_acts _ _ _ H1); set_solver.
  - intros x a Hx Ha. destruct (decide (x ∈ l)) as [Hxl|Hxl].
    + rewrite (rs_acts _ _ _ H2) by auto. by apply (rs_in _ _ _ H1).
    + apply (rs_in _ _ _ H2); [set_solver|]. by rewrite (rs_acts _ _ _ H1).
Qed.

Lemma resalienced_loose l st st' m G L :
  resalienced l st st' → loose st m G L → loose st' m G L.
Proof.
  intros Hrs [Hmd HG HL Hin Htags].
  assert (Hact : ∀ x a, acts st !! x = Some a → ∃ z, acts st' !! x = Some (set_act_salience z a)).
  { intros x a Ha. destruct (decide (x ∈ l)) as [Hx|Hx]; [by apply (rs_in _ _ _ Hrs)|].
    exists (act_salience a). rewrite (rs_acts _ _ _ Hrs) by done. rewrite Ha. by destruct a. }
  split.
  - by rewrite (rs_modules _ _ _ Hrs).
  - by rewrite (rs_groups _ _ _ Hrs).
  - destruct HL as [Hnd Hd]. split; [done|]. clear Hnd Hmd Htags Hin. revert Hd. generalize (@None ptr) at 1 3 as p.
    induction L as [|x L IH]; intros p; [done|]. intros (a & Ha & Hp & Hn & Hd).
    destruct (Hact x a Ha) as [z Hz]. exists (set_act_salience z a). split_and!; [done..|]. by apply IH.
  - intros x Hx. destruct (Hin x Hx) as (a & r & Ha & _ & Hr & Hw & [Hrl (b & pm & Hb & Hpm & Hrest)]).
    destruct (Hact x a Ha) as [z Hz].
    pose proof (rs_rules _ _ _ Hrs (theRule a)) as Hst. rewrite Hr in Hst.
    destruct (rules st' !! theRule a) as [r'|] eqn:Hr'; [|done]. simpl in Hst.
    assert (whichModule r' = whichModule r) as Hwm by (unfold rule_static in Hst; congruence).
    exists (set_act_salience z a), r'. unfold salience_at. rewrite Hz.
    split_and!; [done..|congruence|]. split; simpl; [rewrite Hr'; eauto|].
    exists b, pm. by rewrite (rs_matches _ _ _ Hrs).
  - intros x y a b Hx Hy Ha Hb Heq. destruct (Hin x Hx) as (a0 & _ & Ha0 & _). destruct (Hin y Hy) as (b0 & _ & Hb0 & _).
    destruct (Hact x a0 Ha0) as [z1 Hz1], (Hact y b0 Hb0) as [z2 Hz2].
    rewrite Ha in Hz1. rewrite Hb in Hz2. injection Hz1 as ->. injection Hz2 as ->.
    by apply (Htags x y a0 b0).
Qed.

(** The salience of each rule of [l] evaluated in turn and stored in its
    activation, with the values obtained: what refreshing means. *)
Fixpoint evaluate_all (l : list ptr) : MA H E (list Z) :=
  match l with
  | [] => mret []
  | x :: l' =>
      a ← load_act x;
      z ← EvaluateSalience (theRule a);
      _ ← update_act x (set_act_salience z);
      zs ← evaluate_all l';
      mret (z :: zs)
  end.

(** The loop over the agenda. *)
Lemma refresh_saliences_spec fuel s p l :
  NoDup l → dseg (acts (store s)) p l None → length l ≤ fuel →
  (∀ x a, x ∈ l → acts (store s) !! x = Some a → is_Some (rules (store s) !! theRule a)) →
  ∃ s' zs, refresh_saliences fuel (hd_or l None) s = Some (tt, s') ∧ resalienced l (store s) (store s') ∧
  evaluate_all l s = Some (zs, s') ∧ salience_at (store s') <$> l = zs ∧
  agendaData s' = agendaData s ∧ engineData s' = engineData s ∧ defmoduleData s' = defmoduleData s.
Proof.
  revert s p l. induction fuel as [|fuel IH]; intros s p [|x l] Hnd Hd Hf Hrules.
  1,3: exists s, []; split; [done|]; split; [|done]; split; try done; set_solver.
  { simpl in Hf. lia. }
  apply NoDup_cons in Hnd as [Hx Hnd]. destruct Hd as (a & Ha & _ & Hn & Hd). simpl in Hn.
  destruct (Hrules x a) as [r Hr]; [set_solver|done|].
  simpl. mrun (load_act_Some s _ _ Ha).
  destruct (EvaluateSalience_spec s (theRule a) r Hr) as (z & s1 & r' & Hrun & Ha1 & He1 & Hd1 & Hst1 & Hr' & _).
  mrun Hrun. assert (Hx1 : acts (store s1) !! x = Some a) by by rewrite Hst1.
  erewrite M_bind_Some by (eapply update_act_Some; exact Hx1). cbn beta.
  set (s2 := with_store _ s1).
  assert (Hx2 : acts (store s2) !! x = Some (set_act_salience z a)) by (simpl; by rewrite lookup_alter_eq, Hx1).
  mrun (load_act_Some s2 _ _ Hx2). simpl act_next. rewrite Hn.
  assert (H2 : resalienced [x] (store s) (store s2)).
  { split; simpl; rewrite ?Hst1; simpl; try done.
    - intros k. rewrite lookup_insert. case_decide; subst; [by rewrite Hr|done].
    - intros y Hy. rewrite lookup_alter_ne by set_solver. done.
    - intros y b ->%list_elem_of_singleton Hb. exists z. rewrite lookup_alter_eq, Hb. done. }
  destruct (IH s2 (Some x) l) as (s' & zs & Hrun' & Hrs & Hev & Hzs & Ha' & He' & Hd'); [done| |simpl in Hf; lia| |].
  - eapply dseg_ext; [|exact Hd]. intros y Hy. apply (rs_acts _ _ _ H2). set_solver.
  - intros y b Hy Hb. rewrite (rs_acts _ _ _ H2) in Hb by set_solver.
    destruct (Hrules y b) as [rb Hrb]; [set_solver|done|].
    pose proof (rs_rules _ _ _ H2 (theRule b)) as Hst. rewrite Hrb in Hst.
    destruct (rules (store s2) !! theRule b); [eauto|done].
  - exists s', (z :: zs). split; [done|]. split; [apply (resalienced_trans [x] l _ _ _ H2 Hrs); set_solver|].
    split_and!; [|csimpl|by rewrite Ha'|by rewrite He'|by rewrite Hd'].
    + simpl. mrun (load_act_Some s _ _ Ha). mrun Hrun.
      erewrite M_bind_Some by (eapply update_act_Some; exact Hx1). cbn beta. by mrun Hev.
    + rewrite <- Hzs. f_equal. unfold salience_at. by rewrite (rs_acts _ _ _ Hrs), Hx2 by done.
Qed.

(** ** [RefreshAgenda] *)

(** The prologue: module saved, salience evaluation overridden. *)
Definition refresh_prologue s (m : ptr) : Environment H E :=
  let s1 := if CurrentExpression (flags s) then s
          else with_flags (set_HaltExecution false) (with_flags (set_EvaluationError false) s) in
  let d := defmoduleData s in
  with_defmoduleData (fun _ => mkDefmoduleData (ListOfDefmodules d) (Some m) false (ModuleChangeIndex d)
    ((CallModuleChangeFunctions d, CurrentModule d) :: ModuleStack d))
  (with_agendaData (set_SalienceEvaluation WHEN_ACTIVATED) s1).

Lemma RefreshAgenda_prologue s m :
  RefreshAgenda m s = (_ ← refresh_module m;
  _ ← SetSalienceEvaluation (SalienceEvaluation (agendaData s)); RestoreCurrentModule)
  (refresh_prologue s m).
Proof.
  unfold refresh_prologue, RefreshAgenda. erewrite M_bind_Some by reflexivity. cbn beta. unfold whenM.
  by destruct (CurrentExpression (flags s)).
Qed.

(** The epilogue restores the salience evaluation and the current module. *)
Definition refresh_epilogue s s3 : Environment H E :=
  with_defmoduleData (fun _ => defmoduleData s)
  (with_agendaData (set_SalienceEvaluation (SalienceEvaluation (agendaData s))) s3).

Lemma refresh_epilogue_run s s3 m :
  defmoduleData s3 = defmoduleData (refresh_prologue s m) →
  (_ ← SetSalienceEvaluation (SalienceEvaluation (agendaData s)); RestoreCurrentModule) s3 =
  Some (tt, refresh_epilogue s s3).
Proof.
  intros Hd. unfold SetSalienceEvaluation, GetSalienceEvaluation, RestoreCurrentModule.
  unfold mbind, M_bind, gets, modify, mret, M_ret. simpl. rewrite Hd. simpl.
  unfold refresh_epilogue, with_defmoduleData. simpl. rewrite Hd. simpl.
  unfold set_ModuleStack, set_CallModuleChangeFunctions, set_CurrentModule. simpl.
  by destruct (defmoduleData s).
Qed.

Lemma inv_same_store strat s s' AG :
  store s' = store s → CurrentTimetag (agendaData s') = CurrentTimetag (agendaData s) →
  inv_with strat s AG → inv_with strat s' AG.
Proof. intros Hst Htag [Hw Hg Ht Hi]. split; rewrite ?Hst, ?Htag; done. Qed.

(** The new saliences: those [evaluate_all] gives, along the agenda, from a
    state [s0] that differs from [s] by the settings the refresh makes, and
    ends with the host as the refresh leaves it. *)
Definition saliences_refreshed s (m : ptr) (l : list ptr) s' : Prop :=
  ∃ s0 s1 zs, evaluate_all l s0 = Some (zs, s1) ∧
  store s0 = store s ∧ host s0 = host s ∧ SalienceEvaluation (agendaData s0) = WHEN_ACTIVATED ∧
  CurrentModule (defmoduleData s0) = Some m ∧
  salience_at (store s') <$> l = zs ∧ host s' = host s1.

Record refreshed s AG m segs segs' s' : Prop := {
  rf_inv : system_inv s' (<[m := segs']> AG);
  rf_perm : members segs' ≡ₚ members segs;
  rf_others x : x ∉ members segs → acts (store s') !! x = acts (store s) !! x;
  rf_evaluation : SalienceEvaluation (agendaData s') = SalienceEvaluation (agendaData s);
  rf_number : NumberOfActivations (agendaData s') = NumberOfActivations (agendaData s);
  rf_strategy : strategy_of s' = strategy_of s;
  rf_module : defmoduleData s' = defmoduleData s;
  rf_engine : engineData s' = engineData s;
  rf_saliences : saliences_refreshed s m (members segs) s';
}.

Lemma rebuilt_inv s s1 AG m segs segs' s' :
  system_inv s AG → AG !! m = Some segs → resalienced (members segs) (store s) (store s1) →
  strategy_of s1 = strategy_of s → agendaData s1 = set_SalienceEvaluation WHEN_ACTIVATED (agendaData s) →
  rebuilt s1 m (g_addr <$> segs) (members segs) segs' s' →
  system_inv s' (<[m := segs']> AG).
Proof.
  intros Hinv Hm Hrs Hstrat Hdata Hrb. pose proof (si_wf _ _ Hinv _ _ Hm) as Hwf.
  pose proof (rebuilt_perm _ _ _ _ _ _ Hrb) as Hperm.
  destruct Hrb as [Hwf' _ (G & HF & HG) Had [b Hs']].
  pose proof (resalienced_frame m _ _ _ Hrs) as HF0.
  assert (Htag : CurrentTimetag (agendaData s') = CurrentTimetag (agendaData s)) by (rewrite Hs'; simpl; by rewrite Hdata).
  assert (Hstrat' : strategy_of s' = strategy_of s) by (rewrite <- Hstrat, Hs'; done).
  assert (Hlive : ∀ x, x ∈ members segs → ∃ a b, acts (store s) !! x = Some a ∧ acts (store s') !! x = Some b ∧ timetag b = timetag a).
  { intros x Hx. destruct (rep_live _ _ _ _ (wa_rep _ _ _ _ Hwf) Hx) as [a Ha].
    destruct (rs_in _ _ _ Hrs x a Hx Ha) as [z Hz].
    destruct (frame_payloads _ _ _ _ _ _ HF x _ ltac:(set_solver) Hz) as (a1 & Ha1 & Hp).
    simpl in Hp. injection Hp as _ _ _ Ht _. exists a, a1. done. }
  assert (Hgr : ∀ x, x ∈ g_addr <$> segs ∨ groups (store s1) !! x = None →
    x ∈ g_addr <$> segs ∨ groups (store s) !! x = None).
  { intros x. by rewrite (rs_groups _ _ _ Hrs). }
  eapply (system_step s s' AG m segs segs' (members segs) G (members segs)); try done.
  - eapply frame_weaken; [exact (frame_trans _ _ _ _ _ _ _ _ _ _ HF0 HF)|set_solver..].
  - intros x Hx. by apply Hgr, HG.
  - intros x k ks Hk Hks Hx. assert (x ∉ members segs); [|done].
    eapply rep_members_disjoint; [|apply (wa_rep _ _ _ _ Hwf)|exact Hk|exact Hx].
    apply (si_wf _ _ Hinv _ _ Hks).
  - by rewrite Hstrat', <- Hstrat.
  - intros x Hx. by apply Hgr, Had.
  - by rewrite Htag.
  - intros x a. rewrite Hperm. intros Hx Ha. destruct (Hlive x Hx) as (a0 & b0 & Ha0 & Hb0 & Ht).
    rewrite Ha in Hb0. injection Hb0 as <-. rewrite Htag, Ht. by apply (si_tags _ _ Hinv _ _ _ _ Hm Hx).
  - intros x y a c. rewrite Hperm. intros Hx Hy Ha Hc Heq.
    destruct (Hlive x Hx) as (a0 & b0 & Ha0 & Hb0 & Ht). destruct (Hlive y Hy) as (a2 & b2 & Ha2 & Hb2 & Ht2).
    rewrite Ha in Hb0. rewrite Hc in Hb2. injection Hb0 as <-. injection Hb2 as <-.
    apply (si_tags_inj _ _ Hinv m segs Hm x y a0 a2); [done..|]. congruence.
Qed.

(** The prologue changes nothing but the flags and the two settings. *)
Lemma refresh_prologue_facts s m :
  store (refresh_prologue s m) = store s ∧
  agendaData (refresh_prologue s m) = set_SalienceEvaluation WHEN_ACTIVATED (agendaData s) ∧
  engineData (refresh_prologue s m) = engineData s.
Proof. unfold refresh_prologue. simpl. by destruct (CurrentExpression _). Qed.

Lemma refresh_prologue_host s m : host (refresh_prologue s m) = host s.
Proof. unfold refresh_prologue. simpl. by destruct (CurrentExpression _). Qed.

(** The middle of [RefreshAgenda]. *)
Lemma refresh_module_spec s s1 AG m segs :
  system_inv s AG → AG !! m = Some segs → store s1 = store s →
  agendaData s1 = set_SalienceEvaluation WHEN_ACTIVATED (agendaData s) →
  ∃ s2 s3 segs' zs, refresh_module m s1 = Some (tt, s3) ∧
  evaluate_all (members segs) s1 = Some (zs, s2) ∧ salience_at (store s2) <$> members segs = zs ∧
  resalienced (members segs) (store s) (store s2) ∧
  rebuilt s2 m (g_addr <$> segs) (members segs) segs' s3 ∧
  agendaData s2 = agendaData s1 ∧ engineData s2 = engineData s1 ∧ defmoduleData s2 = defmoduleData s1.
Proof.
  intros Hinv Hm Hst1 Hd1. pose proof (si_wf _ _ Hinv _ _ Hm) as Hwf. pose proof (wa_rep _ _ _ _ Hwf) as Hrep.
  destruct (rep_module _ _ _ Hrep) as (md & Hmd & _ & Hag).
  destruct (refresh_saliences_spec (S (size (acts (store s1)))) s1 None (members segs)) as (s2 & zs & Hrun & Hrs & Hev & Hzs & Hd2 & He2 & Hm2).
  { apply (rep_acts _ _ _ Hrep). }
  { rewrite Hst1. apply (rep_acts _ _ _ Hrep). }
  { rewrite Hst1. pose proof (dll_size _ _ (rep_acts _ _ _ Hrep)). lia. }
  { rewrite Hst1. intros x a (sg & Hsg & Hx)%elem_of_members Ha.
    destruct (rep_act_in _ _ _ _ _ Hrep Hsg Hx) as (a' & r & Ha' & _ & Hr & _). rewrite Ha in Ha'.
    injection Ha' as <-. eauto. }
  rewrite Hst1 in Hrs.
  destruct (ReorderAgenda_loose s2 m (g_addr <$> segs) (members segs)) as (s3 & segs' & Hrun3 & Hrb).
  { eapply resalienced_loose; [exact Hrs|]. eapply wf_agenda_loose; [exact Hwf|]. by apply (si_tags_inj _ _ Hinv m). }
  exists s2, s3, segs', zs. split; [|done]. unfold refresh_module. rewrite <- Hst1 in Hmd.
  mrun (load_module_Some s1 _ _ Hmd). erewrite M_bind_Some by apply search_fuel_Some. cbn beta.
  rewrite Hag. by mrun Hrun.
Qed.

Lemma RefreshAgenda_run s AG m segs :
  system_inv s AG → AG !! m = Some segs →
  ∃ s' segs', RefreshAgenda m s = Some (tt, s') ∧ refreshed s AG m segs segs' s'.
Proof.
  intros Hinv Hm. destruct (refresh_prologue_facts s m) as (Hst1 & Hd1 & He1).
  destruct (refresh_module_spec s (refresh_prologue s m) AG m segs Hinv Hm Hst1 Hd1)
    as (s2 & s3 & segs' & zs & Hrun & Hev & Hzs & Hrs & Hrb & Hd2 & He2 & Hm2).
  destruct (rb_state _ _ _ _ _ _ Hrb) as [b Hs3].
  assert (Hd3 : agendaData s3 = set_AgendaChanged b (set_SalienceEvaluation WHEN_ACTIVATED (agendaData s)))
    by (rewrite Hs3; simpl; by rewrite Hd2, Hd1).
  assert (Hm3 : defmoduleData s3 = defmoduleData (refresh_prologue s m)) by (rewrite Hs3; simpl; by rewrite Hm2).
  exists (refresh_epilogue s s3), segs'. split.
  { rewrite RefreshAgenda_prologue. mrun Hrun. by apply refresh_epilogue_run with m. }
  destruct (rb_frame _ _ _ _ _ _ Hrb) as (G & HF & _).
  assert (Hinv3 : system_inv s3 (<[m := segs']> AG)).
  { eapply rebuilt_inv; [exact Hinv|exact Hm|exact Hrs| |by rewrite Hd2|exact Hrb].
    unfold strategy_of. by rewrite Hd2, Hd1. }
  split; simpl; try done.
  - by eapply inv_same_store; [| |exact Hinv3].
  - exact (rebuilt_perm _ _ _ _ _ _ Hrb).
  - intros x Hx. rewrite (frame_acts _ _ _ _ _ _ HF) by done. by apply (rs_acts _ _ _ Hrs).
  - by rewrite Hd3.
  - unfold strategy_of. simpl. by rewrite Hd3.
  - rewrite Hs3. simpl. by rewrite He2.
  - exists (refresh_prologue s m), s2, zs. split_and!; [done|done|by apply refresh_prologue_host|by rewrite Hd1|done| |by rewrite Hs3].
    rewrite <- Hzs. apply list_fmap_ext. intros i x Hx. apply list_elem_of_lookup_2 in Hx. simpl.
    eapply salience_at_frame; [exact HF|set_solver|].
    destruct (rep_live _ _ _ _ (wa_rep _ _ _ _ (si_wf _ _ Hinv _ _ Hm)) Hx) as [a Ha].
    destruct (rs_in _ _ _ Hrs x a Hx Ha) as [z Hz]. eauto.
Qed.
End refresh.
