(* ===== verification/AgendaKeeps.v ===== *)
(** * What the agenda code leaves alone

    The names of the modules, the module and the complexity of each rule, the
    binds of the partial matches, the rule and the basis of each activation,
    the list of modules and the focus stack: detaching an activation and
    refreshing an agenda keep them all. *)
From S2P Require Import Prelude Router Keeps DList Values AgendaState Strategy AgendaRep Focus Agenda.

Record Skeleton := mkSkeleton {
  sk_names : gmap ptr string;
  sk_rules : gmap ptr (ptr * Z);
  sk_binds : gmap ptr (list (option AlphaMatch));
  sk_links : gmap ptr (ptr * option ptr);
  sk_modules : list ptr;
  sk_focus : list ptr;
}.

Section skeleton.
Context {H E : Type}.
Implicit Types (s : Environment H E) (st : Store E).

Definition act_link (a : Activation) : ptr * option ptr := (theRule a, basis a).

Definition skeleton s : Skeleton :=
  mkSkeleton (module_name <$> modules (store s)) (rule_static <$> rules (store s))
    (binds <$> matches (store s)) (act_link <$> acts (store s))
    (ListOfDefmodules (defmoduleData s)) (CurrentFocus (engineData s)).

#[export] Instance skeleton_Insensitive : Insensitive skeleton.
Proof. by split. Qed.

(** An update that keeps a view of the object it updates. *)
Lemma fmap_alter_same {A B} (g : A → B) (f : A → A) (m : gmap ptr A) p :
  (∀ x, g (f x) = g x) → g <$> alter f p m = g <$> m.
Proof.
  intros Hf. apply map_eq. intros k. rewrite !lookup_fmap. destruct (decide (p = k)) as [->|].
  - rewrite lookup_alter_eq. destruct (m !! k); simpl; [by rewrite Hf|done].
  - by rewrite lookup_alter_ne.
Qed.

Ltac skel := unfold skeleton; simpl; f_equal; apply fmap_alter_same; done.

Lemma keeps_load_act p : Keeps skeleton (load_act p).
Proof. apply keeps_bind; [apply keeps_gets|intros; apply keeps_fromOption]. Qed.
Lemma keeps_load_group p : Keeps skeleton (load_group p).
Proof. apply keeps_bind; [apply keeps_gets|intros; apply keeps_fromOption]. Qed.
Lemma keeps_load_module p : Keeps skeleton (load_module p).
Proof. apply keeps_bind; [apply keeps_gets|intros; apply keeps_fromOption]. Qed.
Lemma keeps_load_rule p : Keeps skeleton (load_rule p).
Proof. apply keeps_bind; [apply keeps_gets|intros; apply keeps_fromOption]. Qed.
Lemma keeps_load_match p : Keeps skeleton (load_match p).
Proof. apply keeps_bind; [apply keeps_gets|intros; apply keeps_fromOption]. Qed.
#[local] Hint Resolve keeps_load_act keeps_load_group keeps_load_module keeps_load_rule keeps_load_match : keeps.

Lemma keeps_update_act p f : (∀ a, act_link (f a) = act_link a) → Keeps skeleton (update_act p f).
Proof. intros Hf. apply keeps_bind; [apply keeps_load_act|intros _]. apply keeps_modify. intros s. skel. Qed.
Lemma keeps_update_group p f : Keeps skeleton (update_group p f).
Proof. apply keeps_bind; [apply keeps_load_group|intros _]. by apply keeps_modify. Qed.
Lemma keeps_update_module p f : (∀ a, module_name (f a) = module_name a) → Keeps skeleton (update_module p f).
Proof. intros Hf. apply keeps_bind; [apply keeps_load_module|intros _]. apply keeps_modify. intros s. skel. Qed.
Lemma keeps_update_rule p f : (∀ a, rule_static (f a) = rule_static a) → Keeps skeleton (update_rule p f).
Proof. intros Hf. apply keeps_bind; [apply keeps_load_rule|intros _]. apply keeps_modify. intros s. skel. Qed.
Lemma keeps_alloc_group g : Keeps skeleton (alloc_group g).
Proof.
  apply keeps_bind; [apply keeps_gets|intros ?]. cbv zeta.
  apply keeps_bind; [by apply keeps_modify|intros; apply keeps_ret].
Qed.
Lemma keeps_free_group p : Keeps skeleton (free_group p).
Proof. apply keeps_bind; [apply keeps_load_group|intros _]. by apply keeps_modify. Qed.
End skeleton.
#[export] Hint Resolve keeps_load_act keeps_load_group keeps_load_module keeps_load_rule keeps_load_match
  keeps_update_group keeps_alloc_group keeps_free_group : keeps.

(** Following the code of the agenda. *)
Ltac keeps_agenda_step :=
  first
    [ solve [eauto with keeps]
    | apply keeps_update_act; done | apply keeps_update_module; done | apply keeps_update_rule; done
    | keeps_base ].
Ltac keeps_agenda := cbv zeta; walk keeps_agenda_step.

Section operations.
Context {H E : Type} `{!Host H E}.
Abbreviation Same := (Keeps (skeleton (H := H) (E := E))).

Lemma keeps_search_fuel : Same search_fuel.
Proof. unfold search_fuel. keeps_agenda. Qed.
Lemma keeps_group_fuel : Same group_fuel.
Proof. unfold group_fuel. keeps_agenda. Qed.
#[local] Hint Resolve keeps_search_fuel keeps_group_fuel : keeps.
Lemma keeps_find_group_loop n sal o : Same (find_group_loop n sal o).
Proof. revert o. induction n as [|n IH]; intros o; simpl; keeps_agenda. Qed.
Lemma keeps_search_groups n sal o1 o2 : Same (search_groups n sal o1 o2).
Proof. revert o1 o2. induction n as [|n IH]; intros o1 o2; simpl; keeps_agenda. Qed.
#[local] Hint Resolve keeps_find_group_loop keeps_search_groups : keeps.
Lemma keeps_FindSalienceGroup m sal : Same (FindSalienceGroup m sal).
Proof. unfold FindSalienceGroup. keeps_agenda. Qed.
Lemma keeps_ReuseOrCreate m sal : Same (ReuseOrCreateSalienceGroup m sal).
Proof. unfold ReuseOrCreateSalienceGroup. keeps_agenda. Qed.
#[local] Hint Resolve keeps_FindSalienceGroup keeps_ReuseOrCreate : keeps.

Lemma keeps_RemoveActivationFromGroup x m : Same (RemoveActivationFromGroup x m).
Proof. unfold RemoveActivationFromGroup. keeps_agenda. Qed.
#[local] Hint Resolve keeps_RemoveActivationFromGroup : keeps.
Lemma keeps_SetAgendaChanged b : Same (SetAgendaChanged b).
Proof. by apply keeps_modify. Qed.
#[local] Hint Resolve keeps_SetAgendaChanged : keeps.

Lemma keeps_DetachActivation x : Same (DetachActivation x).
Proof. unfold DetachActivation. keeps_agenda. Qed.

(** ** Placement *)

Lemma keeps_ComparePartialMatches a b : Same (ComparePartialMatches a b).
Proof. unfold ComparePartialMatches. keeps_agenda. Qed.
#[local] Hint Resolve keeps_ComparePartialMatches : keeps.
Lemma keeps_initial_lastAct g : Same (initial_lastAct g).
Proof. unfold initial_lastAct. keeps_agenda. Qed.
#[local] Hint Resolve keeps_initial_lastAct : keeps.
Lemma keeps_find_forward n goes l la a :
  (∀ x, Same (goes x)) → Same (find_forward n goes l la a).
Proof. intros Hg. revert la a. induction n as [|n IH]; intros la a; simpl; keeps_agenda. Qed.
#[local] Hint Resolve keeps_find_forward : keeps.
Lemma keeps_find_backward n tag fo b la a : Same (find_backward n tag fo b la a).
Proof. revert la a. induction n as [|n IH]; intros la a; simpl; keeps_agenda. Qed.
#[local] Hint Resolve keeps_find_backward : keeps.
Lemma keeps_update_salience_group g x la : Same (update_salience_group g x la).
Proof. unfold update_salience_group. keeps_agenda. Qed.
#[local] Hint Resolve keeps_update_salience_group : keeps.
Lemma keeps_PlaceForward goes x g : (∀ a, Same (goes a)) → Same (PlaceForward goes x g).
Proof. intros Hg. unfold PlaceForward. keeps_agenda. Qed.
#[local] Hint Resolve keeps_PlaceForward : keeps.
Lemma keeps_PlaceAtEndOrForward e goes x g :
  (∀ a, Same (e a)) → (∀ a, Same (goes a)) → Same (PlaceAtEndOrForward e goes x g).
Proof.
  intros He Hg. unfold PlaceAtEndOrForward. keeps_agenda.
Qed.
Lemma keeps_GetMatchingItem0 a : Same (GetMatchingItem0 a).
Proof. unfold GetMatchingItem0, deref. keeps_agenda. Qed.
#[local] Hint Resolve keeps_GetMatchingItem0 : keeps.
Lemma keeps_place_by_strategy strat x g : Same (place_by_strategy strat x g).
Proof.
  destruct strat; simpl; unfold PlaceDepthActivation, PlaceBreadthActivation, PlaceLEXActivation,
    PlaceMEAActivation, PlaceComplexityActivation, PlaceSimplicityActivation, PlaceRandomActivation,
    lex_goes_after, mea_flag_at_end, mea_flag;
    cbv zeta; walk ltac:(first [ apply keeps_PlaceForward | apply keeps_PlaceAtEndOrForward | keeps_agenda_step ]).
Qed.
#[local] Hint Resolve keeps_place_by_strategy : keeps.
Lemma keeps_PlaceActivation m x g : Same (PlaceActivation m x g).
Proof. unfold PlaceActivation, link_activation. keeps_agenda. Qed.
#[local] Hint Resolve keeps_PlaceActivation : keeps.

(** ** Refreshing *)

Lemma keeps_free_groups_loop n o : Same (free_groups_loop n o).
Proof. revert o. induction n as [|n IH]; intros o; simpl; keeps_agenda. Qed.
#[local] Hint Resolve keeps_free_groups_loop : keeps.
Lemma keeps_agenda_loop body n o : (∀ p, Same (body p)) → Same (agenda_loop body n o).
Proof. intros Hb. revert o. induction n as [|n IH]; intros o; simpl; keeps_agenda. Qed.
#[local] Hint Resolve keeps_agenda_loop : keeps.
Lemma keeps_reorder_body m x : Same (reorder_body m x).
Proof. unfold reorder_body. keeps_agenda. Qed.
#[local] Hint Resolve keeps_reorder_body : keeps.
Lemma keeps_ReorderAgenda m : Same (ReorderAgenda m).
Proof. unfold ReorderAgenda. keeps_agenda. Qed.
#[local] Hint Resolve keeps_ReorderAgenda : keeps.
Lemma keeps_EvaluateSalience R : Same (EvaluateSalience R).
Proof.
  unfold EvaluateSalience, GetSalienceEvaluation, SalienceInformationError, SalienceRangeError,
    SalienceNonIntegerError. keeps_agenda.
Qed.
#[local] Hint Resolve keeps_EvaluateSalience : keeps.
Lemma keeps_refresh_saliences n o : Same (refresh_saliences n o).
Proof. revert o. induction n as [|n IH]; intros o; simpl; keeps_agenda. Qed.
#[local] Hint Resolve keeps_refresh_saliences : keeps.

Lemma keeps_RefreshAgenda m : Same (RefreshAgenda m).
Proof.
  unfold RefreshAgenda, ResetErrorFlags, SaveCurrentModule, RestoreCurrentModule, SetSalienceEvaluation,
    GetSalienceEvaluation, SetCurrentModule, refresh_module. keeps_agenda.
Qed.
End operations.

(** ** The focus code keeps the list of modules *)

Section focus.
Context {H E : Type}.
Definition module_list (e : Environment H E) : list ptr := ListOfDefmodules (defmoduleData e).
Abbreviation Same := (Keeps module_list).

#[local] Instance module_list_Insensitive : Insensitive module_list.
Proof. by split. Qed.
Ltac keeps_focus := cbv zeta; walk ltac:(first [ solve [eauto with keeps] | keeps_base ]).

Lemma keeps_list_load_module p : Same (load_module p).
Proof. unfold load_module. keeps_focus. Qed.
#[local] Hint Resolve keeps_list_load_module : keeps.
Lemma keeps_list_SetCurrentModule o : Same (SetCurrentModule o).
Proof. unfold SetCurrentModule. keeps_focus. Qed.
#[local] Hint Resolve keeps_list_SetCurrentModule : keeps.
Lemma keeps_list_write_top t l : Same (write_top t l).
Proof. unfold write_top. keeps_focus. Qed.
#[local] Hint Resolve keeps_list_write_top : keeps.
Lemma keeps_list_watch_focus : Same watch_focus.
Proof. unfold watch_focus. keeps_focus. Qed.
#[local] Hint Resolve keeps_list_watch_focus : keeps.
Lemma keeps_list_PopFocus : Same PopFocus.
Proof. unfold PopFocus, RemoveFocus. keeps_focus. Qed.
#[local] Hint Resolve keeps_list_PopFocus : keeps.
Lemma keeps_list_find name l : Same (find_defmodule_loop name l).
Proof. induction l; simpl; keeps_focus. Qed.
#[local] Hint Resolve keeps_list_find : keeps.
Lemma keeps_list_next_loop n o : Same (next_activation_loop n o).
Proof. revert o. induction n as [|n IH]; intros o; simpl; unfold focus_agenda; keeps_focus. Qed.
#[local] Hint Resolve keeps_list_next_loop : keeps.
Lemma keeps_list_NextActivationToFire : Same NextActivationToFire.
Proof. unfold NextActivationToFire, Focus, FindDefmodule, focus_agenda. keeps_focus. Qed.
End focus.

(** ** What adding an activation keeps *)

Section adding.
Context {H E : Type} `{!Host H E}.
Abbreviation Same := (Keeps (module_list (H := H) (E := E))).
#[local] Existing Instance module_list_Insensitive.
#[local] Hint Resolve keeps_list_load_module keeps_list_SetCurrentModule keeps_list_write_top
  keeps_list_watch_focus : keeps.
Ltac keeps_list := cbv zeta; walk ltac:(first [ solve [eauto with keeps] | keeps_base ]).

(** The list of modules is part of the skeleton. *)
Lemma keeps_list_skeleton {A} (m : MA H E A) : Keeps skeleton m → Same m.
Proof. intros Hm s a s' Hrun. exact (f_equal sk_modules (Hm s a s' Hrun)). Qed.

Lemma keeps_list_Focus o : Same (Focus o).
Proof.
  unfold Focus. keeps_list.
Qed.
#[local] Hint Resolve keeps_list_Focus : keeps.
Lemma keeps_list_load_act p : Same (load_act p).
Proof. apply keeps_list_skeleton, keeps_load_act. Qed.
Lemma keeps_list_load_rule p : Same (load_rule p).
Proof. apply keeps_list_skeleton, keeps_load_rule. Qed.
Lemma keeps_list_load_match p : Same (load_match p).
Proof. apply keeps_list_skeleton, keeps_load_match. Qed.
Lemma keeps_list_EvaluateSalience R : Same (EvaluateSalience R).
Proof. apply keeps_list_skeleton, keeps_EvaluateSalience. Qed.
#[local] Hint Resolve keeps_list_load_act keeps_list_load_rule keeps_list_load_match keeps_list_EvaluateSalience : keeps.
Lemma keeps_list_create_activation R b : Same (create_activation R b).
Proof.
  unfold create_activation, watch_activation, PrintActivation, genrand, alloc_act, update_match. keeps_list.
Qed.
End adding.
