(* ===== verification/Run.v ===== *)
(** * The run loop

    [Run] of [engine.c], which fires activations until the agenda is empty, the
    limit is reached or the rules are halted, with the lists of functions
    called before and after each firing, the support of logical conditional
    elements, breakpoints, and [RunCommand], [Halt].  The actions of a rule, the
    registered functions and the disposal of retracted matches are the
    interface [RunHost]; statistics and the tracking of garbage are left out. *)
From S2P Require Import Prelude Router DList Values AgendaState Strategy Focus Agenda.

(** [struct ruleFiredFunctionItem]; the links are the list it is in. *)
Record RuleFiredFunctionItem := mkRuleFiredFunctionItem {
  rff_name : string;
  rff_func : ptr;
  rff_priority : Z;
  rff_context : option ptr;
}.

(** The fields of [struct defrule] only [Run] uses. *)
Record RunRule (E : Type) := mkRunRule {
  watchFiring : bool;
  afterBreakpoint : bool;
  executing : bool;
  logicalJoin : option ptr;
  actions : option E;
}.
Arguments mkRunRule {E}. Arguments watchFiring {E}. Arguments afterBreakpoint {E}.
Arguments executing {E}. Arguments logicalJoin {E}. Arguments actions {E}.

(** The fields of [struct partialMatch] only [Run] uses. *)
Record RunMatch := mkRunMatch {
  busy : bool;
  owner : option ptr;
  leftParent : option ptr;
}.

(** The fields of [engineData], [procedureFunctionData], [evaluationData] and
    [constructData] of the run loop. *)
Record RunData (E : Type) := mkRunData {
  AlreadyRunning : bool;
  HaltRules : bool;
  ExecutingRule : option ptr;
  TheLogicalJoin : option ptr;
  TheLogicalBind : option ptr;
  GlobalLHSBinds : option ptr;
  GlobalRHSBinds : option ptr;
  ListOfBeforeRuleFiresFunctions : list RuleFiredFunctionItem;
  ListOfAfterRuleFiresFunctions : list RuleFiredFunctionItem;
  ReturnFlag : bool;
  CurrentEvaluationDepth : Z;
  DanglingConstructs : Z;
  run_rules : gmap ptr (RunRule E);
  run_matches : gmap ptr RunMatch;
}.
Arguments mkRunData {E}. Arguments AlreadyRunning {E}. Arguments HaltRules {E}.
Arguments ExecutingRule {E}. Arguments TheLogicalJoin {E}. Arguments TheLogicalBind {E}.
Arguments GlobalLHSBinds {E}. Arguments GlobalRHSBinds {E}.
Arguments ListOfBeforeRuleFiresFunctions {E}. Arguments ListOfAfterRuleFiresFunctions {E}.
Arguments ReturnFlag {E}. Arguments CurrentEvaluationDepth {E}. Arguments DanglingConstructs {E}.
Arguments run_rules {E}. Arguments run_matches {E}.

Record RunEnv (H E : Type) := mkRunEnv {
  env : Environment H E;
  run : RunData E;
}.
Arguments mkRunEnv {H E}. Arguments env {H E}. Arguments run {H E}.

(** ** Field assignments *)

Section setters.
Context {H E : Type}.
Implicit Types (d : RunData E).

Definition set_AlreadyRunning v d := mkRunData v (HaltRules d) (ExecutingRule d) (TheLogicalJoin d) (TheLogicalBind d) (GlobalLHSBinds d) (GlobalRHSBinds d) (ListOfBeforeRuleFiresFunctions d) (ListOfAfterRuleFiresFunctions d) (ReturnFlag d) (CurrentEvaluationDepth d) (DanglingConstructs d) (run_rules d) (run_matches d).
Definition set_HaltRules v d := mkRunData (AlreadyRunning d) v (ExecutingRule d) (TheLogicalJoin d) (TheLogicalBind d) (GlobalLHSBinds d) (GlobalRHSBinds d) (ListOfBeforeRuleFiresFunctions d) (ListOfAfterRuleFiresFunctions d) (ReturnFlag d) (CurrentEvaluationDepth d) (DanglingConstructs d) (run_rules d) (run_matches d).
Definition set_ExecutingRule v d := mkRunData (AlreadyRunning d) (HaltRules d) v (TheLogicalJoin d) (TheLogicalBind d) (GlobalLHSBinds d) (GlobalRHSBinds d) (ListOfBeforeRuleFiresFunctions d) (ListOfAfterRuleFiresFunctions d) (ReturnFlag d) (CurrentEvaluationDepth d) (DanglingConstructs d) (run_rules d) (run_matches d).
Definition set_TheLogicalJoin v d := mkRunData (AlreadyRunning d) (HaltRules d) (ExecutingRule d) v (TheLogicalBind d) (GlobalLHSBinds d) (GlobalRHSBinds d) (ListOfBeforeRuleFiresFunctions d) (ListOfAfterRuleFiresFunctions d) (ReturnFlag d) (CurrentEvaluationDepth d) (DanglingConstructs d) (run_rules d) (run_matches d).
Definition set_TheLogicalBind v d := mkRunData (AlreadyRunning d) (HaltRules d) (ExecutingRule d) (TheLogicalJoin d) v (GlobalLHSBinds d) (GlobalRHSBinds d) (ListOfBeforeRuleFiresFunctions d) (ListOfAfterRuleFiresFunctions d) (ReturnFlag d) (CurrentEvaluationDepth d) (DanglingConstructs d) (run_rules d) (run_matches d).
Definition set_GlobalBinds l r d := mkRunData (AlreadyRunning d) (HaltRules d) (ExecutingRule d) (TheLogicalJoin d) (TheLogicalBind d) l r (ListOfBeforeRuleFiresFunctions d) (ListOfAfterRuleFiresFunctions d) (ReturnFlag d) (CurrentEvaluationDepth d) (DanglingConstructs d) (run_rules d) (run_matches d).
Definition set_BeforeFunctions v d := mkRunData (AlreadyRunning d) (HaltRules d) (ExecutingRule d) (TheLogicalJoin d) (TheLogicalBind d) (GlobalLHSBinds d) (GlobalRHSBinds d) v (ListOfAfterRuleFiresFunctions d) (ReturnFlag d) (CurrentEvaluationDepth d) (DanglingConstructs d) (run_rules d) (run_matches d).
Definition set_AfterFunctions v d := mkRunData (AlreadyRunning d) (HaltRules d) (ExecutingRule d) (TheLogicalJoin d) (TheLogicalBind d) (GlobalLHSBinds d) (GlobalRHSBinds d) (ListOfBeforeRuleFiresFunctions d) v (ReturnFlag d) (CurrentEvaluationDepth d) (DanglingConstructs d) (run_rules d) (run_matches d).
Definition set_ReturnFlag v d := mkRunData (AlreadyRunning d) (HaltRules d) (ExecutingRule d) (TheLogicalJoin d) (TheLogicalBind d) (GlobalLHSBinds d) (GlobalRHSBinds d) (ListOfBeforeRuleFiresFunctions d) (ListOfAfterRuleFiresFunctions d) v (CurrentEvaluationDepth d) (DanglingConstructs d) (run_rules d) (run_matches d).
Definition set_Depth v d := mkRunData (AlreadyRunning d) (HaltRules d) (ExecutingRule d) (TheLogicalJoin d) (TheLogicalBind d) (GlobalLHSBinds d) (GlobalRHSBinds d) (ListOfBeforeRuleFiresFunctions d) (ListOfAfterRuleFiresFunctions d) (ReturnFlag d) v (DanglingConstructs d) (run_rules d) (run_matches d).
Definition set_Dangling v d := mkRunData (AlreadyRunning d) (HaltRules d) (ExecutingRule d) (TheLogicalJoin d) (TheLogicalBind d) (GlobalLHSBinds d) (GlobalRHSBinds d) (ListOfBeforeRuleFiresFunctions d) (ListOfAfterRuleFiresFunctions d) (ReturnFlag d) (CurrentEvaluationDepth d) v (run_rules d) (run_matches d).
Definition with_run_rules (f : gmap ptr (RunRule E) → gmap ptr (RunRule E)) d := mkRunData (AlreadyRunning d) (HaltRules d) (ExecutingRule d) (TheLogicalJoin d) (TheLogicalBind d) (GlobalLHSBinds d) (GlobalRHSBinds d) (ListOfBeforeRuleFiresFunctions d) (ListOfAfterRuleFiresFunctions d) (ReturnFlag d) (CurrentEvaluationDepth d) (DanglingConstructs d) (f (run_rules d)) (run_matches d).
Definition with_run_matches (f : gmap ptr RunMatch → gmap ptr RunMatch) d := mkRunData (AlreadyRunning d) (HaltRules d) (ExecutingRule d) (TheLogicalJoin d) (TheLogicalBind d) (GlobalLHSBinds d) (GlobalRHSBinds d) (ListOfBeforeRuleFiresFunctions d) (ListOfAfterRuleFiresFunctions d) (ReturnFlag d) (CurrentEvaluationDepth d) (DanglingConstructs d) (run_rules d) (f (run_matches d)).

Definition set_executing v (i : RunRule E) := mkRunRule (watchFiring i) (afterBreakpoint i) v (logicalJoin i) (actions i).
Definition set_afterBreakpoint v (i : RunRule E) := mkRunRule (watchFiring i) v (executing i) (logicalJoin i) (actions i).
Definition set_busy v (i : RunMatch) := mkRunMatch v (owner i) (leftParent i).

Definition with_env (f : Environment H E → Environment H E) (s : RunEnv H E) : RunEnv H E := mkRunEnv (f (env s)) (run s).
Definition with_run (f : RunData E → RunData E) (s : RunEnv H E) : RunEnv H E := mkRunEnv (env s) (f (run s)).
End setters.

#[export] Instance RunEnv_Router {H E} : Router (RunEnv H E) := { map_output f := with_env (map_output f) }.
#[export] Instance RunEnv_EvalFlags {H E} : EvalFlags (RunEnv H E) := {
  get_EvaluationError s := get_EvaluationError (env s);
  get_HaltExecution s := get_HaltExecution (env s);
  put_EvaluationError v := with_env (put_EvaluationError v);
  put_HaltExecution v := with_env (put_HaltExecution v);
}.

(** The rest of the system as [Run] calls it: the registered functions, the
    actions of a rule, the counts that keep the facts and instances of a match
    alive, the disposal of retracted matches, the periodic functions. *)
Class RunHost (H E : Type) := {
  call_rule_fired : ptr → option ptr → option ptr → M (RunEnv H E) unit;
  EvaluateActions : option E → M (RunEnv H E) unit;
  incrementBasisCount : PatternEntity → H → H;
  decrementBasisCount : PatternEntity → H → H;
  FlushGarbagePartialMatches : M (RunEnv H E) unit;
  CallPeriodicTasks : M (RunEnv H E) unit;
}.

Section run.
Context {H E : Type} `{!Host H E, !RunHost H E}.
Abbreviation MR := (M (RunEnv H E)).

(** The code of the agenda and of the focus stack, on the larger state. *)
Definition onEnv {A} (m : MA H E A) : MR A := fun s =>
  match m (env s) with Some (a, e) => Some (a, mkRunEnv e (run s)) | None => None end.

Definition load_run_rule (p : ptr) : MR (RunRule E) := d ← gets run; fromOption (run_rules d !! p).
Definition load_run_match (p : ptr) : MR RunMatch := d ← gets run; fromOption (run_matches d !! p).
Definition update_run_rule (p : ptr) (f : RunRule E → RunRule E) : MR unit :=
  load_run_rule p ≫= fun _ => modify (with_run (with_run_rules (alter f p))).
Definition update_run_match (p : ptr) (f : RunMatch → RunMatch) : MR unit :=
  load_run_match p ≫= fun _ => modify (with_run (with_run_matches (alter f p))).
(** [EngineData(theEnv)->ExecutingRule], dereferenced. *)
Definition executing_rule : MR ptr := d ← gets run; fromOption (ExecutingRule d).

(** ** The functions called around a firing *)

Fixpoint AddRuleFiredFunctionToCallList (name : string) (priority : Z) (func : ptr)
    (head : list RuleFiredFunctionItem) (context : option ptr) : list RuleFiredFunctionItem :=
  match head with
  | currentPtr :: next =>
      if (priority <? rff_priority currentPtr)%Z
      then currentPtr :: AddRuleFiredFunctionToCallList name priority func next context
      else mkRuleFiredFunctionItem name func priority context :: head
  | [] => [mkRuleFiredFunctionItem name func priority context]
  end.

(** The new list and [*found]. *)
Fixpoint RemoveRuleFiredFunctionFromCallList (name : string) (head : list RuleFiredFunctionItem) :
    list RuleFiredFunctionItem * bool :=
  match head with
  | [] => ([], false)
  | currentPtr :: next =>
      if decide (name = rff_name currentPtr) then (next, true)
      else let '(l, found) := RemoveRuleFiredFunctionFromCallList name next in (currentPtr :: l, found)
  end.

Definition AddAfterRuleFiresFunction (name : string) (func : ptr) (priority : Z) (context : option ptr) : MR bool :=
  d ← gets run;
  _ ← modify (with_run (set_AfterFunctions
        (AddRuleFiredFunctionToCallList name priority func (ListOfAfterRuleFiresFunctions d) context)));
  mret true.
Definition AddBeforeRuleFiresFunction (name : string) (func : ptr) (priority : Z) (context : option ptr) : MR bool :=
  d ← gets run;
  _ ← modify (with_run (set_BeforeFunctions
        (AddRuleFiredFunctionToCallList name priority func (ListOfBeforeRuleFiresFunctions d) context)));
  mret true.
Definition RemoveAfterRuleFiresFunction (name : string) : MR bool :=
  d ← gets run;
  let '(l, found) := RemoveRuleFiredFunctionFromCallList name (ListOfAfterRuleFiresFunctions d) in
  _ ← modify (with_run (set_AfterFunctions l));
  mret found.
Definition RemoveBeforeRuleFiresFunction (name : string) : MR bool :=
  d ← gets run;
  let '(l, found) := RemoveRuleFiredFunctionFromCallList name (ListOfBeforeRuleFiresFunctions d) in
  _ ← modify (with_run (set_BeforeFunctions l));
  mret found.

(** The list is walked as it is when the walk starts: the functions are taken
    not to unregister one another while they are called. *)
Fixpoint call_rule_fired_functions (l : list RuleFiredFunctionItem) (theActivation : option ptr) : MR unit :=
  match l with
  | [] => mret tt
  | ruleFiresFunction :: next =>
      _ ← call_rule_fired (rff_func ruleFiresFunction) theActivation (rff_context ruleFiresFunction);
      call_rule_fired_functions next theActivation
  end.

(** ** The steps of one firing *)

(** [gensnprintf("FIRE %4lld ")] *)
Definition pad_left (n : nat) (s : string) : string :=
  (fix go k := match k with O => s | S k' => " " +:+ go k' end) (n - String.length s).

Definition take_activation (theActivation : ptr) : MR (string * option ptr) :=
  _ ← onEnv (DetachActivation theActivation);
  ruleFiring ← onEnv (ActivationRuleName theActivation);
  theBasis ← onEnv (GetActivationBasis theActivation);
  theRule ← onEnv (GetActivationRule theActivation);
  _ ← modify (with_run (set_ExecutingRule (Some theRule)));
  mret (ruleFiring, theBasis).

Definition announce_firing (ruleFiring : string) (theBasis : option ptr) (rulesFired : Z) : MR unit :=
  R ← executing_rule; i ← load_run_rule R;
  whenM (watchFiring i)
    (_ ← WriteString STDOUT ("FIRE " +:+ pad_left 4 (pretty rulesFired) +:+ " ");
     _ ← WriteString STDOUT ruleFiring;
     _ ← WriteString STDOUT ": ";
     _ ← write_item (OPartialMatch STDOUT theBasis);
     WriteString STDOUT newline).

(** The loop over [theBasis->binds]. *)
Fixpoint basis_counts (count : PatternEntity → H → H) (l : list (option AlphaMatch)) : MR unit :=
  match l with
  | [] => mret tt
  | None :: l' => basis_counts count l'
  | Some theMatch :: l' =>
      _ ← match matchingItem theMatch with
          | Some theMatchingItem => modify (with_env (with_host (count theMatchingItem)))
          | None => mret tt
          end;
      basis_counts count l'
  end.

Definition occupy_basis (theBasis : ptr) : MR unit :=
  _ ← onEnv (update_match theBasis (set_marker None));
  _ ← update_run_match theBasis (set_busy true);
  _ ← modify (with_run (set_GlobalBinds (Some theBasis) None));
  pm ← onEnv (load_match theBasis);
  basis_counts incrementBasisCount (binds pm).

Fixpoint find_logical_loop (fuel : nat) (theJoin : ptr) (compPtr : option ptr) : MR (option ptr) :=
  match compPtr with
  | None => mret None
  | Some p =>
      match fuel with
      | O => undefined
      | S fuel' =>
          i ← load_run_match p;
          if decide (owner i = Some theJoin) then mret (Some p)
          else find_logical_loop fuel' theJoin (leftParent i)
      end
  end.
Definition FindLogicalBind (theJoin theBinds : ptr) : MR (option ptr) :=
  d ← gets run; find_logical_loop (size (run_matches d)) theJoin (Some theBinds).

Definition set_logical_support (theBasis : ptr) : MR unit :=
  R ← executing_rule; i ← load_run_rule R;
  _ ← modify (with_run (set_TheLogicalJoin (logicalJoin i)));
  match logicalJoin i with
  | Some theJoin =>
      lb ← FindLogicalBind theJoin theBasis;
      _ ← modify (with_run (set_TheLogicalBind lb));
      l ← fromOption lb; update_run_match l (set_busy true)
  | None => modify (with_run (set_TheLogicalBind None))
  end.

(** [EvaluateProcActions] of [prccode.c] for the actions of a rule: they run
    with the rule's module current.  The array of local variables is part of
    the evaluation of the actions. *)
Definition EvaluateProcActions (theModule : ptr) (theActions : option E) : MR unit :=
  dd ← gets (fun s => defmoduleData (env s));
  let oldModule := CurrentModule dd in
  _ ← whenM (bool_decide (oldModule ≠ Some theModule)) (onEnv (_ ← SetCurrentModule (Some theModule); mret tt));
  _ ← EvaluateActions theActions;
  dd' ← gets (fun s => defmoduleData (env s));
  whenM (bool_decide (oldModule ≠ CurrentModule dd')) (onEnv (_ ← SetCurrentModule oldModule; mret tt)).

Definition execute_actions : MR bool :=
  _ ← modify (with_run (fun d => set_Depth (CurrentEvaluationDepth d + 1)%Z d));
  _ ← SetEvaluationError false;
  R ← executing_rule;
  _ ← update_run_rule R (set_executing true);
  d ← gets run;
  let danglingConstructs := DanglingConstructs d in
  r ← onEnv (load_rule R); i ← load_run_rule R;
  _ ← EvaluateProcActions (whichModule r) (actions i);
  error ← GetEvaluationError;
  R' ← executing_rule;
  _ ← update_run_rule R' (set_executing false);
  _ ← SetEvaluationError false;
  _ ← modify (with_run (fun d => set_Depth (CurrentEvaluationDepth d - 1)%Z d));
  fl ← gets (fun s => flags (env s));
  _ ← whenM (negb (CurrentExpression fl)) (modify (with_run (set_Dangling danglingConstructs)));
  mret error.

Definition drop_logical_support : MR unit :=
  _ ← modify (with_run (set_TheLogicalJoin None));
  d ← gets run;
  match TheLogicalBind d with
  | Some l => _ ← update_run_match l (set_busy false); modify (with_run (set_TheLogicalBind None))
  | None => mret tt
  end.

Definition halt_message (ruleFiring : string) (error : bool) : MR unit :=
  fl ← gets (fun s => flags (env s)); d ← gets run;
  halted ← (if HaltExecution fl then mret true
            else if HaltRules d then R ← executing_rule; i ← load_run_rule R; mret (watchFiring i)
            else mret false);
  whenM halted
    (let logName := if error then STDERR else STDWRN in
     _ ← (if error then PrintErrorID "PRCCODE" 4 false else PrintWarningID "PRCCODE" 4 false);
     _ ← WriteString logName "Execution halted during the actions of defrule '";
     _ ← WriteString logName ruleFiring;
     WriteString logName ("'." +:+ newline)).

Definition release_basis (theBasis : ptr) : MR unit :=
  _ ← update_run_match theBasis (set_busy false);
  pm ← onEnv (load_match theBasis);
  basis_counts decrementBasisCount (binds pm).

(** Updating the saliences, and the focus after a [return]. *)
Definition refresh_each_cycle : MR unit :=
  se ← onEnv GetSalienceEvaluation;
  whenM (bool_decide (se = EVERY_CYCLE)) (onEnv RefreshAllAgendas).
Definition return_from_rule : MR unit :=
  d ← gets run;
  _ ← whenM (ReturnFlag d)
        (R ← executing_rule; r ← onEnv (load_rule R);
         _ ← onEnv (RemoveFocus (whichModule r)); mret tt);
  modify (with_run (set_ReturnFlag false)).
Definition check_breakpoint (theActivation : option ptr) : MR unit :=
  match theActivation with
  | None => mret tt
  | Some x =>
      R ← onEnv (GetActivationRule x); i ← load_run_rule R;
      whenM (afterBreakpoint i)
        (_ ← modify (with_run (set_HaltRules true));
         _ ← WriteString STDOUT "Breaking on rule ";
         name ← onEnv (ActivationRuleName x);
         _ ← WriteString STDOUT name;
         WriteString STDOUT ("." +:+ newline))
  end.

(** ** The loop *)

(** The body up to the end of the actions: the count, the rule's name, its
    basis and whether its actions failed. *)
Definition fire_actions (theActivation : ptr) (rulesFired : Z) : MR (Z * string * ptr * bool) :=
  d ← gets run;
  _ ← call_rule_fired_functions (ListOfBeforeRuleFiresFunctions d) (Some theActivation);
  '(ruleFiring, basis0) ← take_activation theActivation;
  rulesFired' ← fromOption (long_long (rulesFired + 1));
  _ ← announce_firing ruleFiring basis0 rulesFired';
  theBasis ← fromOption basis0;
  _ ← occupy_basis theBasis;
  _ ← set_logical_support theBasis;
  error ← execute_actions;
  mret (rulesFired', ruleFiring, theBasis, error).

(** The rest of the body: the next activation. *)
Definition finish_firing (theActivation : ptr) (ruleFiring : string) (theBasis : ptr) (error : bool) :
    MR (option ptr) :=
  d ← gets run;
  _ ← call_rule_fired_functions (ListOfAfterRuleFiresFunctions d) (Some theActivation);
  _ ← drop_logical_support;
  _ ← halt_message ruleFiring error;
  _ ← release_basis theBasis;
  _ ← onEnv (RemoveActivation theActivation false false);
  _ ← FlushGarbagePartialMatches;
  _ ← CallPeriodicTasks;
  _ ← refresh_each_cycle;
  _ ← return_from_rule;
  next ← onEnv NextActivationToFire;
  _ ← check_breakpoint next;
  mret next.

Definition decrement_limit (runLimit : Z) : Z := if (runLimit >? 0)%Z then (runLimit - 1)%Z else runLimit.

Fixpoint run_loop (fuel : nat) (theActivation : option ptr) (rulesFired runLimit : Z) : MR (Z * Z) :=
  fl ← gets (fun s => flags (env s)); d ← gets run;
  match theActivation with
  | None => mret (rulesFired, runLimit)
  | Some x =>
      if (runLimit =? 0)%Z || HaltExecution fl || HaltRules d then mret (rulesFired, runLimit)
      else
        match fuel with
        | O => undefined
        | S fuel' =>
            '(rulesFired', ruleFiring, theBasis, error) ← fire_actions x rulesFired;
            next ← finish_firing x ruleFiring theBasis error;
            run_loop fuel' next rulesFired' (decrement_limit runLimit)
        end
  end.

(** What [Run] does after the loop. *)
Definition finish_run (rulesFired runLimit : Z) : MR unit :=
  d ← gets run;
  _ ← whenM (rulesFired =? 0)%Z (call_rule_fired_functions (ListOfAfterRuleFiresFunctions d) None);
  _ ← whenM (runLimit =? rulesFired)%Z (WriteString STDOUT ("rule firing limit reached" +:+ newline));
  _ ← modify (with_run (set_ExecutingRule None));
  _ ← modify (with_run (set_HaltRules false));
  e ← gets (fun s => engineData (env s));
  dd ← gets (fun s => defmoduleData (env s));
  _ ← match CurrentFocus e with
      | f :: _ => whenM (bool_decide (CurrentModule dd ≠ Some f)) (onEnv (_ ← SetCurrentModule (Some f); mret tt))
      | [] => mret tt
      end;
  _ ← CallPeriodicTasks;
  modify (with_run (set_AlreadyRunning false)).

(** What [Run] does before the loop. *)
Definition start_run : MR (option ptr) :=
  _ ← modify (with_run (set_AlreadyRunning true));
  fl ← gets (fun s => flags (env s));
  _ ← whenM (negb (CurrentExpression fl)) ResetErrorFlags;
  _ ← modify (with_run (set_HaltRules false));
  onEnv NextActivationToFire.

(** [fuel] bounds the number of firings. *)
Definition Run (fuel : nat) (runLimit : Z) : MR Z :=
  d ← gets run;
  if AlreadyRunning d then mret 0%Z
  else
    theActivation ← start_run;
    '(rulesFired, runLimit') ← run_loop fuel theActivation 0 runLimit;
    _ ← finish_run rulesFired runLimit';
    mret rulesFired.

(** ** Halting and breakpoints *)

Definition Halt : MR unit := modify (with_run (set_HaltRules true)).

(** The walk over the disjuncts of a rule. *)
Fixpoint break_loop (fuel : nat) (v : bool) (thePtr : option ptr) (rv : bool) : MR bool :=
  match thePtr with
  | None => mret rv
  | Some p =>
      match fuel with
      | O => undefined
      | S fuel' =>
          i ← load_run_rule p;
          _ ← update_run_rule p (set_afterBreakpoint v);
          r ← onEnv (load_rule p);
          break_loop fuel' v (disjunct r) (rv || afterBreakpoint i)
      end
  end.
Definition SetBreak (theRule : ptr) : MR unit :=
  fuel ← onEnv rule_fuel; _ ← break_loop fuel true (Some theRule) false; mret tt.
(** Clearing a flag that is clear changes nothing. *)
Definition RemoveBreak (theRule : ptr) : MR bool :=
  fuel ← onEnv rule_fuel; break_loop fuel false (Some theRule) false.
Definition DefruleHasBreakpoint (theRule : ptr) : MR bool :=
  i ← load_run_rule theRule; mret (afterBreakpoint i).
End run.
