(* ===== verification/RunInv.v ===== *)
(** * The invariant of a run

    What holds between the steps of the run loop: the invariant of all
    agendas, the modules on the focus stack, the rules and matches with their
    run data, the support of logical matches; the phases of one firing, and
    what the code outside the loop keeps of them ([RunLaws]). *)
From S2P Require Import Prelude Router Keeps DList Values AgendaState Strategy StrategyProofs AgendaRep.
From S2P Require Import PlaceProofs Focus Agenda AgendaProofs SystemInv AddProofs.
From S2P Require Import RemoveProofs RemoveSystem ReorderSystem AgendaKeeps.
From S2P Require Import Run.

(** ** The logical support of a match *)

(** From a match up its left parents to the first that belongs to the join. *)
Inductive lineage (ms : gmap ptr RunMatch) (j : ptr) : option ptr → list ptr → ptr → Prop :=
  | lineage_here p i : ms !! p = Some i → owner i = Some j → lineage ms j (Some p) [p] p
  | lineage_up p i l lb : ms !! p = Some i → owner i ≠ Some j → lineage ms j (leftParent i) l lb →
      lineage ms j (Some p) (p :: l) lb.

Definition supported (ms : gmap ptr RunMatch) (j b : ptr) : Prop := ∃ l lb, lineage ms j (Some b) l lb.

Lemma lineage_det ms j o l lb l' lb' :
  lineage ms j o l lb → lineage ms j o l' lb' → l = l' ∧ lb = lb'.
Proof.
  intros H1. revert l' lb'. induction H1 as [p i Hp Ho|p i l lb Hp Ho H1 IH]; intros l' lb' H2;
    inversion H2; subst; simplify_eq; [done|].
  match goal with H : lineage _ _ (leftParent _) _ _ |- _ => by destruct (IH _ _ H) as [-> ->] end.
Qed.

Lemma lineage_suffix ms j o l lb p :
  lineage ms j o l lb → p ∈ l → ∃ l1 l2, l = l1 ++ l2 ∧ lineage ms j (Some p) l2 lb.
Proof.
  induction 1 as [q i Hq Ho|q i l lb Hq Ho H1 IH].
  - intros ->%list_elem_of_singleton. exists [], [q]. split; [done|]. by econstructor.
  - intros [->|Hp]%elem_of_cons; [exists [], (q :: l); split; [done|by eapply lineage_up]|].
    destruct (IH Hp) as (l1 & l2 & -> & Hl). by exists (q :: l1), l2.
Qed.

(** The parents do not come back: the search ends. *)
Lemma lineage_NoDup ms j o l lb : lineage ms j o l lb → NoDup l.
Proof.
  induction 1 as [q i Hq Ho|q i l lb Hq Ho H1 IH]; [apply NoDup_singleton|].
  apply NoDup_cons. split; [|done]. intros Hin.
  destruct (lineage_suffix _ _ _ _ _ _ H1 Hin) as (l1 & l2 & -> & Hl).
  assert (H2 : lineage ms j (Some q) (q :: l1 ++ l2) lb) by by eapply lineage_up.
  destruct (lineage_det _ _ _ _ _ _ _ Hl H2) as [Heq _].
  apply (f_equal length) in Heq. simpl in Heq. rewrite length_app in Heq. lia.
Qed.

Lemma lineage_live ms j o l lb p : lineage ms j o l lb → p ∈ l → is_Some (ms !! p).
Proof. induction 1; set_solver. Qed.
Lemma lineage_last ms j o l lb : lineage ms j o l lb → lb ∈ l.
Proof. induction 1; set_solver. Qed.

Lemma lineage_size ms j o l lb : lineage ms j o l lb → length l ≤ size ms.
Proof.
  intros Hl. assert (Hsub : list_to_set (C := gset ptr) l ⊆ dom ms).
  { intros x Hx%elem_of_list_to_set. apply elem_of_dom. by eapply lineage_live. }
  apply subseteq_size in Hsub. rewrite size_list_to_set in Hsub by by eapply lineage_NoDup.
  by rewrite size_dom in Hsub.
Qed.

(** What [busy] leaves alone. *)
Definition match_link (i : RunMatch) : option ptr * option ptr := (owner i, leftParent i).

Lemma lineage_links ms ms' j o l lb :
  match_link <$> ms' = match_link <$> ms → lineage ms j o l lb → lineage ms' j o l lb.
Proof.
  intros Hms. assert (Hl : ∀ p i, ms !! p = Some i → ∃ i', ms' !! p = Some i' ∧ owner i' = owner i ∧ leftParent i' = leftParent i).
  { intros p i Hp. assert (Hq : match_link <$> ms' !! p = Some (match_link i)).
    { rewrite <- lookup_fmap, Hms, lookup_fmap, Hp. done. }
    destruct (ms' !! p) as [i'|]; [|done]. exists i'. simpl in Hq. unfold match_link in Hq. by simplify_eq. }
  induction 1 as [q i Hq Ho|q i l lb Hq Ho H1 IH]; destruct (Hl _ _ Hq) as (i' & Hi' & Ho' & Hp').
  - eapply lineage_here; [done|congruence].
  - eapply lineage_up; [done|congruence|]. by rewrite Hp'.
Qed.

(** ** The invariant of a run *)

Section invariant.
Context {H E : Type}.
Implicit Types (s : RunEnv H E) (e : Environment H E) (d : RunData E).

Record run_inv s (AG : gmap ptr (list Seg)) : Prop := {
  ri_system : system_inv (env s) AG;
  ri_focus f : f ∈ CurrentFocus (engineData (env s)) → is_Some (AG !! f);
  ri_listed k : k ∈ ListOfDefmodules (defmoduleData (env s)) → is_Some (AG !! k);
  ri_main : ∃ m, m ∈ ListOfDefmodules (defmoduleData (env s)) ∧
    module_name <$> modules (store (env s)) !! m = Some "MAIN";
  ri_rules R : is_Some (rules (store (env s)) !! R) → is_Some (run_rules (run s) !! R);
  ri_matches b : is_Some (matches (store (env s)) !! b) → is_Some (run_matches (run s) !! b);
  ri_support m segs x R b i j : AG !! m = Some segs → x ∈ members segs →
    act_link <$> acts (store (env s)) !! x = Some (R, Some b) → run_rules (run s) !! R = Some i →
    logicalJoin i = Some j → supported (run_matches (run s)) j b;
}.

(** What the invariant reads of the data of the run. *)
Definition run_view d : gmap ptr (option ptr) * gmap ptr (option ptr * option ptr) :=
  (logicalJoin <$> run_rules d, match_link <$> run_matches d).

Lemma fmap_lookup_is_Some {A B} (f : A → B) (m m' : gmap ptr A) k :
  f <$> m' = f <$> m → is_Some (m !! k) → is_Some (m' !! k).
Proof.
  intros Heq Hk. rewrite <- (fmap_is_Some f), <- lookup_fmap, Heq, lookup_fmap, fmap_is_Some. done.
Qed.
Lemma fmap_lookup_Some {A B} (f : A → B) (m m' : gmap ptr A) k x :
  f <$> m' = f <$> m → m' !! k = Some x → ∃ y, m !! k = Some y ∧ f y = f x.
Proof.
  intros Heq Hk. assert (Hy : f <$> m !! k = Some (f x)).
  { rewrite <- lookup_fmap, <- Heq, lookup_fmap, Hk. done. }
  destruct (m !! k) as [y|]; [|done]. exists y. simpl in Hy. split; [done|congruence].
Qed.

Lemma run_inv_run e d d' AG :
  run_view d' = run_view d → run_inv (mkRunEnv e d) AG → run_inv (mkRunEnv e d') AG.
Proof.
  intros Hv [Hs Hf Hl Hm Hr Hma Hsup]. injection Hv as Hv1 Hv2. split; try done; simpl in *.
  - intros R HR. eapply fmap_lookup_is_Some; [exact Hv1|auto].
  - intros b Hb. eapply fmap_lookup_is_Some; [exact Hv2|auto].
  - intros m segs x R b i j Hsegs Hx Hlk Hi Hj.
    destruct (fmap_lookup_Some _ _ _ _ _ Hv1 Hi) as (i' & Hi' & Heq).
    destruct (Hsup m segs x R b i' j Hsegs Hx Hlk Hi') as (l & lb & Hlin); [congruence|].
    exists l, lb. by eapply lineage_links.
Qed.

(** The parts of a skeleton that every step of a run keeps. *)
Record same_static e e' : Prop := {
  ss_names : sk_names (skeleton e') = sk_names (skeleton e);
  ss_rules : sk_rules (skeleton e') = sk_rules (skeleton e);
  ss_binds : sk_binds (skeleton e') = sk_binds (skeleton e);
  ss_modules : sk_modules (skeleton e') = sk_modules (skeleton e);
}.

Lemma skeleton_static e e' : skeleton e' = skeleton e → same_static e e'.
Proof. unfold skeleton. intros Heq. injection Heq as ? ? ? _ ? _. by split. Qed.
Lemma store_static e e' :
  store e' = store e → ListOfDefmodules (defmoduleData e') = ListOfDefmodules (defmoduleData e) →
  same_static e e'.
Proof. intros Hs Hl. split; simpl; by rewrite ?Hs. Qed.

(** A step of the agenda code keeps the invariant when it keeps the invariant
    of the agendas, adds no activation and focuses on known modules. *)
Lemma run_inv_env e e' d AG AG' :
  run_inv (mkRunEnv e d) AG → same_static e e' → system_inv e' AG' →
  (∀ k, is_Some (AG !! k) → is_Some (AG' !! k)) →
  (∀ f, f ∈ CurrentFocus (engineData e') → is_Some (AG !! f)) →
  (∀ m segs' x, AG' !! m = Some segs' → x ∈ members segs' →
    act_link <$> acts (store e') !! x = act_link <$> acts (store e) !! x ∧
    ∃ segs, AG !! m = Some segs ∧ x ∈ members segs) →
  run_inv (mkRunEnv e' d) AG'.
Proof.
  intros [Hs Hf Hl Hm Hr Hma Hsup] [Hnames Hrules Hbinds Hmods] Hs' Hdom Hf' Hmem. simpl in *.
  split; simpl; try done.
  - intros f Hin. by apply Hdom, Hf'.
  - intros k. rewrite Hmods. intros Hk. by apply Hdom, Hl.
  - destruct Hm as (m & Hin & Hmain). exists m. rewrite Hmods. split; [done|].
    by rewrite <- lookup_fmap, Hnames, lookup_fmap.
  - intros R HR. apply Hr. eapply fmap_lookup_is_Some; [symmetry; exact Hrules|done].
  - intros b Hb. apply Hma. eapply fmap_lookup_is_Some; [symmetry; exact Hbinds|done].
  - intros m segs' x R b i j Hsegs Hx Hlk Hi Hj. destruct (Hmem m segs' x Hsegs Hx) as (Hlk' & segs & Hk & Hx').
    eapply (Hsup m segs x R b i j); try done. by rewrite <- Hlk'.
Qed.

(** ** The phases of a firing *)

Record flight (x b R : ptr) s (AG : gmap ptr (list Seg)) : Prop := {
  fl_act : act_link <$> acts (store (env s)) !! x = Some (R, Some b);
  fl_off m segs : AG !! m = Some segs → x ∉ members segs;
  fl_rule : is_Some (rules (store (env s)) !! R);
  fl_match : is_Some (matches (store (env s)) !! b);
  fl_executing : ExecutingRule (run s) = Some R;
}.

Inductive Phase :=
  | Waiting                                (** no rule is firing *)
  | Chosen (x : ptr)                       (** [x] is the next activation *)
  | Firing (executes : bool) (x b R : ptr) (** [x] is off the agenda, its basis is busy *)
  | Fired (R : ptr).                       (** the activation is gone *)

Definition at_phase (ph : Phase) s (AG : gmap ptr (list Seg)) : Prop :=
  run_inv s AG ∧ AlreadyRunning (run s) = true ∧
  match ph with
  | Waiting => True
  | Chosen x => ∃ m segs, AG !! m = Some segs ∧ x ∈ members segs
  | Firing executes x b R =>
      flight x b R s AG ∧
      (executing <$> run_rules (run s) !! R) = Some executes ∧
      (busy <$> run_matches (run s) !! b) = Some true ∧
      ∀ l, TheLogicalBind (run s) = Some l → is_Some (run_matches (run s) !! l)
  | Fired R => is_Some (rules (store (env s)) !! R) ∧ ExecutingRule (run s) = Some R
  end.
Definition phase (ph : Phase) s : Prop := ∃ AG, at_phase ph s AG.

(** Code that returns and keeps a property. *)
Definition preserves (P : RunEnv H E → Prop) (m : M (RunEnv H E) unit) : Prop :=
  ∀ s, P s → ∃ s', m s = Some (tt, s') ∧ P s'.

(** What [Run] relies on in the code it calls: it returns, and what is firing
    stays allocated: an activation off the agenda, a busy match, a rule that
    is executing. *)
Class RunLaws `{!RunHost H E} : Prop := {
  law_before f x c : preserves (phase (Chosen x)) (call_rule_fired f (Some x) c);
  law_after f x b R c : preserves (phase (Firing false x b R)) (call_rule_fired f (Some x) c);
  law_no_rule f c : preserves (phase Waiting) (call_rule_fired f None c);
  law_actions a x b R : preserves (phase (Firing true x b R)) (EvaluateActions a);
  law_flush R : preserves (phase (Fired R)) FlushGarbagePartialMatches;
  law_periodic R : preserves (phase (Fired R)) CallPeriodicTasks;
  law_periodic_idle : preserves (phase Waiting) CallPeriodicTasks;
}.
End invariant.

(** ** The agenda code of a firing *)

Section agenda_steps.
Context {H E : Type} `{!Host H E}.
Implicit Types (e : Environment H E) (st : Store E).

Lemma spec_filter_members keep segs segs' x :
  abs segs' = spec_filter keep (abs segs) → x ∈ members segs' → x ∈ members segs.
Proof.
  intros Habs. rewrite <- !firing_order_abs, Habs, firing_order_filter.
  by intros [_ ?]%list_elem_of_filter.
Qed.

(** An activation on an agenda has a live rule and a live basis. *)
Lemma member_live e AG m segs x :
  system_inv e AG → AG !! m = Some segs → x ∈ members segs →
  ∃ a r b pm, acts (store e) !! x = Some a ∧ rules (store e) !! theRule a = Some r ∧ whichModule r = m ∧
  basis a = Some b ∧ matches (store e) !! b = Some pm.
Proof.
  intros Hinv Hm (sg & Hsg & Hx)%elem_of_members.
  destruct (rep_act_in _ _ _ _ _ (wa_rep _ _ _ _ (si_wf _ _ Hinv _ _ Hm)) Hsg Hx)
    as (a & r & Ha & _ & Hr & Hw & _ & b & pm & Hb & Hpm & _).
  by exists a, r, b, pm.
Qed.

Lemma reset_links_frame st m x a a1 :
  acts st !! x = Some a1 → payload a1 = payload a →
  frame m [x] [] [] st (with_acts <[x := set_act_next None (set_act_prev None a)]> st).
Proof.
  intros Ha Hp. split; simpl; try done.
  - intros k b _ Hb. rewrite lookup_insert. case_decide as Hk; [|eauto].
    subst k. rewrite Ha in Hb. injection Hb as <-. eexists. split; [done|]. exact (eq_sym Hp).
  - intros y Hy. rewrite lookup_insert_ne; [done|set_solver].
Qed.

Lemma DetachActivation_system e AG m segs x :
  system_inv e AG → AG !! m = Some segs → x ∈ members segs →
  ∃ e' segs' a, DetachActivation x e = Some (true, e') ∧ system_inv e' (<[m := segs']> AG) ∧
  abs segs' = spec_filter (except x) (abs segs) ∧ x ∉ members segs' ∧
  acts (store e) !! x = Some a ∧ acts (store e') !! x = Some (set_act_next None (set_act_prev None a)) ∧
  engineData e' = engineData e ∧ agendaData e' = set_AgendaChanged true (agendaData e) ∧ flags e' = flags e.
Proof.
  intros Hinv Hm Hx. destruct (member_live e AG m segs x Hinv Hm Hx) as (a & r & b & pm & Ha & Hr & Hw & _ & _).
  destruct (members_decompose _ _ Hx) as (S1 & g & sal & l1 & l2 & S2 & Hsegs).
  pose proof (wa_rep _ _ _ _ (si_wf _ _ Hinv _ _ Hm)) as Hrep. rewrite Hsegs in Hrep.
  destruct (DetachActivation_spec e a r m S1 g sal l1 x l2 S2 Ha Hr Hw Hrep) as (s1 & Hoff & Hrun).
  pose proof (of_frame _ _ _ _ _ _ _ _ _ _ Hoff) as HF1. pose proof (of_state _ _ _ _ _ _ _ _ _ _ Hoff) as Hs1.
  destruct (frame_payloads _ _ _ _ _ _ HF1 x a ltac:(set_solver) Ha) as (a1 & Ha1 & Hp).
  match type of Hrun with _ = Some (true, ?e1) => set (e' := e1) in * end.
  destruct (off_inv e AG m segs x S1 g sal l1 l2 S2 s1 e' [] Hinv Hm Hsegs Hoff) as (Hinv' & Habs & Hnx & _);
    [by eapply reset_links_frame|set_solver|done|unfold strategy_of, e'; simpl; by rewrite Hs1|unfold e'; simpl; by rewrite Hs1|].
  exists e', (seg_keep S1 g sal (l1 ++ l2) S2), a. split; [exact Hrun|]. split_and!; try done.
  - simpl. by rewrite lookup_insert_eq.
  - unfold e'. simpl. by rewrite Hs1.
  - unfold e'. simpl. by rewrite Hs1.
  - unfold e'. simpl. by rewrite Hs1.
Qed.

(** Freeing an activation that is on no agenda. *)
Lemma RemoveActivation_detached e AG x a r :
  system_inv e AG → (∀ m segs, AG !! m = Some segs → x ∉ members segs) →
  acts (store e) !! x = Some a → rules (store e) !! theRule a = Some r →
  ∃ e', RemoveActivation x false false e = Some (tt, e') ∧ system_inv e' AG ∧
  store e' = with_acts (delete x) (store e) ∧ engineData e' = engineData e ∧
  defmoduleData e' = defmoduleData e ∧ flags e' = flags e ∧
  agendaData e' = set_NumberOfActivations (wrap64u (NumberOfActivations (agendaData e) - 1)) (agendaData e).
Proof.
  intros Hinv Hoff Ha Hr. unfold RemoveActivation.
  mrun (load_act_Some e _ _ Ha). mrun (load_rule_Some e _ _ Hr).
  erewrite M_bind_Some by reflexivity. cbn beta. erewrite M_bind_Some by reflexivity. cbn beta.
  erewrite M_bind_Some by reflexivity. cbn beta. erewrite M_bind_Some by reflexivity. cbn beta.
  unfold free_act. erewrite M_bind_Some by (apply load_act_Some; exact Ha). cbn beta.
  eexists. split; [reflexivity|]. split_and!; try done.
  set (e' := with_store _ _).
  assert (HF : ∀ m, frame m [x] [] [x] (store e) (store e')).
  { intros m. exact (free_frame m (store e) x id (fun k => eq_refl)). }
  destruct Hinv as [Hw Hg Ht Hi]. split; simpl; try done.
  - intros m segs Hk. eapply wf_agenda_frame; [exact (HF m)|done|by apply Hw| |set_solver].
    intros y Hy. assert (y ≠ x) by (intros ->; by eapply Hoff). set_solver.
  - intros m segs y ya Hk Hy Hya. rewrite lookup_delete_ne in Hya; [by eapply Ht|].
    intros <-. by eapply Hoff.
  - intros m segs Hk. eapply tags_inj_frame; [exact (HF m)|by apply Hi with m|].
    intros y Hy. split; [done|]. split; [intros ->%list_elem_of_singleton; by eapply Hoff|].
    eapply rep_live; [apply (wa_rep _ _ _ _ (Hw m segs Hk))|done].
Qed.
End agenda_steps.
