(* ===== verification/RunProofs.v ===== *)
(** * One firing keeps the system well formed

    What every step of the body of the run loop does to the invariant and the
    phase, from the chosen activation to the next one. *)
From S2P Require Import Prelude Router Keeps DList Values AgendaState Strategy StrategyProofs AgendaRep.
From S2P Require Import PlaceProofs Focus Agenda AgendaProofs SystemInv AddProofs.
From S2P Require Import RemoveProofs RemoveSystem ReorderSystem AgendaKeeps.
From S2P Require Import Run RunInv.

(** ** Stepping through the run loop *)

Section steps.
Context {H E : Type} `{!Host H E, !RunHost H E}.
Implicit Types (s : RunEnv H E) (e : Environment H E) (d : RunData E).

Lemma onEnv_Some {A} (m : MA H E A) s a e :
  m (env s) = Some (a, e) → onEnv m s = Some (a, mkRunEnv e (run s)).
Proof. unfold onEnv. by intros ->. Qed.
Lemma load_run_rule_Some s p i : run_rules (run s) !! p = Some i → load_run_rule p s = Some (i, s).
Proof. unfold load_run_rule, mbind, M_bind, gets, fromOption. by intros ->. Qed.
Lemma load_run_match_Some s p i : run_matches (run s) !! p = Some i → load_run_match p s = Some (i, s).
Proof. unfold load_run_match, mbind, M_bind, gets, fromOption. by intros ->. Qed.
Lemma update_run_rule_Some s p f i :
  run_rules (run s) !! p = Some i → update_run_rule p f s = Some (tt, with_run (with_run_rules (alter f p)) s).
Proof. intros Hi. unfold update_run_rule. by mrun (load_run_rule_Some s p i Hi). Qed.
Lemma update_run_match_Some s p f i :
  run_matches (run s) !! p = Some i → update_run_match p f s = Some (tt, with_run (with_run_matches (alter f p)) s).
Proof. intros Hi. unfold update_run_match. by mrun (load_run_match_Some s p i Hi). Qed.
Lemma executing_rule_Some s R : ExecutingRule (run s) = Some R → executing_rule s = Some (R, s).
Proof. unfold executing_rule, mbind, M_bind, gets, fromOption. by intros ->. Qed.

(** Code that only prints, from any state with the same data. *)
Definition run_prints (m : M (RunEnv H E) unit) s : Prop :=
  ∃ o, m s = Some (tt, with_env (with_output (fun _ => o)) s).

Lemma with_output_id s : with_env (with_output (fun _ => output (env s))) s = s.
Proof. by destruct s as [[] ?]. Qed.
Lemma run_prints_when b (m : M (RunEnv H E) unit) s : (b = true → run_prints m s) → run_prints (whenM b m) s.
Proof. destruct b; [by intros Hm; apply Hm|]. intros _. exists (output (env s)). by rewrite with_output_id. Qed.

(** Calling the registered functions keeps what each call keeps. *)
Lemma call_functions_preserve P l x :
  (∀ f c, preserves P (call_rule_fired f x c)) → preserves P (call_rule_fired_functions l x).
Proof.
  intros Hc. induction l as [|it l IH]; intros s Hs; simpl; [by exists s|].
  destruct (Hc (rff_func it) (rff_context it) s Hs) as (s1 & Hrun & Hs1). mrun Hrun. by apply IH.
Qed.

Lemma basis_counts_run count l s :
  ∃ h, basis_counts count l s = Some (tt, with_env (with_host (fun _ => h)) s).
Proof.
  revert s. induction l as [|[[[it|]]|] l IH]; intros s; simpl.
  - exists (host (env s)). by destruct s as [[] ?].
  - erewrite M_bind_Some by reflexivity. cbn beta. edestruct IH as [h ->]. by exists h.
  - erewrite M_bind_Some by reflexivity. cbn beta. apply IH.
  - apply IH.
Qed.

(** ** Preparing the firing *)

Lemma find_logical_spec j l lb s o fuel :
  lineage (run_matches (run s)) j o l lb → length l ≤ fuel →
  find_logical_loop fuel j o s = Some (Some lb, s).
Proof.
  intros Hl. revert fuel. induction Hl as [p i Hp Ho|p i l lb Hp Ho Hl IH]; intros [|fuel] Hf; simpl in *; try lia;
    mrun (load_run_match_Some s p i Hp).
  - by rewrite decide_True.
  - rewrite decide_False by done. apply IH. lia.
Qed.

Lemma FindLogicalBind_spec j b s :
  supported (run_matches (run s)) j b →
  ∃ lb, FindLogicalBind j b s = Some (Some lb, s) ∧ is_Some (run_matches (run s) !! lb).
Proof.
  intros (l & lb & Hl). exists lb. split; [|eapply lineage_live; [exact Hl|by eapply lineage_last]].
  unfold FindLogicalBind. erewrite M_bind_Some by reflexivity. cbn beta.
  eapply find_logical_spec; [exact Hl|by eapply lineage_size].
Qed.
End steps.

(** ** Moving the invariant and the flight along *)

Section flights.
Context {H E : Type} `{!Host H E, !RunHost H E}.
Implicit Types (s : RunEnv H E) (e : Environment H E) (d : RunData E).

(** The invariant while [x] is in flight. *)
Record flying (x b R : ptr) s (AG : gmap ptr (list Seg)) : Prop := {
  fy_inv : run_inv s AG;
  fy_running : AlreadyRunning (run s) = true;
  fy_flight : flight x b R s AG;
}.

(** Steps that change no object. *)
Record same_objects e e' : Prop := {
  so_store : store e' = store e;
  so_tags : CurrentTimetag (agendaData e') = CurrentTimetag (agendaData e);
  so_strategy : strategy_of e' = strategy_of e;
  so_modules : ListOfDefmodules (defmoduleData e') = ListOfDefmodules (defmoduleData e);
}.

Lemma same_objects_inv e e' AG : same_objects e e' → system_inv e AG → system_inv e' AG.
Proof.
  intros [Hs Ht Hst _] Hi. unfold system_inv. rewrite Hst. by eapply inv_same_store.
Qed.

Lemma run_inv_same s e' AG :
  same_objects (env s) e' → (∀ f, f ∈ CurrentFocus (engineData e') → is_Some (AG !! f)) →
  run_inv s AG → run_inv (mkRunEnv e' (run s)) AG.
Proof.
  intros Hso Hf Hi. pose proof Hso as [Hs _ _ Hl]. destruct s as [e d]. simpl in *.
  eapply run_inv_env; [exact Hi|by apply store_static| |done|done|].
  - eapply same_objects_inv; [exact Hso|apply Hi].
  - intros m segs x Hk Hx. rewrite Hs. split; [done|]. by exists segs.
Qed.

Lemma flying_env x b R s e' AG :
  same_objects (env s) e' → (∀ f, f ∈ CurrentFocus (engineData e') → is_Some (AG !! f)) →
  flying x b R s AG → flying x b R (mkRunEnv e' (run s)) AG.
Proof.
  intros Hso Hf [Hi Hr [Ha Ho Hru Hm Hx]]. pose proof Hso as [Hs _ _ _].
  split; [by apply run_inv_same|done|]. split; simpl; rewrite ?Hs; done.
Qed.

Lemma flying_run x b R s d' AG :
  run_view d' = run_view (run s) → AlreadyRunning d' = AlreadyRunning (run s) →
  ExecutingRule d' = ExecutingRule (run s) → flying x b R s AG → flying x b R (mkRunEnv (env s) d') AG.
Proof.
  intros Hv Hr' Hx' [Hi Hr [Ha Ho Hru Hm Hx]]. split.
  - eapply run_inv_run; [exact Hv|]. by destruct s.
  - simpl. by rewrite Hr'.
  - split; simpl; try done. by rewrite Hx'.
Qed.

Lemma run_view_rules f d p :
  (∀ i, logicalJoin (f i) = logicalJoin i) → run_view (with_run_rules (alter f p) d) = run_view d.
Proof. intros Hf. unfold run_view. simpl. by rewrite fmap_alter_same. Qed.
Lemma run_view_matches f d p :
  (∀ i, match_link (f i) = match_link i) → run_view (with_run_matches (alter f p) d) = run_view d.
Proof. intros Hf. unfold run_view. simpl. by rewrite fmap_alter_same. Qed.

Lemma flying_rule_info x b R s AG : flying x b R s AG → ∃ i, run_rules (run s) !! R = Some i.
Proof. intros [Hi _ Hf]. destruct (ri_rules _ _ Hi R (fl_rule _ _ _ _ _ Hf)) as [i Hri]. by exists i. Qed.
Lemma flying_match_info x b R s AG : flying x b R s AG → ∃ i, run_matches (run s) !! b = Some i.
Proof. intros [Hi _ Hf]. destruct (ri_matches _ _ Hi b (fl_match _ _ _ _ _ Hf)) as [i Hri]. by exists i. Qed.

(** The match of [x] has the support its rule asks for. *)
Definition support_of s (R b : ptr) : Prop :=
  ∀ i j, run_rules (run s) !! R = Some i → logicalJoin i = Some j → supported (run_matches (run s)) j b.

Lemma support_of_view s s' R b :
  run_view (run s') = run_view (run s) → support_of s R b → support_of s' R b.
Proof.
  intros Hv Hs i j Hi Hj. injection Hv as Hv1 Hv2.
  destruct (fmap_lookup_Some _ _ _ _ _ Hv1 Hi) as (i' & Hi' & Heq).
  destruct (Hs i' j Hi') as (l & lb & Hl); [congruence|]. exists l, lb. by eapply lineage_links.
Qed.

Lemma act_link_Some (m : gmap ptr Activation) x R o :
  act_link <$> m !! x = Some (R, o) ↔ ∃ a, m !! x = Some a ∧ theRule a = R ∧ basis a = o.
Proof.
  split; [|intros (a & -> & <- & <-); done].
  destruct (m !! x) as [a|]; [|done]. intros [= <- <-]. by exists a.
Qed.

Lemma flight_rule e x b R s AG :
  flight x b R s AG → env s = e →
  ∃ a r, acts (store e) !! x = Some a ∧ theRule a = R ∧ basis a = Some b ∧ rules (store e) !! R = Some r.
Proof.
  intros [Ha _ [r Hr] _ _] <-. apply act_link_Some in Ha as (a & Ha & HR & Hb). by exists a, r.
Qed.

Lemma take_activation_spec x s AG :
  at_phase (Chosen x) s AG →
  ∃ name b R s' AG', take_activation x s = Some ((name, Some b), s') ∧ flying x b R s' AG' ∧ support_of s' R b ∧
  CurrentFocus (engineData (env s')) = CurrentFocus (engineData (env s)).
Proof.
  intros (Hi & Hrun & m & segs & Hm & Hx). pose proof (ri_system _ _ Hi) as Hinv.
  destruct (member_live _ AG m segs x Hinv Hm Hx) as (a0 & r & b & pm & Ha0 & Hr & Hw & Hb & Hpm).
  destruct (DetachActivation_system _ AG m segs x Hinv Hm Hx)
    as (e' & segs' & a & Hdet & Hinv' & Habs & Hnx & Ha & Ha' & He & Hd & _).
  rewrite Ha0 in Ha. injection Ha as <-.
  pose proof (keeps_DetachActivation x _ _ _ Hdet) as Hsk. pose proof Hsk as Hsk'.
  unfold skeleton in Hsk'. injection Hsk' as _ Hsr Hsb Hsl _ _.
  assert (Hr' : is_Some (rules (store e') !! theRule a0)) by (eapply fmap_lookup_is_Some; [exact Hsr|eauto]).
  destruct Hr' as [r' Hr'].
  set (s1 := mkRunEnv e' (run s)).
  assert (Hi1 : run_inv s1 (<[m := segs']> AG)).
  { destruct s as [e d]. eapply run_inv_env; [exact Hi|by apply skeleton_static|exact Hinv'|..].
    - intros k Hk. rewrite lookup_insert_is_Some'. by right.
    - intros f Hf. apply (ri_focus _ _ Hi). by rewrite He in Hf.
    - intros k ks y Hk Hy. split; [by rewrite <- !lookup_fmap, Hsl|].
      rewrite lookup_insert in Hk. case_decide as Hkm; [|by exists ks].
      injection Hk as <-. subst k. exists segs. split; [done|]. by eapply spec_filter_members. }
  set (s2 := with_run (set_ExecutingRule (Some (theRule a0))) s1).
  exists (rule_name r'), b, (theRule a0), s2, (<[m := segs']> AG).
  assert (Hrun_take : take_activation x s = Some ((rule_name r', Some b), s2)).
  { unfold take_activation. erewrite M_bind_Some by (apply onEnv_Some; exact Hdet). cbn beta. fold s1.
    assert (Hn : ActivationRuleName x (env s1) = Some (rule_name r', env s1)).
    { unfold ActivationRuleName. mrun (load_act_Some (env s1) _ _ Ha'). by mrun (load_rule_Some (env s1) _ _ Hr'). }
    erewrite M_bind_Some by (apply onEnv_Some; exact Hn). cbn beta.
    assert (Hbs : GetActivationBasis x (env s1) = Some (Some b, env s1)).
    { unfold GetActivationBasis. mrun (load_act_Some (env s1) _ _ Ha'). unfold mret, M_ret. by rewrite <- Hb. }
    erewrite M_bind_Some by (apply onEnv_Some; exact Hbs). cbn beta.
    assert (Hru : GetActivationRule x (env s1) = Some (theRule a0, env s1)).
    { unfold GetActivationRule. by mrun (load_act_Some (env s1) _ _ Ha'). }
    erewrite M_bind_Some by (apply onEnv_Some; exact Hru). cbn beta. reflexivity. }
  split; [exact Hrun_take|]. split; [|split; [|simpl; by rewrite He]].
  - split; [by apply (run_inv_run e' (run s))|exact Hrun|]. split; simpl; [| |by exists r'| |done].
    + apply act_link_Some. exists (set_act_next None (set_act_prev None a0)). split_and!; [exact Ha'|done|exact Hb].
    + intros k ks. rewrite lookup_insert. case_decide as Hkm; [by intros [= <-]|]. intros Hk Hy.
      eapply (rep_members_disjoint (store (env s)) m k); [| |done|exact Hx|exact Hy].
      * apply (wa_rep _ _ _ _ (si_wf _ _ Hinv _ _ Hm)).
      * apply (wa_rep _ _ _ _ (si_wf _ _ Hinv _ _ Hk)).
    + eapply fmap_lookup_is_Some; [exact Hsb|eauto].
  - intros i j Hri Hj. eapply (ri_support _ _ Hi m segs x (theRule a0) b i j Hm Hx); [|done..].
    apply act_link_Some. by exists a0.
Qed.
End flights.

(** ** Up to the end of the actions *)

Section actions.
Context {H E : Type} `{!Host H E, !RunHost H E, !RunLaws (H := H) (E := E)}.
Implicit Types (s : RunEnv H E) (e : Environment H E) (d : RunData E).

(** The environment with another output, host program or flags. *)
Lemma flying_output x b R s o AG :
  flying x b R s AG → flying x b R (with_env (with_output (fun _ => o)) s) AG.
Proof. intros Hf. apply (flying_env x b R s); [by split| |done]. apply (ri_focus _ _ (fy_inv _ _ _ _ _ Hf)). Qed.
Lemma flying_host x b R s h AG :
  flying x b R s AG → flying x b R (with_env (with_host (fun _ => h)) s) AG.
Proof. intros Hf. apply (flying_env x b R s); [by split| |done]. apply (ri_focus _ _ (fy_inv _ _ _ _ _ Hf)). Qed.
Lemma flying_flags x b R s f AG :
  flying x b R s AG → flying x b R (with_env (with_flags f) s) AG.
Proof. intros Hf. apply (flying_env x b R s); [by split| |done]. apply (ri_focus _ _ (fy_inv _ _ _ _ _ Hf)). Qed.

Lemma announce_firing_run name o n s R i :
  ExecutingRule (run s) = Some R → run_rules (run s) !! R = Some i → run_prints (announce_firing name o n) s.
Proof.
  intros HR Hi. unfold run_prints, announce_firing.
  mrun (executing_rule_Some s R HR). mrun (load_run_rule_Some s R i Hi).
  apply run_prints_when. intros _. eexists. reflexivity.
Qed.

Lemma matches_inv e AG f :
  (∀ k, binds <$> f (matches (store e)) !! k = binds <$> matches (store e) !! k) →
  system_inv e AG → system_inv (with_store (with_matches f) e) AG.
Proof.
  intros Hf [Hw Hg Ht Hi].
  assert (HF : ∀ m, frame m [] [] [] (store e) (with_matches f (store e))) by (intros m; split; simpl; naive_solver).
  split; simpl; try done.
  intros m segs Hk. eapply wf_agenda_frame; [exact (HF m)|done|by apply Hw|set_solver|set_solver].
Qed.

Lemma flying_marker x b R s AG mk :
  flying x b R s AG → flying x b R (with_env (with_store (with_matches (alter (set_marker mk) b))) s) AG.
Proof.
  intros [Hi Hr [Ha Ho Hru [pm Hpm] Hx]].
  assert (Hb : ∀ k, binds <$> alter (set_marker mk) b (matches (store (env s))) !! k = binds <$> matches (store (env s)) !! k).
  { intros k. destruct (decide (b = k)) as [->|]; [by rewrite lookup_alter_eq, Hpm|by rewrite lookup_alter_ne]. }
  split; [|done|split; simpl; try done; by rewrite lookup_alter_is_Some, Hpm].
  destruct s as [e d]. eapply run_inv_env; [exact Hi| | |done|apply Hi|].
  - split; simpl; try done. apply map_eq. intros k. rewrite !lookup_fmap. apply Hb.
  - apply matches_inv; [exact Hb|apply Hi].
  - intros m segs y Hk Hy. split; [done|by exists segs].
Qed.

(** Marking the match as busy. *)
Lemma occupy_basis_spec x b R s AG :
  flying x b R s AG → support_of s R b →
  ∃ s', occupy_basis b s = Some (tt, s') ∧ flying x b R s' AG ∧ support_of s' R b ∧
  (busy <$> run_matches (run s') !! b) = Some true.
Proof.
  intros Hf Hs. destruct (fl_match _ _ _ _ _ (fy_flight _ _ _ _ _ Hf)) as [pm Hpm].
  destruct (flying_match_info _ _ _ _ _ Hf) as [i Hi]. unfold occupy_basis.
  erewrite M_bind_Some by (apply onEnv_Some; eapply update_match_Some; exact Hpm). cbn beta.
  set (s1 := mkRunEnv _ _). assert (Hf1 : flying x b R s1 AG) by (by apply flying_marker).
  erewrite M_bind_Some by (apply (update_run_match_Some s1 b _ i); exact Hi). cbn beta.
  erewrite M_bind_Some by reflexivity. cbn beta.
  erewrite M_bind_Some.
  2:{ apply onEnv_Some. apply load_match_Some. simpl. by rewrite lookup_alter_eq, Hpm. }
  cbn beta. set (s2 := mkRunEnv _ _).
  destruct (basis_counts_run incrementBasisCount (binds (set_marker None pm)) s2) as [h Hh].
  eexists. split; [exact Hh|].
  assert (Hv : run_view (run s2) = run_view (run s)) by (by apply run_view_matches).
  split; [apply flying_host; by apply flying_run with (s := s1)|]. split.
  - apply (support_of_view s); [exact Hv|done].
  - simpl. by rewrite lookup_alter_eq, Hi.
Qed.

Definition bind_live s : Prop := ∀ l, TheLogicalBind (run s) = Some l → is_Some (run_matches (run s) !! l).

Lemma busy_alter (ms : gmap ptr RunMatch) b l :
  (busy <$> ms !! b) = Some true → (busy <$> alter (set_busy true) l ms !! b) = Some true.
Proof.
  intros Hb. destruct (decide (l = b)) as [->|]; [|by rewrite lookup_alter_ne].
  rewrite lookup_alter_eq. by destruct (ms !! b).
Qed.

Lemma set_logical_support_spec x b R s AG :
  flying x b R s AG → support_of s R b → (busy <$> run_matches (run s) !! b) = Some true →
  ∃ s', set_logical_support b s = Some (tt, s') ∧ flying x b R s' AG ∧
  (busy <$> run_matches (run s') !! b) = Some true ∧ bind_live s'.
Proof.
  intros Hf Hs Hb. destruct (flying_rule_info _ _ _ _ _ Hf) as [i Hi].
  pose proof (fl_executing _ _ _ _ _ (fy_flight _ _ _ _ _ Hf)) as HR. unfold set_logical_support.
  mrun (executing_rule_Some s R HR). mrun (load_run_rule_Some s R i Hi).
  erewrite M_bind_Some by reflexivity. cbn beta. set (s1 := with_run _ s).
  assert (Hf1 : flying x b R s1 AG) by (by apply flying_run).
  destruct (logicalJoin i) as [j|] eqn:Hj.
  - destruct (FindLogicalBind_spec j b s1) as (lb & Hrun & [il Hil]); [by apply (Hs i j)|]. mrun Hrun.
    erewrite M_bind_Some by reflexivity. cbn beta. rewrite M_fromOption_Some.
    erewrite update_run_match_Some; [|exact Hil]. eexists. split; [reflexivity|]. split; [|split].
    + refine (flying_run x b R s1 _ AG _ _ _ Hf1); [|done|done].
      unfold run_view. simpl. by rewrite fmap_alter_same.
    + by apply busy_alter.
    + intros l [= <-]. simpl. rewrite lookup_alter_is_Some. by exists il.
  - eexists. split; [reflexivity|]. split; [by apply (flying_run x b R s1)|]. split; [done|]. intros l [=].
Qed.

Lemma flying_phase executes x b R s AG :
  flying x b R s AG → (executing <$> run_rules (run s) !! R) = Some executes →
  (busy <$> run_matches (run s) !! b) = Some true → bind_live s → at_phase (Firing executes x b R) s AG.
Proof. intros [Hi Hr Hf] He Hb Hl. repeat (split; [assumption|]). exact Hl. Qed.
Lemma phase_flying executes x b R s AG :
  at_phase (Firing executes x b R) s AG →
  flying x b R s AG ∧ (executing <$> run_rules (run s) !! R) = Some executes ∧
  (busy <$> run_matches (run s) !! b) = Some true ∧ bind_live s.
Proof. intros (Hi & Hr & Hf & He & Hb & Hl). split; [by split|]. repeat (split; [assumption|]). exact Hl. Qed.
End actions.

Section fire_actions.
Context {H E : Type} `{!Host H E, !RunHost H E, !RunLaws (H := H) (E := E)}.
Implicit Types (s : RunEnv H E) (e : Environment H E) (d : RunData E).

(** A step that changes no object keeps the phase. *)
Lemma at_phase_env ph s e' AG :
  same_objects (env s) e' → (∀ f, f ∈ CurrentFocus (engineData e') → is_Some (AG !! f)) →
  at_phase ph s AG → at_phase ph (mkRunEnv e' (run s)) AG.
Proof.
  intros Hso Hf (Hi & Hr & Hph). pose proof Hso as [Hs _ _ _].
  split; [by apply run_inv_same|]. split; [done|]. destruct ph; simpl; rewrite ?Hs; try done.
  destruct Hph as ([Ha Ho Hru Hm Hx] & Hrest). split; [|done]. split; simpl; rewrite ?Hs; done.
Qed.

(** Changing the current module keeps the phase. *)
Lemma SetCurrentModule_phase ph o b s :
  phase ph s →
  ∃ s', whenM b (onEnv (_ ← SetCurrentModule o; mret tt)) s = Some (tt, s') ∧ phase ph s' ∧ run s' = run s.
Proof.
  intros [AG Hp]. destruct b; simpl; [|exists s; split; [done|]; split; [by exists AG|done]].
  destruct (SetCurrentModule_run (env s) o) as (e' & Hrun & [Hs Ha] & He & _ & _ & Hl).
  exists (mkRunEnv e' (run s)). split; [|split; [|done]].
  - apply onEnv_Some. by mrun Hrun.
  - exists AG. apply at_phase_env; [|by rewrite He; apply Hp|done].
    split; [done|by rewrite Ha|unfold strategy_of; by rewrite Ha|done].
Qed.

Lemma EvaluateProcActions_spec m a x b R :
  preserves (phase (Firing true x b R)) (EvaluateProcActions m a).
Proof.
  intros s Hp. unfold EvaluateProcActions. erewrite M_bind_Some by reflexivity. cbn beta zeta.
  edestruct (SetCurrentModule_phase (Firing true x b R)) as (s1 & H1 & Hp1 & _); [exact Hp|]. mrun H1.
  destruct (law_actions a x b R s1 Hp1) as (s2 & H2 & Hp2). mrun H2.
  erewrite M_bind_Some by reflexivity. cbn beta.
  edestruct (SetCurrentModule_phase (Firing true x b R)) as (s3 & H3 & Hp3 & _); [exact Hp2|].
  exists s3. split; [exact H3|done].
Qed.

(** A change of the run's own data keeps the phase of a firing. *)
Lemma firing_run executes x b R s d' AG :
  run_view d' = run_view (run s) → AlreadyRunning d' = AlreadyRunning (run s) →
  ExecutingRule d' = ExecutingRule (run s) → TheLogicalBind d' = TheLogicalBind (run s) →
  run_matches d' = run_matches (run s) → (executing <$> run_rules d' !! R) = Some executes →
  flying x b R s AG → (busy <$> run_matches (run s) !! b) = Some true → bind_live s →
  at_phase (Firing executes x b R) (mkRunEnv (env s) d') AG.
Proof.
  intros Hv Hr Hx Ht Hm He Hf Hb Hl. apply flying_phase; [by apply flying_run|done|by rewrite <- Hm in Hb|].
  intros l Hlb. simpl in *. rewrite Hm. apply Hl. by rewrite <- Ht.
Qed.

Lemma set_executing_view v R d : run_view (with_run_rules (alter (set_executing v) R) d) = run_view d.
Proof. by apply run_view_rules. Qed.

Lemma execute_actions_spec x b R s AG :
  flying x b R s AG → (busy <$> run_matches (run s) !! b) = Some true → bind_live s →
  ∃ error s', execute_actions s = Some (error, s') ∧ phase (Firing false x b R) s'.
Proof.
  intros Hf Hb Hl. unfold execute_actions. erewrite M_bind_Some by reflexivity. cbn beta.
  erewrite M_bind_Some by apply SetEvaluationError_Some. cbn beta.
  set (s1 := put_EvaluationError false _). assert (Hf1 : flying x b R s1 AG).
  { apply flying_flags. apply (flying_run x b R s); done. }
  destruct (flying_rule_info _ _ _ _ _ Hf1) as [i Hi].
  pose proof (fl_executing _ _ _ _ _ (fy_flight _ _ _ _ _ Hf1)) as HR.
  mrun (executing_rule_Some s1 R HR). mrun (update_run_rule_Some s1 R (set_executing true) i Hi).
  erewrite M_bind_Some by reflexivity. cbn beta zeta.
  destruct (fl_rule _ _ _ _ _ (fy_flight _ _ _ _ _ Hf1)) as [r Hr].
  erewrite M_bind_Some by (apply onEnv_Some; apply load_rule_Some; exact Hr). cbn beta.
  set (s2 := mkRunEnv _ _). set (i2 := set_executing true i).
  assert (Hi2 : run_rules (run s2) !! R = Some i2) by (simpl in *; by rewrite lookup_alter_eq, Hi).
  mrun (load_run_rule_Some s2 R i2 Hi2).
  assert (Hp2 : phase (Firing true x b R) s2).
  { exists AG. apply (firing_run true x b R s1); [by apply set_executing_view|done..| |done|done|done].
    change (executing <$> run_rules (run s2) !! R = Some true). by rewrite Hi2. }
  destruct (EvaluateProcActions_spec (whichModule r) (actions i2) x b R s2 Hp2) as (s3 & H3 & [AG3 Hp3]). mrun H3.
  erewrite M_bind_Some by reflexivity. cbn beta.
  apply phase_flying in Hp3 as (Hf3 & He3 & Hb3 & Hl3).
  pose proof (fl_executing _ _ _ _ _ (fy_flight _ _ _ _ _ Hf3)) as HR3. mrun (executing_rule_Some s3 R HR3).
  destruct (flying_rule_info _ _ _ _ _ Hf3) as [i3 Hi3].
  mrun (update_run_rule_Some s3 R (set_executing false) i3 Hi3).
  erewrite M_bind_Some by apply SetEvaluationError_Some. cbn beta.
  erewrite M_bind_Some by reflexivity. cbn beta. erewrite M_bind_Some by reflexivity. cbn beta.
  assert (Hf4 : flying x b R (with_env (with_flags (set_EvaluationError false)) s3) AG3) by by apply flying_flags.
  destruct (negb _); unfold whenM.
  all: erewrite M_bind_Some by reflexivity; cbn beta.
  all: match goal with |- context [mret ?er ?st] => exists er,
    (mkRunEnv (env (with_env (with_flags (set_EvaluationError false)) s3)) (run st)) end.
  all: split; [reflexivity|exists AG3]; apply firing_run;
    [unfold run_view; simpl; by rewrite fmap_alter_same|done..| |exact Hf4|exact Hb3|exact Hl3].
  all: simpl; by rewrite lookup_alter_eq, Hi3.
Qed.

(** The body up to the end of the actions. *)
Lemma fire_actions_spec x n s :
  phase (Chosen x) s → (0 <= n < 2 ^ 63 - 1)%Z →
  ∃ name b R error s', fire_actions x n s = Some ((n + 1, name, b, error)%Z, s') ∧ phase (Firing false x b R) s'.
Proof.
  intros Hp Hn. unfold fire_actions. erewrite M_bind_Some by reflexivity. cbn beta.
  destruct (call_functions_preserve (phase (Chosen x)) (ListOfBeforeRuleFiresFunctions (run s)) (Some x)
    (fun f c => law_before f x c) s Hp) as (s1 & H1 & [AG Hp1]). mrun H1.
  destruct (take_activation_spec x s1 AG Hp1) as (name & b & R & s2 & AG2 & H2 & Hf2 & Hs2 & _). mrun H2. cbn beta iota.
  rewrite long_long_Some by (unfold LLONG_MIN, LLONG_MAX; lia). rewrite M_fromOption_Some.
  destruct (flying_rule_info _ _ _ _ _ Hf2) as [i Hi].
  destruct (announce_firing_run name (Some b) (n + 1)%Z s2 R i) as [o Ho];
    [apply (fl_executing _ _ _ _ _ (fy_flight _ _ _ _ _ Hf2))|done|]. mrun Ho.
  set (s3 := with_env _ s2). assert (Hf3 : flying x b R s3 AG2) by by apply flying_output.
  rewrite M_fromOption_Some.
  destruct (occupy_basis_spec x b R s3 AG2 Hf3 Hs2) as (s4 & H4 & Hf4 & Hs4 & Hb4). mrun H4.
  destruct (set_logical_support_spec x b R s4 AG2 Hf4 Hs4 Hb4) as (s5 & H5 & Hf5 & Hb5 & Hl5). mrun H5.
  destruct (execute_actions_spec x b R s5 AG2 Hf5 Hb5 Hl5) as (error & s6 & H6 & Hp6). mrun H6.
  exists name, b, R, error, s6. split; [done|exact Hp6].
Qed.
End fire_actions.

(** ** After the actions *)

Section finish_firing.
Context {H E : Type} `{!Host H E, !RunHost H E, !RunLaws (H := H) (E := E)}.
Implicit Types (s : RunEnv H E) (e : Environment H E) (d : RunData E).

Lemma drop_logical_support_spec x b R s AG :
  flying x b R s AG → bind_live s → ∃ s', drop_logical_support s = Some (tt, s') ∧ flying x b R s' AG.
Proof.
  intros Hf Hl. unfold drop_logical_support. erewrite M_bind_Some by reflexivity. cbn beta.
  erewrite M_bind_Some by reflexivity. cbn beta. set (s1 := with_run _ s).
  change (TheLogicalBind (run s1)) with (TheLogicalBind (run s)).
  assert (Hf1 : flying x b R s1 AG) by by apply flying_run.
  destruct (TheLogicalBind (run s)) as [l|] eqn:Hlb; [|by exists s1].
  destruct (Hl l Hlb) as [i Hi]. mrun (update_run_match_Some s1 l (set_busy false) i Hi).
  eexists. split; [reflexivity|]. refine (flying_run x b R s1 _ AG _ _ _ Hf1); [|done..].
  unfold run_view. simpl. by rewrite fmap_alter_same.
Qed.

Lemma halt_message_run name error s R i :
  ExecutingRule (run s) = Some R → run_rules (run s) !! R = Some i → run_prints (halt_message name error) s.
Proof.
  intros HR Hi. unfold run_prints, halt_message.
  erewrite M_bind_Some by reflexivity. cbn beta. erewrite M_bind_Some by reflexivity. cbn beta.
  assert (Hh : ∃ h, (if HaltExecution (flags (env s)) then mret true
    else if HaltRules (run s) then R ← executing_rule; i ← load_run_rule R; mret (watchFiring i)
    else mret false) s = Some (h, s)).
  { destruct (HaltExecution _); [by eexists|]. destruct (HaltRules _); [|by eexists].
    mrun (executing_rule_Some s R HR). mrun (load_run_rule_Some s R i Hi). by eexists. }
  destruct Hh as [h Hh]. mrun Hh. apply run_prints_when. intros _. destruct error; eexists; reflexivity.
Qed.

Lemma release_basis_spec x b R s AG :
  flying x b R s AG → ∃ s', release_basis b s = Some (tt, s') ∧ flying x b R s' AG.
Proof.
  intros Hf. destruct (flying_match_info _ _ _ _ _ Hf) as [i Hi].
  destruct (fl_match _ _ _ _ _ (fy_flight _ _ _ _ _ Hf)) as [pm Hpm]. unfold release_basis.
  mrun (update_run_match_Some s b (set_busy false) i Hi). set (s1 := with_run _ s).
  erewrite M_bind_Some by (apply onEnv_Some; apply load_match_Some; exact Hpm). cbn beta.
  set (s2 := mkRunEnv _ _). destruct (basis_counts_run decrementBasisCount (binds pm) s2) as [h Hh].
  eexists. split; [exact Hh|]. apply flying_host. refine (flying_run x b R s _ AG _ _ _ Hf); [|done..].
  by apply run_view_matches.
Qed.

Lemma free_flight x b R s AG :
  flying x b R s AG →
  ∃ s', onEnv (RemoveActivation x false false) s = Some (tt, s') ∧ at_phase (Fired R) s' AG.
Proof.
  intros [Hi Hr Hf]. destruct (flight_rule (env s) x b R s AG Hf eq_refl) as (a & r & Ha & HR & Hb & Hrl).
  rewrite <- HR in Hrl. pose proof (fl_off _ _ _ _ _ Hf) as Hoff.
  destruct (RemoveActivation_detached (env s) AG x a r (ri_system _ _ Hi) Hoff Ha Hrl)
    as (e' & Hrun & Hinv & Hst & He & Hd & _).
  exists (mkRunEnv e' (run s)). split; [by apply onEnv_Some|].
  split; [|split; [done|split; [simpl; rewrite Hst; apply (fl_rule _ _ _ _ _ Hf)|apply (fl_executing _ _ _ _ _ Hf)]]].
  destruct s as [e d]. eapply run_inv_env; [exact Hi| |exact Hinv|done| |].
  - split; simpl; rewrite ?Hst, ?Hd; done.
  - intros f. rewrite He. apply (ri_focus _ _ Hi).
  - intros m segs y Hk Hy. rewrite Hst. split; [|by exists segs]. simpl.
    rewrite lookup_delete_ne; [done|]. intros <-. by eapply Hoff.
Qed.

(** Refreshing the agendas. *)
Lemma RefreshAgenda_phase R s AG m :
  at_phase (Fired R) s AG → m ∈ ListOfDefmodules (defmoduleData (env s)) →
  ∃ e' AG', RefreshAgenda m (env s) = Some (tt, e') ∧ at_phase (Fired R) (mkRunEnv e' (run s)) AG' ∧
  ListOfDefmodules (defmoduleData e') = ListOfDefmodules (defmoduleData (env s)).
Proof.
  intros (Hi & Hr & Hlive & HR) Hin. destruct (ri_listed _ _ Hi m Hin) as [segs Hm].
  destruct (RefreshAgenda_run (env s) AG m segs (ri_system _ _ Hi) Hm) as (e' & segs' & Hrun & Hrf).
  pose proof (keeps_RefreshAgenda m _ _ _ Hrun) as Hsk. pose proof Hsk as Hsk'.
  unfold skeleton in Hsk'. injection Hsk' as _ Hsr _ Hsl Hsm Hsf.
  exists e', (<[m := segs']> AG). split; [done|]. split; [|done].
  split; [|split; [done|split; [eapply fmap_lookup_is_Some; [exact Hsr|exact Hlive]|done]]].
  destruct s as [e d]. eapply run_inv_env; [exact Hi|by apply skeleton_static|apply Hrf|..].
  - intros k Hk. rewrite lookup_insert_is_Some'. by right.
  - intros f. rewrite Hsf. apply (ri_focus _ _ Hi).
  - intros k ks y Hk Hy. split; [by rewrite <- !lookup_fmap, Hsl|].
    rewrite lookup_insert in Hk. case_decide as Hkm; [|by exists ks].
    injection Hk as <-. subst k. exists segs. split; [done|]. by rewrite <- (rf_perm _ _ _ _ _ _ Hrf).
Qed.

Lemma refresh_each_cycle_spec R : preserves (phase (Fired R)) refresh_each_cycle.
Proof.
  intros s [AG Hp]. unfold refresh_each_cycle.
  erewrite M_bind_Some by (apply onEnv_Some; reflexivity). cbn beta.
  replace (mkRunEnv (env s) (run s)) with s by by destruct s.
  case_bool_decide; unfold whenM; [|exists s; split; [done|by exists AG]].
  unfold RefreshAllAgendas.
  assert (Hloop : ∀ l s AG, at_phase (Fired R) s AG → (∀ k, k ∈ l → k ∈ ListOfDefmodules (defmoduleData (env s))) →
    ∃ e', forM_ RefreshAgenda l (env s) = Some (tt, e') ∧ phase (Fired R) (mkRunEnv e' (run s))).
  { clear. induction l as [|m l IH]; intros s AG Hp Hl; simpl.
    - exists (env s). split; [done|]. exists AG. by destruct s.
    - destruct (RefreshAgenda_phase R s AG m Hp) as (e1 & AG1 & Hrun & Hp1 & Hl1); [set_solver|]. mrun Hrun.
      apply (IH (mkRunEnv e1 (run s)) AG1 Hp1). intros k Hk. simpl. rewrite Hl1. set_solver. }
  destruct (Hloop _ s AG Hp (fun k Hk => Hk)) as (e' & Hrun & Hp').
  exists (mkRunEnv e' (run s)). split; [|done]. apply onEnv_Some.
  erewrite M_bind_Some by reflexivity. exact Hrun.
Qed.

(** The stacks of modules on which the invariant holds. *)
Lemma ri_focus_ok s AG : run_inv s AG → focus_ok (env s).
Proof.
  intros Hi f Hf. destruct (ri_focus _ _ Hi f Hf) as [segs Hk].
  destruct (rep_module _ _ _ (wa_rep _ _ _ _ (si_wf _ _ (ri_system _ _ Hi) f segs Hk))) as (md & Hmd & _). eauto.
Qed.
Lemma ri_listed_live s AG : run_inv s AG → listed_live (env s).
Proof.
  intros Hi f Hf. destruct (ri_listed _ _ Hi f Hf) as [segs Hk].
  destruct (rep_module _ _ _ (wa_rep _ _ _ _ (si_wf _ _ (ri_system _ _ Hi) f segs Hk))) as (md & Hmd & _). eauto.
Qed.

Lemma same_agenda_objects e e' :
  same_agenda e e' → ListOfDefmodules (defmoduleData e') = ListOfDefmodules (defmoduleData e) → same_objects e e'.
Proof. intros [Hs Ha] Hl. split; [done|by rewrite Ha|unfold strategy_of; by rewrite Ha|done]. Qed.

Lemma RemoveFocus_phase ph m s :
  phase ph s → ∃ o s', onEnv (RemoveFocus m) s = Some (o, s') ∧ phase ph s' ∧ run s' = run s.
Proof.
  intros [AG Hp]. pose proof (ri_focus_ok s AG (proj1 Hp)) as Hf.
  destruct (decide (m ∈ CurrentFocus (engineData (env s)))) as [Hin|Hout].
  - apply list_elem_of_split_l in Hin as (pre & post & Hst & Hpre).
    destruct (RemoveFocus_spec (env s) m pre post Hf Hst Hpre) as (e' & Hrun & [Hsame Hst' _ Hl _]).
    exists (Some m), (mkRunEnv e' (run s)). split; [by apply onEnv_Some|]. split; [|done].
    exists AG. apply at_phase_env; [by apply same_agenda_objects| |done].
    intros f. rewrite Hst'. intros Hin. apply (ri_focus _ _ (proj1 Hp)). rewrite Hst. set_solver.
  - eexists _, s. split; [|split; [by exists AG|done]].
    erewrite onEnv_Some by (apply RemoveFocus_absent; exact Hout). by destruct s.
Qed.
End finish_firing.

(** ** The next activation *)

Section next.
Context {H E : Type} `{!Host H E, !RunHost H E, !RunLaws (H := H) (E := E)}.
Implicit Types (s : RunEnv H E) (e : Environment H E) (d : RunData E).

(** A run with no activation in flight. *)
Definition idle s (AG : gmap ptr (list Seg)) : Prop := run_inv s AG ∧ AlreadyRunning (run s) = true.

Definition next_phase (next : option ptr) : Phase :=
  match next with Some x => Chosen x | None => Waiting end.

Lemma first_named_main st name l m :
  m ∈ l → module_name <$> modules (E := E) st !! m = Some name → first_named st name l ≠ None.
Proof.
  intros Hin Hm. induction l as [|k l IH]; simpl; [by apply elem_of_nil in Hin|].
  case_decide as Hk; [done|]. apply elem_of_cons in Hin as [->|Hin]; [done|by apply IH].
Qed.

Lemma starting_stack_known s AG :
  run_inv s AG → starting_stack (env s) ≠ [] ∧ ∀ f, f ∈ starting_stack (env s) → is_Some (AG !! f).
Proof.
  intros Hi. unfold starting_stack. destruct (CurrentFocus (engineData (env s))) as [|top rest] eqn:Hst.
  - destruct (ri_main _ _ Hi) as (m & Hin & Hm).
    destruct (first_named (store (env s)) "MAIN" _) as [p|] eqn:Hp.
    + split; [done|]. intros f ->%list_elem_of_singleton. apply (ri_listed _ _ Hi). by eapply first_named_elem.
    + by eapply first_named_main in Hp.
  - split; [done|]. intros f. rewrite <- Hst. apply (ri_focus _ _ Hi).
Qed.

Lemma drop_while_sub {A} (f : A → bool) l x : x ∈ drop_while f l → x ∈ l.
Proof. induction l as [|y l IH]; simpl; [done|]. destruct (f y); set_solver. Qed.
Lemma drop_while_head {A} (f : A → bool) l x : head (drop_while f l) = Some x → f x = false.
Proof. induction l as [|y l IH]; simpl; [done|]. destruct (f y) eqn:Hy; [done|]. by intros [= <-]. Qed.

(** [NextActivationToFire] in a run: the top activation of the first module
    on the stack that has one; the stack is empty when none has. *)
Lemma next_activation_spec s AG :
  idle s AG →
  ∃ next s', onEnv NextActivationToFire s = Some (next, s') ∧ at_phase (next_phase next) s' AG ∧
  run s' = run s ∧ store (env s') = store (env s) ∧
  next = head (drop_while (has_no_activation (store (env s))) (starting_stack (env s))) ≫= agenda_of (store (env s)) ∧
  CurrentFocus (engineData (env s')) = drop_while (has_no_activation (store (env s))) (starting_stack (env s)) ∧
  (next = None → CurrentFocus (engineData (env s')) = []).
Proof.
  intros [Hi Hr]. destruct (starting_stack_known s AG Hi) as [Hne Hknown].
  destruct (NextActivationToFire_run (env s) (ri_focus_ok s AG Hi) (ri_listed_live s AG Hi) Hne)
    as (r & e' & Hrun & [Hsame Hst Hres]).
  pose proof (keeps_list_NextActivationToFire _ _ _ Hrun) as Hl.
  set (stack := drop_while _ _) in *. unfold next_on_stack in Hres.
  assert (Hi' : run_inv (mkRunEnv e' (run s)) AG).
  { apply run_inv_same; [by apply same_agenda_objects| |done]. intros f. rewrite Hst.
    intros Hf%drop_while_sub. by apply Hknown. }
  exists r, (mkRunEnv e' (run s)). split; [by apply onEnv_Some|]. split_and!; try done.
  - split; [done|]. split; [done|]. destruct r as [x|]; [|done].
    destruct (head stack) as [f|] eqn:Hf; [|done]. simpl in Hres.
    destruct (Hknown f) as [segs Hk].
    { destruct stack as [|g stack'] eqn:Hs; [done|]. injection Hf as ->.
      eapply drop_while_sub. unfold stack in Hs. rewrite Hs. set_solver. }
    exists f, segs. split; [done|].
    destruct (rep_module _ _ _ (wa_rep _ _ _ _ (si_wf _ _ (ri_system _ _ Hi) f segs Hk))) as (md & Hmd & _ & Hag).
    unfold agenda_of in Hres. rewrite Hmd in Hres. simpl in Hres. rewrite Hag in Hres. by apply hd_or_elem.
  - apply Hsame.
  - intros ->. simpl. rewrite Hst. destruct (head stack) as [f|] eqn:Hf; [|by destruct stack].
    pose proof (drop_while_head _ _ _ Hf) as Hna. unfold has_no_activation in Hna.
    simpl in Hres. rewrite <- Hres in Hna. by rewrite bool_decide_true in Hna.
Qed.

(** The chosen activation is on top of the agenda of the current focus. *)
Definition on_top next s : Prop :=
  match next with
  | Some x => ∃ f rest, CurrentFocus (engineData (env s)) = f :: rest ∧ agenda_of (store (env s)) f = Some x
  | None => CurrentFocus (engineData (env s)) = []
  end.

(** What [NextActivationToFire] returns is on top. *)
Lemma next_on_top s AG :
  idle s AG →
  ∃ next s', onEnv NextActivationToFire s = Some (next, s') ∧ at_phase (next_phase next) s' AG ∧ on_top next s' ∧
  run s' = run s.
Proof.
  intros Hi. destruct (next_activation_spec s AG Hi) as (next & s' & Hrun & Hp & Hr & Hst & Hres & Hfoc & Hnone).
  exists next, s'. split_and!; try done. destruct next as [x|]; [|by apply Hnone]. simpl.
  rewrite Hfoc, Hst. destruct (drop_while _ _) as [|f rest]; [done|]. by exists f, rest.
Qed.

Lemma fired_idle R s AG : at_phase (Fired R) s AG → idle s AG.
Proof. by intros (? & ? & _). Qed.

Lemma return_from_rule_spec R : preserves (H := H) (E := E) (phase (Fired R)) return_from_rule.
Proof.
  intros s Hp. unfold return_from_rule. erewrite M_bind_Some by reflexivity. cbn beta.
  assert (Hm : ∃ s', whenM (ReturnFlag (run s)) (R ← executing_rule; r ← onEnv (load_rule R);
    _ ← onEnv (RemoveFocus (whichModule r)); mret tt) s = Some (tt, s') ∧ phase (Fired R) s').
  { destruct (ReturnFlag (run s)); unfold whenM; [|by exists s].
    pose proof Hp as (AG & Hi & Hr & [r Hrl] & HR). mrun (executing_rule_Some s R HR).
    erewrite M_bind_Some by (apply onEnv_Some; apply load_rule_Some; exact Hrl). cbn beta.
    replace (mkRunEnv (env s) (run s)) with s by by destruct s.
    destruct (RemoveFocus_phase (Fired R) (whichModule r) s Hp) as (o & s' & Hrun & Hp' & _).
    exists s'. split; [by mrun Hrun|done]. }
  destruct Hm as (s1 & Hrun & AG & Hi & Hr & Hrl & HR). mrun Hrun.
  eexists. split; [reflexivity|]. exists AG. split; [|done].
  destruct s1 as [e d]. by apply (run_inv_run e d).
Qed.

Lemma check_breakpoint_spec next s AG :
  at_phase (next_phase next) s AG →
  ∃ s', check_breakpoint next s = Some (tt, s') ∧ at_phase (next_phase next) s' AG ∧
  engineData (env s') = engineData (env s) ∧ store (env s') = store (env s).
Proof.
  intros Hp. destruct next as [x|]; [|by exists s]. destruct Hp as (Hi & Hr & m & segs & Hm & Hx). simpl.
  destruct (member_live _ AG m segs x (ri_system _ _ Hi) Hm Hx) as (a & r & b & pm & Ha & Hrl & _ & Hb & _).
  destruct (ri_rules _ _ Hi (theRule a)) as [i Hri]; [by exists r|].
  assert (Hru : onEnv (GetActivationRule x) s = Some (theRule a, s)).
  { destruct s as [e d]. apply onEnv_Some. unfold GetActivationRule. by mrun (load_act_Some e _ _ Ha). }
  mrun Hru. mrun (load_run_rule_Some s (theRule a) i Hri).
  destruct (afterBreakpoint i); unfold whenM.
  2:{ exists s. split; [done|]. split_and!; try done. split; [done|]. split; [done|]. by exists m, segs. }
  erewrite M_bind_Some by reflexivity. cbn beta.
  erewrite M_bind_Some by reflexivity. cbn beta. set (s1 := map_output _ _).
  assert (Hn : onEnv (ActivationRuleName x) s1 = Some (rule_name r, s1)).
  { rewrite (onEnv_Some _ s1 (rule_name r) (env s1)); [by destruct s1|]. unfold ActivationRuleName.
    mrun (load_act_Some (env s1) x a Ha). by mrun (load_rule_Some (env s1) (theRule a) r Hrl). }
  mrun Hn. erewrite M_bind_Some by reflexivity. cbn beta.
  eexists. split; [reflexivity|]. split_and!; try done.
  split; [|split; [done|by exists m, segs]].
  destruct s as [e d]. apply (run_inv_same (mkRunEnv e (set_HaltRules true d))); [by split|apply (ri_focus _ _ Hi)|].
  by apply (run_inv_run e d).
Qed.

(** The rest of the body: an activation gone, the next one chosen. *)
Lemma finish_firing_spec name x b R error s :
  phase (Firing false x b R) s →
  ∃ next s', finish_firing x name b error s = Some (next, s') ∧ phase (next_phase next) s' ∧
  on_top next s'.
Proof.
  intros Hp. unfold finish_firing. erewrite M_bind_Some by reflexivity. cbn beta.
  destruct (call_functions_preserve (phase (Firing false x b R)) (ListOfAfterRuleFiresFunctions (run s)) (Some x)
    (fun f c => law_after f x b R c) s Hp) as (s1 & H1 & [AG Hp1]). mrun H1.
  apply phase_flying in Hp1 as (Hf1 & _ & _ & Hl1).
  destruct (drop_logical_support_spec x b R s1 AG Hf1 Hl1) as (s2 & H2 & Hf2). mrun H2.
  destruct (flying_rule_info _ _ _ _ _ Hf2) as [i Hi].
  destruct (halt_message_run name error s2 R i) as [o Ho];
    [apply (fl_executing _ _ _ _ _ (fy_flight _ _ _ _ _ Hf2))|done|]. mrun Ho.
  set (s3 := with_env _ s2). assert (Hf3 : flying x b R s3 AG) by by apply flying_output.
  destruct (release_basis_spec x b R s3 AG Hf3) as (s4 & H4 & Hf4). mrun H4.
  destruct (free_flight x b R s4 AG Hf4) as (s5 & H5 & Hp5). mrun H5.
  destruct (law_flush R s5 (ex_intro _ AG Hp5)) as (s6 & H6 & Hp6). mrun H6.
  destruct (law_periodic R s6 Hp6) as (s7 & H7 & Hp7). mrun H7.
  destruct (refresh_each_cycle_spec R s7 Hp7) as (s8 & H8 & Hp8). mrun H8.
  destruct (return_from_rule_spec R s8 Hp8) as (s9 & H9 & [AG9 Hp9]). mrun H9.
  destruct (next_on_top s9 AG9 (fired_idle R s9 AG9 Hp9)) as (next & s10 & H10 & Hp10 & Htop & _).
  mrun H10. destruct (check_breakpoint_spec next s10 AG9 Hp10) as (s11 & H11 & Hp11 & He & Hst). mrun H11.
  exists next, s11. split; [done|]. split; [by exists AG9|]. unfold on_top. by rewrite He, Hst.
Qed.
End next.
