(* ===== verification/RunLoop.v ===== *)
(** * The loop of a run

    A run as a sequence of firings: which activation fires at each step, why
    the loop ends, and that the fuel only bounds the number of firings.

    Then the actions of a rule, and what they keep. *)
From Stdlib Require Import Sorting.Sorted.
From S2P Require Import Prelude Values Router Keeps DList AgendaState Strategy StrategyProofs AgendaRep.
From S2P Require Import PlaceProofs Focus Agenda AgendaProofs SystemInv AddProofs AgendaKeeps Run.
From S2P Require Import RunInv RunProofs.
Section loop.
Context {H E : Type} `{!Host H E, !RunHost H E}.
Implicit Types (s : RunEnv H E) (next : option ptr).

(** One turn of the loop. *)
Definition fires (n : Z) (x : ptr) s next s' : Prop :=
  HaltExecution (flags (env s)) = false ∧ HaltRules (run s) = false ∧
  ∃ name b error s1, fire_actions x n s = Some ((n + 1, name, b, error)%Z, s1) ∧
  finish_firing x name b error s1 = Some (next, s').

(** The firings of a run, with the state in which each was chosen. *)
Inductive run_trace : Z → option ptr → RunEnv H E → list (ptr * RunEnv H E) → option ptr → RunEnv H E → Prop :=
  | trace_nil n next s : run_trace n next s [] next s
  | trace_cons n x s next s1 tr next' s' :
      fires n x s next s1 → run_trace (n + 1) next s1 tr next' s' →
      run_trace n (Some x) s ((x, s) :: tr) next' s'.

(** What is left of the limit; a negative limit is no limit. *)
Definition limit_after (limit : Z) (k : nat) : Z := if (limit <? 0)%Z then limit else (limit - Z.of_nat k)%Z.

(** The condition of the loop, negated. *)
Definition stopped next (limit : Z) s : bool :=
  match next with
  | None => true
  | Some _ => (limit =? 0)%Z || HaltExecution (flags (env s)) || HaltRules (run s)
  end.

(** [x] is to fire: it is the first activation, by salience and strategy, of
    the module on top of the focus stack. *)
Definition first_to_fire (x : ptr) s : Prop :=
  ∃ f rest AG segs, CurrentFocus (engineData (env s)) = f :: rest ∧ system_inv (env s) AG ∧
  AG !! f = Some segs ∧ x ∈ members segs ∧
  ∀ y, y ∈ members segs → y ≠ x → fires_before (strategy_of (env s)) (store (env s)) x y.

Lemma limit_after_step limit k :
  (limit ≠ 0)%Z → (limit < 0 ∨ Z.of_nat (S k) <= limit)%Z →
  limit_after (decrement_limit limit) k = limit_after limit (S k).
Proof.
  intros Hne Hk. unfold limit_after, decrement_limit. rewrite Z.gtb_ltb.
  destruct (Z.ltb_spec limit 0), (Z.ltb_spec 0 limit); try lia;
    match goal with |- (if (?a <? 0)%Z then _ else _) = _ => destruct (Z.ltb_spec a 0) end; lia.
Qed.

Lemma run_loop_stopped fuel next n limit s :
  stopped next limit s = true → run_loop fuel next n limit s = Some ((n, limit), s).
Proof.
  intros Hs. destruct fuel; simpl; do 2 (erewrite M_bind_Some by reflexivity; cbn beta);
    destruct next as [x|]; simpl in Hs; rewrite ?Hs; done.
Qed.

Lemma run_loop_turn fuel x n limit s next s' :
  stopped (Some x) limit s = false → fires n x s next s' →
  run_loop (S fuel) (Some x) n limit s = run_loop fuel next (n + 1) (decrement_limit limit) s'.
Proof.
  intros Hs (_ & _ & name & b & error & s1 & H1 & H2). cbn [run_loop].
  do 2 (erewrite M_bind_Some by reflexivity; cbn beta). simpl in Hs. rewrite Hs.
  mrun H1. by mrun H2.
Qed.

Lemma run_loop_no_fuel x n limit s :
  stopped (Some x) limit s = false → run_loop 0 (Some x) n limit s = None.
Proof.
  intros Hs. simpl. do 2 (erewrite M_bind_Some by reflexivity; cbn beta). simpl in Hs. by rewrite Hs.
Qed.

(** The fuel only bounds the firings: a result does not depend on it. *)
Lemma run_loop_fuel fuel fuel' next n limit s r :
  run_loop fuel next n limit s = Some r → fuel ≤ fuel' → run_loop fuel' next n limit s = Some r.
Proof.
  revert fuel' next n limit s. induction fuel as [|fuel IH]; intros fuel' next n limit s Hr Hf.
  - destruct (stopped next limit s) eqn:Hs.
    + rewrite run_loop_stopped in Hr |- * by done. done.
    + destruct next as [x|]; [|done]. by rewrite run_loop_no_fuel in Hr.
  - destruct (stopped next limit s) eqn:Hs; [by rewrite run_loop_stopped in Hr |- *|].
    destruct next as [x|]; [|done]. destruct fuel' as [|fuel']; [lia|].
    cbn [run_loop] in *. revert Hr. do 2 (erewrite M_bind_Some by reflexivity; cbn beta).
    do 2 (erewrite M_bind_Some by reflexivity; cbn beta). simpl in Hs. rewrite Hs.
    intros Hr. destruct r as [r s'].
    apply M_bind_inv in Hr as ([[[n1 name] b] error] & s1 & H1 & Hr). mrun H1.
    apply M_bind_inv in Hr as (next1 & s2 & H2 & Hr). mrun H2. apply IH; [done|lia].
Qed.
End loop.

Section correct.
Context {H E : Type} `{!Host H E, !RunHost H E, !RunLaws (H := H) (E := E)}.
Implicit Types (s : RunEnv H E) (next : option ptr).

Lemma on_top_first x s : phase (Chosen x) s → on_top (Some x) s → first_to_fire x s.
Proof.
  intros (AG & Hi & _ & _) (f & rest & Hst & Hag).
  destruct (ri_focus _ _ Hi f) as [segs Hk]; [rewrite Hst; set_solver|].
  pose proof (si_wf _ _ (ri_system _ _ Hi) f segs Hk) as Hwf. pose proof (wf_agenda_ordered _ _ _ _ Hwf) as Hs.
  destruct (rep_module _ _ _ (wa_rep _ _ _ _ Hwf)) as (md & Hmd & _ & Ha).
  unfold agenda_of in Hag. rewrite Hmd in Hag. simpl in Hag. rewrite Ha in Hag.
  exists f, rest, AG, segs. split; [done|]. split; [apply Hi|]. split; [done|].
  destruct (members segs) as [|z l]; [done|]. injection Hag as ->. split; [set_solver|].
  intros y [->|Hy]%elem_of_cons Hne; [done|].
  apply StronglySorted_inv in Hs as [_ Hs]. rewrite Forall_forall in Hs. by apply Hs.
Qed.

Lemma chosen_waiting next s : phase (next_phase next) s → phase Waiting s.
Proof. intros (AG & Hi & Hr & _). by exists AG. Qed.

(** One firing. *)
Lemma fires_spec n x s :
  phase (Chosen x) s → HaltExecution (flags (env s)) = false → HaltRules (run s) = false →
  (0 <= n < 2 ^ 63 - 1)%Z →
  ∃ next s', fires n x s next s' ∧ phase (next_phase next) s' ∧ on_top next s'.
Proof.
  intros Hp He Hh Hn. destruct (fire_actions_spec x n s Hp Hn) as (name & b & R & error & s1 & H1 & Hp1).
  destruct (finish_firing_spec name x b R error s1 Hp1) as (next & s' & H2 & Hp2 & Htop).
  exists next, s'. split; [|done]. split; [done|]. split; [done|]. by exists name, b, error, s1.
Qed.

(** The loop: either it ends with a state in which it has to, or it has used
    up its fuel in as many firings. *)
Lemma run_loop_spec fuel next n limit s :
  phase (next_phase next) s → on_top next s → (0 <= n)%Z → (n + Z.of_nat fuel < 2 ^ 63)%Z →
  ∃ tr next' s', run_trace n next s tr next' s' ∧ phase (next_phase next') s' ∧ on_top next' s' ∧
  (∀ x sx, (x, sx) ∈ tr → first_to_fire x sx) ∧ (0 <= limit → Z.of_nat (length tr) <= limit)%Z ∧
  length tr ≤ fuel ∧
  let limit' := limit_after limit (length tr) in
  if stopped next' limit' s'
  then run_loop fuel next n limit s = Some ((n + Z.of_nat (length tr), limit')%Z, s')
  else length tr = fuel ∧ run_loop fuel next n limit s = None.
Proof.
  assert (H0 : limit_after limit 0 = limit) by (unfold limit_after; destruct (limit <? 0)%Z; lia).
  revert next n limit s H0. induction fuel as [|fuel IH]; intros next n limit s H0 Hp Htop Hn Hf;
    destruct (stopped next limit s) eqn:Hstop.
  1,2,3: exists [], next, s; split; [constructor|]; split; [done|]; split; [done|];
    split; [by intros ? ? ?%elem_of_nil|]; split; [done|]; split; [simpl; lia|]; cbn [length]; cbv zeta; rewrite H0, Hstop.
  - rewrite run_loop_stopped by done. by rewrite Z.add_0_r.
  - destruct next as [x|]; [|done]. split; [done|]. by apply run_loop_no_fuel.
  - rewrite run_loop_stopped by done. by rewrite Z.add_0_r.
  - destruct next as [x|]; [|done]. pose proof Hstop as Hst. simpl in Hst.
    rewrite !orb_false_iff in Hst. destruct Hst as [[Hl He] Hh]. apply Z.eqb_neq in Hl.
    destruct (fires_spec n x s Hp He Hh) as (next1 & s1 & Hfire & Hp1 & Htop1); [lia|].
    destruct (IH next1 (n + 1)%Z (decrement_limit limit) s1) as (tr & next' & s' & Htr & Hw & Ht & Hfirst & Hlim & Hlen & Hres);
      [by unfold limit_after; destruct (_ <? 0)%Z; lia|done|done|lia|lia|].
    exists ((x, s) :: tr), next', s'. split; [by econstructor|]. split; [done|]. split; [done|]. split.
    { intros y sy [[= -> ->]|Hy]%elem_of_cons; [by apply on_top_first|by apply Hfirst]. }
    assert (Hk : (limit < 0 ∨ Z.of_nat (S (length tr)) <= limit)%Z).
    { destruct (Z.ltb_spec limit 0); [by left|]. right. unfold decrement_limit in Hlim.
      destruct (Z.gtb_spec limit 0); lia. }
    split; [simpl length; lia|]. split; [simpl; lia|].
    cbn [length]. cbv zeta in *. rewrite <- (limit_after_step limit (length tr) Hl Hk).
    rewrite (run_loop_turn fuel x n limit s next1 s1 Hstop Hfire).
    destruct (stopped next' _ s').
    + rewrite Hres. do 2 f_equal. f_equal. lia.
    + destruct Hres as [<- ->]. done.
Qed.
End correct.

(** ** The whole of [Run] *)

Section whole.
Context {H E : Type} `{!Host H E, !RunHost H E, !RunLaws (H := H) (E := E)}.
Implicit Types (s : RunEnv H E) (next : option ptr).

Lemma start_run_spec s AG :
  run_inv s AG →
  ∃ next s', start_run s = Some (next, s') ∧ phase (next_phase next) s' ∧ on_top next s'.
Proof.
  intros Hi. unfold start_run. erewrite M_bind_Some by reflexivity. cbn beta.
  erewrite M_bind_Some by reflexivity. cbn beta. set (s1 := with_run _ s).
  assert (Hi1 : idle s1 AG) by (split; [destruct s as [e d]; by apply (run_inv_run e d)|done]).
  assert (Hreset : ∃ s2, whenM (negb (CurrentExpression (flags (env s1)))) ResetErrorFlags s1 = Some (tt, s2) ∧
    idle s2 AG).
  { destruct (negb _); [|by exists s1]. eexists. split; [reflexivity|]. destruct Hi1 as [Hi1 Hr1]. split; [|done].
    apply (run_inv_same s1); [by split|apply (ri_focus _ _ Hi1)|done]. }
  destruct Hreset as (s2 & Hrun & Hi2). mrun Hrun. erewrite M_bind_Some by reflexivity. cbn beta.
  destruct (next_on_top (with_run (set_HaltRules false) s2) AG) as (next & s3 & H3 & Hp3 & Ht3 & _).
  { destruct Hi2 as [Hi2 Hr2]. split; [|done]. destruct s2 as [e d]. by apply (run_inv_run e d). }
  exists next, s3. split; [exact H3|]. split; [by exists AG|done].
Qed.

(** Setting fields of the run that the invariant does not read. *)
Lemma waiting_run f s :
  (∀ d, run_view (f d) = run_view d) → (∀ d, AlreadyRunning (f d) = AlreadyRunning d) →
  phase Waiting s → phase Waiting (with_run f s).
Proof.
  intros Hv Hr (AG & Hi & Hrun & _). exists AG. split; [destruct s as [e d]; by apply (run_inv_run e d)|].
  split; [by simpl; rewrite Hr|done].
Qed.

Lemma finish_run_spec n limit s :
  phase Waiting s →
  ∃ s' AG', finish_run n limit s = Some (tt, s') ∧ run_inv s' AG' ∧ AlreadyRunning (run s') = false.
Proof.
  intros Hp. unfold finish_run. erewrite M_bind_Some by reflexivity. cbn beta.
  assert (H1 : ∃ s1, whenM (n =? 0)%Z (call_rule_fired_functions (ListOfAfterRuleFiresFunctions (run s)) None) s =
    Some (tt, s1) ∧ phase Waiting s1).
  { destruct (n =? 0)%Z; [|by exists s]. apply call_functions_preserve; [|done]. intros f c. apply law_no_rule. }
  destruct H1 as (s1 & H1 & Hp1). mrun H1.
  assert (H2 : ∃ o, whenM (limit =? n)%Z (WriteString STDOUT ("rule firing limit reached" +:+ newline)) s1 =
    Some (tt, with_env (with_output (fun _ => o)) s1)).
  { apply run_prints_when. intros _. eexists. reflexivity. }
  destruct H2 as [o H2]. mrun H2. set (s2 := with_env _ s1).
  assert (Hp2 : phase Waiting s2).
  { destruct Hp1 as [AG Hp1]. exists AG.
    apply (at_phase_env Waiting s1); [by split|apply (ri_focus _ _ (proj1 Hp1))|done]. }
  erewrite M_bind_Some by reflexivity. cbn beta. erewrite M_bind_Some by reflexivity. cbn beta.
  erewrite M_bind_Some by reflexivity. cbn beta. erewrite M_bind_Some by reflexivity. cbn beta.
  set (s3 := with_run _ (with_run _ s2)).
  assert (Hp3 : phase Waiting s3) by (unfold s3; by repeat apply waiting_run).
  assert (H4 : ∃ s4, (match CurrentFocus (engineData (env s3)) with
    | f :: _ => whenM (bool_decide (CurrentModule (defmoduleData (env s3)) ≠ Some f))
    (onEnv (_ ← SetCurrentModule (Some f); mret tt))
    | [] => mret tt end) s3 = Some (tt, s4) ∧ phase Waiting s4).
  { destruct (CurrentFocus _) as [|f rest]; [by exists s3|].
    destruct (SetCurrentModule_phase Waiting (Some f)
      (bool_decide (CurrentModule (defmoduleData (env s3)) ≠ Some f)) s3 Hp3) as (s4 & H4 & Hp4 & _). by exists s4. }
  destruct H4 as (s4 & H4 & Hp4). mrun H4.
  destruct (law_periodic_idle s4 Hp4) as (s5 & H5 & AG & Hi & Hr & _). mrun H5.
  eexists _, AG. split; [reflexivity|]. split; [|done]. destruct s5 as [e d]. by apply (run_inv_run e d).
Qed.

Lemma Run_parts fuel limit s next s0 n limit' s1 s' :
  AlreadyRunning (run s) = false → start_run s = Some (next, s0) →
  run_loop fuel next 0 limit s0 = Some ((n, limit'), s1) → finish_run n limit' s1 = Some (tt, s') →
  Run fuel limit s = Some (n, s').
Proof.
  intros Hr H1 H2 H3. unfold Run. erewrite M_bind_Some by reflexivity. cbn beta. rewrite Hr.
  mrun H1. mrun H2. by mrun H3.
Qed.
End whole.

(** * The actions of a rule

    What the actions of a rule do to the agenda while the rule is firing keeps
    the phase of the run: adding an activation, focusing, [halt], [return].
    So a host whose actions are these satisfies the laws of the run loop. *)

Section actions.
Context {H E : Type} `{!Host H E}.
Implicit Types (s : RunEnv H E) (e : Environment H E).

(** [AddActivation] in two halves. *)
Lemma AddActivation_halves R b e u e' :
  AddActivation R b e = Some (u, e') →
  ∃ m sal new e1, create_activation R b e = Some ((m, sal, new), e1) ∧ skeleton e' = skeleton e1.
Proof.
  unfold AddActivation. intros ([[m sal] new] & e1 & H1 & H2)%M_bind_inv. exists m, sal, new, e1. split; [done|].
  apply M_bind_inv in H2 as (g & e2 & H2 & H3).
  rewrite (keeps_PlaceActivation _ _ _ _ _ _ H3). by rewrite (keeps_ReuseOrCreate _ _ _ _ _ H2).
Qed.

(** What [AddActivation] leaves as it is. *)
Lemma AddActivation_static R b r pm e e' :
  rules (store e) !! R = Some r → matches (store e) !! b = Some pm → focus_ok e →
  is_Some (modules (store e) !! whichModule r) → AddActivation R b e = Some (tt, e') →
  same_static e e' ∧ ∀ y, is_Some (acts (store e) !! y) →
    act_link <$> acts (store e') !! y = act_link <$> acts (store e) !! y.
Proof.
  intros Hr Hb Hf Hm Hrun. destruct (AddActivation_halves R b e tt e' Hrun) as (m & sal & new & e1 & H1 & Hsk).
  destruct (create_activation_spec e R r b pm Hr Hb Hf Hm) as (sal' & new' & e1' & H1' & Hc).
  rewrite H1 in H1'. injection H1' as -> -> -> <-.
  pose proof (keeps_list_create_activation R b _ _ _ H1) as Hlist. unfold module_list in Hlist.
  destruct Hc as [-> _ (rnd & Hst) _ _ _]. unfold skeleton in Hsk. injection Hsk as Hn Hru Hbi Hl Hmo _.
  split; [split; simpl|].
  - by rewrite Hn, Hst.
  - rewrite Hru, Hst. simpl. rewrite fmap_insert. apply insert_id. rewrite lookup_fmap, Hr. by destruct r.
  - rewrite Hbi, Hst. simpl. rewrite fmap_insert. apply insert_id. by rewrite lookup_fmap, Hb.
  - by rewrite Hmo.
  - intros y [a Ha]. rewrite <- !lookup_fmap, Hl, Hst. simpl. rewrite !lookup_fmap, lookup_insert_ne; [done|].
    intros <-. by rewrite fresh_ptr_None in Ha.
Qed.

(** Adding an activation while a rule fires. *)
Lemma AddActivation_firing executes x b R s AG R0 r0 b0 pm i :
  at_phase (Firing executes x b R) s AG → rules (store (env s)) !! R0 = Some r0 →
  matches (store (env s)) !! b0 = Some pm → match_wf pm → timetag_ok (env s) →
  is_Some (AG !! whichModule r0) → run_rules (run s) !! R0 = Some i →
  (∀ j, logicalJoin i = Some j → supported (run_matches (run s)) j b0) →
  ∃ s', onEnv (AddActivation R0 b0) s = Some (tt, s') ∧ phase (Firing executes x b R) s'.
Proof.
  intros (Hi & Hr & Hfl & Hrest) Hr0 Hb0 Hpm Ht [segs Hk] Hi0 Hj0.
  pose proof (ri_focus_ok s AG Hi) as Hf.
  destruct (rep_module _ _ _ (wa_rep _ _ _ _ (si_wf _ _ (ri_system _ _ Hi) _ segs Hk))) as (md & Hmd & _).
  destruct (AddActivation_system (env s) R0 r0 b0 pm AG segs (ri_system _ _ Hi) Hr0 Hk Hb0 Hpm Hf Ht)
    as (e' & segs' & sal & new & Hrun & Had).
  destruct (AddActivation_static R0 b0 r0 pm (env s) e' Hr0 Hb0 Hf (ex_intro _ md Hmd) Hrun) as [Hss Hlink].
  pose proof Hss as [_ Hsr Hsb Hsl]. simpl in Hsr, Hsb, Hsl.
  destruct Had as [Hinv Habs Hnew (a & Ha & HaR & Hab & _) _ _ _ Hfocus].
  assert (Hmem : ∀ y, y ∈ members segs' → y = new ∨ y ∈ members segs).
  { intros y. rewrite <- (firing_order_abs segs'), Habs, spec_place_perm, firing_order_abs. set_solver. }
  assert (Hlive : ∀ m ks y, AG !! m = Some ks → y ∈ members ks → is_Some (acts (store (env s)) !! y)).
  { intros m ks y Hks. apply rep_live with (1 := wa_rep _ _ _ _ (si_wf _ _ (ri_system _ _ Hi) m ks Hks)). }
  exists (mkRunEnv e' (run s)). split; [by apply onEnv_Some|]. exists (<[whichModule r0 := segs']> AG).
  destruct Hfl as [Hfa Hfo [fr Hfr] [fm Hfm] Hfx].
  assert (Hxl : is_Some (acts (store (env s)) !! x)) by (destruct (acts _ !! x); [eauto|done]).
  split; [|split; [done|split; [split; simpl|exact Hrest]]].
  - split; simpl; [done|..].
    + intros f. rewrite Hfocus, lookup_insert_is_Some'. destruct (autoFocus r0 && _); simpl.
      * intros [->|Hin]%elem_of_cons; [by left|right; by apply (ri_focus _ _ Hi)].
      * intros Hin. right. by apply (ri_focus _ _ Hi).
    + intros k. rewrite Hsl, lookup_insert_is_Some'. intros Hin. right. by apply (ri_listed _ _ Hi).
    + destruct (ri_main _ _ Hi) as (m & Hin & Hm). exists m. rewrite Hsl. split; [done|].
      pose proof (ss_names _ _ Hss) as Hsn. simpl in Hsn. by rewrite <- lookup_fmap, Hsn, lookup_fmap.
    + intros k Hlk. apply (ri_rules _ _ Hi). eapply fmap_lookup_is_Some; [symmetry; exact Hsr|done].
    + intros k Hlk. apply (ri_matches _ _ Hi). eapply fmap_lookup_is_Some; [symmetry; exact Hsb|done].
    + assert (Hold : ∀ m ks y R1 b1 i1 j, AG !! m = Some ks → y ∈ members ks →
        act_link <$> acts (store e') !! y = Some (R1, Some b1) → run_rules (run s) !! R1 = Some i1 →
        logicalJoin i1 = Some j → supported (run_matches (run s)) j b1).
      { intros m ks y R1 b1 i1 j Hks Hy Hlk. rewrite Hlink in Hlk by by eapply Hlive. by eapply (ri_support _ _ Hi). }
      intros m ks y R1 b1 i1 j. rewrite lookup_insert. destruct (decide (whichModule r0 = m)) as [Hm|Hm]; [|by apply Hold].
      intros [= <-] Hy Hlk Hi1 Hj1. subst m. destruct (Hmem y Hy) as [->|Hy']; [|by eapply Hold].
      rewrite Ha in Hlk. simpl in Hlk. unfold act_link in Hlk. rewrite HaR, Hab in Hlk. simplify_eq. by apply Hj0.
  - by rewrite Hlink.
  - intros m ks. rewrite lookup_insert. destruct (decide (whichModule r0 = m)) as [Hm|Hm]; [|by apply Hfo].
    intros [= <-] Hy. destruct (Hmem x Hy) as [->|Hy']; [|by eapply Hfo].
    rewrite Hnew in Hxl. by destruct Hxl.
  - eapply fmap_lookup_is_Some; [exact Hsr|eauto].
  - eapply fmap_lookup_is_Some; [exact Hsb|eauto].
  - done.
Qed.

(** Fields of the run that no phase reads. *)
Lemma at_phase_run ph s d' AG :
  AlreadyRunning d' = AlreadyRunning (run s) → ExecutingRule d' = ExecutingRule (run s) →
  TheLogicalBind d' = TheLogicalBind (run s) → run_rules d' = run_rules (run s) →
  run_matches d' = run_matches (run s) → at_phase ph s AG → at_phase ph (mkRunEnv (env s) d') AG.
Proof.
  intros Hr Hx Hb Hru Hm (Hi & Hrun & Hph). split; [|split; [simpl; by rewrite Hr|]].
  - destruct s as [e d]. apply (run_inv_run e d); [unfold run_view; simpl in *; by rewrite Hru, Hm|done].
  - destruct ph; simpl; rewrite ?Hx, ?Hb, ?Hru, ?Hm; try done.
    destruct Hph as ([Ha Ho Hrl Hml Hex] & Hrest). split; [|done]. split; simpl; rewrite ?Hx; done.
Qed.

Lemma Halt_phase ph : preserves (H := H) (E := E) (phase ph) Halt.
Proof. intros s [AG Hp]. eexists. split; [reflexivity|]. exists AG. by apply at_phase_run. Qed.

Lemma Focus_phase ph m s :
  phase ph s → m ∈ ListOfDefmodules (defmoduleData (env s)) →
  ∃ s', onEnv (Focus (Some m)) s = Some (tt, s') ∧ phase ph s'.
Proof.
  intros [AG Hp] Hin. pose proof (proj1 Hp) as Hi.
  destruct (Focus_spec (env s) m (ri_focus_ok s AG Hi) (ri_listed_live s AG Hi m Hin))
    as (e' & Hrun & Hsame & _ & _ & _ & Hc).
  exists (mkRunEnv e' (run s)). split; [by apply onEnv_Some|]. exists AG.
  apply at_phase_env; [|intros f|done].
  - apply same_agenda_objects; [done|]. exact (keeps_list_Focus (Some m) _ _ _ Hrun).
  - rewrite Hc. case_decide; [apply (ri_focus _ _ Hi)|].
    intros [->|Hf]%elem_of_cons; [by apply (ri_listed _ _ Hi)|by apply (ri_focus _ _ Hi)].
Qed.
End actions.

(** ** A host whose rules run scripts *)

Inductive RhsAction :=
  | AHalt                  (** [(halt)] *)
  | AReturn                (** [(return)] *)
  | AFocus (m : ptr)       (** [(focus m)] *)
  | AAssert (R b : ptr).   (** an [assert] that completes the match [b] of [R] *)

Inductive Script :=
  | SSalience (z : Z)
  | SActions (l : list RhsAction).

#[export] Instance script_host : Host Z Script := {
  rand h := (h, (h + 1)%Z);
  EvaluateSalienceExpression e h :=
    (false, mkUDFValue (match e with SSalience z => VInteger z | SActions _ => VInteger 0 end) 0 0, h);
}.

Definition match_wfb (pm : PartialMatch) : bool :=
  bool_decide (0 < bcount pm) &&
  forallb (fun o => match o ≫= matchingItem with Some e => (0 <? timeTag e)%Z | None => true end) (binds pm).

Lemma match_wfb_spec pm : match_wfb pm = true → match_wf pm.
Proof.
  intros [Hb Hf]%andb_true_iff. apply bool_decide_eq_true in Hb. split; [done|].
  apply Forall_forall. intros o Ho al e -> He. rewrite forallb_forall in Hf.
  assert (Hin : In (Some al) (binds pm)) by by apply list_elem_of_In.
  specialize (Hf _ Hin). simpl in Hf. rewrite He in Hf. by apply Z.ltb_lt.
Qed.

Section script.
Implicit Types (s : RunEnv Z Script).

(** The activation can be added: its rule, its module and its match exist, the
    rule has no logical conditions, and the timetags have not run out. *)
Definition can_add s (R b : ptr) : bool :=
  match rules (store (env s)) !! R, run_rules (run s) !! R, matches (store (env s)) !! b with
  | Some r, Some i, Some pm =>
      bool_decide (whichModule r ∈ ListOfDefmodules (defmoduleData (env s))) &&
      bool_decide (logicalJoin i = None) && match_wfb pm &&
      bool_decide (0 <= CurrentTimetag (agendaData (env s)) < 2 ^ 64 - 1)%Z
  | _, _, _ => false
  end.

Definition run_action (a : RhsAction) : M (RunEnv Z Script) unit := fun s =>
  match a with
  | AHalt => Halt s
  | AReturn => modify (with_run (set_ReturnFlag true)) s
  | AFocus m =>
      whenM (bool_decide (m ∈ ListOfDefmodules (defmoduleData (env s)))) (onEnv (Focus (Some m))) s
  | AAssert R b => whenM (can_add s R b) (onEnv (AddActivation R b)) s
  end.

Fixpoint run_actions (l : list RhsAction) : M (RunEnv Z Script) unit :=
  match l with [] => mret tt | a :: l' => _ ← run_action a; run_actions l' end.

#[export] Instance script_run : RunHost Z Script := {
  call_rule_fired f x c := mret tt;
  EvaluateActions a := match a with Some (SActions l) => run_actions l | _ => mret tt end;
  incrementBasisCount _ h := h;
  decrementBasisCount _ h := h;
  FlushGarbagePartialMatches := mret tt;
  CallPeriodicTasks := mret tt;
}.

Lemma run_action_phase a executes x b R : preserves (phase (Firing executes x b R)) (run_action a).
Proof.
  intros s Hp. destruct a as [| |m|R0 b0].
  - by apply Halt_phase.
  - destruct Hp as [AG Hp]. eexists. split; [reflexivity|]. exists AG. by apply at_phase_run.
  - unfold run_action. case_bool_decide; [by apply Focus_phase|by exists s].
  - unfold run_action. destruct (can_add s R0 b0) eqn:Hc; [|by exists s]. unfold can_add in Hc.
    destruct (rules _ !! R0) as [r0|] eqn:Hr0; [|done]. destruct (run_rules _ !! R0) as [i|] eqn:Hi; [|done].
    destruct (matches _ !! b0) as [pm|] eqn:Hb0; [|done]. rewrite !andb_true_iff in Hc.
    destruct Hc as [[[Hm Hj] Hpm] Ht]. apply bool_decide_eq_true in Hm, Hj, Ht.
    destruct Hp as [AG Hp]. unfold whenM.
    eapply (AddActivation_firing executes x b R s AG R0 r0 b0 pm i); try done.
    + by apply match_wfb_spec.
    + by apply (ri_listed _ _ (proj1 Hp)).
    + intros j Hjj. by rewrite Hj in Hjj.
Qed.

(** The scripts satisfy the laws of the run loop. *)
#[export] Instance script_laws : RunLaws (H := Z) (E := Script).
Proof.
  split; try (intros; intros s Hs; by exists s).
  intros [[z|l]|] x b R; simpl; try (intros s Hs; by exists s).
  induction l as [|a l IH]; intros s Hs; simpl; [by exists s|].
  destruct (run_action_phase a true x b R s Hs) as (s1 & Hrun & Hs1). mrun Hrun. by apply IH.
Qed.
End script.
