(* ===== verification/RunTheorems.v ===== *)
(** * The theorems about the run loop

    [Run] from a well-formed system back to one, what it fires and when it
    stops, and the lists of functions called around a firing; with runs of a
    small rule base whose actions are scripts. *)
From S2P Require Import Prelude Router Keeps DList Values AgendaState Strategy AgendaRep.
From S2P Require Import PlaceProofs Focus.
From S2P Require Import Agenda.
From S2P Require Import AgendaProofs SystemInv AddProofs AgendaWitness.
From S2P Require Import AgendaKeeps Run RunInv RunProofs RunLoop.
From Stdlib Require Import Sorting.Sorted.

Section theorems.
Context {H E : Type} `{!Host H E, !RunHost H E, !RunLaws (H := H) (E := E)}.
Implicit Types (s : RunEnv H E).

Lemma limit_after_pos limit k : (0 <= limit)%Z → limit_after limit k = (limit - Z.of_nat k)%Z.
Proof. intros Hl. unfold limit_after. destruct (Z.ltb_spec limit 0); lia. Qed.
Lemma limit_after_neg limit k : (limit < 0)%Z → limit_after limit k = limit.
Proof. intros Hl. unfold limit_after. destruct (Z.ltb_spec limit 0); lia. Qed.

Lemma run_result fuel limit s AG :
  run_inv s AG → AlreadyRunning (run s) = false → (Z.of_nat fuel < 2 ^ 63)%Z →
  ∃ next s0 tr next' s1, start_run s = Some (next, s0) ∧ run_trace 0 next s0 tr next' s1 ∧
  phase (next_phase next') s1 ∧ on_top next' s1 ∧ (∀ x sx, (x, sx) ∈ tr → first_to_fire x sx) ∧
  (0 <= limit → Z.of_nat (length tr) <= limit)%Z ∧ length tr ≤ fuel ∧
  if stopped next' (limit_after limit (length tr)) s1
  then ∃ s' AG', (∀ fuel', fuel ≤ fuel' → Run fuel' limit s = Some (Z.of_nat (length tr), s')) ∧
    run_inv s' AG' ∧ AlreadyRunning (run s') = false
  else length tr = fuel ∧ Run fuel limit s = None.
Proof.
  intros Hi Hr Hf. destruct (start_run_spec s AG Hi) as (next & s0 & Hstart & Hp & Htop).
  destruct (run_loop_spec fuel next 0 limit s0 Hp Htop) as (tr & next' & s1 & Htr & Hw & Ht & Hfirst & Hlim & Hlen & Hres);
    [done|lia|].
  exists next, s0, tr, next', s1. split_and!; try done. cbv zeta in Hres.
  destruct (stopped next' _ s1).
  - destruct (finish_run_spec (Z.of_nat (length tr)) (limit_after limit (length tr)) s1 (chosen_waiting _ _ Hw)) as (s' & AG' & Hfin & Hi' & Hr').
    exists s', AG'. split; [|done]. intros fuel' Hle.
    eapply Run_parts; [done|exact Hstart|by eapply run_loop_fuel|exact Hfin].
  - destruct Hres as [Hn Hres]. split; [done|]. unfold Run.
    erewrite M_bind_Some by reflexivity. cbn beta. rewrite Hr. mrun Hstart.
    unfold mbind at 1, M_bind at 1. by rewrite Hres.
Qed.

(** C1: [Run] with a limit returns after at most that many firings, whatever
    the rules do: each activation it fired was the first, by salience and
    strategy, of the module on top of the focus stack; it fires fewer only
    when no module in focus has an activation left, or the rules or the
    evaluation were halted; and it leaves every agenda well formed, ready for
    the next run. *)
Theorem Run_correct s AG limit :
  run_inv s AG → AlreadyRunning (run s) = false → (0 <= limit < 2 ^ 63)%Z →
  ∃ next s0 tr next' s1 s' AG',
    Run (Z.to_nat limit) limit s = Some (Z.of_nat (length tr), s') ∧
    start_run s = Some (next, s0) ∧ run_trace 0 next s0 tr next' s1 ∧
    (∀ x sx, (x, sx) ∈ tr → first_to_fire x sx) ∧
    (Z.of_nat (length tr) <= limit)%Z ∧
    (Z.of_nat (length tr) = limit ∨ CurrentFocus (engineData (env s1)) = [] ∨
     HaltExecution (flags (env s1)) = true ∨ HaltRules (run s1) = true) ∧
    run_inv s' AG' ∧ AlreadyRunning (run s') = false.
Proof.
  intros Hi Hr Hl. destruct (run_result (Z.to_nat limit) limit s AG Hi Hr) as
    (next & s0 & tr & next' & s1 & Hstart & Htr & _ & Htop & Hfirst & Hlim & Hlen & Hres); [lia|].
  rewrite limit_after_pos in Hres by lia. specialize (Hlim (proj1 Hl)).
  destruct (stopped next' _ s1) eqn:Hst.
  - destruct Hres as (s' & AG' & Hrun & Hi' & Hr').
    exists next, s0, tr, next', s1, s', AG'. split_and!; try done; [by apply Hrun|].
    destruct next' as [x|]; [|by right; left]. simpl in Hst.
    rewrite !orb_true_iff, Z.eqb_eq in Hst. destruct Hst as [[?|?]|?]; [left; lia|auto..].
  - exfalso. destruct Hres as [Hk _]. destruct next' as [x|]; [|done]. simpl in Hst.
    rewrite !orb_false_iff, Z.eqb_neq in Hst. lia.
Qed.

(** C2: an unlimited [Run] meets no undefined behaviour: after any number of
    firings it has returned, with the number of rules fired and the agendas
    well formed, or it is about to fire the next activation. *)
Theorem Run_never_stuck s AG limit fuel :
  run_inv s AG → AlreadyRunning (run s) = false → (limit < 0)%Z → (Z.of_nat fuel < 2 ^ 63)%Z →
  ∃ next s0 tr next' s1, start_run s = Some (next, s0) ∧ run_trace 0 next s0 tr next' s1 ∧
  (∀ x sx, (x, sx) ∈ tr → first_to_fire x sx) ∧
  ((∃ s' AG', Run fuel limit s = Some (Z.of_nat (length tr), s') ∧ run_inv s' AG' ∧
      AlreadyRunning (run s') = false ∧
      (CurrentFocus (engineData (env s1)) = [] ∨ HaltExecution (flags (env s1)) = true ∨ HaltRules (run s1) = true)) ∨
   (length tr = fuel ∧ ∃ x, next' = Some x ∧ first_to_fire x s1)).
Proof.
  intros Hi Hr Hl Hf. destruct (run_result fuel limit s AG Hi Hr Hf) as
    (next & s0 & tr & next' & s1 & Hstart & Htr & Hp & Htop & Hfirst & _ & Hlen & Hres).
  exists next, s0, tr, next', s1. split_and!; try done. rewrite limit_after_neg in Hres by done.
  destruct (stopped next' limit s1) eqn:Hst.
  - left. destruct Hres as (s' & AG' & Hrun & Hi' & Hr'). exists s', AG'. split_and!; try done; [by apply Hrun|].
    destruct next' as [x|]; [|by left]. simpl in Hst. rewrite !orb_true_iff, Z.eqb_eq in Hst.
    destruct Hst as [[?|?]|?]; [lia|auto..].
  - right. destruct Hres as [Hk _]. split; [done|]. destruct next' as [x|]; [|done]. exists x. split; [done|].
    by apply on_top_first.
Qed.
End theorems.

(** ** The functions called around a firing *)

Section lists.
Context {H E : Type} `{!Host H E, !RunHost H E}.
Implicit Types (s : RunEnv H E) (l : list RuleFiredFunctionItem).

Definition by_priority (a b : RuleFiredFunctionItem) : Prop := (rff_priority b <= rff_priority a)%Z.

Lemma add_position name priority func l context :
  ∃ l1 l2, l = l1 ++ l2 ∧
  AddRuleFiredFunctionToCallList name priority func l context =
    l1 ++ mkRuleFiredFunctionItem name func priority context :: l2 ∧
  Forall (fun it => priority < rff_priority it)%Z l1 ∧
  ∀ it, head l2 = Some it → (rff_priority it <= priority)%Z.
Proof.
  induction l as [|it l IH]; simpl; [by exists [], []|].
  destruct (Z.ltb_spec priority (rff_priority it)).
  - destruct IH as (l1 & l2 & -> & -> & Hf & Hh). exists (it :: l1), l2. split_and!; [done..|by constructor|done].
  - exists [], (it :: l). split_and!; [done..|]. intros it' [= <-]. lia.
Qed.

Lemma remove_position name l1 it l2 :
  rff_name it = name → (∀ i, i ∈ l1 → rff_name i ≠ name) →
  RemoveRuleFiredFunctionFromCallList name (l1 ++ it :: l2) = (l1 ++ l2, true).
Proof.
  intros Hn. induction l1 as [|i l1 IH]; intros Hl; simpl; [by rewrite decide_True|].
  rewrite decide_False by (intros Heq; by apply (Hl i); [set_solver|]). rewrite IH by set_solver. done.
Qed.

(** The functions called after a firing are kept by descending priority, a
    new one in front of those of the same priority, and removing a function
    that was just added under a new name restores the list. *)
Theorem AddAfterRuleFiresFunction_correct s name func priority context :
  StronglySorted by_priority (ListOfAfterRuleFiresFunctions (run s)) →
  (∀ it, it ∈ ListOfAfterRuleFiresFunctions (run s) → rff_name it ≠ name) →
  ∃ s', AddAfterRuleFiresFunction name func priority context s = Some (true, s') ∧
  StronglySorted by_priority (ListOfAfterRuleFiresFunctions (run s')) ∧
  (∃ l1 l2, ListOfAfterRuleFiresFunctions (run s) = l1 ++ l2 ∧
    ListOfAfterRuleFiresFunctions (run s') = l1 ++ mkRuleFiredFunctionItem name func priority context :: l2 ∧
    Forall (fun it => priority < rff_priority it)%Z l1 ∧ Forall (fun it => rff_priority it <= priority)%Z l2) ∧
  RemoveAfterRuleFiresFunction name s' = Some (true, s).
Proof.
  intros Hs Hn. set (l := ListOfAfterRuleFiresFunctions (run s)) in *.
  destruct (add_position name priority func l context) as (l1 & l2 & Hl & Hadd & Hf1 & Hh).
  eexists. split; [reflexivity|]. simpl. fold l. rewrite Hadd. rewrite Hl in Hs.
  apply StronglySorted_app_inv in Hs as (Hs1 & Hs2 & Hs12).
  assert (Hf2 : Forall (fun it => rff_priority it <= priority)%Z l2).
  { destruct l2 as [|it l2]; [done|]. apply StronglySorted_inv in Hs2 as [_ Hs2]. specialize (Hh it eq_refl).
    constructor; [done|]. eapply Forall_impl; [exact Hs2|]. unfold by_priority. simpl. lia. }
  split; [|split; [by exists l1, l2|]].
  - apply StronglySorted_app; [done|constructor; [done|]|].
    + eapply Forall_impl; [exact Hf2|]. unfold by_priority. simpl. lia.
    + intros a b Ha [->|Hb]%elem_of_cons; [|by apply Hs12]. unfold by_priority. simpl.
      rewrite Forall_forall in Hf1. specialize (Hf1 a Ha). simpl in Hf1. lia.
  - unfold RemoveAfterRuleFiresFunction. erewrite M_bind_Some by reflexivity. cbn beta. simpl.
    rewrite remove_position; [|done|].
    + unfold mbind, M_bind, modify, mret, M_ret. rewrite <- Hl. destruct s as [e []]. done.
    + intros it Hit. apply Hn. rewrite Hl. set_solver.
Qed.
End lists.

(** ** Concrete runs *)

Section witnesses.
(** The rules of [g_env]: the first completes the match of the third, has a
    logical condition on the partial match 4 and is watched; the second halts;
    the third returns. *)
Definition w_run_data : RunData Script := mkRunData false false None None None None None [] [] false 0 0
  (list_to_map [
    (1%positive, mkRunRule true false false (Some 7%positive) (Some (SActions [AAssert 3 3])));
    (2%positive, mkRunRule false false false None (Some (SActions [AHalt])));
    (3%positive, mkRunRule false false false None (Some (SActions [AReturn])))])
  (list_to_map [
    (1%positive, mkRunMatch false (Some 8%positive) (Some 4%positive));
    (2%positive, mkRunMatch false (Some 8%positive) None);
    (3%positive, mkRunMatch false (Some 8%positive) None);
    (4%positive, mkRunMatch false (Some 7%positive) None)]).
Definition w_run : RunEnv Z Script := mkRunEnv (g_env SSalience) w_run_data.

Lemma w_run_inv : run_inv w_run w_AG.
Proof.
  split.
  - apply g_inv.
  - intros f ->%list_elem_of_singleton. by eexists.
  - intros f ->%list_elem_of_singleton. by eexists.
  - exists 1%positive. split; [by apply list_elem_of_singleton|reflexivity].
  - assert (Hs : dom (rules (store (env w_run))) ⊆ dom (run_rules (run w_run))) by (by apply (bool_decide_unpack _)).
    intros R HR. apply elem_of_dom. apply Hs. by apply elem_of_dom.
  - assert (Hs : dom (matches (store (env w_run))) ⊆ dom (run_matches (run w_run))) by (by apply (bool_decide_unpack _)).
    intros R HR. apply elem_of_dom. apply Hs. by apply elem_of_dom.
  - intros m segs x R b i j [-> ->]%w_lookup [->| ->]%w_members Hl Hi Hj; vm_compute in Hl; simplify_eq;
      vm_compute in Hi; simplify_eq; vm_compute in Hj; simplify_eq.
    exists [1%positive; 4%positive], 4%positive. eapply lineage_up; [reflexivity|done|]. by eapply lineage_here.
Qed.

(** A run of three: the first rule fires, then the rule it activated, which
    returns from the module [MAIN]; the focus is on [MAIN] again, and the
    second rule fires. *)
Lemma Run_correct_witness :
  ∃ tr next s0 next' s1 s', Run 3 3 w_run = Some (Z.of_nat (length tr), s') ∧
  run_trace 0 next s0 tr next' s1 ∧ (Z.of_nat (length tr) <= 3)%Z ∧ AlreadyRunning (run s') = false.
Proof.
  destruct (Run_correct w_run w_AG 3) as (next & s0 & tr & next' & s1 & s' & AG' & H1 & _ & H2 & _ & H3 & _ & _ & H4);
    [exact w_run_inv|reflexivity|split; reflexivity || (intros [=])|].
  exists tr, next, s0, next', s1, s'. split; [exact H1|]. split; [exact H2|]. split; [exact H3|exact H4].
Defined.

Lemma Run_never_stuck_witness :
  ∃ next s0 tr next' s1, start_run w_run = Some (next, s0) ∧ run_trace 0 next s0 tr next' s1 ∧
  ((∃ s', Run 2 (-1) w_run = Some (Z.of_nat (length tr), s')) ∨ length tr = 2).
Proof.
  destruct (Run_never_stuck w_run w_AG (-1) 2) as (next & s0 & tr & next' & s1 & H1 & H2 & _ & H3);
    [exact w_run_inv|reflexivity|reflexivity|reflexivity|].
  exists next, s0, tr, next', s1. split; [exact H1|]. split; [exact H2|].
  destruct H3 as [(s' & AG' & H4 & _)|[H4 _]]; [left; exists s'; exact H4|right; exact H4].
Defined.

Lemma AddAfterRuleFiresFunction_correct_witness :
  ∃ s', AddAfterRuleFiresFunction "trace" 5 10 None w_run = Some (true, s') ∧
  RemoveAfterRuleFiresFunction "trace" s' = Some (true, w_run).
Proof.
  destruct (AddAfterRuleFiresFunction_correct w_run "trace" 5 10 None) as (s' & H1 & _ & _ & H2);
    [constructor|intros it []%elem_of_nil|].
  exists s'. split; [exact H1|exact H2].
Defined.

(** The message about the limit is tied to the wrong count: [runLimit] counts
    down while [rulesFired] counts up, so a run that stops at its limit of two
    does not print it, and one that fires three of six does. *)
Definition limit_message : output_item := OString STDOUT ("rule firing limit reached" +:+ newline).

Example Run_limit_message :
  (∃ s, Run 2 2 w_run = Some (2%Z, s) ∧ limit_message ∉ output (env s)) ∧
  (∃ s, Run 6 6 w_run = Some (3%Z, s) ∧ limit_message ∈ output (env s)).
Proof.
  split; (eexists; split; [vm_compute; reflexivity|]).
  - intros Hin. vm_compute in Hin.
    repeat (apply elem_of_cons in Hin as [Hin|Hin]; [discriminate|]). by apply elem_of_nil in Hin.
  - vm_compute. repeat (apply elem_of_cons; first [left; reflexivity|right]).
Qed.
End witnesses.
