(* ===== verification/AgendaTheorems.v ===== *)
(** * The theorems about the agenda

    The operations of [agenda.c] that the rest of the system calls, each from
    the invariant of all agendas to the same invariant and the abstract result,
    with a concrete instance of each theorem. *)
From S2P Require Import Prelude DList Values AgendaState Strategy StrategyProofs AgendaRep PlaceProofs.
From S2P Require Import Focus Agenda AgendaProofs SystemInv AddProofs.
From S2P Require Import RemoveProofs RemoveSystem ReorderSystem AgendaWitness.
From Stdlib Require Import Sorting.Sorted.

(** ** Moving an activation to the top *)

Section move.
Context {H E : Type}.
Implicit Types (s : Environment H E) (st : Store E).

(** [x] is moved in front of [q :: L1 ++ L2] when it follows [q :: L1]. *)
Lemma move_dll (h : gmap ptr Activation) q L1 x L2 a :
  dll h ((q :: L1) ++ x :: L2) → h !! x = Some a →
  dll (alter (set_act_prev (Some x)) q
  (<[x := set_act_prev None (set_act_next (Some q) a)]> (acts_unlinked h (q :: L1) L2)))
  (x :: q :: L1 ++ L2).
Proof.
  intros Hd Ha. pose proof (dll_unlink _ _ _ _ Hd) as Hu. fold (acts_unlinked h (q :: L1) L2) in Hu.
  pose proof (dll_link (acts_unlinked h (q :: L1) L2) [] (q :: L1 ++ L2) x
    (set_act_prev None (set_act_next (Some q) a)) Hu) as Hl. simpl in Hl. apply Hl; [|done|done].
  apply dll_NoDup in Hd. rewrite <- Permutation_middle in Hd. by apply NoDup_cons in Hd as [? _].
Qed.

Lemma last_or_some {A} (q : A) l : ∃ p, last_or None (q :: l) = Some p ∧ p ∈ q :: l.
Proof.
  destruct (last_or None (q :: l)) as [p|] eqn:Hp; [exists p; split; [done|by apply last_or_elem]|].
  exfalso. destruct l as [|y l _] using rev_ind; [done|].
  change (q :: l ++ [y]) with ((q :: l) ++ [y]) in Hp. by rewrite last_or_snoc in Hp.
Qed.

Lemma MoveActivationToTop_run s m md q L1 x L2 a r :
  modules (store s) !! m = Some md → agenda md = Some q → dll (acts (store s)) ((q :: L1) ++ x :: L2) →
  acts (store s) !! x = Some a → rules (store s) !! theRule a = Some r → whichModule r = m →
  MoveActivationToTop x s = Some (true, with_agendaData (set_AgendaChanged true)
  (with_store (fun st => with_modules (alter (set_agenda (Some x)) m) (with_acts (fun h =>
    alter (set_act_prev (Some x)) q (<[x := set_act_prev None (set_act_next (Some q) a)]>
      (acts_unlinked h (q :: L1) L2))) st)) s)).
Proof.
  intros Hmd Hag Hd Ha Hr Hw. destruct (dll_mid _ _ _ _ _ Hd Ha) as [Hp Hn]. change (prv a) with (act_prev a) in Hp.
  change (nxt a) with (act_next a) in Hn.
  destruct (last_or_some q L1) as (p & Hlast & Hpin). rewrite Hlast in Hp.
  assert (Hx : x ∉ (q :: L1) ++ L2).
  { apply dll_NoDup in Hd. rewrite <- Permutation_middle in Hd. by apply NoDup_cons in Hd as [? _]. }
  assert (Hlive : ∀ y, y ∈ (q :: L1) ++ L2 → is_Some (acts (store s) !! y)).
  { intros y Hy. eapply dll_lookup; [exact Hd|set_solver]. }
  destruct (Hlive p) as [pa Hpa]; [set_solver|].
  unfold MoveActivationToTop. mrun (load_act_Some s _ _ Ha). mrun (load_rule_Some s _ _ Hr). rewrite Hw.
  mrun (load_module_Some s _ _ Hmd). rewrite Hag, decide_False by (intros [= ->]; set_solver).
  rewrite Hp, Hn. erewrite M_bind_Some by reflexivity. cbn beta.
  erewrite M_bind_Some by (eapply update_act_Some; exact Hpa). cbn beta.
  erewrite M_bind_Some.
  2:{ apply update_act_opt. simpl. intros y Hy%hd_or_elem. rewrite lookup_alter_is_Some. apply Hlive. set_solver. }
  cbn beta. set (s2 := with_store _ (with_store _ s)).
  assert (Hs2 : s2 = with_store (with_acts (fun h => acts_unlinked h (q :: L1) L2)) s).
  { unfold s2, acts_unlinked. rewrite Hlast. done. }
  clearbody s2. subst s2. set (s2 := with_store _ s).
  assert (Ha2 : acts (store s2) !! x = Some a) by (simpl; erewrite acts_unlinked_lookup; [done|exact Hd|done]).
  erewrite M_bind_Some by (apply load_module_Some; exact Hmd). cbn beta. rewrite Hag.
  erewrite M_bind_Some by (eapply update_act_Some; exact Ha2). cbn beta.
  erewrite M_bind_Some by reflexivity. cbn beta.
  assert (is_Some (acts (store s2) !! q)) as [qa Hqa].
  { simpl. unfold acts_unlinked. rewrite !upd_opt_is_Some. apply Hlive. set_solver. }
  assert (x ≠ q) by (intros ->; set_solver).
  erewrite M_bind_Some.
  2:{ eapply update_act_Some. simpl. rewrite lookup_alter_ne by done. exact Hqa. }
  cbn beta. erewrite M_bind_Some.
  2:{ eapply update_act_Some. simpl. rewrite lookup_alter_ne, lookup_alter_eq by done. simpl in Ha2. by rewrite Ha2. }
  cbn beta. erewrite M_bind_Some by (eapply update_module_Some; exact Hmd). cbn beta.
  unfold mret, M_ret, SetAgendaChanged, modify, mbind, M_bind. do 3 f_equal.
  unfold with_store, with_acts, with_modules. simpl. do 2 f_equal.
  simpl in Ha2. rewrite (alter_alter_ne _ _ _ x q) by done. f_equal.
  by rewrite (alter_as_insert _ _ _ _ Ha2), alter_insert_eq.
Qed.
End move.

Section theorems.
Context {H E : Type} `{!Host H E}.
Implicit Types (s : Environment H E) (r : Defrule E).

(** C3: [AddActivation], on a system whose agendas are well formed, returns
    with a new activation on the agenda of the rule's module, inserted where
    the abstract specification [spec_place] puts it (by the salience that
    [EvaluateSalience] returns, then by the conflict resolution strategy), every agenda still well formed and the
    whole agenda in firing order; the timetag and the count advance by one
    and the partial match is marked with the new activation. *)
Theorem AddActivation_refines s R r b pm AG segs :
  system_inv s AG → rules (store s) !! R = Some r → AG !! whichModule r = Some segs →
  matches (store s) !! b = Some pm → match_wf pm → focus_ok s → timetag_ok s →
  ∃ s' segs' sal new, AddActivation R b s = Some (tt, s') ∧
  system_inv s' (<[whichModule r := segs']> AG) ∧
  abs segs' = spec_place (key_at (strategy_of s) (store s')) sal new (abs segs) ∧
  acts (store s) !! new = None ∧
  StronglySorted (fires_before (strategy_of s) (store s')) (members segs') ∧
  marker <$> matches (store s') !! b = Some (Some new) ∧
  CurrentTimetag (agendaData s') = (CurrentTimetag (agendaData s) + 1)%Z ∧
  NumberOfActivations (agendaData s') = wrap64u (NumberOfActivations (agendaData s) + 1) ∧
  salience_evaluated R s sal.
Proof.
  intros Hinv Hr Hm Hb Hpm Hf Ht.
  destruct (AddActivation_system s R r b pm AG segs Hinv Hr Hm Hb Hpm Hf Ht)
    as (s' & segs' & sal & new & Hrun & [Hinv' Habs Hnew _ _ Hmk Hd _ Hev]).
  exists s', segs', sal, new. split_and!; try done; [|by rewrite Hd..].
  eapply wf_agenda_ordered. assert (strategy_of s = strategy_of s') as -> by (unfold strategy_of; by rewrite Hd).
  apply (si_wf _ _ Hinv' (whichModule r)). by rewrite lookup_insert_eq.
Qed.

(** C4: [RemoveActivation] of an activation on an agenda takes it off that
    agenda and nothing else, frees it and the salience group it was the only
    member of (every other group stays allocated, nothing leaks), clears the marker of its partial match when asked to, keeps every agenda
    well formed and decrements the count. *)
Theorem RemoveActivation_refines s AG m segs x updateLinks :
  system_inv s AG → AG !! m = Some segs → x ∈ members segs →
  ∃ s' segs' a b, RemoveActivation x true updateLinks s = Some (tt, s') ∧
  system_inv s' (<[m := segs']> AG) ∧
  abs segs' = spec_filter (fun y => bool_decide (y ≠ x)) (abs segs) ∧
  acts (store s) !! x = Some a ∧ basis a = Some b ∧ acts (store s') !! x = None ∧
  matches (store s') = (if updateLinks then alter (set_marker None) b (matches (store s)) else matches (store s)) ∧
  NumberOfActivations (agendaData s') = wrap64u (NumberOfActivations (agendaData s) - 1) ∧
  dom (groups (store s')) = dom (groups (store s)) ∖ emptied x segs.
Proof.
  intros Hinv Hm Hx.
  destruct (RemoveActivation_system s AG m segs x updateLinks Hinv Hm Hx)
    as (s' & segs' & a & b & Hrun & Ha & Hb & [Hinv' Habs Hgone _ _ Hmt Hd _ _ Hlive]).
  exists s', segs', a, b. by rewrite Hd.
Qed.

(** C5: [SetStrategy] returns the old strategy, and afterwards every agenda
    is well formed and in the order of the new one: unchanged when the
    strategy is the same, rebuilt by insertion from the old order otherwise. *)
Theorem SetStrategy_correct s AG value :
  system_inv s AG → modules_listed s AG →
  ∃ s' AG', SetStrategy value s = Some (strategy_of s, s') ∧
  system_inv s' AG' ∧ strategy_of s' = value ∧ dom AG' = dom AG ∧
  ∀ k segs, AG !! k = Some segs → ∃ segs', AG' !! k = Some segs' ∧
    members segs' ≡ₚ members segs ∧
    abs segs' = if decide (strategy_of s = value) then abs segs
      else spec_reorder (key_at value (store s)) (salience_at (store s)) (members segs) [].
Proof.
  intros Hinv Hl. destruct (SetStrategy_run s AG value Hinv Hl) as (s' & AG' & Hrun & Hinv' & Hst & Hdom & Hk).
  exists s', AG'. split_and!; try done. intros k segs Hks. destruct (Hk k segs Hks) as (segs' & Hk' & Habs).
  exists segs'. split; [done|]. split; [|done]. rewrite <- !firing_order_abs, Habs.
  case_decide; [done|]. rewrite spec_reorder_perm, firing_order_abs. unfold firing_order. simpl. by rewrite app_nil_r.
Qed.

(** C6: [RefreshAgenda] re-evaluates the saliences of a module's activations
    and reorders them: each activation ends with the salience that
    [EvaluateSalience] returns for its rule when the rules are evaluated in
    agenda order, in the activation-time mode and with the module current
    ([evaluate_all]); the agenda keeps the same activations, is well formed
    and in firing order by the new saliences; the other modules' activations,
    the salience evaluation mode and the current module are as they were. *)
Theorem RefreshAgenda_correct s AG m segs :
  system_inv s AG → AG !! m = Some segs →
  ∃ s' segs', RefreshAgenda m s = Some (tt, s') ∧ system_inv s' (<[m := segs']> AG) ∧
  saliences_refreshed s m (members segs) s' ∧
  members segs' ≡ₚ members segs ∧
  StronglySorted (fires_before (strategy_of s) (store s')) (members segs') ∧
  (∀ x, x ∉ members segs → acts (store s') !! x = acts (store s) !! x) ∧
  SalienceEvaluation (agendaData s') = SalienceEvaluation (agendaData s) ∧
  defmoduleData s' = defmoduleData s.
Proof.
  intros Hinv Hm. destruct (RefreshAgenda_run s AG m segs Hinv Hm) as (s' & segs' & Hrun & [Hi Hp Ho He _ Hst Hd _ Hsal]).
  exists s', segs'. split_and!; try done. eapply wf_agenda_ordered. rewrite <- Hst.
  apply (si_wf _ _ Hi m). by rewrite lookup_insert_eq.
Qed.

(** [ReorderAgenda] makes any linked list of activations a well-formed
    agenda, whatever their order and saliences and whatever the salience
    groups said: the abstract result is insertion of the activations one by
    one, and the agenda is in firing order. *)
Theorem ReorderAgenda_correct s m G L :
  loose (store s) m G L →
  ∃ s' segs', ReorderAgenda m s = Some (tt, s') ∧
  wf_agenda (strategy_of s) (store s') m segs' ∧
  abs segs' = spec_reorder (key_at (strategy_of s) (store s)) (salience_at (store s)) L [] ∧
  members segs' ≡ₚ L ∧ StronglySorted (fires_before (strategy_of s) (store s')) (members segs').
Proof.
  intros Hl. destruct (ReorderAgenda_loose s m G L Hl) as (s' & segs' & Hrun & Hrb).
  pose proof (rebuilt_perm _ _ _ _ _ _ Hrb) as Hp. destruct Hrb as [Hwf Habs _ _ _].
  exists s', segs'. split_and!; try done. by eapply wf_agenda_ordered.
Qed.

(** C7: [ClearRuleFromAgenda] terminates and removes exactly the activations
    of the rule and of its disjuncts, keeping the order of the others. *)
Theorem ClearRuleFromAgenda_correct s AG segs R r chain :
  system_inv s AG → rules (store s) !! R = Some r → AG !! whichModule r = Some segs →
  rule_chain (rules (store s)) (Some R) chain → NoDup chain →
  ∃ s' segs', ClearRuleFromAgenda R s = Some (tt, s') ∧
  system_inv s' (<[whichModule r := segs']> AG) ∧
  abs segs' = spec_filter (fun x => negb (of_chain chain (store s) x)) (abs segs) ∧
  ∀ x, x ∈ members segs → of_chain chain (store s) x = true → acts (store s') !! x = None.
Proof.
  intros Hinv Hr Hm Hc Hnd.
  destruct (ClearRuleFromAgenda_sweep s AG segs R r chain Hinv Hr Hm Hc Hnd) as (s' & segs' & Hrun & Hsw).
  exists s', segs'. destruct Hsw as [Hi Ha _ _ _ Hg _ _ _ _]. split_and!; try done.
  intros x Hx Hof. apply Hg; [done|]. by rewrite Hof.
Qed.

(** [RemoveAllActivations] terminates, empties the agenda of the current
    module, frees its activations and leaves the other modules' agendas as
    they are. *)
Theorem RemoveAllActivations_correct s AG m segs :
  system_inv s AG → AG !! m = Some segs → CurrentModule (defmoduleData s) = Some m →
  ∃ s', RemoveAllActivations s = Some (tt, s') ∧ system_inv s' (<[m := []]> AG) ∧
  (∀ x, x ∈ members segs → acts (store s') !! x = None) ∧
  (∀ x, x ∉ members segs → acts (store s') !! x = acts (store s) !! x).
Proof.
  intros Hinv Hm Hc. destruct (RemoveAllActivations_sweep s AG m segs Hinv Hm Hc) as (s' & Hrun & Hsw).
  exists s'. destruct Hsw as [Hi _ _ _ Ho Hg _ _ _ _]. split_and!; try done. intros x Hx. by apply Hg.
Qed.

(** [MoveActivationToTop] puts an activation that is not on top of its
    module's agenda in front of it, the order of the others unchanged and the
    list well linked. *)
Theorem MoveActivationToTop_correct s m md q L1 x L2 a r :
  modules (store s) !! m = Some md → agenda md = Some q → dll (acts (store s)) ((q :: L1) ++ x :: L2) →
  acts (store s) !! x = Some a → rules (store s) !! theRule a = Some r → whichModule r = m →
  ∃ s', MoveActivationToTop x s = Some (true, s') ∧
  (agenda <$> modules (store s') !! m) = Some (Some x) ∧
  dll (acts (store s')) (x :: q :: L1 ++ L2) ∧ groups (store s') = groups (store s) ∧
  AgendaChanged (agendaData s') = true.
Proof.
  intros Hmd Hag Hd Ha Hr Hw. eexists. split; [by eapply MoveActivationToTop_run|]. simpl.
  split_and!; try done; [by rewrite lookup_alter_eq, Hmd|by eapply move_dll].
Qed.

(** [DetachActivation] takes an activation off its agenda without freeing
    it: its links are reset and the rest of the agenda is well formed, an
    emptied salience group being removed. *)
Theorem DetachActivation_correct s a r m S1 g sal l1 x l2 S2 :
  acts (store s) !! x = Some a → rules (store s) !! theRule a = Some r → whichModule r = m →
  agenda_rep (store s) m (S1 ++ mkSeg g sal (l1 ++ x :: l2) :: S2) →
  ∃ s', DetachActivation x s = Some (true, s') ∧
  agenda_rep (store s') m (seg_keep S1 g sal (l1 ++ l2) S2) ∧
  acts (store s') !! x = Some (set_act_next None (set_act_prev None a)) ∧
  AgendaChanged (agendaData s') = true.
Proof.
  intros Ha Hr Hw Hrep. destruct (DetachActivation_spec s a r m S1 g sal l1 x l2 S2 Ha Hr Hw Hrep) as (s1 & Hoff & Hrun).
  eexists. split; [exact Hrun|]. simpl. split; [|by rewrite lookup_insert_eq].
  destruct Hoff as [Hrep1 HF _].
  assert (Hx : x ∉ members (seg_keep S1 g sal (l1 ++ l2) S2)).
  { pose proof (dll_NoDup _ _ (rep_acts _ _ _ Hrep)) as Hnd. rewrite members_mid in Hnd. simpl in Hnd.
    rewrite <- app_assoc, app_assoc in Hnd. simpl in Hnd. rewrite <- Permutation_middle in Hnd.
    apply NoDup_cons in Hnd as [Hx _]. rewrite members_keep. rewrite <- !app_assoc in *. exact Hx. }
  destruct (frame_payloads _ _ _ _ _ _ HF x a) as (a1 & Ha1 & Hp); [set_solver|done|].
  eapply agenda_rep_frame; [eapply (reset_frame (store s1) m x a1)|done|exact Hrep1| |set_solver].
  - done.
  - rewrite Hp. done.
  - intros y Hy. split; [|set_solver]. intros ->%list_elem_of_singleton. done.
Qed.

(** The whole agenda of a module is in firing order: by descending
    salience, then by the key of the current strategy. *)
Theorem agenda_in_firing_order s AG m segs :
  system_inv s AG → AG !! m = Some segs →
  StronglySorted (fires_before (strategy_of s) (store s)) (members segs) ∧
  (agenda <$> modules (store s) !! m) = Some (head (members segs)).
Proof.
  intros Hinv Hm. pose proof (si_wf _ _ Hinv m segs Hm) as Hwf. split; [by eapply wf_agenda_ordered|].
  destruct (rep_module _ _ _ (wa_rep _ _ _ _ Hwf)) as (md & -> & _ & Ha). simpl. rewrite Ha. by destruct (members segs).
Qed.

(** C8: [NextActivationToFire] pops the modules with empty agendas off the
    focus stack (which it starts with [MAIN] when empty) and returns the top
    activation of the first module with one, nothing when there is none; the
    agendas are untouched. *)
Theorem NextActivationToFire_correct s :
  focus_ok s → listed_live s → starting_stack s ≠ [] →
  ∃ act s', NextActivationToFire s = Some (act, s') ∧
  CurrentFocus (engineData s') = drop_while (has_no_activation (store s)) (starting_stack s) ∧
  act = head (CurrentFocus (engineData s')) ≫= agenda_of (store s) ∧ store s' = store s.
Proof.
  intros Hf Hl Hne. destruct (NextActivationToFire_run s Hf Hl Hne) as (r & s' & Hrun & [[Hst _] Hc Hr]).
  exists r, s'. split_and!; try done. by rewrite Hc.
Qed.

(** [RemoveFocus] removes the first occurrence of the module from the
    focus stack; when that was the top, the new top becomes the current
    module. *)
Theorem RemoveFocus_correct s m pre post :
  focus_ok s → CurrentFocus (engineData s) = pre ++ m :: post → m ∉ pre →
  ∃ s', RemoveFocus m s = Some (Some m, s') ∧ CurrentFocus (engineData s') = pre ++ post ∧
  FocusChanged (engineData s') = true ∧ store s' = store s ∧
  CurrentModule (defmoduleData s') =
    match pre, post with [], f :: _ => Some f | _, _ => CurrentModule (defmoduleData s) end.
Proof.
  intros Hf Hst Hm. destruct (RemoveFocus_spec s m pre post Hf Hst Hm) as (s' & Hrun & [[Hs _] Hc Hch _ Hcur]).
  by exists s'.
Qed.

(** C9: [EvaluateSalience] always returns, whatever the expression does: a
    salience in the legal range or the rule's current one, which it stores
    in the rule; the agenda settings are untouched. *)
Theorem EvaluateSalience_bounds s R r :
  rules (store s) !! R = Some r → (MIN_DEFRULE_SALIENCE <= salience r <= MAX_DEFRULE_SALIENCE)%Z →
  ∃ z s', EvaluateSalience R s = Some (z, s') ∧ (MIN_DEFRULE_SALIENCE <= z <= MAX_DEFRULE_SALIENCE)%Z ∧
  rules (store s') !! R = Some (set_salience z r) ∧ agendaData s' = agendaData s.
Proof.
  intros Hr Hb. destruct (EvaluateSalience_spec s R r Hr) as (z & s' & r' & Hrun & Ha & _ & _ & Hst & -> & Hz).
  exists z, s'. split_and!; [done|destruct Hz as [->|?]; lia|destruct Hz as [->|?]; lia| |done].
  rewrite Hst. apply lookup_insert_eq.
Qed.

(** [DeleteAllActivations] clears the agenda of the current module,
    whichever module it is given. *)
Theorem DeleteAllActivations_current s AG m segs theModule :
  system_inv s AG → AG !! m = Some segs → CurrentModule (defmoduleData s) = Some m →
  ∃ s', DeleteAllActivations theModule s = Some (tt, s') ∧ system_inv s' (<[m := []]> AG) ∧
  (∀ x, x ∉ members segs → acts (store s') !! x = acts (store s) !! x).
Proof.
  intros Hinv Hm Hc. destruct (RemoveAllActivations_sweep s AG m segs Hinv Hm Hc) as (s' & Hrun & Hsw).
  exists s'. destruct Hsw as [Hi _ _ _ Ho _ _ _ _ _]. by split_and!.
Qed.

(** The matched timetags of a partial match are sorted in descending
    order: [SortPartialMatch] returns a sorted permutation of them. *)
Theorem SortPartialMatch_correct (pm : PartialMatch) :
  0 < bcount pm →
  ∃ l, SortPartialMatch pm = Some l ∧ l ≡ₚ bind_timetag <$> binds pm ∧ StronglySorted Z.ge l.
Proof. apply SortPartialMatch_spec. Qed.

(** The strategy names that [get-strategy] returns are the ones
    [set-strategy] accepts, and no other name is accepted. *)
Theorem strategy_names_roundtrip name strategy :
  strategy_of_argument name = Some strategy ↔ name = GetStrategyName strategy.
Proof.
  unfold strategy_of_argument. split.
  - intros Hs. repeat case_decide; simplify_eq; by subst.
  - intros ->. by destruct strategy.
Qed.
End theorems.

(** ** Concrete instances *)

Section witnesses.
Definition w_r3 : Defrule Z := w_rule "r3" 10 None true 3 None.
Definition w_r1 : Defrule Z := w_rule "r1" 10 None false 1 None.

Lemma AddActivation_refines_witness :
  ∃ s' segs' sal new, AddActivation 3 3 w_env = Some (tt, s') ∧
  system_inv s' (<[1%positive := segs']> w_AG) ∧
  abs segs' = spec_place (key_at DEPTH_STRATEGY (store s')) sal new [(10%Z, [1%positive]); (0%Z, [2%positive])] ∧
  NumberOfActivations (agendaData s') = 3%Z.
Proof.
  destruct (AddActivation_refines w_env 3 w_r3 3 (w_match 13 None) w_AG w_segs)
    as (s' & segs' & sal & new & H1 & H2 & H3 & _ & _ & _ & _ & H4 & _);
    [exact w_inv|reflexivity|reflexivity|reflexivity|by apply w_match_wf|exact w_focus|exact w_timetag|].
  exists s', segs', sal, new. split; [exact H1|]. split; [exact H2|]. split; [exact H3|exact H4].
Defined.

Lemma RemoveActivation_refines_witness :
  ∃ s' segs', RemoveActivation 1 true true w_env = Some (tt, s') ∧
  system_inv s' (<[1%positive := segs']> w_AG) ∧ abs segs' = [(0%Z, [2%positive])].
Proof.
  destruct (RemoveActivation_refines w_env w_AG 1 w_segs 1 true) as (s' & segs' & a & b & H1 & H2 & H3 & _);
    [exact w_inv|reflexivity|by apply (bool_decide_unpack _)|].
  exists s', segs'. split; [exact H1|]. split; [exact H2|]. rewrite H3. reflexivity.
Defined.

Lemma SetStrategy_correct_witness :
  ∃ s' AG' segs', SetStrategy BREADTH_STRATEGY w_env = Some (DEPTH_STRATEGY, s') ∧ system_inv s' AG' ∧
  AG' !! 1%positive = Some segs' ∧ abs segs' = [(10%Z, [1%positive]); (0%Z, [2%positive])].
Proof.
  destruct (SetStrategy_correct w_env w_AG BREADTH_STRATEGY) as (s' & AG' & H1 & H2 & _ & _ & H3);
    [exact w_inv|split; [apply (bool_decide_unpack _); reflexivity|]|].
  - intros k. unfold w_AG. rewrite lookup_singleton_is_Some. simpl. set_solver.
  - destruct (H3 1%positive w_segs eq_refl) as (segs' & H4 & _ & H5).
    exists s', AG', segs'. split; [exact H1|]. split; [exact H2|]. split; [exact H4|].
    rewrite H5. vm_compute. reflexivity.
Defined.

Lemma RefreshAgenda_correct_witness :
  ∃ s' segs', RefreshAgenda 1 w_env = Some (tt, s') ∧ system_inv s' (<[1%positive := segs']> w_AG) ∧
  saliences_refreshed w_env 1 [1%positive; 2%positive] s' ∧ members segs' ≡ₚ [1%positive; 2%positive].
Proof.
  destruct (RefreshAgenda_correct w_env w_AG 1 w_segs) as (s' & segs' & H1 & H2 & H3 & H4 & _);
    [exact w_inv|reflexivity|].
  exists s', segs'. split; [exact H1|]. split; [exact H2|]. split; [exact H3|exact H4].
Defined.

(** The dynamic salience of the second rule is taken over: [r2] moves ahead. *)
Example refresh_takes_over :
  (fun p => (salience_at (store p.2) <$> [1%positive; 2%positive], (agenda <$> modules (store p.2) !! 1%positive)))
  <$> RefreshAgenda 1 w_env = Some ([10%Z; 20%Z], Some (Some 2%positive)).
Proof. vm_compute. reflexivity. Qed.

Lemma ReorderAgenda_correct_witness :
  ∃ s' segs', ReorderAgenda 1 w_env = Some (tt, s') ∧ wf_agenda DEPTH_STRATEGY (store s') 1 segs' ∧
  abs segs' = [(10%Z, [1%positive]); (0%Z, [2%positive])].
Proof.
  destruct (ReorderAgenda_correct w_env 1 (g_addr <$> w_segs) (members w_segs)) as (s' & segs' & H1 & H2 & H3 & _);
    [by eapply wf_agenda_loose; [apply (w_wf DEPTH_STRATEGY)|apply w_tags_inj]|].
  exists s', segs'. split; [exact H1|]. split; [exact H2|]. rewrite H3. vm_compute. reflexivity.
Defined.

Lemma ClearRuleFromAgenda_correct_witness :
  ∃ s' segs', ClearRuleFromAgenda 1 w_env = Some (tt, s') ∧
  system_inv s' (<[1%positive := segs']> w_AG) ∧ abs segs' = [(0%Z, [2%positive])].
Proof.
  destruct (ClearRuleFromAgenda_correct w_env w_AG w_segs 1 w_r1 [1%positive]) as (s' & segs' & H1 & H2 & H3 & _);
    [exact w_inv|reflexivity|reflexivity|split; [reflexivity|exists w_r1; split; reflexivity]
    |apply (bool_decide_unpack _); reflexivity|].
  exists s', segs'. split; [exact H1|]. split; [exact H2|]. rewrite H3. vm_compute. reflexivity.
Defined.

Lemma RemoveAllActivations_correct_witness :
  ∃ s', RemoveAllActivations w_env = Some (tt, s') ∧ system_inv s' (<[1%positive := []]> w_AG) ∧
  acts (store s') !! 2%positive = None.
Proof.
  destruct (RemoveAllActivations_correct w_env w_AG 1 w_segs) as (s' & H1 & H2 & H3 & _);
    [exact w_inv|reflexivity|reflexivity|].
  exists s'. split; [exact H1|]. split; [exact H2|]. apply H3. by apply (bool_decide_unpack _).
Defined.

Lemma w_dll : dll (acts (store w_env)) [1%positive; 2%positive].
Proof. apply (rep_acts _ _ _ w_rep). Qed.

Lemma MoveActivationToTop_correct_witness :
  ∃ s', MoveActivationToTop 2 w_env = Some (true, s') ∧ dll (acts (store s')) [2%positive; 1%positive].
Proof.
  destruct (MoveActivationToTop_correct w_env 1 (mkDefruleModule "MAIN" (Some 1%positive) (Some 1%positive))
    1 [] 2 [] (mkActivation 2 (Some 2%positive) 0 1 7 (Some 1%positive) None) (w_rule "r2" 0 (Some 20%Z) false 2 None))
    as (s' & H1 & _ & H2 & _); [reflexivity|reflexivity|exact w_dll|reflexivity|reflexivity|reflexivity|].
  exists s'. split; [exact H1|exact H2].
Defined.

Lemma DetachActivation_correct_witness :
  ∃ s', DetachActivation 1 w_env = Some (true, s') ∧ agenda_rep (store s') 1 [mkSeg 2 0 [2%positive]].
Proof.
  destruct (DetachActivation_correct w_env (mkActivation 1 (Some 1%positive) 10 2 5 None (Some 2%positive)) w_r1
    1 [] 1 10 [] 1 [] [mkSeg 2 0 [2%positive]]) as (s' & H1 & H2 & _);
    [reflexivity|reflexivity|reflexivity|exact w_rep|].
  exists s'. split; [exact H1|exact H2].
Defined.

Lemma agenda_in_firing_order_witness :
  StronglySorted (fires_before DEPTH_STRATEGY (store w_env)) [1%positive; 2%positive].
Proof. apply (agenda_in_firing_order w_env w_AG 1 w_segs); [exact w_inv|reflexivity]. Defined.

Lemma NextActivationToFire_correct_witness :
  ∃ s', NextActivationToFire w_env = Some (Some 1%positive, s') ∧ CurrentFocus (engineData s') = [1%positive].
Proof.
  destruct (NextActivationToFire_correct w_env) as (act & s' & H1 & H2 & H3 & _);
    [exact w_focus|exact w_listed|discriminate|].
  exists s'. rewrite H2 in H3. vm_compute in H3. subst act. split; [exact H1|]. rewrite H2. vm_compute. reflexivity.
Defined.

Lemma RemoveFocus_correct_witness :
  ∃ s', RemoveFocus 1 w_env = Some (Some 1%positive, s') ∧ CurrentFocus (engineData s') = [].
Proof.
  destruct (RemoveFocus_correct w_env 1 [] []) as (s' & H1 & H2 & _);
    [exact w_focus|reflexivity|by apply not_elem_of_nil|].
  exists s'. split; [exact H1|exact H2].
Defined.

Lemma EvaluateSalience_bounds_witness :
  ∃ z s', EvaluateSalience 2 w_env = Some (z, s') ∧ (MIN_DEFRULE_SALIENCE <= z <= MAX_DEFRULE_SALIENCE)%Z.
Proof.
  destruct (EvaluateSalience_bounds w_env 2 (w_rule "r2" 0 (Some 20%Z) false 2 None)) as (z & s' & H1 & H2 & _);
    [reflexivity|split; discriminate|].
  exists z, s'. split; [exact H1|exact H2].
Defined.

Lemma DeleteAllActivations_current_witness :
  ∃ s', DeleteAllActivations 7 w_env = Some (tt, s') ∧ system_inv s' (<[1%positive := []]> w_AG).
Proof.
  destruct (DeleteAllActivations_current w_env w_AG 1 w_segs 7) as (s' & H1 & H2 & _);
    [exact w_inv|reflexivity|reflexivity|].
  exists s'. split; [exact H1|exact H2].
Defined.

Lemma SortPartialMatch_correct_witness :
  ∃ l, SortPartialMatch (w_match 5 None) = Some l ∧ l ≡ₚ [5%Z].
Proof.
  destruct (SortPartialMatch_correct (w_match 5 None)) as (l & H1 & H2 & _); [cbn; lia|].
  exists l. split; [exact H1|exact H2].
Defined.
End witnesses.
