(* ===== verification/Process.v ===== *)
(** * Code that may end the process

    The internal consistency checks of the engine report with [SystemError] of
    [prntutil.c] and end the process with [ExitRouter] of [router.c].  A
    computation of this kind returns, exits with a code, or is undefined. *)
From S2P Require Import Prelude Values Router.

Inductive outcome (St A : Type) :=
  | Returned (a : A) (s : St)
  | Exited (code : Z) (s : St)
  | Undefined.
Arguments Returned {St A} a s.
Arguments Exited {St A} code s.
Arguments Undefined {St A}.

Definition P (St A : Type) : Type := St → outcome St A.

#[export] Instance P_ret St : MRet (P St) := fun A a s => Returned a s.
#[export] Instance P_bind St : MBind (P St) := fun A B f m s =>
  match m s with
  | Returned a s' => f a s'
  | Exited c s' => Exited c s'
  | Undefined => Undefined
  end.

(** Code that does not exit. *)
Definition lift {St A} (m : M St A) : P St A := fun s =>
  match m s with Some (a, s') => Returned a s' | None => Undefined end.
Definition whenP {St} (b : bool) (m : P St unit) : P St unit := if b then m else mret tt.

(** [for (x in l) f(x);] *)
Fixpoint forM {St A} (l : list A) (f : A → P St unit) : P St unit :=
  match l with [] => mret tt | x :: l' => _ ← f x; forM l' f end.

Definition EXIT_FAILURE : Z := 1.

(** The active routers' exit callbacks close files; none of them calls
    [AbortExit], so the process ends. *)
Definition ExitRouter {St A} (num : Z) : P St A := fun s => Exited num s.

Definition APPLICATION_NAME : string := "CLIPS".

Definition SystemError {St} `{!Router St} (module : string) (errorID : Z) : M St unit :=
  _ ← PrintErrorID "PRNTUTIL" 3 true;
  _ ← WriteString STDERR (newline +:+ "*** ");
  _ ← WriteString STDERR APPLICATION_NAME;
  _ ← WriteString STDERR (" SYSTEM ERROR ***" +:+ newline);
  _ ← WriteString STDERR "ID = ";
  _ ← WriteString STDERR module;
  _ ← WriteInteger STDERR errorID;
  _ ← WriteString STDERR newline;
  _ ← WriteString STDERR APPLICATION_NAME;
  _ ← WriteString STDERR (" data structures are in an inconsistent or corrupted state." +:+ newline);
  _ ← WriteString STDERR ("This error may have occurred from errors in user defined code." +:+ newline);
  WriteString STDERR ("**************************" +:+ newline).

(** The check that most of the code makes: report and exit. *)
Definition system_failure {St A} `{!Router St} (module : string) (errorID : Z) : P St A :=
  _ ← lift (SystemError module errorID);
  ExitRouter EXIT_FAILURE.

(** ** Laws *)

Section laws.
Context {St : Type}.

Lemma P_bind_Returned {A B} (m : P St A) (f : A → P St B) s a s' :
  m s = Returned a s' → (m ≫= f) s = f a s'.
Proof. unfold mbind, P_bind. by intros ->. Qed.
Lemma P_bind_Exited {A B} (m : P St A) (f : A → P St B) s c s' :
  m s = Exited c s' → (m ≫= f) s = Exited c s'.
Proof. unfold mbind, P_bind. by intros ->. Qed.
Lemma P_bind_inv {A B} (m : P St A) (f : A → P St B) s b s'' :
  (m ≫= f) s = Returned b s'' → ∃ a s', m s = Returned a s' ∧ f a s' = Returned b s''.
Proof. unfold mbind, P_bind. destruct (m s); naive_solver. Qed.
Lemma lift_Some {A} (m : M St A) s a s' : m s = Some (a, s') → lift m s = Returned a s'.
Proof. unfold lift. by intros ->. Qed.
Lemma forM_app {A} (l l' : list A) (f : A → P St unit) s :
  forM (l ++ l') f s = (forM l f ≫= fun _ => forM l' f) s.
Proof.
  revert s. induction l as [|x l IH]; intros s; [done|]. simpl.
  unfold mbind, P_bind in *. destruct (f x s); [apply IH|done..].
Qed.
End laws.

(** Run the first half of a bind by a known equation. *)
Ltac prun H := rewrite (P_bind_Returned _ _ _ _ _ H); cbn beta.

(** What one system error writes. *)
Lemma SystemError_Some {St} `{!Router St} module errorID (s : St) :
  ∃ o, SystemError module errorID s = Some (tt, o).
Proof. unfold SystemError, PrintErrorID, WriteInteger, WriteString, write_item. eexists. reflexivity. Qed.

Lemma system_failure_Exited {St A} `{!Router St} module errorID (s : St) :
  ∃ s', system_failure (A := A) module errorID s = Exited EXIT_FAILURE s' ∧
    SystemError module errorID s = Some (tt, s').
Proof.
  destruct (SystemError_Some module errorID s) as [s' Hs]. exists s'. split; [|done].
  unfold system_failure. by prun (lift_Some _ _ _ _ Hs).
Qed.
