(* ===== verification/Hash.v ===== *)
(** * Hash functions of [symbol.c]

    [HashSymbol], [HashFloat], [HashInteger], [HashExternalAddress] and [HashBitMap]
    on machine words: [size_t] and [unsigned long] have 64 bits, [char] is
    signed, and words are stored with the low byte first.  A [double] is its 64
    bits here, since [HashFloat] reads its bytes. *)
From S2P Require Import Prelude Values.

Definition byte : Type := Ascii.ascii.

(** [(size_t) z] *)
Definition size_t (z : Z) : Z := (z mod 2 ^ 64)%Z.

(** The value of a [char]. *)
Definition char_value (c : byte) : Z :=
  let n := Z.of_N (Ascii.N_of_ascii c) in if (n <? 128)%Z then n else (n - 256)%Z.

(** [tally * 127 + (size_t) word[i]] *)
Definition tally_step (tally : Z) (c : byte) : Z := size_t (tally * 127 + char_value c).

(** [tally % range], or [tally] when the range is 0. *)
Definition in_range (tally range : Z) : Z := if (range =? 0)%Z then tally else (tally mod range)%Z.

Definition HashSymbol (word : string) (range : Z) : Z :=
  in_range (foldl tally_step 0%Z (String.list_ascii_of_string word)) range.

(** The [n] low bytes of a word, the lowest first. *)
Fixpoint word_bytes (n : nat) (w : Z) : list byte :=
  match n with
  | O => []
  | S n' => Ascii.ascii_of_N (Z.to_N (w mod 256)) :: word_bytes n' (w / 256)
  end.

(** The word made of some bytes, the lowest first. *)
Fixpoint word_of_bytes (l : list byte) : Z :=
  match l with
  | [] => 0
  | c :: l' => (Z.of_N (Ascii.N_of_ascii c) + 256 * word_of_bytes l')%Z
  end.

Definition HashFloat (number : Z) (range : Z) : Z :=
  in_range (foldl tally_step 0%Z (word_bytes 8 number)) range.

(** Undefined for [LLONG_MIN], which [llabs] cannot negate, and for a range of
    0, which is tested after the division. *)
Definition HashInteger (number range : Z) : option Z :=
  a ← long_long (Z.abs number);
  if (range =? 0)%Z then None else Some (a mod range)%Z.

(** The low half of the address, over 256. *)
Definition HashExternalAddress (theExternalAddress range : Z) : Z :=
  in_range (theExternalAddress mod 2 ^ 32 / 256) range.

(** Eight bytes at a time as an [unsigned long], [n] times. *)
Fixpoint add_longs (n : nat) (word : list byte) (count : Z) : Z * list byte :=
  match n with
  | O => (count, word)
  | S n' => add_longs n' (drop 8 word) (size_t (count + word_of_bytes (take 8 word)))
  end.

Definition HashBitMap (word : list byte) (range : Z) : Z :=
  let '(count, rest) := add_longs (length word / 8) word 0 in
  in_range (foldl (fun count c => size_t (count + char_value c)) count rest) range.

(** ** Bounds *)

Lemma in_range_bound tally range : (0 < range → 0 <= in_range tally range < range)%Z.
Proof. intros Hr. unfold in_range. rewrite (proj2 (Z.eqb_neq _ _)) by lia. by apply Z.mod_pos_bound. Qed.
Lemma HashSymbol_bound word range : (0 < range → 0 <= HashSymbol word range < range)%Z.
Proof. apply in_range_bound. Qed.
Lemma HashFloat_bound number range : (0 < range → 0 <= HashFloat number range < range)%Z.
Proof. apply in_range_bound. Qed.
Lemma HashExternalAddress_bound a range : (0 < range → 0 <= HashExternalAddress a range < range)%Z.
Proof. apply in_range_bound. Qed.
Lemma HashBitMap_bound word range : (0 < range → 0 <= HashBitMap word range < range)%Z.
Proof. intros Hr. unfold HashBitMap. destruct (add_longs _ _ _). by apply in_range_bound. Qed.
Lemma HashInteger_Some number range :
  (0 < range → LLONG_MIN < number <= LLONG_MAX → HashInteger number range = Some (Z.abs number mod range))%Z.
Proof.
  intros Hr Hn. unfold HashInteger. rewrite long_long_Some by (unfold LLONG_MIN, LLONG_MAX in *; lia).
  simpl. by rewrite (proj2 (Z.eqb_neq _ _)) by lia.
Qed.

(** ** Doubles as bit patterns *)

(** The IEEE binary64 number of a 64-bit pattern. *)
Definition double_of_bits (w : Z) : double :=
  let s := (2 ^ 63 <=? w)%Z in
  let e := ((w / 2 ^ 52) mod 2 ^ 11)%Z in
  let m := (w mod 2 ^ 52)%Z in
  if (e =? 0)%Z then
    match m with Zpos p => S754_finite s p (-1074) | _ => S754_zero s end
  else if (e =? 2047)%Z then
    match m with Zpos _ => S754_nan | _ => S754_infinity s end
  else
    match (m + 2 ^ 52)%Z with Zpos p => S754_finite s p (e - 1075) | _ => S754_nan end.

Definition is_word (w : Z) : Prop := (0 <= w < 2 ^ 64)%Z.

(** [+0] and [-0]. *)
Definition zero_bits (w : Z) : bool := (w =? 0)%Z || (w =? 2 ^ 63)%Z.

(** The C [==] on doubles. *)
Definition double_eq (w1 w2 : Z) : bool := SFeqb (double_of_bits w1) (double_of_bits w2).

(** A word is its sign, its exponent and its mantissa. *)
Lemma word_fields w : is_word w →
  (w = (if 2 ^ 63 <=? w then 2 ^ 63 else 0) + (w / 2 ^ 52) mod 2 ^ 11 * 2 ^ 52 + w mod 2 ^ 52)%Z.
Proof.
  intros [Hl Hu]. assert (H1 := Z.div_mod w (2 ^ 52) ltac:(lia)).
  assert (H2 := Z.div_mod (w / 2 ^ 52) (2 ^ 11) ltac:(lia)).
  assert (H3 := Z.mod_pos_bound w (2 ^ 52) ltac:(lia)).
  assert (H4 := Z.mod_pos_bound (w / 2 ^ 52) (2 ^ 11) ltac:(lia)).
  destruct (2 ^ 63 <=? w)%Z eqn:E; [apply Z.leb_le in E|apply Z.leb_gt in E]; lia.
Qed.

Lemma double_of_bits_fields w : is_word w → double_of_bits w ≠ S754_nan →
  match double_of_bits w with
  | S754_zero s => w = (if s then 2 ^ 63 else 0)%Z
  | S754_infinity s => w = ((if s then 2 ^ 63 else 0) + 2047 * 2 ^ 52)%Z
  | S754_nan => False
  | S754_finite s m e =>
      w = ((if s then 2 ^ 63 else 0) + (if (Zpos m <? 2 ^ 52)%Z then Zpos m else (e + 1074) * 2 ^ 52 + Zpos m))%Z
  end.
Proof.
  intros Hw Hn. assert (Hf := word_fields w Hw). unfold double_of_bits in *.
  assert (Hm := Z.mod_pos_bound w (2 ^ 52) ltac:(lia)).
  assert (He := Z.mod_pos_bound (w / 2 ^ 52) (2 ^ 11) ltac:(lia)).
  set (e := ((w / 2 ^ 52) mod 2 ^ 11)%Z) in *. set (m := (w mod 2 ^ 52)%Z) in *.
  set (s := (2 ^ 63 <=? w)%Z) in *. cbn zeta in *.
  destruct (e =? 0)%Z eqn:E0; [apply Z.eqb_eq in E0|].
  - destruct m as [|p|p] eqn:Em; [lia| |lia].
    rewrite (proj2 (Z.ltb_lt _ _)) by lia. lia.
  - destruct (e =? 2047)%Z eqn:E1; [apply Z.eqb_eq in E1|].
    + destruct m as [|p|p]; [lia|done|lia].
    + destruct (m + 2 ^ 52)%Z as [|p|p] eqn:Em; [lia| |lia].
      rewrite (proj2 (Z.ltb_ge _ _)) by lia. lia.
Qed.

(** What [==] says of two numbers. *)
Lemma SFeqb_true x y : SFeqb x y = true →
  x ≠ S754_nan ∧ y ≠ S754_nan ∧ (x = y ∨ ∃ s t, x = S754_zero s ∧ y = S754_zero t).
Proof.
  unfold SFeqb, SFcompare.
  destruct x as [[]|[]| |[] m e], y as [[]|[]| |[] m' e']; simpl; try done; intros Heq;
    (split; [done|]); (split; [done|]); try (by right; do 2 eexists); left; try done.
  - destruct (e ?= e')%Z eqn:Ee; try done. apply Z.compare_eq in Ee as ->.
    destruct (Pos.compare_cont Eq m m') eqn:Em; simpl in Heq; try done.
    by apply Pos.compare_eq in Em as ->.
  - destruct (e ?= e')%Z eqn:Ee; try done. apply Z.compare_eq in Ee as ->.
    destruct (Pos.compare_cont Eq m m') eqn:Em; simpl in Heq; try done.
    by apply Pos.compare_eq in Em as ->.
Qed.

Lemma double_eq_true w1 w2 : is_word w1 → is_word w2 → double_eq w1 w2 = true →
  w1 = w2 ∨ (zero_bits w1 = true ∧ zero_bits w2 = true).
Proof.
  intros H1 H2 (Hn1 & Hn2 & Heq)%SFeqb_true.
  apply double_of_bits_fields in Hn1; [|done]. apply double_of_bits_fields in Hn2; [|done].
  destruct Heq as [Heq|(s & t & Es & Et)].
  - left. rewrite Heq in Hn1. by destruct (double_of_bits w2); try (etrans; [exact Hn1|symmetry; exact Hn2]).
  - right. rewrite Es in Hn1. rewrite Et in Hn2. unfold zero_bits.
    split; [destruct s; subst w1|destruct t; subst w2]; done.
Qed.

Definition is_nan_bits (w : Z) : bool :=
  match double_of_bits w with S754_nan => true | _ => false end.
Lemma double_eq_refl w : double_eq w w = negb (is_nan_bits w).
Proof.
  unfold double_eq, is_nan_bits, SFeqb, SFcompare.
  destruct (double_of_bits w) as [[]|[]| |[] m e]; simpl; try done;
    by rewrite Z.compare_refl, Pos.compare_cont_refl.
Qed.

(** The zeros of both signs hash apart. *)
Lemma HashFloat_zeros w1 w2 : zero_bits w1 = true → zero_bits w2 = true →
  HashFloat w1 8191 = HashFloat w2 8191 → w1 = w2.
Proof.
  unfold zero_bits. rewrite !orb_true_iff, !Z.eqb_eq.
  intros [->| ->] [->| ->]; [done| | |done]; vm_compute; discriminate.
Qed.

(** Conversion leaves the hash functions folded: their bodies on a symbolic word are large. *)
    (** ** The sizes of the tables: [symbol.h] *)

Definition SYMBOL_HASH_SIZE : Z := 63559.
Definition FLOAT_HASH_SIZE : Z := 8191.
Definition INTEGER_HASH_SIZE : Z := 8191.
Definition BITMAP_HASH_SIZE : Z := 8191.
Definition EXTERNAL_ADDRESS_HASH_SIZE : Z := 8191.

  #[global] Strategy 100 [HashSymbol HashFloat HashInteger HashExternalAddress HashBitMap].
