(* ===== verification/TextBuffer.v ===== *)
(** * Growing strings: [utility.c], [genrealloc] of [memalloc.c]

    A string under construction is a pointer with the number of characters in
    it and the number of bytes allocated.  A byte that was never written is
    [None]; reading it, and any access outside the allocation, is undefined. *)
From S2P Require Import Prelude Values Hash.
#[local] Open Scope nat_scope.

(** The memory behind a [char *]; [None] is [NULL]. *)
Definition memory : Type := option (list (option byte)).

(** [str], [*pos], [*max] *)
Record Buffer := mkBuffer { bytes : memory; position : nat; maximum : nat }.
Definition empty_buffer : Buffer := mkBuffer None 0 0.

Definition NUL : byte := Ascii.Ascii false false false false false false false false.
Definition BACKSPACE : Z := 8.

(** [(char) z] *)
Definition char_of (z : Z) : byte := Ascii.ascii_of_N (Z.to_N (z mod 256)).
(** [(unsigned char) c] *)
Definition code_of (c : byte) : Z := Z.of_N (Ascii.N_of_ascii c).

Definition IsUTF8Start (c : byte) : bool := negb (Z.land (code_of c) 192 =? 128)%Z.
Definition IsUTF8MultiByteStart (z : Z) : bool := let c := (z mod 256)%Z in ((192 <=? c) && (c <=? 247))%Z.
Definition IsUTF8MultiByteContinuation (z : Z) : bool := let c := (z mod 256)%Z in ((128 <=? c) && (c <=? 191))%Z.

(** ** Memory *)

Definition read_byte (m : memory) (i : nat) : option byte := cells ← m; c ← cells !! i; c.
Definition write_byte (m : memory) (i : nat) (c : byte) : option memory :=
  cells ← m; if i <? length cells then Some (Some (<[i := Some c]> cells)) else None.

(** [newsz] is not 0 here.  What is new is 0, unless the pointer was [NULL]. *)
Definition genrealloc (oldaddr : memory) (oldsz newsz : nat) : option memory :=
  match oldaddr with
  | None => Some (Some (replicate newsz None))
  | Some cells =>
      let limit := oldsz `min` newsz in
      if limit <=? length cells
      then Some (Some (take limit cells ++ replicate (newsz - limit) (Some NUL))) else None
  end.

(** [strcpy(&m[i],s)] and [strncpy(&m[i],s,n)] of at most the length of [s]. *)
Fixpoint write_bytes (m : memory) (i : nat) (l : list byte) : option memory :=
  match l with [] => Some m | c :: l' => m' ← write_byte m i c; write_bytes m' (S i) l' end.
Definition chars (s : string) : list byte := String.list_ascii_of_string s.

(** [s[i]] of a string; undefined past the byte that ends it. *)
Definition char_at (s : list byte) (i : nat) : option byte := (s ++ [NUL]) !! i.

(** [memmove(&m[dst],&m[src],n)] *)
Definition memmove (m : memory) (dst src n : nat) : option memory :=
  cells ← m;
  if (src + n <=? length cells) && (dst + n <=? length cells)
  then Some (Some (take dst cells ++ take n (drop src cells) ++ drop (dst + n) cells)) else None.

(** The C string at a pointer. *)
Fixpoint string_from (cells : list (option byte)) : option string :=
  match cells with
  | Some c :: cells' => if bool_decide (c = NUL) then Some EmptyString else String c <$> string_from cells'
  | _ => None
  end.
Definition c_string (m : memory) : option string := cells ← m; string_from cells.

(** ** [ExpandStringWithChar] *)

(** The size of a pointer. *)
Definition sizeof_char_ptr : nat := 8.

(** The bytes that continue a UTF-8 character go first. *)
Fixpoint drop_continuation (m : memory) (pos : nat) : option nat :=
  match pos with
  | S (S p as q) =>
      c ← read_byte m q;
      if IsUTF8MultiByteContinuation (code_of c) then drop_continuation m q else Some pos
  | _ => Some pos
  end.

Definition ExpandStringWithChar (inchar : Z) (b : Buffer) (newSize : nat) : option Buffer :=
  '(str, max) ←
    (if maximum b <=? position b + 1 then
       let newSize := if newSize <? sizeof_char_ptr then sizeof_char_ptr else newSize in
       str ← genrealloc (bytes b) (maximum b) newSize; Some (str, newSize)
     else Some (bytes b, maximum b));
  if negb (inchar =? BACKSPACE)%Z then
    str ← write_byte str (position b) (char_of inchar);
    let pos := position b + 1 in
    str ← write_byte str pos NUL;
    Some (mkBuffer str pos max)
  else
    pos ← drop_continuation str (position b);
    let pos := if 0 <? pos then pos - 1 else pos in
    str ← write_byte str pos NUL;
    Some (mkBuffer str pos max).

(** ** Appending *)

Definition EnlargeString (length : nat) (b : Buffer) : option Buffer :=
  if maximum b <? length + position b + 1 then
    let newMax := length + position b + 1 in
    let newMax := if newMax <? sizeof_char_ptr then sizeof_char_ptr else newMax in
    str ← genrealloc (bytes b) (maximum b) newMax;
    Some (mkBuffer str (position b) newMax)
  else Some b.

(** The [NULL] that [EnlargeString] returns for [NULL] when it need not grow:
    never, since it needs a byte for the end. *)
Definition AppendToString (appendStr : string) (b : Buffer) : option Buffer :=
  let length := String.length appendStr in
  b ← EnlargeString length b;
  str ← write_bytes (bytes b) (position b) (chars appendStr ++ [NUL]);
  Some (mkBuffer str (position b + length) (maximum b)).

Definition InsertInString (insertStr : string) (pos : nat) (b : Buffer) : option Buffer :=
  let length := String.length insertStr in
  b ← EnlargeString length b;
  str ← memmove (bytes b) pos (pos + length) (position b - pos);
  str ← write_bytes str (position b) (chars insertStr);
  Some (mkBuffer str (position b + length) (maximum b)).

(** The bytes that [strncpy] of [n] writes: the string, then zeros. *)
Definition padded (s : string) (n : nat) : list byte := take n (chars s ++ replicate n NUL).

Definition AppendNToString (appendStr : string) (b : Buffer) (length : nat) : option Buffer :=
  c ← match length with O => None | S last => char_at (chars appendStr) last end;
  let lengthWithEOS := if bool_decide (c = NUL) then length else length + 1 in
  b ←
    (if maximum b <? lengthWithEOS + position b then
       let newSize := position b + lengthWithEOS in
       let newSize := if newSize <? sizeof_char_ptr then sizeof_char_ptr else newSize in
       str ← genrealloc (bytes b) (maximum b) newSize;
       Some (mkBuffer str (position b) newSize)
     else Some b);
  str ← write_bytes (bytes b) (position b) (padded appendStr length);
  let pos := position b + (lengthWithEOS - 1) in
  str ← write_byte str pos NUL;
  Some (mkBuffer str pos (maximum b)).

(** ** Print forms *)

Definition quote : Z := 34.
Definition backslash : Z := 92.

Definition expand (inchar : Z) (b : Buffer) : option Buffer := ExpandStringWithChar inchar b (maximum b + 80).

Fixpoint print_form_loop (str : list byte) (b : Buffer) : option Buffer :=
  match str with
  | [] => Some b
  | c :: str' =>
      b ← (if (code_of c =? quote)%Z || (code_of c =? backslash)%Z
           then b ← expand backslash b; expand (char_value c) b
           else expand (char_value c) b);
      print_form_loop str' b
  end.

(** The string that [StringPrintForm] creates a lexeme of. *)
Definition string_print_form (str : string) : option string :=
  b ← expand quote empty_buffer;
  b ← print_form_loop (chars str) b;
  b ← expand quote b;
  c_string (bytes b).

(** The string that [AppendStrings] creates a lexeme of. *)
Definition append_strings (str1 str2 : string) : option string :=
  b ← AppendToString str1 empty_buffer;
  b ← AppendToString str2 b;
  c_string (bytes b).

(** ** UTF-8 *)

(** [++i], up to three times more while a continuation byte follows. *)
Definition UTF8Increment (s : list byte) (i : nat) : option nat :=
  c ← char_at s (i + 1);
  if IsUTF8Start c then Some (i + 1)
  else c ← char_at s (i + 2);
       if IsUTF8Start c then Some (i + 2)
       else c ← char_at s (i + 3);
            if IsUTF8Start c then Some (i + 3) else Some (i + 4).

Fixpoint utf8_length_loop (fuel : nat) (s : list byte) (i len : nat) : option nat :=
  match fuel with
  | O => None
  | S fuel' =>
      c ← char_at s i;
      if bool_decide (c = NUL) then Some len
      else i' ← UTF8Increment s i; utf8_length_loop fuel' s i' (len + 1)
  end.
Definition UTF8Length (s : list byte) : option nat := utf8_length_loop (S (length s)) s 0 0.

Fixpoint utf8_offset_loop (charnum : nat) (s : list byte) (offs : nat) : option nat :=
  match charnum with
  | O => Some offs
  | S charnum' =>
      c ← char_at s offs;
      if bool_decide (c = NUL) then Some offs
      else offs' ← UTF8Increment s offs; utf8_offset_loop charnum' s offs'
  end.
Definition UTF8Offset (s : list byte) (charnum : nat) : option nat := utf8_offset_loop charnum s 0.

Fixpoint utf8_charnum_loop (fuel : nat) (s : list byte) (offset charnum offs : nat) : option nat :=
  match fuel with
  | O => None
  | S fuel' =>
      if offs <? offset then
        c ← char_at s offs;
        if bool_decide (c = NUL) then Some charnum
        else offs' ← UTF8Increment s offs; utf8_charnum_loop fuel' s offset (charnum + 1) offs'
      else Some charnum
  end.
Definition UTF8CharNum (s : list byte) (offset : nat) : option nat :=
  utf8_charnum_loop (S (length s)) s offset 0 0.

(** ** String builders *)

Record StringBuilder := mkStringBuilder { sb_buffer : Buffer; bufferReset : nat }.

(** [gm2] does not initialise. *)
Definition CreateStringBuilder (theSize : nat) : option StringBuilder :=
  let theSize := theSize + 1 in
  m ← write_byte (Some (replicate theSize None)) 0 NUL;
  Some (mkStringBuilder (mkBuffer m 0 theSize) theSize).
Definition SBAppend (theSB : StringBuilder) (appendString : string) : option StringBuilder :=
  b ← AppendToString appendString (sb_buffer theSB); Some (mkStringBuilder b (bufferReset theSB)).
Definition SBAddChar (theSB : StringBuilder) (theChar : Z) : option StringBuilder :=
  b ← ExpandStringWithChar theChar (sb_buffer theSB) (maximum (sb_buffer theSB) + 80);
  Some (mkStringBuilder b (bufferReset theSB)).
Definition SBReset (theSB : StringBuilder) : option StringBuilder :=
  let b := sb_buffer theSB in
  let b := if bufferReset theSB =? maximum b then b
           else mkBuffer (Some (replicate (bufferReset theSB) None)) (position b) (bufferReset theSB) in
  m ← write_byte (bytes b) 0 NUL;
  Some (mkStringBuilder (mkBuffer m 0 (maximum b)) (bufferReset theSB)).
Definition SBCopy (theSB : StringBuilder) : option string := c_string (bytes (sb_buffer theSB)).

(** ** Runs *)

Example print_form_of_quotes : string_print_form "a\b" = Some (String (char_of 34) ("a\\b" +:+ String (char_of 34) "")).
Proof. vm_compute. reflexivity. Qed.
Example InsertInString_loses_text :
  (b ← AppendToString "abc" empty_buffer; b ← InsertInString "X" 1 b; c_string (bytes b)) = Some "ac".
Proof. vm_compute. reflexivity. Qed.
Example utf8_length_of_umlaut : UTF8Length [char_of 195; char_of 164; char_of 97] = Some 2.
Proof. vm_compute. reflexivity. Qed.
