(* ===== verification/IOState.v ===== *)
(** * State of the routers and of the scanner

    [struct routerData] of [router.h], [struct stringRouterData] of [strngrtr.h],
    [struct scannerData] of [scanner.h] and [struct prettyPrintData] of
    [pprint.h], with the character arrays, string builders and streams they
    point to.  The callbacks of routers other than the string routers are
    those of the interface [RouterHost]: they act on the rest of the system. *)
From S2P Require Import Prelude Values Router Process Hash TextBuffer.
#[local] Open Scope Z_scope.

(** ** Names and callbacks *)

(** A [const char *] passed as a logical name: a string at an address, or, for
    the fast load and save, a [FILE] pointer cast to it. *)
Inductive LogicalName :=
  | LName (address : ptr) (chars : string)
  | LFile (file : ptr).

(** [==] on pointers; equal addresses hold the same characters. *)
Definition same_pointer (l1 l2 : LogicalName) : bool :=
  match l1, l2 with
  | LName a1 _, LName a2 _ => bool_decide (a1 = a2)
  | LFile f1, LFile f2 => bool_decide (f1 = f2)
  | _, _ => false
  end.
Definition same_pointer_opt (l1 : LogicalName) (l2 : option LogicalName) : bool :=
  match l2 with Some l2 => same_pointer l1 l2 | None => false end.
(** The logical name is a [FILE] pointer. *)
Definition is_file (l : LogicalName) (f : option ptr) : bool :=
  match l, f with LFile f1, Some f2 => bool_decide (f1 = f2) | _, _ => false end.
(** The characters that [strcmp] reads: those of a [FILE] are undefined. *)
Definition name_of (l : LogicalName) : option string :=
  match l with LName _ s => Some s | LFile _ => None end.

(** Function pointers: the callbacks of [strngrtr.c], or others. *)
Inductive QueryFunction := QueryStringCallback | QueryStringBuilderCallback | HostQuery (f : ptr).
Inductive WriteFunction := WriteStringCallback | WriteStringBuilderCallback | HostWrite (f : ptr).
Inductive ReadFunction := ReadStringCallback | HostRead (f : ptr).
Inductive UnreadFunction := UnreadStringCallback | HostUnread (f : ptr).

(** The callbacks outside [strngrtr.c].  They do not add or remove routers;
    [host_exit] tells whether it called [AbortExit]. *)
Class RouterHost (W : Type) := {
  host_query : ptr → LogicalName → option ptr → M W bool;
  host_write : ptr → LogicalName → string → option ptr → M W unit;
  host_read : ptr → LogicalName → option ptr → M W Z;
  host_unread : ptr → LogicalName → Z → option ptr → M W Z;
  host_exit : ptr → Z → option ptr → M W bool;
}.

(** ** Data *)

(** [struct router] *)
Record router := mkRouter {
  router_name : string;
  active : bool;
  priority : Z;
  context : option ptr;
  queryCallback : option QueryFunction;
  writeCallback : option WriteFunction;
  exitCallback : option ptr;
  readCallback : option ReadFunction;
  unreadCallback : option UnreadFunction;
}.
Definition set_active v r := mkRouter (router_name r) v (priority r) (context r) (queryCallback r)
  (writeCallback r) (exitCallback r) (readCallback r) (unreadCallback r).

(** [struct routerData]; the three fields of the command loop are not used here. *)
Record routerData := mkRouterData {
  LineCountRouter : option LogicalName;
  FastCharGetRouter : option LogicalName;
  FastCharGetString : option ptr;
  FastCharGetIndex : Z;
  ListOfRouters : list router;
  FastLoadFilePtr : option ptr;
  FastSaveFilePtr : option ptr;
  AbortFlag : bool;
}.
Definition set_FastCharGetIndex v d := mkRouterData (LineCountRouter d) (FastCharGetRouter d) (FastCharGetString d) v
  (ListOfRouters d) (FastLoadFilePtr d) (FastSaveFilePtr d) (AbortFlag d).
Definition set_FastCharGet name str i d := mkRouterData (LineCountRouter d) name str i
  (ListOfRouters d) (FastLoadFilePtr d) (FastSaveFilePtr d) (AbortFlag d).
Definition set_ListOfRouters v d := mkRouterData (LineCountRouter d) (FastCharGetRouter d) (FastCharGetString d)
  (FastCharGetIndex d) v (FastLoadFilePtr d) (FastSaveFilePtr d) (AbortFlag d).
Definition set_FastLoadFilePtr v d := mkRouterData (LineCountRouter d) (FastCharGetRouter d) (FastCharGetString d)
  (FastCharGetIndex d) (ListOfRouters d) v (FastSaveFilePtr d) (AbortFlag d).
Definition set_FastSaveFilePtr v d := mkRouterData (LineCountRouter d) (FastCharGetRouter d) (FastCharGetString d)
  (FastCharGetIndex d) (ListOfRouters d) (FastLoadFilePtr d) v (AbortFlag d).
Definition set_AbortFlag v d := mkRouterData (LineCountRouter d) (FastCharGetRouter d) (FastCharGetString d)
  (FastCharGetIndex d) (ListOfRouters d) (FastLoadFilePtr d) (FastSaveFilePtr d) v.

(** [struct stringRouter] *)
Definition READ_STRING : Z := 0.
Definition WRITE_STRING : Z := 1.
Record StringRouter := mkStringRouter {
  sr_name : string;
  readString : option ptr;
  writeString : option ptr;
  currentPosition : nat;
  maximumPosition : nat;
  readWriteType : Z;
}.
Definition set_currentPosition v r :=
  mkStringRouter (sr_name r) (readString r) (writeString r) v (maximumPosition r) (readWriteType r).

(** [struct stringBuilderRouter] *)
Record StringBuilderRouter := mkStringBuilderRouter { sbr_name : string; SBR : ptr }.

(** [struct scannerData] *)
Record scannerData := mkScannerData {
  GlobalBuffer : Buffer;
  LineCount : Z;
  IgnoreCompletionErrors : bool;
}.
Definition set_GlobalBuffer v d := mkScannerData v (LineCount d) (IgnoreCompletionErrors d).
Definition set_LineCount v d := mkScannerData (GlobalBuffer d) v (IgnoreCompletionErrors d).

(** [struct prettyPrintData] *)
Record prettyPrintData := mkPrettyPrintData {
  PPBufferStatus : bool;
  PPBufferEnabled : bool;
  IndentationDepth : Z;
  PPBackupOnce : nat;
  PPBackupTwice : nat;
  PPBuffer : Buffer;
}.

(** A stream: what is left to read, a character pushed back, what was written. *)
Record FILE := mkFILE { unread_input : list byte; pushed : option byte; written : list string }.

(** ** The environment *)

Record IOEnv (W : Type) := mkIOEnv {
  router_data : routerData;
  ListOfStringRouters : list StringRouter;
  ListOfStringBuilderRouters : list StringBuilderRouter;
  scanner_data : scannerData;
  pp_data : prettyPrintData;
  arrays : gmap ptr (list (option byte));
  builders : gmap ptr StringBuilder;
  files : gmap ptr FILE;
  world : W;
}.
Arguments mkIOEnv {W}.
Arguments router_data {W}.
Arguments ListOfStringRouters {W}.
Arguments ListOfStringBuilderRouters {W}.
Arguments scanner_data {W}.
Arguments pp_data {W}.
Arguments arrays {W}.
Arguments builders {W}.
Arguments files {W}.
Arguments world {W}.

Section state.
Context {W : Type}.
Implicit Types (s : IOEnv W).

Definition put_router_data v s := mkIOEnv v (ListOfStringRouters s) (ListOfStringBuilderRouters s) (scanner_data s)
  (pp_data s) (arrays s) (builders s) (files s) (world s).
Definition put_string_routers v s := mkIOEnv (router_data s) v (ListOfStringBuilderRouters s) (scanner_data s)
  (pp_data s) (arrays s) (builders s) (files s) (world s).
Definition put_builder_routers v s := mkIOEnv (router_data s) (ListOfStringRouters s) v (scanner_data s)
  (pp_data s) (arrays s) (builders s) (files s) (world s).
Definition put_scanner_data v s := mkIOEnv (router_data s) (ListOfStringRouters s) (ListOfStringBuilderRouters s) v
  (pp_data s) (arrays s) (builders s) (files s) (world s).
Definition put_pp_data v s := mkIOEnv (router_data s) (ListOfStringRouters s) (ListOfStringBuilderRouters s) (scanner_data s)
  v (arrays s) (builders s) (files s) (world s).
Definition put_arrays v s := mkIOEnv (router_data s) (ListOfStringRouters s) (ListOfStringBuilderRouters s) (scanner_data s)
  (pp_data s) v (builders s) (files s) (world s).
Definition put_builders v s := mkIOEnv (router_data s) (ListOfStringRouters s) (ListOfStringBuilderRouters s) (scanner_data s)
  (pp_data s) (arrays s) v (files s) (world s).
Definition put_files v s := mkIOEnv (router_data s) (ListOfStringRouters s) (ListOfStringBuilderRouters s) (scanner_data s)
  (pp_data s) (arrays s) (builders s) v (world s).
Definition put_world (v : W) s : IOEnv W := mkIOEnv (router_data s) (ListOfStringRouters s) (ListOfStringBuilderRouters s) (scanner_data s)
  (pp_data s) (arrays s) (builders s) (files s) v.

Definition getIO {A} (f : IOEnv W → A) : P (IOEnv W) A := fun s => Returned (f s) s.
Definition modifyIO (f : IOEnv W → IOEnv W) : P (IOEnv W) unit := fun s => Returned tt (f s).
(** [None] is undefined behaviour. *)
Definition someIO {A} (o : option A) : P (IOEnv W) A := fun s =>
  match o with Some a => Returned a s | None => Undefined end.
(** A callback. *)
Definition on_world {A} (m : M W A) : P (IOEnv W) A := fun s =>
  match m (world s) with Some (a, w) => Returned a (put_world w s) | None => Undefined end.
Definition modify_router (f : routerData → routerData) : P (IOEnv W) unit :=
  modifyIO (fun s => put_router_data (f (router_data s)) s).

(** ** Streams of [stdio.h] *)

Definition EOF : Z := -1.

Definition getc (f : ptr) : P (IOEnv W) Z :=
  fs ← getIO files;
  x ← someIO (fs !! f);
  match pushed x with
  | Some c =>
      _ ← modifyIO (put_files (<[f := mkFILE (unread_input x) None (written x)]> fs));
      mret (code_of c)
  | None =>
      match unread_input x with
      | [] => mret EOF
      | c :: rest =>
          _ ← modifyIO (put_files (<[f := mkFILE rest None (written x)]> fs));
          mret (code_of c)
      end
  end.
(** One character of push-back is guaranteed; [EOF] is not pushed back. *)
Definition ungetc (ch : Z) (f : ptr) : P (IOEnv W) Z :=
  fs ← getIO files;
  x ← someIO (fs !! f);
  if ch =? EOF then mret EOF
  else
    match pushed x with
    | Some _ => someIO None
    | None =>
        _ ← modifyIO (put_files (<[f := mkFILE (unread_input x) (Some (char_of ch)) (written x)]> fs));
        mret (ch mod 256)
    end.
(** [fprintf] with the format [%s] *)
Definition fprintf (f : ptr) (str : string) : P (IOEnv W) unit :=
  fs ← getIO files;
  x ← someIO (fs !! f);
  modifyIO (put_files (<[f := mkFILE (unread_input x) (pushed x) (written x ++ [str])]> fs)).

(** [a[i]] of a character array, [strlen(a)], [strncpy(&a[i],str,n)] *)
Definition array_byte (a : option ptr) (i : Z) : P (IOEnv W) byte :=
  if i <? 0 then someIO None
  else
    as_ ← getIO arrays;
    someIO (p ← a; cells ← as_ !! p; c ← cells !! Z.to_nat i; c).
Definition array_strlen (a : ptr) : P (IOEnv W) nat :=
  as_ ← getIO arrays;
  str ← someIO (cells ← as_ !! a; string_from cells);
  mret (String.length str).
Definition array_strncpy (a : option ptr) (i : nat) (str : string) (n : nat) : P (IOEnv W) unit :=
  as_ ← getIO arrays;
  p ← someIO a;
  cells ← someIO (as_ !! p);
  m ← someIO (write_bytes (Some cells) i (padded str n));
  cells' ← someIO m;
  modifyIO (put_arrays (<[p := cells']> as_)).
End state.
