(* ===== verification/NumberText.v ===== *)
(** * Numbers as text

    The library functions by which [scanner.c] and [prntutil.c] go between
    numbers and text, on decimal numerals: [strtoll], [atof], and [printf] with
    the formats [%lld] and [%.15g]; [FloatToString] and [LongIntegerToString]
    are built on them.  [atof] rounds the exact decimal value once, to nearest
    even; [%.15g] rounds the exact binary value to fifteen digits. *)
From S2P Require Import Prelude Values Router Process Hash TextBuffer IOState.
#[local] Open Scope Z_scope.

(** ** Decimal digits *)

Definition isdigit (c : Z) : bool := (48 <=? c) && (c <=? 57).
Definition digit_char (d : Z) : byte := char_of (48 + d).
Definition digit_value (c : byte) : Z := code_of c - 48.
Definition digits_value (l : list byte) : Z := foldl (fun n c => 10 * n + digit_value c) 0 l.
Definition is_digit (c : byte) : bool := isdigit (code_of c).

(** The last [k] digits of a number, and all of them. *)
Fixpoint low_digits (k : nat) (n : Z) : list byte :=
  match k with O => [] | S k' => low_digits k' (n / 10) ++ [digit_char (n mod 10)] end.
Fixpoint digit_count_loop (fuel : nat) (n : Z) : nat :=
  match fuel with O => 1%nat | S fuel' => if n <? 10 then 1%nat else S (digit_count_loop fuel' (n / 10)) end.
Definition digit_count (n : Z) : nat := digit_count_loop (Z.to_nat (Z.log2 n)) n.
Definition digits_of (n : Z) : list byte := low_digits (digit_count n) n.

Definition plus_sign : Z := 43.
Definition minus_sign : Z := 45.
Definition point : Z := 46.
Definition upper_e : Z := 69.
Definition lower_e : Z := 101.

(** An optional sign. *)
Definition take_sign (l : list byte) : bool * list byte :=
  match l with
  | c :: l' => if code_of c =? minus_sign then (true, l') else if code_of c =? plus_sign then (false, l') else (false, l)
  | [] => (false, [])
  end.

(** ** [strtoll(s,NULL,10)] *)

(** The value and whether [errno] is set. *)
Definition strtoll (l : list byte) : Z * bool :=
  let '(negative, l) := take_sign l in
  let n := digits_value (take_while is_digit l) in
  let z := if negative then - n else n in
  if z <? LLONG_MIN then (LLONG_MIN, true) else if LLONG_MAX <? z then (LLONG_MAX, true) else (z, false).

(** [printf] with [%lld] *)
Definition printf_lld (z : Z) : list byte :=
  if z <? 0 then char_of minus_sign :: digits_of (- z) else digits_of z.

(** ** [atof] *)

(** The double nearest to [m * 10 ^ e], for [0 <= m]. *)
Definition decimal_to_double (negative : bool) (m e : Z) : double :=
  match m with
  | Zpos _ =>
      if 0 <=? e then binary_normalize 53 1024 (cond_Zopp negative (m * 10 ^ e)) 0 negative
      else
        let '(q, e', loc) := SFdiv_core_binary 53 1024 m 0 (10 ^ (- e)) 0 in
        binary_round_aux 53 1024 negative q e' loc
  | _ => S754_zero negative
  end.

(** The exponent part, if there is one with a digit. *)
Definition exponent_part (l : list byte) : Z :=
  match l with
  | c :: l' =>
      if (code_of c =? upper_e) || (code_of c =? lower_e) then
        let '(negative, l') := take_sign l' in
        let n := digits_value (take_while is_digit l') in
        if negative then - n else n
      else 0
  | [] => 0
  end.
Definition atof (l : list byte) : double :=
  let '(negative, l) := take_sign l in
  let whole := take_while is_digit l in
  let rest := drop_while is_digit l in
  let '(fraction, rest) :=
    match rest with
    | c :: rest' => if code_of c =? point then (take_while is_digit rest', drop_while is_digit rest') else ([], rest)
    | [] => ([], [])
    end in
  match whole ++ fraction with
  | [] => S754_zero false
  | ds => decimal_to_double negative (digits_value ds) (exponent_part rest - Z.of_nat (length fraction))
  end.

(** The bits of a [double]; one not-a-number stands for all. *)
Definition bits_of_double (d : double) : Z :=
  let sign (s : bool) := if s then 2 ^ 63 else 0 in
  (match d with
   | S754_zero s => sign s
   | S754_infinity s => sign s + 2047 * 2 ^ 52
   | S754_nan => 2047 * 2 ^ 52 + 2 ^ 51
   | S754_finite s m e => sign s + (if Zpos m <? 2 ^ 52 then Zpos m else (e + 1074) * 2 ^ 52 + Zpos m)
   end) mod 2 ^ 64.

(** ** [printf] with [%.15g] *)

(** The quotient of [n >= 0] by [d > 0], rounded to nearest even. *)
Definition round_div (n d : Z) : Z :=
  let q := n / d in
  let r := n mod d in
  if (2 * r <? d) || ((2 * r =? d) && Z.even q) then q else q + 1.

(** [n / d * 10 ^ k], rounded. *)
Definition scale_round (n d k : Z) : Z :=
  if 0 <=? k then round_div (n * 10 ^ k) d else round_div n (d * 10 ^ (- k)).
(** [10 ^ k <= n / d] *)
Definition power_below (n d k : Z) : bool :=
  if 0 <=? k then d * 10 ^ k <=? n else d <=? n * 10 ^ (- k).

(** Fifteen digits and the decimal exponent of a positive number [n / d]. *)
Definition fifteen_digits (n d : Z) : Z * Z :=
  let k := Z.of_nat (digit_count n) - Z.of_nat (digit_count d) in
  let x := if power_below n d k then k else k - 1 in
  let q := scale_round n d (14 - x) in
  if q =? 10 ^ 15 then (10 ^ 14, x + 1) else (q, x).

Definition strip_zeros (l : list byte) : list byte :=
  reverse (drop_while (fun c => code_of c =? 48) (reverse l)).
Definition zeros (n : Z) : list byte := replicate (Z.to_nat n) (char_of 48).
Definition with_fraction (whole fraction : list byte) : list byte :=
  match fraction with [] => whole | _ => whole ++ char_of point :: fraction end.

Definition format_digits (q x : Z) : list byte :=
  let ds := low_digits 15 q in
  if (x <? -4) || (15 <=? x) then
    let e := digits_of (Z.abs x) in
    with_fraction (take 1 ds) (strip_zeros (drop 1 ds)) ++
    char_of lower_e :: char_of (if x <? 0 then minus_sign else plus_sign) :: zeros (2 - Z.of_nat (length e)) ++ e
  else if 0 <=? x then
    with_fraction (take (Z.to_nat (x + 1)) ds) (strip_zeros (drop (Z.to_nat (x + 1)) ds))
  else with_fraction (zeros 1) (zeros (- x - 1) ++ strip_zeros ds).

Definition chars_of_sign (negative : bool) : list byte := if negative then [char_of minus_sign] else [].
(** On the 64 bits of the number: the sign of a zero or of a not-a-number shows. *)
Definition printf_15g (w : Z) : list byte :=
  chars_of_sign (2 ^ 63 <=? w) ++
  match double_of_bits w with
  | S754_zero _ => zeros 1
  | S754_infinity _ => chars "inf"
  | S754_nan => chars "nan"
  | S754_finite _ m e =>
      let '(q, x) := if 0 <=? e then fifteen_digits (Zpos m * 2 ^ e) 1 else fifteen_digits (Zpos m) (2 ^ (- e)) in
      format_digits q x
  end.

(** ** [prntutil.c] *)

(** The string that [FloatToString] creates a lexeme of. *)
Definition float_to_string (w : Z) : string :=
  let s := printf_15g w in
  String.string_of_list_ascii
    (if existsb (fun c => (code_of c =? point) || (code_of c =? lower_e)) s then s else s ++ chars ".0").
(** The string that [LongIntegerToString] creates a lexeme of. *)
Definition integer_to_string (number : Z) : string := String.string_of_list_ascii (printf_lld number).

Example atof_half : atof (chars "-0.5e1") = S754_finite true (5 * 2 ^ 50) (-50).
Proof. vm_compute. reflexivity. Qed.
Example float_text : map (fun s => float_to_string (bits_of_double (atof (chars s)))) ["0.1"; "1e15"; "123456789012345678"; "1e-5"; "-0.0001"; "2.50"; "1e400"; "0.3e0"; "5e-324"; "-0.0"; "999999999999999.9"]
  = ["0.1"; "1e+15"; "1.23456789012346e+17"; "1e-05"; "-0.0001"; "2.5"; "inf.0"; "0.3"; "4.94065645841247e-324"; "-0.0"; "1e+15"].
Proof. vm_compute. reflexivity. Qed.
