(* ===== verification/Expr.v ===== *)
(** * Expressions and the state of the evaluator

    [struct expr] ([expressn.h]), [struct functionDefinition] ([extnfunc.h]),
    [struct udfContext] ([entities.h]) and the environment data of
    [evaluatn.h], [prcdrfun.h], [globldef.h], [sortfun.c] and [extnfunc.h] that
    the evaluator and the user-defined functions (UDFs) read and write. *)
From S2P Require Import Prelude Values Router.

(** The C functions the development models, as targets of [functionPointer]. *)
Inductive UserDefinedFunction :=
  | fp_AdditionFunction | fp_MultiplicationFunction | fp_SubtractionFunction
  | fp_DivisionFunction | fp_DivFunction | fp_IntegerFunction | fp_FloatFunction
  | fp_AbsFunction | fp_MinFunction | fp_MaxFunction
  | fp_EqFunction | fp_NeqFunction | fp_StringpFunction | fp_SymbolpFunction
  | fp_LexemepFunction | fp_NumberpFunction | fp_FloatpFunction | fp_IntegerpFunction
  | fp_MultifieldpFunction | fp_ExternalAddresspFunction
  | fp_NotFunction | fp_AndFunction | fp_OrFunction
  | fp_LessThanOrEqualFunction | fp_GreaterThanOrEqualFunction | fp_LessThanFunction
  | fp_GreaterThanFunction | fp_NumericEqualFunction | fp_NumericNotEqualFunction
  | fp_OddpFunction | fp_EvenpFunction
  | fp_IfFunction | fp_WhileFunction | fp_LoopForCountFunction | fp_GetLoopCount
  | fp_BindFunction | fp_PrognFunction | fp_ReturnFunction | fp_BreakFunction
  | fp_SwitchFunction | fp_TryFunction
  | fp_SortFunction
  | fp_CreateFunction | fp_FirstFunction | fp_RestFunction | fp_SubseqFunction
  | fp_DeleteMemberFunction | fp_ReplaceMemberFunction | fp_DeleteFunction
  | fp_ReplaceFunction | fp_InsertFunction | fp_NthFunction | fp_MemberFunction
  | fp_SubsetpFunction | fp_IntersectionFunction | fp_UnionFunction | fp_DifferenceFunction
  | fp_StrCatFunction | fp_SymCatFunction | fp_StrLengthFunction | fp_StrByteLengthFunction
  | fp_StrCompareFunction | fp_UpcaseFunction | fp_LowcaseFunction | fp_SubStringFunction
  | fp_StrIndexFunction | fp_StrReplaceFunction
  | fp_ClaraEvaluateWrapper | fp_CoireEmitWrapper | fp_CoirePollWrapper
  | fp_CoireMarkWrapper | fp_CoireCountWrapper.

(** [struct functionDefinition], less the fields of the parser
    ([parser], [overloadable], [sequenceuseok]), of the binary saver and of
    user data. *)
Record functionDefinition := mkFunctionDefinition {
  callFunctionName : string;
  actualFunctionName : string;
  unknownReturnValueType : Z;
  functionPointer : UserDefinedFunction;
  restrictions : option string;
  minArgs : Z;
  maxArgs : Z;
}.

(** [struct expr]: one constructor per kind of [type]; the argument list holds
    what [argList] and the [nextArg] links reach.  A constant has the type of
    its value ([VVoid]: [VOID_TYPE], whose primitive copies the value). *)
Inductive expr :=
  | EConst (v : value)
  | EMultifield (u : UDFValue)
  | EVariable (multifield : bool) (name : string)
  | EDefglobal (theGlobal : ptr)
  | EFcall (f : functionDefinition) (argList : list expr).

(** [struct defglobal] *)
Record Defglobal := mkDefglobal {
  global_name : string;
  watch : bool;
  current : value;
  initial : option expr;
}.

(** [struct evaluationData] *)
Record EvaluationData := mkEvaluationData {
  CurrentExpression : option expr;
  EvaluationError : bool;
  HaltExecution : bool;
}.

(** [struct procedureFunctionData]; an entry of [BindList] is a [UDFValue] with
    the variable's name in [supplementalInfo]. *)
Record ProcedureFunctionData := mkProcedureFunctionData {
  ReturnFlag : bool;
  BreakFlag : bool;
  LoopCounterStack : list Z;
  BindList : list (string * UDFValue);
}.

(** [defglobalData] with the flags of [constructData] its watch test reads. *)
Record DefglobalData := mkDefglobalData {
  Defglobals : gmap ptr Defglobal;
  ChangeToGlobals : bool;
  ClearReadyInProgress : bool;
  ClearInProgress : bool;
}.

(** The list of periodic functions of [utilityData], by address. *)
Record UtilityData := mkUtilityData {
  PeriodicFunctionsEnabled : bool;
  ListOfPeriodicFunctions : list ptr;
}.

(** Code the evaluator calls that is outside the C core: the callbacks
    implemented in Rust, on the state [W] of the host program, and the periodic
    functions an embedding program may register.  [rust_clara_evaluate] has the
    prototype the C code declares, which takes the address of the environment
    and a text; the Rust function of that name has one parameter, the text, and
    so reads the address in its place. *)
Class EvalHost (W : Type) := {
  theEnv : ptr;
  rust_clara_evaluate : ptr → string → W → string * W;
  rust_coire_emit : string → string → string → W → string * W;
  rust_coire_poll : string → W → string * W;
  rust_coire_mark : string → W → string * W;
  rust_coire_count : string → W → Z * W;
  voidCallFunction : ptr → W → W;
}.

Record EvalEnv (W : Type) := mkEvalEnv {
  evaluationData : EvaluationData;
  procedureFunctionData : ProcedureFunctionData;
  defglobalData : DefglobalData;
  utilityData : UtilityData;
  SortComparisonFunction : list expr;
  ListOfFunctions : list functionDefinition;
  output : list output_item;
  world : W;
}.
Arguments mkEvalEnv {W}. Arguments evaluationData {W}. Arguments procedureFunctionData {W}.
Arguments defglobalData {W}. Arguments utilityData {W}. Arguments SortComparisonFunction {W}.
Arguments ListOfFunctions {W}. Arguments output {W}. Arguments world {W}.

(** ** Field assignments *)

Definition set_CurrentExpression v d := mkEvaluationData v (EvaluationError d) (HaltExecution d).
Definition set_EvaluationError v d := mkEvaluationData (CurrentExpression d) v (HaltExecution d).
Definition set_HaltExecution v d := mkEvaluationData (CurrentExpression d) (EvaluationError d) v.
Definition set_ReturnFlag v d := mkProcedureFunctionData v (BreakFlag d) (LoopCounterStack d) (BindList d).
Definition set_BreakFlag v d := mkProcedureFunctionData (ReturnFlag d) v (LoopCounterStack d) (BindList d).
Definition set_LoopCounterStack v d := mkProcedureFunctionData (ReturnFlag d) (BreakFlag d) v (BindList d).
Definition set_BindList v d := mkProcedureFunctionData (ReturnFlag d) (BreakFlag d) (LoopCounterStack d) v.
Definition with_Defglobals f d := mkDefglobalData (f (Defglobals d)) (ChangeToGlobals d) (ClearReadyInProgress d) (ClearInProgress d).
Definition set_ChangeToGlobals v d := mkDefglobalData (Defglobals d) v (ClearReadyInProgress d) (ClearInProgress d).
Definition set_current v g := mkDefglobal (global_name g) (watch g) v (initial g).

Section setters.
Context {W : Type}.
Implicit Types s : EvalEnv W.
Definition with_evaluationData f s :=
  mkEvalEnv (f (evaluationData s)) (procedureFunctionData s) (defglobalData s) (utilityData s)
  (SortComparisonFunction s) (ListOfFunctions s) (output s) (world s).
Definition with_procedureFunctionData f s :=
  mkEvalEnv (evaluationData s) (f (procedureFunctionData s)) (defglobalData s) (utilityData s)
  (SortComparisonFunction s) (ListOfFunctions s) (output s) (world s).
Definition with_defglobalData f s :=
  mkEvalEnv (evaluationData s) (procedureFunctionData s) (f (defglobalData s)) (utilityData s)
  (SortComparisonFunction s) (ListOfFunctions s) (output s) (world s).
Definition with_SortComparisonFunction f s :=
  mkEvalEnv (evaluationData s) (procedureFunctionData s) (defglobalData s) (utilityData s)
  (f (SortComparisonFunction s)) (ListOfFunctions s) (output s) (world s).
Definition with_ListOfFunctions f s :=
  mkEvalEnv (evaluationData s) (procedureFunctionData s) (defglobalData s) (utilityData s)
  (SortComparisonFunction s) (f (ListOfFunctions s)) (output s) (world s).
Definition with_output f s :=
  mkEvalEnv (evaluationData s) (procedureFunctionData s) (defglobalData s) (utilityData s)
  (SortComparisonFunction s) (ListOfFunctions s) (f (output s)) (world s).
Definition with_world (f : W → W) s :=
  mkEvalEnv (evaluationData s) (procedureFunctionData s) (defglobalData s) (utilityData s)
  (SortComparisonFunction s) (ListOfFunctions s) (output s) (f (world s)).
End setters.

#[export] Instance EvalEnv_Router {W} : Router (EvalEnv W) := {
  map_output := with_output;
}.
#[export] Instance EvalEnv_EvalFlags {W} : EvalFlags (EvalEnv W) := {
  get_EvaluationError s := EvaluationError (evaluationData s);
  get_HaltExecution s := HaltExecution (evaluationData s);
  put_EvaluationError v := with_evaluationData (set_EvaluationError v);
  put_HaltExecution v := with_evaluationData (set_HaltExecution v);
}.

(** ** The context of a UDF call *)

(** [struct udfContext]: [lastArg] is the rest of the argument list and
    [ctx_returnValue] the contents of the cell [returnValue] points to, which
    is also the third parameter of every UDF. *)
Record UDFContext := mkUDFContext {
  theFunction : functionDefinition;
  lastPosition : Z;
  lastArg : list expr;
  ctx_returnValue : UDFValue;
}.
Definition set_lastPosition v c := mkUDFContext (theFunction c) v (lastArg c) (ctx_returnValue c).
Definition set_lastArg v c := mkUDFContext (theFunction c) (lastPosition c) v (ctx_returnValue c).
Definition with_returnValue f c := mkUDFContext (theFunction c) (lastPosition c) (lastArg c) (f (ctx_returnValue c)).

Section udf.
Context {W : Type}.
#[export] Instance Frame_Router : Router (EvalEnv W * UDFContext) := {
  map_output f '(s, c) := (map_output f s, c);
}.
#[export] Instance Frame_EvalFlags : EvalFlags (EvalEnv W * UDFContext) := {
  get_EvaluationError '(s, _) := get_EvaluationError s;
  get_HaltExecution '(s, _) := get_HaltExecution s;
  put_EvaluationError v '(s, c) := (put_EvaluationError v s, c);
  put_HaltExecution v '(s, c) := (put_HaltExecution v s, c);
}.

(** The code of a UDF runs on the environment and its own context. *)
Abbreviation UDF := (M (EvalEnv W * UDFContext)).
Definition lift {A} (m : M (EvalEnv W) A) : UDF A := fun '(s, c) =>
  match m s with Some (a, s') => Some (a, (s', c)) | None => None end.
Definition get_ctx {A} (f : UDFContext → A) : UDF A := gets (fun '(_, c) => f c).
Definition get_env {A} (f : EvalEnv W → A) : UDF A := gets (fun '(s, _) => f s).
Definition modify_ctx (f : UDFContext → UDFContext) : UDF unit := modify (fun '(s, c) => (s, f c)).
Definition modify_env (f : EvalEnv W → EvalEnv W) : UDF unit := modify (fun '(s, c) => (f s, c)).

(** [returnValue->value = v], the whole cell, and reading it. *)
Definition set_returnValue (v : value) : UDF unit := modify_ctx (with_returnValue (set_uv_value v)).
Definition put_returnValue (u : UDFValue) : UDF unit := modify_ctx (with_returnValue (fun _ => u)).
Definition get_returnValue : UDF UDFValue := get_ctx ctx_returnValue.

(** [CurrentExpression->argList] *)
Definition current_args : UDF (list expr) :=
  e ← get_env (fun s => CurrentExpression (evaluationData s));
  match e with Some (EFcall _ args) => mret args | _ => undefined end.
End udf.
Abbreviation UDF W := (M (EvalEnv W * UDFContext)).

(** The evaluator, as the UDFs call it. *)
Definition Evaluator (W : Type) : Type := option expr → M (EvalEnv W) UDFValue.
