(* ===== verification/Functions.v ===== *)
(** * The table of functions: [extnfunc.c]

    [AddUDF] and the definitions of the functions the development models, with
    their names, return types, argument counts and argument types. *)
From Stdlib Require Import Ascii.
From S2P Require Import Prelude Values Router Expr.
#[local] Open Scope Z_scope.

Definition UNBOUNDED : Z := USHRT_MAX.

Inductive AddUDFError :=
  | AUE_NO_ERROR
  | AUE_MIN_EXCEEDS_MAX_ERROR
  | AUE_FUNCTION_NAME_IN_USE_ERROR
  | AUE_INVALID_ARGUMENT_TYPE_ERROR
  | AUE_INVALID_RETURN_TYPE_ERROR.

#[export] Instance AddUDFError_eq_dec : EqDecision AddUDFError.
Proof. solve_decision. Defined.

Definition validTypeChars : list Ascii.ascii := String.list_ascii_of_string "bdefilmnsyv*;".

(** The bits of one type letter. *)
Definition type_letter_bits (theChar : Ascii.ascii) : option Z :=
  match theChar with
  | "l"%char => Some INTEGER_BIT
  | "d"%char => Some FLOAT_BIT
  | "s"%char => Some STRING_BIT
  | "y"%char => Some SYMBOL_BIT
  | "n"%char => Some INSTANCE_NAME_BIT
  | "m"%char => Some MULTIFIELD_BIT
  | "f"%char => Some FACT_ADDRESS_BIT
  | "i"%char => Some INSTANCE_ADDRESS_BIT
  | "e"%char => Some EXTERNAL_ADDRESS_BIT
  | "v"%char => Some VOID_BIT
  | "b"%char => Some BOOLEAN_BIT
  | "*"%char => Some ANY_TYPE_BITS
  | _ => None
  end.

Section functions.
Context {W : Type}.
Abbreviation ME := (M (EvalEnv W)).

(** The loop of [PopulateRestriction] over the characters left. *)
Fixpoint populate_loop (chars : list Ascii.ascii) (restriction defaultRestriction position currentPosition valuesRead : Z) : ME Z :=
  match chars with
  | [] =>
    if position =? currentPosition
    then mret (if valuesRead =? 0 then defaultRestriction else restriction)
    else mret defaultRestriction
  | theChar :: rest =>
    if Ascii.eqb theChar ";"%char then
      if currentPosition =? position then mret restriction
      else populate_loop rest 0 defaultRestriction position (currentPosition + 1) 0
    else
    match type_letter_bits theChar with
    | Some bits =>
        populate_loop rest (Z.lor restriction bits) defaultRestriction position currentPosition (valuesRead + 1)
    | None =>
        _ ← WriteString STDERR "Invalid argument type character ";
        _ ← WriteString STDERR (String theChar EmptyString);
        _ ← WriteString STDERR newline;
        populate_loop rest restriction defaultRestriction position currentPosition (valuesRead + 1)
    end
  end.

Definition PopulateRestriction (defaultRestriction : Z) (restrictionString : option string) (position : Z) : ME Z :=
  match restrictionString with
  | None => mret defaultRestriction
  | Some str => populate_loop (String.list_ascii_of_string str) 0 defaultRestriction position 0 0
  end.

(** The lookup of [FindFunction]: function names are unique, so the order of a
    hash bucket does not matter. *)
Definition FindFunction (functionName : string) : ME (option functionDefinition) :=
  gets (fun s => head (filter (fun f => callFunctionName f = functionName) (ListOfFunctions s))).

Definition DefineFunction (name : string) (returnTypeBits : Z) (pointer : UserDefinedFunction)
  (actualName : string) (minArgs maxArgs : Z) (restrictions : option string) : ME AddUDFError :=
  newFunction ← FindFunction name;
  match newFunction with
  | Some _ => mret AUE_FUNCTION_NAME_IN_USE_ERROR
  | None =>
    _ ← modify (with_ListOfFunctions (cons
          (mkFunctionDefinition name actualName returnTypeBits pointer restrictions minArgs maxArgs)));
    mret AUE_NO_ERROR
  end.

Definition valid_types (types : option string) : bool :=
  match types with
  | None => true
  | Some str => forallb (fun ch => bool_decide (ch ∈ validTypeChars)) (String.list_ascii_of_string str)
  end.

Definition AddUDF (clipsFunctionName : string) (returnTypes : option string) (minArgs maxArgs : Z)
  (argumentTypes : option string) (cFunctionPointer : UserDefinedFunction) (cFunctionName : string) : ME AddUDFError :=
  if negb (minArgs =? UNBOUNDED) && (maxArgs <? minArgs) then mret AUE_MIN_EXCEEDS_MAX_ERROR
  else if negb (valid_types argumentTypes) then mret AUE_INVALID_ARGUMENT_TYPE_ERROR
  else if negb (valid_types returnTypes) then mret AUE_INVALID_RETURN_TYPE_ERROR
  else
  returnTypeBits ← (match returnTypes with
                    | Some _ => PopulateRestriction ANY_TYPE_BITS returnTypes 0
                    | None => mret ANY_TYPE_BITS
                    end);
  DefineFunction clipsFunctionName returnTypeBits cFunctionPointer cFunctionName minArgs maxArgs argumentTypes.

(** The list without the first function of this name. *)
Fixpoint remove_function (functionName : string) (l : list functionDefinition) : list functionDefinition :=
  match l with
  | [] => []
  | f :: rest => if bool_decide (callFunctionName f = functionName) then rest else f :: remove_function functionName rest
  end.

Definition RemoveUDF (functionName : string) : ME bool :=
  found ← FindFunction functionName;
  match found with
  | Some _ => _ ← modify (with_ListOfFunctions (remove_function functionName)); mret true
  | None => mret false
  end.

Definition GetNthRestriction (theFunction : option functionDefinition) (position : Z) : ME Z :=
  match theFunction with
  | None => mret ANY_TYPE_BITS
  | Some f =>
    match restrictions f with
    | None => mret ANY_TYPE_BITS
    | Some str =>
        df ← PopulateRestriction ANY_TYPE_BITS (Some str) 0;
        PopulateRestriction df (Some str) position
    end
  end.

Definition GetMinimumArgs (theFunction : functionDefinition) : Z := minArgs theFunction.
Definition GetMaximumArgs (theFunction : functionDefinition) : Z := maxArgs theFunction.

Definition BasicMathFunctionDefinitions : ME unit :=
  _ ← AddUDF "+" (Some "ld") 2 UNBOUNDED (Some "ld") fp_AdditionFunction "AdditionFunction";
  _ ← AddUDF "*" (Some "ld") 2 UNBOUNDED (Some "ld") fp_MultiplicationFunction "MultiplicationFunction";
  _ ← AddUDF "-" (Some "ld") 2 UNBOUNDED (Some "ld") fp_SubtractionFunction "SubtractionFunction";
  _ ← AddUDF "/" (Some "d") 2 UNBOUNDED (Some "ld") fp_DivisionFunction "DivisionFunction";
  _ ← AddUDF "div" (Some "l") 2 UNBOUNDED (Some "ld") fp_DivFunction "DivFunction";
  _ ← AddUDF "integer" (Some "l") 1 1 (Some "ld") fp_IntegerFunction "IntegerFunction";
  _ ← AddUDF "float" (Some "d") 1 1 (Some "ld") fp_FloatFunction "FloatFunction";
  _ ← AddUDF "abs" (Some "ld") 1 1 (Some "ld") fp_AbsFunction "AbsFunction";
  _ ← AddUDF "min" (Some "ld") 1 UNBOUNDED (Some "ld") fp_MinFunction "MinFunction";
  _ ← AddUDF "max" (Some "ld") 1 UNBOUNDED (Some "ld") fp_MaxFunction "MaxFunction";
  mret tt.

Definition PredicateFunctionDefinitions : ME unit :=
  _ ← AddUDF "not" (Some "b") 1 1 None fp_NotFunction "NotFunction";
  _ ← AddUDF "and" (Some "b") 2 UNBOUNDED None fp_AndFunction "AndFunction";
  _ ← AddUDF "or" (Some "b") 2 UNBOUNDED None fp_OrFunction "OrFunction";
  _ ← AddUDF "eq" (Some "b") 2 UNBOUNDED None fp_EqFunction "EqFunction";
  _ ← AddUDF "neq" (Some "b") 2 UNBOUNDED None fp_NeqFunction "NeqFunction";
  _ ← AddUDF "<=" (Some "b") 2 UNBOUNDED (Some "ld") fp_LessThanOrEqualFunction "LessThanOrEqualFunction";
  _ ← AddUDF ">=" (Some "b") 2 UNBOUNDED (Some "ld") fp_GreaterThanOrEqualFunction "GreaterThanOrEqualFunction";
  _ ← AddUDF "<" (Some "b") 2 UNBOUNDED (Some "ld") fp_LessThanFunction "LessThanFunction";
  _ ← AddUDF ">" (Some "b") 2 UNBOUNDED (Some "ld") fp_GreaterThanFunction "GreaterThanFunction";
  _ ← AddUDF "=" (Some "b") 2 UNBOUNDED (Some "ld") fp_NumericEqualFunction "NumericEqualFunction";
  _ ← AddUDF "<>" (Some "b") 2 UNBOUNDED (Some "ld") fp_NumericNotEqualFunction "NumericNotEqualFunction";
  _ ← AddUDF "!=" (Some "b") 2 UNBOUNDED (Some "ld") fp_NumericNotEqualFunction "NumericNotEqualFunction";
  _ ← AddUDF "symbolp" (Some "b") 1 1 None fp_SymbolpFunction "SymbolpFunction";
  _ ← AddUDF "stringp" (Some "b") 1 1 None fp_StringpFunction "StringpFunction";
  _ ← AddUDF "lexemep" (Some "b") 1 1 None fp_LexemepFunction "LexemepFunction";
  _ ← AddUDF "numberp" (Some "b") 1 1 None fp_NumberpFunction "NumberpFunction";
  _ ← AddUDF "integerp" (Some "b") 1 1 None fp_IntegerpFunction "IntegerpFunction";
  _ ← AddUDF "floatp" (Some "b") 1 1 None fp_FloatpFunction "FloatpFunction";
  _ ← AddUDF "oddp" (Some "b") 1 1 (Some "l") fp_OddpFunction "OddpFunction";
  _ ← AddUDF "evenp" (Some "b") 1 1 (Some "l") fp_EvenpFunction "EvenpFunction";
  _ ← AddUDF "multifieldp" (Some "b") 1 1 None fp_MultifieldpFunction "MultifieldpFunction";
  _ ← AddUDF "pointerp" (Some "b") 1 1 None fp_ExternalAddresspFunction "ExternalAddresspFunction";
  _ ← AddUDF "external-addressp" (Some "b") 1 1 None fp_ExternalAddresspFunction "ExternalAddresspFunction";
  mret tt.

(** The parsers, the sequence flags and the reset and clear functions it also
    installs belong to the parser and to the construct manager. *)
Definition ProceduralFunctionDefinitions : ME unit :=
  _ ← AddUDF "if" (Some "*") 0 UNBOUNDED None fp_IfFunction "IfFunction";
  _ ← AddUDF "while" (Some "*") 0 UNBOUNDED None fp_WhileFunction "WhileFunction";
  _ ← AddUDF "loop-for-count" (Some "*") 0 UNBOUNDED None fp_LoopForCountFunction "LoopForCountFunction";
  _ ← AddUDF "(get-loop-count)" (Some "l") 1 1 None fp_GetLoopCount "GetLoopCount";
  _ ← AddUDF "bind" (Some "*") 0 UNBOUNDED None fp_BindFunction "BindFunction";
  _ ← AddUDF "progn" (Some "*") 0 UNBOUNDED None fp_PrognFunction "PrognFunction";
  _ ← AddUDF "return" (Some "*") 0 UNBOUNDED None fp_ReturnFunction "ReturnFunction";
  _ ← AddUDF "break" (Some "v") 0 0 None fp_BreakFunction "BreakFunction";
  _ ← AddUDF "switch" (Some "*") 0 UNBOUNDED None fp_SwitchFunction "SwitchFunction";
  _ ← AddUDF "try" (Some "*") 0 UNBOUNDED None fp_TryFunction "TryFunction";
  mret tt.

Definition SortFunctionDefinitions : ME unit :=
  _ ← AddUDF "sort" (Some "bm") 1 UNBOUNDED (Some "*;y") fp_SortFunction "SortFunction";
  mret tt.

(** Less [explode$] and [implode$], which need the scanner and the printer,
    [progn$] and [foreach]. *)
Definition MultifieldFunctionDefinitions : ME unit :=
  _ ← AddUDF "first$" (Some "m") 1 1 (Some "m") fp_FirstFunction "FirstFunction";
  _ ← AddUDF "rest$" (Some "m") 1 1 (Some "m") fp_RestFunction "RestFunction";
  _ ← AddUDF "subseq$" (Some "m") 3 3 (Some "l;m") fp_SubseqFunction "SubseqFunction";
  _ ← AddUDF "delete-member$" (Some "m") 2 UNBOUNDED (Some "*;m") fp_DeleteMemberFunction "DeleteMemberFunction";
  _ ← AddUDF "replace-member$" (Some "m") 3 UNBOUNDED (Some "*;m") fp_ReplaceMemberFunction "ReplaceMemberFunction";
  _ ← AddUDF "delete$" (Some "m") 3 3 (Some "l;m") fp_DeleteFunction "DeleteFunction";
  _ ← AddUDF "replace$" (Some "m") 4 UNBOUNDED (Some "*;m;l;l") fp_ReplaceFunction "ReplaceFunction";
  _ ← AddUDF "insert$" (Some "m") 3 UNBOUNDED (Some "*;m;l") fp_InsertFunction "InsertFunction";
  _ ← AddUDF "nth$" (Some "synldife") 2 2 (Some ";l;m") fp_NthFunction "NthFunction";
  _ ← AddUDF "member$" (Some "blm") 2 2 (Some ";*;m") fp_MemberFunction "MemberFunction";
  _ ← AddUDF "subsetp" (Some "b") 2 2 (Some ";m;m") fp_SubsetpFunction "SubsetpFunction";
  _ ← AddUDF "intersection$" (Some "m") 0 UNBOUNDED (Some "m") fp_IntersectionFunction "IntersectionFunction";
  _ ← AddUDF "union$" (Some "m") 0 UNBOUNDED (Some "m") fp_UnionFunction "UnionFunction";
  _ ← AddUDF "difference$" (Some "m") 1 UNBOUNDED (Some "m") fp_DifferenceFunction "DifferenceFunction";
  mret tt.

(** Less [eval], [build] and [string-to-field], which need the parser. *)
Definition StringFunctionDefinitions : ME unit :=
  _ ← AddUDF "str-cat" (Some "sy") 1 UNBOUNDED (Some "synld") fp_StrCatFunction "StrCatFunction";
  _ ← AddUDF "sym-cat" (Some "sy") 1 UNBOUNDED (Some "synld") fp_SymCatFunction "SymCatFunction";
  _ ← AddUDF "str-length" (Some "l") 1 1 (Some "syn") fp_StrLengthFunction "StrLengthFunction";
  _ ← AddUDF "str-byte-length" (Some "l") 1 1 (Some "syn") fp_StrByteLengthFunction "StrByteLengthFunction";
  _ ← AddUDF "str-compare" (Some "l") 2 3 (Some "*;syn;syn;l") fp_StrCompareFunction "StrCompareFunction";
  _ ← AddUDF "upcase" (Some "syn") 1 1 (Some "syn") fp_UpcaseFunction "UpcaseFunction";
  _ ← AddUDF "lowcase" (Some "syn") 1 1 (Some "syn") fp_LowcaseFunction "LowcaseFunction";
  _ ← AddUDF "sub-string" (Some "s") 3 3 (Some "*;l;l;syn") fp_SubStringFunction "SubStringFunction";
  _ ← AddUDF "str-index" (Some "bl") 2 2 (Some "syn") fp_StrIndexFunction "StrIndexFunction";
  _ ← AddUDF "str-replace" (Some "syn") 3 3 (Some "syn") fp_StrReplaceFunction "StrReplaceFunction";
  mret tt.

(** The one function of [MiscFunctionDefinitions] that is modelled. *)
Definition MiscFunctionDefinitions : ME unit :=
  _ ← AddUDF "create$" (Some "m") 0 UNBOUNDED None fp_CreateFunction "CreateFunction";
  mret tt.

Definition UserFunctions : ME unit :=
  _ ← AddUDF "clara-evaluate" (Some "s") 1 1 (Some "s") fp_ClaraEvaluateWrapper "ClaraEvaluateWrapper";
  _ ← AddUDF "coire-emit" (Some "s") 3 3 (Some "s;s;s") fp_CoireEmitWrapper "CoireEmitWrapper";
  _ ← AddUDF "coire-poll" (Some "s") 1 1 (Some "s") fp_CoirePollWrapper "CoirePollWrapper";
  _ ← AddUDF "coire-mark" (Some "s") 1 1 (Some "s") fp_CoireMarkWrapper "CoireMarkWrapper";
  _ ← AddUDF "coire-count" (Some "l") 1 1 (Some "s") fp_CoireCountWrapper "CoireCountWrapper";
  mret tt.
End functions.
