(* ===== verification/Args.v ===== *)
(** * Argument access

    [argacces.c] and the argument half of [extnfunc.c]: how a UDF obtains its
    arguments, checks their types and reports an error.  The evaluator is a
    parameter here, so that it can be tied to the UDFs in [Evaluate]. *)
From S2P Require Import Prelude Values Router Hash Expr Functions.
#[local] Open Scope Z_scope.

(** ** Error messages *)

Section messages.
Context {S : Type} `{!Router S, !EvalFlags S}.

(** Returns the new [*typesPrinted]. *)
Definition PrintType (logicalName : string) (typeCount typesPrinted : Z) (typeName : string) : M S Z :=
  if typesPrinted =? 0
  then _ ← WriteString logicalName typeName; mret (typesPrinted + 1)
  else
  _ ← (if typeCount =? 2 then WriteString logicalName " or "
       else if typesPrinted + 1 =? typeCount then WriteString logicalName ", or "
       else WriteString logicalName ", ");
  _ ← WriteString logicalName typeName;
  mret (typesPrinted + 1).

(** The types in the order of the code: the bits that count one and that print
    one differ only for symbols, where [BOOLEAN_BIT] counts too. *)
Definition typeCount_of (expectedType : Z) : Z :=
  let count bits := if has_bits expectedType bits then 1 else 0 in
  count INTEGER_BIT + count FLOAT_BIT + count (Z.lor SYMBOL_BIT BOOLEAN_BIT)
  + count STRING_BIT + count INSTANCE_NAME_BIT + count INSTANCE_ADDRESS_BIT
  + count FACT_ADDRESS_BIT + count EXTERNAL_ADDRESS_BIT + count MULTIFIELD_BIT.

Definition PrintTypesString (logicalName : string) (expectedType : Z) (printCRLF : bool) : M S unit :=
  let typeCount := typeCount_of expectedType in
  let print bits name typesPrinted :=
  if has_bits expectedType bits then PrintType logicalName typeCount typesPrinted name
  else mret typesPrinted in
  n ← print INTEGER_BIT "integer" 0;
  n ← print FLOAT_BIT "float" n;
  n ← (if has_bits expectedType SYMBOL_BIT then PrintType logicalName typeCount n "symbol"
     else print BOOLEAN_BIT "boolean" n);
  n ← print STRING_BIT "string" n;
  n ← print INSTANCE_NAME_BIT "instance name" n;
  n ← print INSTANCE_ADDRESS_BIT "instance address" n;
  n ← print FACT_ADDRESS_BIT "fact address" n;
  n ← print EXTERNAL_ADDRESS_BIT "external address" n;
  n ← print MULTIFIELD_BIT "multifield" n;
  whenM printCRLF (WriteString logicalName ("." +:+ newline)).

Definition ExpectedTypeError0 (functionName : string) (whichArg : Z) : M S unit :=
  _ ← PrintErrorID "ARGACCES" 2 false;
  _ ← WriteString STDERR "Function '";
  _ ← WriteString STDERR functionName;
  _ ← WriteString STDERR "' expected argument #";
  _ ← WriteInteger STDERR whichArg;
  WriteString STDERR " to be of type ".

Definition ExpectedTypeError1 (functionName : string) (whichArg : Z) (expectedType : string) : M S unit :=
  _ ← ExpectedTypeError0 functionName whichArg;
  _ ← WriteString STDERR expectedType;
  WriteString STDERR ("." +:+ newline).

Definition OpenErrorMessage (functionName fileName : string) : M S unit :=
  _ ← PrintErrorID "ARGACCES" 3 false;
  _ ← WriteString STDERR "Function '";
  _ ← WriteString STDERR functionName;
  _ ← WriteString STDERR "' was unable to open file '";
  _ ← WriteString STDERR fileName;
  WriteString STDERR ("'." +:+ newline).

Definition EXACTLY : Z := 0.
Definition AT_LEAST : Z := 1.
Definition NO_MORE_THAN : Z := 2.

Definition ExpectedCountError (functionName : string) (countRelation expectedNumber : Z) : M S unit :=
  _ ← PrintErrorID "ARGACCES" 1 false;
  _ ← WriteString STDERR "Function '";
  _ ← WriteString STDERR functionName;
  _ ← WriteString STDERR "'";
  _ ← (if countRelation =? EXACTLY then WriteString STDERR " expected exactly "
     else if countRelation =? AT_LEAST then WriteString STDERR " expected at least "
     else if countRelation =? NO_MORE_THAN then WriteString STDERR " expected no more than "
     else WriteString STDERR " generated an illegal argument check for ");
  _ ← PrintUnsignedInteger STDERR expectedNumber;
  if expectedNumber =? 1 then WriteString STDERR (" argument." +:+ newline)
  else WriteString STDERR (" arguments." +:+ newline).

Definition CheckFunctionArgCount (func : functionDefinition) (argumentCount : Z) : M S bool :=
  let functionName := callFunctionName func in
  let minArguments := minArgs func in
  let maxArguments := maxArgs func in
  if (minArguments =? UNBOUNDED) && (maxArguments =? UNBOUNDED) then mret true
  else if minArguments =? maxArguments then
  if negb (argumentCount =? minArguments) then
    _ ← ExpectedCountError functionName EXACTLY minArguments;
    _ ← SetEvaluationError true; mret false
  else mret true
  else if argumentCount <? minArguments then
  _ ← ExpectedCountError functionName AT_LEAST minArguments;
  _ ← SetEvaluationError true; mret false
  else if negb (maxArguments =? UNBOUNDED) && (maxArguments <? argumentCount) then
  _ ← ExpectedCountError functionName NO_MORE_THAN maxArguments;
  _ ← SetEvaluationError true; mret false
  else mret true.
End messages.

(** ** Arguments *)

(** The dummy fact and the dummy instance of the environment. *)
Definition DummyFact : ptr := 1%positive.
Definition DummyInstance : ptr := 1%positive.

(** Where an argument goes: the cell [returnValue] of the UDF itself, or a
    local variable with these contents ([None]: not initialised). *)
Inductive dest :=
  | ToReturnValue
  | ToLocal (old : option UDFValue).

Section arguments.
Context {W : Type} (ev : Evaluator W).
Abbreviation UDFM := (UDF W).

(** [CreateInteger] as the evaluator sees it: the node of an integer is its
    value, but the table is searched by [HashInteger], which is undefined for
    the least [long long]. *)
Definition create_integer (z : Z) : UDFM value :=
  _ ← fromOption (HashInteger z INTEGER_HASH_SIZE); mret (VInteger z).

(** [returnValue->integerValue = CreateInteger(theEnv,z)] *)
Definition set_integer (z : Z) : UDFM unit := v ← create_integer z; set_returnValue v.

Lemma create_integer_eq z st : LLONG_MIN < z <= LLONG_MAX → create_integer z st = Some (VInteger z, st).
Proof. intros Hz. unfold create_integer. by rewrite HashInteger_Some by done. Qed.
Lemma set_integer_eq z st : LLONG_MIN < z <= LLONG_MAX → set_integer z st = set_returnValue (VInteger z) st.
Proof. intros Hz. unfold set_integer. by rewrite (M_bind_Some _ _ _ _ _ (create_integer_eq z st Hz)). Qed.
Lemma set_integer_least st : set_integer LLONG_MIN st = None.
Proof. by destruct st. Qed.

Definition UDFContextFunctionName : UDFM string :=
  get_ctx (fun c => callFunctionName (theFunction c)).

Definition AssignErrorValue : UDFM unit :=
  bits ← get_ctx (fun c => unknownReturnValueType (theFunction c));
  if has_bits bits BOOLEAN_BIT then set_returnValue FalseSymbol
  else if has_bits bits STRING_BIT then set_returnValue (VString "")
  else if has_bits bits SYMBOL_BIT then set_returnValue (VSymbol "nil")
  else if has_bits bits INTEGER_BIT then set_returnValue (VInteger 0)
  else if has_bits bits FLOAT_BIT then set_returnValue (VFloat (S754_zero false))
  else if has_bits bits MULTIFIELD_BIT then put_returnValue (mkUDFValue (VMultifield []) 0 0)
  else if has_bits bits INSTANCE_NAME_BIT then set_returnValue (VInstanceName "nil")
  else if has_bits bits FACT_ADDRESS_BIT then set_returnValue (VFactAddress DummyFact)
  else if has_bits bits INSTANCE_ADDRESS_BIT then set_returnValue (VInstanceAddress DummyInstance)
  else if has_bits bits EXTERNAL_ADDRESS_BIT then set_returnValue (VExternalAddress None)
  else set_returnValue VVoid.

Definition UDFArgumentCount : UDFM Z :=
  args ← current_args; mret (Z.of_nat (length args)).

Definition UDFHasNextArgument : UDFM bool :=
  get_ctx (fun c => match lastArg c with [] => false | _ => true end).

Definition UDFThrowError : UDFM unit :=
  _ ← SetHaltExecution true; SetEvaluationError true.

Definition UDFInvalidArgumentMessage (typeString : string) : UDFM unit :=
  name ← UDFContextFunctionName;
  pos ← get_ctx lastPosition;
  ExpectedTypeError1 name (pos - 1) typeString.

(** [returnValue->value = v] and the whole cell; the local's new contents are returned. *)
Definition dest_set_value (d : dest) (v : value) : UDFM (option UDFValue) :=
  match d with
  | ToReturnValue => _ ← set_returnValue v; mret None
  | ToLocal old => mret (Some (set_uv_value v (default (mkUDFValue v 0 0) old)))
  end.
Definition dest_put (d : dest) (u : UDFValue) : UDFM (option UDFValue) :=
  match d with
  | ToReturnValue => _ ← put_returnValue u; mret None
  | ToLocal _ => mret (Some u)
  end.
Definition dest_old (d : dest) : option UDFValue :=
  match d with ToReturnValue => None | ToLocal old => old end.

(** The constants the first [switch] of [UDFNextArgument] takes as they are. *)
Definition is_direct_constant (e : expr) : option value :=
  match e with
  | EConst (VInteger z) => Some (VInteger z)
  | EConst (VFloat d) => Some (VFloat d)
  | EConst (VSymbol x) => Some (VSymbol x)
  | EConst (VString x) => Some (VString x)
  | EConst (VInstanceName x) => Some (VInstanceName x)
  | _ => None
  end.

(** Is a value of this type one the caller asked for? *)
Definition type_expected (expectedType : Z) (v : value) : bool :=
  match v with
  | VSymbol _ => has_bits expectedType SYMBOL_BIT
    || (has_bits expectedType BOOLEAN_BIT && (is_false v || bool_decide (v = TrueSymbol)))
  | _ => has_bits expectedType (Z.shiftl 1 (header_type v))
  end.

(** The branches that look at [EvaluationError]: those of an expected type, and
    that of a symbol where a boolean is expected, whatever the symbol. *)
Definition checks_error (expectedType : Z) (v : value) : bool :=
  match v with
  | VSymbol _ => has_bits expectedType SYMBOL_BIT || has_bits expectedType BOOLEAN_BIT
  | _ => has_bits expectedType (Z.shiftl 1 (header_type v))
  end.

Definition UDF_type_error (argumentPosition expectedType : Z) : UDFM unit :=
  name ← UDFContextFunctionName;
  _ ← ExpectedTypeError0 name argumentPosition;
  _ ← PrintTypesString STDERR expectedType true;
  _ ← SetHaltExecution true;
  _ ← SetEvaluationError true;
  AssignErrorValue.

(** The C result, and the local's contents afterwards. *)
Definition UDFNextArgument (d : dest) (expectedType : Z) : UDFM (bool * option UDFValue) :=
  args ← get_ctx lastArg;
  argumentPosition ← get_ctx lastPosition;
  match args with
  | [] =>
    _ ← SetHaltExecution true;
    _ ← SetEvaluationError true;
    mret (false, dest_old d)
  | argPtr :: nextArg =>
    _ ← modify_ctx (set_lastPosition (argumentPosition + 1));
    _ ← modify_ctx (set_lastArg nextArg);
    match is_direct_constant argPtr with
    | Some v =>
        o ← dest_set_value d v;
        if type_expected expectedType v then mret (true, o)
        else _ ← UDF_type_error argumentPosition expectedType; mret (false, o)
    | None =>
        u ← lift (ev (Some argPtr));
        o ← dest_put d u;
        err ← GetEvaluationError;
        if checks_error expectedType (uv_value u) && err then
          _ ← AssignErrorValue; mret (false, o)
        else if type_expected expectedType (uv_value u) then mret (true, o)
        else _ ← UDF_type_error argumentPosition expectedType; mret (false, o)
    end
  end.

Definition UDFFirstArgument (d : dest) (expectedType : Z) : UDFM (bool * option UDFValue) :=
  args ← current_args;
  _ ← modify_ctx (set_lastArg args);
  _ ← modify_ctx (set_lastPosition 1);
  UDFNextArgument d expectedType.

(** The [for] loop of [UDFNthArgument]. *)
Fixpoint skip_to (argumentPosition lastPosition : Z) (lastArg : list expr) : Z * list expr :=
  match lastArg with
  | [] => (lastPosition, [])
  | _ :: nextArg =>
    if lastPosition <? argumentPosition
    then skip_to argumentPosition (lastPosition + 1) nextArg
    else (lastPosition, lastArg)
  end.

Definition UDFNthArgument (argumentPosition : Z) (d : dest) (expectedType : Z) : UDFM (bool * option UDFValue) :=
  pos ← get_ctx lastPosition;
  _ ← whenM (argumentPosition <? pos)
      (args ← current_args;
       _ ← modify_ctx (set_lastArg args);
       modify_ctx (set_lastPosition 1));
  pos ← get_ctx lastPosition;
  args ← get_ctx lastArg;
  let '(pos', args') := skip_to argumentPosition pos args in
  _ ← modify_ctx (set_lastPosition pos');
  _ ← modify_ctx (set_lastArg args');
  UDFNextArgument d expectedType.

(** [if (! get(context,type,&theArg)) { return; }] and the code after it. *)
Definition arg_or_return (get : UDFM (bool * option UDFValue)) (k : UDFValue → UDFM unit) : UDFM unit :=
  '(ok, o) ← get;
  if (ok : bool) then theArg ← fromOption o; k theArg else mret tt.

Definition GetConstructName (constructType : string) : UDFM (option string) :=
  '(ok, o) ← UDFFirstArgument (ToLocal None) ANY_TYPE_BITS;
  if negb ok then mret None
  else
  returnValue ← fromOption o;
  match uv_value returnValue with
  | VSymbol contents => mret (Some contents)
  | _ => _ ← UDFInvalidArgumentMessage constructType; mret None
  end.

Definition GetFileName : UDFM (option string) :=
  '(ok, o) ← UDFNextArgument (ToLocal None) LEXEME_BITS;
  if negb ok then mret None
  else
  theArg ← fromOption o;
  match uv_value theArg with
  | VSymbol contents | VString contents => mret (Some contents)
  | _ => undefined
  end.

(** [while (UDFHasNextArgument(context)) { if (! UDFNextArgument(context,
    expectedType,&theArg)) { return; } body }]: [a] holds the variables of the
    loop; [None] says that the function has returned.  [n] bounds the number of
    arguments left. *)
Fixpoint arguments_loop {A} (n : nat) (expectedType : Z) (body : A → UDFValue → UDFM (option A)) (a : A) : UDFM (option A) :=
  has ← UDFHasNextArgument;
  if negb has then mret (Some a) else
  match n with
  | O => undefined
  | S n =>
    '(ok, o) ← UDFNextArgument (ToLocal None) expectedType;
    if negb ok then mret None else
    theArg ← fromOption o;
    r ← body a theArg;
    match r with
    | Some a' => arguments_loop n expectedType body a'
    | None => mret None
    end
  end.

Definition for_each_argument {A} (expectedType : Z) (a : A)
  (body : A → UDFValue → UDFM (option A)) (after : A → UDFM unit) : UDFM unit :=
  n ← get_ctx (fun c => length (lastArg c));
  r ← arguments_loop n expectedType body a;
  match r with Some a' => after a' | None => mret tt end.
End arguments.
