(* ===== verification/Multifield.v ===== *)
(** * Multifield values

    The routines of [multifld.c] and [evaluatn.c] that build, normalise and
    compare multifield segments.  A multifield is never changed once it has been
    returned, so its contents stand for its address. *)
From S2P Require Import Prelude Values Router Expr.
#[local] Open Scope Z_scope.

(** The loop of [MultifieldDOsEqual] over the two segments. *)
Fixpoint same_elements (l1 l2 : list value) : option bool :=
  match l1, l2 with
  | e1 :: l1', e2 :: l2' =>
      b ← same_object e1 e2;
      if (b : bool) then same_elements l1' l2' else Some false
  | _, _ => Some true
  end.

Definition MultifieldDOsEqual (dobj1 dobj2 : UDFValue) : option bool :=
  match uv_value dobj1, uv_value dobj2 with
  | VMultifield c1, VMultifield c2 =>
      if negb (uv_range dobj1 =? uv_range dobj2) then Some false else
      l1 ← segment c1 (uv_begin dobj1) (uv_range dobj1);
      l2 ← segment c2 (uv_begin dobj2) (uv_range dobj2);
      same_elements l1 l2
  | _, _ => None
  end.

Definition DOsEqual (dobj1 dobj2 : UDFValue) : option bool :=
  if negb (header_type (uv_value dobj1) =? header_type (uv_value dobj2)) then Some false
  else if header_type (uv_value dobj1) =? MULTIFIELD_TYPE then MultifieldDOsEqual dobj1 dobj2
  else same_object (uv_value dobj1) (uv_value dobj2).

(** [SetMultifieldErrorValue], as the contents of [*returnValue]. *)
Definition SetMultifieldErrorValue : UDFValue := mkUDFValue (VMultifield []) 0 0.

(** As in the code, [range] is left alone. *)
Definition NormalizeMultifield (theMF : UDFValue) : option UDFValue :=
  match uv_value theMF with
  | VMultifield contents =>
      if (uv_begin theMF =? 0) && (uv_range theMF =? Z.of_nat (length contents)) then Some theMF
      else copy ← segment contents (uv_begin theMF) (uv_range theMF);
           Some (mkUDFValue (VMultifield copy) 0 (uv_range theMF))
  | _ => Some theMF
  end.

Section store.
Context {W : Type} (ev : Evaluator W).

(** What one argument of [StoreInMultifield] adds to the new segment. *)
Definition fields_of (u : UDFValue) : option (list value) :=
  match uv_value u with
  | VMultifield contents => segment contents (uv_begin u) (uv_range u)
  | VVoid => Some []
  | v => Some [v]
  end.

(** The evaluation loop of [StoreInMultifield]: [None] when an argument left
    [EvaluationError] set. *)
Fixpoint collect_fields (expptr : list expr) : M (EvalEnv W) (option (list value)) :=
  match expptr with
  | [] => mret (Some [])
  | e :: nextArg =>
    val_ptr ← ev (Some e);
    err ← GetEvaluationError;
    if (err : bool) then mret None else
    fields ← fromOption (fields_of val_ptr);
    rest ← collect_fields nextArg;
    mret (match rest with Some more => Some (fields ++ more) | None => None end)
  end.

Definition StoreInMultifield (expptr : list expr) : M (EvalEnv W) UDFValue :=
  r ← collect_fields expptr;
  match r with
  | Some fields => mret (mkUDFValue (VMultifield fields) 0 (Z.of_nat (length fields)))
  | None => mret (mkUDFValue (VMultifield []) 0 0)
  end.

Definition EvaluateAndStoreInDataObject (mfp : bool) (theExp : list expr) : M (EvalEnv W) (bool * UDFValue) :=
  match theExp with
  | [] => mret (true, mkUDFValue (VMultifield []) 0 0)
  | e :: nextArg =>
    val ← (if negb mfp && match nextArg with [] => true | _ => false end
           then ev (Some e) else StoreInMultifield theExp);
    err ← GetEvaluationError;
    mret (negb err, val)
  end.
End store.
