(* ===== verification/Math.v ===== *)
(** * Arithmetic: [bmathfun.c]

    Signed [long long] overflow is undefined behaviour in C, and is here; a
    [double] is a [spec_float] with the rounding of IEEE binary64. *)
From S2P Require Import Prelude Values Router Expr Args.
#[local] Open Scope Z_scope.

Section math.
Context {W : Type} (ev : Evaluator W).
Abbreviation UDFM := (UDF W).

Definition integer_contents (v : value) : UDFM Z :=
  match v with VInteger z => mret z | _ => undefined end.
Definition float_contents (v : value) : UDFM double :=
  match v with VFloat d => mret d | _ => undefined end.

(** The variables [ftotal], [ltotal] and [useFloatTotal]. *)
Record Totals := mkTotals { ftotal : double; ltotal : Z; useFloatTotal : bool }.

(** [if (useFloatTotal) ... CreateFloat ... else ... CreateInteger] *)
Definition return_total (t : Totals) : UDFM unit :=
  if useFloatTotal t then set_returnValue (VFloat (ftotal t))
  else set_integer (ltotal t).

Definition AdditionFunction : UDFM unit :=
  for_each_argument ev NUMBER_BITS (mkTotals (S754_zero false) 0 false)
  (fun t theArg =>
    if useFloatTotal t then
      d ← fromOption (CVCoerceToFloat (uv_value theArg));
      mret (Some (mkTotals (dadd (ftotal t) d) (ltotal t) true))
    else if CVIsType (uv_value theArg) INTEGER_BIT then
      z ← integer_contents (uv_value theArg);
      l ← fromOption (long_long (ltotal t + z));
      mret (Some (mkTotals (ftotal t) l false))
    else
      d ← fromOption (CVCoerceToFloat (uv_value theArg));
      mret (Some (mkTotals (dadd (double_of_Z (ltotal t)) d) (ltotal t) true)))
  return_total.

Definition MultiplicationFunction : UDFM unit :=
  for_each_argument ev NUMBER_BITS (mkTotals (double_of_Z 1) 1 false)
  (fun t theArg =>
    if useFloatTotal t then
      d ← fromOption (CVCoerceToFloat (uv_value theArg));
      mret (Some (mkTotals (dmul (ftotal t) d) (ltotal t) true))
    else if CVIsType (uv_value theArg) INTEGER_BIT then
      z ← integer_contents (uv_value theArg);
      l ← fromOption (long_long (ltotal t * z));
      mret (Some (mkTotals (ftotal t) l false))
    else
      d ← fromOption (CVCoerceToFloat (uv_value theArg));
      mret (Some (mkTotals (dmul (double_of_Z (ltotal t)) d) (ltotal t) true)))
  return_total.

Definition SubtractionFunction : UDFM unit :=
  arg_or_return (UDFFirstArgument ev (ToLocal None) NUMBER_BITS) (fun theArg =>
  t ← (if CVIsType (uv_value theArg) INTEGER_BIT
       then z ← integer_contents (uv_value theArg); mret (mkTotals (S754_zero false) z false)
       else d ← fromOption (CVCoerceToFloat (uv_value theArg)); mret (mkTotals d 0 true));
  for_each_argument ev NUMBER_BITS t
    (fun t theArg =>
      if useFloatTotal t then
        d ← fromOption (CVCoerceToFloat (uv_value theArg));
        mret (Some (mkTotals (dsub (ftotal t) d) (ltotal t) true))
      else if CVIsType (uv_value theArg) INTEGER_BIT then
        z ← integer_contents (uv_value theArg);
        l ← fromOption (long_long (ltotal t - z));
        mret (Some (mkTotals (ftotal t) l false))
      else
        d ← float_contents (uv_value theArg);
        mret (Some (mkTotals (dsub (double_of_Z (ltotal t)) d) (ltotal t) true)))
    return_total).

Definition DivisionFunction : UDFM unit :=
  arg_or_return (UDFFirstArgument ev (ToLocal None) NUMBER_BITS) (fun theArg =>
  first ← fromOption (CVCoerceToFloat (uv_value theArg));
  for_each_argument ev NUMBER_BITS first
    (fun ftotal theArg =>
      theNumber ← fromOption (CVCoerceToFloat (uv_value theArg));
      if SFeqb theNumber (S754_zero false) then
        _ ← DivideByZeroErrorMessage "/";
        _ ← SetEvaluationError true;
        _ ← set_returnValue (VFloat (double_of_Z 1));
        mret None
      else mret (Some (ddiv ftotal theNumber)))
    (fun ftotal => set_returnValue (VFloat ftotal))).

Definition DivFunction : UDFM unit :=
  arg_or_return (UDFFirstArgument ev (ToLocal None) NUMBER_BITS) (fun theArg =>
  first ← fromOption (CVCoerceToInteger (uv_value theArg));
  for_each_argument ev NUMBER_BITS first
    (fun total theArg =>
      theNumber ← fromOption (CVCoerceToInteger (uv_value theArg));
      if theNumber =? 0 then
        _ ← DivideByZeroErrorMessage "div";
        _ ← SetEvaluationError true;
        _ ← set_integer 1;
        mret None
      else if (total =? LLONG_MIN) && (theNumber =? -1) then
        _ ← ArgumentOverUnderflowErrorMessage "div";
        _ ← SetEvaluationError true;
        _ ← set_integer 1;
        mret None
      else
        q ← fromOption (long_long (Z.quot total theNumber));
        mret (Some q))
    set_integer).

(** [if (! UDFNthArgument(context,1,NUMBER_BITS,returnValue)) { return; }] *)
Definition first_number_or_return (k : value → UDFM unit) : UDFM unit :=
  '(ok, _) ← UDFNthArgument ev 1 ToReturnValue NUMBER_BITS;
  if (ok : bool) then u ← get_returnValue; k (uv_value u) else mret tt.

Definition IntegerFunction : UDFM unit :=
  first_number_or_return (fun v =>
  whenM (CVIsType v FLOAT_BIT)
    (z ← fromOption (CVCoerceToInteger v); set_integer z)).

Definition FloatFunction : UDFM unit :=
  first_number_or_return (fun v =>
  whenM (CVIsType v INTEGER_BIT)
    (d ← fromOption (CVCoerceToFloat v); set_returnValue (VFloat d))).

Definition AbsFunction : UDFM unit :=
  first_number_or_return (fun v =>
  if CVIsType v INTEGER_BIT then
    lv ← integer_contents v;
    whenM (lv <? 0) (z ← fromOption (long_long (- lv)); set_integer z)
  else
    dv ← float_contents v;
    whenM (SFltb dv (S754_zero false)) (set_returnValue (VFloat (SFopp dv)))).

Definition MinFunction : UDFM unit :=
  '(ok, _) ← UDFFirstArgument ev ToReturnValue NUMBER_BITS;
  if negb ok then mret tt else
  for_each_argument ev NUMBER_BITS tt
  (fun _ nextPossible =>
    u ← get_returnValue;
    let v := uv_value u in let next := uv_value nextPossible in
    if CVIsType v FLOAT_BIT || CVIsType next FLOAT_BIT then
      x ← fromOption (CVCoerceToFloat v);
      y ← fromOption (CVCoerceToFloat next);
      _ ← whenM (SFltb y x) (set_returnValue next);
      mret (Some tt)
    else
      x ← integer_contents v;
      y ← integer_contents next;
      _ ← whenM (y <? x) (set_returnValue next);
      mret (Some tt))
  (fun _ => mret tt).

Definition MaxFunction : UDFM unit :=
  '(ok, _) ← UDFFirstArgument ev ToReturnValue NUMBER_BITS;
  if negb ok then mret tt else
  for_each_argument ev NUMBER_BITS tt
  (fun _ nextPossible =>
    u ← get_returnValue;
    let v := uv_value u in let next := uv_value nextPossible in
    if CVIsType v FLOAT_BIT || CVIsType next FLOAT_BIT then
      x ← fromOption (CVCoerceToFloat v);
      y ← fromOption (CVCoerceToFloat next);
      _ ← whenM (SFltb x y) (set_returnValue next);
      mret (Some tt)
    else
      x ← integer_contents v;
      y ← integer_contents next;
      _ ← whenM (x <? y) (set_returnValue next);
      mret (Some tt))
  (fun _ => mret tt).
End math.
