(* ===== verification/Predicates.v ===== *)
(** * Predicates: [prdctfun.c] *)
From S2P Require Import Prelude Values Router Expr Args Multifield Math.
#[local] Open Scope Z_scope.

Section predicates.
Context {W : Type} (ev : Evaluator W).
Abbreviation UDFM := (UDF W).

(** The loop of [EqFunction] over the arguments after the first; the value is
    what the function returns. *)
Fixpoint eq_loop (item : UDFValue) (theExpression : list expr) : UDFM bool :=
  match theExpression with
  | [] => mret true
  | e :: nextArg =>
    nextItem ← lift (ev (Some e));
    if negb (header_type (uv_value nextItem) =? header_type (uv_value item)) then mret false
    else if header_type (uv_value nextItem) =? MULTIFIELD_TYPE then
      same ← fromOption (MultifieldDOsEqual nextItem item);
      if negb same then mret false else eq_loop item nextArg
    else
      same ← fromOption (same_object (uv_value nextItem) (uv_value item));
      if negb same then mret false else eq_loop item nextArg
  end.

Definition EqFunction : UDFM unit :=
  args ← current_args;
  match args with
  | [] => set_returnValue FalseSymbol
  | theExpression :: nextArg =>
    item ← lift (ev (Some theExpression));
    b ← eq_loop item nextArg;
    set_returnValue (bool_symbol b)
  end.

Fixpoint neq_loop (item : UDFValue) (theExpression : list expr) : UDFM bool :=
  match theExpression with
  | [] => mret true
  | e :: nextArg =>
    nextItem ← lift (ev (Some e));
    if negb (header_type (uv_value nextItem) =? header_type (uv_value item)) then neq_loop item nextArg
    else if header_type (uv_value nextItem) =? MULTIFIELD_TYPE then
      same ← fromOption (MultifieldDOsEqual nextItem item);
      if (same : bool) then mret false else neq_loop item nextArg
    else
      same ← fromOption (same_object (uv_value nextItem) (uv_value item));
      if (same : bool) then mret false else neq_loop item nextArg
  end.

Definition NeqFunction : UDFM unit :=
  args ← current_args;
  match args with
  | [] => set_returnValue FalseSymbol
  | theExpression :: nextArg =>
    item ← lift (ev (Some theExpression));
    b ← neq_loop item nextArg;
    set_returnValue (bool_symbol b)
  end.

(** The body the type predicates share. *)
Definition type_predicate (cvType : Z) : UDFM unit :=
  arg_or_return (UDFFirstArgument ev (ToLocal None) ANY_TYPE_BITS) (fun item =>
  if CVIsType (uv_value item) cvType then set_returnValue TrueSymbol
  else set_returnValue FalseSymbol).

Definition StringpFunction : UDFM unit := type_predicate STRING_BIT.
Definition SymbolpFunction : UDFM unit := type_predicate SYMBOL_BIT.
Definition LexemepFunction : UDFM unit := type_predicate LEXEME_BITS.
Definition NumberpFunction : UDFM unit := type_predicate NUMBER_BITS.
Definition FloatpFunction : UDFM unit := type_predicate FLOAT_BIT.
Definition IntegerpFunction : UDFM unit := type_predicate INTEGER_BIT.
Definition MultifieldpFunction : UDFM unit := type_predicate MULTIFIELD_BIT.
Definition ExternalAddresspFunction : UDFM unit := type_predicate EXTERNAL_ADDRESS_BIT.

Definition NotFunction : UDFM unit :=
  arg_or_return (UDFFirstArgument ev (ToLocal None) ANY_TYPE_BITS) (fun theArg =>
  if is_false (uv_value theArg) then set_returnValue TrueSymbol
  else set_returnValue FalseSymbol).

Definition AndFunction : UDFM unit :=
  for_each_argument ev ANY_TYPE_BITS tt
  (fun _ theArg =>
    if is_false (uv_value theArg) then _ ← set_returnValue FalseSymbol; mret None
    else mret (Some tt))
  (fun _ => set_returnValue TrueSymbol).

Definition OrFunction : UDFM unit :=
  for_each_argument ev ANY_TYPE_BITS tt
  (fun _ theArg =>
    if negb (is_false (uv_value theArg)) then _ ← set_returnValue TrueSymbol; mret None
    else mret (Some tt))
  (fun _ => set_returnValue FalseSymbol).

(** The bodies of the six numeric comparisons differ in the test that makes
    them return [FALSE], on integers and on doubles, and in whether [rv1] moves
    on to the argument just read. *)
Definition compare_arguments (fails_int : Z → Z → bool) (fails_float : double → double → bool) (advance : bool) : UDFM unit :=
  arg_or_return (UDFFirstArgument ev (ToLocal None) NUMBER_BITS) (fun rv1 =>
  for_each_argument ev NUMBER_BITS (uv_value rv1)
    (fun rv1 rv2 =>
      fails ← (if CVIsType rv1 INTEGER_BIT && CVIsType (uv_value rv2) INTEGER_BIT then
                 x ← integer_contents rv1; y ← integer_contents (uv_value rv2);
                 mret (fails_int x y)
               else
                 x ← fromOption (CVCoerceToFloat rv1);
                 y ← fromOption (CVCoerceToFloat (uv_value rv2));
                 mret (fails_float x y));
      if (fails : bool) then _ ← set_returnValue FalseSymbol; mret None
      else mret (Some (if advance then uv_value rv2 else rv1)))
    (fun _ => set_returnValue TrueSymbol)).

Definition LessThanOrEqualFunction : UDFM unit := compare_arguments (fun x y => y <? x) (fun x y => SFltb y x) true.
Definition GreaterThanOrEqualFunction : UDFM unit := compare_arguments (fun x y => x <? y) (fun x y => SFltb x y) true.
Definition LessThanFunction : UDFM unit := compare_arguments (fun x y => y <=? x) (fun x y => SFleb y x) true.
Definition GreaterThanFunction : UDFM unit := compare_arguments (fun x y => x <=? y) (fun x y => SFleb x y) true.
Definition NumericEqualFunction : UDFM unit := compare_arguments (fun x y => negb (x =? y)) (fun x y => negb (SFeqb x y)) false.
Definition NumericNotEqualFunction : UDFM unit := compare_arguments (fun x y => x =? y) (fun x y => SFeqb x y) false.

(** [(num / 2) * 2] with the truncated division of C. *)
Definition OddpFunction : UDFM unit :=
  arg_or_return (UDFFirstArgument ev (ToLocal None) INTEGER_BIT) (fun item =>
  num ← integer_contents (uv_value item);
  let halfnum := Z.quot num 2 * 2 in
  if num =? halfnum then set_returnValue FalseSymbol else set_returnValue TrueSymbol).

Definition EvenpFunction : UDFM unit :=
  arg_or_return (UDFFirstArgument ev (ToLocal None) INTEGER_BIT) (fun item =>
  num ← integer_contents (uv_value item);
  let halfnum := Z.quot num 2 * 2 in
  if negb (num =? halfnum) then set_returnValue FalseSymbol else set_returnValue TrueSymbol).
End predicates.
