(* ===== verification/Procedural.v ===== *)
(** * Procedural functions and variables

    [prcdrfun.c]; the reading and writing of globals of [globldef.c];
    [CallPeriodicTasks] of [utility.c].  Garbage frames hold no state the
    values depend on. *)
From S2P Require Import Prelude Values Router Expr Args Multifield.
#[local] Open Scope Z_scope.

Section variables.
Context {W : Type}.
Abbreviation ME := (M (EvalEnv W)).

(** The search of [GetBoundVariable] and of [BindFunction]. *)
Fixpoint find_bind (theBind : list (string * UDFValue)) (varName : string) : option UDFValue :=
  match theBind with
  | [] => None
  | (name, u) :: next => if bool_decide (name = varName) then Some u else find_bind next varName
  end.

(** A [theBind] that was found gets the new value; otherwise [lastBind->next] does. *)
Fixpoint set_bind (theBind : list (string * UDFValue)) (varName : string) (u : UDFValue) : list (string * UDFValue) :=
  match theBind with
  | [] => [(varName, u)]
  | (name, old) :: next =>
    if bool_decide (name = varName) then (name, u) :: next
    else (name, old) :: set_bind next varName u
  end.

Fixpoint remove_bind (theBind : list (string * UDFValue)) (varName : string) : list (string * UDFValue) :=
  match theBind with
  | [] => []
  | (name, old) :: next =>
    if bool_decide (name = varName) then next else (name, old) :: remove_bind next varName
  end.

(** [GetBoundVariable]: [None] for [false], else what is stored in [*vPtr]. *)
Definition GetBoundVariable (varName : string) : ME (option UDFValue) :=
  gets (fun s => find_bind (BindList (procedureFunctionData s)) varName).

Definition FlushBindList : ME unit :=
  modify (with_procedureFunctionData (set_BindList [])).

Definition get_ReturnFlag : ME bool := gets (fun s => ReturnFlag (procedureFunctionData s)).
Definition get_BreakFlag : ME bool := gets (fun s => BreakFlag (procedureFunctionData s)).
Definition put_ReturnFlag (b : bool) : ME unit := modify (with_procedureFunctionData (set_ReturnFlag b)).
Definition put_BreakFlag (b : bool) : ME unit := modify (with_procedureFunctionData (set_BreakFlag b)).
Definition break_or_return : ME bool :=
  b ← get_BreakFlag; r ← get_ReturnFlag; mret (b || r).

Context `{!EvalHost W}.
Definition CallPeriodicTasks : ME unit :=
  u ← gets utilityData;
  whenM (PeriodicFunctionsEnabled u)
  (modify (with_world (fun w => fold_left (fun w f => voidCallFunction f w) (ListOfPeriodicFunctions u) w))).
End variables.

Section globals.
Context {W : Type} `{!EvalHost W} (ev : Evaluator W).
Abbreviation ME := (M (EvalEnv W)).

Definition load_global (p : ptr) : ME Defglobal :=
  d ← gets defglobalData; fromOption (Defglobals d !! p).

(** The contents of [*vPtr], which starts as [vPtr], at the end. *)
Definition QSetDefglobalValue (theGlobal : ptr) (vPtr : UDFValue) (resetVar : bool) : ME UDFValue :=
  g ← load_global theGlobal;
  vPtr ← (if resetVar then
          u ← ev (initial g);
          err ← GetEvaluationError;
          mret (if (err : bool) then set_uv_value FalseSymbol u else u)
        else mret vPtr);
  g ← load_global theGlobal;
  d ← gets defglobalData;
  _ ← whenM (watch g && negb (ClearReadyInProgress d) && negb (ClearInProgress d))
      (_ ← WriteString STDOUT ":== ?*";
       _ ← WriteString STDOUT (global_name g);
       _ ← WriteString STDOUT "* ==> ";
       _ ← write_item (OValue STDOUT vPtr);
       _ ← WriteString STDOUT " <== ";
       _ ← write_item (OValue STDOUT
             (mkUDFValue (current g) 0
                (match current g with VMultifield l => Z.of_nat (length l) | _ => 0 end)));
       WriteString STDOUT newline);
  vPtr ← fromOption (NormalizeMultifield vPtr);
  _ ← modify (with_defglobalData (with_Defglobals (alter (set_current (uv_value vPtr)) theGlobal)));
  _ ← modify (with_defglobalData (set_ChangeToGlobals true));
  e ← gets (fun s => CurrentExpression (evaluationData s));
  _ ← whenM (match e with None => true | Some _ => false end) CallPeriodicTasks;
  mret vPtr.

(** [*vPtr] starts as [vPtr]. *)
Definition QGetDefglobalUDFValue (theGlobal : ptr) (vPtr : UDFValue) : ME UDFValue :=
  g ← load_global theGlobal;
  match current g with
  | VMultifield l => mret (mkUDFValue (VMultifield l) 0 (Z.of_nat (length l)))
  | v => mret (set_uv_value v vPtr)
  end.
End globals.

Section procedural.
Context {W : Type} `{!EvalHost W} (ev : Evaluator W).
Abbreviation UDFM := (UDF W).

(** [EvaluateExpression(theEnv,e,returnValue)] *)
Definition evaluate_to_returnValue (e : option expr) : UDFM unit :=
  u ← lift (ev e); put_returnValue u.

(** The [while] loop; the value is the contents of [theResult] afterwards and
    [n] the fuel, one unit per iteration. *)
Fixpoint while_loop (n : nat) (theResult : option UDFValue) : UDFM (option UDFValue) :=
  r ← fromOption theResult;
  halt ← GetHaltExecution;
  if negb (is_false (uv_value r)) && negb halt then
  match n with
  | O => undefined
  | S n =>
      stop ← lift break_or_return;
      if (stop : bool) then mret theResult else
      '(_, theResult) ← UDFNthArgument ev 2 (ToLocal theResult) ANY_TYPE_BITS;
      stop ← lift break_or_return;
      if (stop : bool) then mret theResult else
      _ ← lift CallPeriodicTasks;
      '(_, theResult) ← UDFNthArgument ev 1 (ToLocal theResult) ANY_TYPE_BITS;
      while_loop n theResult
  end
  else mret theResult.

(** The end of both loops: the return value and the flags. *)
Definition finish_loop (theResult : option UDFValue) : UDFM unit :=
  _ ← lift (put_BreakFlag false);
  ret ← lift get_ReturnFlag;
  if (ret : bool) then u ← fromOption theResult; put_returnValue u
  else set_returnValue FalseSymbol.

Definition WhileFunction (fuel : nat) : UDFM unit :=
  '(_, theResult) ← UDFNthArgument ev 1 (ToLocal None) ANY_TYPE_BITS;
  theResult ← while_loop fuel theResult;
  _ ← finish_loop theResult;
  lift CallPeriodicTasks.

Definition put_LoopCounterStack (l : list Z) : UDFM unit :=
  modify_env (with_procedureFunctionData (set_LoopCounterStack l)).

(** [nxt] is [tmpCounter->nxt]: the counter is the top of the stack whenever
    this loop runs, since a nested loop pops its own. *)
Fixpoint count_loop (n : nat) (nxt : list Z) (loopCounter iterationEnd : Z) (theArg : option UDFValue) : UDFM (option UDFValue) :=
  halt ← GetHaltExecution;
  if (loopCounter <=? iterationEnd) && negb halt then
  match n with
  | O => undefined
  | S n =>
      stop ← lift break_or_return;
      if (stop : bool) then mret theArg else
      '(_, theArg) ← UDFNthArgument ev 3 (ToLocal theArg) ANY_TYPE_BITS;
      stop ← lift break_or_return;
      if (stop : bool) then mret theArg else
      _ ← lift CallPeriodicTasks;
      loopCounter ← fromOption (long_long (loopCounter + 1));
      _ ← put_LoopCounterStack (loopCounter :: nxt);
      count_loop n nxt loopCounter iterationEnd theArg
  end
  else mret theArg.

Definition LoopForCountFunction (fuel : nat) : UDFM unit :=
  nxt ← get_env (fun s => LoopCounterStack (procedureFunctionData s));
  _ ← put_LoopCounterStack (0 :: nxt);
  '(ok, theArg) ← UDFNthArgument ev 1 (ToLocal None) INTEGER_BIT;
  if negb ok then
  _ ← set_returnValue FalseSymbol; put_LoopCounterStack nxt
  else
  loopCounter ← fromOption (theArg ≫= fun u => match uv_value u with VInteger z => Some z | _ => None end);
  _ ← put_LoopCounterStack (loopCounter :: nxt);
  '(ok, theArg) ← UDFNthArgument ev 2 (ToLocal theArg) INTEGER_BIT;
  if negb ok then
  _ ← set_returnValue FalseSymbol; put_LoopCounterStack nxt
  else
  iterationEnd ← fromOption (theArg ≫= fun u => match uv_value u with VInteger z => Some z | _ => None end);
  theArg ← count_loop fuel nxt loopCounter iterationEnd theArg;
  _ ← finish_loop theArg;
  _ ← put_LoopCounterStack nxt;
  lift CallPeriodicTasks.

Definition GetLoopCount : UDFM unit :=
  arg_or_return (UDFFirstArgument ev (ToLocal None) INTEGER_BIT) (fun theArg =>
  match uv_value theArg with
  | VInteger depth =>
      stack ← get_env (fun s => LoopCounterStack (procedureFunctionData s));
      loopCounter ← fromOption (stack !! Z.to_nat depth);
      set_integer loopCounter
  | _ => undefined
  end).

Definition IfFunction : UDFM unit :=
  '(ok, _) ← UDFNthArgument ev 1 ToReturnValue ANY_TYPE_BITS;
  if negb ok then set_returnValue FalseSymbol else
  stop ← lift break_or_return;
  if (stop : bool) then set_returnValue FalseSymbol else
  numArgs ← UDFArgumentCount;
  u ← get_returnValue;
  if is_false (uv_value u) && (numArgs =? 3) then
  _ ← UDFNthArgument ev 3 ToReturnValue ANY_TYPE_BITS; mret tt
  else if negb (is_false (uv_value u)) then
  _ ← UDFNthArgument ev 2 ToReturnValue ANY_TYPE_BITS; mret tt
  else set_returnValue FalseSymbol.

Definition put_BindList (l : list (string * UDFValue)) : UDFM unit :=
  modify_env (with_procedureFunctionData (set_BindList l)).

Definition BindFunction : UDFM unit :=
  args ← current_args;
  match args with
  | [] => undefined
  | first :: values =>
    theGlobal ← (match first with
                 | EDefglobal p => mret (Some p)
                 | _ => _ ← evaluate_to_returnValue (Some first); mret None
                 end);
    nameCell ← get_returnValue;
    let unbindVar := match values with [] => true | _ => false end in
    _ ← (match values with
         | [] => mret tt
         | [e] => evaluate_to_returnValue (Some e)
         | _ => u ← lift (StoreInMultifield ev values); put_returnValue u
         end);
    match theGlobal with
    | Some p =>
        v ← get_returnValue;
        v' ← lift (QSetDefglobalValue ev p v unbindVar);
        put_returnValue v'
    | None =>
        variableName ← fromOption (match uv_value nameCell with VSymbol x => Some x | _ => None end);
        binds ← get_env (fun s => BindList (procedureFunctionData s));
        if unbindVar then
          _ ← whenM (bool_decide (is_Some (find_bind binds variableName)))
                (put_BindList (remove_bind binds variableName));
          set_returnValue FalseSymbol
        else
          v ← get_returnValue;
          put_BindList (set_bind binds variableName v)
    end
  end.

(** The loop of [PrognFunction]. *)
Fixpoint progn_loop (argPtr : list expr) : UDFM unit :=
  match argPtr with
  | [] => mret tt
  | e :: nextArg =>
    halt ← GetHaltExecution;
    if (halt : bool) then mret tt else
    _ ← evaluate_to_returnValue (Some e);
    stop ← lift break_or_return;
    if (stop : bool) then mret tt else progn_loop nextArg
  end.

Definition PrognFunction : UDFM unit :=
  args ← current_args;
  match args with
  | [] => set_returnValue FalseSymbol
  | _ =>
    _ ← progn_loop args;
    halt ← GetHaltExecution;
    whenM halt (set_returnValue FalseSymbol)
  end.

Definition ReturnFunction : UDFM unit :=
  has ← UDFHasNextArgument;
  _ ← (if negb has then set_returnValue VVoid
     else _ ← UDFNextArgument ev ToReturnValue ANY_TYPE_BITS; mret tt);
  lift (put_ReturnFlag true).

Definition BreakFunction : UDFM unit := lift (put_BreakFlag true).

(** The loop of [SwitchFunction]: cases and their actions alternate. *)
Fixpoint switch_loop (switch_val : UDFValue) (theExp : list expr) : UDFM unit :=
  match theExp with
  | [] => mret tt
  | EConst VVoid :: nextArg => evaluate_to_returnValue (head nextArg)
  | e :: nextArg =>
    case_val ← lift (ev (Some e));
    err ← GetEvaluationError;
    if (err : bool) then mret tt else
    same ← fromOption (DOsEqual switch_val case_val);
    if (same : bool) then evaluate_to_returnValue (head nextArg)
    else match nextArg with
         | [] => undefined
         | _ :: theExp' => switch_loop switch_val theExp'
         end
  end.

Definition SwitchFunction : UDFM unit :=
  _ ← set_returnValue FalseSymbol;
  args ← current_args;
  switch_val ← lift (ev (head args));
  err ← GetEvaluationError;
  if (err : bool) then mret tt else
  match args with
  | [] => undefined
  | _ :: cases => switch_loop switch_val cases
  end.

Definition TryFunction : UDFM unit :=
  args ← current_args;
  match args with
  | [] => set_returnValue FalseSymbol
  | e :: nextArg =>
    _ ← evaluate_to_returnValue (Some e);
    err ← GetEvaluationError;
    if negb err then set_returnValue FalseSymbol else
    _ ← SetEvaluationError false;
    _ ← SetHaltExecution false;
    _ ← evaluate_to_returnValue (head nextArg);
    set_returnValue TrueSymbol
  end.
End procedural.
