(* ===== verification/Sort.v ===== *)
(** * Sorting: [sortfun.c]

    [MergeSort] works on an array by index, with a temporary array for the
    merge; an access out of bounds or a read of an uninitialised temporary is
    undefined.  The comparison is arbitrary code over the state [St]. *)
From S2P Require Import Prelude Values Router Expr Functions Args Multifield.

Section merge_sort.
Context {St A : Type} (swapFunction : A → A → M St bool).

Definition read (l : list A) (i : nat) : M St A := fromOption (l !! i).

(** [temp := theList[i]; theList[i] := theList[j]; theList[j] := temp] *)
Definition exchange (theList : list A) (i j : nat) : M St (list A) :=
  x ← read theList i;
  y ← read theList j;
  mret (<[j := x]> (<[i := y]> theList)).

Definition write_temp (tempList : list (option A)) (i : nat) (x : A) : M St (list (option A)) :=
  if (i <? length tempList)%nat then mret (<[i := Some x]> tempList) else undefined.

(** [while (mergePoint <= e2)], with [n] the iterations left. *)
Fixpoint merge_loop (n : nat) (theList : list A) (tempList : list (option A))
  (mergePoint c1 e1 c2 e2 : nat) : M St (list (option A)) :=
  match n with
  | O => mret tempList
  | S n =>
    if (e1 <? c1)%nat then
      x ← read theList c2;
      tempList ← write_temp tempList mergePoint x;
      merge_loop n theList tempList (mergePoint + 1) c1 e1 (c2 + 1) e2
    else if (e2 <? c2)%nat then
      x ← read theList c1;
      tempList ← write_temp tempList mergePoint x;
      merge_loop n theList tempList (mergePoint + 1) (c1 + 1) e1 c2 e2
    else
      x ← read theList c1;
      y ← read theList c2;
      swap ← swapFunction x y;
      if (swap : bool) then
        tempList ← write_temp tempList mergePoint y;
        merge_loop n theList tempList (mergePoint + 1) c1 e1 (c2 + 1) e2
      else
        tempList ← write_temp tempList mergePoint x;
        merge_loop n theList tempList (mergePoint + 1) (c1 + 1) e1 c2 e2
  end.

(** [for (c1 = s1; c1 <= e2; c1++)], with [n] the iterations left. *)
Fixpoint copy_back (n : nat) (theList : list A) (tempList : list (option A)) (c1 : nat) : M St (list A) :=
  match n with
  | O => mret theList
  | S n =>
    x ← fromOption (mjoin (tempList !! c1));
    _ ← read theList c1;
    copy_back n (<[c1 := x]> theList) tempList (c1 + 1)
  end.

(** Both arrays are changed in place: they are returned. *)
Fixpoint DoMergeSort (fuel : nat) (theList : list A) (tempList : list (option A))
  (s1 e1 s2 e2 : nat) : M St (list A * list (option A)) :=
  match fuel with
  | O => undefined
  | S fuel =>
    '(theList, tempList) ←
      (if (s1 =? e1)%nat then mret (theList, tempList)
       else if (s1 + 1 =? e1)%nat then
         x ← read theList s1; y ← read theList e1;
         swap ← swapFunction x y;
         theList ← (if (swap : bool) then exchange theList s1 e1 else mret theList);
         mret (theList, tempList)
       else
         let size := (e1 - s1 + 1)%nat in
         let middle := (s1 + (size + 1) / 2)%nat in
         DoMergeSort fuel theList tempList s1 (middle - 1) middle e1);
    '(theList, tempList) ←
      (if (s2 =? e2)%nat then mret (theList, tempList)
       else if (s2 + 1 =? e2)%nat then
         x ← read theList s2; y ← read theList e2;
         swap ← swapFunction x y;
         theList ← (if (swap : bool) then exchange theList s2 e2 else mret theList);
         mret (theList, tempList)
       else
         let size := (e2 - s2 + 1)%nat in
         let middle := (s2 + (size + 1) / 2)%nat in
         DoMergeSort fuel theList tempList s2 (middle - 1) middle e2);
    tempList ← merge_loop (e2 + 1 - s1) theList tempList s1 s1 e1 s2 e2;
    theList ← copy_back (e2 + 1 - s1) theList tempList s1;
    mret (theList, tempList)
  end.

Definition MergeSort (listSize : nat) (theList : list A) : M St (list A) :=
  if (listSize <=? 1)%nat then mret theList else
  let tempList := replicate listSize None in
  let middle := ((listSize + 1) / 2)%nat in
  '(theList, _) ← DoMergeSort listSize theList tempList 0 (middle - 1) middle (listSize - 1);
  mret theList.
End merge_sort.

Section sort.
Context {W : Type} (ev : Evaluator W).
Abbreviation ME := (M (EvalEnv W)).
Abbreviation UDFM := (UDF W).

(** [FunctionReferenceExpression] in an environment that defines no
    deffunctions and no generic functions. *)
Definition FunctionReferenceExpression (name : string) : ME (option expr) :=
  fptr ← FindFunction name;
  mret (match fptr with Some f => Some (EFcall f []) | None => None end).

(** The top of [SortComparisonFunction] is called with the two items as
    constant arguments; its [argList] is [NULL] again afterwards. *)
Definition DefaultCompareSwapFunction (item1 item2 : UDFValue) : ME bool :=
  fs ← gets SortComparisonFunction;
  match fs with
  | EFcall f _ :: nextArg =>
    let call := EFcall f [EConst (uv_value item1); EConst (uv_value item2)] in
    _ ← modify (with_SortComparisonFunction (fun _ => call :: nextArg));
    returnValue ← ev (Some call);
    _ ← modify (with_SortComparisonFunction (fun _ => EFcall f [] :: nextArg));
    mret (negb (is_false (uv_value returnValue)))
  | _ => undefined
  end.

(** The loop that evaluates the arguments to be sorted, from position [i] on. *)
Fixpoint sort_arguments (n : nat) (i : Z) : UDFM (list UDFValue) :=
  match n with
  | O => mret []
  | S n =>
    '(_, o) ← UDFNthArgument ev i (ToLocal None) ANY_TYPE_BITS;
    u ← fromOption o;
    rest ← sort_arguments n (i + 1);
    mret (u :: rest)
  end.

(** The packing loop: the elements of multifields, and the other values, each
    in a [UDFValue] of which only [value] is set. *)
Fixpoint pack_arguments (theArguments : list UDFValue) : option (list UDFValue) :=
  match theArguments with
  | [] => Some []
  | u :: rest =>
    fields ← (match uv_value u with
              | VMultifield contents => segment contents (uv_begin u) (uv_range u)
              | v => Some [v]
              end);
    more ← pack_arguments rest;
    Some (map (fun v => mkUDFValue v 0 0) fields ++ more)
  end.

Definition SortFunction : UDFM unit :=
  _ ← set_returnValue FalseSymbol;
  arg_or_return (UDFNthArgument ev 1 (ToLocal None) SYMBOL_BIT) (fun theArg =>
  functionName ← fromOption (match uv_value theArg with VSymbol x => Some x | _ => None end);
  functionReference ← lift (FunctionReferenceExpression functionName);
  match functionReference with
  | Some (EFcall fptr _ as reference) =>
      if ((2 <? GetMinimumArgs fptr) || (GetMaximumArgs fptr =? 0) || (GetMaximumArgs fptr =? 1))%Z then
        ExpectedTypeError1 "sort" 1 "function name expecting two arguments"
      else
      argumentCount ← UDFArgumentCount;
      if (argumentCount =? 1)%Z then put_returnValue SetMultifieldErrorValue else
      theArguments ← sort_arguments (Z.to_nat (argumentCount - 1)) 2;
      theArguments2 ← fromOption (pack_arguments theArguments);
      if (length theArguments2 =? 0)%nat then put_returnValue SetMultifieldErrorValue else
      _ ← modify_env (with_SortComparisonFunction (cons reference));
      sorted ← lift (MergeSort DefaultCompareSwapFunction (length theArguments2) theArguments2);
      _ ← modify_env (with_SortComparisonFunction (@tail expr));
      put_returnValue (mkUDFValue (VMultifield (map uv_value sorted)) 0 (Z.of_nat (length sorted)))
  | _ => ExpectedTypeError1 "sort" 1 "function name, deffunction name, or defgeneric name"
  end).
End sort.
