(* ===== verification/UserFunctions.v ===== *)
(** * The functions of the host: [userfunctions.c]

    The wrappers that make the Rust callbacks callable from CLIPS code. *)
From S2P Require Import Prelude Values Router Expr Args.
#[local] Open Scope Z_scope.

Section wrappers.
Context {W : Type} `{!EvalHost W} (ev : Evaluator W).
Abbreviation UDFM := (UDF W).

(** A call to the host program. *)
Definition call_host {A} (f : W → A * W) : UDFM A := fun '(s, c) =>
  let '(a, w) := f (world s) in Some (a, (with_world (fun _ => w) s, c)).

(** [lexemeValue->contents]; the argument has passed [LEXEME_BITS]. *)
Definition lexeme_contents (u : UDFValue) : UDFM string :=
  match uv_value u with VSymbol x | VString x => mret x | _ => undefined end.

(** [if (! get) { return ...; }]: the wrappers return a value of their own. *)
Definition arg_or_value (get : UDFM (bool * option UDFValue)) (error : value) (k : UDFValue → UDFM unit) : UDFM unit :=
  '(ok, o) ← get;
  if (ok : bool) then arg ← fromOption o; k arg else set_returnValue error.

Definition dquote : string := String (Ascii.ascii_of_nat 34) EmptyString.

(** The JSON object of one field. *)
Definition json_error (field message : string) : string :=
  "{" +:+ dquote +:+ field +:+ dquote +:+ ":" +:+ dquote +:+ message +:+ dquote +:+ "}".

Definition invalid_argument : string :=
  "{" +:+ dquote +:+ "status" +:+ dquote +:+ ":" +:+ dquote +:+ "error" +:+ dquote +:+ ","
  +:+ dquote +:+ "message" +:+ dquote +:+ ":" +:+ dquote +:+ "Invalid argument" +:+ dquote +:+ "}".

Definition ClaraEvaluateWrapper : UDFM unit :=
  arg_or_value (UDFFirstArgument ev (ToLocal None) LEXEME_BITS) (VString invalid_argument) (fun arg =>
  input ← lexeme_contents arg;
  result ← call_host (rust_clara_evaluate theEnv input);
  set_returnValue (VString result)).

Definition CoireEmitWrapper : UDFM unit :=
  arg_or_value (UDFFirstArgument ev (ToLocal None) LEXEME_BITS) (VString (json_error "error" "missing session_id")) (fun argSession =>
  arg_or_value (UDFNextArgument ev (ToLocal None) LEXEME_BITS) (VString (json_error "error" "missing origin")) (fun argOrigin =>
  arg_or_value (UDFNextArgument ev (ToLocal None) LEXEME_BITS) (VString (json_error "error" "missing payload")) (fun argPayload =>
  session ← lexeme_contents argSession;
  origin ← lexeme_contents argOrigin;
  payload ← lexeme_contents argPayload;
  result ← call_host (rust_coire_emit session origin payload);
  set_returnValue (VString result)))).

Definition CoirePollWrapper : UDFM unit :=
  arg_or_value (UDFFirstArgument ev (ToLocal None) LEXEME_BITS) (VString (json_error "error" "missing session_id")) (fun argSession =>
  session ← lexeme_contents argSession;
  result ← call_host (rust_coire_poll session);
  set_returnValue (VString result)).

Definition CoireMarkWrapper : UDFM unit :=
  arg_or_value (UDFFirstArgument ev (ToLocal None) LEXEME_BITS) (VString (json_error "error" "missing event_id")) (fun argEventId =>
  event_id ← lexeme_contents argEventId;
  result ← call_host (rust_coire_mark event_id);
  set_returnValue (VString result)).

(** [CreateInteger] of the constant -1 is its value. *)
Definition CoireCountWrapper : UDFM unit :=
  arg_or_value (UDFFirstArgument ev (ToLocal None) LEXEME_BITS) (VInteger (-1)) (fun argSession =>
  session ← lexeme_contents argSession;
  count ← call_host (rust_coire_count session);
  set_integer count).
End wrappers.
