(* ===== verification/MultifieldFunctions.v ===== *)
(** * The multifield functions: [multifun.c], [create$] of [miscfun.c]

    A segment in the arguments is read through [segment]; the fields a function
    writes into a new multifield are listed in the order of the writes, and
    [new_multifield] is undefined when they are more or fewer than the room it
    allocates.  Sizes stay below the size of an object in memory, so [size_t]
    arithmetic on them does not wrap; the integers of the user may. *)
From S2P Require Import Prelude Values Router Expr Args Multifield Math.
#[local] Open Scope Z_scope.

(** ** Sizes and indices *)

(** [(size_t) z] and [(long long) u] *)
Definition size_t_of (z : Z) : Z := z mod (SIZE_MAX + 1).
Definition long_long_of (u : Z) : Z := if u <=? LLONG_MAX then u else u - (SIZE_MAX + 1).
(** [((long long) ((size_t) z)) == z] *)
Definition fits_size_t (z : Z) : bool := long_long_of (size_t_of z) =? z.

Definition VALUE_NOT_FOUND : Z := SIZE_MAX.

Definition is_multifield (u : UDFValue) : bool := header_type (uv_value u) =? MULTIFIELD_TYPE.

(** The fields of a multifield; another value as one field. *)
Definition values_of (u : UDFValue) : option (list value) :=
  match uv_value u with
  | VMultifield contents => segment contents (uv_begin u) (uv_range u)
  | v => Some [v]
  end.

(** [CreateMultifield(theEnv,size)] with [begin] and [range], once [l] has been
    written to its fields. *)
Definition new_multifield (size : Z) (l : list value) : option UDFValue :=
  if Z.of_nat (length l) =? size then Some (mkUDFValue (VMultifield l) 0 size) else None.

(** The copying loops of [delete$] and [delete-member$], of [replace$]: [i] is
    the index of the first field of [l] in the contents. *)
Fixpoint copy_outside (rs re i : Z) (l : list value) : list value :=
  match l with
  | [] => []
  | v :: l' => (if (rs <=? i) && (i <=? re) then [] else [v]) ++ copy_outside rs re (i + 1) l'
  end.
Fixpoint copy_replacing (new : list value) (rs re i : Z) (l : list value) : list value :=
  match l with
  | [] => []
  | v :: l' =>
      (if i =? rs then new else if (rs <? i) && (i <=? re) then [] else [v])
      ++ copy_replacing new rs re (i + 1) l'
  end.

(** ** Searching *)

(** A loop that looks for a field with the same object as [v], up to a [break]. *)
Fixpoint found_in (v : value) (l : list value) : option bool :=
  match l with
  | [] => Some false
  | w :: l' => b ← same_object v w; if (b : bool) then Some true else found_in v l'
  end.

(** ... with the index at which it stops. *)
Fixpoint index_in (v : value) (i : Z) (l : list value) : option Z :=
  match l with
  | [] => Some VALUE_NOT_FOUND
  | w :: l' => b ← same_object v w; if (b : bool) then Some i else index_in v (i + 1) l'
  end.

(** Do the fields [l] start with the fields [s]? *)
Fixpoint starts_with (s l : list value) : option bool :=
  match s, l with
  | [], _ => Some true
  | _ :: _, [] => Some false
  | v :: s', w :: l' => b ← same_object v w; if (b : bool) then starts_with s' l' else Some false
  end.

(** The loop over [i <= multifieldToSearch->range - valueSought->range], which
    has [n] more turns after this one. *)
Fixpoint find_fields (n : nat) (s : list value) (i : Z) (l : list value) : option Z :=
  b ← starts_with s l;
  if (b : bool) then Some i else
  match n with
  | O => Some VALUE_NOT_FOUND
  | S n' => find_fields n' s (i + 1) (tail l)
  end.

Definition FindValueInMultifield (valueSought multifieldToSearch : UDFValue) : option Z :=
  l ← values_of multifieldToSearch;
  if negb (is_multifield valueSought)
  then index_in (uv_value valueSought) (uv_begin multifieldToSearch) l
  else if uv_range multifieldToSearch <? uv_range valueSought then Some VALUE_NOT_FOUND
  else
  s ← values_of valueSought;
  find_fields (Z.to_nat (uv_range multifieldToSearch - uv_range valueSought)) s 0 l.

(** [elist] as the pairs it holds; [NULL] is the empty list. *)
Definition MVRangeCheck (si ei : Z) (elist : list (Z * Z)) : bool :=
  forallb (fun '(low, high) =>
    negb (((low <=? si) && (si <=? high)) || ((low <=? ei) && (ei <=? high)))) elist.

(** The body of the inner loop of [FindDOsInSegment]: the new [*si] and [*ei]
    when it returns. *)
Definition match_at (excludes : list (Z * Z)) (l : list value) (i : Z) (searchDO : UDFValue) : option (option (Z * Z)) :=
  if is_multifield searchDO then
    let slen := uv_range searchDO in
    if MVRangeCheck (i + 1) (i + slen) excludes then
      s ← values_of searchDO;
      b ← starts_with s (drop (Z.to_nat i) l);
      Some (if (b : bool) then Some (i + 1, i + slen) else None)
    else Some None
  else
    v ← l !! Z.to_nat i;
    b ← same_object (uv_value searchDO) v;
    Some (if (b : bool) && MVRangeCheck (i + 1) (i + 1) excludes then Some (i + 1, i + 1) else None).

Fixpoint first_match (excludes : list (Z * Z)) (l : list value) (i : Z) (searchDOs : list UDFValue) : option (option (Z * Z)) :=
  match searchDOs with
  | [] => Some None
  | searchDO :: rest =>
      r ← match_at excludes l i searchDO;
      match r with
      | Some p => Some (Some p)
      | None => first_match excludes l i rest
      end
  end.

Fixpoint find_DOs (n : nat) (excludes : list (Z * Z)) (l : list value) (i : Z) (searchDOs : list UDFValue) : option (option (Z * Z)) :=
  match n with
  | O => Some None
  | S n' =>
      r ← first_match excludes l i searchDOs;
      match r with
      | Some p => Some (Some p)
      | None => find_DOs n' excludes l (i + 1) searchDOs
      end
  end.

(** [*si] and [*ei], or [None] when the C function returns false. *)
Definition FindDOsInSegment (searchDOs : list UDFValue) (val : UDFValue) (excludes : list (Z * Z)) : option (option (Z * Z)) :=
  l ← values_of val;
  find_DOs (Z.to_nat (uv_range val)) excludes l 0 searchDOs.

(** ** Sets *)

(** [valueArray[actualElements].value = v] into an array of [maxElements]. *)
Definition add_element (maxElements : Z) (valueArray : list value) (v : value) : option (list value) :=
  if Z.of_nat (length valueArray) <? maxElements then Some (valueArray ++ [v]) else None.

(** The loop over the fields of one argument: those that are [wanted] and not
    in the array yet are added. *)
Fixpoint collect_elements (maxElements : Z) (wanted : value → option bool) (l valueArray : list value) : option (list value) :=
  match l with
  | [] => Some valueArray
  | v :: l' =>
      keep ← wanted v;
      valueArray ← (if negb keep then Some valueArray else
        found ← found_in v valueArray;
        if (found : bool) then Some valueArray else add_element maxElements valueArray v);
      collect_elements maxElements wanted l' valueArray
  end.

(** The loops over the other arguments: is [v] in each of them, in one of them? *)
Fixpoint found_in_all (v : value) (ls : list (list value)) : option bool :=
  match ls with
  | [] => Some true
  | l :: ls' => b ← found_in v l; if (b : bool) then found_in_all v ls' else Some false
  end.
Fixpoint found_in_some (v : value) (ls : list (list value)) : option bool :=
  match ls with
  | [] => Some false
  | l :: ls' => b ← found_in v l; if (b : bool) then Some true else found_in_some v ls'
  end.

(** The union loops over the arguments. *)
Fixpoint collect_all (maxElements : Z) (ls : list (list value)) (valueArray : list value) : option (list value) :=
  match ls with
  | [] => Some valueArray
  | l :: ls' =>
      valueArray ← collect_elements maxElements (fun _ => Some true) l valueArray;
      collect_all maxElements ls' valueArray
  end.

(** ** Messages *)

Section messages.
Context {S : Type} `{!Router S}.

Definition in_function (funcName : string) : M S unit :=
  _ ← WriteString STDERR " in function '";
  _ ← WriteString STDERR funcName;
  WriteString STDERR "'".

(** No caller passes [NULL] for [funcName]. *)
Definition MVRangeError (brb bre max : Z) (funcName : string) : M S unit :=
  _ ← PrintErrorID "MULTIFUN" 1 false;
  _ ← WriteString STDERR "Multifield index ";
  _ ← (if brb =? bre then WriteInteger STDERR brb
       else
       _ ← WriteString STDERR "range ";
       _ ← WriteInteger STDERR brb;
       _ ← WriteString STDERR "..";
       WriteInteger STDERR bre);
  _ ← WriteString STDERR " out of range 1..";
  _ ← PrintUnsignedInteger STDERR max;
  _ ← in_function funcName;
  WriteString STDERR ("." +:+ newline).

Definition MVRangeErrorSizet (brb bre max : Z) (funcName : string) : M S unit :=
  _ ← PrintErrorID "MULTIFUN" 1 false;
  _ ← WriteString STDERR "Multifield index ";
  _ ← (if brb =? bre then PrintUnsignedInteger STDERR brb
       else
       _ ← WriteString STDERR "range ";
       _ ← PrintUnsignedInteger STDERR brb;
       _ ← WriteString STDERR "..";
       PrintUnsignedInteger STDERR bre);
  _ ← WriteString STDERR " out of range 1..";
  _ ← PrintUnsignedInteger STDERR max;
  _ ← in_function funcName;
  WriteString STDERR ("." +:+ newline).

(** Replaces the fields [rb..re], counted from 1; [None]: false. *)
Definition ReplaceMultiValueFieldSizet (src : UDFValue) (rb re : Z) (field : UDFValue) (funcName : string) : M S (option UDFValue) :=
  let srclen := uv_range src in
  if (re <? rb) || (rb <? 1) || (re <? 1) || (srclen <? rb) || (srclen <? re) then
    _ ← MVRangeErrorSizet rb re srclen funcName; mret None
  else
  let urb := uv_begin src + rb - 1 in
  let ure := uv_begin src + re - 1 in
  fields ← fromOption (values_of field);
  let dstlen :=
    if is_multifield field then srclen + uv_range field - (ure - urb + 1)
    else srclen + 1 - (ure - urb + 1) in
  match uv_value src with
  | VMultifield contents =>
      before ← fromOption (segment contents (uv_begin src) (urb - uv_begin src));
      let i := Z.of_nat (length before) + Z.of_nat (length fields) in
      after ← fromOption (segment contents (ure + 1) (dstlen - i));
      dst ← fromOption (new_multifield dstlen (before ++ fields ++ after));
      mret (Some dst)
  | _ => undefined
  end.

(** [src] is not [NULL] in the calls of this file, and the C function returns true. *)
Definition InsertMultiValueField (src : UDFValue) (theIndex : Z) (field : UDFValue) : M S UDFValue :=
  let srclen := uv_range src in
  let theIndex := if srclen + 1 <? theIndex then srclen + 1 else theIndex in
  fields ← fromOption (values_of field);
  let dstlen := if is_multifield field then uv_range field + srclen else srclen + 1 in
  let theIndex := theIndex - 1 in
  l ← fromOption (values_of src);
  let before := take (Z.to_nat theIndex) l in
  let after := drop (Z.to_nat theIndex) l in
  fromOption (new_multifield dstlen (before ++ fields ++ after)).
End messages.

(** ** The functions *)

Section functions.
Context {W : Type} (ev : Evaluator W).
Abbreviation UDFM := (UDF W).

Definition first_multifield : UDFM (bool * option UDFValue) := UDFFirstArgument ev (ToLocal None) MULTIFIELD_BIT.
Definition next_multifield : UDFM (bool * option UDFValue) := UDFNextArgument ev (ToLocal None) MULTIFIELD_BIT.
Definition next_integer : UDFM (bool * option UDFValue) := UDFNextArgument ev (ToLocal None) INTEGER_BIT.

Definition bad_indices (start fin : Z) : bool :=
  (fin <? start) || (start <? 1) || (fin <? 1) || negb (fits_size_t start) || negb (fits_size_t fin).

Definition range_failure (start fin range : Z) (funcName : string) : UDFM unit :=
  _ ← MVRangeError start fin range funcName;
  _ ← SetEvaluationError true;
  put_returnValue SetMultifieldErrorValue.

Definition DeleteFunction : UDFM unit :=
  arg_or_return first_multifield (fun value1 =>
  arg_or_return next_integer (fun value2 =>
  arg_or_return next_integer (fun value3 =>
  start ← integer_contents (uv_value value2);
  fin ← integer_contents (uv_value value3);
  if bad_indices start fin then range_failure start fin (uv_range value1) "delete$" else
  let rs := size_t_of start in
  let re := size_t_of fin in
  let srcLen := uv_range value1 in
  if (srcLen <? rs) || (srcLen <? re) then range_failure start fin srcLen "delete$" else
  let rs := rs - 1 + uv_begin value1 in
  let re := re - 1 + uv_begin value1 in
  let dstLen := srcLen - (re - rs + 1) in
  l ← fromOption (values_of value1);
  u ← fromOption (new_multifield dstLen (copy_outside rs re (uv_begin value1) l));
  put_returnValue u))).

(** The argument expressions from [fieldarg] on as one value. *)
Definition field_argument (fieldarg : list expr) : UDFM UDFValue :=
  match fieldarg with
  | [] => undefined
  | [e] => lift (ev (Some e))
  | _ => lift (StoreInMultifield ev fieldarg)
  end.

Definition ReplaceFunction : UDFM unit :=
  arg_or_return first_multifield (fun value1 =>
  arg_or_return next_integer (fun value2 =>
  arg_or_return next_integer (fun value3 =>
  args ← current_args;
  value4 ← field_argument (drop 3 args);
  start ← integer_contents (uv_value value2);
  fin ← integer_contents (uv_value value3);
  if bad_indices start fin then range_failure start fin (uv_range value1) "replace$" else
  let rs := size_t_of start in
  let re := size_t_of fin in
  let srcLen := uv_range value1 in
  if (srcLen <? rs) || (srcLen <? re) then range_failure start fin srcLen "replace$" else
  let rs := rs - 1 + uv_begin value1 in
  let re := re - 1 + uv_begin value1 in
  let dstLen :=
    if is_multifield value4 then srcLen - (re - rs + 1) + uv_range value4 else srcLen - (re - rs) in
  l ← fromOption (values_of value1);
  new ← fromOption (values_of value4);
  u ← fromOption (new_multifield dstLen (copy_replacing new rs re (uv_begin value1) l));
  put_returnValue u))).

(** The [while] loop of [delete-member$]; each turn takes at least one field
    away, so the range bounds them. *)
Fixpoint delete_occurrences (fuel : nat) (valueSought : UDFValue) (valueSoughtLength : Z) (resultValue : UDFValue) : option UDFValue :=
  rs ← FindValueInMultifield valueSought resultValue;
  if rs =? VALUE_NOT_FOUND then Some resultValue else
  match fuel with
  | O => None
  | S fuel' =>
      let re := rs + valueSoughtLength - 1 in
      l ← values_of resultValue;
      update ← new_multifield (uv_range resultValue - valueSoughtLength)
        (copy_outside rs re (uv_begin resultValue) l);
      delete_occurrences fuel' valueSought valueSoughtLength update
  end.

(** The [for] loop, with [n] arguments to go. *)
Fixpoint delete_members (n : nat) (resultValue : UDFValue) : UDFM unit :=
  match n with
  | O => put_returnValue resultValue
  | S n' =>
      '(ok, o) ← UDFNextArgument ev (ToLocal None) ANY_TYPE_BITS;
      if negb ok then
        _ ← SetEvaluationError true;
        put_returnValue SetMultifieldErrorValue
      else
      valueSought ← fromOption o;
      if is_multifield valueSought && (uv_range valueSought =? 0) then delete_members n' resultValue else
      let valueSoughtLength := if is_multifield valueSought then uv_range valueSought else 1 in
      resultValue ← fromOption (delete_occurrences (Z.to_nat (uv_range resultValue)) valueSought valueSoughtLength resultValue);
      delete_members n' resultValue
  end.

Definition DeleteMemberFunction : UDFM unit :=
  argCnt ← UDFArgumentCount;
  arg_or_return first_multifield (fun resultValue =>
  delete_members (Z.to_nat (argCnt - 1)) resultValue).

(** The arguments from position [i] on into [delVals]; [None]: one failed. *)
Fixpoint nth_arguments (n : nat) (i expectedType : Z) : UDFM (option (list UDFValue)) :=
  match n with
  | O => mret (Some [])
  | S n' =>
      '(ok, o) ← UDFNthArgument ev i (ToLocal None) expectedType;
      if negb ok then mret None else
      u ← fromOption o;
      rest ← nth_arguments n' (i + 1) expectedType;
      mret (match rest with Some us => Some (u :: us) | None => None end)
  end.

(** The [while] loop of [replace-member$]. *)
Fixpoint replace_occurrences (fuel : nat) (delVals : list UDFValue) (replVal resultValue : UDFValue) (replLen : Z)
  (minkp : list (Z * Z)) : UDFM unit :=
  found ← fromOption (FindDOsInSegment delVals resultValue minkp);
  match found with
  | None => put_returnValue resultValue
  | Some (j, k) =>
      match fuel with
      | O => undefined
      | S fuel' =>
          r ← ReplaceMultiValueFieldSizet resultValue j k replVal "replace-member$";
          match r with
          | None => _ ← SetEvaluationError true; put_returnValue SetMultifieldErrorValue
          | Some tmpVal => replace_occurrences fuel' delVals replVal tmpVal replLen [(1, j + replLen - 1)]
          end
      end
  end.

(** With fewer than three arguments [delSize] would wrap around. *)
Definition ReplaceMemberFunction : UDFM unit :=
  argCnt ← UDFArgumentCount;
  arg_or_return first_multifield (fun resultValue =>
  arg_or_return (UDFNextArgument ev (ToLocal None) ANY_TYPE_BITS) (fun replVal =>
  let replLen := if is_multifield replVal then uv_range replVal else 1 in
  if argCnt <? 2 then undefined else
  delVals ← nth_arguments (Z.to_nat (argCnt - 2)) 3 ANY_TYPE_BITS;
  match delVals with
  | None => mret tt
  | Some delVals =>
      replace_occurrences (S (Z.to_nat (uv_range resultValue))) delVals replVal resultValue replLen []
  end)).

(** An index out of range is reported, and nothing else is done. *)
Definition InsertFunction : UDFM unit :=
  arg_or_return first_multifield (fun value1 =>
  arg_or_return next_integer (fun value2 =>
  args ← current_args;
  value3 ← field_argument (drop 2 args);
  theIndex ← integer_contents (uv_value value2);
  if negb (fits_size_t theIndex) || (theIndex <? 1)
  then MVRangeError theIndex theIndex (uv_range value1) "insert$"
  else
  u ← InsertMultiValueField value1 (size_t_of theIndex) value3;
  put_returnValue u)).

Definition SubseqFunction : UDFM unit :=
  arg_or_return first_multifield (fun theArg =>
  let theList := uv_value theArg in
  let offset := uv_begin theArg in
  let length := uv_range theArg in
  arg_or_return next_integer (fun theArg =>
  start ← integer_contents (uv_value theArg);
  arg_or_return next_integer (fun theArg =>
  fin ← integer_contents (uv_value theArg);
  if (fin <? 1) || (fin <? start) then put_returnValue SetMultifieldErrorValue else
  let start := if start <? 1 then 1 else start in
  let ustart := if fits_size_t start then size_t_of start else SIZE_MAX in
  if length <? ustart then put_returnValue SetMultifieldErrorValue else
  let uend := if fits_size_t fin then size_t_of fin else SIZE_MAX in
  let uend := if length <? uend then length else uend in
  put_returnValue (mkUDFValue theList (offset + ustart - 1) (uend - ustart + 1))))).

Definition FirstFunction : UDFM unit :=
  arg_or_return first_multifield (fun theArg =>
  put_returnValue (mkUDFValue (uv_value theArg) (uv_begin theArg) (if 1 <=? uv_range theArg then 1 else 0))).

Definition RestFunction : UDFM unit :=
  arg_or_return first_multifield (fun theArg =>
  put_returnValue
    (if 0 <? uv_range theArg
     then mkUDFValue (uv_value theArg) (uv_begin theArg + 1) (uv_range theArg - 1)
     else theArg)).

Definition NthFunction : UDFM unit :=
  arg_or_return (UDFFirstArgument ev (ToLocal None) INTEGER_BIT) (fun value1 =>
  arg_or_return next_multifield (fun value2 =>
  n ← integer_contents (uv_value value1);
  if negb (fits_size_t n) then set_returnValue (VSymbol "nil") else
  let un := size_t_of n in
  if (uv_range value2 <? un) || (un <? 1) then set_returnValue (VSymbol "nil") else
  l ← fromOption (values_of value2);
  v ← fromOption (l !! Z.to_nat (un - 1));
  set_returnValue v)).

(** The loop over the first argument. *)
Fixpoint all_found_in (l1 l2 : list value) : option bool :=
  match l1 with
  | [] => Some true
  | v :: l1' => found ← found_in v l2; if (found : bool) then all_found_in l1' l2 else Some false
  end.

Definition SubsetpFunction : UDFM unit :=
  arg_or_return first_multifield (fun item1 =>
  arg_or_return next_multifield (fun item2 =>
  if uv_range item1 =? 0 then set_returnValue TrueSymbol
  else if uv_range item2 =? 0 then set_returnValue FalseSymbol
  else
  l1 ← fromOption (values_of item1);
  l2 ← fromOption (values_of item2);
  b ← fromOption (all_found_in l1 l2);
  set_returnValue (bool_symbol b))).

Definition MemberFunction : UDFM unit :=
  _ ← set_returnValue FalseSymbol;
  arg_or_return (UDFFirstArgument ev (ToLocal None) ANY_TYPE_BITS) (fun item1 =>
  arg_or_return next_multifield (fun item2 =>
  if negb (is_multifield item1) then
    l ← fromOption (values_of item2);
    i ← fromOption (index_in (uv_value item1) (uv_begin item2) l);
    whenM (negb (i =? VALUE_NOT_FOUND)) (set_returnValue (VInteger (i + 1 - uv_begin item2)))
  else if uv_range item2 <? uv_range item1 then mret tt
  else
  pos ← fromOption (FindValueInMultifield item1 item2);
  if pos =? VALUE_NOT_FOUND then mret tt
  else if uv_range item1 =? 1 then set_returnValue (VInteger (pos + 1))
  else put_returnValue (mkUDFValue (VMultifield [VInteger (pos + 1); VInteger (pos + uv_range item1)]) 0 2))).

(** The return value of the set functions from the temporary array. *)
Definition return_elements (valueArray : list value) : UDFM unit :=
  put_returnValue (mkUDFValue (VMultifield valueArray) 0 (Z.of_nat (length valueArray))).

(** The segments of the arguments. *)
Definition segments_of (theArgs : list UDFValue) : UDFM (list (list value)) :=
  fromOption (mapM values_of theArgs).

Definition IntersectionFunction : UDFM unit :=
  numArgs ← UDFArgumentCount;
  if numArgs =? 0 then put_returnValue SetMultifieldErrorValue else
  theArgs ← nth_arguments (Z.to_nat numArgs) 1 MULTIFIELD_BIT;
  match theArgs with
  | Some (arg :: args) =>
      let maxElements := foldl (fun n u => if uv_range u <? n then uv_range u else n) (uv_range arg) args in
      if maxElements =? 0 then put_returnValue SetMultifieldErrorValue else
      l ← fromOption (values_of arg);
      ls ← segments_of args;
      valueArray ← fromOption (collect_elements maxElements (fun v => found_in_all v ls) l []);
      return_elements valueArray
  | _ => put_returnValue SetMultifieldErrorValue
  end.

Definition UnionFunction : UDFM unit :=
  numArgs ← UDFArgumentCount;
  if numArgs =? 0 then put_returnValue SetMultifieldErrorValue else
  theArgs ← nth_arguments (Z.to_nat numArgs) 1 MULTIFIELD_BIT;
  match theArgs with
  | Some theArgs =>
      let maxElements := foldl (fun n u => n + uv_range u) 0 theArgs in
      if maxElements =? 0 then put_returnValue SetMultifieldErrorValue else
      ls ← segments_of theArgs;
      valueArray ← fromOption (collect_all maxElements ls []);
      return_elements valueArray
  | None => put_returnValue SetMultifieldErrorValue
  end.

(** Without arguments [theArgs[0]] would be read outside the array. *)
Definition DifferenceFunction : UDFM unit :=
  numArgs ← UDFArgumentCount;
  theArgs ← nth_arguments (Z.to_nat numArgs) 1 MULTIFIELD_BIT;
  match theArgs with
  | Some (arg :: args) =>
      let maxElements := uv_range arg in
      if maxElements =? 0 then put_returnValue SetMultifieldErrorValue else
      l ← fromOption (values_of arg);
      ls ← segments_of args;
      valueArray ← fromOption
        (collect_elements maxElements (fun v => b ← found_in_some v ls; Some (negb b)) l []);
      return_elements valueArray
  | Some [] => undefined
  | None => put_returnValue SetMultifieldErrorValue
  end.

Definition CreateFunction : UDFM unit :=
  args ← current_args;
  u ← lift (StoreInMultifield ev args);
  put_returnValue u.
End functions.
