(* ===== verification/StringFunctions.v ===== *)
(** * The string functions: [strngfun.c]

    The functions on the text of lexemes.  A result is built in memory as the
    code builds it, so that a write outside the allocation is undefined; [char]
    is signed, and the classification functions of the C library are undefined
    on a negative argument. *)
From S2P Require Import Prelude Values Router Expr Args Math Hash TextBuffer NumberText.
From S2P Require Import MultifieldFunctions.
#[local] Open Scope Z_scope.

(** [theArg.lexemeValue->contents] *)
Definition lexeme_text (u : UDFValue) : option string :=
  match uv_value u with VSymbol x | VString x | VInstanceName x => Some x | _ => None end.
(** A lexeme of the type of [u]. *)
Definition lexeme_like (u : UDFValue) (x : string) : value :=
  match uv_value u with VSymbol _ => VSymbol x | VInstanceName _ => VInstanceName x | _ => VString x end.

(** ** The C library *)

(** [strcmp], [strncmp]: the sign of the difference of the first characters that
    differ, as [unsigned char]. *)
Fixpoint strcmp (l1 l2 : list byte) : comparison :=
  match l1, l2 with
  | [], [] => Eq
  | [], _ => Lt
  | _, [] => Gt
  | c1 :: l1', c2 :: l2' =>
      match code_of c1 ?= code_of c2 with Eq => strcmp l1' l2' | r => r end
  end.
Fixpoint strncmp (l1 l2 : list byte) (n : Z) : comparison :=
  if n =? 0 then Eq else
  match l1, l2 with
  | [], [] => Eq
  | [], _ => Lt
  | _, [] => Gt
  | c1 :: l1', c2 :: l2' =>
      match code_of c1 ?= code_of c2 with Eq => strncmp l1' l2' (n - 1) | r => r end
  end.

(** [strstr(s,needle) - s] *)
Fixpoint is_prefix (needle s : list byte) : bool :=
  match needle, s with
  | [], _ => true
  | _ :: _, [] => false
  | c :: needle', d :: s' => Ascii.eqb c d && is_prefix needle' s'
  end.
Fixpoint strstr (s needle : list byte) : option nat :=
  if is_prefix needle s then Some 0%nat else
  match s with
  | [] => None
  | _ :: s' => S <$> strstr s' needle
  end.

(** [islower], [toupper], [isupper], [tolower] on ASCII; undefined on a negative [char]. *)
Definition islower (c : byte) : option bool :=
  if code_of c <? 128 then Some ((97 <=? code_of c) && (code_of c <=? 122)) else None.
Definition isupper (c : byte) : option bool :=
  if code_of c <? 128 then Some ((65 <=? code_of c) && (code_of c <=? 90)) else None.
Definition toupper (c : byte) : byte := char_of (code_of c - 32).
Definition tolower (c : byte) : byte := char_of (code_of c + 32).

(** [gm2(theEnv,n)]: bytes that are not initialised. *)
Definition gm2 (n : Z) : option memory :=
  if n <? 0 then None else Some (Some (replicate (Z.to_nat n) None)).

(** ** Building the results *)

(** The copying loop of [StrOrSymCatFunction] over [arrayOfStrings]. *)
Fixpoint copy_strings (m : memory) (j : nat) (arrayOfStrings : list string) : option memory :=
  match arrayOfStrings with
  | [] => Some m
  | x :: rest => m ← write_bytes m j (chars x ++ [NUL]); copy_strings m (j + String.length x) rest
  end.
(** [total] and the concatenation. *)
Definition total_length (arrayOfStrings : list string) : Z :=
  foldl (fun n x => n + Z.of_nat (String.length x)) 1 arrayOfStrings.
Definition concatenated (arrayOfStrings : list string) : option string :=
  m ← gm2 (total_length arrayOfStrings);
  m ← copy_strings m 0 arrayOfStrings;
  c_string m.

(** The loop of [upcase] and [lowcase], which copies the final [NUL] too. *)
Fixpoint convert_chars (test : byte → option bool) (convert : byte → byte) (l : list byte) : option (list byte) :=
  match l with
  | [] => Some []
  | c :: l' =>
      b ← test c;
      rest ← convert_chars test convert l';
      Some ((if (b : bool) then convert c else c) :: rest)
  end.
Definition converted (test : byte → option bool) (convert : byte → byte) (x : string) : option string :=
  let slen := Z.of_nat (String.length x) + 1 in
  m ← gm2 slen;
  l ← convert_chars test convert (chars x ++ [NUL]);
  m ← write_bytes m 0 l;
  c_string m.

(** The bytes [i..j] of a string. *)
Fixpoint read_chars (n : nat) (s : list byte) (i : nat) : option (list byte) :=
  match n with
  | O => Some []
  | S n' => c ← char_at s i; rest ← read_chars n' s (i + 1)%nat; Some (c :: rest)
  end.

(** [sub-string] from the character [start] to [fin], counted from 0. *)
Definition sub_string (tempString : string) (start fin : Z) : option string :=
  len ← UTF8Length (chars tempString);
  let length := Z.of_nat len in
  let fin := if length <? fin then length else fin in
  if (fin <? start) || (length =? 0) then Some "" else
  start ← UTF8Offset (chars tempString) (Z.to_nat start);
  next ← UTF8Offset (chars tempString) (Z.to_nat (fin + 1));
  let fin := Z.of_nat next - 1 in
  let n := fin - Z.of_nat start + 1 in
  if fin <? 0 then None else
  m ← gm2 (fin - Z.of_nat start + 2);
  l ← read_chars (Z.to_nat n) (chars tempString) start;
  m ← write_bytes m 0 (l ++ [NUL]);
  c_string m.

(** The number [str-index] gives for a needle that is not empty. *)
Definition str_index (strg1 strg2 : string) : option (option nat) :=
  match strstr (chars strg2) (chars strg1) with
  | Some k => n ← UTF8CharNum (chars strg2) (k + 1)%nat; Some (Some n)
  | None => Some None
  end.

(** The loops of [str-replace], on what [traverse] points to.  A turn consumes
    [findLength > 0] characters. *)
Fixpoint count_replaced (fuel : nat) (findString : list byte) (replaceLength returnLength : Z) (traverse : list byte) : option Z :=
  match strstr traverse findString with
  | None => Some returnLength
  | Some k =>
      match fuel with
      | O => None
      | S fuel' =>
          count_replaced fuel' findString replaceLength
            (size_t_of (returnLength + size_t_of (replaceLength - Z.of_nat (length findString))))
            (drop (k + length findString) traverse)
      end
  end.
Fixpoint copy_replaced (fuel : nat) (findString replaceString : list byte) (m : memory) (target : nat) (traverse : list byte) : option memory :=
  match strstr traverse findString with
  | None => write_bytes m target (traverse ++ [NUL])
  | Some k =>
      match fuel with
      | O => None
      | S fuel' =>
          m ← write_bytes m target (take k traverse);
          m ← write_bytes m (target + k) (replaceString ++ [NUL]);
          copy_replaced fuel' findString replaceString m (target + k + length replaceString)
            (drop (k + length findString) traverse)
      end
  end.
(** What [str-replace] returns when [findString] is not empty. *)
Definition str_replace (initialString findString replaceString : string) : option string :=
  let findLength := Z.of_nat (String.length findString) in
  let replaceLength := Z.of_nat (String.length replaceString) in
  let returnLength := Z.of_nat (String.length initialString) + 1 in
  let fuel := String.length initialString in
  returnLength ←
    (if negb (findLength =? replaceLength)
     then count_replaced fuel (chars findString) replaceLength returnLength (chars initialString)
     else Some returnLength);
  m ← gm2 returnLength;
  m ← copy_replaced fuel (chars findString) (chars replaceString) m 0 (chars initialString);
  c_string m.

(** ** The functions *)

Section functions.
Context {W : Type} (ev : Evaluator W).
Abbreviation UDFM := (UDF W).

Definition TEXT_BITS : Z := Z.lor LEXEME_BITS INSTANCE_NAME_BIT.
Definition first_text : UDFM (bool * option UDFValue) := UDFFirstArgument ev (ToLocal None) TEXT_BITS.
Definition next_text : UDFM (bool * option UDFValue) := UDFNextArgument ev (ToLocal None) TEXT_BITS.
Definition text_contents (u : UDFValue) : UDFM string := fromOption (lexeme_text u).

(** The string of one argument in [arrayOfStrings], after the [switch]; [None]:
    another type, which is reported. *)
Definition argument_string (theArg : UDFValue) : UDFM (option string) :=
  match uv_value theArg with
  | VString x | VInstanceName x | VSymbol x => mret (Some x)
  | VFloat d => mret (Some (float_to_string (bits_of_double d)))
  | VInteger z => mret (Some (integer_to_string z))
  | _ =>
      _ ← UDFInvalidArgumentMessage "string, instance name, symbol, float, or integer";
      _ ← SetEvaluationError true;
      mret None
  end.

(** The evaluation loop, from position [i] on; [None]: an error.  Whether the
    argument could be obtained is seen from [EvaluationError] alone. *)
Fixpoint string_arguments (n : nat) (i : Z) (theArg : option UDFValue) : UDFM (option (list string)) :=
  match n with
  | O => mret (Some [])
  | S n' =>
      '(_, o) ← UDFNthArgument ev i (ToLocal theArg) ANY_TYPE_BITS;
      theArg ← fromOption o;
      x ← argument_string theArg;
      err ← GetEvaluationError;
      if (err : bool) then mret None else
      x ← fromOption x;
      rest ← string_arguments n' (i + 1) (Some theArg);
      mret (match rest with Some xs => Some (x :: xs) | None => None end)
  end.

Definition lexeme_of_type (returnType : Z) (x : string) : value :=
  if returnType =? STRING_TYPE then VString x else VSymbol x.

Definition StrOrSymCatFunction (returnType : Z) : UDFM unit :=
  numArgs ← UDFArgumentCount;
  if numArgs =? 0 then mret tt else
  strings ← string_arguments (Z.to_nat numArgs) 1 None;
  match strings with
  | None => set_returnValue (if returnType =? STRING_TYPE then VString "" else VSymbol "nil")
  | Some arrayOfStrings =>
      theString ← fromOption (concatenated arrayOfStrings);
      set_returnValue (lexeme_of_type returnType theString)
  end.
Definition StrCatFunction : UDFM unit := StrOrSymCatFunction STRING_TYPE.
Definition SymCatFunction : UDFM unit := StrOrSymCatFunction SYMBOL_TYPE.

Definition StrLengthFunction : UDFM unit :=
  arg_or_return first_text (fun theArg =>
  x ← text_contents theArg;
  n ← fromOption (UTF8Length (chars x));
  set_returnValue (VInteger (Z.of_nat n))).

Definition StrByteLengthFunction : UDFM unit :=
  arg_or_return first_text (fun theArg =>
  x ← text_contents theArg;
  set_returnValue (VInteger (Z.of_nat (String.length x)))).

Definition convert_case (test : byte → option bool) (convert : byte → byte) : UDFM unit :=
  arg_or_return first_text (fun theArg =>
  x ← text_contents theArg;
  nsptr ← fromOption (converted test convert x);
  set_returnValue (lexeme_like theArg nsptr)).
Definition UpcaseFunction : UDFM unit := convert_case islower toupper.
Definition LowcaseFunction : UDFM unit := convert_case isupper tolower.

Definition StrCompareFunction : UDFM unit :=
  arg_or_return first_text (fun arg1 =>
  arg_or_return next_text (fun arg2 =>
  x1 ← text_contents arg1;
  x2 ← text_contents arg2;
  let return_comparison compareResult := set_returnValue
    (VInteger (match compareResult with Lt => -1 | Gt => 1 | Eq => 0 end)) in
  has ← UDFHasNextArgument;
  if (has : bool) then
    arg_or_return (next_integer ev) (fun arg3 =>
    n ← integer_contents (uv_value arg3);
    return_comparison (strncmp (chars x1) (chars x2) (size_t_of n)))
  else return_comparison (strcmp (chars x1) (chars x2)))).

Definition SubStringFunction : UDFM unit :=
  arg_or_return (UDFFirstArgument ev (ToLocal None) INTEGER_BIT) (fun theArg =>
  first ← integer_contents (uv_value theArg);
  let start := if first <? 1 then 0 else first - 1 in
  arg_or_return (next_integer ev) (fun theArg =>
  last ← integer_contents (uv_value theArg);
  if last <? 1 then set_returnValue (VString "") else
  let fin := last - 1 in
  arg_or_return next_text (fun theArg =>
  tempString ← text_contents theArg;
  x ← fromOption (sub_string tempString start fin);
  set_returnValue (VString x)))).

Definition StrIndexFunction : UDFM unit :=
  _ ← set_returnValue FalseSymbol;
  arg_or_return first_text (fun theArg1 =>
  arg_or_return next_text (fun theArg2 =>
  strg1 ← text_contents theArg1;
  strg2 ← text_contents theArg2;
  if bool_decide (strg1 = "") then set_returnValue (VInteger 1) else
  i ← fromOption (str_index strg1 strg2);
  match i with
  | Some i => set_returnValue (VInteger (Z.of_nat i))
  | None => mret tt
  end)).

Definition StrReplaceFunction : UDFM unit :=
  arg_or_return first_text (fun initial =>
  arg_or_return next_text (fun find =>
  arg_or_return next_text (fun replace =>
  initialString ← text_contents initial;
  findString ← text_contents find;
  replaceString ← text_contents replace;
  if bool_decide (findString = "") then set_returnValue (uv_value initial) else
  x ← fromOption (str_replace initialString findString replaceString);
  set_returnValue (lexeme_like initial x)))).
End functions.

(** ** Runs *)

Example sub_string_utf8 :
  let x := String (char_of 195) (String (char_of 164) "bc") in
  (sub_string x 0 0, sub_string x 1 9, sub_string x 3 9, sub_string x 9 9) =
  (Some (String (char_of 195) (String (char_of 164) "")), Some "bc", Some "", Some "").
Proof. vm_compute. reflexivity. Qed.
Example str_replace_grows : str_replace "a-b-" "-" "--" = Some "a--b--".
Proof. vm_compute. reflexivity. Qed.
Example str_replace_shrinks : str_replace "a--b---" "--" "" = Some "ab-".
Proof. vm_compute. reflexivity. Qed.
Example str_index_found : str_index "b" (String (char_of 195) (String (char_of 164) "bc")) = Some (Some 2%nat).
Proof. vm_compute. reflexivity. Qed.
Example concatenation : concatenated ["ab"; ""; "c"] = Some "abc".
Proof. vm_compute. reflexivity. Qed.
Example upcase_text : converted islower toupper "a-Bz" = Some "A-BZ".
Proof. vm_compute. reflexivity. Qed.
