(* ===== verification/Evaluate.v ===== *)
(** * The evaluator: [EvaluateExpression] of [evaluatn.c]

    The [functionPointer] of a function definition is resolved here, which ties
    the UDFs to the evaluator.  Every call costs a unit of fuel, and so does
    every iteration of a loop; [None] is undefined behaviour or exhausted fuel. *)
From S2P Require Import Prelude Values Router Expr Functions Args Multifield Math Predicates.
From S2P Require Import Procedural Sort UserFunctions MultifieldFunctions StringFunctions.
#[local] Open Scope Z_scope.

Section evaluate.
Context {W : Type} `{!EvalHost W}.
Abbreviation ME := (M (EvalEnv W)).

(** [fptr->functionPointer(theEnv,&theUDFContext,returnValue)] *)
Definition call_functionPointer (ev : Evaluator W) (fuel : nat) (fp : UserDefinedFunction) : UDF W unit :=
  match fp with
  | fp_AdditionFunction => AdditionFunction ev
  | fp_MultiplicationFunction => MultiplicationFunction ev
  | fp_SubtractionFunction => SubtractionFunction ev
  | fp_DivisionFunction => DivisionFunction ev
  | fp_DivFunction => DivFunction ev
  | fp_IntegerFunction => IntegerFunction ev
  | fp_FloatFunction => FloatFunction ev
  | fp_AbsFunction => AbsFunction ev
  | fp_MinFunction => MinFunction ev
  | fp_MaxFunction => MaxFunction ev
  | fp_EqFunction => EqFunction ev
  | fp_NeqFunction => NeqFunction ev
  | fp_StringpFunction => StringpFunction ev
  | fp_SymbolpFunction => SymbolpFunction ev
  | fp_LexemepFunction => LexemepFunction ev
  | fp_NumberpFunction => NumberpFunction ev
  | fp_FloatpFunction => FloatpFunction ev
  | fp_IntegerpFunction => IntegerpFunction ev
  | fp_MultifieldpFunction => MultifieldpFunction ev
  | fp_ExternalAddresspFunction => ExternalAddresspFunction ev
  | fp_NotFunction => NotFunction ev
  | fp_AndFunction => AndFunction ev
  | fp_OrFunction => OrFunction ev
  | fp_LessThanOrEqualFunction => LessThanOrEqualFunction ev
  | fp_GreaterThanOrEqualFunction => GreaterThanOrEqualFunction ev
  | fp_LessThanFunction => LessThanFunction ev
  | fp_GreaterThanFunction => GreaterThanFunction ev
  | fp_NumericEqualFunction => NumericEqualFunction ev
  | fp_NumericNotEqualFunction => NumericNotEqualFunction ev
  | fp_OddpFunction => OddpFunction ev
  | fp_EvenpFunction => EvenpFunction ev
  | fp_IfFunction => IfFunction ev
  | fp_WhileFunction => WhileFunction ev fuel
  | fp_LoopForCountFunction => LoopForCountFunction ev fuel
  | fp_GetLoopCount => GetLoopCount ev
  | fp_BindFunction => BindFunction ev
  | fp_PrognFunction => PrognFunction ev
  | fp_ReturnFunction => ReturnFunction ev
  | fp_BreakFunction => BreakFunction
  | fp_SwitchFunction => SwitchFunction ev
  | fp_TryFunction => TryFunction ev
  | fp_SortFunction => SortFunction ev
  | fp_FirstFunction => FirstFunction ev
  | fp_RestFunction => RestFunction ev
  | fp_SubseqFunction => SubseqFunction ev
  | fp_DeleteMemberFunction => DeleteMemberFunction ev
  | fp_ReplaceMemberFunction => ReplaceMemberFunction ev
  | fp_DeleteFunction => DeleteFunction ev
  | fp_ReplaceFunction => ReplaceFunction ev
  | fp_InsertFunction => InsertFunction ev
  | fp_NthFunction => NthFunction ev
  | fp_MemberFunction => MemberFunction ev
  | fp_SubsetpFunction => SubsetpFunction ev
  | fp_IntersectionFunction => IntersectionFunction ev
  | fp_UnionFunction => UnionFunction ev
  | fp_DifferenceFunction => DifferenceFunction ev
  | fp_CreateFunction => CreateFunction ev
  | fp_StrCatFunction => StrCatFunction ev
  | fp_SymCatFunction => SymCatFunction ev
  | fp_StrLengthFunction => StrLengthFunction ev
  | fp_StrByteLengthFunction => StrByteLengthFunction ev
  | fp_StrCompareFunction => StrCompareFunction ev
  | fp_UpcaseFunction => UpcaseFunction ev
  | fp_LowcaseFunction => LowcaseFunction ev
  | fp_SubStringFunction => SubStringFunction ev
  | fp_StrIndexFunction => StrIndexFunction ev
  | fp_StrReplaceFunction => StrReplaceFunction ev
  | fp_ClaraEvaluateWrapper => ClaraEvaluateWrapper ev
  | fp_CoireEmitWrapper => CoireEmitWrapper ev
  | fp_CoirePollWrapper => CoirePollWrapper ev
  | fp_CoireMarkWrapper => CoireMarkWrapper ev
  | fp_CoireCountWrapper => CoireCountWrapper ev
  end.

Definition get_CurrentExpression : ME (option expr) := gets (fun s => CurrentExpression (evaluationData s)).
Definition put_CurrentExpression (e : option expr) : ME unit :=
  modify (with_evaluationData (set_CurrentExpression e)).

(** [*returnValue] as [EvaluateExpression] initialises it. *)
Definition initial_returnValue : UDFValue := mkUDFValue VVoid 0 SIZE_MAX.

(** Runs a UDF in a new context and returns what it leaves in [*returnValue]. *)
Definition run_udf (fptr : functionDefinition) (argList : list expr) (m : UDF W unit) : ME UDFValue := fun s =>
  match m (s, mkUDFContext fptr 1 argList initial_returnValue) with
  | Some (_, (s', c)) => Some (ctx_returnValue c, s')
  | None => None
  end.

(** The value is [*returnValue] at the end; what the C function itself returns
    is the flag [EvaluationError] of the final state. *)
Fixpoint EvaluateExpression (fuel : nat) (problem : option expr) : ME UDFValue :=
  match fuel with
  | O => undefined
  | S fuel =>
    match problem with
    | None => mret (set_uv_value FalseSymbol initial_returnValue)
    | Some (EConst (VMultifield _)) => undefined
    | Some (EConst v) => mret (set_uv_value v initial_returnValue)
    | Some (EFcall fptr argList) =>
        oldArgument ← get_CurrentExpression;
        _ ← put_CurrentExpression problem;
        u ← run_udf fptr argList
              (call_functionPointer (EvaluateExpression fuel) fuel (functionPointer fptr));
        _ ← put_CurrentExpression oldArgument;
        mret (match uv_value u with
              | VMultifield contents =>
                  if uv_range u =? SIZE_MAX then set_uv_range (Z.of_nat (length contents)) u else u
              | _ => u
              end)
    | Some (EMultifield u) => mret u
    | Some (EVariable multifield name) =>
        b ← GetBoundVariable name;
        match b with
        | Some u => mret u
        | None =>
            _ ← PrintErrorID "EVALUATN" 1 false;
            _ ← WriteString STDERR "Variable ";
            _ ← WriteString STDERR (if multifield then "$?" else "?");
            _ ← WriteString STDERR name;
            _ ← WriteString STDERR (" is unbound." +:+ newline);
            _ ← SetEvaluationError true;
            mret (set_uv_value FalseSymbol initial_returnValue)
        end
    | Some (EDefglobal theGlobal) =>
        oldArgument ← get_CurrentExpression;
        _ ← put_CurrentExpression problem;
        u ← QGetDefglobalUDFValue theGlobal initial_returnValue;
        _ ← put_CurrentExpression oldArgument;
        mret u
    end
  end.
End evaluate.
