(* ===== verification/EvalLaws.v ===== *)
(** * Laws of evaluation

    What every run of the evaluator keeps, whatever the expression: the current
    expression, the stack of loop counters, the stack of comparison functions
    and the table of functions.  [Keeps] is closed under the combinators of the
    monad, so the proof for a UDF follows its code. *)
From S2P Require Import Prelude Values Router Keeps Expr Functions Args Multifield Math Predicates.
From S2P Require Import Procedural Sort UserFunctions MultifieldFunctions StringFunctions Evaluate.
#[local] Open Scope Z_scope.

(** A part of the environment, seen from a frame. *)
Definition in_env {W X} (f : EvalEnv W → X) (fr : EvalEnv W * UDFContext) : X := f fr.1.

Section keeps_frame.
Context {W X : Type} (f : EvalEnv W → X).

Lemma keeps_lift {A} (m : M (EvalEnv W) A) : Keeps f m → Keeps (in_env f) (lift m).
Proof.
  intros Hm [s c] a [s' c']. unfold lift. destruct (m s) as [[a0 s0]|] eqn:E; [|done].
  intros [= <- <- <-]. apply (Hm _ _ _ E).
Qed.
Lemma keeps_modify_ctx g : Keeps (in_env f) (modify_ctx g).
Proof. apply keeps_modify. by intros []. Qed.
Lemma keeps_get_ctx {A} (g : UDFContext → A) : Keeps (in_env f) (get_ctx g).
Proof. apply keeps_gets. Qed.
End keeps_frame.

Ltac keeps_step :=
  first
    [ apply keeps_ret | apply keeps_undefined | apply keeps_gets | apply keeps_fromOption
    | apply keeps_whenM | apply keeps_get_ctx | apply keeps_modify_ctx
    | apply keeps_lift; assumption
    | apply keeps_bind
    | apply keeps_modify; first [by intros [] | done] ].
Ltac keeps := walk keeps_step.

#[export] Instance in_env_Insensitive {W X} (f : EvalEnv W → X) `{!Insensitive f} :
  Insensitive (in_env f).
Proof. split; intros x [s c]; [exact (ins_output x s)|exact (ins_halt x s)|exact (ins_error x s)]. Qed.

Section keeps_arguments.
Context {St X : Type} `{!Router St, !EvalFlags St} (f : St → X) `{!Insensitive f}.

Ltac keeps_msg := walk ltac:(first [ solve [eauto with keeps] | keeps_step ]).
Lemma keeps_PrintType l c n x : Keeps f (PrintType l c n x).
Proof. unfold PrintType. keeps_msg. Qed.
#[local] Hint Resolve keeps_PrintType : keeps.
Lemma keeps_PrintTypesString l t b : Keeps f (PrintTypesString l t b).
Proof.
  unfold PrintTypesString. cbv zeta.
  repeat (apply keeps_bind; [|intros ?]); try (keeps_msg; done).
Qed.
Lemma keeps_ExpectedTypeError0 n i : Keeps f (ExpectedTypeError0 n i).
Proof. unfold ExpectedTypeError0. keeps_msg. Qed.
#[local] Hint Resolve keeps_ExpectedTypeError0 : keeps.
Lemma keeps_ExpectedTypeError1 n i t : Keeps f (ExpectedTypeError1 n i t).
Proof. unfold ExpectedTypeError1. keeps_msg. Qed.
Lemma keeps_MVRangeError b e m n : Keeps f (MVRangeError b e m n).
Proof. unfold MVRangeError, in_function, PrintUnsignedInteger. keeps_msg. Qed.
Lemma keeps_MVRangeErrorSizet b e m n : Keeps f (MVRangeErrorSizet b e m n).
Proof. unfold MVRangeErrorSizet, in_function, PrintUnsignedInteger. keeps_msg. Qed.
#[local] Hint Resolve keeps_MVRangeErrorSizet : keeps.
Lemma keeps_ReplaceMultiValueField src rb re u n : Keeps f (ReplaceMultiValueFieldSizet src rb re u n).
Proof. unfold ReplaceMultiValueFieldSizet. keeps_msg. Qed.
Lemma keeps_InsertMultiValueField src i u : Keeps f (InsertMultiValueField src i u).
Proof. unfold InsertMultiValueField. keeps_msg. Qed.
End keeps_arguments.

#[export] Hint Resolve keeps_PrintTypesString keeps_ExpectedTypeError0 keeps_ExpectedTypeError1
  keeps_MVRangeError keeps_ReplaceMultiValueField keeps_InsertMultiValueField : keeps.

(** The walk with the lemmas of the components at the leaves. *)
Ltac keeps_auto := walk ltac:(first [ solve [eauto with keeps] | keeps_step ]).

(** A view of the environment that variables, globals, flags, output and the
    host program do not show in. *)
Class EnvInsensitive {W X} (f : EvalEnv W → X) := {
  env_insensitive :: Insensitive f;
  env_ReturnFlag b s : f (with_procedureFunctionData (set_ReturnFlag b) s) = f s;
  env_BreakFlag b s : f (with_procedureFunctionData (set_BreakFlag b) s) = f s;
  env_BindList l s : f (with_procedureFunctionData (set_BindList l) s) = f s;
  env_defglobals g s : f (with_defglobalData g s) = f s;
  env_world g s : f (with_world g s) = f s;
}.
#[export] Hint Resolve keeps_lift : keeps.

Section keeps_udf.
Context {W X : Type} `{!EvalHost W} (ev : Evaluator W) (f : EvalEnv W → X) `{!EnvInsensitive f}.
Hypothesis Hev : ∀ e, Keeps f (ev e).

Lemma keeps_ev e : Keeps (in_env f) (lift (ev e)).
Proof. apply keeps_lift, Hev. Qed.
#[local] Hint Resolve Hev keeps_ev : keeps.

Lemma keeps_set_returnValue v : Keeps (in_env f) (set_returnValue v).
Proof. apply keeps_modify_ctx. Qed.
Lemma keeps_set_integer z : Keeps (in_env f) (set_integer z).
Proof. unfold set_integer, create_integer, set_returnValue. keeps_auto. Qed.
Lemma keeps_put_returnValue u : Keeps (in_env f) (put_returnValue u).
Proof. apply keeps_modify_ctx. Qed.
Lemma keeps_get_returnValue : Keeps (in_env f) get_returnValue.
Proof. apply keeps_get_ctx. Qed.
Lemma keeps_get_env {A} (g : EvalEnv W → A) : Keeps (in_env f) (get_env g).
Proof. apply keeps_gets. Qed.
#[local] Hint Resolve keeps_set_returnValue keeps_set_integer keeps_put_returnValue keeps_get_returnValue keeps_get_env : keeps.
Lemma keeps_current_args : Keeps (in_env f) current_args.
Proof. unfold current_args. keeps_auto. Qed.
Lemma keeps_AssignErrorValue : Keeps (in_env f) AssignErrorValue.
Proof. unfold AssignErrorValue. keeps_auto. Qed.
Lemma keeps_FunctionName : Keeps (in_env f) UDFContextFunctionName.
Proof. apply keeps_get_ctx. Qed.
#[local] Hint Resolve keeps_current_args keeps_AssignErrorValue keeps_FunctionName : keeps.
Lemma keeps_type_error p t : Keeps (in_env f) (UDF_type_error p t).
Proof. unfold UDF_type_error. keeps_auto. Qed.
Lemma keeps_ArgumentCount : Keeps (in_env f) UDFArgumentCount.
Proof. unfold UDFArgumentCount. keeps_auto. Qed.
Lemma keeps_dest_set d v : Keeps (in_env f) (dest_set_value d v).
Proof. unfold dest_set_value. keeps_auto. Qed.
Lemma keeps_dest_put d v : Keeps (in_env f) (dest_put d v).
Proof. unfold dest_put. keeps_auto. Qed.
#[local] Hint Resolve keeps_type_error keeps_ArgumentCount keeps_dest_set keeps_dest_put : keeps.
Lemma keeps_NextArgument d t : Keeps (in_env f) (UDFNextArgument ev d t).
Proof. unfold UDFNextArgument. keeps_auto. Qed.
#[local] Hint Resolve keeps_NextArgument : keeps.
Lemma keeps_FirstArgument d t : Keeps (in_env f) (UDFFirstArgument ev d t).
Proof. unfold UDFFirstArgument. keeps_auto. Qed.
Lemma keeps_NthArgument i d t : Keeps (in_env f) (UDFNthArgument ev i d t).
Proof. unfold UDFNthArgument. keeps_auto. Qed.
#[local] Hint Resolve keeps_FirstArgument keeps_NthArgument : keeps.
Lemma keeps_arg_or_return get k :
  Keeps (in_env f) get → (∀ u, Keeps (in_env f) (k u)) → Keeps (in_env f) (arg_or_return get k).
Proof. intros. unfold arg_or_return. keeps_auto. Qed.
Lemma keeps_arguments_loop {A} n t (body : A → UDFValue → UDF W (option A)) a :
  (∀ a u, Keeps (in_env f) (body a u)) → Keeps (in_env f) (arguments_loop ev n t body a).
Proof.
  intros Hb. revert a. induction n as [|n IH]; intros a; simpl; unfold UDFHasNextArgument; keeps_auto.
Qed.
Lemma keeps_for_each {A} t a (body : A → UDFValue → UDF W (option A)) after :
  (∀ a u, Keeps (in_env f) (body a u)) → (∀ a, Keeps (in_env f) (after a)) →
  Keeps (in_env f) (for_each_argument ev t a body after).
Proof.
  intros Hb Ha. unfold for_each_argument.
  repeat (apply keeps_bind; [|intros ?]);
    [keeps_auto|by apply keeps_arguments_loop|keeps_auto].
Qed.
Ltac keeps_call :=
  match goal with
  | |- Keeps _ (arg_or_return _ _) => apply keeps_arg_or_return
  | |- Keeps _ (for_each_argument _ _ _ _ _) => apply keeps_for_each
  end.
Ltac keeps_udf := walk ltac:(first [ solve [eauto with keeps] | keeps_call | keeps_step ]).

Lemma keeps_math fp :
  fp ∈ [fp_AdditionFunction; fp_MultiplicationFunction; fp_SubtractionFunction; fp_DivisionFunction;
      fp_DivFunction; fp_IntegerFunction; fp_FloatFunction; fp_AbsFunction; fp_MinFunction; fp_MaxFunction] →
  ∀ n, Keeps (in_env f) (call_functionPointer ev n fp).
Proof.
  intros Hfp n. unfold call_functionPointer.
  repeat (apply elem_of_cons in Hfp as [->|Hfp]); try by apply elem_of_nil in Hfp.
  - unfold AdditionFunction, return_total, integer_contents. keeps_udf.
  - unfold MultiplicationFunction, return_total, integer_contents. keeps_udf.
  - unfold SubtractionFunction, return_total, integer_contents, float_contents. keeps_udf.
  - unfold DivisionFunction. keeps_udf.
  - unfold DivFunction. keeps_udf.
  - unfold IntegerFunction, first_number_or_return. keeps_udf.
  - unfold FloatFunction, first_number_or_return. keeps_udf.
  - unfold AbsFunction, first_number_or_return, integer_contents, float_contents. keeps_udf.
  - unfold MinFunction, integer_contents. keeps_udf.
  - unfold MaxFunction, integer_contents. keeps_udf.
Qed.

Lemma keeps_eq_loop item l : Keeps (in_env f) (eq_loop ev item l).
Proof. induction l; simpl; keeps_udf. Qed.
Lemma keeps_neq_loop item l : Keeps (in_env f) (neq_loop ev item l).
Proof. induction l; simpl; keeps_udf. Qed.
#[local] Hint Resolve keeps_eq_loop keeps_neq_loop : keeps.
Lemma keeps_type_predicate t : Keeps (in_env f) (type_predicate ev t).
Proof. unfold type_predicate. keeps_udf. Qed.
Lemma keeps_compare fi ff b : Keeps (in_env f) (compare_arguments ev fi ff b).
Proof. unfold compare_arguments, integer_contents. keeps_udf. Qed.
#[local] Hint Resolve keeps_type_predicate keeps_compare : keeps.

Lemma keeps_predicates fp :
  fp ∈ [fp_EqFunction; fp_NeqFunction; fp_NotFunction; fp_AndFunction; fp_OrFunction; fp_OddpFunction; fp_EvenpFunction] →
  ∀ n, Keeps (in_env f) (call_functionPointer ev n fp).
Proof.
  intros Hfp n. unfold call_functionPointer.
  repeat (apply elem_of_cons in Hfp as [->|Hfp]); try by apply elem_of_nil in Hfp.
  - unfold EqFunction. keeps_udf.
  - unfold NeqFunction. keeps_udf.
  - unfold NotFunction. keeps_udf.
  - unfold AndFunction. keeps_udf.
  - unfold OrFunction. keeps_udf.
  - unfold OddpFunction, integer_contents. keeps_udf.
  - unfold EvenpFunction, integer_contents. keeps_udf.
Qed.

Lemma keeps_collect l : Keeps f (collect_fields ev l).
Proof. induction l; simpl; keeps_udf. Qed.
#[local] Hint Resolve keeps_collect : keeps.
Lemma keeps_StoreInMultifield l : Keeps f (StoreInMultifield ev l).
Proof. unfold StoreInMultifield. keeps_udf. Qed.
Lemma keeps_break_or_return : Keeps f break_or_return.
Proof. unfold break_or_return, get_BreakFlag, get_ReturnFlag. keeps_udf. Qed.
Lemma keeps_get_ReturnFlag : Keeps f get_ReturnFlag.
Proof. apply keeps_gets. Qed.
Lemma keeps_put_ReturnFlag b : Keeps f (put_ReturnFlag b).
Proof. apply keeps_modify. intros s. apply env_ReturnFlag. Qed.
Lemma keeps_put_BreakFlag b : Keeps f (put_BreakFlag b).
Proof. apply keeps_modify. intros s. apply env_BreakFlag. Qed.
Lemma keeps_periodic : Keeps f CallPeriodicTasks.
Proof.
  unfold CallPeriodicTasks. apply keeps_bind; [apply keeps_gets|intros u].
  apply keeps_whenM, keeps_modify. intros s. apply env_world.
Qed.
Lemma keeps_put_BindList l : Keeps (in_env f) (put_BindList l).
Proof. apply keeps_modify. intros [s c]. exact (env_BindList l s). Qed.
Lemma keeps_load_global p : Keeps f (load_global p).
Proof. unfold load_global. keeps_udf. Qed.
#[local] Hint Resolve keeps_StoreInMultifield keeps_break_or_return keeps_get_ReturnFlag keeps_put_ReturnFlag
  keeps_put_BreakFlag keeps_periodic keeps_put_BindList keeps_load_global : keeps.
Lemma keeps_set_global g : Keeps f (modify (with_defglobalData g)).
Proof. apply keeps_modify. intros s. apply env_defglobals. Qed.
#[local] Hint Resolve keeps_set_global : keeps.
Lemma keeps_QSetDefglobalValue p v b : Keeps f (QSetDefglobalValue ev p v b).
Proof. unfold QSetDefglobalValue. keeps_udf. Qed.
Lemma keeps_QGetDefglobalUDFValue p v : Keeps f (QGetDefglobalUDFValue p v).
Proof. unfold QGetDefglobalUDFValue. keeps_udf. Qed.
Lemma keeps_evaluate_to e : Keeps (in_env f) (evaluate_to_returnValue ev e).
Proof. unfold evaluate_to_returnValue. keeps_udf. Qed.
Lemma keeps_finish_loop r : Keeps (in_env f) (finish_loop r).
Proof. unfold finish_loop. keeps_udf. Qed.
#[local] Hint Resolve keeps_QSetDefglobalValue keeps_evaluate_to keeps_finish_loop : keeps.
Lemma keeps_while_loop n r : Keeps (in_env f) (while_loop ev n r).
Proof. revert r. induction n as [|n IH]; intros r; simpl; keeps_udf. Qed.
Lemma keeps_progn_loop l : Keeps (in_env f) (progn_loop ev l).
Proof. induction l; simpl; keeps_udf. Qed.
#[local] Hint Resolve keeps_while_loop keeps_progn_loop : keeps.
Lemma keeps_switch_loop v n l : (length l <= n)%nat → Keeps (in_env f) (switch_loop ev v l).
Proof.
  revert l. induction n as [|n IH]; intros [|e l] Hl; simpl in *; try lia; try apply keeps_ret.
  destruct l as [|e' l]; simpl in Hl.
  - keeps_udf.
  - assert (Hr : Keeps (in_env f) (switch_loop ev v l)) by (apply IH; lia). keeps_udf.
Qed.

Lemma keeps_procedural fp :
  fp ∈ [fp_IfFunction; fp_WhileFunction; fp_GetLoopCount; fp_BindFunction; fp_PrognFunction;
      fp_ReturnFunction; fp_BreakFunction; fp_SwitchFunction; fp_TryFunction] →
  ∀ n, Keeps (in_env f) (call_functionPointer ev n fp).
Proof.
  intros Hfp n. unfold call_functionPointer.
  repeat (apply elem_of_cons in Hfp as [->|Hfp]); try by apply elem_of_nil in Hfp.
  - unfold IfFunction. keeps_udf.
  - unfold WhileFunction. keeps_udf.
  - unfold GetLoopCount. keeps_udf.
  - unfold BindFunction. keeps_udf.
  - unfold PrognFunction. keeps_udf.
  - unfold ReturnFunction, UDFHasNextArgument. keeps_udf.
  - unfold BreakFunction. keeps_udf.
  - unfold SwitchFunction.
    repeat (apply keeps_bind; [solve [keeps_udf]|intros ?]).
    walk ltac:(first [by eapply keeps_switch_loop | keeps_step]).
  - unfold TryFunction. keeps_udf.
Qed.

Lemma keeps_call_host {A} (g : W → A * W) : Keeps (in_env f) (call_host g).
Proof.
  intros [s c] a [s' c']. unfold call_host. destruct (g (world s)) as [a' w].
  intros [= <- <- <-]. exact (env_world (fun _ => w) s).
Qed.
Lemma keeps_lexeme u : Keeps (in_env f) (lexeme_contents u).
Proof. unfold lexeme_contents. keeps_udf. Qed.
#[local] Hint Resolve keeps_call_host keeps_lexeme : keeps.
Lemma keeps_arg_or_value get v k :
  Keeps (in_env f) get → (∀ u, Keeps (in_env f) (k u)) → Keeps (in_env f) (arg_or_value get v k).
Proof. intros. unfold arg_or_value. keeps_udf. Qed.

Lemma keeps_wrappers fp :
  fp ∈ [fp_ClaraEvaluateWrapper; fp_CoireEmitWrapper; fp_CoirePollWrapper; fp_CoireMarkWrapper; fp_CoireCountWrapper] →
  ∀ n, Keeps (in_env f) (call_functionPointer ev n fp).
Proof.
  intros Hfp n. unfold call_functionPointer.
  repeat (apply elem_of_cons in Hfp as [->|Hfp]); try by apply elem_of_nil in Hfp.
  all: unfold ClaraEvaluateWrapper, CoireEmitWrapper, CoirePollWrapper, CoireMarkWrapper, CoireCountWrapper.
  all: repeat (apply keeps_arg_or_value; [solve [keeps_udf]|intros ?]); keeps_udf.
Qed.

Lemma keeps_range_failure a b c n : Keeps (in_env f) (range_failure a b c n).
Proof. unfold range_failure. keeps_udf. Qed.
Lemma keeps_field_argument l : Keeps (in_env f) (field_argument ev l).
Proof. pose proof keeps_StoreInMultifield. destruct l as [|e [|]]; simpl; keeps_udf. Qed.
Lemma keeps_nth_arguments n i t : Keeps (in_env f) (nth_arguments ev n i t).
Proof. revert i. induction n as [|n IH]; intros i; simpl; keeps_udf. Qed.
Lemma keeps_delete_members n u : Keeps (in_env f) (delete_members ev n u).
Proof. revert u. induction n as [|n IH]; intros u; simpl; keeps_udf. Qed.
Lemma keeps_replace_occurrences n vs r u k l : Keeps (in_env f) (replace_occurrences n vs r u k l).
Proof. revert u l. induction n as [|n IH]; intros u l; simpl; keeps_udf. Qed.
Lemma keeps_argument_string u : Keeps (in_env f) (argument_string u).
Proof. unfold argument_string, UDFInvalidArgumentMessage. keeps_udf. Qed.
#[local] Hint Resolve keeps_range_failure keeps_field_argument keeps_nth_arguments keeps_delete_members
  keeps_replace_occurrences keeps_argument_string keeps_StoreInMultifield : keeps.
Lemma keeps_string_arguments n i o : Keeps (in_env f) (string_arguments ev n i o).
Proof. revert i o. induction n as [|n IH]; intros i o; simpl; keeps_udf. Qed.
#[local] Hint Resolve keeps_string_arguments : keeps.

Lemma keeps_multifield_functions fp :
  fp ∈ [fp_CreateFunction; fp_FirstFunction; fp_RestFunction; fp_SubseqFunction; fp_DeleteMemberFunction;
      fp_ReplaceMemberFunction; fp_DeleteFunction; fp_ReplaceFunction; fp_InsertFunction; fp_NthFunction;
      fp_MemberFunction; fp_SubsetpFunction; fp_IntersectionFunction; fp_UnionFunction; fp_DifferenceFunction] →
  ∀ n, Keeps (in_env f) (call_functionPointer ev n fp).
Proof.
  intros Hfp n. unfold call_functionPointer.
  repeat (apply elem_of_cons in Hfp as [->|Hfp]); try by apply elem_of_nil in Hfp.
  all: unfold CreateFunction, FirstFunction, RestFunction, SubseqFunction, DeleteMemberFunction,
    ReplaceMemberFunction, DeleteFunction, ReplaceFunction, InsertFunction, NthFunction, MemberFunction,
    SubsetpFunction, IntersectionFunction, UnionFunction, DifferenceFunction, first_multifield,
    next_multifield, next_integer, return_elements, segments_of, integer_contents.
  all: keeps_udf.
Qed.

Lemma keeps_string_functions fp :
  fp ∈ [fp_StrCatFunction; fp_SymCatFunction; fp_StrLengthFunction; fp_StrByteLengthFunction;
      fp_StrCompareFunction; fp_UpcaseFunction; fp_LowcaseFunction; fp_SubStringFunction;
      fp_StrIndexFunction; fp_StrReplaceFunction] →
  ∀ n, Keeps (in_env f) (call_functionPointer ev n fp).
Proof.
  intros Hfp n. unfold call_functionPointer.
  repeat (apply elem_of_cons in Hfp as [->|Hfp]); try by apply elem_of_nil in Hfp.
  all: unfold StrCatFunction, SymCatFunction, StrOrSymCatFunction, StrLengthFunction, StrByteLengthFunction,
    StrCompareFunction, UpcaseFunction, LowcaseFunction, convert_case, SubStringFunction, StrIndexFunction,
    StrReplaceFunction, first_text, next_text, next_integer, text_contents, integer_contents, UDFHasNextArgument.
  all: keeps_udf.
Qed.
End keeps_udf.
(** The lemmas of the section, for any evaluator that keeps [f]. *)
#[export] Hint Resolve keeps_ev keeps_set_returnValue keeps_set_integer keeps_put_returnValue keeps_get_returnValue
  keeps_get_env keeps_current_args keeps_ArgumentCount keeps_NextArgument keeps_FirstArgument
  keeps_NthArgument keeps_StoreInMultifield keeps_break_or_return keeps_put_ReturnFlag
  keeps_put_BreakFlag keeps_periodic keeps_finish_loop keeps_evaluate_to : keeps.

Ltac keeps_call :=
  match goal with |- Keeps _ (arg_or_return _ _) => apply keeps_arg_or_return end.

(** ** The functions that push and pop: [loop-for-count] and [sort] *)

Definition Ends {St A} (Q : St → Prop) (m : M St A) : Prop := ∀ s a s', m s = Some (a, s') → Q s'.
Lemma ends_bind {St A B} (Q : St → Prop) (m : M St A) (k : A → M St B) :
  (∀ a, Ends Q (k a)) → Ends Q (m ≫= k).
Proof. intros Hk s b s'' (a & s' & _ & H)%M_bind_inv. by eapply Hk. Qed.
Lemma ends_modify {St} (Q : St → Prop) g : (∀ s, Q (g s)) → Ends Q (modify g).
Proof. intros HQ s a s' [= <- <-]. apply HQ. Qed.
Lemma ends_undefined {St A} (Q : St → Prop) : Ends (A := A) Q undefined.
Proof. intros s a s' [=]. Qed.
(** [m] decides [Q] and the rest keeps it. *)
Lemma ends_then {St A B X} (f : St → X) x (m : M St A) (k : A → M St B) :
  Ends (fun s => f s = x) m → (∀ a, Keeps f (k a)) → Ends (fun s => f s = x) (m ≫= k).
Proof. intros Hm Hk s b s'' (a & s' & H1 & H2)%M_bind_inv. rewrite (Hk _ _ _ _ H2). by eapply Hm. Qed.

Definition stack_of {W} (s : EvalEnv W) : list Z := LoopCounterStack (procedureFunctionData s).
Definition sorts_of {W} (s : EvalEnv W) : list expr := SortComparisonFunction s.
Definition current_of {W} (s : EvalEnv W) : option expr := CurrentExpression (evaluationData s).
Definition functions_of {W} (s : EvalEnv W) : list functionDefinition := ListOfFunctions s.
Definition rest_of {W} (s : EvalEnv W) := (current_of s, functions_of s).

#[export] Instance stack_of_insensitive {W} : EnvInsensitive (W := W) stack_of.
Proof. by split; [split|..]. Qed.
#[export] Instance sorts_of_insensitive {W} : EnvInsensitive (W := W) sorts_of.
Proof. by split; [split|..]. Qed.
#[export] Instance tail_sorts_insensitive {W} : EnvInsensitive (W := W) (fun s => tail (sorts_of s)).
Proof. by split; [split|..]. Qed.
#[export] Instance rest_of_insensitive {W} : EnvInsensitive (W := W) rest_of.
Proof. by split; [split|..]. Qed.

Section push_pop.
Context {W : Type} `{!EvalHost W} (ev : Evaluator W).

Section loops.
Context {X : Type} (f : EvalEnv W → X) `{!EnvInsensitive f}.
Hypothesis Hev : ∀ e, Keeps f (ev e).
Hypothesis Hstack : ∀ l s, f (with_procedureFunctionData (set_LoopCounterStack l) s) = f s.

Lemma keeps_put_stack l : Keeps (in_env f) (put_LoopCounterStack l).
Proof. apply keeps_modify. intros [s c]. exact (Hstack l s). Qed.
#[local] Hint Resolve keeps_put_stack : keeps.
Lemma keeps_count_loop n nxt i e r : Keeps (in_env f) (count_loop ev n nxt i e r).
Proof. revert i r. induction n as [|n IH]; intros i r; simpl; keeps_auto. Qed.
#[local] Hint Resolve keeps_count_loop : keeps.
Lemma keeps_LoopForCount n : Keeps (in_env f) (LoopForCountFunction ev n).
Proof. unfold LoopForCountFunction. keeps_auto. Qed.
End loops.

Lemma ends_put_stack nxt : Ends (fun fr => in_env stack_of fr = nxt) (put_LoopCounterStack (W := W) nxt).
Proof. apply ends_modify. by intros []. Qed.

Lemma LoopForCount_pops n : Keeps (in_env stack_of) (LoopForCountFunction ev n).
Proof.
  intros s a s'. unfold LoopForCountFunction. rewrite (M_bind_Some _ _ _ (in_env stack_of s) s) by (by destruct s).
  revert s a s'. intros s. generalize (in_env stack_of s) as nxt. intros nxt.
  cut (∀ m : UDF W unit, Ends (fun fr => in_env stack_of fr = nxt) m →
    ∀ a s', m s = Some (a, s') → in_env stack_of s' = nxt); [intros Hm; apply Hm|by intros m Hm a s' ?; eapply Hm].
  walk ltac:(first
    [ apply ends_put_stack
    | apply ends_then; [apply ends_put_stack|intros ?; apply keeps_lift, keeps_periodic; apply _]
    | apply ends_bind ]).
Qed.

Section sorts.
Context {X : Type} (f : EvalEnv W → X) `{!EnvInsensitive f}.
Hypothesis Hev : ∀ e, Keeps f (ev e).

Lemma keeps_merge_loop {A} (swap : A → A → M (EvalEnv W) bool) n l t m c1 e1 c2 e2 :
  (∀ x y, Keeps f (swap x y)) → Keeps f (merge_loop swap n l t m c1 e1 c2 e2).
Proof.
  intros Hs. revert t m c1 c2. induction n as [|n IH]; intros; simpl; unfold read, write_temp; keeps_auto.
  all: first [apply Hs | idtac].
Qed.
Lemma keeps_copy_back {A} n (l : list A) t c : Keeps f (copy_back (St := EvalEnv W) n l t c).
Proof. revert l c. induction n as [|n IH]; intros; simpl; unfold read; keeps_auto. Qed.
#[local] Hint Resolve keeps_merge_loop keeps_copy_back : keeps.
Lemma keeps_DoMergeSort {A} (swap : A → A → M (EvalEnv W) bool) n l t s1 e1 s2 e2 :
  (∀ x y, Keeps f (swap x y)) → Keeps f (DoMergeSort swap n l t s1 e1 s2 e2).
Proof.
  intros Hs. revert l t s1 e1 s2 e2. induction n as [|n IH]; intros; simpl; unfold read, exchange, read; keeps_auto.
Qed.
Lemma keeps_MergeSort {A} (swap : A → A → M (EvalEnv W) bool) n l :
  (∀ x y, Keeps f (swap x y)) → Keeps f (MergeSort swap n l).
Proof.
  intros Hs. unfold MergeSort. pose proof (@keeps_DoMergeSort A swap). keeps_auto.
Qed.
Lemma keeps_sort_arguments n i : Keeps (in_env f) (sort_arguments ev n i).
Proof. revert i. induction n as [|n IH]; intros; simpl; keeps_auto. Qed.

Hypothesis Hsorts : ∀ g s, f (with_SortComparisonFunction g s) = f s.
Lemma keeps_DefaultCompare x y : Keeps f (DefaultCompareSwapFunction ev x y).
Proof.
  unfold DefaultCompareSwapFunction.
  assert (Hm : ∀ g, Keeps f (modify (with_SortComparisonFunction g))) by (intros g; apply keeps_modify, Hsorts).
  keeps_auto.
Qed.
Lemma keeps_push_sort g : Keeps (in_env f) (modify_env (with_SortComparisonFunction g)).
Proof. apply keeps_modify. intros [s c]. exact (Hsorts g s). Qed.
Lemma keeps_FunctionReference x : Keeps f (FunctionReferenceExpression x).
Proof. unfold FunctionReferenceExpression, FindFunction. keeps_auto. Qed.
Lemma keeps_SortFunction : Keeps (in_env f) (SortFunction ev).
Proof.
  unfold SortFunction.
  pose proof keeps_FunctionReference. pose proof keeps_push_sort. pose proof keeps_sort_arguments.
  assert (∀ n l, Keeps f (MergeSort (DefaultCompareSwapFunction ev) n l))
    by (intros; by apply keeps_MergeSort, keeps_DefaultCompare).
  walk ltac:(first [solve [eauto 6 with keeps] | keeps_call | keeps_step]).
Qed.
End sorts.

Lemma keeps_tail_DefaultCompare x y :
  (∀ e, Keeps sorts_of (ev e)) → Keeps (fun s => tail (sorts_of s)) (DefaultCompareSwapFunction ev x y).
Proof.
  intros Hev s b s'. unfold DefaultCompareSwapFunction.
  destruct (SortComparisonFunction s) as [|[| | | |fptr args] next] eqn:E.
  all: rewrite (M_bind_Some _ _ _ _ s eq_refl), E; try done.
  intros (u1 & s1 & H1 & H2)%M_bind_inv. injection H1 as _ <-.
  apply M_bind_inv in H2 as (v & s2 & H2 & H3). apply Hev in H2.
  injection H3 as _ <-. unfold sorts_of. simpl. by rewrite E.
Qed.

(** [sort] pushes the comparison function, sorts, and pops it. *)
Lemma keeps_bracket {A} r (m : M (EvalEnv W) A) (k : A → UDF W unit) :
  Keeps (fun s => tail (sorts_of s)) m → (∀ a, Keeps (in_env sorts_of) (k a)) →
  Keeps (in_env sorts_of)
  (_ ← modify_env (with_SortComparisonFunction (cons r)); a ← lift m;
   _ ← modify_env (with_SortComparisonFunction (@tail expr)); k a).
Proof.
  intros Hm Hk [s c] [] s' (u1 & s1 & [= _ <-] & H)%M_bind_inv.
  apply M_bind_inv in H as (a & [s2 c2] & H2 & (u3 & s3 & [= _ <-] & H3)%M_bind_inv).
  apply Hk in H3. rewrite H3. unfold lift in H2.
  destruct (m _) as [[a' s'']|] eqn:E; [|done]. injection H2 as <- <- <-. apply Hm in E. exact E.
Qed.

Lemma SortFunction_pops : (∀ e, Keeps sorts_of (ev e)) → Keeps (in_env sorts_of) (SortFunction ev).
Proof.
  intros Hev. unfold SortFunction.
  pose proof (keeps_FunctionReference sorts_of).
  pose proof (keeps_sort_arguments sorts_of Hev).
  assert (∀ n l, Keeps (fun s => tail (sorts_of s)) (MergeSort (DefaultCompareSwapFunction ev) n l))
    by (intros; apply keeps_MergeSort; intros; by apply keeps_tail_DefaultCompare).
  walk ltac:(first [solve [eauto 6 with keeps] | keeps_call | apply keeps_bracket | keeps_step]).
Qed.
End push_pop.

(** ** The evaluator keeps the four of them *)

Definition frame {W} (s : EvalEnv W) := (current_of s, stack_of s, sorts_of s, functions_of s).

Section evaluator.
Context {W : Type} `{!EvalHost W}.

(** A view that only the push of [loop-for-count] or only that of [sort] can change. *)
Lemma keeps_functionPointer {X} (f : EvalEnv W → X) `{!EnvInsensitive f} ev n fp :
  (∀ e, Keeps f (ev e)) →
  Keeps (in_env f) (LoopForCountFunction ev n) → Keeps (in_env f) (SortFunction ev) →
  Keeps (in_env f) (call_functionPointer ev n fp).
Proof.
  intros Hev Hl Hs. destruct fp.
  all: try done.
  all: try (apply keeps_math; [done|done|by repeat constructor]).
  all: try (apply keeps_predicates; [done|done|by repeat constructor]).
  all: try (apply keeps_procedural; [done|done|by repeat constructor]).
  all: try (apply keeps_wrappers; [done|done|by repeat constructor]).
  all: try (apply keeps_multifield_functions; [done|done|by repeat constructor]).
  all: try (apply keeps_string_functions; [done|done|by repeat constructor]).
  all: first [ by apply (keeps_type_predicate ev f) | by apply (keeps_compare ev f) ].
Qed.

Lemma keeps_run_udf {X} (f : EvalEnv W → X) fptr args m :
  Keeps (in_env f) m → Keeps f (run_udf fptr args m).
Proof.
  intros Hm s u s'. unfold run_udf. destruct (m _) as [[? [s0 c0]]|] eqn:E; [|done].
  intros [= <- <-]. apply (Hm _ _ _ E).
Qed.

Lemma keeps_EvaluateExpression {X} (f : EvalEnv W → X) `{!EnvInsensitive f} :
  (∀ e s, f (with_evaluationData (set_CurrentExpression e) s) = f s) →
  (∀ ev n, (∀ e, Keeps f (ev e)) → Keeps (in_env f) (LoopForCountFunction ev n)) →
  (∀ ev, (∀ e, Keeps f (ev e)) → Keeps (in_env f) (SortFunction ev)) →
  ∀ n e, Keeps f (EvaluateExpression n e).
Proof.
  intros Hcur Hl Hs n. induction n as [|n IH]; intros e; simpl; [apply keeps_undefined|].
  assert (Hput : ∀ e, Keeps f (put_CurrentExpression e)) by (intros; apply keeps_modify, Hcur).
  assert (Hrun : ∀ fptr args, Keeps f (run_udf fptr args
    (call_functionPointer (EvaluateExpression n) n (functionPointer fptr))))
    by (intros; apply keeps_run_udf, keeps_functionPointer; auto).
  assert (Hglob : ∀ p u, Keeps f (QGetDefglobalUDFValue p u))
    by (intros; unfold QGetDefglobalUDFValue, load_global; keeps_auto).
  unfold get_CurrentExpression, GetBoundVariable. keeps_auto.
Qed.

(** The current expression is put back rather than left alone. *)
Lemma keeps_current n e : Keeps current_of (EvaluateExpression (W := W) n e).
Proof.
  destruct n as [|n]; simpl; [apply keeps_undefined|].
  assert (Hback : ∀ (m : M (EvalEnv W) UDFValue) (k : UDFValue → UDFValue), Keeps current_of
    (old ← get_CurrentExpression; _ ← put_CurrentExpression e; u ← m;
    _ ← put_CurrentExpression old; mret (k u))).
  { intros m k s u s' (old & s0 & H1 & H)%M_bind_inv. injection H1 as <- <-.
    apply M_bind_inv in H as (? & s1 & _ & (v & s2 & _ & H)%M_bind_inv).
    apply M_bind_inv in H as (? & s3 & [= _ <-] & [= _ <-]). done. }
  destruct e as [[v|u|b x|p|fptr args]|].
  - destruct v; keeps_auto.
  - keeps_auto.
  - unfold GetBoundVariable.
    assert (Insensitive (current_of (W := W))) by by split. keeps_auto.
  - apply (Hback _ (fun u => u)).
  - apply Hback.
  - keeps_auto.
Qed.

Lemma keeps_frame_parts n e :
  Keeps stack_of (EvaluateExpression (W := W) n e) ∧ Keeps sorts_of (EvaluateExpression n e)
  ∧ Keeps functions_of (EvaluateExpression n e).
Proof.
  assert (EnvInsensitive (functions_of (W := W))) by by split; [split|..].
  split_and!; apply keeps_EvaluateExpression; try done.
  - intros ev m Hev. apply LoopForCount_pops.
  - intros ev Hev. by apply keeps_SortFunction.
  - intros ev m Hev. by apply keeps_LoopForCount.
  - intros ev Hev. by apply SortFunction_pops.
  - intros ev m Hev. by apply keeps_LoopForCount.
  - intros ev Hev. by apply keeps_SortFunction.
Qed.

Lemma keeps_frame n e : Keeps frame (EvaluateExpression (W := W) n e).
Proof.
  intros s u s' H. destruct (keeps_frame_parts n e) as (H1 & H2 & H3).
  unfold frame. by rewrite (keeps_current _ _ _ _ _ H), (H1 _ _ _ H), (H2 _ _ _ H), (H3 _ _ _ H).
Qed.
End evaluator.
