(* ===== verification/EvalLemmas.v ===== *)
(** * More fuel does not change a result

    [Below m1 m2]: every result of [m1] is the result of [m2].  The UDFs are
    monotone in the evaluator they call, hence the evaluator in its fuel.

    Then the interface between the UDFs and the evaluator, [EvaluatorLaws], and
    the access functions of [Args] on argument lists. *)
From S2P Require Import Prelude Values Router Keeps Expr Functions Args Multifield Math Predicates.
From S2P Require Import Procedural Sort UserFunctions MultifieldFunctions StringFunctions.
From S2P Require Import Evaluate EvalLaws.
#[local] Open Scope Z_scope.

(** Any type will do. *)
Lemma type_expected_any v : type_expected ANY_TYPE_BITS v = true.
Proof. destruct v; reflexivity. Qed.

Definition Below {St A} (m1 m2 : M St A) : Prop := ∀ s r, m1 s = Some r → m2 s = Some r.

Section below.
Context {St : Type}.
Lemma below_refl {A} (m : M St A) : Below m m.
Proof. intros s r H. exact H. Qed.
Lemma below_undefined {A} (m : M St A) : Below undefined m.
Proof. intros s r [=]. Qed.
Lemma below_bind {A B} (m1 m2 : M St A) (k1 k2 : A → M St B) :
  Below m1 m2 → (∀ a, Below (k1 a) (k2 a)) → Below (m1 ≫= k1) (m2 ≫= k2).
Proof.
  intros Hm Hk s [b s''] (a & s' & H1 & H2)%M_bind_inv.
  rewrite (M_bind_Some _ _ _ _ _ (Hm _ _ H1)). by apply Hk.
Qed.
Lemma below_whenM b (m1 m2 : M St unit) : Below m1 m2 → Below (whenM b m1) (whenM b m2).
Proof. destruct b; [done|]. intros _. apply below_refl. Qed.
End below.

Lemma below_lift {W A} (m1 m2 : M (EvalEnv W) A) : Below m1 m2 → Below (lift m1) (lift m2).
Proof.
  intros Hm [s c] r. unfold lift. destruct (m1 s) as [[a s']|] eqn:E; [|done].
  by rewrite (Hm _ _ E).
Qed.

(** Follow both codes in step; [tac] knows the leaves. *)
Ltac below tac :=
  repeat first
    [ match goal with |- Below ?m ?m => apply below_refl end
    | match goal with |- Below undefined _ => apply below_undefined end
    | assumption
    | tac
    | match goal with |- ∀ _, _ => intro end
    | match goal with |- Below (?m ≫= _) (?m ≫= _) => apply below_bind; [apply below_refl|intro] end
    | match goal with |- Below (_ ≫= _) (_ ≫= _) => apply below_bind end
    | match goal with |- Below (whenM _ _) (whenM _ _) => apply below_whenM end
    | match goal with |- Below (lift _) (lift _) => apply below_lift end
    | match goal with |- Below (match ?x with _ => _ end) _ => destruct x end ].

Create HintDb below.

Section udfs.
Context {W : Type} `{!EvalHost W} (ev1 ev2 : Evaluator W).
Hypothesis Hev : ∀ e, Below (ev1 e) (ev2 e).

Ltac below_udf := below ltac:(first [apply Hev | solve [eauto with below]]).
Lemma below_NextArgument d t : Below (UDFNextArgument ev1 d t) (UDFNextArgument ev2 d t).
Proof. unfold UDFNextArgument. below_udf. Qed.
#[local] Hint Resolve below_NextArgument : below.
Lemma below_FirstArgument d t : Below (UDFFirstArgument ev1 d t) (UDFFirstArgument ev2 d t).
Proof. unfold UDFFirstArgument. below_udf. Qed.
Lemma below_NthArgument i d t : Below (UDFNthArgument ev1 i d t) (UDFNthArgument ev2 i d t).
Proof. unfold UDFNthArgument. below_udf. Qed.
#[local] Hint Resolve below_FirstArgument below_NthArgument : below.
Lemma below_arg_or_return g1 g2 (k1 k2 : UDFValue → UDF W unit) :
  Below g1 g2 → (∀ u, Below (k1 u) (k2 u)) → Below (arg_or_return g1 k1) (arg_or_return g2 k2).
Proof. intros. unfold arg_or_return. below_udf. Qed.
Lemma below_arg_or_value g1 g2 v (k1 k2 : UDFValue → UDF W unit) :
  Below g1 g2 → (∀ u, Below (k1 u) (k2 u)) → Below (arg_or_value g1 v k1) (arg_or_value g2 v k2).
Proof. intros. unfold arg_or_value. below_udf. Qed.
Lemma below_arguments_loop {A} n t (body : A → UDFValue → UDF W (option A)) a :
  Below (arguments_loop ev1 n t body a) (arguments_loop ev2 n t body a).
Proof. revert a. induction n as [|n IH]; intros a; simpl; below_udf. Qed.
#[local] Hint Resolve below_arguments_loop : below.
Lemma below_for_each {A} t a (body : A → UDFValue → UDF W (option A)) after :
  Below (for_each_argument ev1 t a body after) (for_each_argument ev2 t a body after).
Proof. unfold for_each_argument. below_udf. Qed.
#[local] Hint Resolve below_for_each : below.
Lemma below_eq_loop item l : Below (eq_loop ev1 item l) (eq_loop ev2 item l).
Proof. induction l; simpl; below_udf. Qed.
Lemma below_neq_loop item l : Below (neq_loop ev1 item l) (neq_loop ev2 item l).
Proof. induction l; simpl; below_udf. Qed.
Lemma below_collect l : Below (collect_fields ev1 l) (collect_fields ev2 l).
Proof. induction l; simpl; below_udf. Qed.
#[local] Hint Resolve below_eq_loop below_neq_loop below_collect : below.
Lemma below_StoreInMultifield l : Below (StoreInMultifield ev1 l) (StoreInMultifield ev2 l).
Proof. unfold StoreInMultifield. below_udf. Qed.
Lemma below_QSetDefglobalValue p v b : Below (QSetDefglobalValue ev1 p v b) (QSetDefglobalValue ev2 p v b).
Proof. unfold QSetDefglobalValue. below_udf. Qed.
Lemma below_evaluate_to e : Below (evaluate_to_returnValue ev1 e) (evaluate_to_returnValue ev2 e).
Proof. unfold evaluate_to_returnValue. below_udf. Qed.
#[local] Hint Resolve below_StoreInMultifield below_QSetDefglobalValue below_evaluate_to : below.
Lemma below_while_loop n1 n2 r : (n1 <= n2)%nat → Below (while_loop ev1 n1 r) (while_loop ev2 n2 r).
Proof.
  revert n2 r. induction n1 as [|n1 IH]; intros [|n2] r Hn; simpl; try lia.
  - below_udf.
  - below_udf.
  - assert (IH' : ∀ r, Below (while_loop ev1 n1 r) (while_loop ev2 n2 r)) by (intros; apply IH; lia).
    below_udf.
Qed.
Lemma below_count_loop n1 n2 nxt i e r :
  (n1 <= n2)%nat → Below (count_loop ev1 n1 nxt i e r) (count_loop ev2 n2 nxt i e r).
Proof.
  revert n2 i r. induction n1 as [|n1 IH]; intros [|n2] i r Hn; simpl; try lia.
  - below_udf.
  - below_udf.
  - assert (IH' : ∀ i r, Below (count_loop ev1 n1 nxt i e r) (count_loop ev2 n2 nxt i e r)) by (intros; apply IH; lia).
    below_udf.
Qed.
Lemma below_progn_loop l : Below (progn_loop ev1 l) (progn_loop ev2 l).
Proof. induction l; simpl; below_udf. Qed.
Lemma below_switch_loop v n l : (length l <= n)%nat → Below (switch_loop ev1 v l) (switch_loop ev2 v l).
Proof.
  revert l. induction n as [|n IH]; intros [|e l] Hl; simpl in *; try lia; try apply below_refl.
  destruct l as [|e' l]; simpl in Hl.
  - below_udf.
  - assert (Hr : Below (switch_loop ev1 v l) (switch_loop ev2 v l)) by (apply IH; lia). below_udf.
Qed.
Lemma below_sort_arguments n i : Below (sort_arguments ev1 n i) (sort_arguments ev2 n i).
Proof. revert i. induction n as [|n IH]; intros i; simpl; below_udf. Qed.
Lemma below_DefaultCompare x y : Below (DefaultCompareSwapFunction ev1 x y) (DefaultCompareSwapFunction ev2 x y).
Proof. unfold DefaultCompareSwapFunction. below_udf. Qed.
Lemma below_field_argument l : Below (field_argument ev1 l) (field_argument ev2 l).
Proof. destruct l as [|e [|]]; cbn [field_argument]; below_udf. Qed.
Lemma below_nth_arguments n i t : Below (nth_arguments ev1 n i t) (nth_arguments ev2 n i t).
Proof. revert i. induction n as [|n IH]; intros i; simpl; below_udf. Qed.
Lemma below_delete_members n u : Below (delete_members ev1 n u) (delete_members ev2 n u).
Proof. revert u. induction n as [|n IH]; intros u; simpl; below_udf. Qed.
Lemma below_string_arguments n i o : Below (string_arguments ev1 n i o) (string_arguments ev2 n i o).
Proof. revert i o. induction n as [|n IH]; intros i o; simpl; below_udf. Qed.
End udfs.

Section merge_sort.
Context {St A : Type} (swap1 swap2 : A → A → M St bool).
Hypothesis Hswap : ∀ x y, Below (swap1 x y) (swap2 x y).
Ltac below_sort := below ltac:(first [apply Hswap | solve [eauto with below]]).
Lemma below_merge_loop n l t m c1 e1 c2 e2 :
  Below (merge_loop swap1 n l t m c1 e1 c2 e2) (merge_loop swap2 n l t m c1 e1 c2 e2).
Proof. revert t m c1 c2. induction n as [|n IH]; intros; simpl; below_sort. Qed.
#[local] Hint Resolve below_merge_loop : below.
Lemma below_DoMergeSort n l t s1 e1 s2 e2 :
  Below (DoMergeSort swap1 n l t s1 e1 s2 e2) (DoMergeSort swap2 n l t s1 e1 s2 e2).
Proof. revert l t s1 e1 s2 e2. induction n as [|n IH]; intros; simpl; below_sort. Qed.
#[local] Hint Resolve below_DoMergeSort : below.
Lemma below_MergeSort n l : Below (MergeSort swap1 n l) (MergeSort swap2 n l).
Proof. unfold MergeSort. below_sort. Qed.
End merge_sort.

#[export] Hint Resolve below_NextArgument below_FirstArgument below_NthArgument below_for_each
  below_arguments_loop below_eq_loop below_neq_loop below_StoreInMultifield below_QSetDefglobalValue
  below_evaluate_to below_while_loop below_count_loop below_progn_loop below_sort_arguments
  below_field_argument below_nth_arguments below_delete_members below_string_arguments : below.
#[export] Hint Extern 5 (_ <= _)%nat => lia : below.

Section evaluator.
Context {W : Type} `{!EvalHost W}.

Lemma below_functionPointer (ev1 ev2 : Evaluator W) n1 n2 fp :
  (∀ e, Below (ev1 e) (ev2 e)) → (n1 <= n2)%nat →
  Below (call_functionPointer ev1 n1 fp) (call_functionPointer ev2 n2 fp).
Proof.
  intros Hev Hn.
  assert (Hsort : ∀ n l, Below (MergeSort (DefaultCompareSwapFunction ev1) n l) (MergeSort (DefaultCompareSwapFunction ev2) n l))
    by (intros; apply below_MergeSort; intros; by apply below_DefaultCompare).
  assert (Hsw : ∀ v l, Below (switch_loop ev1 v l) (switch_loop ev2 v l))
    by (intros v l; by apply (below_switch_loop ev1 ev2 Hev v (length l))).
  unfold call_functionPointer; destruct fp;
    unfold AdditionFunction, MultiplicationFunction, SubtractionFunction, DivisionFunction, DivFunction,
    IntegerFunction, FloatFunction, AbsFunction, MinFunction, MaxFunction, first_number_or_return,
    EqFunction, NeqFunction, StringpFunction, SymbolpFunction, LexemepFunction, NumberpFunction,
    FloatpFunction, IntegerpFunction, MultifieldpFunction, ExternalAddresspFunction, type_predicate,
    NotFunction, AndFunction, OrFunction, LessThanOrEqualFunction, GreaterThanOrEqualFunction,
    LessThanFunction, GreaterThanFunction, NumericEqualFunction, NumericNotEqualFunction,
    compare_arguments, OddpFunction, EvenpFunction, IfFunction, WhileFunction, LoopForCountFunction,
    GetLoopCount, BindFunction, PrognFunction, ReturnFunction, BreakFunction, SwitchFunction,
    TryFunction, SortFunction, ClaraEvaluateWrapper, CoireEmitWrapper, CoirePollWrapper,
    CoireMarkWrapper, CoireCountWrapper, CreateFunction, FirstFunction, RestFunction, SubseqFunction,
    DeleteMemberFunction, ReplaceMemberFunction, DeleteFunction, ReplaceFunction, InsertFunction,
    NthFunction, MemberFunction, SubsetpFunction, IntersectionFunction, UnionFunction,
    DifferenceFunction, first_multifield, next_multifield, next_integer,
    StrCatFunction, SymCatFunction, StrOrSymCatFunction, StrLengthFunction, StrByteLengthFunction,
    StrCompareFunction, UpcaseFunction, LowcaseFunction, convert_case, SubStringFunction,
    StrIndexFunction, StrReplaceFunction, first_text, next_text.
  all: below ltac:(first
    [ match goal with |- Below (arg_or_return _ _) _ => apply below_arg_or_return end
    | match goal with |- Below (arg_or_value _ _ _) _ => apply below_arg_or_value end
    | apply Hev | apply Hsort | apply Hsw | solve [eauto with below] ]).
Qed.

Lemma below_run_udf (m1 m2 : UDF W unit) fptr args :
  Below m1 m2 → Below (run_udf fptr args m1) (run_udf fptr args m2).
Proof.
  intros Hm s r. unfold run_udf. destruct (m1 _) as [[? ?]|] eqn:E; [|done]. by rewrite (Hm _ _ E).
Qed.

Lemma below_EvaluateExpression n m e : (n <= m)%nat →
  Below (EvaluateExpression (W := W) n e) (EvaluateExpression m e).
Proof.
  revert m e. induction n as [|n IH]; intros [|m] e Hn; try lia; try apply below_undefined.
  assert (Hfp : ∀ fp, Below (call_functionPointer (EvaluateExpression (W := W) n) n fp)
    (call_functionPointer (EvaluateExpression m) m fp))
    by (intros; apply below_functionPointer; [intros; apply IH|]; lia).
  simpl. below ltac:(first [apply below_run_udf; apply Hfp]).
Qed.
End evaluator.

(** * Running a UDF on its arguments

    The interface between the UDFs and the evaluator, [EvaluatorLaws]; argument
    lists that evaluate without error, [yields]; and what the access functions
    of [Args] do on them.  The theorems on UDFs rest on these lemmas alone. *)

#[local] Open Scope Z_scope.

Definition error_of {W} (s : EvalEnv W) : bool := EvaluationError (evaluationData s).
Definition halt_of {W} (s : EvalEnv W) : bool := HaltExecution (evaluationData s).

(** What a UDF may rely on: constants evaluate to themselves, and an evaluation
    leaves [CurrentExpression] as it was. *)
Class EvaluatorLaws {W} (ev : Evaluator W) := {
  ev_direct e v s : is_direct_constant e = Some v →
    ev (Some e) s = Some (set_uv_value v initial_returnValue, s);
  ev_current e : Keeps current_of (ev e);
}.

#[export] Instance EvaluateExpression_laws {W} `{!EvalHost W} n :
  EvaluatorLaws (EvaluateExpression (W := W) (S n)).
Proof.
  split; [|intros e; apply keeps_current].
  intros e v s He. destruct e as [[]| | | |]; simpl in He; try done; by injection He as <-.
Qed.

(** The arguments [es], evaluated in order from [s], give the values [vs] and
    end in [s']; no evaluation leaves [EvaluationError] set. *)
Inductive yields {W} (ev : Evaluator W) : EvalEnv W → list expr → list value → EvalEnv W → Prop :=
  | yields_nil s : yields ev s [] [] s
  | yields_cons s e u s1 es vs s2 :
      ev (Some e) s = Some (u, s1) → error_of s1 = false → yields ev s1 es vs s2 →
      yields ev s (e :: es) (uv_value u :: vs) s2.

(** An error value of the type the function is declared to return. *)
Definition error_value (bits : Z) (u : UDFValue) : UDFValue :=
  if has_bits bits BOOLEAN_BIT then set_uv_value FalseSymbol u
  else if has_bits bits STRING_BIT then set_uv_value (VString "") u
  else if has_bits bits SYMBOL_BIT then set_uv_value (VSymbol "nil") u
  else if has_bits bits INTEGER_BIT then set_uv_value (VInteger 0) u
  else if has_bits bits FLOAT_BIT then set_uv_value (VFloat (S754_zero false)) u
  else if has_bits bits MULTIFIELD_BIT then mkUDFValue (VMultifield []) 0 0
  else if has_bits bits INSTANCE_NAME_BIT then set_uv_value (VInstanceName "nil") u
  else if has_bits bits FACT_ADDRESS_BIT then set_uv_value (VFactAddress DummyFact) u
  else if has_bits bits INSTANCE_ADDRESS_BIT then set_uv_value (VInstanceAddress DummyInstance) u
  else if has_bits bits EXTERNAL_ADDRESS_BIT then set_uv_value (VExternalAddress None) u
  else set_uv_value VVoid u.

(** Both flags set, and something said on [STDERR]. *)
Definition failed {W} (msg : list output_item) (s : EvalEnv W) : EvalEnv W :=
  with_evaluationData (fun d => set_HaltExecution true (set_EvaluationError true d))
    (with_output (fun o => o ++ msg) s).

(** Entering and leaving a function call. *)
Definition enter {W} (e : option expr) (s : EvalEnv W) : EvalEnv W :=
  with_evaluationData (set_CurrentExpression e) s.

Section calls.
Context {W : Type} `{!EvalHost W}.

(** The range of a whole multifield is its length. *)
Definition returned (u : UDFValue) : UDFValue :=
  match uv_value u with
  | VMultifield contents => if uv_range u =? SIZE_MAX then set_uv_range (Z.of_nat (length contents)) u else u
  | _ => u
  end.

Lemma eval_call n f es s :
  EvaluateExpression (W := W) (S n) (Some (EFcall f es)) s =
  match call_functionPointer (EvaluateExpression n) n (functionPointer f)
          (enter (Some (EFcall f es)) s, mkUDFContext f 1 es initial_returnValue) with
  | Some (_, (s', c)) => Some (returned (ctx_returnValue c), enter (current_of s) s')
  | None => None
  end.
Proof.
  simpl. rewrite (M_bind_Some _ _ s (current_of s) s) by done.
  rewrite (M_bind_Some _ _ s tt (enter (Some (EFcall f es)) s)) by done.
  unfold mbind, M_bind, run_udf.
  destruct (call_functionPointer _ _ _ _) as [[? [s' c]]|]; done.
Qed.
End calls.

Section arguments.
Context {W : Type} (ev : Evaluator W) `{!EvaluatorLaws ev}.

Lemma yields_app s es1 es2 vs s2 :
  yields ev s (es1 ++ es2) vs s2 ↔
  ∃ vs1 vs2 s1, vs = vs1 ++ vs2 ∧ yields ev s es1 vs1 s1 ∧ yields ev s1 es2 vs2 s2.
Proof.
  split.
  - revert s vs. induction es1 as [|e es1 IH]; simpl; intros s vs H.
    + exists [], vs, s. split_and!; [done|constructor|done].
    + inversion H as [|? ? u s1 ? vs' ? He Herr Hys]; subst.
      destruct (IH _ _ Hys) as (vs1 & vs2 & s1' & -> & H1 & H2).
      exists (uv_value u :: vs1), vs2, s1'. split_and!; [done|by econstructor|done].
  - intros (vs1 & vs2 & s1 & -> & H1 & H2). induction H1; simpl; [done|]. econstructor; eauto.
Qed.

Lemma yields_cons_inv s es v vs s' :
  yields ev s es (v :: vs) s' →
  ∃ e es' u s1, es = e :: es' ∧ ev (Some e) s = Some (u, s1) ∧ error_of s1 = false
  ∧ uv_value u = v ∧ yields ev s1 es' vs s'.
Proof. intros H. inversion H; subst. by eauto 10. Qed.
Lemma yields_nil_inv s es s' : yields ev s es [] s' → es = [] ∧ s' = s.
Proof. intros H. by inversion H. Qed.

Lemma yields_current s es vs s' : yields ev s es vs s' → current_of s' = current_of s.
Proof.
  induction 1 as [|s e u s1 es vs s2 He Herr Hys IH]; [done|]. rewrite IH. by eapply ev_current.
Qed.
Lemma yields_length s es vs s' : yields ev s es vs s' → length es = length vs.
Proof. induction 1; simpl; congruence. Qed.
Lemma yields_error s es vs s' : yields ev s es vs s' → error_of s = false → error_of s' = false.
Proof. by induction 1; eauto. Qed.

(** Constants yield themselves. *)
Lemma yields_constants s es vs :
  Forall2 (fun e v => is_direct_constant e = Some v) es vs → error_of s = false → yields ev s es vs s.
Proof.
  induction 1 as [|e v es vs He H IH]; intros Hs; [constructor|].
  apply (yields_cons ev s e (set_uv_value v initial_returnValue) s); auto using ev_direct.
Qed.

Lemma AssignErrorValue_eq s c :
  AssignErrorValue (W := W) (s, c) =
  Some (tt, (s, with_returnValue (error_value (unknownReturnValueType (theFunction c))) c)).
Proof.
  unfold AssignErrorValue, error_value, mbind, M_bind. destruct c as [f p l [v b r]]. simpl.
  by repeat case_match.
Qed.
End arguments.

(** ** Messages *)

(** [m] returns [a] and only appends to the output. *)
Definition Writes {W A} (m : UDF W A) (a : A) : Prop :=
  ∃ msg, ∀ s c, m (s, c) = Some (a, (with_output (fun o => o ++ msg) s, c)).

Section writes.
Context {W : Type}.
Lemma with_output_nil (s : EvalEnv W) : with_output (fun o => o ++ []) s = s.
Proof. destruct s. unfold with_output. simpl. by rewrite app_nil_r. Qed.
Lemma with_output_app a b (s : EvalEnv W) :
  with_output (fun o => o ++ b) (with_output (fun o => o ++ a) s) = with_output (fun o => o ++ (a ++ b)) s.
Proof. destruct s. unfold with_output. simpl. by rewrite app_assoc. Qed.

Lemma writes_ret {A} (a : A) : Writes (W := W) (mret a) a.
Proof. exists []. intros s c. by rewrite with_output_nil. Qed.
Lemma writes_bind {A B} (m : UDF W A) (k : A → UDF W B) a b :
  Writes m a → Writes (k a) b → Writes (m ≫= k) b.
Proof.
  intros [x Hx] [y Hy]. exists (x ++ y). intros s c.
  rewrite (M_bind_Some _ _ _ _ _ (Hx s c)), Hy. by rewrite with_output_app.
Qed.
Lemma writes_string l x : Writes (W := W) (WriteString l x) tt.
Proof. exists [OString l x]. done. Qed.
End writes.

(** Commits to the value of every step, which messages do not depend on. *)
Ltac writes :=
  repeat first
    [ apply writes_string | apply writes_ret | assumption
    | match goal with |- Writes (whenM ?b _) _ => destruct b; simpl end
    | match goal with |- Writes (match ?x with _ => _ end) _ => destruct x end
    | match goal with |- Writes (_ ≫= _) _ => eapply writes_bind end ].

Section messages.
Context {W : Type}.
Lemma writes_PrintErrorID m i b : Writes (W := W) (PrintErrorID m i b) tt.
Proof. unfold PrintErrorID, WriteInteger. writes. Qed.
Lemma writes_ExpectedTypeError0 n i : Writes (W := W) (ExpectedTypeError0 n i) tt.
Proof. unfold ExpectedTypeError0, WriteInteger. eapply writes_bind; [apply writes_PrintErrorID|]. writes. Qed.
Lemma writes_ExpectedTypeError1 n i t : Writes (W := W) (ExpectedTypeError1 n i t) tt.
Proof. unfold ExpectedTypeError1. eapply writes_bind; [apply writes_ExpectedTypeError0|]. writes. Qed.
Lemma writes_DivideByZero n : Writes (W := W) (DivideByZeroErrorMessage n) tt.
Proof. unfold DivideByZeroErrorMessage. eapply writes_bind; [apply writes_PrintErrorID|]. writes. Qed.
Lemma writes_Overflow n : Writes (W := W) (ArgumentOverUnderflowErrorMessage n) tt.
Proof. unfold ArgumentOverUnderflowErrorMessage. eapply writes_bind; [apply writes_PrintErrorID|]. writes. Qed.
Lemma writes_PrintType l c n x : Writes (W := W) (PrintType l c n x) (n + 1).
Proof. unfold PrintType. writes. Qed.
Lemma writes_PrintTypesString l t b : Writes (W := W) (PrintTypesString l t b) tt.
Proof.
  unfold PrintTypesString. cbv zeta.
  assert (Hcond : ∀ (d : bool) c n x, ∃ n', Writes (W := W) (if d then PrintType l c n x else mret n) n').
  { intros [] c n x; [exists (n + 1); apply writes_PrintType|exists n; apply writes_ret]. }
  assert (Hsym : ∀ (d d' : bool) c n x y, ∃ n', Writes (W := W)
    (if d then PrintType l c n x else if d' then PrintType l c n y else mret n) n').
  { intros [] d' c n x y; [exists (n + 1); apply writes_PrintType|apply Hcond]. }
  repeat match goal with
    | |- Writes (?m ≫= _) _ =>
    let n := fresh "n" in let H := fresh "H" in
    assert (∃ n, Writes m n) as [n H] by first [apply Hcond | apply Hsym];
    eapply writes_bind; [exact H|]
    end.
  writes.
Qed.
End messages.

(** ** The access functions *)

Section access.
Context {W : Type} (ev : Evaluator W) `{!EvaluatorLaws ev}.

Lemma failed_with_output msg (s : EvalEnv W) :
  put_HaltExecution true (put_EvaluationError true (put_HaltExecution true (with_output (fun o => o ++ msg) s))) = failed msg s.
Proof. done. Qed.

Lemma type_error_eq p t c : ∃ msg, ∀ s : EvalEnv W,
  UDF_type_error p t (s, c) =
  Some (tt, (failed msg s, with_returnValue (error_value (unknownReturnValueType (theFunction c))) c)).
Proof.
  destruct (writes_PrintTypesString (W := W) STDERR t true) as [y Hy].
  destruct (writes_ExpectedTypeError0 (W := W) (callFunctionName (theFunction c)) p) as [x Hx].
  exists (x ++ y). intros s. unfold UDF_type_error, UDFContextFunctionName.
  rewrite (M_bind_Some _ _ _ (callFunctionName (theFunction c)) (s, c)) by done.
  rewrite (M_bind_Some _ _ _ _ _ (Hx s c)), (M_bind_Some _ _ _ _ _ (Hy _ c)), with_output_app.
  unfold mbind, M_bind. simpl. rewrite AssignErrorValue_eq. done.
Qed.

(** One argument that evaluates without error: accepted when its type is expected. *)
Lemma next_argument_ok s e u s' f p es rv o t :
  ev (Some e) s = Some (u, s') → error_of s' = false → type_expected t (uv_value u) = true →
  ∃ u', uv_value u' = uv_value u ∧
  UDFNextArgument ev (ToLocal o) t (s, mkUDFContext f p (e :: es) rv) =
    Some ((true, Some u'), (s', mkUDFContext f (p + 1) es rv)).
Proof.
  intros He Herr Ht. unfold UDFNextArgument, mbind, M_bind. simpl.
  destruct (is_direct_constant e) as [v|] eqn:Hd.
  - pose proof He as He'. rewrite (ev_direct e v s Hd) in He'. injection He' as <- <-.
    simpl in *. rewrite Ht. eexists. by split; [|done].
  - unfold lift. rewrite He. simpl. unfold error_of in Herr. rewrite Herr, andb_false_r, Ht. by exists u.
Qed.

(** ... and into [returnValue]. *)
Lemma next_argument_returnValue s e u s' f p es rv t :
  ev (Some e) s = Some (u, s') → error_of s' = false → type_expected t (uv_value u) = true →
  ∃ u', uv_value u' = uv_value u ∧
  (is_direct_constant e = None → u' = u) ∧ (is_Some (is_direct_constant e) → u' = set_uv_value (uv_value u) rv) ∧
  UDFNextArgument ev ToReturnValue t (s, mkUDFContext f p (e :: es) rv) =
    Some ((true, None), (s', mkUDFContext f (p + 1) es u')).
Proof.
  intros He Herr Ht. unfold UDFNextArgument, mbind, M_bind. simpl.
  destruct (is_direct_constant e) as [v|] eqn:Hd.
  - pose proof He as He'. rewrite (ev_direct e v s Hd) in He'. injection He' as <- <-.
    simpl in *. rewrite Ht. exists (set_uv_value v rv). split_and!; try done.
  - unfold lift. rewrite He. simpl. unfold error_of in Herr. rewrite Herr, andb_false_r, Ht.
    exists u. split_and!; [done|done| |done]. by intros [? [=]].
Qed.

(** An argument of another type: a message, both flags, an error value. *)
Lemma next_argument_type_error s e u s' f p es rv o t :
  ev (Some e) s = Some (u, s') → error_of s' = false → type_expected t (uv_value u) = false →
  ∃ msg u',
  UDFNextArgument ev (ToLocal o) t (s, mkUDFContext f p (e :: es) rv) =
    Some ((false, u'), (failed msg s', mkUDFContext f (p + 1) es (error_value (unknownReturnValueType f) rv))).
Proof.
  intros He Herr Ht.
  destruct (type_error_eq p t (mkUDFContext f (p + 1) es rv)) as [msg Hmsg]. simpl in Hmsg.
  exists msg. unfold UDFNextArgument, mbind, M_bind. simpl.
  destruct (is_direct_constant e) as [v|] eqn:Hd.
  - pose proof He as He'. rewrite (ev_direct e v s Hd) in He'. injection He' as <- <-.
    simpl in *. rewrite Ht. unfold mbind, M_bind. rewrite Hmsg. eexists. done.
  - unfold lift. rewrite He. simpl. unfold error_of in Herr. rewrite Herr, andb_false_r, Ht.
    unfold mbind, M_bind. rewrite Hmsg. eexists. done.
Qed.

Lemma current_args_eq (s : EvalEnv W) f es c :
  current_of s = Some (EFcall f es) → current_args (s, c) = Some (es, (s, c)).
Proof. intros Hc. unfold current_args, mbind, M_bind. simpl. unfold current_of in Hc. by rewrite Hc. Qed.

Lemma first_argument_eq d t (s : EvalEnv W) f es c :
  current_of s = Some (EFcall f es) →
  UDFFirstArgument ev d t (s, c) = UDFNextArgument ev d t (s, mkUDFContext (theFunction c) 1 es (ctx_returnValue c)).
Proof.
  intros Hc. unfold UDFFirstArgument. rewrite (M_bind_Some _ _ _ _ _ (current_args_eq _ _ _ _ Hc)). done.
Qed.

Lemma skip_to_app es es' i : skip_to (i + Z.of_nat (length es)) i (es ++ es') = (i + Z.of_nat (length es), es').
Proof.
  revert i. induction es as [|e es IH]; intros i; cbn [length app].
  - replace (i + Z.of_nat 0) with i by lia. destruct es'; cbn; [done|]. by rewrite Z.ltb_irrefl.
  - cbn [skip_to]. replace (i <? _) with true by (symmetry; apply Z.ltb_lt; lia).
    replace (i + Z.of_nat (S (length es))) with (i + 1 + Z.of_nat (length es)) by lia. apply IH.
Qed.

(** [UDFNthArgument] goes to the argument at position [n], counted from 1,
    whatever has been read before. *)
Lemma nth_argument_eq d t (s : EvalEnv W) f es1 es2 p l rv :
  current_of s = Some (EFcall f (es1 ++ es2)) →
  (∃ r, es1 ++ es2 = r ++ l ∧ p = 1 + Z.of_nat (length r)) →
  UDFNthArgument ev (1 + Z.of_nat (length es1)) d t (s, mkUDFContext f p l rv) =
  UDFNextArgument ev d t (s, mkUDFContext f (1 + Z.of_nat (length es1)) es2 rv).
Proof.
  intros Hc (r & Hr & Hp). unfold UDFNthArgument. unfold mbind at 1, M_bind at 1. simpl.
  destruct (Z.ltb_spec (1 + Z.of_nat (length es1)) p) as [Hlt|Hge].
  - unfold whenM. unfold mbind, M_bind. rewrite (current_args_eq _ _ _ _ Hc). simpl.
    by rewrite skip_to_app.
  - unfold whenM, mbind, M_bind. simpl.
    assert (∃ k, es1 = r ++ k ∧ l = k ++ es2) as (k & -> & ->).
    { apply app_eq_inv in Hr as [(k & -> & ->)|(k & -> & ->)]; [by exists k|].
      exists []. rewrite length_app in Hp. assert (length k = 0)%nat by lia.
      destruct k; [|done]. by rewrite !app_nil_r. }
    rewrite length_app in *.
    replace (1 + Z.of_nat (length r + length k)) with (p + Z.of_nat (length k)) by lia.
    by rewrite skip_to_app.
Qed.
End access.

(** ** Loops over the arguments *)

Fixpoint foldM {A B} (step : A → B → option A) (a : A) (l : list B) : option A :=
  match l with
  | [] => Some a
  | x :: l => match step a x with Some a' => foldM step a' l | None => None end
  end.

Lemma foldM_app {A B} (step : A → B → option A) a l1 l2 :
  foldM step a (l1 ++ l2) = match foldM step a l1 with Some a' => foldM step a' l2 | None => None end.
Proof. revert a. induction l1 as [|x l1 IH]; intros a; simpl; [done|]. by destruct (step a x). Qed.

Section loops.
Context {W : Type} (ev : Evaluator W) `{!EvaluatorLaws ev}.

(** The state of a loop: its variables and the cell [returnValue]. *)
Context {A : Type} (t : Z) (body : A → UDFValue → UDF W (option A)).

Lemma loop_one s e u s1 f p es rv a n :
  ev (Some e) s = Some (u, s1) → error_of s1 = false → type_expected t (uv_value u) = true →
  ∃ u', uv_value u' = uv_value u ∧
  arguments_loop ev (S n) t body a (s, mkUDFContext f p (e :: es) rv) =
    match body a u' (s1, mkUDFContext f (p + 1) es rv) with
    | Some (Some a', fr) => arguments_loop ev n t body a' fr
    | Some (None, fr) => Some (None, fr)
    | None => None
    end.
Proof.
  intros He Herr Ht.
  destruct (next_argument_ok ev s e u s1 f p es rv None t He Herr Ht) as (u' & Hu & Hn).
  exists u'. split; [done|]. simpl. unfold mbind at 1, M_bind at 1. simpl.
  rewrite (M_bind_Some _ _ _ _ _ Hn). simpl. unfold mbind, M_bind. simpl.
  by destruct (body a u' (s1, mkUDFContext f (p + 1) es rv)) as [[[a'|] fr]|].
Qed.

Lemma loop_type_error s e u s1 f p es rv a n :
  ev (Some e) s = Some (u, s1) → error_of s1 = false → type_expected t (uv_value u) = false →
  ∃ msg, arguments_loop ev (S n) t body a (s, mkUDFContext f p (e :: es) rv) =
  Some (None, (failed msg s1, mkUDFContext f (p + 1) es (error_value (unknownReturnValueType f) rv))).
Proof.
  intros He Herr Ht.
  destruct (next_argument_type_error ev s e u s1 f p es rv None t He Herr Ht) as (msg & o & Hn).
  exists msg. simpl. unfold mbind at 1, M_bind at 1. simpl. by rewrite (M_bind_Some _ _ _ _ _ Hn).
Qed.

Context (step : A * UDFValue → value → option (A * UDFValue)).
Hypothesis body_step : ∀ a u s f p es rv a' rv',
  step (a, rv) (uv_value u) = Some (a', rv') →
  body a u (s, mkUDFContext f p es rv) = Some (Some a', (s, mkUDFContext f p es rv')).

Lemma loop_prefix s es vs s' f p rest rv a a' rv' n :
  yields ev s es vs s' → Forall (fun v => type_expected t v = true) vs →
  foldM step (a, rv) vs = Some (a', rv') →
  arguments_loop ev (length es + n) t body a (s, mkUDFContext f p (es ++ rest) rv) =
  arguments_loop ev n t body a' (s', mkUDFContext f (p + Z.of_nat (length es)) rest rv').
Proof.
  intros Hy. revert p a rv. induction Hy as [s|s e u s1 es vs s2 He Herr Hy IH]; intros p a rv Ht Hf.
  - injection Hf as <- <-. cbn [length app Nat.add]. change (Z.of_nat 0) with 0. by rewrite Z.add_0_r.
  - apply Forall_cons in Ht as [Ht1 Ht]. simpl in Hf.
    destruct (step (a, rv) (uv_value u)) as [[a1 rv1]|] eqn:Hs; [|done].
    destruct (loop_one s e u s1 f p (es ++ rest) rv a (length es + n) He Herr Ht1) as (u' & Hu & Hl).
    cbn [length app Nat.add]. rewrite Hl. rewrite <- Hu in Hs. rewrite (body_step _ _ _ _ _ _ _ _ _ Hs).
    rewrite (IH _ _ _ Ht Hf). do 3 f_equal. lia.
Qed.

Lemma loop_all s es vs s' f p rv a a' rv' :
  yields ev s es vs s' → Forall (fun v => type_expected t v = true) vs →
  foldM step (a, rv) vs = Some (a', rv') →
  arguments_loop ev (length es) t body a (s, mkUDFContext f p es rv) =
  Some (Some a', (s', mkUDFContext f (p + Z.of_nat (length es)) [] rv')).
Proof.
  intros Hy Ht Hf. pose proof (loop_prefix s es vs s' f p [] rv a a' rv' 0 Hy Ht Hf) as H.
  rewrite app_nil_r, Nat.add_0_r in H. exact H.
Qed.

Hypothesis body_undefined : ∀ a u s f p es rv,
  step (a, rv) (uv_value u) = None → body a u (s, mkUDFContext f p es rv) = None.

(** Undefined behaviour at some argument is undefined behaviour of the loop. *)
Lemma loop_undefined s es vs s' f p rv a :
  yields ev s es vs s' → Forall (fun v => type_expected t v = true) vs →
  foldM step (a, rv) vs = None →
  arguments_loop ev (length es) t body a (s, mkUDFContext f p es rv) = None.
Proof.
  intros Hy. revert p a rv. induction Hy as [s|s e u s1 es vs s2 He Herr Hy IH]; intros p a rv Ht Hf; [done|].
  apply Forall_cons in Ht as [Ht1 Ht]. simpl in Hf.
  destruct (loop_one s e u s1 f p es rv a (length es) He Herr Ht1) as (u' & Hu & Hl).
  cbn [length]. rewrite Hl. destruct (step (a, rv) (uv_value u)) as [[a1 rv1]|] eqn:Hs; rewrite <- Hu in Hs.
  - rewrite (body_step _ _ _ _ _ _ _ _ _ Hs). by apply IH.
  - by rewrite (body_undefined _ _ _ _ _ _ _ Hs).
Qed.
End loops.
