(* ===== verification/MathProofs.v ===== *)
(** * Arithmetic, proved

    The running totals of [+] and [*] against sums and products over [Z], the
    quotients of [div], and the numeric comparisons against chains. *)
From Stdlib Require Import Sorted.
From S2P Require Import Prelude Values Router Expr Functions Args Multifield Math Predicates.
From S2P Require Import Procedural Sort UserFunctions Evaluate EvalLaws EvalLemmas.
#[local] Open Scope Z_scope.

Definition is_number (v : value) : bool := match v with VInteger _ | VFloat _ => true | _ => false end.
Definition is_float (v : value) : bool := match v with VFloat _ => true | _ => false end.

(** [CVCoerceToFloat] on a number. *)
Definition to_double (v : value) : double :=
  match v with VFloat d => d | VInteger z => double_of_Z z | _ => S754_nan end.

Lemma type_expected_number v : type_expected NUMBER_BITS v = is_number v.
Proof. by destruct v. Qed.
Lemma numbers_expected vs :
  Forall (fun v => is_number v = true) vs → Forall (fun v => type_expected NUMBER_BITS v = true) vs.
Proof. intros H. eapply Forall_impl; [exact H|]. intros v. by rewrite type_expected_number. Qed.
Lemma integers_are_numbers zs : Forall (fun v => is_number v = true) (VInteger <$> zs).
Proof. by apply Forall_fmap, Forall_true. Qed.

(** ** Running totals *)

Section totals.
Context (zop : Z → Z → Z) (dop : double → double → double).

(** The body of the loops of [AdditionFunction] and [MultiplicationFunction]. *)
Definition total_step (tr : Totals * UDFValue) (v : value) : option (Totals * UDFValue) :=
  let '(t, rv) := tr in
  match v with
  | VInteger z =>
    if useFloatTotal t then Some (mkTotals (dop (ftotal t) (double_of_Z z)) (ltotal t) true, rv)
    else l ← long_long (zop (ltotal t) z); Some (mkTotals (ftotal t) l false, rv)
  | VFloat d =>
    Some (mkTotals (dop (if useFloatTotal t then ftotal t else double_of_Z (ltotal t)) d) (ltotal t) true, rv)
  | _ => None
  end.

(** Integers only: exact while every partial total is a [long long]. *)
Lemma total_integers zs d l rv :
  (∀ k, (k <= length zs)%nat → LLONG_MIN <= fold_left zop (take k zs) l <= LLONG_MAX) →
  foldM total_step (mkTotals d l false, rv) (VInteger <$> zs) =
  Some (mkTotals d (fold_left zop zs l) false, rv).
Proof.
  revert l. induction zs as [|z zs IH]; intros l Hk; [done|].
  cbn [fmap list_fmap foldM total_step]. cbn [useFloatTotal ltotal ftotal].
  rewrite long_long_Some by (apply (Hk 1%nat); simpl; lia). simpl.
  apply IH. intros k Hkl. apply (Hk (S k)). simpl. lia.
Qed.
Lemma total_overflow zs d l rv k :
  LLONG_MIN <= l <= LLONG_MAX → (k <= length zs)%nat → ¬ (LLONG_MIN <= fold_left zop (take k zs) l <= LLONG_MAX) →
  foldM total_step (mkTotals d l false, rv) (VInteger <$> zs) = None.
Proof.
  revert l k. induction zs as [|z zs IH]; intros l k Hl Hk Hout.
  { simpl in Hk. destruct k; [by simpl in Hout|lia]. }
  destruct k as [|k]; [by simpl in Hout|]. simpl in Hk, Hout.
  cbn [fmap list_fmap foldM total_step]. cbn [useFloatTotal ltotal ftotal].
  destruct (decide (LLONG_MIN <= zop l z <= LLONG_MAX)) as [Hin|Hni].
  - rewrite (long_long_Some _ Hin). simpl. apply (IH _ k); [done|lia|done].
  - by rewrite (long_long_None _ Hni).
Qed.
(** Once a float is met, everything is computed in floating point. *)
Lemma total_floats vs d l rv :
  Forall (fun v => is_number v = true) vs →
  ∃ l', foldM total_step (mkTotals d l true, rv) vs = Some (mkTotals (fold_left dop (to_double <$> vs) d) l' true, rv).
Proof.
  intros H. revert d l. induction H as [|v vs Hv H IH]; intros d l; [by exists l|].
  destruct v; try done; cbn [fmap list_fmap foldM total_step]; cbn [useFloatTotal ltotal ftotal]; apply IH.
Qed.
End totals.

Section totals_body.
Context {W : Type} (ev : Evaluator W) (zop : Z → Z → Z) (dop : double → double → double).

(** The common form of the bodies of the two loops. *)
Definition total_body (t : Totals) (theArg : UDFValue) : UDF W (option Totals) :=
  if useFloatTotal t then
  d ← fromOption (CVCoerceToFloat (uv_value theArg));
  mret (Some (mkTotals (dop (ftotal t) d) (ltotal t) true))
  else if CVIsType (uv_value theArg) INTEGER_BIT then
  z ← integer_contents (uv_value theArg);
  l ← fromOption (long_long (zop (ltotal t) z));
  mret (Some (mkTotals (ftotal t) l false))
  else
  d ← fromOption (CVCoerceToFloat (uv_value theArg));
  mret (Some (mkTotals (dop (double_of_Z (ltotal t)) d) (ltotal t) true)).

Lemma total_body_eq t u (s : EvalEnv W) f p es rv :
  total_body t u (s, mkUDFContext f p es rv) =
  match total_step zop dop (t, rv) (uv_value u) with
  | Some (t', rv') => Some (Some t', (s, mkUDFContext f p es rv'))
  | None => None
  end.
Proof.
  unfold total_body, total_step. destruct (uv_value u), (useFloatTotal t) eqn:E; try done.
  simpl. unfold mbind, M_bind. simpl. by destruct (long_long _).
Qed.
End totals_body.

(** What the loops return for integers [zs] followed by the other numbers [fs]. *)
Definition total_value (zop : Z → Z → Z) (dop : double → double → double) (l : Z) (zs : list Z) (fs : list value) : value :=
  match fs with
  | [] => VInteger (fold_left zop zs l)
  | _ => VFloat (fold_left dop (to_double <$> fs) (double_of_Z (fold_left zop zs l)))
  end.
Definition sum_value : list Z → list value → value := total_value Z.add dadd 0.
Definition product_value : list Z → list value → value := total_value Z.mul dmul 1.

(** The loop of [+] and of [*] as one. *)
Section running.
Context {W : Type} `{!EvalHost W} (ev : Evaluator W) `{!EvaluatorLaws ev}.
Context (zop : Z → Z → Z) (dop : double → double → double).

Lemma AdditionFunction_total :
  AdditionFunction ev = for_each_argument ev NUMBER_BITS (mkTotals (S754_zero false) 0 false) (total_body Z.add dadd) return_total.
Proof. done. Qed.
Lemma MultiplicationFunction_total :
  MultiplicationFunction ev = for_each_argument ev NUMBER_BITS (mkTotals (double_of_Z 1) 1 false) (total_body Z.mul dmul) return_total.
Proof. done. Qed.

Lemma total_run d l zs fs rv :
  Forall (fun v => is_number v = true) fs →
  match fs with v :: _ => is_float v = true | [] => True end →
  (∀ k, (k <= length zs)%nat → LLONG_MIN <= fold_left zop (take k zs) l <= LLONG_MAX) →
  ∃ t, foldM (total_step zop dop) (mkTotals d l false, rv) ((VInteger <$> zs) ++ fs) = Some (t, rv)
  ∧ return_total (W := W) t =
    match fs with [] => set_integer (fold_left zop zs l) | _ => set_returnValue (total_value zop dop l zs fs) end.
Proof.
  intros Hfs Hhd Hk. rewrite foldM_app, (total_integers zop dop zs _ _ _ Hk).
  destruct fs as [|v fs]; [by eexists|].
  apply Forall_cons in Hfs as [_ Hfs]. destruct v as [x| | | | | | | | |]; try done.
  cbn [foldM total_step useFloatTotal ltotal ftotal].
  destruct (total_floats zop dop fs (dop (double_of_Z (fold_left zop zs l)) x) (fold_left zop zs l) rv Hfs) as [l' Hl'].
  eexists. split; [exact Hl'|done].
Qed.

Lemma running_total_eq s es d l zs fs s' f p rv :
  yields ev s es ((VInteger <$> zs) ++ fs) s' →
  Forall (fun v => is_number v = true) fs →
  match fs with v :: _ => is_float v = true | [] => True end →
  (∀ k, (k <= length zs)%nat → LLONG_MIN <= fold_left zop (take k zs) l <= LLONG_MAX) →
  (fs = [] → fold_left zop zs l ≠ LLONG_MIN) →
  for_each_argument ev NUMBER_BITS (mkTotals d l false) (total_body zop dop) return_total (s, mkUDFContext f p es rv) =
  Some (tt, (s', mkUDFContext f (p + Z.of_nat (length es)) [] (set_uv_value (total_value zop dop l zs fs) rv))).
Proof.
  intros Hy Hfs Hhd Hk Hleast. unfold for_each_argument.
  rewrite (M_bind_Some _ _ _ (length es) (s, mkUDFContext f p es rv)) by done.
  destruct (total_run d l zs fs rv Hfs Hhd Hk) as (t & Ht & Hr).
  rewrite (M_bind_Some _ _ _ (Some t) (s', mkUDFContext f (p + Z.of_nat (length es)) [] rv)).
  { rewrite Hr. destruct fs; [|done]. rewrite set_integer_eq; [done|]. specialize (Hk (length zs) ltac:(done)).
    rewrite firstn_all in Hk. specialize (Hleast eq_refl). lia. }
  eapply (loop_all ev NUMBER_BITS _ (total_step zop dop)); [|exact Hy| |exact Ht].
  - intros a u s0 f0 p0 es0 rv0 a' rv' Hs. by rewrite total_body_eq, Hs.
  - apply numbers_expected, Forall_app. split; [apply integers_are_numbers|done].
Qed.

(** A total that is the least [long long] is not hashed. *)
Lemma running_total_least s es d l zs s' f p rv :
  yields ev s es (VInteger <$> zs) s' →
  (∀ k, (k <= length zs)%nat → LLONG_MIN <= fold_left zop (take k zs) l <= LLONG_MAX) →
  fold_left zop zs l = LLONG_MIN →
  for_each_argument ev NUMBER_BITS (mkTotals d l false) (total_body zop dop) return_total (s, mkUDFContext f p es rv) = None.
Proof.
  intros Hy Hk Hleast. rewrite <- (app_nil_r (VInteger <$> zs)) in Hy. unfold for_each_argument.
  rewrite (M_bind_Some _ _ _ (length es) (s, mkUDFContext f p es rv)) by done.
  destruct (total_run d l zs [] rv (Forall_nil_2 _) I Hk) as (t & Ht & Hr).
  rewrite (M_bind_Some _ _ _ (Some t) (s', mkUDFContext f (p + Z.of_nat (length es)) [] rv)).
  { rewrite Hr, Hleast. apply set_integer_least. }
  eapply (loop_all ev NUMBER_BITS _ (total_step zop dop)); [|exact Hy| |exact Ht].
  - intros a u s0 f0 p0 es0 rv0 a' rv' Hs. by rewrite total_body_eq, Hs.
  - rewrite app_nil_r. apply numbers_expected, integers_are_numbers.
Qed.

Lemma running_total_overflow s es d l zs s' f p rv k :
  yields ev s es (VInteger <$> zs) s' → LLONG_MIN <= l <= LLONG_MAX →
  (k <= length zs)%nat → ¬ (LLONG_MIN <= fold_left zop (take k zs) l <= LLONG_MAX) →
  for_each_argument ev NUMBER_BITS (mkTotals d l false) (total_body zop dop) return_total (s, mkUDFContext f p es rv) = None.
Proof.
  intros Hy Hl Hk Hout. unfold for_each_argument.
  rewrite (M_bind_Some _ _ _ (length es) (s, mkUDFContext f p es rv)) by done.
  unfold mbind at 1, M_bind at 1.
  rewrite (loop_undefined ev NUMBER_BITS _ (total_step zop dop)) with (vs := VInteger <$> zs) (s' := s').
  - done.
  - intros a u s0 f0 p0 es0 rv0 a' rv' Hs. by rewrite total_body_eq, Hs.
  - intros a u s0 f0 p0 es0 rv0 Hs. by rewrite total_body_eq, Hs.
  - done.
  - apply numbers_expected, integers_are_numbers.
  - by apply (total_overflow zop dop zs _ _ _ k).
Qed.

(** An argument that is not a number, after numbers: the rest is not evaluated. *)
Lemma running_total_type_error s es e rest d l zs fs s1 u s' f p rv :
  yields ev s es ((VInteger <$> zs) ++ fs) s1 →
  Forall (fun v => is_number v = true) fs →
  match fs with v :: _ => is_float v = true | [] => True end →
  (∀ k, (k <= length zs)%nat → LLONG_MIN <= fold_left zop (take k zs) l <= LLONG_MAX) →
  ev (Some e) s1 = Some (u, s') → error_of s' = false → is_number (uv_value u) = false →
  ∃ msg c, for_each_argument ev NUMBER_BITS (mkTotals d l false) (total_body zop dop) return_total (s, mkUDFContext f p (es ++ e :: rest) rv) =
  Some (tt, (failed msg s', c)) ∧ ctx_returnValue c = error_value (unknownReturnValueType f) rv.
Proof.
  intros Hy Hfs Hhd Hk He Herr Hu. unfold for_each_argument. erewrite M_bind_Some by reflexivity. cbn [lastArg snd].
  rewrite length_app. destruct (total_run d l zs fs rv Hfs Hhd Hk) as (t & Ht & Hr).
  unfold mbind, M_bind. cbn [length].
  rewrite (loop_prefix ev NUMBER_BITS (total_body zop dop) (total_step zop dop)) with (vs := (VInteger <$> zs) ++ fs) (s' := s1) (a' := t) (rv' := rv);
    [| |exact Hy| |exact Ht].
  - destruct (loop_type_error ev NUMBER_BITS (total_body zop dop) s1 e u s' f (p + Z.of_nat (length es)) rest rv t (length rest) He Herr) as (msg & ->);
      [by rewrite type_expected_number|].
    by eexists msg, _.
  - intros a u' s0 f0 p0 es0 rv0 a' rv' Hs. by rewrite total_body_eq, Hs.
  - apply numbers_expected, Forall_app. split; [apply integers_are_numbers|done].
Qed.
End running.

(** ** [div] *)

(** The running quotient; [None] when the code reports an error. *)
Fixpoint divide (total : Z) (zs : list Z) : option Z :=
  match zs with
  | [] => Some total
  | z :: zs =>
      if (z =? 0) || ((total =? LLONG_MIN) && (z =? -1)) then None
      else divide (Z.quot total z) zs
  end.

Lemma abs_quot_le x y : y ≠ 0 → Z.abs (Z.quot x y) <= Z.abs x.
Proof.
  intros Hy. rewrite <- Z.quot_abs by done.
  rewrite Z.quot_div_nonneg by (try apply Z.abs_nonneg; pose proof (Z.abs_pos y); lia).
  apply Z.div_le_upper_bound; [lia|]. nia.
Qed.

Lemma quot_in_range x y :
  LLONG_MIN <= x <= LLONG_MAX → y ≠ 0 → ¬ (x = LLONG_MIN ∧ y = -1) → LLONG_MIN <= Z.quot x y <= LLONG_MAX.
Proof.
  intros Hx Hy Hno.
  pose proof (abs_quot_le x y Hy). unfold LLONG_MIN, LLONG_MAX in *.
  destruct (decide (Z.abs x <= 9223372036854775807)) as [|Hb]; [lia|].
  assert (x = -9223372036854775808) as -> by lia.
  destruct (decide (y = 1)) as [->|Hy2]; [rewrite Z.quot_1_r; lia|].
  assert (y ≠ -1) by (intros ->; tauto).
  assert (Z.abs (Z.quot (-9223372036854775808) y) <= 4611686018427387904); [|lia].
  rewrite <- Z.quot_abs by done.
  rewrite Z.quot_div_nonneg by (try apply Z.abs_nonneg; pose proof (Z.abs_pos y); lia).
  change 4611686018427387904 with (Z.abs (-9223372036854775808) / 2).
  apply Z.div_le_compat_l; lia.
Qed.

(** A quotient is no farther from zero than the dividend. *)
Lemma divide_in_range zs total q :
  LLONG_MIN < total <= LLONG_MAX → divide total zs = Some q → LLONG_MIN < q <= LLONG_MAX.
Proof.
  revert total. induction zs as [|z zs IH]; cbn [divide]; intros total Ht; [congruence|].
  destruct (_ || _) eqn:Hz; [done|]. apply IH. apply orb_false_iff in Hz as [Hz _].
  pose proof (abs_quot_le total z). unfold LLONG_MIN, LLONG_MAX in *. lia.
Qed.

(** The loop never gets stuck: it ends with the quotient, or has returned 1 with the error set. *)
Definition div_result {W} (zs : list Z) (total : Z) (s' : EvalEnv W) (rv : UDFValue)
    (r : option (option Z * (EvalEnv W * UDFContext))) : Prop :=
  match divide total zs with
  | Some q => ∃ c, r = Some (Some q, (s', c)) ∧ ctx_returnValue c = rv
  | None => ∃ s'' c, r = Some (None, (s'', c)) ∧ error_of s'' = true ∧ halt_of s'' = true
              ∧ ctx_returnValue c = set_uv_value (VInteger 1) rv
  end.

Section div.
Context {W : Type} `{!EvalHost W} (ev : Evaluator W) `{!EvaluatorLaws ev}.

(** The body of the loop. *)
Definition div_body (total : Z) (theArg : UDFValue) : UDF W (option Z) :=
  theNumber ← fromOption (CVCoerceToInteger (uv_value theArg));
  if theNumber =? 0 then
  _ ← DivideByZeroErrorMessage "div"; _ ← SetEvaluationError true;
  _ ← set_integer 1; mret None
  else if (total =? LLONG_MIN) && (theNumber =? -1) then
  _ ← ArgumentOverUnderflowErrorMessage "div"; _ ← SetEvaluationError true;
  _ ← set_integer 1; mret None
  else
  q ← fromOption (long_long (Z.quot total theNumber)); mret (Some q).

Lemma report_error (m : UDF W unit) s f p es rv :
  Writes m tt →
  ∃ s'' c, (_ ← m; _ ← SetEvaluationError true; _ ← set_integer 1; mret None)
    (s, mkUDFContext f p es rv) = Some (@None Z, (s'', c))
  ∧ error_of s'' = true ∧ halt_of s'' = true ∧ ctx_returnValue c = set_uv_value (VInteger 1) rv.
Proof.
  intros [msg Hm]. rewrite (M_bind_Some _ _ _ _ _ (Hm s _)).
  do 2 eexists. split; [reflexivity|]. done.
Qed.

Lemma div_loop zs s es s' f p rv total :
  LLONG_MIN <= total <= LLONG_MAX → yields ev s es (VInteger <$> zs) s' →
  div_result zs total s' rv
  (arguments_loop ev (length es) NUMBER_BITS div_body total (s, mkUDFContext f p es rv)).
Proof.
  revert s es p total. induction zs as [|z zs IH]; intros s es p total Htot Hy.
  { apply yields_nil_inv in Hy as [-> ->]. eexists. by split. }
  apply yields_cons_inv in Hy as (e & es0 & u & s1 & -> & He & Herr & Hz & Hy).
  assert (Ht : type_expected NUMBER_BITS (uv_value u) = true) by by rewrite Hz.
  destruct (loop_one ev NUMBER_BITS div_body s e u s1 f p es0 rv total (length es0) He Herr Ht) as (u' & Hu & Hl).
  rewrite Hz in Hu.
  cbn [length]. rewrite Hl. unfold div_result. cbn [divide].
  assert (Hb : div_body total u' = (if z =? 0 then _ else _)) by (unfold div_body; rewrite Hu; reflexivity).
  rewrite Hb. clear Hb Hl.
  destruct (z =? 0) eqn:Ez; cbn [orb].
  { destruct (report_error (DivideByZeroErrorMessage "div") s1 f (p + 1) es0 rv (writes_DivideByZero _))
      as (s2 & c & -> & Hrest). eauto. }
  destruct ((total =? LLONG_MIN) && (z =? -1)) eqn:Eo.
  { destruct (report_error (ArgumentOverUnderflowErrorMessage "div") s1 f (p + 1) es0 rv (writes_Overflow _))
      as (s2 & c & -> & Hrest). eauto. }
  assert (Hq : LLONG_MIN <= Z.quot total z <= LLONG_MAX).
  { apply quot_in_range; [done|lia|]. intros [-> ->]. done. }
  rewrite (long_long_Some _ Hq). by apply IH.
Qed.
End div.

(** ** Numeric comparisons *)

(** The comparison of every integer with its predecessor ([advance]) or with the first. *)
Fixpoint chain (holds : Z → Z → bool) (advance : bool) (x : Z) (zs : list Z) : bool :=
  match zs with
  | [] => true
  | y :: zs => holds x y && chain holds advance (if advance then y else x) zs
  end.

Section comparisons.
Context {W : Type} `{!EvalHost W} (ev : Evaluator W) `{!EvaluatorLaws ev}.
Context (fails_int : Z → Z → bool) (fails_float : double → double → bool) (advance : bool).
#[local] Definition holds x y := negb (fails_int x y).

#[local] Definition compare_body (rv1 : value) (rv2 : UDFValue) : UDF W (option value) :=
  fails ← (if CVIsType rv1 INTEGER_BIT && CVIsType (uv_value rv2) INTEGER_BIT then
           x ← integer_contents rv1; y ← integer_contents (uv_value rv2);
           mret (fails_int x y)
         else
           x ← fromOption (CVCoerceToFloat rv1);
           y ← fromOption (CVCoerceToFloat (uv_value rv2));
           mret (fails_float x y));
  if (fails : bool) then _ ← set_returnValue FalseSymbol; mret None
  else mret (Some (if advance then uv_value rv2 else rv1)).

Lemma compare_loop zs s es s' rest f p rv x n :
  yields ev s es (VInteger <$> zs) s' →
  if chain holds advance x zs then
  ∃ y, arguments_loop ev (length es + n) NUMBER_BITS compare_body (VInteger x) (s, mkUDFContext f p (es ++ rest) rv) =
    arguments_loop ev n NUMBER_BITS compare_body (VInteger y) (s', mkUDFContext f (p + Z.of_nat (length es)) rest rv)
  else
  ∃ s'' c, arguments_loop ev (length es + n) NUMBER_BITS compare_body (VInteger x) (s, mkUDFContext f p (es ++ rest) rv) =
    Some (None, (s'', c)) ∧ ctx_returnValue c = set_uv_value FalseSymbol rv.
Proof.
  revert s es p x. induction zs as [|z zs IH]; intros s es p x Hy.
  { apply yields_nil_inv in Hy as [-> ->]. exists x. simpl. by rewrite Z.add_0_r. }
  apply yields_cons_inv in Hy as (e & es0 & u & s1 & -> & He & Herr & Hz & Hy).
  assert (Ht : type_expected NUMBER_BITS (uv_value u) = true) by by rewrite Hz.
  destruct (loop_one ev NUMBER_BITS compare_body s e u s1 f p (es0 ++ rest) rv (VInteger x) (length es0 + n) He Herr Ht)
    as (u' & Hu & Hl). rewrite Hz in Hu.
  cbn [length app Nat.add]. rewrite Hl. clear Hl. cbn [chain]. unfold holds at 1.
  assert (Hb : compare_body (VInteger x) u' (s1, mkUDFContext f (p + 1) (es0 ++ rest) rv) =
    if fails_int x z then Some (None, (s1, mkUDFContext f (p + 1) (es0 ++ rest) (set_uv_value FalseSymbol rv)))
    else Some (Some (VInteger (if advance then z else x)), (s1, mkUDFContext f (p + 1) (es0 ++ rest) rv))).
  { unfold compare_body, mbind, M_bind. rewrite Hu. simpl. by destruct (fails_int x z), advance. }
  rewrite Hb. destruct (fails_int x z); cbn [negb andb]; [by eauto|].
  specialize (IH s1 es0 (p + 1) (if advance then z else x) Hy).
  destruct (chain _ _ _ zs); [|done]. destruct IH as [y ->]. exists y. do 3 f_equal. lia.
Qed.

Lemma compare_arguments_eq z0 zs s es s' rest f rv :
  current_of s = Some (EFcall f (es ++ rest)) → yields ev s es (VInteger <$> z0 :: zs) s' →
  if chain holds advance z0 zs then
  rest = [] → ∃ c, compare_arguments ev fails_int fails_float advance (s, mkUDFContext f 1 (es ++ rest) rv) =
    Some (tt, (s', c)) ∧ ctx_returnValue c = set_uv_value TrueSymbol rv
  else
  ∃ s'' c, compare_arguments ev fails_int fails_float advance (s, mkUDFContext f 1 (es ++ rest) rv) =
    Some (tt, (s'', c)) ∧ ctx_returnValue c = set_uv_value FalseSymbol rv.
Proof.
  intros Hc Hy. apply yields_cons_inv in Hy as (e & es0 & u & s1 & -> & He & Herr & Hz & Hy).
  assert (Ht : type_expected NUMBER_BITS (uv_value u) = true) by by rewrite Hz.
  destruct (next_argument_ok ev s e u s1 f 1 (es0 ++ rest) rv None NUMBER_BITS He Herr Ht) as (u' & Hu & Hn).
  rewrite Hz in Hu.
  assert (Hrun : compare_arguments ev fails_int fails_float advance (s, mkUDFContext f 1 ((e :: es0) ++ rest) rv) =
    match arguments_loop ev (length es0 + length rest) NUMBER_BITS compare_body (VInteger z0) (s1, mkUDFContext f 2 (es0 ++ rest) rv) with
    | Some (Some _, fr) => set_returnValue TrueSymbol fr
    | Some (None, fr) => Some (tt, fr)
    | None => None
    end).
  { unfold compare_arguments, arg_or_return.
    rewrite <- (first_argument_eq ev _ _ _ f (e :: es0 ++ rest) (mkUDFContext f 1 (e :: es0 ++ rest) rv)) in Hn by done.
    cbn [app]. rewrite (M_bind_Some _ _ _ _ _ Hn). cbn beta iota.
    erewrite M_bind_Some by reflexivity. unfold for_each_argument. rewrite Hu.
    erewrite M_bind_Some by reflexivity. cbn [lastArg snd]. rewrite length_app.
    unfold mbind at 1, M_bind at 1. unfold compare_body.
    by destruct (arguments_loop _ _ _ _ _ _) as [[[] ?]|]. }
  pose proof (compare_loop zs s1 es0 s' rest f 2 rv z0 (length rest) Hy) as Hloop.
  destruct (chain _ _ _ _); rewrite Hrun.
  - intros ->. destruct Hloop as [y ->]. eexists. by split.
  - destruct Hloop as (s'' & c & -> & Hrv). by eauto.
Qed.
End comparisons.

(** The six comparison functions on integers: the relation that has to hold,
    and whether an argument is compared with its predecessor. *)
Definition comparison_of (fp : UserDefinedFunction) : option ((Z → Z → bool) * bool) :=
  match fp with
  | fp_LessThanOrEqualFunction => Some (Z.leb, true)
  | fp_GreaterThanOrEqualFunction => Some (Z.geb, true)
  | fp_LessThanFunction => Some (Z.ltb, true)
  | fp_GreaterThanFunction => Some (Z.gtb, true)
  | fp_NumericEqualFunction => Some (Z.eqb, false)
  | fp_NumericNotEqualFunction => Some (fun x y => negb (x =? y), false)
  | _ => None
  end.

Lemma chain_ext h1 h2 advance x zs : (∀ x y, h1 x y = h2 x y) → chain h1 advance x zs = chain h2 advance x zs.
Proof. intros H. revert x. induction zs as [|y zs IH]; intros x; simpl; [done|]. by rewrite H, IH. Qed.

Lemma chain_sorted h x zs : chain h true x zs = true ↔ Sorted (fun x y => h x y = true) (x :: zs).
Proof.
  revert x. induction zs as [|y zs IH]; intros x; simpl.
  - split; [by repeat constructor|done].
  - rewrite andb_true_iff, IH. split.
    + intros [H1 H2]. constructor; [done|by constructor].
    + intros H. inversion H as [|? ? Hs Hh]; subst. by inversion Hh.
Qed.
Lemma chain_forall h x zs : chain h false x zs = true ↔ Forall (fun y => h x y = true) zs.
Proof.
  induction zs as [|y zs IH]; simpl; [split; [constructor|done]|].
  by rewrite andb_true_iff, IH, Forall_cons.
Qed.

Lemma divide_quot total zs q : divide total zs = Some q → q = fold_left Z.quot zs total.
Proof. revert total. induction zs as [|z zs IH]; simpl; intros total H; [congruence|]. case_match; [done|auto]. Qed.

Section calls.
Context {W : Type} `{!EvalHost W} (ev : Evaluator W) `{!EvaluatorLaws ev}.

Lemma DivFunction_eq z0 zs s es s' f rv :
  current_of s = Some (EFcall f es) → yields ev s es (VInteger <$> z0 :: zs) s' →
  LLONG_MIN < z0 <= LLONG_MAX →
  match divide z0 zs with
  | Some q => ∃ c, DivFunction ev (s, mkUDFContext f 1 es rv) = Some (tt, (s', c)) ∧ ctx_returnValue c = set_uv_value (VInteger q) rv
  | None => ∃ s'' c, DivFunction ev (s, mkUDFContext f 1 es rv) = Some (tt, (s'', c))
    ∧ error_of s'' = true ∧ halt_of s'' = true ∧ ctx_returnValue c = set_uv_value (VInteger 1) rv
  end.
Proof.
  intros Hc Hy Hz0. apply yields_cons_inv in Hy as (e & es0 & u & s1 & -> & He & Herr & Hz & Hy).
  assert (Ht : type_expected NUMBER_BITS (uv_value u) = true) by by rewrite Hz.
  destruct (next_argument_ok ev s e u s1 f 1 es0 rv None NUMBER_BITS He Herr Ht) as (u' & Hu & Hn).
  rewrite Hz in Hu.
  rewrite <- (first_argument_eq ev _ _ _ f (e :: es0) (mkUDFContext f 1 (e :: es0) rv)) in Hn by done.
  assert (Hrun : DivFunction ev (s, mkUDFContext f 1 (e :: es0) rv) =
    match arguments_loop ev (length es0) NUMBER_BITS div_body z0 (s1, mkUDFContext f 2 es0 rv) with
    | Some (Some total, fr) => set_integer total fr
    | Some (None, fr) => Some (tt, fr)
    | None => None
    end).
  { unfold DivFunction, arg_or_return. rewrite (M_bind_Some _ _ _ _ _ Hn). cbn beta iota.
    erewrite M_bind_Some by reflexivity. rewrite Hu. erewrite M_bind_Some by reflexivity.
    unfold for_each_argument. erewrite M_bind_Some by reflexivity. cbn [lastArg snd].
    unfold mbind at 1, M_bind at 1. unfold div_body.
    by destruct (arguments_loop _ _ _ _ _ _) as [[[] ?]|]. }
  rewrite Hrun. pose proof (div_loop ev zs s1 es0 s' f 2 rv z0 ltac:(lia) Hy) as Hl. unfold div_result in Hl.
  destruct (divide z0 zs) as [q|] eqn:Hq.
  - destruct Hl as ([f' p' l' rv'] & -> & Hrv). simpl in Hrv. subst rv'.
    rewrite set_integer_eq by (by eapply divide_in_range). eexists. by split.
  - destruct Hl as (s'' & c & -> & Hl). by eauto.
Qed.

Lemma comparison_eq fp h advance z0 zs s es s' rest f rv n :
  comparison_of fp = Some (h, advance) →
  current_of s = Some (EFcall f (es ++ rest)) → yields ev s es (VInteger <$> z0 :: zs) s' →
  if chain h advance z0 zs then
  rest = [] → ∃ c, call_functionPointer ev n fp (s, mkUDFContext f 1 (es ++ rest) rv) = Some (tt, (s', c))
    ∧ ctx_returnValue c = set_uv_value TrueSymbol rv
  else
  ∃ s'' c, call_functionPointer ev n fp (s, mkUDFContext f 1 (es ++ rest) rv) = Some (tt, (s'', c))
    ∧ ctx_returnValue c = set_uv_value FalseSymbol rv.
Proof.
  intros Hfp Hc Hy.
  assert (∃ fi ff, call_functionPointer ev n fp = compare_arguments ev fi ff advance ∧ ∀ x y, h x y = holds fi x y)
    as (fi & ff & -> & Hh).
  { destruct fp; try done; injection Hfp as <- <-; do 2 eexists; (split; [reflexivity|]);
      intros x y; unfold holds; lia. }
  rewrite (chain_ext h (holds fi) _ _ _ Hh). by apply compare_arguments_eq.
Qed.
End calls.
