(* ===== verification/EvalTheorems.v ===== *)
(** * A concrete environment for the evaluator

    A host program that counts its calls, the table of functions built by the
    registration functions, and shorthands for expressions.  The witnesses of
    the theorems on the evaluator run here.

    Then the theorems on the evaluator. *)
From Stdlib Require Import Sorted.
From S2P Require Import Prelude Values Router Keeps Expr Functions Args Multifield Math Predicates.
From S2P Require Import Procedural Sort UserFunctions Evaluate EvalLaws EvalLemmas MathProofs.
#[local] Open Scope Z_scope.

(** The state of the host is the list of the requests it got. *)
#[export] Instance w_host : EvalHost (list string) := {
  theEnv := 1%positive;
  rust_clara_evaluate env input w := ("evaluated", w ++ ["evaluate"; input]);
  rust_coire_emit session origin payload w := ("ok", w ++ ["emit"; session; origin; payload]);
  rust_coire_poll session w := ("[]", w ++ ["poll"; session]);
  rust_coire_mark event w := ("ok", w ++ ["mark"; event]);
  rust_coire_count session w := (Z.of_nat (length w), w);
  voidCallFunction _ w := w;
}.

Definition w_empty : EvalEnv (list string) :=
  mkEvalEnv (mkEvaluationData None false false) (mkProcedureFunctionData false false [] [])
    (mkDefglobalData ∅ false false false) (mkUtilityData true []) [] [] [] [].

Definition w_definitions : M (EvalEnv (list string)) unit :=
  _ ← BasicMathFunctionDefinitions; _ ← PredicateFunctionDefinitions;
  _ ← ProceduralFunctionDefinitions; _ ← SortFunctionDefinitions; _ ← MiscFunctionDefinitions;
  _ ← MultifieldFunctionDefinitions; _ ← StringFunctionDefinitions; UserFunctions.

Definition w_eval : EvalEnv (list string) :=
  Eval vm_compute in match w_definitions w_empty with Some (_, s) => s | None => w_empty end.

Definition w_fn (name : string) : functionDefinition :=
  default (mkFunctionDefinition "" "" 0 fp_BreakFunction None 0 0)
    (head (filter (fun f => callFunctionName f = name) (ListOfFunctions w_eval))).

Definition w_int (z : Z) : expr := EConst (VInteger z).
Definition w_sym (x : string) : expr := EConst (VSymbol x).
Definition w_str (x : string) : expr := EConst (VString x).
Definition w_call (name : string) (args : list expr) : expr := EFcall (w_fn name) args.

Lemma w_eval_builds : w_definitions w_empty = Some (tt, w_eval).
Proof. vm_compute. reflexivity. Qed.

(** Constants as arguments. *)
Lemma w_yields n e s es vs :
  Forall2 (fun e v => is_direct_constant e = Some v) es vs → error_of s = false →
  yields (EvaluateExpression (S n)) (enter e s) es vs (enter (W := list string) e s).
Proof. intros H Hs. by apply yields_constants; [apply _| |]. Qed.

(** * Theorems on the evaluator

    The properties of [EvaluateExpression], of its argument access and of the
    functions it calls, each with a run on the environment above. *)

#[local] Open Scope Z_scope.

(** The evaluator is a partial function of the expression and the state
    alone: whatever a fuel computes, any larger fuel computes too (value, final
    state, output and host state included), so two fuels never disagree. *)
Theorem EvaluateExpression_fuel {W} `{!EvalHost W} n m e (s : EvalEnv W) r1 r2 :
  EvaluateExpression n e s = Some r1 → EvaluateExpression m e s = Some r2 → r1 = r2.
Proof.
  intros H1 H2. destruct (Nat.le_ge_cases n m) as [Hle|Hle].
  - apply (below_EvaluateExpression n m e Hle) in H1. congruence.
  - apply (below_EvaluateExpression m n e Hle) in H2. congruence.
Qed.
Definition w_sum : option expr := Some (w_call "+" [w_int 1; w_call "*" [w_int 2; w_int 3]]).
Lemma EvaluateExpression_fuel_witness :
  ∃ r1 r2, EvaluateExpression 3 w_sum w_eval = Some r1 ∧ EvaluateExpression 40 w_sum w_eval = Some r2 ∧ r1 = r2.
Proof.
  do 2 eexists. split; [vm_compute; reflexivity|]. split; [vm_compute; reflexivity|].
  apply (EvaluateExpression_fuel 3 40 w_sum w_eval); vm_compute; reflexivity.
Defined.

(** C24: whatever an expression does, evaluating it leaves the current
    expression, the stack of loop counters, the stack of comparison functions
    of [sort] and the table of functions as they were. *)
Theorem EvaluateExpression_restores {W} `{!EvalHost W} n e (s : EvalEnv W) u s' :
  EvaluateExpression n e s = Some (u, s') →
  CurrentExpression (evaluationData s') = CurrentExpression (evaluationData s) ∧
  LoopCounterStack (procedureFunctionData s') = LoopCounterStack (procedureFunctionData s) ∧
  SortComparisonFunction s' = SortComparisonFunction s ∧
  ListOfFunctions s' = ListOfFunctions s.
Proof. intros H. apply keeps_frame in H. by injection H. Qed.
Definition w_loop : option expr :=
  Some (w_call "loop-for-count" [w_int 1; w_int 3; w_call "bind" [w_sym "x"; w_call "(get-loop-count)" [w_int 0]]]).
Lemma EvaluateExpression_restores_witness :
  ∃ u s', EvaluateExpression 9 w_loop w_eval = Some (u, s')
    ∧ BindList (procedureFunctionData s') ≠ [] ∧ LoopCounterStack (procedureFunctionData s') = [].
Proof.
  do 2 eexists. split; [vm_compute; reflexivity|]. split; [done|].
  eapply (EvaluateExpression_restores 9 w_loop w_eval). vm_compute. reflexivity.
Defined.

(** Either every partial sum is a [long long], or one is not. *)
Lemma addition_in_range zs :
  (∀ k, (k <= length zs)%nat → LLONG_MIN <= fold_left Z.add (take k zs) 0 <= LLONG_MAX) ∨
  ∃ k, (k <= length zs)%nat ∧ ¬ (LLONG_MIN <= fold_left Z.add (take k zs) 0 <= LLONG_MAX).
Proof.
  destruct (decide (Forall (fun k => LLONG_MIN <= fold_left Z.add (take k zs) 0 <= LLONG_MAX) (seq 0 (S (length zs)))))
    as [HF|HF].
  - left. intros k Hk. rewrite Forall_forall in HF. apply HF, elem_of_seq. lia.
  - right. apply not_Forall_Exists, Exists_exists in HF as (k & Hk%elem_of_seq & Hno); [|apply _].
    exists k. split; [lia|exact Hno].
Qed.

(** C25: [+] on integers [zs] followed by other numbers [fs] (the first of which
    is a float): when every partial sum of the integers is a [long long], the
    result is their exact sum, or, with floats, the left-to-right sum in
    floating point that starts from the exact integer sum.  A sum of integers
    alone that is the least [long long] is excluded: there the code's
    [CreateInteger] has undefined behaviour. *)
Theorem AdditionFunction_correct {W} `{!EvalHost W} n f es (s s' : EvalEnv W) zs fs :
  functionPointer f = fp_AdditionFunction →
  yields (EvaluateExpression (S n)) (enter (Some (EFcall f es)) s) es ((VInteger <$> zs) ++ fs) s' →
  Forall (fun v => is_number v = true) fs → match fs with v :: _ => is_float v = true | [] => True end →
  (∀ k, (k <= length zs)%nat → LLONG_MIN <= fold_left Z.add (take k zs) 0 <= LLONG_MAX) →
  (fs = [] → fold_left Z.add zs 0 ≠ LLONG_MIN) →
  EvaluateExpression (S (S n)) (Some (EFcall f es)) s =
    Some (mkUDFValue (sum_value zs fs) 0 SIZE_MAX, enter (current_of s) s').
Proof.
  intros Hfp Hy Hfs Hhd Hk Hleast. rewrite eval_call, Hfp. unfold call_functionPointer.
  rewrite AdditionFunction_total.
  rewrite (running_total_eq _ Z.add dadd _ _ _ 0 zs fs s' _ _ _ Hy Hfs Hhd Hk Hleast). by destruct fs.
Qed.
Lemma AdditionFunction_correct_witness :
  EvaluateExpression 2 (Some (w_call "+" [w_int 9223372036854775807; w_int (-1); EConst (VFloat (double_of_Z 2))])) w_eval =
    Some (mkUDFValue (VFloat (double_of_Z 9223372036854775808)) 0 SIZE_MAX, w_eval).
Proof.
  eapply eq_trans.
  - apply (AdditionFunction_correct 0 (w_fn "+") _ w_eval
      (enter (Some (w_call "+" [w_int 9223372036854775807; w_int (-1); EConst (VFloat (double_of_Z 2))])) w_eval)
      [9223372036854775807; -1] [VFloat (double_of_Z 2)]).
    + reflexivity.
    + apply w_yields; [|done]. repeat constructor.
    + repeat constructor.
    + done.
    + intros [|[|[|k]]] Hk; vm_compute; split; discriminate.
    + discriminate.
  - vm_compute. reflexivity.
Defined.

(** C26: [+] on integers has undefined behaviour as soon as a partial sum
    leaves the range of [long long], since the code adds without a check, and
    also when the sum is the least [long long], which [CreateInteger] cannot
    hash. *)
Theorem AdditionFunction_overflow_undefined {W} `{!EvalHost W} n f es (s s' : EvalEnv W) zs :
  functionPointer f = fp_AdditionFunction →
  yields (EvaluateExpression (S n)) (enter (Some (EFcall f es)) s) es (VInteger <$> zs) s' →
  (∃ k, (k <= length zs)%nat ∧ ¬ (LLONG_MIN <= fold_left Z.add (take k zs) 0 <= LLONG_MAX)) ∨
    fold_left Z.add zs 0 = LLONG_MIN →
  ∀ m, EvaluateExpression m (Some (EFcall f es)) s = None.
Proof.
  intros Hfp Hy Hout m. destruct (EvaluateExpression m _ s) as [r|] eqn:Hm; [|done]. exfalso.
  apply (below_EvaluateExpression m (max m (S (S n)))) in Hm; [|lia].
  destruct (max m (S (S n))) as [|[|m']] eqn:Emax; [lia|lia|].
  assert (Hy' : yields (EvaluateExpression (S m')) (enter (Some (EFcall f es)) s) es (VInteger <$> zs) s').
  { clear -Hy Emax. induction Hy; [constructor|].
    econstructor; [|done|done]. eapply below_EvaluateExpression; [|done]. lia. }
  rewrite eval_call, Hfp in Hm. unfold call_functionPointer in Hm. rewrite AdditionFunction_total in Hm.
  destruct (addition_in_range zs) as [Hin|(k & Hk & Hno)].
  - destruct Hout as [(k & Hk & Hno)|Hleast]; [by apply Hno, Hin|].
    by rewrite (running_total_least _ Z.add dadd _ _ _ 0 zs s' _ _ _ Hy' Hin Hleast) in Hm.
  - by rewrite (running_total_overflow _ Z.add dadd _ _ _ 0 zs s' _ _ _ k Hy') in Hm.
Qed.
Lemma AdditionFunction_overflow_undefined_witness :
  EvaluateExpression 100 (Some (w_call "+" [w_int 9223372036854775807; w_int 1])) w_eval = None ∧
  EvaluateExpression 100 (Some (w_call "+" [w_int (-9223372036854775807); w_int (-1)])) w_eval = None.
Proof.
  split.
  - apply (AdditionFunction_overflow_undefined 0 (w_fn "+") _ w_eval
      (enter (Some (w_call "+" [w_int 9223372036854775807; w_int 1])) w_eval) [9223372036854775807; 1]).
    + reflexivity.
    + apply w_yields; [|done]. repeat constructor.
    + left. exists 2%nat. split; [simpl; lia|]. vm_compute. intros [_ H]. by apply H.
  - apply (AdditionFunction_overflow_undefined 0 (w_fn "+") _ w_eval
      (enter (Some (w_call "+" [w_int (-9223372036854775807); w_int (-1)])) w_eval) [-9223372036854775807; -1]).
    + reflexivity.
    + apply w_yields; [|done]. repeat constructor.
    + right. reflexivity.
Defined.

(** [div] on integers that [CreateInteger] makes always returns: the quotient
    truncated at every step when no divisor is zero, or 1 with both error
    flags set at the first zero divisor; it has no undefined behaviour, unlike
    [+], [-] and [*]. *)
Theorem DivFunction_total {W} `{!EvalHost W} n f es (s s' : EvalEnv W) z0 zs :
  functionPointer f = fp_DivFunction →
  yields (EvaluateExpression (S n)) (enter (Some (EFcall f es)) s) es (VInteger <$> z0 :: zs) s' →
  LLONG_MIN < z0 <= LLONG_MAX →
  match divide z0 zs with
  | Some q =>
      q = fold_left Z.quot zs z0 ∧
      EvaluateExpression (S (S n)) (Some (EFcall f es)) s =
        Some (mkUDFValue (VInteger q) 0 SIZE_MAX, enter (current_of s) s')
  | None =>
      ∃ s'', EvaluateExpression (S (S n)) (Some (EFcall f es)) s = Some (mkUDFValue (VInteger 1) 0 SIZE_MAX, s'')
        ∧ EvaluationError (evaluationData s'') = true ∧ HaltExecution (evaluationData s'') = true
  end.
Proof.
  intros Hfp Hy Hz0. rewrite eval_call, Hfp. unfold call_functionPointer.
  pose proof (DivFunction_eq (EvaluateExpression (S n)) z0 zs (enter (Some (EFcall f es)) s) es s' f
    initial_returnValue eq_refl Hy Hz0) as Hd.
  destruct (divide z0 zs) as [q|] eqn:Hq.
  - destruct Hd as (c & -> & Hrv). split; [by apply divide_quot|]. by rewrite Hrv.
  - destruct Hd as (s'' & c & -> & He & Hh & Hrv). eexists. rewrite Hrv. done.
Qed.
Lemma DivFunction_total_witness :
  ∃ s'', EvaluateExpression 2 (Some (w_call "div" [w_int 7; w_int 2; w_int 0])) w_eval =
    Some (mkUDFValue (VInteger 1) 0 SIZE_MAX, s'') ∧ EvaluationError (evaluationData s'') = true
    ∧ HaltExecution (evaluationData s'') = true.
Proof.
  apply (DivFunction_total 0 (w_fn "div") _ w_eval
    (enter (Some (w_call "div" [w_int 7; w_int 2; w_int 0])) w_eval) 7 [2; 0]).
  - reflexivity.
  - apply w_yields; [|done]. repeat constructor.
  - split; [reflexivity|discriminate].
Defined.

(** [<=], [>=], [<], [>], [=] and [<>] on integers: [TRUE] exactly when
    every argument is in the relation with its predecessor (with the first
    argument for [=] and [<>]); [FALSE] is returned at the first argument that
    fails, and the arguments [rest] after it are not evaluated. *)
Theorem comparisons_correct {W} `{!EvalHost W} n f h advance es rest (s s' : EvalEnv W) z0 zs :
  comparison_of (functionPointer f) = Some (h, advance) →
  yields (EvaluateExpression (S n)) (enter (Some (EFcall f (es ++ rest))) s) es (VInteger <$> z0 :: zs) s' →
  let run := EvaluateExpression (S (S n)) (Some (EFcall f (es ++ rest))) s in
  (rest = [] → (if advance then Sorted (fun x y => h x y = true) (z0 :: zs) else Forall (fun y => h z0 y = true) zs) →
     run = Some (mkUDFValue TrueSymbol 0 SIZE_MAX, enter (current_of s) s')) ∧
  (¬ (if advance then Sorted (fun x y => h x y = true) (z0 :: zs) else Forall (fun y => h z0 y = true) zs) →
     ∃ s'', run = Some (mkUDFValue FalseSymbol 0 SIZE_MAX, s'')).
Proof.
  intros Hfp Hy run. unfold run. rewrite eval_call.
  assert (Hch : (if advance then Sorted (fun x y => h x y = true) (z0 :: zs) else Forall (fun y => h z0 y = true) zs)
    ↔ chain h advance z0 zs = true) by (destruct advance; symmetry; [apply chain_sorted|apply chain_forall]).
  rewrite Hch. clear Hch.
  pose proof (comparison_eq (EvaluateExpression (S n)) _ h advance z0 zs
    (enter (Some (EFcall f (es ++ rest))) s) es s' rest f initial_returnValue (S n) Hfp eq_refl Hy) as Hd.
  destruct (chain h advance z0 zs).
  - split; [|done]. intros Hrest _. destruct (Hd Hrest) as (c & -> & Hrv). by rewrite Hrv.
  - split; [done|]. intros _. destruct Hd as (s'' & c & -> & Hrv). rewrite Hrv. by eexists.
Qed.
Lemma comparisons_correct_witness :
  ∃ s'', EvaluateExpression 2 (Some (w_call "<" ([w_int 1; w_int 3; w_int 2] ++ [w_call "div" [w_int 1; w_int 0]]))) w_eval =
    Some (mkUDFValue FalseSymbol 0 SIZE_MAX, s'').
Proof.
  apply (comparisons_correct 0 (w_fn "<") Z.ltb true [w_int 1; w_int 3; w_int 2] [w_call "div" [w_int 1; w_int 0]] w_eval
    (enter (Some (w_call "<" ([w_int 1; w_int 3; w_int 2] ++ [w_call "div" [w_int 1; w_int 0]]))) w_eval) 1 [3; 2]).
  - reflexivity.
  - apply w_yields; [|done]. repeat constructor.
  - rewrite <- chain_sorted. vm_compute. discriminate.
Defined.

(** [*] on integers [zs] followed by other numbers [fs] (the first of which
    is a float): the exact product of the integers while every partial product
    is a [long long], continued in floating point from the first float on. *)
Theorem MultiplicationFunction_correct {W} `{!EvalHost W} n f es (s s' : EvalEnv W) zs fs :
  functionPointer f = fp_MultiplicationFunction →
  yields (EvaluateExpression (S n)) (enter (Some (EFcall f es)) s) es ((VInteger <$> zs) ++ fs) s' →
  Forall (fun v => is_number v = true) fs → match fs with v :: _ => is_float v = true | [] => True end →
  (∀ k, (k <= length zs)%nat → LLONG_MIN <= fold_left Z.mul (take k zs) 1 <= LLONG_MAX) →
  (fs = [] → fold_left Z.mul zs 1 ≠ LLONG_MIN) →
  EvaluateExpression (S (S n)) (Some (EFcall f es)) s =
    Some (mkUDFValue (product_value zs fs) 0 SIZE_MAX, enter (current_of s) s').
Proof.
  intros Hfp Hy Hfs Hhd Hk Hleast. rewrite eval_call, Hfp. unfold call_functionPointer. rewrite MultiplicationFunction_total.
  rewrite (running_total_eq _ Z.mul dmul _ _ _ 1 zs fs s' _ _ _ Hy Hfs Hhd Hk Hleast). by destruct fs.
Qed.
Lemma MultiplicationFunction_correct_witness :
  EvaluateExpression 2 (Some (w_call "*" [w_int (-4611686018427387904); w_int 2; EConst (VFloat (double_of_Z (-1)))])) w_eval =
    Some (mkUDFValue (VFloat (double_of_Z 9223372036854775808)) 0 SIZE_MAX, w_eval).
Proof.
  eapply eq_trans.
  - apply (MultiplicationFunction_correct 0 (w_fn "*") _ w_eval
      (enter (Some (w_call "*" [w_int (-4611686018427387904); w_int 2; EConst (VFloat (double_of_Z (-1)))])) w_eval)
      [-4611686018427387904; 2] [VFloat (double_of_Z (-1))]).
    + reflexivity.
    + apply w_yields; [|done]. repeat constructor.
    + repeat constructor.
    + done.
    + intros [|[|[|k]]] Hk; vm_compute; split; discriminate.
    + discriminate.
  - vm_compute. reflexivity.
Defined.

(** [+] and [*] at the first argument that is not a number: both error flags
    are set, the arguments [rest] after it are not evaluated, and the result is
    the error value of the type the function is declared to return, 0 for the
    functions the code registers. *)
Theorem arithmetic_type_error {W} `{!EvalHost W} n f es e rest (s s1 s' : EvalEnv W) zs fs u :
  (functionPointer f = fp_AdditionFunction ∧ (∀ k, (k <= length zs)%nat → LLONG_MIN <= fold_left Z.add (take k zs) 0 <= LLONG_MAX)) ∨
  (functionPointer f = fp_MultiplicationFunction ∧ (∀ k, (k <= length zs)%nat → LLONG_MIN <= fold_left Z.mul (take k zs) 1 <= LLONG_MAX)) →
  yields (EvaluateExpression (S n)) (enter (Some (EFcall f (es ++ e :: rest))) s) es ((VInteger <$> zs) ++ fs) s1 →
  Forall (fun v => is_number v = true) fs → match fs with v :: _ => is_float v = true | [] => True end →
  EvaluateExpression (S n) (Some e) s1 = Some (u, s') → error_of s' = false → is_number (uv_value u) = false →
  ∃ msg, EvaluateExpression (S (S n)) (Some (EFcall f (es ++ e :: rest))) s =
    Some (returned (error_value (unknownReturnValueType f) initial_returnValue), enter (current_of s) (failed msg s')).
Proof.
  intros Hf Hy Hfs Hhd He Herr Hu. rewrite eval_call.
  destruct Hf as [[-> Hk]|[-> Hk]]; unfold call_functionPointer; rewrite ?AdditionFunction_total, ?MultiplicationFunction_total.
  - destruct (running_total_type_error _ Z.add dadd _ es e rest (S754_zero false) 0 zs fs s1 u s' f 1
      initial_returnValue Hy Hfs Hhd Hk He Herr Hu) as (msg & c & -> & ->). by exists msg.
  - destruct (running_total_type_error _ Z.mul dmul _ es e rest (double_of_Z 1) 1 zs fs s1 u s' f 1
      initial_returnValue Hy Hfs Hhd Hk He Herr Hu) as (msg & c & -> & ->). by exists msg.
Qed.
Lemma arithmetic_type_error_witness :
  ∃ msg, EvaluateExpression 2 (Some (w_call "+" ([w_int 1] ++ w_str "x" :: [w_call "clara-evaluate" [w_str "y"]]))) w_eval =
    Some (mkUDFValue (VInteger 0) 0 SIZE_MAX, failed msg w_eval).
Proof.
  destruct (arithmetic_type_error 0 (w_fn "+") [w_int 1] (w_str "x") [w_call "clara-evaluate" [w_str "y"]] w_eval
    (enter (Some (w_call "+" ([w_int 1] ++ w_str "x" :: [w_call "clara-evaluate" [w_str "y"]]))) w_eval)
    (enter (Some (w_call "+" ([w_int 1] ++ w_str "x" :: [w_call "clara-evaluate" [w_str "y"]]))) w_eval)
    [1] [] (mkUDFValue (VString "x") 0 SIZE_MAX)) as [msg H]; try reflexivity.
  - left. split; [reflexivity|]. intros [|[|k]] Hk; vm_compute; split; discriminate.
  - apply w_yields; [|done]. repeat constructor.
  - repeat constructor.
  - exists msg. eapply eq_trans; [exact H|]. reflexivity.
Defined.
