(* ===== verification/SortTheorems.v ===== *)
(** * Merge sort, proved

    The array code of [MergeSort] refines a relation on lists: [msorts l l'] says
    that [l'] is obtained from [l] by splitting, sorting the parts and merging
    them, with the comparisons answered as [R] allows.  Permutation, order and
    stability are then facts about the relation.

    Then the theorems on [MergeSort] and [sort]. *)
From Stdlib Require Import Sorted.
From S2P Require Import Prelude Values Router Expr Functions Args Multifield Math Predicates Procedural.
From S2P Require Import Sort UserFunctions Evaluate EvalLaws EvalLemmas EvalTheorems.
Section relation.
Context {A : Type} (R : A → A → bool → Prop).

Inductive merges : list A → list A → list A → Prop :=
| merges_nil_l l2 : merges [] l2 l2
| merges_nil_r l1 : merges l1 [] l1
| merges_second x l1 y l2 l : R x y true → merges (x :: l1) l2 l → merges (x :: l1) (y :: l2) (y :: l)
| merges_first x l1 y l2 l : R x y false → merges l1 (y :: l2) l → merges (x :: l1) (y :: l2) (x :: l).

Inductive msorts : list A → list A → Prop :=
| msorts_one x : msorts [x] [x]
| msorts_swap x y : R x y true → msorts [x; y] [y; x]
| msorts_keep x y : R x y false → msorts [x; y] [x; y]
| msorts_merge l1 l2 l1' l2' l :
    msorts l1 l1' → msorts l2 l2' → merges l1' l2' l → msorts (l1 ++ l2) l.

Lemma merges_perm l1 l2 l : merges l1 l2 l → l ≡ₚ l1 ++ l2.
Proof.
  induction 1 as [| |x l1 y l2 l _ _ IH|x l1 y l2 l _ _ IH]; [done|by rewrite app_nil_r| |].
  - rewrite IH. simpl. by rewrite <- Permutation_middle, Permutation_swap.
  - by rewrite IH.
Qed.
Lemma msorts_perm l l' : msorts l l' → l' ≡ₚ l.
Proof.
  induction 1 as [| | |l1 l2 l1' l2' l _ IH1 _ IH2 Hm]; [done|apply Permutation_swap|done|].
  by rewrite (merges_perm _ _ _ Hm), IH1, IH2.
Qed.
End relation.

(** ** Order and stability *)

Section order.
Context {A : Type} (swaps : A → A → bool).
(** [swaps x y = false]: [x] may stay before [y].  A total preorder. *)
Hypothesis swaps_total : ∀ x y, swaps x y = true → swaps y x = false.
Hypothesis swaps_trans : ∀ x y z, swaps x y = false → swaps y z = false → swaps x z = false.
#[local] Definition Rs : A → A → bool → Prop := fun x y b => b = swaps x y.
#[local] Definition le x y := swaps x y = false.

Definition equivalent (z x : A) : Prop := swaps z x = false ∧ swaps x z = false.
#[export] Instance equivalent_dec z x : Decision (equivalent z x) := _.

Lemma le_refl x : le x x.
Proof. unfold le. destruct (swaps x x) eqn:E; [|done]. by rewrite (swaps_total _ _ E) in E. Qed.

Lemma merges_sorted l1 l2 l :
  merges Rs l1 l2 l → StronglySorted le l1 → StronglySorted le l2 → StronglySorted le l.
Proof.
  induction 1 as [| |x l1 y l2 l HR Hm IH|x l1 y l2 l HR Hm IH]; [done|done| |]; intros H1 H2.
  - apply StronglySorted_inv in H2 as [Hs2 Hy]. constructor; [by apply IH|].
    rewrite (merges_perm _ _ _ _ Hm). apply Forall_app. split; [|done].
    unfold Rs in HR. symmetry in HR. apply swaps_total in HR.
    apply StronglySorted_inv in H1 as [_ Hx]. constructor; [done|].
    eapply Forall_impl; [exact Hx|]. intros w Hw. by apply (swaps_trans y x w).
  - apply StronglySorted_inv in H1 as [Hs1 Hx]. constructor; [by apply IH|].
    rewrite (merges_perm _ _ _ _ Hm). apply Forall_app. split; [done|].
    constructor; [done|]. apply StronglySorted_inv in H2 as [_ Hy].
    eapply Forall_impl; [exact Hy|]. intros w Hw. by apply (swaps_trans x y w).
Qed.

Lemma filter_none (P : A → Prop) `{!∀ x, Decision (P x)} (l : list A) : Forall (fun x => ¬ P x) l → filter P l = [].
Proof. induction 1 as [|x l Hx _ IH]; [done|]. by rewrite filter_cons_False. Qed.

(** Elements of one class keep their order, those of the first list first. *)
Lemma merges_stable z l1 l2 l :
  merges Rs l1 l2 l → StronglySorted le l1 →
  filter (equivalent z) l = filter (equivalent z) l1 ++ filter (equivalent z) l2.
Proof.
  induction 1 as [| |x l1 y l2 l HR Hm IH|x l1 y l2 l HR Hm IH]; intros Hs; [done|by rewrite app_nil_r| |].
  - specialize (IH Hs). rewrite !(filter_cons _ y). case_decide as Hy; [|done]. rewrite IH.
    rewrite (filter_none (equivalent z) (x :: l1)); [done|].
    apply StronglySorted_inv in Hs as [_ Hx]. unfold Rs in HR. symmetry in HR.
    assert (Hno : ∀ w, swaps x w = false → ¬ equivalent z w).
    { intros w Hw [Hzw Hwz]. destruct Hy as [Hzy Hyz].
      pose proof (swaps_trans w z y Hwz Hzy) as Hwy. pose proof (swaps_trans x w y Hw Hwy). congruence. }
    constructor; [apply Hno, le_refl|]. eapply Forall_impl; [exact Hx|]. exact Hno.
  - apply StronglySorted_inv in Hs as [Hs _]. specialize (IH Hs).
    rewrite (filter_cons _ x l), (filter_cons _ x l1). case_decide; [|done]. simpl. by f_equal.
Qed.

Lemma msorts_sorted l l' : msorts Rs l l' → StronglySorted le l'.
Proof.
  induction 1 as [x|x y HR|x y HR|l1 l2 l1' l2' l _ IH1 _ IH2 Hm]; [by repeat constructor| | |by eapply merges_sorted].
  - repeat constructor. apply swaps_total. symmetry; exact HR.
  - repeat constructor. symmetry; exact HR.
Qed.
Lemma msorts_stable z l l' : msorts Rs l l' → filter (equivalent z) l' = filter (equivalent z) l.
Proof.
  induction 1 as [x|x y HR|x y HR|l1 l2 l1' l2' l Hs1 IH1 Hs2 IH2 Hm]; [done| |done|].
  - rewrite !filter_cons, filter_nil. case_decide as Hy; case_decide as Hx; try done.
    destruct Hx as [Hzx Hxz], Hy as [Hzy Hyz]. unfold Rs in HR. symmetry in HR.
    pose proof (swaps_trans x z y Hxz Hzy). congruence.
  - rewrite (merges_stable z _ _ _ Hm (msorts_sorted _ _ Hs1)), IH1, IH2. by rewrite filter_app.
Qed.
End order.

(** ** The array code *)

Section arrays.
Context {St A : Type} (swapFunction : A → A → M St bool) (P : St → Prop) (Q : A → Prop) (R : A → A → bool → Prop).
(** A comparison of elements in [Q] returns, keeps [P], and answers as [R] allows. *)
Hypothesis swap_runs : ∀ x y s, Q x → Q y → P s → ∃ b s', swapFunction x y s = Some (b, s') ∧ P s' ∧ R x y b.

(** The elements from position [c] on begin with [l]. *)
#[local] Definition seg (a : list A) (c : nat) (l : list A) : Prop := ∀ i x, l !! i = Some x → a !! (c + i)%nat = Some x.
Lemma seg_cons a c x l : seg a c (x :: l) → a !! c = Some x ∧ seg a (c + 1) l.
Proof.
  intros H. split; [rewrite <- (Nat.add_0_r c); by apply H|].
  intros i y Hi. replace (c + 1 + i)%nat with (c + S i)%nat by lia. by apply H.
Qed.
Lemma seg_middle (pre l post : list A) : seg (pre ++ l ++ post) (length pre) l.
Proof. intros i x Hi. rewrite lookup_app_r by lia. replace (_ - _)%nat with i by lia. by apply lookup_app_l_Some. Qed.

(** The temporary array holds [l] from [m] on, and below [m] what [t0] holds. *)
#[local] Definition filled (t0 t : list (option A)) (m : nat) (l : list A) : Prop :=
  length t = length t0 ∧ (∀ i x, l !! i = Some x → t !! (m + i)%nat = Some (Some x))
  ∧ (∀ j, (j < m)%nat → t !! j = t0 !! j).

Lemma filled_cons t0 t m x l :
  (m < length t0)%nat → filled (<[m := Some x]> t0) t (m + 1) l → filled t0 t m (x :: l).
Proof.
  intros Hm (Hlen & Hl & Hj). rewrite length_insert in Hlen. split_and!; [done| |].
  - intros [|i] y Hi; simpl in Hi.
    + injection Hi as <-. rewrite Nat.add_0_r, Hj by lia. apply list_lookup_insert_eq. lia.
    + replace (m + S i)%nat with (m + 1 + i)%nat by lia. by apply Hl.
  - intros j Hjm. rewrite Hj by lia. apply list_lookup_insert_ne. lia.
Qed.

Lemma read_seg a c x l (s : St) : seg a c (x :: l) → read a c s = Some (x, s).
Proof. intros H. unfold read. by rewrite (proj1 (seg_cons _ _ _ _ H)). Qed.
Lemma write_temp_eq t i x (s : St) : (i < length t)%nat → write_temp t i x s = Some (<[i := Some (x : A)]> t, s).
Proof. intros H. unfold write_temp. by rewrite (proj2 (Nat.ltb_lt _ _) H). Qed.

Lemma merge_loop_spec n a t m c1 e1 c2 e2 l1 l2 s :
  P s → Forall Q l1 → Forall Q l2 → seg a c1 l1 → seg a c2 l2 → (e1 + 1 = c1 + length l1)%nat → (e2 + 1 = c2 + length l2)%nat →
  n = (length l1 + length l2)%nat → (m + n <= length t)%nat →
  ∃ l t' s', merge_loop swapFunction n a t m c1 e1 c2 e2 s = Some (t', s') ∧ P s'
    ∧ merges R l1 l2 l ∧ filled t t' m l.
Proof.
  revert t m c1 c2 l1 l2 s. induction n as [|n IH]; intros t m c1 c2 l1 l2 s HP HQ1 HQ2 H1 H2 He1 He2 Hn Ht.
  { destruct l1, l2; simpl in *; try lia. exists [], t, s. split_and!; [done|done|constructor|]. by split_and!. }
  (* one element goes to the temporary array, the rest by induction *)
    assert (Hstep : ∀ x l1' l2' c1' c2' s1, P s1 → Forall Q l1' → Forall Q l2' → seg a c1' l1' → seg a c2' l2' →
    (e1 + 1 = c1' + length l1')%nat → (e2 + 1 = c2' + length l2')%nat → n = (length l1' + length l2')%nat →
    (∀ l, merges R l1' l2' l → merges R l1 l2 (x :: l)) →
    ∃ l t' s', (tempList ← write_temp t m x; merge_loop swapFunction n a tempList (m + 1) c1' e1 c2' e2) s1 = Some (t', s')
    ∧ P s' ∧ merges R l1 l2 l ∧ filled t t' m l).
  { intros x l1' l2' c1' c2' s1 HP1 Hq1 Hq2 Hs1 Hs2 Hc1 Hc2 Hn' Hm.
    destruct (IH (<[m := Some x]> t) (m + 1)%nat c1' c2' l1' l2' s1) as (l & t' & s' & Hrun & HP' & Hmg & Hf);
      try done; [rewrite length_insert; lia|].
    exists (x :: l), t', s'. rewrite (M_bind_Some _ _ _ _ _ (write_temp_eq t m x s1 ltac:(lia))).
    split_and!; [done|done|by apply Hm|]. apply filled_cons; [lia|done]. }
  simpl. destruct l1 as [|x l1].
  - simpl in He1. rewrite (proj2 (Nat.ltb_lt e1 c1)) by lia. destruct l2 as [|y l2]; [simpl in Hn; lia|].
    apply Forall_cons in HQ2 as [_ HQ2]. rewrite (M_bind_Some _ _ _ _ _ (read_seg _ _ _ _ s H2)). simpl in He2, Hn.
    apply (Hstep y [] l2 c1 (c2 + 1)%nat);
      try done; try (simpl; lia); [by apply seg_cons in H2 as [_ ?]|].
    intros l Hl. inversion Hl; subst; constructor.
  - simpl in He1. rewrite (proj2 (Nat.ltb_ge e1 c1)) by lia. destruct l2 as [|y l2].
    + simpl in He2, Hn. rewrite (proj2 (Nat.ltb_lt e2 c2)) by lia.
      apply Forall_cons in HQ1 as [_ HQ1]. rewrite (M_bind_Some _ _ _ _ _ (read_seg _ _ _ _ s H1)).
      apply (Hstep x l1 [] (c1 + 1)%nat c2);
        try done; try (simpl; lia); [by apply seg_cons in H1 as [_ ?]|].
      intros l Hl. inversion Hl; subst; constructor.
    + simpl in He2, Hn. rewrite (proj2 (Nat.ltb_ge e2 c2)) by lia.
      rewrite (M_bind_Some _ _ _ _ _ (read_seg _ _ _ _ s H1)), (M_bind_Some _ _ _ _ _ (read_seg _ _ _ _ s H2)).
      assert (HQ1' := HQ1). assert (HQ2' := HQ2).
      apply Forall_cons in HQ1' as [Hqx Hql1]. apply Forall_cons in HQ2' as [Hqy Hql2].
      destruct (swap_runs x y s Hqx Hqy HP) as ([] & s1 & Hsw & HP1 & HR); rewrite (M_bind_Some _ _ _ _ _ Hsw).
      * apply (Hstep y (x :: l1) l2 c1 (c2 + 1)%nat);
          try done; try (simpl; lia); [by apply seg_cons in H2 as [_ ?]|].
        intros l Hl. by constructor.
      * apply (Hstep x l1 (y :: l2) (c1 + 1)%nat c2);
          try done; try (simpl; lia); [by apply seg_cons in H1 as [_ ?]|].
        intros l Hl. by constructor.
Qed.

Lemma copy_back_spec n (a : list A) (t : list (option A)) c l (s : St) :
  (∀ i x, l !! i = Some x → t !! (c + i)%nat = Some (Some x)) → n = length l → (c + n <= length a)%nat →
  copy_back n a t c s = Some (take c a ++ l ++ drop (c + n) a, s).
Proof.
  revert a c l. induction n as [|n IH]; intros a c l Ht Hn Hc.
  { destruct l; [|done]. simpl. by rewrite Nat.add_0_r, take_drop. }
  destruct l as [|x l]; [done|]. simpl in Hn. simpl.
  pose proof (Ht 0%nat x eq_refl) as Hx. rewrite Nat.add_0_r in Hx. rewrite Hx. cbn [mjoin option_join].
  rewrite (M_bind_Some _ _ _ x s) by done.
  destruct (lookup_lt_is_Some_2 a c) as [y Hy]; [lia|].
  rewrite (M_bind_Some _ _ _ y s) by (unfold read; by rewrite Hy).
  rewrite (IH _ _ l); [| |lia|rewrite length_insert; lia].
  - f_equal. f_equal. rewrite drop_insert_lt by lia.
    replace (c + 1 + n)%nat with (c + S n)%nat by lia.
    replace (take (c + 1) (<[c:=x]> a)) with (take c a ++ [x]); [by rewrite <- app_assoc|].
    rewrite Nat.add_1_r, (take_S_r _ _ x) by (apply list_lookup_insert_eq; lia).
    by rewrite take_insert_ge.
  - intros i z Hi. replace (c + 1 + i)%nat with (c + S i)%nat by lia. by apply Ht.
Qed.

(** What [DoMergeSort] does to one of its two areas. *)
#[local] Definition sort_area (fuel : nat) (theList : list A) (tempList : list (option A)) (s1 e1 : nat) : M St (list A * list (option A)) :=
  if (s1 =? e1)%nat then mret (theList, tempList)
  else if (s1 + 1 =? e1)%nat then
    x ← read theList s1; y ← read theList e1;
    swap ← swapFunction x y;
    theList ← (if (swap : bool) then exchange theList s1 e1 else mret theList);
    mret (theList, tempList)
  else
    let size := (e1 - s1 + 1)%nat in
    let middle := (s1 + (size + 1) / 2)%nat in
    DoMergeSort swapFunction fuel theList tempList s1 (middle - 1) middle e1.

(** The area at [pre] holding [l] is sorted into [l']. *)
#[local] Definition sorts_area (m : M St (list A * list (option A))) (pre l post : list A) (n : nat) : Prop :=
  ∀ s, P s → ∃ l' t' s', m s = Some ((pre ++ l' ++ post, t'), s') ∧ P s' ∧ length t' = n ∧ msorts R l l'.

Lemma exchange_eq (pre post : list A) x y (s : St) :
  exchange (pre ++ [x; y] ++ post) (length pre) (length pre + 1) s = Some (pre ++ [y; x] ++ post, s).
Proof.
  unfold exchange, read.
  assert (H1 : (pre ++ [x; y] ++ post) !! length pre = Some x) by (rewrite lookup_app_r, Nat.sub_diag; done).
  assert (H2 : (pre ++ [x; y] ++ post) !! (length pre + 1)%nat = Some y)
    by (rewrite lookup_app_r by lia; by replace (length pre + 1 - length pre)%nat with 1%nat by lia).
  rewrite H1, H2. erewrite !M_bind_Some by reflexivity. do 2 f_equal.
  rewrite insert_app_r_alt, Nat.sub_diag by lia. simpl.
  rewrite insert_app_r_alt by lia. by replace (length pre + 1 - length pre)%nat with 1%nat by lia.
Qed.

(** [DoMergeSort] on two adjacent areas, when it is right on smaller ones. *)
Lemma DoMergeSort_step fuel t pre l1 l2 post :
  let a := pre ++ (l1 ++ l2) ++ post in
  l1 ≠ [] → l2 ≠ [] → Forall Q l1 → Forall Q l2 →
  (∀ pre' l post' t', (0 < length l)%nat → Forall Q l → (length l <= length l1 ∨ length l <= length l2)%nat →
     length t' = length t → length (pre' ++ l ++ post') = length t →
     sorts_area (sort_area fuel (pre' ++ l ++ post') t' (length pre') (length pre' + length l - 1)) pre' l post' (length t)) →
  length a = length t →
  sorts_area (DoMergeSort swapFunction (S fuel) a t (length pre) (length pre + length l1 - 1)
    (length pre + length l1) (length pre + length l1 + length l2 - 1)) pre (l1 ++ l2) post (length t).
Proof.
  intros a Hn1 Hn2 HQ1 HQ2 Hsort Ha s HP.
  assert (0 < length l1 ∧ 0 < length l2)%nat as [Hl1 Hl2] by (destruct l1, l2; simpl; [done..|lia]).
  assert (Ha1 : a = pre ++ l1 ++ (l2 ++ post)) by (unfold a; by rewrite <- app_assoc).
  destruct (Hsort pre l1 (l2 ++ post) t Hl1 HQ1 (or_introl (le_n _)) eq_refl) with (s := s) as (l1' & t1 & s1 & Hrun1 & HP1 & Ht1 & Hm1);
    [by rewrite <- Ha1|done|].
  pose proof (Permutation_length (msorts_perm R _ _ Hm1)) as Hlen1.
  destruct (Hsort (pre ++ l1') l2 post t1 Hl2 HQ2 (or_intror (le_n _)) Ht1) with (s := s1) as (l2' & t2 & s2 & Hrun2 & HP2 & Ht2 & Hm2);
    [rewrite <- Ha, Ha1, !length_app; lia|done|].
  pose proof (Permutation_length (msorts_perm R _ _ Hm2)) as Hlen2.
  set (b := (pre ++ l1') ++ l2' ++ post) in *.
  assert (Hb : length b = length t) by (unfold b; rewrite <- Ha, Ha1, !length_app; lia).
  destruct (merge_loop_spec (length l1' + length l2') b t2 (length pre) (length pre) (length pre + length l1 - 1)
    (length pre + length l1) (length pre + length l1 + length l2 - 1) l1' l2' s2) as (l & t3 & s3 & Hrun3 & HP3 & Hmg & Hf);
    [done|by rewrite (msorts_perm R _ _ Hm1)|by rewrite (msorts_perm R _ _ Hm2)| | |lia|lia|done| |].
  { unfold b. rewrite <- app_assoc. apply seg_middle. }
  { unfold b. rewrite <- Hlen1, <- length_app. apply seg_middle. }
  { rewrite Ht2, <- Hb. unfold b. rewrite !length_app. lia. }
  destruct Hf as (Ht3 & Hfill & _).
  pose proof (Permutation_length (merges_perm R _ _ _ Hmg)) as Hlen. rewrite length_app in Hlen.
  exists l, t3, s3. split_and!; [|done|congruence|by econstructor].
  cbn [DoMergeSort].
  change (if (length pre =? length pre + length l1 - 1)%nat then _ else _)
    with (sort_area fuel a t (length pre) (length pre + length l1 - 1)).
  rewrite Ha1, (M_bind_Some _ _ _ _ _ Hrun1). cbn beta iota.
  rewrite app_assoc.
  change (if (length pre + length l1 =? length pre + length l1 + length l2 - 1)%nat then _ else _)
    with (sort_area fuel ((pre ++ l1') ++ l2 ++ post) t1 (length pre + length l1) (length pre + length l1 + length l2 - 1)).
  rewrite length_app, Hlen1 in Hrun2. rewrite (M_bind_Some _ _ _ _ _ Hrun2). cbn beta iota. fold b.
  replace (length pre + length l1 + length l2 - 1 + 1 - length pre)%nat with (length l1' + length l2')%nat by lia.
  rewrite (M_bind_Some _ _ _ _ _ Hrun3).
  rewrite (M_bind_Some _ _ _ _ _ (copy_back_spec (length l1' + length l2') b t3 (length pre) l s3
    Hfill ltac:(lia) ltac:(unfold b; rewrite !length_app; lia))).
  unfold b. rewrite <- app_assoc, take_app_length. do 4 f_equal.
  rewrite !app_assoc. rewrite drop_app_length'; [done|]. rewrite !length_app. lia.
Qed.

(** The driver of an area of at least three elements splits it in two. *)
Lemma split_middle (l : list A) :
  (2 < length l)%nat →
  let k := ((length l + 1) / 2)%nat in
  length (take k l) = k ∧ length (drop k l) = (length l - k)%nat ∧ (0 < k < length l)%nat.
Proof.
  intros Hl k.
  assert (0 < k < length l)%nat.
  { unfold k. split; [apply Nat.div_str_pos; lia|apply Nat.div_lt_upper_bound; lia]. }
  rewrite length_take, length_drop. lia.
Qed.

Lemma sort_area_spec fuel pre l post t :
  Forall Q l → (0 < length l <= fuel + 2)%nat → length (pre ++ l ++ post) = length t →
  sorts_area (sort_area fuel (pre ++ l ++ post) t (length pre) (length pre + length l - 1)) pre l post (length t).
Proof.
  revert pre l post t. induction fuel as [|fuel IH]; intros pre l post t HQ Hl Ha s HP.
  all: destruct l as [|x [|y [|z l]]]; simpl in Hl; try lia; unfold sort_area.
  all: try (replace (length pre =? length pre + length [x] - 1)%nat with true
    by (symmetry; apply Nat.eqb_eq; simpl; lia); do 3 eexists; split_and!; [done|done|done|constructor]).
  1, 2: replace (length pre =? length pre + length [x; y] - 1)%nat with false by (symmetry; apply Nat.eqb_neq; simpl; lia);
    replace (length pre + length [x; y] - 1)%nat with (length pre + 1)%nat by (simpl; lia);
    rewrite Nat.eqb_refl;
    erewrite M_bind_Some by (unfold read; rewrite lookup_app_r, Nat.sub_diag by lia; reflexivity);
    erewrite M_bind_Some by (unfold read; rewrite lookup_app_r by lia;
    replace (length pre + 1 - length pre)%nat with 1%nat by lia; reflexivity);
    apply Forall_cons in HQ as [Hqx [Hqy _]%Forall_cons];
    destruct (swap_runs x y s Hqx Hqy HP) as ([] & s1 & Hsw & HP1 & HR); rewrite (M_bind_Some _ _ _ _ _ Hsw);
    [rewrite (M_bind_Some _ _ _ _ _ (exchange_eq pre post x y s1)); exists [y; x] |exists [x; y]];
    do 2 eexists; (split_and!; [done|done|done|by constructor]).
  set (l3 := x :: y :: z :: l) in *. assert (Hl3 : (2 < length l3)%nat) by (simpl; lia).
  destruct (split_middle l3 Hl3) as (Hk1 & Hk2 & Hk). set (k := ((length l3 + 1) / 2)%nat) in *.
  assert (Hkup : (k <= fuel + 2 ∧ length l3 - k <= fuel + 2)%nat).
  { assert (length l3 <= S fuel + 2)%nat by (simpl; lia). split; [|lia]. unfold k. apply Nat.Div0.div_le_upper_bound. lia. }
  rewrite (proj2 (Nat.eqb_neq _ _)) by lia. rewrite (proj2 (Nat.eqb_neq _ _)) by lia. cbv zeta.
  replace (length pre + length l3 - 1 - length pre + 1)%nat with (length l3) by lia. fold k.
  pose proof (DoMergeSort_step fuel t pre (take k l3) (drop k l3) post) as Hstep. cbv zeta in Hstep.
  rewrite take_drop, Hk1, Hk2 in Hstep.
  replace (length pre + length l3 - 1)%nat with (length pre + k + (length l3 - k) - 1)%nat by lia.
  apply Hstep; [| |by apply Forall_take|by apply Forall_drop| |done|done].
  1, 2: intros H; apply (f_equal length) in H; rewrite ?Hk1, ?Hk2 in H; change (length (@nil A)) with 0%nat in H; lia.
  intros pre' l' post' t' Hpos HQ' Hle Ht' Ha'. rewrite <- Ht'. apply IH; [done|lia|congruence].
Qed.

Lemma MergeSort_spec l s :
  P s → Forall Q l → l ≠ [] → ∃ l' s', MergeSort swapFunction (length l) l s = Some (l', s') ∧ P s' ∧ msorts R l l'.
Proof.
  intros HP HQ Hn. unfold MergeSort. destruct l as [|x [|y l]]; [done| |].
  { exists [x], s. split_and!; [done|done|constructor]. }
  set (l2 := x :: y :: l) in *. assert (Hl2 : (2 <= length l2)%nat) by (simpl; lia).
  rewrite (proj2 (Nat.leb_gt _ _)) by lia. cbv zeta. set (k := ((length l2 + 1) / 2)%nat).
  assert (Hk : (0 < k < length l2)%nat).
  { unfold k. split; [apply Nat.div_str_pos; lia|].
    apply Nat.div_lt_upper_bound; [lia|]. lia. }
  destruct (length l2) as [|fuel] eqn:Hlen; [lia|].
  pose proof (DoMergeSort_step fuel (replicate (S fuel) None) [] (take k l2) (drop k l2) []) as Hstep.
  cbv zeta in Hstep. rewrite take_drop, app_nil_r, length_take, length_drop, Hlen, length_replicate in Hstep.
  cbn [length app Nat.add] in Hstep. replace (k `min` S fuel)%nat with k in Hstep by lia.
  replace (k + (S fuel - k) - 1)%nat with (S fuel - 1)%nat in Hstep by lia.
  destruct Hstep with (s := s) as (l' & t' & s' & Hrun & HP' & _ & Hm).
  - intros H. apply (f_equal length) in H. rewrite length_take, Hlen in H. simpl in H. lia.
  - intros H. apply (f_equal length) in H. rewrite length_drop, Hlen in H. simpl in H. lia.
  - by apply Forall_take.
  - by apply Forall_drop.
  - intros pre' l' post' t' Hpos HQ' Hle Ht' Ha'. pose proof (sort_area_spec fuel pre' l' post' t') as H. rewrite Ht' in H. apply H; [done|lia|done].
  - done.
  - done.
  - exists l', s'. rewrite (M_bind_Some _ _ _ _ _ Hrun). by rewrite app_nil_r.
Qed.
End arrays.

(** * Theorems on sorting

    [MergeSort] with an arbitrary comparison, and the function [sort] with the
    comparison [>] on integers. *)

#[local] Open Scope Z_scope.

(** [MergeSort] terminates and permutes the list, whatever the comparison
    answers (it may be inconsistent and may change the state), provided every
    comparison returns and keeps an invariant [P]; no index is out of bounds
    and no uninitialised temporary is read. *)
Theorem MergeSort_permutes {St A} (swap : A → A → M St bool) (P : St → Prop) (l : list A) s :
  (∀ x y s, P s → ∃ b s', swap x y s = Some (b, s') ∧ P s') → P s →
  ∃ l' s', MergeSort swap (length l) l s = Some (l', s') ∧ P s' ∧ l' ≡ₚ l.
Proof.
  intros Hsw HP. destruct (decide (l = [])) as [->|Hn]; [by exists [], s|].
  destruct (MergeSort_spec swap P (fun _ => True) (fun _ _ _ => True)) with (l := l) (s := s) as (l' & s' & Hr & HP' & Hm);
    [|done|by apply Forall_true|done|].
  - intros x y s1 _ _ Hs1. destruct (Hsw x y s1 Hs1) as (b & s' & ? & ?). eauto.
  - exists l', s'. split_and!; [done|done|]. by eapply msorts_perm.
Qed.

(** A comparison that answers at random and counts its calls. *)
Definition w_swap (x y : Z) : M nat bool := fun n => Some (Nat.even n, S n).
Lemma MergeSort_permutes_witness :
  ∃ l' s', MergeSort w_swap 5 [5; 3; 9; 1; 7] 0%nat = Some (l', s') ∧ True ∧ l' ≡ₚ [5; 3; 9; 1; 7].
Proof. apply (MergeSort_permutes w_swap (fun _ => True) [5; 3; 9; 1; 7]); [|done]. intros x y n _. by do 2 eexists. Defined.

(** C35: when the comparison is that of a total preorder ([swaps x y]: [y] has
    to come before [x]), the result is sorted, and stable: the elements
    equivalent to any [z] are in their original order. *)
Theorem MergeSort_sorts {St A} (swap : A → A → M St bool) (swaps : A → A → bool) (P : St → Prop) (l : list A) s :
  (∀ x y, swaps x y = true → swaps y x = false) →
  (∀ x y z, swaps x y = false → swaps y z = false → swaps x z = false) →
  (∀ x y s, P s → ∃ s', swap x y s = Some (swaps x y, s') ∧ P s') → P s →
  ∃ l' s', MergeSort swap (length l) l s = Some (l', s') ∧ P s'
    ∧ StronglySorted (fun x y => swaps x y = false) l'
    ∧ ∀ z, filter (equivalent swaps z) l' = filter (equivalent swaps z) l.
Proof.
  intros Htot Htr Hsw HP. destruct (decide (l = [])) as [->|Hn].
  { exists [], s. split_and!; [done|done|constructor|done]. }
  destruct (MergeSort_spec swap P (fun _ => True) (fun x y b => b = swaps x y)) with (l := l) (s := s) as (l' & s' & Hr & HP' & Hm);
    [|done|by apply Forall_true|done|].
  - intros x y s1 _ _ Hs1. destruct (Hsw x y s1 Hs1) as (s' & ? & ?). eauto.
  - exists l', s'. split_and!; [done|done| |].
    + exact (msorts_sorted swaps Htot Htr _ _ Hm).
    + intros z. exact (msorts_stable swaps Htot Htr z _ _ Hm).
Qed.

(** Pairs compared by their first components only. *)
Definition w_fst_swap (x y : Z * Z) : M nat bool := fun n => Some (y.1 <? x.1, S n).
Lemma MergeSort_sorts_witness :
  ∃ l' s', MergeSort w_fst_swap 4 [(2, 0); (1, 1); (2, 2); (1, 3)] 0%nat = Some (l', s') ∧ True
    ∧ StronglySorted (fun x y => (y.1 <? x.1) = false) l'
    ∧ ∀ z, filter (equivalent (fun x y => y.1 <? x.1) z) l' = filter (equivalent (fun x y => y.1 <? x.1) z) [(2, 0); (1, 1); (2, 2); (1, 3)].
Proof.
  apply (MergeSort_sorts w_fst_swap (fun x y => y.1 <? x.1) (fun _ => True) [(2, 0); (1, 1); (2, 2); (1, 3)]).
  - intros x y H. lia.
  - intros x y z H1 H2. lia.
  - intros x y n _. by eexists.
  - done.
Defined.

(** ** The function [sort] *)

Section sort.
Context {W : Type} `{!EvalHost W}.

Lemma enter_current (s : EvalEnv W) : enter (current_of s) s = s.
Proof. by destruct s as [[]]. Qed.

Lemma greater_constants n g z1 z2 (s : EvalEnv W) :
  functionPointer g = fp_GreaterThanFunction →
  EvaluateExpression (S (S n)) (Some (EFcall g [EConst (VInteger z1); EConst (VInteger z2)])) s =
    Some (mkUDFValue (bool_symbol (z2 <? z1)) 0 SIZE_MAX, s).
Proof.
  intros Hg. destruct g as [nm an bits fp rs mn mx]. simpl in Hg. subst fp. rewrite Z.ltb_antisym.
  destruct s as [[] [] [] [] ? ? ? ?]. lazy -[Z.leb]. by destruct (Z.leb z1 z2).
Qed.

Context (ev : Evaluator W) `{!EvaluatorLaws ev}.

Lemma sort_arguments_eq s es vs s' f es1 p l rv :
  current_of s = Some (EFcall f (es1 ++ es)) → yields ev s es vs s' →
  Forall (fun v => type_expected ANY_TYPE_BITS v = true) vs →
  (∃ r, es1 ++ es = r ++ l ∧ p = 1 + Z.of_nat (length r)) →
  ∃ us c, sort_arguments ev (length es) (1 + Z.of_nat (length es1)) (s, mkUDFContext f p l rv) = Some (us, (s', c))
    ∧ uv_value <$> us = vs ∧ theFunction c = f ∧ ctx_returnValue c = rv.
Proof.
  intros Hc Hy. revert es1 p l Hc. induction Hy as [s|s e u s1 es vs s2 He Herr Hy IH]; intros es1 p l Hc Ht Hr.
  { by exists [], (mkUDFContext f p l rv). }
  apply Forall_cons in Ht as [Ht1 Ht]. cbn [length sort_arguments].
  destruct (next_argument_ok ev s e u s1 f (1 + Z.of_nat (length es1)) es rv None ANY_TYPE_BITS He Herr Ht1) as (u' & Hu & Hn).
  rewrite <- (nth_argument_eq ev (ToLocal None) ANY_TYPE_BITS s f es1 (e :: es) p l rv Hc Hr) in Hn.
  rewrite (M_bind_Some _ _ _ _ _ Hn). cbn beta iota. erewrite M_bind_Some by reflexivity.
  destruct (IH (es1 ++ [e]) (1 + Z.of_nat (length es1) + 1) es) as (us & c & Hrun & Hus & Hf & Hrv).
  - rewrite <- app_assoc. rewrite (ev_current _ _ _ _ He). exact Hc.
  - done.
  - exists (es1 ++ [e]). split; [done|]. rewrite length_app. simpl. lia.
  - replace (1 + Z.of_nat (length (es1 ++ [e]))) with (1 + Z.of_nat (length es1) + 1) in Hrun
      by (rewrite length_app; simpl; lia).
    rewrite (M_bind_Some _ _ _ _ _ Hrun). exists (u' :: us), c. split_and!; [done| |done|done].
    cbn [fmap list_fmap]. by rewrite Hu, <- Hus.
Qed.

(** An item of the array: only [value] is set. *)
#[local] Definition item (z : Z) : UDFValue := mkUDFValue (VInteger z) 0 0.
Lemma pack_integers us zs :
  uv_value <$> us = VInteger <$> zs → pack_arguments us = Some (item <$> zs).
Proof.
  revert zs. induction us as [|u us IH]; intros [|z zs] H; try done. injection H as Hu Hus.
  cbn [pack_arguments]. rewrite Hu. cbn. by rewrite (IH _ Hus).
Qed.

(** What [DefaultCompareSwapFunction] answers with [>], as the comparison of keys. *)
#[local] Definition key (u : UDFValue) : Z := match uv_value u with VInteger z => z | _ => 0 end.
#[local] Definition greater_swaps (x y : UDFValue) : bool := key y <? key x.

Lemma compare_greater g rest x y s :
  (∀ z1 z2 s, ev (Some (EFcall g [EConst (VInteger z1); EConst (VInteger z2)])) s = Some (mkUDFValue (bool_symbol (z2 <? z1)) 0 SIZE_MAX, s)) →
  SortComparisonFunction s = EFcall g [] :: rest →
  (∃ z, x = item z) → (∃ z, y = item z) →
  DefaultCompareSwapFunction ev x y s = Some (greater_swaps x y, s).
Proof.
  intros Hg Hs [a ->] [b ->]. unfold DefaultCompareSwapFunction. rewrite (M_bind_Some _ _ s (SortComparisonFunction s) s) by done.
  rewrite Hs. cbn beta iota. erewrite M_bind_Some by reflexivity.
  erewrite M_bind_Some by (cbn [uv_value]; apply Hg). erewrite M_bind_Some by reflexivity.
  change (greater_swaps (item a) (item b)) with (b <? a). unfold mret, M_ret.
  replace (negb _) with (b <? a) by (cbn [uv_value]; by destruct (b <? a)).
  destruct s as [? ? ? ? fs ? ? ?]. simpl in Hs. by subst fs.
Qed.

Lemma sorted_integers zs l' :
  msorts (fun x y b => b = greater_swaps x y) (item <$> zs) l' →
  ∃ zs', l' = item <$> zs' ∧ zs' ≡ₚ zs ∧ Sorted Z.le zs'.
Proof.
  intros Hm. pose proof (msorts_perm _ _ _ Hm) as Hp.
  destruct (Permutation_map_inv _ _ Hp) as (zs' & -> & Hp').
  exists zs'. split_and!; [done|by symmetry|].
  pose proof (msorts_sorted greater_swaps) as Hs. unfold greater_swaps in Hs.
  specialize (Hs ltac:(intros x y; simpl; lia) ltac:(intros x y z; simpl; lia) _ _ Hm). apply StronglySorted_Sorted in Hs.
  clear -Hs. change (map item zs') with (item <$> zs') in Hs.
  induction zs' as [|z zs' IH]; [constructor|]. rewrite fmap_cons in Hs.
  apply Sorted_inv in Hs as [Hs Hh]. constructor; [by apply IH|].
  destruct zs' as [|z' zs']; [constructor|]. constructor. rewrite fmap_cons in Hh. inversion Hh as [|? ? Hle]; subst.
  unfold le, key in Hle. simpl in Hle. lia.
Qed.

Lemma SortFunction_eq f name es g zs s s' :
  (∀ z1 z2 s, ev (Some (EFcall g [EConst (VInteger z1); EConst (VInteger z2)])) s = Some (mkUDFValue (bool_symbol (z2 <? z1)) 0 SIZE_MAX, s)) →
  current_of s = Some (EFcall f (EConst (VSymbol name) :: es)) → error_of s = false →
  FindFunction name s = Some (Some g, s) →
  (minArgs g <= 2) → maxArgs g ≠ 0 → maxArgs g ≠ 1 →
  yields ev s es (VInteger <$> zs) s' → zs ≠ [] →
  ∃ zs' c, SortFunction ev (s, mkUDFContext f 1 (EConst (VSymbol name) :: es) initial_returnValue) = Some (tt, (s', c))
    ∧ ctx_returnValue c = mkUDFValue (VMultifield (VInteger <$> zs')) 0 (Z.of_nat (length zs'))
    ∧ zs' ≡ₚ zs ∧ Sorted Z.le zs'.
Proof.
  intros Hg Hc Herr Hfind Hmin Hmax0 Hmax1 Hy Hzs.
  set (args := EConst (VSymbol name) :: es) in *. set (rv := set_uv_value FalseSymbol initial_returnValue).
  unfold SortFunction.
  rewrite (M_bind_Some _ _ _ tt (s, mkUDFContext f 1 args rv)) by done.
  destruct (next_argument_ok ev s (EConst (VSymbol name)) (set_uv_value (VSymbol name) initial_returnValue) s
    f 1 es rv None SYMBOL_BIT (ev_direct (EConst (VSymbol name)) (VSymbol name) s eq_refl) Herr eq_refl) as (u' & Hu & Hn).
  pose proof (nth_argument_eq ev (ToLocal None) SYMBOL_BIT s f [] args 1 args rv Hc
    (ex_intro _ [] (conj eq_refl eq_refl))) as Hnth.
  change (1 + Z.of_nat (length (@nil expr))) with 1 in Hnth. unfold args at 2 in Hnth. rewrite Hn in Hnth. clear Hn.
  unfold arg_or_return. rewrite (M_bind_Some _ _ _ _ _ Hnth). cbn beta iota.
  erewrite M_bind_Some by reflexivity. rewrite Hu. cbn [uv_value set_uv_value].
  erewrite M_bind_Some by reflexivity.
  assert (Href : lift (FunctionReferenceExpression name) (s, mkUDFContext f (1 + 1) es rv) =
    Some (Some (EFcall g []), (s, mkUDFContext f (1 + 1) es rv))).
  { unfold lift, FunctionReferenceExpression. by rewrite (M_bind_Some _ _ _ _ _ Hfind). }
  rewrite (M_bind_Some _ _ _ _ _ Href). cbn beta iota.
  replace ((2 <? GetMinimumArgs g) || (GetMaximumArgs g =? 0) || (GetMaximumArgs g =? 1)) with false
    by (unfold GetMinimumArgs, GetMaximumArgs; lia).
  assert (Hcount : UDFArgumentCount (s, mkUDFContext f (1 + 1) es rv) = Some (Z.of_nat (length args), (s, mkUDFContext f (1 + 1) es rv))).
  { unfold UDFArgumentCount. by rewrite (M_bind_Some _ _ _ _ _ (current_args_eq _ _ _ _ Hc)). }
  rewrite (M_bind_Some _ _ _ _ _ Hcount).
  assert (Hlen : length es = length zs) by (rewrite (yields_length _ _ _ _ _ Hy); apply length_fmap).
  assert (0 < length zs)%nat by (destruct zs; simpl; [done|lia]).
  assert (Hargsl : length args = S (length es)) by done.
  replace (Z.of_nat (length args) =? 1) with false by lia.
  replace (Z.to_nat (Z.of_nat (length args) - 1)) with (length es) by lia.
  destruct (sort_arguments_eq s es (VInteger <$> zs) s' f [EConst (VSymbol name)] (1 + 1) es rv) as (us & c & Hargs & Hus & Hcf & Hcr).
  { exact Hc. } { done. } { by apply Forall_fmap, Forall_true. } { by exists [EConst (VSymbol name)]. }
  change (1 + Z.of_nat (length [EConst (VSymbol name)])) with 2 in Hargs.
  rewrite (M_bind_Some _ _ _ _ _ Hargs), (pack_integers _ _ Hus). erewrite M_bind_Some by reflexivity.
  rewrite length_fmap. replace (length zs =? 0)%nat with false by (symmetry; apply Nat.eqb_neq; lia).
  erewrite M_bind_Some by reflexivity.
  set (sp := with_SortComparisonFunction (cons (EFcall g [])) s').
  destruct (MergeSort_spec (DefaultCompareSwapFunction ev) (fun st => st = sp) (fun u => ∃ z, u = item z)
    (fun x y b => b = greater_swaps x y)) with (l := item <$> zs) (s := sp) as (l' & s2 & Hrun & -> & Hm).
  { intros x y st Hx Hyi ->. exists (greater_swaps x y), sp. split_and!; [|done|done]. by eapply compare_greater. }
  { done. } { apply Forall_fmap, Forall_forall. intros z _. by exists z. }
  { destruct zs; [done|]. rewrite fmap_cons. discriminate. }
  rewrite length_fmap in Hrun.
  assert (Hlift : lift (MergeSort (DefaultCompareSwapFunction ev) (length zs) (item <$> zs)) (sp, c) = Some (l', (sp, c)))
    by (unfold lift; by rewrite Hrun).
  rewrite (M_bind_Some _ _ _ _ _ Hlift). erewrite M_bind_Some by reflexivity.
  destruct (sorted_integers _ _ Hm) as (zs' & -> & Hp & Hs).
  exists zs', (mkUDFContext (theFunction c) (lastPosition c) (lastArg c) (mkUDFValue (VMultifield (VInteger <$> zs')) 0 (Z.of_nat (length zs')))).
  split_and!; [|done|done|done].
  assert (Hvals : map uv_value (item <$> zs') = VInteger <$> zs') by (clear; induction zs' as [|z zs' IH]; [done|]; cbn; by f_equal).
  rewrite Hvals, length_fmap. unfold put_returnValue, modify_ctx, modify. do 2 f_equal. f_equal.
  unfold sp, with_SortComparisonFunction. by destruct s'.
Qed.
End sort.

(** C36: [sort] with a registered two-argument function that runs [>], on
    arguments that evaluate to integers, returns the multifield of exactly these
    integers in ascending order, and otherwise leaves the state as the
    evaluation of the arguments left it. *)
Theorem SortFunction_integers {W} `{!EvalHost W} n f name es g zs (s s' : EvalEnv W) :
  functionPointer f = fp_SortFunction →
  FindFunction name s = Some (Some g, s) → functionPointer g = fp_GreaterThanFunction →
  minArgs g <= 2 → maxArgs g ≠ 0 → maxArgs g ≠ 1 → error_of s = false → zs ≠ [] →
  yields (EvaluateExpression (S (S n))) (enter (Some (EFcall f (EConst (VSymbol name) :: es))) s) es (VInteger <$> zs) s' →
  ∃ zs', EvaluateExpression (S (S (S n))) (Some (EFcall f (EConst (VSymbol name) :: es))) s =
      Some (mkUDFValue (VMultifield (VInteger <$> zs')) 0 (Z.of_nat (length zs')), enter (current_of s) s')
    ∧ zs' ≡ₚ zs ∧ Sorted Z.le zs'.
Proof.
  intros Hf Hfind Hg Hmin H0 H1 Herr Hzs Hy. rewrite eval_call, Hf. unfold call_functionPointer.
  destruct (SortFunction_eq (EvaluateExpression (S (S n))) f name es g zs
    (enter (Some (EFcall f (EConst (VSymbol name) :: es))) s) s') as (zs' & c & Hrun & Hrv & Hp & Hs);
    [intros; by apply greater_constants|done|done| |done|done|done|done|done|].
  { unfold FindFunction, gets in *. injection Hfind as Hfind. do 2 f_equal. exact Hfind. }
  exists zs'. rewrite Hrun, Hrv. split_and!; [|done|done]. unfold returned. cbn [uv_value uv_range].
  case_match; [|done]. by rewrite length_fmap.
Qed.
Definition w_sort_args : list expr := [w_int 3; w_call "+" [w_int 4; w_int (-5)]; w_int 2].
Lemma SortFunction_integers_witness :
  ∃ zs', EvaluateExpression 5 (Some (w_call "sort" (w_sym ">" :: w_sort_args))) w_eval =
      Some (mkUDFValue (VMultifield (VInteger <$> zs')) 0 (Z.of_nat (length zs')), w_eval)
    ∧ zs' ≡ₚ [3; -1; 2] ∧ Sorted Z.le zs'.
Proof.
  apply (SortFunction_integers 2 (w_fn "sort") ">" w_sort_args (w_fn ">") [3; -1; 2] w_eval
    (enter (Some (w_call "sort" (w_sym ">" :: w_sort_args))) w_eval)).
  1-3: vm_compute; reflexivity. 4: vm_compute; reflexivity. 1-4: vm_compute; discriminate.
  unfold w_sort_args. do 3 (eapply (yields_cons _ _ _ (mkUDFValue (VInteger _) 0 SIZE_MAX)); [vm_compute; reflexivity|done|]). constructor.
Defined.
