(* ===== verification/FunctionTheorems.v ===== *)
(** * Theorems on the table of functions

    The restriction strings of [extnfunc.c] against their reading as lists of
    type letters, the registration of functions, and the check of argument
    counts of [argacces.c].

    Then the functions of the host. *)
From Stdlib Require Import Ascii ZifyBool.
From S2P Require Import Prelude Values Router Expr Functions Args Multifield Math Predicates Procedural.
From S2P Require Import Sort UserFunctions Evaluate EvalLaws EvalLemmas EvalTheorems.
#[local] Open Scope Z_scope.

(** ** Restriction strings *)

(** The segments of a restriction string, one per argument position. *)
Fixpoint split_types (chars : list ascii) : list (list ascii) :=
  match chars with
  | [] => [[]]
  | c :: rest =>
      if Ascii.eqb c ";"%char then [] :: split_types rest
      else match split_types rest with
           | seg :: segs => (c :: seg) :: segs
           | [] => [[c]]
           end
  end.

Definition letters_bits (acc : Z) (seg : list ascii) : Z :=
  fold_left (fun bits c => Z.lor bits (default 0 (type_letter_bits c))) seg acc.

(** The types a restriction string [types] allows at position [n]: those of the
    letters of segment [n]; the default [d] beyond the last segment, and for a
    last segment without letters. *)
Definition restriction_at (d : Z) (types : string) (n : nat) : Z :=
  let segs := split_types (String.list_ascii_of_string types) in
  match segs !! n with
  | None => d
  | Some seg => if bool_decide (seg = []) && (S n =? length segs)%nat then d else letters_bits 0 seg
  end.

Lemma split_types_cons chars : ∃ seg segs, split_types chars = seg :: segs.
Proof.
  induction chars as [|c chars (seg & segs & IH)]; simpl; [by exists [], []|].
  case_match; [by eexists _, _|]. rewrite IH. by eexists _, _.
Qed.

Section restrictions.
Context {W : Type}.

Lemma valid_letter c :
  bool_decide (c ∈ validTypeChars) = true → Ascii.eqb c ";"%char = false →
  type_letter_bits c = Some (default 0 (type_letter_bits c)).
Proof.
  intros Hc%bool_decide_eq_true Hne. unfold validTypeChars in Hc. simpl in Hc.
  repeat (apply elem_of_cons in Hc as [->|Hc]; [first [done|discriminate]|]). by apply elem_of_nil in Hc.
Qed.

(** The loop, [k] positions before the one that is asked for. *)
Lemma populate_loop_spec chars r d (k : nat) position v (s : EvalEnv W) :
  forallb (fun ch => bool_decide (ch ∈ validTypeChars)) chars = true → 0 <= v →
  let segs := split_types chars in
  populate_loop chars r d position (position - Z.of_nat k) v s =
    Some (match segs !! k with
          | None => d
          | Some seg =>
              if (k =? 0)%nat then
                if bool_decide (seg = []) && (length segs =? 1)%nat && (v =? 0) then d else letters_bits r seg
              else if bool_decide (seg = []) && (S k =? length segs)%nat then d else letters_bits 0 seg
          end, s).
Proof.
  revert r k v. induction chars as [|c chars IH]; intros r k v Hv Hv0; cbn [populate_loop split_types].
  - destruct k as [|k].
    + replace (position =? position - Z.of_nat 0) with true by lia. simpl. by destruct (v =? 0).
    + replace (position =? position - Z.of_nat (S k)) with false by lia. done.
  - apply andb_prop in Hv as [Hc Hv]. destruct (Ascii.eqb c ";"%char) eqn:Hsemi.
    + destruct (split_types_cons chars) as (seg & segs & Hsplit). destruct k as [|k].
      * replace (position - Z.of_nat 0 =? position) with true by lia. rewrite Hsplit. done.
      * replace (position - Z.of_nat (S k) =? position) with false by lia.
        replace (position - Z.of_nat (S k) + 1) with (position - Z.of_nat k) by lia.
        rewrite (IH 0 k 0 Hv) by lia. rewrite Hsplit. cbn [lookup list_lookup].
        destruct k as [|k]; [|done].
        simpl. by destruct (bool_decide (seg = [])), segs.
    + rewrite (valid_letter c Hc Hsemi), (IH _ k (v + 1) Hv) by lia.
      destruct (split_types_cons chars) as (seg & segs & ->). destruct k as [|k]; [|done]. simpl.
      replace (v + 1 =? 0) with false by lia. by rewrite andb_false_r.
Qed.

Lemma PopulateRestriction_eq d types n (s : EvalEnv W) :
  valid_types (Some types) = true →
  PopulateRestriction d (Some types) (Z.of_nat n) s = Some (restriction_at d types n, s).
Proof.
  intros Hv. unfold PopulateRestriction. pose proof (populate_loop_spec (String.list_ascii_of_string types) 0 d n (Z.of_nat n) 0 s Hv) as H.
  rewrite Z.sub_diag in H. rewrite H by lia. unfold restriction_at. do 2 f_equal.
  destruct (split_types _ !! n) as [seg|]; [|done]. destruct n as [|n]; [|done]. cbn [Nat.eqb].
  by rewrite andb_true_r, Nat.eqb_sym.
Qed.
End restrictions.

(** On a restriction string [AddUDF] accepts, [GetNthRestriction] answers
    with the types of the letters of segment [position], counted from 0.  A
    position after the last segment, or a last segment without letters, takes
    the types of segment 0 (any type for an empty string); an empty segment
    before the last allows no type at all.  Without a string, and without a
    function, every type is allowed.  The state is not changed. *)
Theorem GetNthRestriction_correct {W} f n (s : EvalEnv W) :
  match restrictions f with Some types => valid_types (Some types) = true | None => True end →
  GetNthRestriction None (Z.of_nat n) s = Some (ANY_TYPE_BITS, s) ∧
  GetNthRestriction (Some f) (Z.of_nat n) s =
    Some (match restrictions f with
          | None => ANY_TYPE_BITS
          | Some types => restriction_at (restriction_at ANY_TYPE_BITS types 0) types n
          end, s).
Proof.
  intros Hv. split; [done|]. unfold GetNthRestriction. destruct (restrictions f) as [types|]; [|done].
  rewrite (M_bind_Some _ _ _ _ _ (PopulateRestriction_eq ANY_TYPE_BITS types 0 s Hv)).
  by apply PopulateRestriction_eq.
Qed.
Definition w_restricted : functionDefinition := mkFunctionDefinition "g" "G" ANY_TYPE_BITS fp_BreakFunction (Some "*;y;;ld;") 1 4.
Lemma GetNthRestriction_correct_witness :
  (λ n, GetNthRestriction (Some w_restricted) (Z.of_nat n) w_eval) <$> [1; 2; 3; 4; 5]%nat =
  (λ bits, Some (bits, w_eval)) <$> [SYMBOL_BIT; 0; Z.lor INTEGER_BIT FLOAT_BIT; ANY_TYPE_BITS; ANY_TYPE_BITS].
Proof.
  pose proof (λ n, proj2 (GetNthRestriction_correct w_restricted n w_eval eq_refl)) as H. cbn [fmap list_fmap].
  rewrite !H. vm_compute. reflexivity.
Defined.

(** ** Registration *)

(** Function names are unique. *)
Definition unique_names {W} (s : EvalEnv W) : Prop := NoDup (callFunctionName <$> ListOfFunctions s).

(** The function that [FindFunction] finds in a list. *)
Definition registered (name : string) (l : list functionDefinition) : option functionDefinition :=
  head (filter (fun f => callFunctionName f = name) l).
Definition names (l : list functionDefinition) : list string := callFunctionName <$> l.

Lemma registered_cons name f l : registered name (f :: l) = if decide (callFunctionName f = name) then Some f else registered name l.
Proof. unfold registered. rewrite filter_cons. by case_decide. Qed.
Lemma registered_None name l : registered name l = None ↔ name ∉ names l.
Proof.
  induction l as [|f l IH]; [split; [intros _ Hin; by inversion Hin|done]|].
  rewrite registered_cons. unfold names. rewrite fmap_cons, not_elem_of_cons, <- IH. case_decide; naive_solver.
Qed.
Lemma registered_name name l f : registered name l = Some f → callFunctionName f = name.
Proof. induction l as [|g l IH]; [done|]. rewrite registered_cons. case_decide; naive_solver. Qed.

Lemma remove_names name l x : x ∈ names (remove_function name l) → x ∈ names l.
Proof.
  induction l as [|f l IH]; [done|]. simpl. case_bool_decide; unfold names in *; rewrite ?fmap_cons, !elem_of_cons; naive_solver.
Qed.
Lemma remove_NoDup name l : NoDup (names l) → NoDup (names (remove_function name l)).
Proof.
  induction l as [|f l IH]; [done|]. intros [Hf Hl]%NoDup_cons. simpl. case_bool_decide; [done|].
  apply NoDup_cons. split; [|by apply IH]. intros Hin. by apply remove_names in Hin.
Qed.
Lemma registered_remove name l : NoDup (names l) → registered name (remove_function name l) = None.
Proof.
  induction l as [|f l IH]; [done|]. intros [Hf Hl]%NoDup_cons. simpl. case_bool_decide as Hn.
  - apply registered_None. by rewrite <- Hn.
  - rewrite registered_cons, decide_False by done. by apply IH.
Qed.
Lemma registered_remove_ne name other l : other ≠ name → registered other (remove_function name l) = registered other l.
Proof.
  intros Hne. induction l as [|f l IH]; [done|]. simpl. rewrite registered_cons. case_bool_decide as Hn.
  - by rewrite decide_False by congruence.
  - rewrite registered_cons, IH. done.
Qed.

Lemma FindFunction_eq {W} name (s : EvalEnv W) : FindFunction name s = Some (registered name (ListOfFunctions s), s).
Proof. done. Qed.
Lemma with_functions {W} (s : EvalEnv W) l : ListOfFunctions s = l → with_ListOfFunctions (fun _ => l) s = s.
Proof. intros <-. by destruct s. Qed.

(** [AddUDF] succeeds exactly when the argument counts are in order, both
    type strings have only valid letters, and the name is free.  A failed
    registration changes nothing.  After a successful one [FindFunction] finds
    the function with the bits of its return types, the other names are
    unaffected, names stay unique, and [RemoveUDF] restores the table. *)
Theorem AddUDF_correct {W} name returnTypes mn mx types fp cname (s : EvalEnv W) :
  unique_names s →
  ∃ r s', AddUDF name returnTypes mn mx types fp cname s = Some (r, s') ∧
    (r = AUE_NO_ERROR ↔ (mn = UNBOUNDED ∨ mn <= mx) ∧ valid_types types = true ∧ valid_types returnTypes = true
       ∧ FindFunction name s = Some (None, s)) ∧
    (r ≠ AUE_NO_ERROR → s' = s) ∧
    (r = AUE_NO_ERROR → unique_names s' ∧ RemoveUDF name s' = Some (true, s) ∧
       ∀ n, FindFunction n s' = Some (if decide (n = name) then
           Some (mkFunctionDefinition name cname
             (match returnTypes with Some str => restriction_at ANY_TYPE_BITS str 0 | None => ANY_TYPE_BITS end)
             fp types mn mx)
         else registered n (ListOfFunctions s), s')).
Proof.
  intros Hu. unfold AddUDF.
  destruct (negb (mn =? UNBOUNDED) && (mx <? mn)) eqn:Hc; [eexists _, s; split_and!; [done| |done|done]; split; [done|lia]|].
  destruct (valid_types types) eqn:Ht; simpl; [|eexists _, s; split_and!; [done| |done|done]; naive_solver].
  destruct (valid_types returnTypes) eqn:Hr; simpl; [|eexists _, s; split_and!; [done| |done|done]; naive_solver].
  set (bits := match returnTypes with Some str => restriction_at ANY_TYPE_BITS str 0 | None => ANY_TYPE_BITS end).
  erewrite (M_bind_Some _ _ s bits s).
  2: { subst bits. destruct returnTypes as [str|]; [|done]. by apply (PopulateRestriction_eq ANY_TYPE_BITS str 0 s). }
  unfold DefineFunction. rewrite (M_bind_Some _ _ _ _ _ (FindFunction_eq name s)), FindFunction_eq.
  destruct (registered name (ListOfFunctions s)) as [g|] eqn:Hfind.
  { eexists _, s. split_and!; [done| |done|done]. naive_solver. }
  set (f := mkFunctionDefinition name cname bits fp types mn mx).
  exists AUE_NO_ERROR, (with_ListOfFunctions (cons f) s). split_and!; [done| |done|].
  { split; [|done]. intros _. split_and!; [|done|done|done]. lia. }
  intros _. split_and!.
  - apply NoDup_cons. split; [by apply registered_None|done].
  - unfold RemoveUDF. rewrite (M_bind_Some _ _ _ _ _ (FindFunction_eq _ _)). simpl.
    rewrite registered_cons, decide_True by done. unfold modify, mbind, M_bind. simpl. do 2 f_equal.
    destruct s. unfold with_ListOfFunctions. simpl. by rewrite bool_decide_true.
  - intros n. rewrite FindFunction_eq. do 2 f_equal. simpl. rewrite registered_cons. simpl.
    destruct (decide (name = n)), (decide (n = name)); naive_solver.
Qed.
Lemma w_eval_unique : bool_decide (unique_names w_eval) = true.
Proof. vm_compute. reflexivity. Qed.
Lemma AddUDF_correct_witness :
  ∃ s', AddUDF "f" (Some "ls") 0 UNBOUNDED (Some "ld;y") fp_BreakFunction "F" w_eval = Some (AUE_NO_ERROR, s')
    ∧ unique_names s' ∧ RemoveUDF "f" s' = Some (true, w_eval).
Proof.
  destruct (AddUDF_correct "f" (Some "ls") 0 UNBOUNDED (Some "ld;y") fp_BreakFunction "F" w_eval) as (r & s' & H & Hr & _ & Hok).
  - apply (bool_decide_eq_true_1 _ w_eval_unique).
  - assert (r = AUE_NO_ERROR) as -> by (apply Hr; split_and!; [vm_compute; right; discriminate| | |]; vm_compute; reflexivity).
    exists s'. destruct (Hok eq_refl) as (? & ? & _). done.
Defined.

(** Under unique names [RemoveUDF] answers whether the name was registered;
    afterwards it is free, every other name is found as before, and names are
    still unique. *)
Theorem RemoveUDF_correct {W} name (s : EvalEnv W) :
  unique_names s →
  ∃ b s', RemoveUDF name s = Some (b, s') ∧ (b = false ↔ FindFunction name s = Some (None, s)) ∧
    unique_names s' ∧ FindFunction name s' = Some (None, s') ∧
    ∀ n, n ≠ name → FindFunction n s' = Some (registered n (ListOfFunctions s), s').
Proof.
  intros Hu. unfold RemoveUDF. rewrite (M_bind_Some _ _ _ _ _ (FindFunction_eq name s)), FindFunction_eq.
  destruct (registered name (ListOfFunctions s)) as [g|] eqn:Hfind.
  - exists true, (with_ListOfFunctions (remove_function name) s). split_and!; [done|naive_solver|by apply remove_NoDup| |].
    + rewrite FindFunction_eq. do 2 f_equal. by apply registered_remove.
    + intros n Hn. rewrite FindFunction_eq. do 2 f_equal. by apply registered_remove_ne.
  - exists false, s. split_and!; [done|done|done|by rewrite FindFunction_eq, Hfind|done].
Qed.
Lemma RemoveUDF_correct_witness :
  ∃ s', RemoveUDF "<" w_eval = Some (true, s') ∧ FindFunction "<" s' = Some (None, s').
Proof.
  destruct (RemoveUDF_correct "<" w_eval) as (b & s' & H & Hb & _ & Hn & _); [apply (bool_decide_eq_true_1 _ w_eval_unique)|].
  exists s'. destruct b; [done|]. exfalso. destruct Hb as [Hb _]. specialize (Hb eq_refl). vm_compute in Hb. discriminate.
Defined.

(** [CheckFunctionArgCount] accepts a count exactly when it lies between the
    bounds of the function, where [UNBOUNDED] for both, or as the maximum, is no
    bound; as the minimum alone it is a bound of 65535.  A refusal writes a
    message and sets both error flags, and nothing else; an accepted
    count changes nothing. *)
Theorem CheckFunctionArgCount_correct {W} f n (s : EvalEnv W) c :
  ∃ (b : bool) (msg : list output_item), CheckFunctionArgCount f n (s, c) =
      Some (b, if b then (s, c) else (failed msg s, c)) ∧
    (b = true ↔ (minArgs f = UNBOUNDED ∧ maxArgs f = UNBOUNDED) ∨
                (minArgs f <= n ∧ (maxArgs f = UNBOUNDED ∨ n <= maxArgs f))).
Proof.
  assert (Hcount : ∀ r k, Writes (W := W) (ExpectedCountError (callFunctionName f) r k) tt).
  { intros r k. unfold ExpectedCountError, PrintUnsignedInteger.
    eapply writes_bind; [apply writes_PrintErrorID|]. writes. }
  assert (Hrefuse : ∀ r k, ∃ msg,
    (_ ← ExpectedCountError (callFunctionName f) r k; _ ← SetEvaluationError true; mret false : UDF W bool) (s, c) =
    Some (false, (failed msg s, c))).
  { intros r k. destruct (Hcount r k) as [msg Hmsg]. exists msg. by rewrite (M_bind_Some _ _ _ _ _ (Hmsg s c)). }
  unfold CheckFunctionArgCount.
  destruct ((minArgs f =? UNBOUNDED) && (maxArgs f =? UNBOUNDED)) eqn:Hun; [exists true, []; split; [done|lia]|].
  destruct (minArgs f =? maxArgs f) eqn:Heq.
  { destruct (n =? minArgs f) eqn:Hn; simpl; [exists true, []; split; [done|lia]|].
    destruct (Hrefuse EXACTLY (minArgs f)) as [msg ->]. exists false, msg. split; [done|lia]. }
  destruct (n <? minArgs f) eqn:Hmin.
  { destruct (Hrefuse AT_LEAST (minArgs f)) as [msg ->]. exists false, msg. split; [done|lia]. }
  destruct (negb (maxArgs f =? UNBOUNDED) && (maxArgs f <? n)) eqn:Hmax.
  { destruct (Hrefuse NO_MORE_THAN (maxArgs f)) as [msg ->]. exists false, msg. split; [done|lia]. }
  exists true, []. split; [done|lia].
Qed.

(** * Theorems on the functions of the host

    The wrappers of [userfunctions.c]: what they pass to the Rust callbacks,
    what they return, and what happens on an argument of the wrong type. *)

#[local] Open Scope Z_scope.

(** The text of a symbol or a string. *)
Definition lexeme_of (v : value) : option string :=
  match v with VSymbol x | VString x => Some x | _ => None end.

Lemma type_expected_lexeme v : type_expected LEXEME_BITS v = bool_decide (is_Some (lexeme_of v)).
Proof.
  destruct v; try (symmetry; apply bool_decide_eq_false; by intros [? [=]]);
    symmetry; apply bool_decide_eq_true; by eexists.
Qed.

Section host.
Context {W : Type} `{!EvalHost W} (ev : Evaluator W) `{!EvaluatorLaws ev}.

Lemma arg_or_value_ok get error k (st st' : EvalEnv W * UDFContext) u :
  get st = Some ((true, Some u), st') → arg_or_value get error k st = k u st'.
Proof. intros H. unfold arg_or_value. by rewrite (M_bind_Some _ _ _ _ _ H). Qed.
Lemma arg_or_value_failed get error k (st st' : EvalEnv W * UDFContext) o :
  get st = Some ((false, o), st') → arg_or_value get error k st = set_returnValue error st'.
Proof. intros H. unfold arg_or_value. by rewrite (M_bind_Some _ _ _ _ _ H). Qed.

(** The end of every wrapper: a call of the host. *)
Lemma host_call_eq {A} (h : W → A * W) (k : A → UDF W unit) (s : EvalEnv W) c :
  (result ← call_host h; k result) (s, c) = k (h (world s)).1 (with_world (fun _ => (h (world s)).2) s, c).
Proof. unfold mbind, M_bind, call_host. by destruct (h (world s)). Qed.

(** A wrapper of one argument, whose end is [body]. *)
Lemma wrapper_eq error (body : string → UDF W unit) s f e es u s' rv :
  current_of s = Some (EFcall f (e :: es)) → ev (Some e) s = Some (u, s') → error_of s' = false →
  let run := arg_or_value (UDFFirstArgument ev (ToLocal None) LEXEME_BITS) error (fun arg =>
    input ← lexeme_contents arg; body input) (s, mkUDFContext f 1 (e :: es) rv) in
  match lexeme_of (uv_value u) with
  | Some x => run = body x (s', mkUDFContext f 2 es rv)
  | None => ∃ msg, run = Some (tt, (failed msg s', mkUDFContext f 2 es
      (set_uv_value error (error_value (unknownReturnValueType f) rv))))
  end.
Proof.
  intros Hc He Herr run. subst run. pose proof (first_argument_eq ev (ToLocal None) LEXEME_BITS s f (e :: es) (mkUDFContext f 1 (e :: es) rv) Hc) as Hfirst.
  cbn [theFunction ctx_returnValue] in Hfirst.
  pose proof (type_expected_lexeme (uv_value u)) as Ht. destruct (lexeme_of (uv_value u)) as [x|] eqn:Hx.
  - rewrite bool_decide_true in Ht by done.
    destruct (next_argument_ok ev s e u s' f 1 es rv None LEXEME_BITS He Herr Ht) as (u' & Hu & Hn).
    rewrite <- Hfirst in Hn. rewrite (arg_or_value_ok _ _ _ _ _ _ Hn). rewrite <- Hu in Hx.
    unfold lexeme_contents. destruct (uv_value u'); try done; by injection Hx as ->.
  - rewrite bool_decide_false in Ht by (by intros [? [=]]).
    destruct (next_argument_type_error ev s e u s' f 1 es rv None LEXEME_BITS He Herr Ht) as (msg & o & Hn).
    rewrite <- Hfirst in Hn. exists msg. by rewrite (arg_or_value_failed _ _ _ _ _ _ Hn).
Qed.
End host.

(** The callback behind a wrapper of one argument, as the wrapper calls it:
    [rust_clara_evaluate] gets the address of the environment first. *)
Definition host_callback {W} `{!EvalHost W} (fp : UserDefinedFunction) : option ((string → W → value * W) * value) :=
  match fp with
  | fp_ClaraEvaluateWrapper =>
      Some (fun x w => let '(r, w') := rust_clara_evaluate theEnv x w in (VString r, w'), VString invalid_argument)
  | fp_CoirePollWrapper =>
      Some (fun x w => let '(r, w') := rust_coire_poll x w in (VString r, w'), VString (json_error "error" "missing session_id"))
  | fp_CoireMarkWrapper =>
      Some (fun x w => let '(r, w') := rust_coire_mark x w in (VString r, w'), VString (json_error "error" "missing event_id"))
  | fp_CoireCountWrapper =>
      Some (fun x w => let '(r, w') := rust_coire_count x w in (VInteger r, w'), VInteger (-1))
  | _ => None
  end.

(** A value the code can make: not the least integer. *)
Definition creatable (v : value) : bool :=
  match v with VInteger z => (LLONG_MIN <? z) && (z <=? LLONG_MAX) | _ => true end.

(** C37: [clara-evaluate], [coire-poll], [coire-mark] and [coire-count] call
    their callback exactly once when the argument is a symbol or a string, with
    its text, [clara-evaluate] with the address of the environment before it:
    the result of the callback is returned and the only change of state is the
    one of the host, unless the count is the least integer, where the behaviour
    is undefined.  Any other argument gives the function's own error value and
    both error flags, and the host is not called. *)
Theorem host_wrappers_correct {W} `{!EvalHost W} n f h error e es (s : EvalEnv W) u s' :
  host_callback (functionPointer f) = Some (h, error) →
  EvaluateExpression (S n) (Some e) (enter (Some (EFcall f (e :: es))) s) = Some (u, s') → error_of s' = false →
  match lexeme_of (uv_value u) with
  | Some x => creatable (h x (world s')).1 = true →
      EvaluateExpression (S (S n)) (Some (EFcall f (e :: es))) s =
      Some (mkUDFValue (h x (world s')).1 0 SIZE_MAX, enter (current_of s) (with_world (fun _ => (h x (world s')).2) s'))
  | None => ∃ msg r, EvaluateExpression (S (S n)) (Some (EFcall f (e :: es))) s = Some (r, enter (current_of s) (failed msg s'))
      ∧ uv_value r = error ∧ world (failed msg s') = world s'
  end.
Proof.
  intros Hf He Herr. rewrite eval_call.
  set (s1 := enter (Some (EFcall f (e :: es))) s) in *.
  pose proof (λ err body, wrapper_eq (EvaluateExpression (S n)) err body s1 f e es u s' initial_returnValue eq_refl He Herr) as Hw.
  cbv zeta in Hw. destruct (functionPointer f); try done; injection Hf as <- <-; unfold call_functionPointer;
    unfold ClaraEvaluateWrapper, CoirePollWrapper, CoireMarkWrapper, CoireCountWrapper.
  all: match goal with |- context [arg_or_value _ ?err (fun arg => input ← _; @?body input)] => specialize (Hw err body) end.
  all: destruct (lexeme_of (uv_value u)) as [x|];
    [|destruct Hw as [msg Hw]; exists msg; eexists; rewrite Hw; done].
  all: rewrite Hw, host_call_eq; intros Hok.
  1: by destruct (rust_clara_evaluate theEnv x (world s')).
  1: by destruct (rust_coire_poll x (world s')).
  1: by destruct (rust_coire_mark x (world s')).
  destruct (rust_coire_count x (world s')) as [z w]. apply andb_true_iff in Hok as [Hlo Hhi].
  rewrite set_integer_eq by (simpl; lia). done.
Qed.
Lemma host_wrappers_correct_witness :
  EvaluateExpression 2 (Some (w_call "clara-evaluate" [w_str "{}"])) w_eval =
    Some (mkUDFValue (VString "evaluated") 0 SIZE_MAX, with_world (fun _ => ["evaluate"; "{}"]) w_eval) ∧
  ∃ msg r, EvaluateExpression 2 (Some (w_call "coire-count" [w_int 3])) w_eval = Some (r, failed msg w_eval)
    ∧ uv_value r = VInteger (-1) ∧ world (failed msg w_eval) = [].
Proof.
  split.
  - pose proof (host_wrappers_correct 0 (w_fn "clara-evaluate") _ _ (w_str "{}") [] w_eval (mkUDFValue (VString "{}") 0 SIZE_MAX)
      (enter (Some (w_call "clara-evaluate" [w_str "{}"])) w_eval) eq_refl eq_refl eq_refl) as H.
    cbn [uv_value lexeme_of] in H. eapply eq_trans; [exact (H eq_refl)|]. reflexivity.
  - pose proof (host_wrappers_correct 0 (w_fn "coire-count") _ _ (w_int 3) [] w_eval (mkUDFValue (VInteger 3) 0 SIZE_MAX)
      (enter (Some (w_call "coire-count" [w_int 3])) w_eval) eq_refl eq_refl eq_refl) as H.
    cbn [uv_value lexeme_of] in H. destruct H as (msg & r & H & Hr & _). exists msg, r. split_and!; [|exact Hr|reflexivity].
    eapply eq_trans; [exact H|]. reflexivity.
Defined.

(** ** [coire-emit] *)

Section emit.
Context {W : Type} `{!EvalHost W} (ev : Evaluator W) `{!EvaluatorLaws ev}.

(** An argument that is read in order: the next one. *)
Lemma next_lexeme s e u s' f p es rv error k x :
  ev (Some e) s = Some (u, s') → error_of s' = false → lexeme_of (uv_value u) = Some x →
  ∃ u', lexeme_of (uv_value u') = Some x ∧
    arg_or_value (UDFNextArgument ev (ToLocal None) LEXEME_BITS) error k (s, mkUDFContext f p (e :: es) rv) =
      k u' (s', mkUDFContext f (p + 1) es rv).
Proof.
  intros He Herr Hx. destruct (next_argument_ok ev s e u s' f p es rv None LEXEME_BITS He Herr) as (u' & Hu & Hn).
  { by rewrite type_expected_lexeme, Hx. }
  exists u'. rewrite Hu. split; [done|]. by apply arg_or_value_ok.
Qed.
Lemma next_not_lexeme s e u s' f p es rv error k :
  ev (Some e) s = Some (u, s') → error_of s' = false → lexeme_of (uv_value u) = None →
  ∃ msg, arg_or_value (UDFNextArgument ev (ToLocal None) LEXEME_BITS) error k (s, mkUDFContext f p (e :: es) rv) =
    Some (tt, (failed msg s', mkUDFContext f (p + 1) es (set_uv_value error (error_value (unknownReturnValueType f) rv)))).
Proof.
  intros He Herr Hx. destruct (next_argument_type_error ev s e u s' f p es rv None LEXEME_BITS He Herr) as (msg & o & Hn).
  { by rewrite type_expected_lexeme, Hx. }
  exists msg. by rewrite (arg_or_value_failed _ _ _ _ _ _ Hn).
Qed.

(** The first argument, as [CoireEmitWrapper] and the others read it. *)
Lemma first_is_next s f es rv error k :
  current_of s = Some (EFcall f es) →
  arg_or_value (UDFFirstArgument ev (ToLocal None) LEXEME_BITS) error k (s, mkUDFContext f 1 es rv) =
  arg_or_value (UDFNextArgument ev (ToLocal None) LEXEME_BITS) error k (s, mkUDFContext f 1 es rv).
Proof.
  intros Hc. unfold arg_or_value, mbind, M_bind.
  by rewrite (first_argument_eq ev (ToLocal None) LEXEME_BITS s f es (mkUDFContext f 1 es rv) Hc).
Qed.

Lemma contents_eq {B} u x (k : string → UDF W B) st :
  lexeme_of (uv_value u) = Some x → (y ← lexeme_contents u; k y) st = k x st.
Proof.
  intros Hx. unfold lexeme_contents. destruct (uv_value u); try done; injection Hx as ->; done.
Qed.
End emit.

(** The messages of [coire-emit], by the position of the bad argument. *)
Definition emit_errors : list string := ["missing session_id"; "missing origin"; "missing payload"].

(** [coire-emit] calls its callback exactly once, with the texts of its
    three arguments in order, when all three are symbols or strings. *)
Theorem coire_emit_calls_host {W} `{!EvalHost W} n f es (s s' : EvalEnv W) v1 v2 v3 x1 x2 x3 :
  functionPointer f = fp_CoireEmitWrapper →
  yields (EvaluateExpression (S n)) (enter (Some (EFcall f es)) s) es [v1; v2; v3] s' →
  lexeme_of v1 = Some x1 → lexeme_of v2 = Some x2 → lexeme_of v3 = Some x3 →
  EvaluateExpression (S (S n)) (Some (EFcall f es)) s =
    let '(r, w) := rust_coire_emit x1 x2 x3 (world s') in
    Some (mkUDFValue (VString r) 0 SIZE_MAX, enter (current_of s) (with_world (fun _ => w) s')).
Proof.
  intros Hf Hy H1 H2 H3. rewrite eval_call, Hf. unfold call_functionPointer, CoireEmitWrapper.
  rewrite first_is_next by done.
  apply yields_cons_inv in Hy as (e1 & es1 & u1 & s1 & -> & He1 & Herr1 & <- & Hy).
  apply yields_cons_inv in Hy as (e2 & es2 & u2 & s2 & -> & He2 & Herr2 & <- & Hy).
  apply yields_cons_inv in Hy as (e3 & es3 & u3 & s3 & -> & He3 & Herr3 & <- & Hy).
  apply yields_nil_inv in Hy as [-> ->].
  edestruct (next_lexeme (EvaluateExpression (S n))) as (a1 & Ha1 & ->); [exact He1|done|done|].
  edestruct (next_lexeme (EvaluateExpression (S n))) as (a2 & Ha2 & ->); [exact He2|done|done|].
  edestruct (next_lexeme (EvaluateExpression (S n))) as (a3 & Ha3 & ->); [exact He3|done|done|].
  rewrite (contents_eq _ _ _ _ Ha1), (contents_eq _ _ _ _ Ha2), (contents_eq _ _ _ _ Ha3).
  unfold mbind, M_bind, call_host. by destruct (rust_coire_emit x1 x2 x3 (world s3)).
Qed.
Lemma coire_emit_calls_host_witness :
  EvaluateExpression 2 (Some (w_call "coire-emit" [w_str "s"; w_sym "clips"; w_str "p"])) w_eval =
    Some (mkUDFValue (VString "ok") 0 SIZE_MAX, with_world (fun _ => ["emit"; "s"; "clips"; "p"]) w_eval).
Proof.
  eapply eq_trans.
  - apply (coire_emit_calls_host 0 (w_fn "coire-emit") [w_str "s"; w_sym "clips"; w_str "p"] w_eval
      (enter (Some (w_call "coire-emit" [w_str "s"; w_sym "clips"; w_str "p"])) w_eval)
      (VString "s") (VSymbol "clips") (VString "p") "s" "clips" "p"); try reflexivity.
    apply w_yields; [|done]. repeat constructor.
  - reflexivity.
Defined.

(** At the first argument that is neither a symbol nor a string,
    [coire-emit] returns the JSON error of that position and sets both error
    flags; the host is not called and the arguments after it are not evaluated. *)
Theorem coire_emit_rejects {W} `{!EvalHost W} n f es e rest (s s1 s' : EvalEnv W) vs u message :
  functionPointer f = fp_CoireEmitWrapper →
  yields (EvaluateExpression (S n)) (enter (Some (EFcall f (es ++ e :: rest))) s) es vs s1 →
  Forall (fun v => is_Some (lexeme_of v)) vs → emit_errors !! length es = Some message →
  EvaluateExpression (S n) (Some e) s1 = Some (u, s') → error_of s' = false → lexeme_of (uv_value u) = None →
  ∃ msg r, EvaluateExpression (S (S n)) (Some (EFcall f (es ++ e :: rest))) s = Some (r, enter (current_of s) (failed msg s'))
    ∧ uv_value r = VString (json_error "error" message) ∧ world (failed msg s') = world s'.
Proof.
  intros Hf Hy Hvs Hmsg He Herr Hu. rewrite eval_call, Hf. unfold call_functionPointer, CoireEmitWrapper.
  rewrite first_is_next by done.
  inversion Hy as [?|? e1 u1 s2 es1 vs1 ? He1 Herr1 Hy1]; subst; clear Hy; cbn [app] in *.
  { injection Hmsg as <-. edestruct (next_not_lexeme (EvaluateExpression (S n))) as (msg & ->); [exact He|done|done|].
    by exists msg; eexists. }
  apply Forall_cons in Hvs as [[x1 Hx1] Hvs].
  edestruct (next_lexeme (EvaluateExpression (S n))) as (a1 & Ha1 & ->); [exact He1|done|exact Hx1|].
  inversion Hy1 as [?|? e2 u2 s3 es2 vs2 ? He2 Herr2 Hy2]; subst; clear Hy1; cbn [app] in *.
  { injection Hmsg as <-. edestruct (next_not_lexeme (EvaluateExpression (S n))) as (msg & ->); [exact He|done|done|].
    by exists msg; eexists. }
  apply Forall_cons in Hvs as [[x2 Hx2] Hvs].
  edestruct (next_lexeme (EvaluateExpression (S n))) as (a2 & Ha2 & ->); [exact He2|done|exact Hx2|].
  inversion Hy2 as [?|? e3 u3 s4 es3 vs3 ? He3 Herr3 Hy3]; subst; cbn [app] in *; [|done].
  injection Hmsg as <-. edestruct (next_not_lexeme (EvaluateExpression (S n))) as (msg & ->); [exact He|done|done|].
  by exists msg; eexists.
Qed.
Lemma coire_emit_rejects_witness :
  ∃ msg r, EvaluateExpression 2 (Some (w_call "coire-emit" ([w_str "s"] ++ w_int 7 :: [w_call "clara-evaluate" [w_str "x"]]))) w_eval =
      Some (r, failed msg w_eval)
    ∧ uv_value r = VString (json_error "error" "missing origin") ∧ world (failed msg w_eval) = [].
Proof.
  pose proof (coire_emit_rejects 0 (w_fn "coire-emit") [w_str "s"] (w_int 7) [w_call "clara-evaluate" [w_str "x"]] w_eval
    (enter (Some (w_call "coire-emit" ([w_str "s"] ++ w_int 7 :: [w_call "clara-evaluate" [w_str "x"]]))) w_eval)
    (enter (Some (w_call "coire-emit" ([w_str "s"] ++ w_int 7 :: [w_call "clara-evaluate" [w_str "x"]]))) w_eval)
    [VString "s"] (mkUDFValue (VInteger 7) 0 SIZE_MAX) "missing origin" eq_refl) as H.
  destruct H as (msg & r & H & Hr & _); try reflexivity.
  - apply w_yields; [|done]. repeat constructor.
  - repeat constructor. by eexists.
  - exists msg, r. split_and!; [|exact Hr|reflexivity]. eapply eq_trans; [exact H|]. reflexivity.
Defined.
