(* ===== verification/ControlTheorems.v ===== *)
(** * Theorems on predicates and control functions

    The boolean functions of [prdctfun.c] and the procedural functions and
    variables of [prcdrfun.c]: which arguments are evaluated, what is returned,
    and what a variable or a flag holds afterwards.

    Then counted loops. *)
From S2P Require Import Prelude Values Router Expr Functions Args Multifield Math Predicates Procedural.
From S2P Require Import Sort UserFunctions Evaluate EvalLaws EvalLemmas MathProofs EvalTheorems.
#[local] Open Scope Z_scope.

(** ** Conjunction and disjunction *)

Lemma any_expected vs : Forall (fun v => type_expected ANY_TYPE_BITS v = true) vs.
Proof. apply Forall_forall. intros v _. apply type_expected_any. Qed.

Section junctions.
Context {W : Type} (ev : Evaluator W) `{!EvaluatorLaws ev}.
Context (stops : value → bool) (stopped finished : value).

(** The common form of [AndFunction] and [OrFunction]. *)
#[local] Definition junction_body (_ : unit) (theArg : UDFValue) : UDF W (option unit) :=
  if stops (uv_value theArg) then _ ← set_returnValue stopped; mret None else mret (Some tt).
#[local] Definition junction : UDF W unit :=
  for_each_argument ev ANY_TYPE_BITS tt junction_body (fun _ => set_returnValue finished).

Lemma junction_prefix s es vs s' f p rest rv n :
  yields ev s es vs s' → Forall (fun v => stops v = false) vs →
  arguments_loop ev (length es + n) ANY_TYPE_BITS junction_body tt (s, mkUDFContext f p (es ++ rest) rv) =
  arguments_loop ev n ANY_TYPE_BITS junction_body tt (s', mkUDFContext f (p + Z.of_nat (length es)) rest rv).
Proof.
  intros Hy Hvs.
  apply (loop_prefix ev ANY_TYPE_BITS junction_body (fun a v => if stops v then None else Some a)) with vs; [|done|apply any_expected|].
  - intros [] u s1 f1 p1 es1 rv1 [] rv' H. unfold junction_body. destruct (stops (uv_value u)); [done|]. by injection H as <-.
  - clear Hy. induction Hvs as [|v vs Hv Hvs IH]; [done|]. simpl. by rewrite Hv.
Qed.

Lemma junction_finished s es vs s' f rv :
  yields ev s es vs s' → Forall (fun v => stops v = false) vs →
  ∃ c, junction (s, mkUDFContext f 1 es rv) = Some (tt, (s', c)) ∧ ctx_returnValue c = set_uv_value finished rv.
Proof.
  intros Hy Hvs. unfold junction, for_each_argument. erewrite M_bind_Some by reflexivity. cbn [lastArg snd].
  pose proof (junction_prefix s es vs s' f 1 [] rv 0 Hy Hvs) as H. rewrite app_nil_r, Nat.add_0_r in H.
  unfold mbind, M_bind. rewrite H. by eexists.
Qed.

Lemma junction_stopped s es vs s1 e u s' rest f rv :
  yields ev s es vs s1 → Forall (fun v => stops v = false) vs →
  ev (Some e) s1 = Some (u, s') → error_of s' = false → stops (uv_value u) = true →
  ∃ c, junction (s, mkUDFContext f 1 (es ++ e :: rest) rv) = Some (tt, (s', c)) ∧ ctx_returnValue c = set_uv_value stopped rv.
Proof.
  intros Hy Hvs He Herr Hstop. unfold junction, for_each_argument. erewrite M_bind_Some by reflexivity. cbn [lastArg snd].
  rewrite length_app. cbn [length]. unfold mbind, M_bind.
  rewrite (junction_prefix s es vs s1 f 1 (e :: rest) rv (S (length rest)) Hy Hvs).
  destruct (loop_one ev ANY_TYPE_BITS junction_body s1 e u s' f (1 + Z.of_nat (length es)) rest rv tt (length rest) He Herr
    (type_expected_any _)) as (u' & Hu & ->).
  unfold junction_body at 1. rewrite Hu, Hstop. by eexists.
Qed.
End junctions.

(** The value at which a function stops, and what it returns then and otherwise. *)
Definition short_circuit_of (fp : UserDefinedFunction) : option ((value → bool) * value * value) :=
  match fp with
  | fp_AndFunction => Some (is_false, FalseSymbol, TrueSymbol)
  | fp_OrFunction => Some (fun v => negb (is_false v), TrueSymbol, FalseSymbol)
  | _ => None
  end.

(** [and] and [or] evaluate their arguments from left to right.  [and]
    returns [FALSE] at the first argument that is [FALSE], [or] returns [TRUE]
    at the first that is not, and the arguments after it are not evaluated;
    without such an argument all are evaluated and [and] returns [TRUE], [or] [FALSE]. *)
Theorem short_circuit_correct {W} `{!EvalHost W} n f stops stopped finished es rest (s s1 : EvalEnv W) vs :
  short_circuit_of (functionPointer f) = Some (stops, stopped, finished) →
  yields (EvaluateExpression (S n)) (enter (Some (EFcall f (es ++ rest))) s) es vs s1 →
  Forall (fun v => stops v = false) vs →
  (rest = [] → EvaluateExpression (S (S n)) (Some (EFcall f (es ++ rest))) s =
     Some (mkUDFValue finished 0 SIZE_MAX, enter (current_of s) s1)) ∧
  (∀ e rest' u s', rest = e :: rest' → EvaluateExpression (S n) (Some e) s1 = Some (u, s') → error_of s' = false →
     stops (uv_value u) = true →
     EvaluateExpression (S (S n)) (Some (EFcall f (es ++ rest))) s =
       Some (mkUDFValue stopped 0 SIZE_MAX, enter (current_of s) s')).
Proof.
  intros Hf Hy Hvs. rewrite eval_call.
  assert (Hcall : call_functionPointer (EvaluateExpression (S n)) (S n) (functionPointer f) =
    junction (EvaluateExpression (W := W) (S n)) stops stopped finished).
  { by destruct (functionPointer f); try done; injection Hf as <- <- <-. }
  assert (Hret : returned (set_uv_value finished initial_returnValue) = mkUDFValue finished 0 SIZE_MAX ∧
    returned (set_uv_value stopped initial_returnValue) = mkUDFValue stopped 0 SIZE_MAX).
  { by destruct (functionPointer f); try done; injection Hf as <- <- <-. }
  rewrite Hcall; destruct Hret as [Hfin Hstop]. split.
  - intros ->. rewrite app_nil_r in *.
    destruct (junction_finished (EvaluateExpression (S n)) stops stopped finished _ es vs s1 f initial_returnValue Hy Hvs)
      as (c & -> & ->). by rewrite Hfin.
  - intros e rest' u s' -> He Herr Hu.
    destruct (junction_stopped (EvaluateExpression (S n)) stops stopped finished _ es vs s1 e u s' rest' f initial_returnValue
      Hy Hvs He Herr Hu) as (c & -> & ->). by rewrite Hstop.
Qed.
Definition w_and : expr := w_call "and" ([w_int 0; w_sym "x"] ++ [w_sym "FALSE"; w_call "div" [w_int 1; w_int 0]]).
Lemma short_circuit_correct_witness :
  EvaluateExpression 2 (Some w_and) w_eval = Some (mkUDFValue FalseSymbol 0 SIZE_MAX, w_eval).
Proof.
  pose proof (short_circuit_correct 0 (w_fn "and") _ _ _ [w_int 0; w_sym "x"] [w_sym "FALSE"; w_call "div" [w_int 1; w_int 0]]
    w_eval (enter (Some w_and) w_eval) [VInteger 0; VSymbol "x"] eq_refl) as H.
  destruct H as [_ H].
  - apply w_yields; [|done]. repeat constructor.
  - repeat constructor.
  - eapply eq_trans; [eapply (H _ _ (mkUDFValue FalseSymbol 0 SIZE_MAX)); reflexivity|]. reflexivity.
Defined.

(** ** Parity *)

Lemma quot2_even z : (z =? Z.quot z 2 * 2) = Z.even z.
Proof.
  apply Bool.eq_iff_eq_true. rewrite Z.eqb_eq, Z.even_spec. split.
  - intros H. exists (Z.quot z 2). lia.
  - intros [k ->]. rewrite Z.mul_comm, Z.quot_mul by lia. lia.
Qed.

(** [oddp] and [evenp] decide the parity of every integer, the negative
    ones included, where the remainder of C would be negative. *)
Theorem parity_correct {W} `{!EvalHost W} n f e es (s : EvalEnv W) u s' z :
  EvaluateExpression (S n) (Some e) (enter (Some (EFcall f (e :: es))) s) = Some (u, s') →
  error_of s' = false → uv_value u = VInteger z →
  let run := EvaluateExpression (S (S n)) (Some (EFcall f (e :: es))) s in
  (functionPointer f = fp_OddpFunction → run = Some (mkUDFValue (bool_symbol (Z.odd z)) 0 SIZE_MAX, enter (current_of s) s')) ∧
  (functionPointer f = fp_EvenpFunction → run = Some (mkUDFValue (bool_symbol (Z.even z)) 0 SIZE_MAX, enter (current_of s) s')).
Proof.
  intros He Herr Hu run. subst run. rewrite eval_call.
  set (s1 := enter (Some (EFcall f (e :: es))) s) in *.
  destruct (next_argument_ok _ s1 e u s' f 1 es initial_returnValue None INTEGER_BIT He Herr) as (u' & Hu' & Hn); [by rewrite Hu|].
  assert (Hfirst : UDFFirstArgument (EvaluateExpression (S n)) (ToLocal None) INTEGER_BIT (s1, mkUDFContext f 1 (e :: es) initial_returnValue) =
    Some (true, Some u', (s', mkUDFContext f (1 + 1) es initial_returnValue)))
    by (rewrite (first_argument_eq _ _ _ _ f (e :: es)); [exact Hn|done]).
  assert (Hpar : (z =? Z.quot z 2 * 2) = Z.even z) by apply quot2_even.
  split; intros ->; unfold call_functionPointer, OddpFunction, EvenpFunction, arg_or_return;
    rewrite (M_bind_Some _ _ _ _ _ Hfirst); cbn beta iota; erewrite M_bind_Some by reflexivity;
    rewrite Hu', Hu; (erewrite M_bind_Some by reflexivity); cbv zeta; rewrite Hpar, ?Z.negb_even;
    rewrite <- ?Z.negb_even; by destruct (Z.even z).
Qed.
Lemma parity_correct_witness :
  EvaluateExpression 2 (Some (w_call "oddp" [w_int (-7)])) w_eval = Some (mkUDFValue TrueSymbol 0 SIZE_MAX, w_eval).
Proof.
  eapply eq_trans.
  - refine (proj1 (parity_correct 0 (w_fn "oddp") (w_int (-7)) [] w_eval (mkUDFValue (VInteger (-7)) 0 SIZE_MAX)
      (enter (Some (w_call "oddp" [w_int (-7)])) w_eval) (-7) eq_refl eq_refl eq_refl) _). reflexivity.
  - reflexivity.
Defined.

(** ** The conditional *)

Lemma returned_value u : uv_value (returned u) = uv_value u.
Proof. unfold returned. destruct (uv_value u) eqn:E; try done. by case_match. Qed.


(** A [break] or a [return] is under way. *)
Definition stop_of {W} (s : EvalEnv W) : bool := BreakFlag (procedureFunctionData s) || ReturnFlag (procedureFunctionData s).

(** [if] evaluates its condition, then exactly one branch: the second
    argument when the value is not [FALSE], the third when it is, and returns the value
    of the branch.  Without a third argument a false condition gives [FALSE]. *)
Theorem IfFunction_correct {W} `{!EvalHost W} n f cond thn els (s : EvalEnv W) u s1 :
  functionPointer f = fp_IfFunction → (length els <= 1)%nat →
  EvaluateExpression (S n) (Some cond) (enter (Some (EFcall f (cond :: thn :: els))) s) = Some (u, s1) →
  error_of s1 = false → stop_of s1 = false →
  match (if is_false (uv_value u) then head els else Some thn) with
  | None => EvaluateExpression (S (S n)) (Some (EFcall f (cond :: thn :: els))) s =
      Some (mkUDFValue FalseSymbol (uv_begin u) (uv_range u), enter (current_of s) s1)
  | Some branch => ∀ u' s2, EvaluateExpression (S n) (Some branch) s1 = Some (u', s2) → error_of s2 = false →
      ∃ r, EvaluateExpression (S (S n)) (Some (EFcall f (cond :: thn :: els))) s = Some (r, enter (current_of s) s2)
        ∧ uv_value r = uv_value u' ∧ (is_direct_constant branch = None → r = returned u')
  end.
Proof.
  intros Hf Hels He Herr Hstop. rewrite eval_call, Hf. unfold call_functionPointer.
  set (st := enter (Some (EFcall f (cond :: thn :: els))) s) in *.
  assert (Hc : current_of st = Some (EFcall f (cond :: thn :: els))) by done.
  assert (Hc1 : current_of s1 = Some (EFcall f (cond :: thn :: els))) by (rewrite (ev_current _ _ _ _ He); exact Hc).
  destruct (next_argument_returnValue _ st cond u s1 f 1 (thn :: els) initial_returnValue ANY_TYPE_BITS He Herr (type_expected_any _))
    as (v & Hv & Hv1 & Hv2 & Hn1).
  assert (v = u) as ->.
  { destruct (is_direct_constant cond) as [w|] eqn:Hd; [|by apply Hv1].
    rewrite (ev_direct _ _ _ Hd) in He. injection He as <- <-. rewrite (Hv2 (ex_intro _ w eq_refl)). done. }
  unfold IfFunction.
  assert (Hnth1 : UDFNthArgument (EvaluateExpression (S n)) 1 ToReturnValue ANY_TYPE_BITS (st, mkUDFContext f 1 (cond :: thn :: els) initial_returnValue) =
    Some (true, None, (s1, mkUDFContext f 2 (thn :: els) u))).
  { change (1 + 1) with 2 in Hn1. rewrite <- Hn1. apply (nth_argument_eq _ ToReturnValue ANY_TYPE_BITS st f [] (cond :: thn :: els)); [done|by exists []]. }
  rewrite (M_bind_Some _ _ _ _ _ Hnth1). cbn beta iota delta [negb].
  assert (Hbr : lift break_or_return (s1, mkUDFContext f 2 (thn :: els) u) = Some (false, (s1, mkUDFContext f 2 (thn :: els) u))).
  { unfold stop_of in Hstop. unfold lift, break_or_return, mbind, M_bind. simpl. by rewrite Hstop. }
  rewrite (M_bind_Some _ _ _ _ _ Hbr). cbn beta iota.
  unfold UDFArgumentCount. erewrite M_bind_Some by (rewrite (M_bind_Some _ _ _ _ _ (current_args_eq _ _ _ _ Hc1)); reflexivity).
  erewrite M_bind_Some by reflexivity. cbn [ctx_returnValue snd].
  destruct (is_false (uv_value u)) eqn:Hfalse; cbn [andb negb].
  - destruct els as [|e els]; [done|]. destruct els; [|simpl in Hels; lia]. cbn [head]. intros u' s2 He2 Herr2.
    change (Z.of_nat (length [cond; thn; e]) =? 3) with true. cbn beta iota.
    destruct (next_argument_returnValue _ s1 e u' s2 f 3 [] u ANY_TYPE_BITS He2 Herr2 (type_expected_any _))
      as (r & Hr & Hr1 & _ & Hn2).
    pose proof (nth_argument_eq (EvaluateExpression (S n)) ToReturnValue ANY_TYPE_BITS s1 f [cond; thn] [e] 2 [thn; e] u Hc1
      (ex_intro _ [cond] (conj eq_refl eq_refl))) as Hnth2.
    change (1 + Z.of_nat (length [cond; thn])) with 3 in Hnth2. rewrite Hn2 in Hnth2.
    rewrite (M_bind_Some _ _ _ _ _ Hnth2). exists (returned r). split_and!; [done|by rewrite returned_value|].
    intros Hd. by rewrite (Hr1 Hd).
  - intros u' s2 He2 Herr2.
    destruct (next_argument_returnValue _ s1 thn u' s2 f 2 els u ANY_TYPE_BITS He2 Herr2 (type_expected_any _))
      as (r & Hr & Hr1 & _ & Hn2).
    pose proof (nth_argument_eq (EvaluateExpression (S n)) ToReturnValue ANY_TYPE_BITS s1 f [cond] (thn :: els) 2 (thn :: els) u Hc1
      (ex_intro _ [cond] (conj eq_refl eq_refl))) as Hnth2.
    change (1 + Z.of_nat (length [cond])) with 2 in Hnth2. rewrite Hn2 in Hnth2.
    rewrite (M_bind_Some _ _ _ _ _ Hnth2). exists (returned r). split_and!; [done|by rewrite returned_value|].
    intros Hd. by rewrite (Hr1 Hd).
Qed.
Definition w_if : expr := w_call "if" [w_call ">" [w_int 1; w_int 2]; w_call "div" [w_int 1; w_int 0]; w_str "no"].
Lemma IfFunction_correct_witness :
  ∃ r, EvaluateExpression 3 (Some w_if) w_eval = Some (r, w_eval) ∧ uv_value r = VString "no".
Proof.
  pose proof (IfFunction_correct 1 (w_fn "if") (w_call ">" [w_int 1; w_int 2]) (w_call "div" [w_int 1; w_int 0]) [w_str "no"]
    w_eval (mkUDFValue FalseSymbol 0 SIZE_MAX) (enter (Some w_if) w_eval) eq_refl (le_n 1) eq_refl eq_refl eq_refl) as H.
  cbn [uv_value] in H. change (is_false FalseSymbol) with true in H. cbn [head] in H.
  destruct (H (mkUDFValue (VString "no") 0 SIZE_MAX) (enter (Some w_if) w_eval) eq_refl eq_refl) as (r & Hr & Hv & _).
  exists r. split; [|exact Hv]. eapply eq_trans; [exact Hr|]. reflexivity.
Defined.

(** ** Catching errors *)

Lemma evaluate_to_returnValue_eq {W} (ev : Evaluator W) p s v s' c :
  ev p s = Some (v, s') → evaluate_to_returnValue ev p (s, c) = Some (tt, (s', with_returnValue (fun _ => v) c)).
Proof. intros H. unfold evaluate_to_returnValue, lift, mbind, M_bind. by rewrite H. Qed.

(** Both error flags reset. *)
Definition clear_flags {W} (s : EvalEnv W) : EvalEnv W :=
  with_evaluationData (fun d => set_HaltExecution false (set_EvaluationError false d)) s.

(** [try] returns [FALSE] when its first argument leaves no error.  When it
    leaves one, both error flags are reset, the second argument, if there is
    one, is evaluated in that state, and [TRUE] is returned: an error is not
    visible to the caller unless the handler raises it. *)
Theorem TryFunction_correct {W} `{!EvalHost W} n f e handlers (s : EvalEnv W) u s1 :
  functionPointer f = fp_TryFunction →
  EvaluateExpression (S n) (Some e) (enter (Some (EFcall f (e :: handlers))) s) = Some (u, s1) →
  let run := EvaluateExpression (S (S n)) (Some (EFcall f (e :: handlers))) s in
  (error_of s1 = false → run = Some (mkUDFValue FalseSymbol (uv_begin u) (uv_range u), enter (current_of s) s1)) ∧
  (error_of s1 = true → ∀ u' s2, EvaluateExpression (S n) (head handlers) (clear_flags s1) = Some (u', s2) →
     run = Some (mkUDFValue TrueSymbol (uv_begin u') (uv_range u'), enter (current_of s) s2)).
Proof.
  intros Hf He run. subst run. rewrite eval_call, Hf. unfold call_functionPointer, TryFunction.
  set (st := enter (Some (EFcall f (e :: handlers))) s) in *.
  assert (Hc : current_of st = Some (EFcall f (e :: handlers))) by done.
  rewrite (M_bind_Some _ _ _ _ _ (current_args_eq _ _ _ _ Hc)). cbn beta iota.
  rewrite (M_bind_Some _ _ _ _ _ (evaluate_to_returnValue_eq _ _ _ _ _ _ He)). unfold error_of. split.
  - intros Herr. erewrite M_bind_Some by reflexivity. simpl. simpl in Herr. rewrite Herr. done.
  - intros Herr u' s2 Hh. erewrite M_bind_Some by reflexivity. simpl. simpl in Herr. rewrite Herr. simpl.
    erewrite M_bind_Some by reflexivity. erewrite M_bind_Some by reflexivity.
    by erewrite M_bind_Some by exact (evaluate_to_returnValue_eq _ (head handlers) (clear_flags s1) u' s2 _ Hh).
Qed.
Definition w_try : expr := w_call "try" [w_call "+" [w_int 1; w_str "x"]; w_int 5].
Lemma TryFunction_correct_witness :
  ∃ u s2, EvaluateExpression 3 (Some w_try) w_eval = Some (mkUDFValue TrueSymbol 0 SIZE_MAX, s2)
    ∧ EvaluateExpression 2 (Some (w_call "+" [w_int 1; w_str "x"])) w_eval = Some u
    ∧ error_of u.2 = true ∧ error_of s2 = false ∧ halt_of s2 = false.
Proof.
  do 2 eexists. split.
  - eapply (proj2 (TryFunction_correct 1 (w_fn "try") (w_call "+" [w_int 1; w_str "x"]) [w_int 5] w_eval _ _ eq_refl eq_refl) eq_refl
      (mkUDFValue (VInteger 5) 0 SIZE_MAX)). reflexivity.
  - split_and!; vm_compute; reflexivity.
Defined.

(** ** Variables *)

Lemma find_set_bind binds x u y :
  find_bind (set_bind binds x u) y = if decide (y = x) then Some u else find_bind binds y.
Proof.
  induction binds as [|[z v] binds IH]; simpl.
  - case_bool_decide; destruct (decide (y = x)); naive_solver.
  - case_bool_decide as Hz; simpl; case_bool_decide as Hy; try rewrite IH; destruct (decide (y = x)); naive_solver.
Qed.
Lemma find_remove_bind binds x y :
  NoDup binds.*1 → find_bind (remove_bind binds x) y = if decide (y = x) then None else find_bind binds y.
Proof.
  induction binds as [|[z v] binds IH]; simpl; [intros _; by case_decide|]. intros [Hz Hnd]%NoDup_cons.
  specialize (IH Hnd). case_bool_decide as Hzx; simpl.
  - subst z. case_bool_decide as Hxy; [subst y|by rewrite decide_False by congruence].
    rewrite (decide_True (P := x = x)) by done. clear -Hz. induction binds as [|[z v'] binds IH]; [done|].
    simpl in *. apply not_elem_of_cons in Hz as [Hzx Hz]. rewrite bool_decide_false by congruence. by apply IH.
  - rewrite IH. case_bool_decide; [rewrite decide_False by congruence|]; done.
Qed.
Lemma eval_bound {W} `{!EvalHost W} m mf x (s : EvalEnv W) u :
  find_bind (BindList (procedureFunctionData s)) x = Some u →
  EvaluateExpression (S m) (Some (EVariable mf x)) s = Some (u, s).
Proof.
  intros H. cbn [EvaluateExpression].
  by rewrite (M_bind_Some _ _ s (Some u) s) by (unfold GetBoundVariable, gets; by rewrite H).
Qed.
Lemma eval_unbound {W} `{!EvalHost W} m mf x (s : EvalEnv W) :
  find_bind (BindList (procedureFunctionData s)) x = None →
  ∃ msg, EvaluateExpression (S m) (Some (EVariable mf x)) s = Some (mkUDFValue FalseSymbol 0 SIZE_MAX, failed msg s).
Proof.
  intros H. eexists. cbn [EvaluateExpression].
  rewrite (M_bind_Some _ _ s None s) by (unfold GetBoundVariable, gets; by rewrite H).
  do 6 (erewrite M_bind_Some by reflexivity).
  change (@map_output (EvalEnv W) _) with (with_output (W := W)). rewrite !with_output_app. reflexivity.
Qed.

(** After [(bind ?x e)] every read of [?x] gives the value [e] had, the
    other variables are unchanged, and the value of the call is that of [e]. *)
Theorem bind_read_roundtrip {W} `{!EvalHost W} n f x e (s : EvalEnv W) u s1 :
  functionPointer f = fp_BindFunction →
  EvaluateExpression (S n) (Some e) (enter (Some (EFcall f [EConst (VSymbol x); e])) s) = Some (u, s1) →
  ∃ s', EvaluateExpression (S (S n)) (Some (EFcall f [EConst (VSymbol x); e])) s = Some (returned u, s') ∧
    error_of s' = error_of s1 ∧
    (∀ m multifield, EvaluateExpression (S m) (Some (EVariable multifield x)) s' = Some (u, s')) ∧
    (∀ y, y ≠ x → GetBoundVariable y s' = Some (find_bind (BindList (procedureFunctionData s1)) y, s')).
Proof.
  intros Hf He. rewrite eval_call, Hf. unfold call_functionPointer, BindFunction.
  set (st := enter (Some (EFcall f [EConst (VSymbol x); e])) s) in *.
  assert (Hc : current_of st = Some (EFcall f [EConst (VSymbol x); e])) by done.
  rewrite (M_bind_Some _ _ _ _ _ (current_args_eq _ _ _ _ Hc)). cbn beta iota.
  erewrite M_bind_Some by reflexivity. erewrite M_bind_Some by reflexivity. cbv zeta.
  rewrite (M_bind_Some _ _ _ _ _ (evaluate_to_returnValue_eq _ _ _ _ _ _ He)). erewrite M_bind_Some by reflexivity.
  erewrite M_bind_Some by reflexivity. erewrite M_bind_Some by reflexivity.
  eexists. split; [reflexivity|]. split_and!; [done| |].
  - intros m mf. apply eval_bound. cbn. by rewrite find_set_bind, decide_True.
  - intros y Hy. unfold GetBoundVariable, gets. cbn. rewrite find_set_bind. by rewrite decide_False.
Qed.
Lemma bind_read_roundtrip_witness :
  ∃ s', EvaluateExpression 3 (Some (w_call "bind" [w_sym "x"; w_call "+" [w_int 1; w_int 2]])) w_eval = Some (mkUDFValue (VInteger 3) 0 SIZE_MAX, s') ∧
    EvaluateExpression 1 (Some (EVariable false "x")) s' = Some (mkUDFValue (VInteger 3) 0 SIZE_MAX, s').
Proof.
  destruct (bind_read_roundtrip 1 (w_fn "bind") "x" (w_call "+" [w_int 1; w_int 2]) w_eval (mkUDFValue (VInteger 3) 0 SIZE_MAX)
    (enter (Some (w_call "bind" [w_sym "x"; w_call "+" [w_int 1; w_int 2]])) w_eval) eq_refl eq_refl) as (s' & H & _ & Hx & _).
  exists s'. split; [exact H|exact (Hx 0%nat false)].
Defined.

(** After [(bind ?x)] the variable is unbound: the call returns [FALSE], a
    read of [?x] gives [FALSE] with both error flags set, and the other
    variables are unchanged. *)
Theorem unbind_read_error {W} `{!EvalHost W} n f x (s : EvalEnv W) :
  functionPointer f = fp_BindFunction → NoDup (BindList (procedureFunctionData s)).*1 →
  ∃ s', EvaluateExpression (S (S n)) (Some (EFcall f [EConst (VSymbol x)])) s = Some (mkUDFValue FalseSymbol 0 SIZE_MAX, s') ∧
    (∀ m multifield, ∃ msg, EvaluateExpression (S m) (Some (EVariable multifield x)) s' =
       Some (mkUDFValue FalseSymbol 0 SIZE_MAX, failed msg s')) ∧
    (∀ y, y ≠ x → GetBoundVariable y s' = Some (find_bind (BindList (procedureFunctionData s)) y, s')).
Proof.
  intros Hf Hnd. rewrite eval_call, Hf. unfold call_functionPointer, BindFunction.
  set (st := enter (Some (EFcall f [EConst (VSymbol x)])) s) in *.
  assert (Hc : current_of st = Some (EFcall f [EConst (VSymbol x)])) by done.
  rewrite (M_bind_Some _ _ _ _ _ (current_args_eq _ _ _ _ Hc)). cbn beta iota.
  erewrite M_bind_Some by reflexivity. erewrite M_bind_Some by reflexivity. cbv zeta.
  erewrite M_bind_Some by reflexivity. erewrite M_bind_Some by reflexivity.
  set (binds := BindList (procedureFunctionData st)).
  set (st' := if bool_decide (is_Some (find_bind binds x))
    then with_procedureFunctionData (set_BindList (remove_bind binds x)) st else st).
  assert (Hfind : ∀ y, find_bind (BindList (procedureFunctionData st')) y = if decide (y = x) then None else find_bind binds y).
  { intros y. subst st'. case_bool_decide as Hb; [by apply find_remove_bind|].
    case_decide as Hy; [subst y|done]. by apply eq_None_not_Some. }
  erewrite M_bind_Some by reflexivity. cbn beta iota delta [uv_value set_uv_value snd ctx_returnValue].
  erewrite (M_bind_Some _ _ _ tt (st', _)) by (fold binds; subst st'; case_bool_decide; reflexivity).
  eexists. split; [reflexivity|]. split.
  - intros m mf. apply eval_unbound. cbn. by rewrite Hfind, decide_True.
  - intros y Hy. unfold GetBoundVariable, gets. cbn. rewrite Hfind. by rewrite decide_False.
Qed.
Lemma unbind_read_error_witness :
  ∃ s s' msg, EvaluateExpression 2 (Some (w_call "bind" [w_sym "x"])) s = Some (mkUDFValue FalseSymbol 0 SIZE_MAX, s') ∧
    GetBoundVariable "x" s = Some (Some (mkUDFValue (VInteger 3) 0 SIZE_MAX), s) ∧
    EvaluateExpression 1 (Some (EVariable false "x")) s' = Some (mkUDFValue FalseSymbol 0 SIZE_MAX, failed msg s').
Proof.
  set (s := with_procedureFunctionData (set_BindList [("x", mkUDFValue (VInteger 3) 0 SIZE_MAX)]) w_eval).
  destruct (unbind_read_error 0 (w_fn "bind") "x" s eq_refl) as (s' & H & Hx & _); [repeat constructor; by intros ?%elem_of_nil|].
  destruct (Hx 0%nat false) as [msg Hmsg]. exists s, s', msg. split_and!; [exact H|reflexivity|exact Hmsg].
Defined.

(** * Theorems on counted loops

    [loop-for-count] of [prcdrfun.c]: the sequence of its iterations as a
    relation, a run with enough fuel, and the end of the range of [long long]. *)

#[local] Open Scope Z_scope.

Section counted.
Context {W : Type} `{!EvalHost W} (ev : Evaluator W) `{!EvaluatorLaws ev}.

(** What [CallPeriodicTasks] leaves. *)
Definition periodic (s : EvalEnv W) : EvalEnv W :=
  if PeriodicFunctionsEnabled (utilityData s)
  then with_world (fun w => fold_left (fun w f => voidCallFunction f w) (ListOfPeriodicFunctions (utilityData s)) w) s
  else s.
Lemma CallPeriodicTasks_eq s : CallPeriodicTasks s = Some (tt, periodic s).
Proof.
  unfold CallPeriodicTasks, periodic. rewrite (M_bind_Some _ _ s (utilityData s) s) by done.
  by destruct (PeriodicFunctionsEnabled (utilityData s)).
Qed.

Definition with_counters (l : list Z) : EvalEnv W → EvalEnv W := with_procedureFunctionData (set_LoopCounterStack l).

(** [k] iterations of the body from counter [z] on, above the counters [nxt] of
    the outer loops, none of which stops the loop. *)
Inductive counted (body : expr) (nxt : list Z) : Z → nat → EvalEnv W → EvalEnv W → Prop :=
| counted_done z s : counted body nxt z 0 s s
| counted_step z k s u s1 s2 :
  halt_of s = false → stop_of s = false → ev (Some body) s = Some (u, s1) →
  error_of s1 = false → stop_of s1 = false →
  counted body nxt (z + 1) k (with_counters (z + 1 :: nxt) (periodic s1)) s2 →
  counted body nxt z (S k) s s2.

Lemma periodic_current s : current_of (periodic s) = current_of s.
Proof. unfold periodic. by case_match. Qed.
Lemma counted_current body nxt z k s s' : counted body nxt z k s s' → current_of s' = current_of s.
Proof.
  induction 1 as [|z k s u s1 s2 Hh Hs He Herr Hs1 H IH]; [done|]. rewrite IH.
  rewrite <- (ev_current _ _ _ _ He). apply periodic_current.
Qed.

Lemma break_or_return_eq (s : EvalEnv W) : break_or_return s = Some (stop_of s, s).
Proof. done. Qed.
Lemma lift_eq {A} (m : M (EvalEnv W) A) s a s' c : m s = Some (a, s') → lift m (s, c) = Some (a, (s', c)).
Proof. intros H. unfold lift. by rewrite H. Qed.

(** One iteration. *)
Lemma count_loop_step f a b body n nxt z limit o p l rv s u s1 :
  current_of s = Some (EFcall f [a; b; body]) → (∃ r, [a; b; body] = r ++ l ∧ p = 1 + Z.of_nat (length r)) →
  halt_of s = false → stop_of s = false → ev (Some body) s = Some (u, s1) → error_of s1 = false → stop_of s1 = false →
  z <= limit →
  ∃ o', count_loop ev (S n) nxt z limit o (s, mkUDFContext f p l rv) =
  match long_long (z + 1) with
  | Some z' => count_loop ev n nxt z' limit o' (with_counters (z' :: nxt) (periodic s1), mkUDFContext f 4 [] rv)
  | None => None
  end.
Proof.
  intros Hc Hl Hh Hs He Herr Hs1 Hz. cbn [count_loop].
  rewrite (M_bind_Some _ _ _ false (s, mkUDFContext f p l rv)) by (unfold GetHaltExecution, gets; by rewrite <- Hh).
  replace ((z <=? limit) && negb false) with true by lia. cbn beta iota.
  rewrite (M_bind_Some _ _ _ _ _ (lift_eq _ _ _ _ _ (break_or_return_eq s))), Hs. cbn beta iota.
  destruct (next_argument_ok ev s body u s1 f 3 [] rv o ANY_TYPE_BITS He Herr (type_expected_any _)) as (u' & Hu & Hn).
  pose proof (nth_argument_eq ev (ToLocal o) ANY_TYPE_BITS s f [a; b] [body] p l rv Hc Hl) as Hnth.
  change (1 + Z.of_nat (length [a; b])) with 3 in Hnth. rewrite Hn in Hnth.
  rewrite (M_bind_Some _ _ _ _ _ Hnth). cbn beta iota.
  rewrite (M_bind_Some _ _ _ _ _ (lift_eq _ _ _ _ _ (break_or_return_eq s1))), Hs1. cbn beta iota.
  rewrite (M_bind_Some _ _ _ _ _ (lift_eq _ _ _ _ _ (CallPeriodicTasks_eq s1))).
  exists (Some u'). unfold mbind at 1, M_bind at 1. destruct (long_long (z + 1)); done.
Qed.

(** [k] iterations take [k] units of fuel. *)
Lemma count_loop_counted f a b body k n nxt z limit o p l rv s s' :
  counted body nxt z k s s' → z + Z.of_nat k <= limit + 1 → LLONG_MIN <= z → limit < LLONG_MAX ∨ z + Z.of_nat k <= limit →
  current_of s = Some (EFcall f [a; b; body]) → (∃ r, [a; b; body] = r ++ l ∧ p = 1 + Z.of_nat (length r)) →
  limit <= LLONG_MAX →
  ∃ o' p' l', (∃ r, [a; b; body] = r ++ l' ∧ p' = 1 + Z.of_nat (length r)) ∧
  count_loop ev (k + n) nxt z limit o (s, mkUDFContext f p l rv) =
  count_loop ev n nxt (z + Z.of_nat k) limit o' (s', mkUDFContext f p' l' rv).
Proof.
  intros Hk. revert o p l. induction Hk as [z s|z k s u s1 s2 Hh Hs He Herr Hs1 H IH]; intros o p l Hlim Hmin Hmax Hc Hl Hb.
  - exists o, p, l. split; [done|]. by rewrite Z.add_0_r.
  - destruct (count_loop_step f a b body (k + n) nxt z limit o p l rv s u s1) as (o1 & Hstep); try done; [lia|].
    cbn [Nat.add]. rewrite Hstep, long_long_Some by lia.
    destruct (IH o1 4 []) as (o' & p' & l' & Hl' & ->); [lia|lia|lia| |by exists [a; b; body]|done|].
    + rewrite <- Hc, <- (ev_current _ _ _ _ He). apply periodic_current.
    + exists o', p', l'. split; [done|]. by replace (z + Z.of_nat (S k)) with (z + 1 + Z.of_nat k) by lia.
Qed.

(** The loop ends when the counter has passed the limit. *)
Lemma count_loop_end n nxt z limit o s c :
  limit < z → count_loop ev n nxt z limit o (s, c) = Some (o, (s, c)).
Proof.
  intros Hz. destruct n; cbn [count_loop];
    (rewrite (M_bind_Some _ _ _ (halt_of s) (s, c)) by done); by replace (z <=? limit) with false by lia.
Qed.

Lemma finish_loop_eq o (s : EvalEnv W) c :
  ReturnFlag (procedureFunctionData s) = false →
  finish_loop o (s, c) = Some (tt, (with_procedureFunctionData (set_BreakFlag false) s, with_returnValue (set_uv_value FalseSymbol) c)).
Proof.
  intros Hr. unfold finish_loop. erewrite M_bind_Some by reflexivity.
  rewrite (M_bind_Some _ _ _ false (with_procedureFunctionData (set_BreakFlag false) s, c)); [done|].
  unfold lift, get_ReturnFlag, gets. cbn. by rewrite Hr.
Qed.

(** The two bounds. *)
Lemma bounds_eq f ea eb body s ua s1 ub s2 a b rv :
  current_of s = Some (EFcall f [ea; eb; body]) →
  let nxt := stack_of s in
  ev (Some ea) (with_counters (0 :: nxt) s) = Some (ua, s1) → error_of s1 = false → uv_value ua = VInteger a →
  ev (Some eb) (with_counters (a :: nxt) s1) = Some (ub, s2) → error_of s2 = false → uv_value ub = VInteger b →
  ∃ o, ∀ n, LoopForCountFunction ev n (s, mkUDFContext f 1 [ea; eb; body] rv) =
  (theArg ← count_loop ev n nxt a b o;
   _ ← finish_loop theArg; _ ← put_LoopCounterStack nxt; lift CallPeriodicTasks) (s2, mkUDFContext f 3 [body] rv).
Proof.
  intros Hc nxt Ha Hea Hua Hb Heb Hub.
  destruct (next_argument_ok ev _ ea ua s1 f 1 [eb; body] rv None INTEGER_BIT Ha Hea) as (va & Hva & Hna); [by rewrite Hua|].
  assert (Hc1 : current_of (with_counters (0 :: nxt) s) = Some (EFcall f [ea; eb; body])) by done.
  pose proof (nth_argument_eq ev (ToLocal None) INTEGER_BIT _ f [] [ea; eb; body] 1 [ea; eb; body] rv Hc1
    (ex_intro _ [] (conj eq_refl eq_refl))) as Hnth1.
  change (1 + Z.of_nat (length (@nil expr))) with 1 in Hnth1. rewrite Hna in Hnth1.
  assert (Hc2 : current_of (with_counters (a :: nxt) s1) = Some (EFcall f [ea; eb; body]))
    by (rewrite <- Hc1, <- (ev_current _ _ _ _ Ha); done).
  destruct (next_argument_ok ev _ eb ub s2 f 2 [body] rv (Some va) INTEGER_BIT Hb Heb) as (vb & Hvb & Hnb); [by rewrite Hub|].
  pose proof (nth_argument_eq ev (ToLocal (Some va)) INTEGER_BIT _ f [ea] [eb; body] 2 [eb; body] rv Hc2
    (ex_intro _ [ea] (conj eq_refl eq_refl))) as Hnth2.
  change (1 + Z.of_nat (length [ea])) with 2 in Hnth2. rewrite Hnb in Hnth2.
  exists (Some vb). intros n. unfold LoopForCountFunction. erewrite M_bind_Some by reflexivity. fold nxt.
  rewrite (M_bind_Some _ _ _ tt (with_counters (0 :: nxt) s, mkUDFContext f 1 [ea; eb; body] rv)) by done.
  rewrite (M_bind_Some _ _ _ _ _ Hnth1). cbn beta iota delta [negb].
  erewrite M_bind_Some by (cbn; rewrite Hva, Hua; reflexivity).
  rewrite (M_bind_Some _ _ _ tt (with_counters (a :: nxt) s1, mkUDFContext f 2 [eb; body] rv)) by done.
  rewrite (M_bind_Some _ _ _ _ _ Hnth2). cbn beta iota delta [negb].
  by erewrite M_bind_Some by (cbn; rewrite Hvb, Hub; reflexivity).
Qed.
End counted.

(** The bounds of a loop: [ea] gives [a] and [eb] gives [b], each evaluated with
    the counter pushed; [s2] is the state the first iteration starts from. *)
Definition loop_bounds {W} (ev : Evaluator W) (ea eb : expr) (s s2 : EvalEnv W) (a b : Z) : Prop :=
  ∃ ua s1 ub, ev (Some ea) (with_counters (0 :: stack_of s) s) = Some (ua, s1) ∧ error_of s1 = false ∧ uv_value ua = VInteger a ∧
    ev (Some eb) (with_counters (a :: stack_of s) s1) = Some (ub, s2) ∧ error_of s2 = false ∧ uv_value ub = VInteger b.

(** A larger fuel repeats the bounds and the iterations. *)
Lemma loop_bounds_mono {W} (ev1 ev2 : Evaluator W) ea eb (s s2 : EvalEnv W) a b :
  (∀ p s r, ev1 p s = Some r → ev2 p s = Some r) → loop_bounds ev1 ea eb s s2 a b → loop_bounds ev2 ea eb s s2 a b.
Proof.
  intros Hmono (ua & s1 & ub & H1 & He1 & Hu1 & H2 & He2 & Hu2). exists ua, s1, ub. split_and!; auto.
Qed.
Lemma counted_mono {W} `{!EvalHost W} (ev1 ev2 : Evaluator W) body nxt z k (s s' : EvalEnv W) :
  (∀ p s r, ev1 p s = Some r → ev2 p s = Some r) → counted ev1 body nxt z k s s' → counted ev2 body nxt z k s s'.
Proof. intros Hmono. induction 1; econstructor; eauto. Qed.

Lemma loop_run {W} `{!EvalHost W} n f ea eb body (s s2 : EvalEnv W) a b :
  functionPointer f = fp_LoopForCountFunction →
  loop_bounds (EvaluateExpression (S n)) ea eb (enter (Some (EFcall f [ea; eb; body])) s) s2 a b →
  current_of s2 = Some (EFcall f [ea; eb; body]) ∧
  ∃ o, EvaluateExpression (S (S n)) (Some (EFcall f [ea; eb; body])) s =
    match (theArg ← count_loop (EvaluateExpression (S n)) (S n) (stack_of s) a b o;
           _ ← finish_loop theArg; _ ← put_LoopCounterStack (stack_of s); lift CallPeriodicTasks)
          (s2, mkUDFContext f 3 [body] initial_returnValue) with
    | Some (_, (s', c)) => Some (returned (ctx_returnValue c), enter (current_of s) s')
    | None => None
    end.
Proof.
  intros Hf (ua & s1 & ub & Ha & Hea & Hua & Hb & Heb & Hub). split.
  { rewrite (ev_current _ _ _ _ Hb). exact (ev_current _ _ _ _ Ha). }
  destruct (bounds_eq (EvaluateExpression (S n)) f ea eb body (enter (Some (EFcall f [ea; eb; body])) s) ua s1 ub s2 a b
    initial_returnValue eq_refl Ha Hea Hua Hb Heb Hub) as (o & Ho).
  exists o. rewrite eval_call, Hf. unfold call_functionPointer. by rewrite Ho.
Qed.

(** C38: a [loop-for-count] from [a] to [b], below the largest [long long], whose
    body completes every iteration, evaluates the body exactly for the counters
    [a], ..., [b] in order (not at all when [b < a]) and returns [FALSE], with the
    stack of counters restored; one unit of fuel per iteration is enough. *)
Theorem LoopForCount_correct {W} `{!EvalHost W} n f ea eb body (s s2 s3 : EvalEnv W) a b :
  functionPointer f = fp_LoopForCountFunction →
  loop_bounds (EvaluateExpression (S n)) ea eb (enter (Some (EFcall f [ea; eb; body])) s) s2 a b →
  LLONG_MIN <= a → b < LLONG_MAX → (Z.to_nat (b - a + 1) <= S n)%nat →
  counted (EvaluateExpression (S n)) body (stack_of s) a (Z.to_nat (b - a + 1)) s2 s3 → stop_of s3 = false →
  EvaluateExpression (S (S n)) (Some (EFcall f [ea; eb; body])) s =
    Some (mkUDFValue FalseSymbol 0 SIZE_MAX, enter (current_of s) (periodic (with_counters (stack_of s)
      (with_procedureFunctionData (set_BreakFlag false) s3)))).
Proof.
  intros Hf Hbounds Ha Hb Hn Hk Hstop. destruct (loop_run n f ea eb body s s2 a b Hf Hbounds) as (Hc & o & ->).
  assert (∃ o' p l, count_loop (EvaluateExpression (S n)) (S n) (stack_of s) a b o (s2, mkUDFContext f 3 [body] initial_returnValue) =
    Some (o', (s3, mkUDFContext f p l initial_returnValue))) as (o' & p & l & Hrun).
  { destruct (Z.lt_ge_cases b a) as [Hlt|Hge].
    - replace (Z.to_nat (b - a + 1)) with 0%nat in Hk by lia. inversion Hk; subst. exists o, 3, [body]. by apply count_loop_end.
    - destruct (count_loop_counted (EvaluateExpression (S n)) f ea eb body _ (S n - Z.to_nat (b - a + 1))%nat (stack_of s) a b o 3 [body]
        initial_returnValue s2 s3 Hk) as (o' & p & l & _ & Hrun); [lia|done|lia|done|by exists [ea; eb]|lia|].
      replace (Z.to_nat (b - a + 1) + (S n - Z.to_nat (b - a + 1)))%nat with (S n) in Hrun by lia.
      rewrite Hrun. exists o', p, l. apply count_loop_end. lia. }
  rewrite (M_bind_Some _ _ _ _ _ Hrun). unfold stop_of in Hstop. apply orb_false_iff in Hstop as [_ Hr].
  rewrite (M_bind_Some _ _ _ _ _ (finish_loop_eq o' s3 _ Hr)). erewrite M_bind_Some by reflexivity.
  by erewrite (lift_eq CallPeriodicTasks) by apply CallPeriodicTasks_eq.
Qed.

Definition w_count : list expr := [w_int 1; w_int 3; w_call "bind" [w_sym "x"; w_call "(get-loop-count)" [w_int 0]]].
Lemma LoopForCount_correct_witness :
  ∃ s2 s3, EvaluateExpression 4 (Some (w_call "loop-for-count" w_count)) w_eval =
      Some (mkUDFValue FalseSymbol 0 SIZE_MAX, enter None (periodic (with_counters []
        (with_procedureFunctionData (set_BreakFlag false) s3)))) ∧
    counted (EvaluateExpression 3) (w_call "bind" [w_sym "x"; w_call "(get-loop-count)" [w_int 0]]) [] 1 3 s2 s3 ∧
    find_bind (BindList (procedureFunctionData s3)) "x" = Some (mkUDFValue (VInteger 3) 0 SIZE_MAX).
Proof.
  set (s := enter (Some (w_call "loop-for-count" w_count)) w_eval).
  set (after := λ z, with_procedureFunctionData (set_BindList [("x", mkUDFValue (VInteger z) 0 SIZE_MAX)]) (with_counters [z] s)).
  assert (Hk : counted (EvaluateExpression 3) (w_call "bind" [w_sym "x"; w_call "(get-loop-count)" [w_int 0]]) [] 1 3
    (with_counters [1] s) (with_counters [4] (after 3))).
  { eapply (counted_step _ _ _ _ 2 _ (mkUDFValue (VInteger 1) 0 SIZE_MAX) (after 1)); try reflexivity.
    eapply (counted_step _ _ _ _ 1 _ (mkUDFValue (VInteger 2) 0 SIZE_MAX) (after 2)); try reflexivity.
    eapply (counted_step _ _ _ _ 0 _ (mkUDFValue (VInteger 3) 0 SIZE_MAX) (after 3)); try reflexivity.
    apply counted_done. }
  exists (with_counters [1] s), (with_counters [4] (after 3)). split_and!; [|exact Hk|reflexivity].
  apply (LoopForCount_correct 2 (w_fn "loop-for-count") (w_int 1) (w_int 3) (w_call "bind" [w_sym "x"; w_call "(get-loop-count)" [w_int 0]])
    w_eval (with_counters [1] s) (with_counters [4] (after 3)) 1 3); try reflexivity; try exact Hk; try (vm_compute; discriminate); try (apply Nat.leb_le; reflexivity).
  exists (mkUDFValue (VInteger 1) 0 SIZE_MAX), (with_counters [0] s), (mkUDFValue (VInteger 3) 0 SIZE_MAX). split_and!; reflexivity.
Defined.

(** A [loop-for-count] up to the largest [long long] whose body completes
    every iteration has undefined behaviour: after the last one the counter is
    incremented once more, before it is compared with the limit. *)
Theorem LoopForCount_overflow {W} `{!EvalHost W} n f ea eb body (s s2 s3 : EvalEnv W) a u s4 :
  functionPointer f = fp_LoopForCountFunction →
  loop_bounds (EvaluateExpression (S n)) ea eb (enter (Some (EFcall f [ea; eb; body])) s) s2 a LLONG_MAX →
  LLONG_MIN <= a <= LLONG_MAX →
  counted (EvaluateExpression (S n)) body (stack_of s) a (Z.to_nat (LLONG_MAX - a)) s2 s3 →
  halt_of s3 = false → stop_of s3 = false → EvaluateExpression (S n) (Some body) s3 = Some (u, s4) →
  error_of s4 = false → stop_of s4 = false →
  ∀ m, EvaluateExpression m (Some (EFcall f [ea; eb; body])) s = None.
Proof.
  intros Hf Hbounds Ha Hk Hh Hs He Herr Hs4 m.
  destruct (EvaluateExpression m _ s) as [r|] eqn:Hm; [|done]. exfalso.
  set (k := Z.to_nat (LLONG_MAX - a)) in *.
  apply (below_EvaluateExpression m (S (S (m + n + k)))) in Hm; [|lia].
  assert (Hbelow : ∀ p s r, EvaluateExpression (S n) p s = Some r → EvaluateExpression (S (m + n + k)) p s = Some r)
    by (intros p st r'; apply below_EvaluateExpression; lia).
  destruct (loop_run (m + n + k) f ea eb body s s2 a LLONG_MAX Hf) as (Hc & o & Hrun).
  { by eapply loop_bounds_mono. }
  assert (Hk' : counted (EvaluateExpression (S (m + n + k))) body (stack_of s) a k s2 s3).
  { by eapply counted_mono. }
  destruct (count_loop_counted (EvaluateExpression (S (m + n + k))) f ea eb body k (S (m + n)) (stack_of s) a LLONG_MAX o 3 [body]
    initial_returnValue s2 s3 Hk') as (o' & p & l & Hl & Hloop); [lia|lia|lia|done|by exists [ea; eb]|lia|].
  destruct (count_loop_step (EvaluateExpression (S (m + n + k))) f ea eb body (m + n) (stack_of s) (a + Z.of_nat k) LLONG_MAX o' p l
    initial_returnValue s3 u s4) as (o2 & Hstep); auto.
  { by rewrite (counted_current _ _ _ _ _ _ _ Hk'). }
  { lia. }
  rewrite long_long_None in Hstep by lia.
  replace (k + S (m + n))%nat with (S (m + n + k)) in Hloop by lia. rewrite Hstep in Hloop.
  unfold mbind at 1, M_bind at 1 in Hrun. rewrite Hloop in Hrun. congruence.
Qed.
Definition w_max_loop : list expr := [w_int 9223372036854775806; w_int LLONG_MAX; w_int 0].
Lemma LoopForCount_overflow_witness : EvaluateExpression 1000 (Some (w_call "loop-for-count" w_max_loop)) w_eval = None.
Proof.
  set (s := enter (Some (w_call "loop-for-count" w_max_loop)) w_eval).
  apply (LoopForCount_overflow 0 (w_fn "loop-for-count") (w_int 9223372036854775806) (w_int LLONG_MAX) (w_int 0) w_eval
    (with_counters [9223372036854775806] s) (with_counters [LLONG_MAX] s) 9223372036854775806
    (mkUDFValue (VInteger 0) 0 SIZE_MAX) (with_counters [LLONG_MAX] s)); try reflexivity.
  - exists (mkUDFValue (VInteger 9223372036854775806) 0 SIZE_MAX), (with_counters [0] s), (mkUDFValue (VInteger LLONG_MAX) 0 SIZE_MAX).
    split_and!; reflexivity.
  - vm_compute. split; discriminate.
  - eapply (counted_step _ _ _ _ 0 _ (mkUDFValue (VInteger 0) 0 SIZE_MAX) (with_counters [9223372036854775806] s)); try reflexivity.
    apply counted_done.
Defined.
