(* ===== verification/MultifieldProofs.v ===== *)
(** * The multifield functions on segments

    Arguments that evaluate to given values ([gives]), multifields as the list of
    fields of their segment ([is_segment]), and each function of
    [MultifieldFunctions] as a function on lists. *)
From S2P Require Import Prelude Values Router Keeps Expr Functions Args Multifield Math MultifieldFunctions.
From S2P Require Import Evaluate EvalLaws EvalLemmas.
#[local] Open Scope Z_scope.

(** ** Conversions *)

Lemma fits_size_t_true z : LLONG_MIN <= z <= LLONG_MAX → fits_size_t z = true.
Proof.
  unfold fits_size_t, long_long_of, size_t_of, LLONG_MIN, LLONG_MAX, SIZE_MAX. intros Hz. apply Z.eqb_eq.
  change (18446744073709551615 + 1) with 18446744073709551616.
  destruct (Z.leb_spec 0 z).
  - rewrite Z.mod_small by lia. by rewrite (proj2 (Z.leb_le _ _)) by lia.
  - rewrite <- (Z.mod_unique z 18446744073709551616 (-1) (z + 18446744073709551616)) by lia.
    rewrite (proj2 (Z.leb_gt _ _)) by lia. lia.
Qed.
Lemma size_t_of_nonneg z : 0 <= z <= LLONG_MAX → size_t_of z = z.
Proof. unfold size_t_of, LLONG_MAX, SIZE_MAX. intros. rewrite Z.mod_small; lia. Qed.
Lemma size_t_of_negative z : LLONG_MIN <= z < 0 → LLONG_MAX < size_t_of z.
Proof.
  unfold size_t_of, LLONG_MAX, LLONG_MIN, SIZE_MAX. intros.
  rewrite <- (Z.mod_unique z (18446744073709551615 + 1) (-1) (z + 18446744073709551616)) by lia. lia.
Qed.

Definition zlength {A} (l : list A) : Z := Z.of_nat (length l).

Lemma segment_Some c b r l : segment c b r = Some l →
  0 <= b ∧ 0 <= r ∧ b + r <= zlength c ∧ zlength l = r ∧ l = take (Z.to_nat r) (drop (Z.to_nat b) c).
Proof.
  unfold segment. destruct (_ && _) eqn:E; [|done]. intros [= <-].
  apply andb_prop in E as [[E1%Z.leb_le E2%Z.leb_le]%andb_prop E3%Z.leb_le].
  split_and!; try done. unfold zlength. rewrite length_take, length_drop. lia.
Qed.
Lemma segment_intro c b r : 0 <= b → 0 <= r → b + r <= zlength c →
  segment c b r = Some (take (Z.to_nat r) (drop (Z.to_nat b) c)).
Proof.
  unfold zlength. intros. unfold segment. by rewrite !(proj2 (Z.leb_le _ _)) by lia.
Qed.
Lemma segment_part c b r l b' r' : segment c b r = Some l → 0 <= b' → 0 <= r' → b' + r' <= r →
  segment c (b + b') r' = Some (take (Z.to_nat r') (drop (Z.to_nat b') l)).
Proof.
  intros (Hb & Hr & Hc & Hl & ->)%segment_Some Hb' Hr' Hle. unfold zlength in *.
  rewrite segment_intro by (unfold zlength; lia). f_equal.
  replace (Z.to_nat r) with (Z.to_nat b' + Z.to_nat (r - b'))%nat by lia.
  rewrite <- take_drop_commute, take_take, drop_drop. f_equal; [lia|]. f_equal. lia.
Qed.
Lemma segment_whole l : segment l 0 (zlength l) = Some l.
Proof.
  unfold zlength. rewrite segment_intro by (unfold zlength; lia).
  by rewrite Nat2Z.id, drop_0, take_ge by lia.
Qed.

Lemma new_multifield_eq size l : size = zlength l → new_multifield size l = Some (mkUDFValue (VMultifield l) 0 size).
Proof. intros ->. unfold new_multifield, zlength. by rewrite Z.eqb_refl. Qed.

(** ** The copying loops *)

Lemma copy_outside_before rs re i l : i + zlength l <= rs → copy_outside rs re i l = l.
Proof.
  revert i. unfold zlength. induction l as [|v l IH]; intros i Hi; simpl in *; [done|].
  rewrite (proj2 (Z.leb_gt _ _)) by lia. simpl. by rewrite IH by lia.
Qed.
Lemma copy_outside_after rs re i l : re < i → copy_outside rs re i l = l.
Proof.
  revert i. induction l as [|v l IH]; intros i Hi; simpl in *; [done|].
  rewrite (proj2 (Z.leb_gt i re)) by lia. rewrite andb_false_r. simpl. by rewrite IH by lia.
Qed.
Lemma copy_outside_app rs re i l1 l2 :
  copy_outside rs re i (l1 ++ l2) = copy_outside rs re i l1 ++ copy_outside rs re (i + zlength l1) l2.
Proof.
  revert i. unfold zlength. induction l1 as [|v l1 IH]; intros i; simpl; [by rewrite Z.add_0_r|].
  rewrite IH, app_assoc. do 2 f_equal. lia.
Qed.
Lemma copy_outside_inside rs re i l : rs <= i → i + zlength l <= re + 1 → copy_outside rs re i l = [].
Proof.
  revert i. unfold zlength. induction l as [|v l IH]; intros i H1 H2; simpl in *; [done|].
  rewrite !(proj2 (Z.leb_le _ _)) by lia. simpl. by rewrite IH by lia.
Qed.
Lemma copy_outside_eq pre mid post i :
  copy_outside (i + zlength pre) (i + zlength pre + zlength mid - 1) i (pre ++ mid ++ post) = pre ++ post.
Proof.
  rewrite !copy_outside_app. rewrite copy_outside_before, copy_outside_inside, copy_outside_after; lia || done.
Qed.

Lemma copy_replacing_before new rs re i l : i + zlength l <= rs → copy_replacing new rs re i l = l.
Proof.
  revert i. unfold zlength. induction l as [|v l IH]; intros i Hi; simpl in *; [done|].
  rewrite (proj2 (Z.eqb_neq _ _)), (proj2 (Z.ltb_ge _ _)) by lia. simpl. by rewrite IH by lia.
Qed.
Lemma copy_replacing_after new rs re i l : rs < i → re < i → copy_replacing new rs re i l = l.
Proof.
  revert i. induction l as [|v l IH]; intros i H1 H2; simpl in *; [done|].
  rewrite (proj2 (Z.eqb_neq _ _)), (proj2 (Z.leb_gt i re)) by lia. rewrite andb_false_r. simpl. by rewrite IH by lia.
Qed.
Lemma copy_replacing_app new rs re i l1 l2 :
  copy_replacing new rs re i (l1 ++ l2) = copy_replacing new rs re i l1 ++ copy_replacing new rs re (i + zlength l1) l2.
Proof.
  revert i. unfold zlength. induction l1 as [|v l1 IH]; intros i; simpl; [by rewrite Z.add_0_r|].
  rewrite IH, app_assoc. do 2 f_equal. lia.
Qed.
Lemma copy_replacing_inside new rs re i l : rs < i → i + zlength l <= re + 1 → copy_replacing new rs re i l = [].
Proof.
  revert i. unfold zlength. induction l as [|v l IH]; intros i H1 H2; simpl in *; [done|].
  rewrite (proj2 (Z.eqb_neq _ _)), (proj2 (Z.ltb_lt _ _)), (proj2 (Z.leb_le _ _)) by lia. simpl. by rewrite IH by lia.
Qed.
Lemma copy_replacing_eq new pre mid post i : mid ≠ [] →
  copy_replacing new (i + zlength pre) (i + zlength pre + zlength mid - 1) i (pre ++ mid ++ post) = pre ++ new ++ post.
Proof.
  intros Hmid. destruct mid as [|v mid]; [done|]. rewrite !copy_replacing_app.
  rewrite copy_replacing_before by lia. f_equal.
  rewrite (copy_replacing_after _ _ _ _ post) by (unfold zlength; simpl; lia). f_equal.
  cbn [copy_replacing]. rewrite Z.eqb_refl, copy_replacing_inside by (unfold zlength; simpl; lia). apply app_nil_r.
Qed.

(** The fields [s..e] of a list, counted from 1. *)
Lemma split_range {A} (l : list A) s e : 1 <= s → s <= e → e <= zlength l →
  ∃ pre mid post, l = pre ++ mid ++ post ∧ zlength pre = s - 1 ∧ zlength mid = e - s + 1 ∧ mid ≠ [].
Proof.
  unfold zlength. intros Hs Hse He.
  exists (take (Z.to_nat (s - 1)) l), (take (Z.to_nat (e - s + 1)) (drop (Z.to_nat (s - 1)) l)),
    (drop (Z.to_nat e) l).
  split_and!.
  - rewrite <- (take_drop (Z.to_nat (s - 1)) l) at 1. f_equal.
    rewrite <- (take_drop (Z.to_nat (e - s + 1)) (drop _ l)) at 1. f_equal. rewrite drop_drop. f_equal. lia.
  - rewrite length_take. lia.
  - rewrite length_take, length_drop. lia.
  - intros E%(f_equal length). rewrite length_take, length_drop in E. simpl in E. lia.
Qed.

(** ** Comparing fields *)

(** [same_object] decides unless both are not-a-number. *)
Definition clean (v : value) : Prop := is_nan v = false.

Lemma same_object_clean v w : clean v → same_object v w = Some (bool_decide (v = w)).
Proof. unfold same_object, clean. by intros ->. Qed.
Lemma found_in_clean v l : clean v → found_in v l = Some (bool_decide (v ∈ l)).
Proof.
  intros Hv. induction l as [|w l IH]; simpl; [done|]. rewrite same_object_clean by done. simpl.
  destruct (decide (v = w)) as [->|Hne].
  - rewrite !bool_decide_eq_true_2; [done|set_solver|done].
  - rewrite (bool_decide_eq_false_2 (v = w)) by done. rewrite IH. f_equal. apply bool_decide_ext. set_solver.
Qed.
Lemma starts_with_clean s l : Forall clean s → starts_with s l = Some (bool_decide (s `prefix_of` l)).
Proof.
  revert l. induction s as [|v s IH]; intros l Hs; simpl.
  { done. }
  apply Forall_cons in Hs as [Hv Hs]. destruct l as [|w l].
  { by rewrite bool_decide_eq_false_2 by (by intros ?%prefix_nil_inv). }
  rewrite same_object_clean by done. simpl. destruct (decide (v = w)) as [->|E].
  - rewrite (bool_decide_eq_true_2 (w = w)), IH by done. f_equal. apply bool_decide_ext. split; [apply prefix_cons|by intros ?%prefix_cons_inv_2].
  - rewrite !bool_decide_eq_false_2; [done|by intros ?%prefix_cons_inv_1|done].
Qed.

(** The number of fields before the first occurrence of [s]. *)
Fixpoint first_occurrence (s l : list value) : option nat :=
  if bool_decide (s `prefix_of` l) then Some 0%nat
  else match l with [] => None | _ :: l' => S <$> first_occurrence s l' end.

Lemma first_occurrence_short s l : (length l < length s)%nat → first_occurrence s l = None.
Proof.
  induction l as [|w l IH]; intros Hl; simpl in *.
  - by rewrite bool_decide_eq_false_2 by (intros ?%prefix_length; simpl in *; lia).
  - rewrite bool_decide_eq_false_2 by (intros ?%prefix_length; simpl in *; lia). by rewrite IH by lia.
Qed.
Lemma first_occurrence_split s l k : first_occurrence s l = Some k →
  ∃ pre post, l = pre ++ s ++ post ∧ length pre = k.
Proof.
  revert k. induction l as [|w l IH]; intros k; simpl; case_bool_decide as E.
  - intros [= <-]. destruct E as [post ->]. by exists [], post.
  - done.
  - intros [= <-]. destruct E as [post ->]. by exists [], post.
  - intros (k' & Hk & ->)%fmap_Some. destruct (IH _ Hk) as (pre & post & -> & <-). by exists (w :: pre), post.
Qed.
Lemma first_occurrence_least s pre post : ∃ k, first_occurrence s (pre ++ s ++ post) = Some k ∧ (k <= length pre)%nat.
Proof.
  induction pre as [|w pre (k & Hk & Hle)]; simpl.
  - exists 0%nat. split; [|lia]. destruct (s ++ post) eqn:E; simpl; rewrite bool_decide_eq_true_2; try done; rewrite <- E; by eexists.
  - case_bool_decide; [by exists 0%nat; split; [|lia]|]. exists (S k). rewrite Hk. split; [done|simpl; lia].
Qed.

Lemma index_in_clean v i l : clean v →
  index_in v i l = Some (match first_occurrence [v] l with Some k => i + Z.of_nat k | None => VALUE_NOT_FOUND end).
Proof.
  intros Hv. revert i. induction l as [|w l IH]; intros i; cbn [index_in first_occurrence].
  { rewrite bool_decide_eq_false_2; [done|]. by intros ?%prefix_nil_inv. }
  rewrite same_object_clean by done. simpl. case_bool_decide as E.
  - subst. rewrite bool_decide_eq_true_2 by (by eexists). f_equal. lia.
  - rewrite bool_decide_eq_false_2 by (by intros ?%prefix_cons_inv_1). rewrite IH.
    destruct (first_occurrence _ l); simpl; f_equal; lia.
Qed.
Lemma find_fields_clean n s i l : Forall clean s → length l = (n + length s)%nat →
  find_fields n s i l = Some (match first_occurrence s l with Some k => i + Z.of_nat k | None => VALUE_NOT_FOUND end).
Proof.
  intros Hs. revert i l. induction n as [|n IH]; intros i l Hl; cbn [find_fields]; rewrite starts_with_clean by done; simpl.
  - destruct l as [|w l]; cbn [first_occurrence]; case_bool_decide; try (f_equal; lia); try done.
    simpl in Hl. by rewrite first_occurrence_short by lia.
  - destruct l as [|w l]; [simpl in Hl; lia|]. cbn [first_occurrence tail]. case_bool_decide; [f_equal; lia|].
    rewrite IH by (simpl in Hl; lia). destruct (first_occurrence s l); simpl; f_equal; lia.
Qed.

(** ** Arguments *)

(** [u] is a segment with the fields [l] of a multifield that fits in memory. *)
Definition is_segment (u : UDFValue) (l : list value) : Prop :=
  ∃ c, uv_value u = VMultifield c ∧ segment c (uv_begin u) (uv_range u) = Some l ∧ zlength c <= LLONG_MAX.
Definition whole (l : list value) : UDFValue := mkUDFValue (VMultifield l) 0 (zlength l).

Lemma is_segment_values u l : is_segment u l → values_of u = Some l.
Proof. intros (c & Hc & Hl & _). unfold values_of. by rewrite Hc. Qed.
Lemma is_segment_range u l : is_segment u l → uv_range u = zlength l ∧ 0 <= uv_begin u ∧ uv_begin u + zlength l <= LLONG_MAX.
Proof. intros (c & Hc & (? & ? & ? & ? & ?)%segment_Some & Hm). split_and!; lia. Qed.
Lemma is_segment_multifield u l : is_segment u l → is_multifield u = true.
Proof. intros (c & Hc & _). unfold is_multifield. by rewrite Hc. Qed.
Lemma whole_segment l : zlength l <= LLONG_MAX → is_segment (whole l) l.
Proof. intros Hl. exists l. split_and!; [done|apply segment_whole|done]. Qed.

Section arguments.
Context {W : Type} (ev : Evaluator W) `{!EvaluatorLaws ev}.

(** [yields] with the whole values: the arguments [es] evaluate to [us]. *)
Inductive gives : EvalEnv W → list expr → list UDFValue → EvalEnv W → Prop :=
  | gives_nil s : gives s [] [] s
  | gives_cons s e u s1 es us s2 :
      ev (Some e) s = Some (u, s1) → error_of s1 = false → gives s1 es us s2 →
      gives s (e :: es) (u :: us) s2.

Lemma gives_cons_inv s es u us s' : gives s es (u :: us) s' →
  ∃ e es' s1, es = e :: es' ∧ ev (Some e) s = Some (u, s1) ∧ error_of s1 = false ∧ gives s1 es' us s'.
Proof. intros H. inversion H; subst. by eauto 10. Qed.
Lemma gives_nil_inv s es s' : gives s es [] s' → es = [] ∧ s' = s.
Proof. intros H. by inversion H. Qed.
Lemma gives_length s es us s' : gives s es us s' → length es = length us.
Proof. induction 1; simpl; congruence. Qed.
Lemma gives_current s es us s' : gives s es us s' → current_of s' = current_of s.
Proof.
  induction 1 as [|s e u s1 es us s2 He Herr H IH]; [done|]. rewrite IH. by eapply ev_current.
Qed.
Lemma gives_app s es1 es2 us s2 : gives s (es1 ++ es2) us s2 ↔
  ∃ us1 us2 s1, us = us1 ++ us2 ∧ gives s es1 us1 s1 ∧ gives s1 es2 us2 s2.
Proof.
  split.
  - revert s us. induction es1 as [|e es1 IH]; simpl; intros s us H.
    + exists [], us, s. split_and!; [done|constructor|done].
    + inversion H as [|? ? u s1 ? us' ? He Herr Hg]; subst.
      destruct (IH _ _ Hg) as (us1 & us2 & s1' & -> & H1 & H2).
      exists (u :: us1), us2, s1'. split_and!; [done|by econstructor|done].
  - intros (us1 & us2 & s1 & -> & H1 & H2). induction H1; simpl; [done|]. econstructor; eauto.
Qed.

(** A multifield argument arrives with its segment, another with its value. *)
Definition same_argument (u' u : UDFValue) : Prop :=
  uv_value u' = uv_value u ∧ (is_multifield u = true → u' = u).

Lemma next_argument_gives s e u s' f p es rv o t :
  ev (Some e) s = Some (u, s') → error_of s' = false → type_expected t (uv_value u) = true →
  ∃ u', same_argument u' u ∧
  UDFNextArgument ev (ToLocal o) t (s, mkUDFContext f p (e :: es) rv) =
    Some ((true, Some u'), (s', mkUDFContext f (p + 1) es rv)).
Proof.
  intros He Herr Ht. unfold UDFNextArgument, mbind, M_bind. simpl.
  destruct (is_direct_constant e) as [v|] eqn:Hd.
  - pose proof He as He'. rewrite (ev_direct e v s Hd) in He'. injection He' as <- <-.
    simpl in *. rewrite Ht. eexists. split; [|done]. split; [done|]. unfold is_multifield. simpl.
    by destruct e as [[]| | | |]; simplify_eq/=.
  - unfold lift. rewrite He. simpl. unfold error_of in Herr. rewrite Herr, andb_false_r, Ht. by exists u.
Qed.

Lemma same_argument_segment u' u l : same_argument u' u → is_segment u l → u' = u.
Proof. intros [_ H] Hl. by apply H, is_segment_multifield with l. Qed.
Lemma same_argument_values u' u : same_argument u' u → values_of u' = values_of u.
Proof.
  intros [Hv Hm]. destruct (is_multifield u) eqn:E; [by rewrite Hm|].
  unfold values_of, is_multifield in *. rewrite Hv. by destruct (uv_value u).
Qed.

Lemma next_multifield_ok s e u l s' f p es rv :
  ev (Some e) s = Some (u, s') → error_of s' = false → is_segment u l →
  UDFNextArgument ev (ToLocal None) MULTIFIELD_BIT (s, mkUDFContext f p (e :: es) rv) =
    Some ((true, Some u), (s', mkUDFContext f (p + 1) es rv)).
Proof.
  intros He Herr Hl.
  destruct (next_argument_gives s e u s' f p es rv None MULTIFIELD_BIT He Herr) as (u' & Hu & H).
  { by destruct Hl as (c & -> & _). }
  by rewrite (same_argument_segment _ _ _ Hu Hl) in H.
Qed.
Lemma next_integer_ok s e u z s' f p es rv :
  ev (Some e) s = Some (u, s') → error_of s' = false → uv_value u = VInteger z →
  ∃ u', uv_value u' = VInteger z ∧
  next_integer ev (s, mkUDFContext f p (e :: es) rv) = Some ((true, Some u'), (s', mkUDFContext f (p + 1) es rv)).
Proof.
  intros He Herr Hz.
  destruct (next_argument_gives s e u s' f p es rv None INTEGER_BIT He Herr) as (u' & [Hu _] & H).
  { by rewrite Hz. }
  exists u'. by rewrite Hu.
Qed.

Lemma arg_or_return_ok get k fr u fr' :
  get fr = Some ((true, Some u), fr') → arg_or_return (W := W) get k fr = k u fr'.
Proof. intros H. unfold arg_or_return. by rewrite (M_bind_Some _ _ _ _ _ H). Qed.

(** The first argument of a function that is called with [es]. *)
Lemma first_multifield_ok s e es u l s' f p l0 rv g :
  current_of s = Some (EFcall g (e :: es)) →
  ev (Some e) s = Some (u, s') → error_of s' = false → is_segment u l →
  first_multifield ev (s, mkUDFContext f p l0 rv) = Some ((true, Some u), (s', mkUDFContext f 2 es rv)).
Proof.
  intros Hc He Herr Hl. unfold first_multifield. rewrite (first_argument_eq ev _ _ _ _ _ _ Hc).
  apply (next_multifield_ok s e u l s' f 1 es rv He Herr Hl).
Qed.
End arguments.

(** ** Messages *)

Section range_messages.
Context {W : Type}.
Lemma writes_MVRangeError b e m n : Writes (W := W) (MVRangeError b e m n) tt.
Proof.
  unfold MVRangeError, in_function, PrintUnsignedInteger, WriteInteger.
  eapply writes_bind; [apply writes_PrintErrorID|]. writes.
Qed.
Lemma range_failure_eq a b m n : ∃ msg, ∀ (s : EvalEnv W) c,
  range_failure a b m n (s, c) = Some (tt, (failed msg s, with_returnValue (fun _ => SetMultifieldErrorValue) c)).
Proof.
  destruct (writes_MVRangeError a b m n) as [msg Hmsg]. exists msg. intros s c. unfold range_failure.
  rewrite (M_bind_Some _ _ _ _ _ (Hmsg s c)). rewrite (M_bind_Some _ _ _ _ _ (SetEvaluationError_Some _ _)). done.
Qed.
End range_messages.

(** ** [delete$], [replace$] and [insert$] *)

Definition is_long_long (z : Z) : Prop := LLONG_MIN <= z <= LLONG_MAX.

Lemma range_cases a b n : is_long_long a → is_long_long b → n <= LLONG_MAX →
  ((1 <= a <= b ∧ b <= n) ∧ bad_indices a b = false ∧ size_t_of a = a ∧ size_t_of b = b ∧ (n <? a) || (n <? b) = false) ∨
  (¬ (1 <= a <= b ∧ b <= n) ∧ (bad_indices a b = true ∨ bad_indices a b = false ∧ (n <? size_t_of a) || (n <? size_t_of b) = true)).
Proof.
  intros Ha Hb Hn. unfold bad_indices. rewrite !fits_size_t_true by done. cbn [negb]. rewrite !orb_false_r.
  destruct (Z.ltb_spec b a) as [Hba|Hba]; cbn [orb]; [right; split; [lia|by left]|].
  destruct (Z.ltb_spec a 1) as [Ha1|Ha1]; cbn [orb]; [right; split; [lia|by left]|].
  destruct (Z.ltb_spec b 1) as [Hb1|Hb1]; cbn [orb]; [right; split; [lia|by left]|].
  unfold is_long_long in *. rewrite !size_t_of_nonneg by lia.
  destruct (Z.ltb_spec n a); cbn [orb]; [right; split; [lia|by right]|].
  destruct (Z.ltb_spec n b); [right; split; [lia|by right]|]. left. split_and!; lia || done.
Qed.

Section index_functions.
Context {W : Type} (ev : Evaluator W) `{!EvaluatorLaws ev}.

(** The first three arguments: a multifield and two indices. *)
Lemma three_arguments s s' em es ee rest u us ue l a b f p l0 rv g (k : UDFValue → UDFValue → UDFValue → UDF W unit) :
  current_of s = Some (EFcall g (em :: es :: ee :: rest)) →
  gives ev s [em; es; ee] [u; us; ue] s' → is_segment u l → uv_value us = VInteger a → uv_value ue = VInteger b →
  ∃ us' ue', uv_value us' = VInteger a ∧ uv_value ue' = VInteger b ∧
  arg_or_return (first_multifield ev) (fun value1 =>
  arg_or_return (next_integer ev) (fun value2 =>
  arg_or_return (next_integer ev) (fun value3 => k value1 value2 value3))) (s, mkUDFContext f p l0 rv) =
  k u us' ue' (s', mkUDFContext f 4 rest rv).
Proof.
  intros Hc (?&?&s1&[= <- <-]&H1&E1&(?&?&s2&[= <- <-]&H2&E2&(?&?&s3&[= <- <-]&H3&E3&[_ <-]%gives_nil_inv)%gives_cons_inv)%gives_cons_inv)%gives_cons_inv Hl Ha Hb.
  destruct (next_integer_ok ev s1 es us a s2 f 2 (ee :: rest) rv H2 E2 Ha) as (us' & Hus & Hn2).
  destruct (next_integer_ok ev s2 ee ue b s' f 3 rest rv H3 E3 Hb) as (ue' & Hue & Hn3).
  exists us', ue'. split_and!; [done|done|].
  rewrite (arg_or_return_ok _ _ _ _ _ (first_multifield_ok ev s em (es :: ee :: rest) u l s1 f p l0 rv g Hc H1 E1 Hl)).
  by rewrite (arg_or_return_ok _ _ _ _ _ Hn2), (arg_or_return_ok _ _ _ _ _ Hn3).
Qed.

Lemma integer_contents_eq u z (fr : EvalEnv W * UDFContext) : uv_value u = VInteger z →
  integer_contents (uv_value u) fr = Some (z, fr).
Proof. by intros ->. Qed.

(** The sizes of the parts of a segment, and the checks on the indices of [mid]. *)
Lemma range_of_parts u (pre mid post : list value) : is_segment u (pre ++ mid ++ post) → mid ≠ [] →
  uv_range u = zlength pre + zlength mid + zlength post ∧ 0 <= zlength pre ∧ 0 < zlength mid ∧ 0 <= zlength post ∧
  uv_range u <= LLONG_MAX ∧
  bad_indices (zlength pre + 1) (zlength pre + zlength mid) = false ∧
  size_t_of (zlength pre + 1) = zlength pre + 1 ∧
  size_t_of (zlength pre + zlength mid) = zlength pre + zlength mid ∧
  (uv_range u <? zlength pre + 1) || (uv_range u <? zlength pre + zlength mid) = false.
Proof.
  intros Hl Hmid. pose proof (is_segment_range _ _ Hl) as (Hr & Hb0 & Hmem).
  assert (Hlen : zlength (pre ++ mid ++ post) = zlength pre + zlength mid + zlength post)
    by (unfold zlength; rewrite !length_app; lia).
  assert (0 < zlength mid) by (unfold zlength; destruct mid; [done|simpl; lia]).
  assert (0 <= zlength pre ∧ 0 <= zlength post) as [? ?] by (unfold zlength; lia).
  destruct (range_cases (zlength pre + 1) (zlength pre + zlength mid) (uv_range u)) as [(_ & Hok)|[Hno _]].
  1, 2: unfold is_long_long, LLONG_MIN in *; lia.
  - lia.
  - split_and!; try lia; apply Hok.
  - exfalso. apply Hno. lia.
Qed.

Lemma DeleteFunction_in_range s s' em es ee u us ue pre mid post f p l0 rv g :
  current_of s = Some (EFcall g [em; es; ee]) →
  gives ev s [em; es; ee] [u; us; ue] s' → is_segment u (pre ++ mid ++ post) → mid ≠ [] →
  uv_value us = VInteger (zlength pre + 1) → uv_value ue = VInteger (zlength pre + zlength mid) →
  DeleteFunction ev (s, mkUDFContext f p l0 rv) = Some (tt, (s', mkUDFContext f 4 [] (whole (pre ++ post)))).
Proof.
  intros Hc Hg Hl Hmid Ha Hb.
  destruct (range_of_parts u pre mid post Hl Hmid) as (Hr & Hp & Hm & Hq & Hmax & Hbad & Ea & Eb & Er).
  unfold DeleteFunction.
  match goal with |- context [arg_or_return _ (fun v1 => arg_or_return _ (fun v2 => arg_or_return _ (fun v3 => @?K v1 v2 v3)))] =>
    destruct (three_arguments s s' em es ee [] u us ue _ _ _ f p l0 rv g K Hc Hg Hl Ha Hb) as (us' & ue' & Ha' & Hb' & ->) end.
  cbn beta. mrun (integer_contents_eq _ _ (s', mkUDFContext f 4 [] rv) Ha').
  mrun (integer_contents_eq _ _ (s', mkUDFContext f 4 [] rv) Hb').
  cbv zeta. rewrite Hbad, Ea, Eb, Er, (is_segment_values _ _ Hl), M_fromOption_Some.
  replace (zlength pre + 1 - 1 + uv_begin u) with (uv_begin u + zlength pre) by lia.
  replace (zlength pre + zlength mid - 1 + uv_begin u) with (uv_begin u + zlength pre + zlength mid - 1) by lia.
  rewrite copy_outside_eq.
  assert (E : zlength (pre ++ post) = zlength pre + zlength post) by (unfold zlength; rewrite length_app; lia).
  replace (uv_range u - _) with (zlength (pre ++ post)) by lia. by rewrite new_multifield_eq.
Qed.

(** The fields that the last arguments of [replace$] and [insert$] stand for. *)
Definition argument_fields (us : list UDFValue) : option (list value) :=
  match us with
  | [u] => values_of u
  | _ => ls ← mapM fields_of us; Some (concat ls)
  end.

Lemma collect_fields_eq s es us s' ls : gives ev s es us s' → mapM fields_of us = Some ls →
  collect_fields ev es s = Some (Some (concat ls), s').
Proof.
  intros Hg. revert ls. induction Hg as [s|s e u s1 es us s2 He Herr Hg IH]; intros ls Hls.
  - by injection Hls as <-.
  - apply mapM_Some in Hls. apply Forall2_cons_inv_l in Hls as (l & ls' & Hu & Hls & ->).
    apply mapM_Some in Hls. cbn [collect_fields]. mrun He.
    rewrite (M_bind_Some _ _ s1 false s1) by (unfold GetEvaluationError, gets; by rewrite <- Herr).
    rewrite Hu, M_fromOption_Some. by mrun (IH _ Hls).
Qed.

Lemma field_argument_eq s es us s' fs c : gives ev s es us s' → es ≠ [] → argument_fields us = Some fs →
  ∃ u, field_argument ev es (s, c) = Some (u, (s', c)) ∧ values_of u = Some fs ∧
    (if is_multifield u then uv_range u = zlength fs else zlength fs = 1).
Proof.
  intros Hg Hes Hfs. assert (Hsize : ∀ u, values_of u = Some fs → if is_multifield u then uv_range u = zlength fs else zlength fs = 1).
  { intros u Hu. unfold values_of, is_multifield in *. destruct (uv_value u); try (by injection Hu as <-).
    by apply segment_Some in Hu as (_ & _ & _ & -> & _). }
  destruct es as [|e [|e' es]]; [done| |].
  - apply gives_length in Hg as Hlen. destruct us as [|u [|]]; simplify_eq/=.
    apply gives_cons_inv in Hg as (?&?&s1&[= <- <-]&He&_&[_ ->]%gives_nil_inv).
    exists u. split_and!; [|done|exact (Hsize u Hfs)]. cbn [field_argument]. unfold lift. by rewrite He.
  - apply gives_length in Hg as Hlen. destruct us as [|u1 [|u2 us]]; [done|done|].
    unfold argument_fields in Hfs. destruct (mapM fields_of (u1 :: u2 :: us)) as [ls|] eqn:Hls; [|done].
    injection Hfs as <-. exists (whole (concat ls)). cbn [field_argument]. unfold lift, StoreInMultifield.
    rewrite (M_bind_Some _ _ _ _ _ (collect_fields_eq _ _ _ _ _ Hg Hls)).
    split; [done|]. split; [apply segment_whole|done].
Qed.

Lemma ReplaceFunction_in_range s s1 s' em es ee rest u us ue ufs pre mid post new f p l0 rv g :
  current_of s = Some (EFcall g (em :: es :: ee :: rest)) →
  gives ev s [em; es; ee] [u; us; ue] s1 → gives ev s1 rest ufs s' → rest ≠ [] → argument_fields ufs = Some new →
  is_segment u (pre ++ mid ++ post) → mid ≠ [] →
  uv_value us = VInteger (zlength pre + 1) → uv_value ue = VInteger (zlength pre + zlength mid) →
  ReplaceFunction ev (s, mkUDFContext f p l0 rv) = Some (tt, (s', mkUDFContext f 4 rest (whole (pre ++ new ++ post)))).
Proof.
  intros Hc Hg Hgr Hrest Hnew Hl Hmid Ha Hb.
  destruct (range_of_parts u pre mid post Hl Hmid) as (Hr & Hp & Hm & Hq & Hmax & Hbad & Ea & Eb & Er).
  unfold ReplaceFunction.
  match goal with |- context [arg_or_return _ (fun v1 => arg_or_return _ (fun v2 => arg_or_return _ (fun v3 => @?K v1 v2 v3)))] =>
    destruct (three_arguments s s1 em es ee rest u us ue _ _ _ f p l0 rv g K Hc Hg Hl Ha Hb) as (us' & ue' & Ha' & Hb' & ->) end.
  cbn beta. pose proof (gives_current ev _ _ _ _ Hg) as Hc1. rewrite Hc in Hc1.
  mrun (current_args_eq s1 g _ (mkUDFContext f 4 rest rv) Hc1). cbn [drop].
  destruct (field_argument_eq s1 rest ufs s' new (mkUDFContext f 4 rest rv) Hgr Hrest Hnew) as (u4 & H4 & Hv4 & Hs4).
  mrun H4. mrun (integer_contents_eq _ _ (s', mkUDFContext f 4 rest rv) Ha').
  mrun (integer_contents_eq _ _ (s', mkUDFContext f 4 rest rv) Hb').
  cbv zeta. rewrite Hbad, Ea, Eb, Er, (is_segment_values _ _ Hl), M_fromOption_Some, Hv4, M_fromOption_Some.
  replace (zlength pre + 1 - 1 + uv_begin u) with (uv_begin u + zlength pre) by lia.
  replace (zlength pre + zlength mid - 1 + uv_begin u) with (uv_begin u + zlength pre + zlength mid - 1) by lia.
  rewrite copy_replacing_eq by done.
  assert (E : zlength (pre ++ new ++ post) = zlength pre + zlength new + zlength post)
    by (unfold zlength; rewrite !length_app; lia).
  match goal with |- context [new_multifield ?n _] => replace n with (zlength (pre ++ new ++ post)) by (destruct (is_multifield u4); lia) end.
  by rewrite new_multifield_eq.
Qed.

Lemma InsertFunction_eq s s1 s' em ei rest u ui ufs pre post new i f p l0 rv g :
  current_of s = Some (EFcall g (em :: ei :: rest)) →
  gives ev s [em; ei] [u; ui] s1 → gives ev s1 rest ufs s' → rest ≠ [] → argument_fields ufs = Some new →
  is_segment u (pre ++ post) → uv_value ui = VInteger i → is_long_long i →
  i = zlength pre + 1 ∨ post = [] ∧ zlength pre < i →
  InsertFunction ev (s, mkUDFContext f p l0 rv) = Some (tt, (s', mkUDFContext f 3 rest (whole (pre ++ new ++ post)))).
Proof.
  intros Hc Hg Hgr Hrest Hnew Hl Hi Hll Hpos. pose proof (is_segment_range _ _ Hl) as (Hr & Hb0 & Hmem).
  assert (Hlen : zlength (pre ++ post) = zlength pre + zlength post) by (unfold zlength; rewrite !length_app; lia).
  assert (0 <= zlength pre ∧ 0 <= zlength post) as [? ?] by (unfold zlength; lia).
  pose proof (gives_current ev _ _ _ _ Hg) as Hc1. rewrite Hc in Hc1.
  apply gives_cons_inv in Hg as (?&?&s0&[= <- <-]&H1&E1&(?&?&s2&[= <- <-]&H2&E2&[_ <-]%gives_nil_inv)%gives_cons_inv).
  destruct (next_integer_ok ev s0 ei ui i s1 f 2 rest rv H2 E2 Hi) as (ui' & Hui & Hn2).
  unfold InsertFunction.
  rewrite (arg_or_return_ok _ _ _ _ _ (first_multifield_ok ev s em (ei :: rest) u _ s0 f p l0 rv g Hc H1 E1 Hl)).
  rewrite (arg_or_return_ok _ _ _ _ _ Hn2).
  mrun (current_args_eq s1 g _ (mkUDFContext f 3 rest rv) Hc1). cbn [drop].
  destruct (field_argument_eq s1 rest ufs s' new (mkUDFContext f 3 rest rv) Hgr Hrest Hnew) as (u3 & H3 & Hv3 & Hs3).
  mrun H3. mrun (integer_contents_eq _ _ (s', mkUDFContext f 3 rest rv) Hui).
  assert (Hi1 : 1 <= i) by (destruct Hpos; lia).
  rewrite fits_size_t_true, (proj2 (Z.ltb_ge _ _)) by done. cbn [negb orb].
  unfold is_long_long in Hll. rewrite size_t_of_nonneg by lia.
  unfold InsertMultiValueField. cbv zeta. rewrite Hv3, M_bind_assoc, M_fromOption_Some, (is_segment_values _ _ Hl).
  rewrite M_bind_assoc, M_fromOption_Some.
  set (j := (if _ <? i then _ else i) - 1). assert (Hj : Z.to_nat j = length pre).
  { unfold j, zlength in *. destruct (Z.ltb_spec (uv_range u + 1) i); destruct Hpos as [Hpos|[-> Hpos]]; simpl in *; lia. }
  rewrite Hj, take_app_length, drop_app_length.
  assert (E : zlength (pre ++ new ++ post) = zlength pre + zlength new + zlength post)
    by (unfold zlength; rewrite !length_app; lia).
  match goal with |- context [new_multifield ?n _] => replace n with (zlength (pre ++ new ++ post)) by (destruct (is_multifield u3); lia) end.
  by rewrite new_multifield_eq.
Qed.

(** Indices that are not in the segment. *)
Lemma ReplaceFunction_out_of_range s s1 s' em es ee rest u us ue ufs l a b new f p l0 rv g :
  current_of s = Some (EFcall g (em :: es :: ee :: rest)) →
  gives ev s [em; es; ee] [u; us; ue] s1 → gives ev s1 rest ufs s' → rest ≠ [] → argument_fields ufs = Some new →
  is_segment u l → uv_value us = VInteger a → uv_value ue = VInteger b → is_long_long a → is_long_long b →
  ¬ (1 <= a <= b ∧ b <= zlength l) →
  ∃ msg, ReplaceFunction ev (s, mkUDFContext f p l0 rv) = Some (tt, (failed msg s', mkUDFContext f 4 rest SetMultifieldErrorValue)).
Proof.
  intros Hc Hg Hgr Hrest Hnew Hl Ha Hb Hla Hlb Hno. pose proof (is_segment_range _ _ Hl) as (Hr & Hb0 & Hmem).
  destruct (range_failure_eq (W := W) a b (uv_range u) "replace$") as [msg Hmsg]. exists msg.
  unfold ReplaceFunction.
  match goal with |- context [arg_or_return _ (fun v1 => arg_or_return _ (fun v2 => arg_or_return _ (fun v3 => @?K v1 v2 v3)))] =>
    destruct (three_arguments s s1 em es ee rest u us ue _ _ _ f p l0 rv g K Hc Hg Hl Ha Hb) as (us' & ue' & Ha' & Hb' & ->) end.
  cbn beta. pose proof (gives_current ev _ _ _ _ Hg) as Hc1. rewrite Hc in Hc1.
  mrun (current_args_eq s1 g _ (mkUDFContext f 4 rest rv) Hc1). cbn [drop].
  destruct (field_argument_eq s1 rest ufs s' new (mkUDFContext f 4 rest rv) Hgr Hrest Hnew) as (u4 & H4 & _).
  mrun H4. mrun (integer_contents_eq _ _ (s', mkUDFContext f 4 rest rv) Ha').
  mrun (integer_contents_eq _ _ (s', mkUDFContext f 4 rest rv) Hb'). cbv zeta.
  destruct (range_cases a b (uv_range u)) as [[Hin _]|[_ [->|[-> ->]]]]; [done|done|lia|lia| |];
    by rewrite (Hmsg s' (mkUDFContext f 4 rest rv)).
Qed.
End index_functions.

Section calls.
Context {W : Type} `{!EvalHost W}.

Lemma gives_error (ev : Evaluator W) s es us s' : gives ev s es us s' → es ≠ [] → error_of s' = false.
Proof.
  induction 1 as [|s e u s1 es us s2 He Herr Hg IH]; [done|]. intros _.
  destruct es; [by inversion Hg; subst|by apply IH].
Qed.
Lemma returned_whole l : returned (whole l) = whole l.
Proof. unfold returned, whole. simpl. destruct (_ =? SIZE_MAX); done. Qed.

Lemma returned_segment u l : is_segment u l → returned u = u.
Proof.
  intros (c & Hc & (? & _ & ? & _)%segment_Some & Hmem). unfold returned. rewrite Hc.
  rewrite (proj2 (Z.eqb_neq _ _)); [done|]. unfold SIZE_MAX, LLONG_MAX in *. lia.
Qed.

(** A call, from what its function does in the new context. *)
Lemma eval_udf n f es (s : EvalEnv W) s' p l u :
  call_functionPointer (EvaluateExpression n) n (functionPointer f)
    (enter (Some (EFcall f es)) s, mkUDFContext f 1 es initial_returnValue) = Some (tt, (s', mkUDFContext f p l u)) →
  EvaluateExpression (S n) (Some (EFcall f es)) s = Some (returned u, enter (current_of s) s').
Proof. intros H. by rewrite eval_call, H. Qed.
End calls.

(** ** [member$] *)

Lemma zlength_nonneg {A} (l : list A) : 0 <= zlength l.
Proof. unfold zlength. lia. Qed.
Lemma zlength_app {A} (l1 l2 : list A) : zlength (l1 ++ l2) = zlength l1 + zlength l2.
Proof. unfold zlength. rewrite length_app. lia. Qed.

(** The search finds the first occurrence, or [VALUE_NOT_FOUND]; of a single
    value it gives the index in the contents, not in the segment. *)
Lemma FindValue_eq sought u s l : is_segment u l → values_of sought = Some s → Forall clean s →
  FindValueInMultifield sought u = Some (match first_occurrence s l with
    | Some k => (if is_multifield sought then 0 else uv_begin u) + Z.of_nat k
    | None => VALUE_NOT_FOUND
    end).
Proof.
  intros Hl Hs Hc. pose proof (is_segment_range _ _ Hl) as (Hr & _ & _).
  unfold FindValueInMultifield. rewrite (is_segment_values _ _ Hl). cbn [mbind option_bind].
  destruct (is_multifield sought) eqn:Em; cbn [negb].
  - assert (Hsr : uv_range sought = zlength s).
    { unfold values_of, is_multifield in *. destruct (uv_value sought); try done. by apply segment_Some in Hs as (_&_&_&->&_). }
    rewrite Hr, Hsr. unfold zlength. destruct (Z.ltb_spec (Z.of_nat (length l)) (Z.of_nat (length s))).
    + by rewrite first_occurrence_short by lia.
    + rewrite Hs. cbn [mbind option_bind]. rewrite find_fields_clean by (done || lia). done.
  - assert (s = [uv_value sought]) as ->.
    { unfold values_of, is_multifield in *. destruct (uv_value sought); try done; by injection Hs as <-. }
    apply Forall_cons in Hc as [Hc _]. by rewrite index_in_clean.
Qed.

Lemma first_occurrence_bound s l k : first_occurrence s l = Some k → Z.of_nat k + zlength s <= zlength l.
Proof.
  intros (pre & post & -> & <-)%first_occurrence_split. rewrite !zlength_app. unfold zlength. lia.
Qed.

(** The value of [member$] when [sought] is first found after [k] fields. *)
Definition member_result (u1 : UDFValue) (sought : list value) (k : option nat) : UDFValue :=
  match k with
  | None => set_uv_value FalseSymbol initial_returnValue
  | Some k =>
      if is_multifield u1 && negb (zlength sought =? 1)
      then whole [VInteger (Z.of_nat k + 1); VInteger (Z.of_nat k + zlength sought)]
      else set_uv_value (VInteger (Z.of_nat k + 1)) initial_returnValue
  end.

Section member.
Context {W : Type} (ev : Evaluator W) `{!EvaluatorLaws ev}.

Lemma MemberFunction_eq (s s' : EvalEnv W) e1 e2 u1 u2 sought l f p l0 g :
  current_of s = Some (EFcall g [e1; e2]) → gives ev s [e1; e2] [u1; u2] s' →
  is_segment u2 l → values_of u1 = Some sought → Forall clean sought →
  MemberFunction ev (s, mkUDFContext f p l0 initial_returnValue) =
    Some (tt, (s', mkUDFContext f 3 [] (member_result u1 sought (first_occurrence sought l)))).
Proof.
  intros Hc Hg Hl Hs Hcl. pose proof (is_segment_range _ _ Hl) as (Hr & Hb & Hmem).
  apply gives_cons_inv in Hg as (?&?&s1&[= <- <-]&H1&E1&(?&?&s2&[= <- <-]&H2&E2&[_ <-]%gives_nil_inv)%gives_cons_inv).
  set (rv := set_uv_value FalseSymbol initial_returnValue).
  destruct (next_argument_gives ev s e1 u1 s1 f 1 [e2] rv None ANY_TYPE_BITS H1 E1 (type_expected_any _)) as (u1' & Hu1 & Hn1).
  pose proof (same_argument_values _ _ Hu1) as Hv. rewrite Hs in Hv. destruct Hu1 as [Hu1 Hm1].
  assert (Hm : is_multifield u1' = is_multifield u1) by (unfold is_multifield; by rewrite Hu1).
  assert (Hr1 : is_multifield u1' = true → uv_range u1' = zlength sought).
  { intros E. unfold values_of, is_multifield in *. destruct (uv_value u1'); try done. by apply segment_Some in Hv as (_&_&_&->&_). }
  unfold MemberFunction. rewrite (M_bind_Some _ _ _ tt (s, mkUDFContext f p l0 rv)) by done.
  erewrite arg_or_return_ok by (rewrite (first_argument_eq ev _ _ _ _ _ _ Hc); exact Hn1).
  erewrite arg_or_return_ok by (exact (next_multifield_ok ev s1 e2 u2 l s' f 2 [] rv H2 E2 Hl)).
  pose proof (FindValue_eq u1' u2 sought l Hl Hv Hcl) as Hf.
  pose proof (zlength_nonneg sought) as Hsn. pose proof (zlength_nonneg l) as Hln.
  unfold member_result. rewrite <- Hm. destruct (is_multifield u1') eqn:Em; cbn [negb andb].
  - rewrite Hr1, Hr by done. destruct (Z.ltb_spec (zlength l) (zlength sought)).
    { rewrite first_occurrence_short; [done|unfold zlength in *; lia]. }
    rewrite Hf, M_fromOption_Some. destruct (first_occurrence sought l) as [k|] eqn:Ek; [|by rewrite Z.eqb_refl].
    apply first_occurrence_bound in Ek. rewrite Z.add_0_l.
    rewrite (proj2 (Z.eqb_neq _ VALUE_NOT_FOUND)) by (unfold VALUE_NOT_FOUND, SIZE_MAX, LLONG_MAX in *; lia).
    by destruct (zlength sought =? 1).
  - unfold FindValueInMultifield in Hf. rewrite (is_segment_values _ _ Hl), Em in Hf. cbn [mbind option_bind negb] in Hf.
    rewrite (is_segment_values _ _ Hl), M_fromOption_Some, Hf, M_fromOption_Some.
    destruct (first_occurrence sought l) as [k|] eqn:Ek; [|by rewrite Z.eqb_refl].
    apply first_occurrence_bound in Ek.
    rewrite (proj2 (Z.eqb_neq _ VALUE_NOT_FOUND)) by (unfold VALUE_NOT_FOUND, SIZE_MAX, LLONG_MAX in *; lia).
    cbn [negb whenM]. replace (uv_begin u2 + Z.of_nat k + 1 - uv_begin u2) with (Z.of_nat k + 1) by lia. done.
Qed.
End member.

(** ** [delete-member$] *)

Lemma first_occurrence_value v l : match first_occurrence [v] l with
  | Some k => ∃ pre post, l = pre ++ v :: post ∧ length pre = k ∧ v ∉ pre
  | None => v ∉ l
  end.
Proof.
  destruct (first_occurrence [v] l) as [k|] eqn:Ek.
  - pose proof (first_occurrence_split _ _ _ Ek) as (pre & post & -> & Hk). exists pre, post. split_and!; [done|done|].
    intros (a & b & ->)%list_elem_of_split.
    destruct (first_occurrence_least [v] a (b ++ [v] ++ post)) as (k' & Hk' & Hle).
    rewrite <- app_assoc in Ek. cbn [app] in Ek, Hk'. rewrite Ek in Hk'. injection Hk' as <-.
    rewrite length_app in Hk. simpl in Hk. lia.
  - intros (a & b & ->)%list_elem_of_split. destruct (first_occurrence_least [v] a b) as (k & Hk & _).
    cbn [app] in Hk. by rewrite Hk in Ek.
Qed.

Definition single (u : UDFValue) (v : value) : Prop := is_multifield u = false ∧ uv_value u = v ∧ clean v.

Lemma delete_occurrences_single fuel sought v u l : single sought v → is_segment u l → (length l <= fuel)%nat →
  ∃ u', delete_occurrences fuel sought 1 u = Some u' ∧ is_segment u' (filter (fun w => w ≠ v) l).
Proof.
  intros (Hm & Hv & Hc). revert u l. induction fuel as [|fuel IH]; intros u l Hl Hfuel; cbn [delete_occurrences].
  all: pose proof (is_segment_range _ _ Hl) as (Hr & Hb & Hmem).
  all: rewrite (FindValue_eq sought u [v] l Hl) by (first [by repeat constructor | unfold values_of, is_multifield in *; rewrite <- Hv; by destruct (uv_value sought)]).
  all: cbn [mbind option_bind]; rewrite Hm; pose proof (first_occurrence_value v l) as Hf.
  all: assert (Hnone : v ∉ l → filter (fun w => w ≠ v) l = l)
    by (clear; induction l as [|w l IH]; [done|]; intros Hn; rewrite filter_cons_True by set_solver; f_equal; apply IH; set_solver).
  - destruct l; [|simpl in Hfuel; lia]. destruct (first_occurrence [v] []) as [k|]; [by destruct Hf as ([] & ? & ? & _)|].
    rewrite Z.eqb_refl. by exists u.
  - destruct (first_occurrence [v] l) as [k|]; [|rewrite Z.eqb_refl; exists u; by rewrite Hnone].
    destruct Hf as (pre & post & -> & <- & Hpre). rewrite zlength_app in Hmem.
    assert (zlength (v :: post) = 1 + zlength post) by (unfold zlength; simpl; lia).
    pose proof (zlength_nonneg pre). pose proof (zlength_nonneg post). fold (zlength pre).
    rewrite (proj2 (Z.eqb_neq _ VALUE_NOT_FOUND)) by (unfold VALUE_NOT_FOUND, SIZE_MAX, LLONG_MAX in *; lia).
    rewrite (is_segment_values _ _ Hl). cbn [mbind option_bind].
    change (v :: post) with ([v] ++ post).
    replace (uv_begin u + zlength pre + 1 - 1) with (uv_begin u + zlength pre + zlength [v] - 1) by (unfold zlength; simpl; lia).
    rewrite copy_outside_eq, Hr, zlength_app, new_multifield_eq by (rewrite zlength_app; lia). cbn [mbind option_bind].
    assert (E : zlength pre + zlength (v :: post) - 1 = zlength (pre ++ post)) by (rewrite zlength_app; lia).
    rewrite E. fold (whole (pre ++ post)).
    destruct (IH (whole (pre ++ post)) (pre ++ post)) as (u' & Hu' & Hs').
    + apply whole_segment. lia.
    + rewrite length_app in *. simpl in Hfuel. lia.
    + exists u'. split; [exact Hu'|]. rewrite filter_app in *. cbn [app]. rewrite filter_cons_False by auto. exact Hs'.
Qed.

Section delete_member.
Context {W : Type} (ev : Evaluator W) `{!EvaluatorLaws ev}.

Lemma delete_members_single (s s' : EvalEnv W) es us vs u l f p rv :
  gives ev s es us s' → Forall2 single us vs → is_segment u l →
  ∃ u', delete_members ev (length es) u (s, mkUDFContext f p es rv) =
    Some (tt, (s', mkUDFContext f (p + zlength es) [] u')) ∧ is_segment u' (filter (fun w => w ∉ vs) l).
Proof.
  intros Hg Hus. revert vs u l p Hus. induction Hg as [s|s e u1 s1 es us s2 He Herr Hg IH]; intros vs u l p Hus Hl.
  - apply Forall2_nil_inv_l in Hus as ->. exists u. split; [cbn; by rewrite Z.add_0_r|].
    clear -Hl. replace (filter _ l) with l; [done|].
    clear. induction l as [|w l IH]; [done|]. rewrite filter_cons_True by set_solver. by f_equal.
  - apply Forall2_cons_inv_l in Hus as (v & vs' & (Hm & Hv & Hc) & Hus & ->).
    destruct (next_argument_gives ev s e u1 s1 f p es rv None ANY_TYPE_BITS He Herr (type_expected_any _)) as (u1' & [Hu1 Hm1] & Hn).
    assert (Hsingle : single u1' v).
    { split; [|by rewrite Hu1]. unfold is_multifield in *. by rewrite Hu1. }
    pose proof (is_segment_range _ _ Hl) as (Hr & _ & _).
    destruct (delete_occurrences_single (Z.to_nat (uv_range u)) u1' v u l Hsingle Hl) as (u2 & H2 & Hl2).
    { rewrite Hr. unfold zlength. lia. }
    destruct (IH vs' u2 _ (p + 1) Hus Hl2) as (u' & Hu' & Hl').
    exists u'. split.
    + cbn [length delete_members]. mrun Hn. cbn [negb]. rewrite M_fromOption_Some.
      rewrite (proj1 Hsingle). cbn [andb]. rewrite H2, M_fromOption_Some, Hu'. do 4 f_equal. unfold zlength. simpl. lia.
    + rewrite list_filter_filter in Hl'. erewrite list_filter_iff; [exact Hl'|]. intros w. cbn. set_solver.
Qed.
End delete_member.

(** *** A segment and a multifield to delete *)

Lemma copy_outside_length rs re i l : rs <= re + 1 → i <= re + 1 → zlength l - (re + 1 - Z.max rs i) <= zlength (copy_outside rs re i l).
Proof.
  intros Hrs. revert i. unfold zlength. induction l as [|v l IH]; intros i Hi; cbn [copy_outside length]; [lia|].
  destruct (Z.leb_spec rs i), (Z.leb_spec i re); cbn [andb app length].
  - specialize (IH (i + 1)). lia.
  - rewrite copy_outside_after by lia. lia.
  - specialize (IH (i + 1)). lia.
  - rewrite copy_outside_after by lia. lia.
Qed.

(** The search of a multifield counts from the start of the segment, the copying
    loop from the start of the contents: too few fields are left out, and the
    others run past the end of the new multifield. *)
Lemma delete_occurrences_overruns fuel sought s u l k : is_segment u l → values_of sought = Some s →
  is_multifield sought = true → Forall clean s → first_occurrence s l = Some k → s ≠ [] → Z.of_nat k < uv_begin u →
  delete_occurrences fuel sought (zlength s) u = None.
Proof.
  intros Hl Hs Hm Hc Hk Hne Hlt. pose proof (is_segment_range _ _ Hl) as (Hr & Hb & Hmem).
  pose proof (first_occurrence_bound _ _ _ Hk) as Hbound.
  assert (0 < zlength s) by (unfold zlength; destruct s; [done|simpl; lia]).
  destruct fuel as [|fuel]; cbn [delete_occurrences]; rewrite (FindValue_eq _ _ _ _ Hl Hs Hc), Hk, Hm; cbn [mbind option_bind].
  all: rewrite Z.add_0_l, (proj2 (Z.eqb_neq _ VALUE_NOT_FOUND)) by (unfold VALUE_NOT_FOUND, SIZE_MAX, LLONG_MAX in *; lia).
  - done.
  - rewrite (is_segment_values _ _ Hl). cbn [mbind option_bind]. unfold new_multifield.
    rewrite (proj2 (Z.eqb_neq _ _)); [done|].
    destruct (Z.le_gt_cases (uv_begin u) (Z.of_nat k + zlength s)) as [Hle|Hgt].
    + pose proof (copy_outside_length (Z.of_nat k) (Z.of_nat k + zlength s - 1) (uv_begin u) l ltac:(lia) ltac:(lia)).
      unfold zlength in *. lia.
    + rewrite copy_outside_after by lia. unfold zlength in *. lia.
Qed.

(** ** [replace-member$] *)

Lemma match_at_single ex l i u v w : single u v → l !! Z.to_nat i = Some w →
  match_at ex l i u = Some (if bool_decide (v = w) && MVRangeCheck (i + 1) (i + 1) ex then Some (i + 1, i + 1) else None).
Proof.
  intros (Hm & Hv & Hc) Hw. unfold match_at. rewrite Hm, Hw, Hv. cbn [mbind option_bind].
  by rewrite same_object_clean.
Qed.
Lemma first_match_single ex l i us vs w : Forall2 single us vs → l !! Z.to_nat i = Some w →
  first_match ex l i us = Some (if bool_decide (w ∈ vs) && MVRangeCheck (i + 1) (i + 1) ex then Some (i + 1, i + 1) else None).
Proof.
  intros Hus Hw. induction Hus as [|u v us vs Hu Hus IH]; cbn [first_match]; [done|].
  rewrite (match_at_single _ _ _ _ _ _ Hu Hw). cbn [mbind option_bind].
  destruct (MVRangeCheck _ _ ex); [|by rewrite !andb_false_r in *]. rewrite !andb_true_r in *.
  destruct (decide (v = w)) as [->|Hne].
  - rewrite !bool_decide_eq_true_2 by set_solver. done.
  - rewrite (bool_decide_eq_false_2 (v = w)), IH by done. do 2 f_equal.
    rewrite (bool_decide_ext (w ∈ v :: vs) (w ∈ vs)); [done|set_solver].
Qed.

Lemma find_DOs_skip ex us vs n pre mid post : Forall2 single us vs →
  (∀ k w, mid !! k = Some w → w ∈ vs → MVRangeCheck (zlength pre + Z.of_nat k + 1) (zlength pre + Z.of_nat k + 1) ex = false) →
  find_DOs (length mid + n) ex (pre ++ mid ++ post) (zlength pre) us =
  find_DOs n ex (pre ++ mid ++ post) (zlength pre + zlength mid) us.
Proof.
  intros Hus. revert pre. induction mid as [|w mid IH]; intros pre Hno; [unfold zlength; simpl; by rewrite Z.add_0_r|].
  cbn [length Nat.add find_DOs].
  rewrite (first_match_single ex _ _ us vs w Hus); cbn [mbind option_bind].
  2: { unfold zlength. rewrite Nat2Z.id. by apply list_lookup_middle. }
  assert (E : bool_decide (w ∈ vs) && MVRangeCheck (zlength pre + 1) (zlength pre + 1) ex = false).
  { case_bool_decide as Hin; [|done]. specialize (Hno 0%nat w eq_refl Hin). by rewrite Z.add_0_r in Hno. }
  rewrite E. specialize (IH (pre ++ [w])). rewrite zlength_app, <- app_assoc in IH.
  change (zlength [w]) with 1 in IH. cbn [app] in IH |- *. rewrite IH.
  - f_equal. unfold zlength. simpl. lia.
  - intros k x Hk Hx. specialize (Hno (S k) x Hk Hx).
    replace (zlength pre + 1 + Z.of_nat k + 1) with (zlength pre + Z.of_nat (S k) + 1) by lia. done.
Qed.

(** The part of a segment before the excluded places is done. *)
Lemma FindDOs_single us vs u done rest ex : Forall2 single us vs → is_multifield u = true → values_of u = Some (done ++ rest) →
  (∀ i, MVRangeCheck i i ex = negb ((1 <=? i) && (i <=? zlength done))) →
  (Forall (fun w => w ∉ vs) rest ∧ FindDOsInSegment us u ex = Some None) ∨
  ∃ a w b, rest = a ++ w :: b ∧ w ∈ vs ∧ Forall (fun w => w ∉ vs) a ∧
    let i := zlength done + zlength a + 1 in FindDOsInSegment us u ex = Some (Some (i, i)).
Proof.
  intros Hus Hm Hv Hex. unfold FindDOsInSegment. rewrite Hv. cbn [mbind option_bind].
  assert (Hr : uv_range u = zlength (done ++ rest)).
  { unfold values_of, is_multifield in *. destruct (uv_value u); try easy. by apply segment_Some in Hv as (_&_&_&->&_). }
  replace (Z.to_nat (uv_range u)) with (length done + length rest)%nat by (rewrite Hr; unfold zlength; rewrite length_app; lia).
  assert (Hskip : ∀ a b, rest = a ++ b → Forall (fun w => w ∉ vs) a →
    find_DOs (length done + length rest) ex (done ++ rest) 0 us =
    find_DOs (length b) ex (done ++ rest) (zlength done + zlength a) us).
  { intros a b -> Ha. pose proof (find_DOs_skip ex us vs (length b) [] (done ++ a) b Hus) as H.
    change (zlength []) with 0 in H. cbn [app] in H. rewrite zlength_app, <- app_assoc, !length_app in H.
    rewrite length_app, Nat.add_assoc, H; [f_equal; lia|].
    intros k w Hk Hw. rewrite Hex. apply lookup_app_Some in Hk as [Hk|[Hk1 Hk]].
    - apply lookup_lt_Some in Hk. unfold zlength. rewrite !(proj2 (Z.leb_le _ _)) by lia. done.
    - apply list_elem_of_lookup_2 in Hk. rewrite Forall_forall in Ha. by destruct (Ha w Hk). }
  destruct (decide (Forall (fun w => w ∉ vs) rest)) as [Hall|Hsome].
  - left. split; [done|]. rewrite (Hskip rest []) by (done || by rewrite app_nil_r). done.
  - right. assert (∃ a w b, rest = a ++ w :: b ∧ w ∈ vs ∧ Forall (fun w => w ∉ vs) a) as (a & w & b & E & Hw & Ha).
    { clear -Hsome. induction rest as [|x rest IH]; [by destruct Hsome|].
      destruct (decide (x ∈ vs)) as [Hx|Hx]; [by exists [], x, rest|].
      destruct IH as (a & w & b & -> & Hw & Ha); [intros ?; by destruct Hsome; constructor|].
      exists (x :: a), w, b. split_and!; [done|done|by constructor]. }
    exists a, w, b. split_and!; [done|done|done|]. cbv zeta. rewrite (Hskip a (w :: b) E Ha). cbn [length find_DOs].
    rewrite (first_match_single ex _ _ us vs w Hus).
    2: { rewrite E, app_assoc. rewrite <- zlength_app. unfold zlength. rewrite Nat2Z.id. by apply list_lookup_middle. }
    cbn [mbind option_bind]. rewrite bool_decide_eq_true_2, Hex by done.
    pose proof (zlength_nonneg a). rewrite (proj2 (Z.leb_gt _ (zlength done))) by lia. by rewrite andb_false_r.
Qed.

Lemma values_of_multifield u l : is_multifield u = true → values_of u = Some l →
  ∃ c, uv_value u = VMultifield c ∧ segment c (uv_begin u) (uv_range u) = Some l.
Proof. unfold is_multifield, values_of. destruct (uv_value u); try easy. eauto. Qed.

Lemma ReplaceMultiValueField_one {St} `{!Router St} u pre w post r new name (fr : St) :
  is_multifield u = true → values_of u = Some (pre ++ w :: post) → values_of r = Some new →
  (if is_multifield r then uv_range r = zlength new else zlength new = 1) →
  ReplaceMultiValueFieldSizet u (zlength pre + 1) (zlength pre + 1) r name fr = Some (Some (whole (pre ++ new ++ post)), fr).
Proof.
  intros Hm Hv Hr Hsize. destruct (values_of_multifield _ _ Hm Hv) as (c & Hc & Hs).
  pose proof (segment_Some _ _ _ _ Hs) as (_ & _ & _ & Hlen & _).
  rewrite zlength_app in Hlen. change (w :: post) with ([w] ++ post) in Hlen. rewrite zlength_app in Hlen.
  change (zlength [w]) with 1 in Hlen. pose proof (zlength_nonneg pre). pose proof (zlength_nonneg post).
  unfold ReplaceMultiValueFieldSizet. cbv zeta.
  rewrite Z.ltb_irrefl, !(proj2 (Z.ltb_ge _ _)) by lia. cbn [orb]. rewrite Hr, M_fromOption_Some, Hc.
  replace (segment c (uv_begin u) _) with (Some pre); [|symmetry].
  2: { rewrite <- (Z.add_0_r (uv_begin u)) at 1. rewrite (segment_part _ _ _ _ _ _ Hs) by lia.
    change (Z.to_nat 0) with 0%nat. rewrite drop_0. f_equal.
    replace (Z.to_nat _) with (length pre) by (unfold zlength in *; lia). apply take_app_length. }
  rewrite M_fromOption_Some.
  set (dstlen := if is_multifield r then _ else _).
  assert (E : dstlen = zlength (pre ++ new ++ post)) by (unfold dstlen; rewrite !zlength_app; destruct (is_multifield r); lia).
  clearbody dstlen. subst dstlen.
  replace (segment c (uv_begin u + (zlength pre + 1) - 1 + 1) _) with (Some post); [|symmetry].
  2: { replace (uv_begin u + (zlength pre + 1) - 1 + 1) with (uv_begin u + (zlength pre + 1)) by lia.
    rewrite !zlength_app. unfold zlength in *. rewrite (segment_part _ _ _ _ _ _ Hs) by lia. f_equal.
    replace (Z.to_nat (Z.of_nat (length pre) + 1)) with (length (pre ++ [w])) by (rewrite length_app; simpl; lia).
    change (pre ++ w :: post) with (pre ++ [w] ++ post). rewrite app_assoc, drop_app_length. apply take_ge. lia. }
  rewrite M_fromOption_Some, new_multifield_eq by done. done.
Qed.

(** [l] with every field of [vs] replaced by the fields [new]. *)
Definition replace_fields (vs new l : list value) : list value :=
  concat ((fun w => if bool_decide (w ∈ vs) then new else [w]) <$> l).
Lemma replace_fields_none vs new l : Forall (fun w => w ∉ vs) l → replace_fields vs new l = l.
Proof.
  induction 1 as [|w l Hw _ IH]; [done|]. unfold replace_fields in *. cbn. rewrite IH.
  by rewrite bool_decide_eq_false_2.
Qed.
Lemma replace_fields_app vs new l1 l2 : replace_fields vs new (l1 ++ l2) = replace_fields vs new l1 ++ replace_fields vs new l2.
Proof. unfold replace_fields. by rewrite fmap_app, concat_app. Qed.

Section replace_member.
Context {W : Type} (ev : Evaluator W) `{!EvaluatorLaws ev}.

Lemma replace_occurrences_single fuel us vs r new u done rest ex (fr : EvalEnv W * UDFContext) :
  Forall2 single us vs → values_of r = Some new →
  (if is_multifield r then uv_range r = zlength new else zlength new = 1) →
  is_multifield u = true → values_of u = Some (done ++ rest) →
  (∀ i, MVRangeCheck i i ex = negb ((1 <=? i) && (i <=? zlength done))) → (length rest <= fuel)%nat →
  ∃ u', replace_occurrences fuel us r u (zlength new) ex fr = put_returnValue u' fr ∧
    is_multifield u' = true ∧ values_of u' = Some (done ++ replace_fields vs new rest).
Proof.
  intros Hus Hr Hsize. revert u done rest ex. induction fuel as [|fuel IH]; intros u done rest ex Hm Hv Hex Hfuel.
  - destruct rest; [|simpl in Hfuel; lia]. exists u. split; [|done]. cbn [replace_occurrences].
    destruct (FindDOs_single us vs u done [] ex Hus Hm Hv Hex) as [[_ ->]|(a & w & b & E & _)]; [done|by destruct a].
  - cbn [replace_occurrences].
    destruct (FindDOs_single us vs u done rest ex Hus Hm Hv Hex) as [[Hnone ->]|(a & w & b & -> & Hw & Ha & ->)].
    { exists u. split; [done|]. split; [done|]. by rewrite replace_fields_none. }
    rewrite M_fromOption_Some. pose proof (zlength_app done a) as Hda. rewrite <- Hda. rewrite app_assoc in Hv.
    mrun (ReplaceMultiValueField_one u (done ++ a) w b r new "replace-member$" fr Hm Hv Hr Hsize).
    destruct (IH (whole ((done ++ a) ++ new ++ b)) ((done ++ a) ++ new) b [(1, zlength (done ++ a) + 1 + zlength new - 1)])
      as (u' & Hu' & Hm' & Hv').
    + done.
    + rewrite <- (app_assoc (done ++ a) new b). apply segment_whole.
    + intros i. rewrite (zlength_app (done ++ a) new). replace (zlength (done ++ a) + 1 + zlength new - 1) with (zlength (done ++ a) + zlength new) by lia.
      cbn [MVRangeCheck forallb]. by destruct ((1 <=? i) && _).
    + rewrite length_app in Hfuel. simpl in Hfuel. lia.
    + exists u'. split; [done|]. split; [done|]. rewrite Hv', replace_fields_app, (replace_fields_none vs new a Ha).
      unfold replace_fields. cbn. rewrite bool_decide_eq_true_2 by done. by rewrite <- !app_assoc.
Qed.

(** The loop that evaluates the rest of the arguments by position. *)
Lemma nth_arguments_eq (s s' : EvalEnv W) es us t f es1 p l rv :
  gives ev s es us s' → Forall (fun u => type_expected t (uv_value u) = true) us →
  current_of s = Some (EFcall f (es1 ++ es)) →
  (∃ r, es1 ++ es = r ++ l ∧ p = 1 + Z.of_nat (length r)) →
  ∃ us' p' l', Forall2 same_argument us' us ∧
  nth_arguments ev (length es) (1 + zlength es1) t (s, mkUDFContext f p l rv) =
    Some (Some us', (s', mkUDFContext f p' l' rv)).
Proof.
  intros Hg. revert es1 p l. induction Hg as [s|s e u s1 es us s2 He Herr Hg IH]; intros es1 p l Ht Hc Hr.
  - exists [], p, l. split; [constructor|done].
  - apply Forall_cons in Ht as [Ht1 Ht]. cbn [length nth_arguments].
    destruct (next_argument_gives ev s e u s1 f (1 + zlength es1) es rv None t He Herr Ht1) as (u' & Hu & Hn).
    unfold zlength in Hn at 1. rewrite <- (nth_argument_eq ev _ _ s f es1 (e :: es) p l rv Hc Hr) in Hn.
    mrun Hn. cbn [negb]. rewrite M_fromOption_Some.
    destruct (IH (es1 ++ [e]) (1 + zlength es1 + 1) es Ht) as (us' & p' & l' & Hus & H).
    + rewrite (ev_current (Some e) _ _ _ He), Hc. by rewrite <- app_assoc.
    + exists (es1 ++ [e]). split; [by rewrite <- app_assoc|]. rewrite length_app. unfold zlength. simpl. lia.
    + rewrite zlength_app in H. change (zlength [e]) with 1 in H. rewrite Z.add_assoc in H.
      exists (u' :: us'), p', l'. split; [by constructor|]. by mrun H.
Qed.
End replace_member.

Lemma single_same u' u v : same_argument u' u → single u v → single u' v.
Proof. intros [Hu _] (Hm & Hv & Hc). unfold single, is_multifield in *. by rewrite Hu. Qed.

(** ** The set functions *)

(** The elements of a list in the order of their first occurrences. *)
Definition add_distinct (acc : list value) (v : value) : list value := if bool_decide (v ∈ acc) then acc else acc ++ [v].
Definition distinct (l : list value) : list value := foldl add_distinct [] l.

Lemma foldl_add_distinct acc l : NoDup acc →
  NoDup (foldl add_distinct acc l) ∧ (∀ v, v ∈ foldl add_distinct acc l ↔ v ∈ acc ∨ v ∈ l) ∧ acc `prefix_of` foldl add_distinct acc l.
Proof.
  revert acc. induction l as [|w l IH]; intros acc Hacc; cbn [foldl].
  { split_and!; [done|set_solver|done]. }
  unfold add_distinct at 2 4 6. case_bool_decide as Hw.
  - destruct (IH acc Hacc) as (H1 & H2 & H3). split_and!; [done| |done]. intros v. rewrite H2. set_solver.
  - destruct (IH (acc ++ [w])) as (H1 & H2 & H3).
    { apply NoDup_app. split_and!; [done|set_solver|apply NoDup_singleton]. }
    split_and!; [done| |by etrans; [by eexists|exact H3]]. intros v. rewrite H2. set_solver.
Qed.
Lemma distinct_NoDup l : NoDup (distinct l).
Proof. apply foldl_add_distinct. constructor. Qed.
Lemma elem_of_distinct v l : v ∈ distinct l ↔ v ∈ l.
Proof. unfold distinct. rewrite (proj1 (proj2 (foldl_add_distinct [] l ltac:(constructor)))). set_solver. Qed.
Lemma distinct_length l l' : (∀ v, v ∈ l → v ∈ l') → zlength (distinct l) <= zlength l'.
Proof.
  intros Hin. unfold zlength. apply Nat2Z.inj_le, submseteq_length, NoDup_submseteq; [apply distinct_NoDup|].
  intros v Hv. apply Hin. by apply elem_of_distinct.
Qed.

Lemma collect_elements_eq maxElements wanted (P : value → Prop) `{!∀ v, Decision (P v)} l arr : NoDup arr →
  Forall (fun v => clean v ∧ wanted v = Some (bool_decide (P v))) l →
  zlength (foldl add_distinct arr (filter P l)) <= maxElements →
  collect_elements maxElements wanted l arr = Some (foldl add_distinct arr (filter P l)).
Proof.
  revert arr. induction l as [|v l IH]; intros arr Harr Hl Hmax; [done|].
  apply Forall_cons in Hl as [[Hc Hw] Hl]. cbn [collect_elements]. rewrite Hw. cbn [mbind option_bind].
  destruct (decide (P v)) as [Hv|Hv].
  - rewrite bool_decide_eq_true_2 by done. cbn [negb]. rewrite found_in_clean by done. cbn [mbind option_bind].
    rewrite filter_cons_True in * by done. cbn [foldl] in *. revert Hmax. unfold add_distinct at 2 4.
    destruct (decide (v ∈ arr)) as [Hin|Hin];
      [rewrite !(bool_decide_eq_true_2 (v ∈ arr)) by done|rewrite !(bool_decide_eq_false_2 (v ∈ arr)) by done];
      intros Hmax; cbn [mbind option_bind]; [by apply IH|].
    assert (Harr' : NoDup (arr ++ [v])) by (apply NoDup_app; split_and!; [done|set_solver|apply NoDup_singleton]).
    destruct (foldl_add_distinct (arr ++ [v]) (filter P l) Harr') as (_ & _ & [k Hk]).
    unfold add_element. rewrite (proj2 (Z.ltb_lt _ _)); [cbn [mbind option_bind]; by apply IH|].
    rewrite Hk, !zlength_app in Hmax. change (zlength [v]) with 1 in Hmax. pose proof (zlength_nonneg k).
    unfold zlength in *. lia.
  - rewrite bool_decide_eq_false_2 by done. cbn [negb mbind option_bind]. rewrite filter_cons_False in * by done. by apply IH.
Qed.
Lemma found_in_all_eq v ls : clean v → found_in_all v ls = Some (bool_decide (Forall (fun l => v ∈ l) ls)).
Proof.
  intros Hv. induction ls as [|l ls IH]; cbn [found_in_all]; [done|].
  rewrite found_in_clean by done. cbn [mbind option_bind]. rewrite IH.
  destruct (decide (v ∈ l)).
  - rewrite bool_decide_eq_true_2 by done. f_equal. apply bool_decide_ext. rewrite Forall_cons; tauto.
  - rewrite (bool_decide_eq_false_2 (v ∈ l)) by done. rewrite bool_decide_eq_false_2; [done|]. rewrite Forall_cons; tauto.
Qed.
Lemma found_in_some_eq v ls : clean v →
  (b ← found_in_some v ls; Some (negb b)) = Some (bool_decide (Forall (fun l => v ∉ l) ls)).
Proof.
  intros Hv. induction ls as [|l ls IH]; cbn [found_in_some]; [done|].
  rewrite found_in_clean by done. cbn [mbind option_bind].
  destruct (decide (v ∈ l)).
  - rewrite bool_decide_eq_true_2 by done. cbn. rewrite bool_decide_eq_false_2; [done|rewrite Forall_cons; tauto].
  - rewrite bool_decide_eq_false_2 by done. cbn [mbind option_bind] in *. rewrite IH. f_equal. apply bool_decide_ext.
    rewrite Forall_cons; tauto.
Qed.
Lemma collect_all_eq maxElements ls arr : NoDup arr → Forall (Forall clean) ls →
  zlength (foldl add_distinct arr (concat ls)) <= maxElements →
  collect_all maxElements ls arr = Some (foldl add_distinct arr (concat ls)).
Proof.
  revert arr. induction ls as [|l ls IH]; intros arr Harr Hls Hmax; [done|].
  apply Forall_cons in Hls as [Hl Hls]. cbn [collect_all concat] in *. rewrite foldl_app in Hmax.
  destruct (foldl_add_distinct arr l Harr) as (Hnd & _ & _).
  destruct (foldl_add_distinct (foldl add_distinct arr l) (concat ls) Hnd) as (_ & _ & [k Hk]).
  assert (Hfilter : filter (fun _ => True) l = l) by (clear; induction l as [|v l IH]; [done|]; rewrite filter_cons_True by done; by f_equal).
  rewrite (collect_elements_eq maxElements _ (fun _ => True)); [|done| |].
  - cbn [mbind option_bind]. rewrite Hfilter, foldl_app. by apply IH.
  - eapply Forall_impl; [exact Hl|]. done.
  - rewrite Hfilter. rewrite Hk, zlength_app in Hmax. pose proof (zlength_nonneg k). lia.
Qed.

(** The set functions, on the fields [l] of the first argument and [ls] of the others. *)
Definition set_result (fp : UserDefinedFunction) (l : list value) (ls : list (list value)) : list value :=
  match fp with
  | fp_IntersectionFunction => distinct (filter (fun v => Forall (fun l' => v ∈ l') ls) l)
  | fp_UnionFunction => distinct (concat (l :: ls))
  | fp_DifferenceFunction => distinct (filter (fun v => Forall (fun l' => v ∉ l') ls) l)
  | _ => []
  end.
Definition in_set (fp : UserDefinedFunction) (l : list value) (ls : list (list value)) (v : value) : Prop :=
  match fp with
  | fp_IntersectionFunction => v ∈ l ∧ ∀ l', l' ∈ ls → v ∈ l'
  | fp_UnionFunction => ∃ l', l' ∈ l :: ls ∧ v ∈ l'
  | fp_DifferenceFunction => v ∈ l ∧ ∀ l', l' ∈ ls → v ∉ l'
  | _ => False
  end.

Section set_functions.
Context {W : Type} (ev : Evaluator W) `{!EvaluatorLaws ev}.

Lemma segments_of_eq us ls (fr : EvalEnv W * UDFContext) : Forall2 is_segment us ls → segments_of us fr = Some (ls, fr).
Proof.
  intros H. unfold segments_of. assert (mapM values_of us = Some ls) as ->; [|done].
  apply mapM_Some. eapply Forall2_impl; [exact H|]. apply is_segment_values.
Qed.
Lemma return_elements_eq l (s : EvalEnv W) c : return_elements l (s, c) = Some (tt, (s, with_returnValue (fun _ => whole l) c)).
Proof. done. Qed.
Lemma whole_empty l : zlength l <= 0 → SetMultifieldErrorValue = whole l.
Proof. intros Hl. unfold zlength in Hl. destruct l; [done|simpl in Hl; lia]. Qed.

Lemma nth_multifields (s s' : EvalEnv W) es us ls f p rv :
  current_of s = Some (EFcall f es) → gives ev s es us s' → Forall2 is_segment us ls →
  p = 1 → ∃ p' l', nth_arguments ev (Z.to_nat (Z.of_nat (length es))) 1 MULTIFIELD_BIT (s, mkUDFContext f p es rv) =
    Some (Some us, (s', mkUDFContext f p' l' rv)).
Proof.
  intros Hc Hg Hls ->. rewrite Nat2Z.id.
  destruct (nth_arguments_eq ev s s' es us MULTIFIELD_BIT f [] 1 es rv Hg) as (us' & p' & l' & Hus & H).
  - clear -Hls. induction Hls as [|u l us ls (c & Hc & _) _ IH]; constructor; [by rewrite Hc|done].
  - done.
  - by exists [].
  - exists p', l'. replace us with us'; [exact H|].
    clear -Hus Hls. revert ls Hls. induction Hus as [|u' u us' us Hu _ IH]; intros ls Hls; [done|].
    apply Forall2_cons_inv_l in Hls as (l & ls' & Hl & Hls & ->). f_equal; [by eapply same_argument_segment|by eapply IH].
Qed.

Lemma minimum_bound (us : list UDFValue) n x : x <= n → (∀ u, u ∈ us → x <= uv_range u) →
  x <= foldl (fun n u => if uv_range u <? n then uv_range u else n) n us.
Proof.
  revert n. induction us as [|u us IH]; intros n Hn Hus; cbn [foldl]; [done|].
  apply IH; [|intros; apply Hus; set_solver]. destruct (uv_range u <? n); [apply Hus; set_solver|done].
Qed.
Lemma total_ranges us ls n : Forall2 is_segment us ls → foldl (fun n u => n + uv_range u) n us = n + zlength (concat ls).
Proof.
  intros H. revert n. induction H as [|u l us ls Hl _ IH]; intros n; cbn [foldl concat]; [unfold zlength; simpl; lia|].
  rewrite IH, zlength_app. rewrite (proj1 (is_segment_range _ _ Hl)). lia.
Qed.

(** The count of the arguments, then the arguments themselves. *)
Lemma evaluate_arguments {B} (s s' : EvalEnv W) es us ls f rv (k : Z → UDF W B) :
  current_of s = Some (EFcall f es) → gives ev s es us s' → Forall2 is_segment us ls →
  (numArgs ← UDFArgumentCount; k numArgs) (s, mkUDFContext f 1 es rv) = k (zlength us) (s, mkUDFContext f 1 es rv) ∧
  ∃ p l, nth_arguments ev (Z.to_nat (zlength us)) 1 MULTIFIELD_BIT (s, mkUDFContext f 1 es rv) =
    Some (Some us, (s', mkUDFContext f p l rv)).
Proof.
  intros Hc Hg Hls. assert (zlength us = Z.of_nat (length es)) as -> by (unfold zlength; by rewrite (gives_length _ _ _ _ _ Hg)).
  split.
  - unfold UDFArgumentCount. rewrite M_bind_assoc. by mrun (current_args_eq s f es (mkUDFContext f 1 es rv) Hc).
  - by eapply nth_multifields.
Qed.

Lemma zlength_cons {A} (x : A) l : zlength (x :: l) = 1 + zlength l.
Proof. unfold zlength. simpl. lia. Qed.
Lemma zlength_zero {A} (l : list A) : (zlength l =? 0) = true ↔ l = [].
Proof. rewrite Z.eqb_eq. unfold zlength. destruct l; simpl; split; (done || lia). Qed.
Lemma distinct_filter_length (P : value → Prop) `{!∀ v, Decision (P v)} l : zlength (distinct (filter P l)) <= zlength l.
Proof. apply distinct_length. intros v. rewrite list_elem_of_filter. tauto. Qed.

Context (s s' : EvalEnv W) (f : functionDefinition) (es : list expr).
Hypothesis Hc : current_of s = Some (EFcall f es).

Lemma IntersectionFunction_eq us u ls l rv : gives ev s es (u :: us) s' → Forall2 is_segment (u :: us) (l :: ls) → Forall clean l →
  ∃ p r, IntersectionFunction ev (s, mkUDFContext f 1 es rv) =
    Some (tt, (s', mkUDFContext f p r (whole (distinct (filter (fun v => Forall (fun l' => v ∈ l') ls) l))))).
Proof.
  intros Hg Hls Hcl. unfold IntersectionFunction.
  match goal with |- context [UDFArgumentCount ≫= ?k] =>
    destruct (evaluate_arguments s s' es (u :: us) (l :: ls) f rv k Hc Hg Hls) as [-> (p & r & Hnth)] end.
  exists p, r. pose proof (zlength_nonneg us).
  rewrite (proj2 (Z.eqb_neq _ 0)) by (rewrite zlength_cons; lia). mrun Hnth.
  apply Forall2_cons in Hls as [Hl Hls]. set (P v := Forall (fun l' => v ∈ l') ls). fold P.
  set (max := foldl _ _ _). assert (Hmax : zlength (distinct (filter P l)) <= max).
  { apply minimum_bound; [rewrite (proj1 (is_segment_range _ _ Hl)); apply distinct_filter_length; apply _|].
    intros u' [i Hi]%list_elem_of_lookup_1. destruct (Forall2_lookup_l _ _ _ _ _ Hls Hi) as (l' & Hl' & Hseg).
    rewrite (proj1 (is_segment_range _ _ Hseg)). apply distinct_length. intros v [HP _]%list_elem_of_filter.
    unfold P in HP. rewrite Forall_forall in HP. apply HP. by eapply list_elem_of_lookup_2. }
  destruct (Z.eqb_spec max 0) as [E|E]; [rewrite E in Hmax; by rewrite (whole_empty _ Hmax)|].
  rewrite (is_segment_values _ _ Hl), M_fromOption_Some, (M_bind_Some _ _ _ _ _ (segments_of_eq us ls _ Hls)).
  rewrite (collect_elements_eq _ _ P); [done|constructor| |done].
  eapply Forall_impl; [exact Hcl|]. intros v Hv. split; [done|]. by rewrite found_in_all_eq.
Qed.

Lemma UnionFunction_eq us ls rv : us ≠ [] → gives ev s es us s' → Forall2 is_segment us ls → Forall (Forall clean) ls →
  ∃ p r, UnionFunction ev (s, mkUDFContext f 1 es rv) = Some (tt, (s', mkUDFContext f p r (whole (distinct (concat ls))))).
Proof.
  intros Hne Hg Hls Hcl. unfold UnionFunction.
  match goal with |- context [UDFArgumentCount ≫= ?k] =>
    destruct (evaluate_arguments s s' es us ls f rv k Hc Hg Hls) as [-> (p & r & Hnth)] end.
  exists p, r. rewrite (proj2 (Z.eqb_neq _ 0)) by (unfold zlength; destruct us; [done|simpl; lia]). mrun Hnth.
  rewrite (total_ranges _ _ _ Hls), Z.add_0_l.
  pose proof (distinct_length (concat ls) (concat ls) ltac:(done)) as Hmax.
  destruct (Z.eqb_spec (zlength (concat ls)) 0) as [E|E]; [rewrite E in Hmax; by rewrite (whole_empty _ Hmax)|].
  rewrite (M_bind_Some _ _ _ _ _ (segments_of_eq us ls _ Hls)).
  rewrite collect_all_eq; [done|constructor|done|done].
Qed.

Lemma DifferenceFunction_eq us u ls l rv : gives ev s es (u :: us) s' → Forall2 is_segment (u :: us) (l :: ls) → Forall clean l →
  ∃ p r, DifferenceFunction ev (s, mkUDFContext f 1 es rv) =
    Some (tt, (s', mkUDFContext f p r (whole (distinct (filter (fun v => Forall (fun l' => v ∉ l') ls) l))))).
Proof.
  intros Hg Hls Hcl. unfold DifferenceFunction.
  match goal with |- context [UDFArgumentCount ≫= ?k] =>
    destruct (evaluate_arguments s s' es (u :: us) (l :: ls) f rv k Hc Hg Hls) as [-> (p & r & Hnth)] end.
  exists p, r. mrun Hnth. apply Forall2_cons in Hls as [Hl Hls]. rewrite (proj1 (is_segment_range _ _ Hl)).
  set (P v := Forall (fun l' => v ∉ l') ls). fold P.
  pose proof (distinct_filter_length P l) as Hmax.
  destruct (Z.eqb_spec (zlength l) 0) as [E|E]; [rewrite E in Hmax; by rewrite (whole_empty _ Hmax)|].
  rewrite (is_segment_values _ _ Hl), M_fromOption_Some, (M_bind_Some _ _ _ _ _ (segments_of_eq us ls _ Hls)).
  rewrite (collect_elements_eq _ _ P); [done|constructor| |done].
  eapply Forall_impl; [exact Hcl|]. intros v Hv. split; [done|]. by apply found_in_some_eq.
Qed.
End set_functions.

(** ** [subseq$] *)

(** The fields [a..b] of a segment, cut to its ends. *)
Definition cut (l : list value) (a b : Z) : list value :=
  let first := Z.max a 1 in
  let last := Z.min b (zlength l) in
  take (Z.to_nat (last - first + 1)) (drop (Z.to_nat (first - 1)) l).
Lemma cut_empty l a b : Z.min b (zlength l) < Z.max a 1 → cut l a b = [].
Proof. intros. unfold cut. by replace (Z.to_nat _) with 0%nat by lia. Qed.

Lemma SubseqFunction_eq {W} (ev : Evaluator W) `{!EvaluatorLaws ev} (s s' : EvalEnv W) em ea eb u ua ub l a b f p l0 rv :
  current_of s = Some (EFcall f [em; ea; eb]) →
  gives ev s [em; ea; eb] [u; ua; ub] s' → is_segment u l → uv_value ua = VInteger a → uv_value ub = VInteger b →
  is_long_long a → is_long_long b →
  ∃ u', SubseqFunction ev (s, mkUDFContext f p l0 rv) = Some (tt, (s', mkUDFContext f 4 [] u')) ∧
    is_segment u' (cut l a b) ∧ (cut l a b ≠ [] → uv_value u' = uv_value u).
Proof.
  intros Hc (?&?&s1&[= <- <-]&H1&E1&(?&?&s2&[= <- <-]&H2&E2&(?&?&s3&[= <- <-]&H3&E3&[_ <-]%gives_nil_inv)%gives_cons_inv)%gives_cons_inv)%gives_cons_inv Hl Ha Hb Hla Hlb.
  unfold is_long_long in *. pose proof (is_segment_range _ _ Hl) as (Hr & Hb0 & Hmem).
  destruct (next_integer_ok ev s1 ea ua a s2 f 2 [eb] rv H2 E2 Ha) as (ua' & Hua & Hn2).
  destruct (next_integer_ok ev s2 eb ub b s' f 3 [] rv H3 E3 Hb) as (ub' & Hub & Hn3).
  unfold SubseqFunction.
  rewrite (arg_or_return_ok _ _ _ _ _ (first_multifield_ok ev s em [ea; eb] u l s1 f p l0 rv f Hc H1 E1 Hl)). cbv zeta.
  rewrite (arg_or_return_ok _ _ _ _ _ Hn2). mrun (integer_contents_eq _ _ (s2, mkUDFContext f 3 [eb] rv) Hua).
  rewrite (arg_or_return_ok _ _ _ _ _ Hn3). mrun (integer_contents_eq _ _ (s', mkUDFContext f 4 [] rv) Hub).
  assert (Hempty : Z.min b (zlength l) < Z.max a 1 → ∃ u',
    put_returnValue SetMultifieldErrorValue (s', mkUDFContext f 4 [] rv) = Some (tt, (s', mkUDFContext f 4 [] u')) ∧
    is_segment u' (cut l a b) ∧ (cut l a b ≠ [] → uv_value u' = uv_value u)).
  { intros H. exists (whole []). rewrite cut_empty by done. split; [done|]. split; [by apply whole_segment|done]. }
  destruct (Z.ltb_spec b 1); [apply Hempty; lia|]. destruct (Z.ltb_spec b a); [apply Hempty; lia|]. cbn [orb].
  replace (if a <? 1 then 1 else a) with (Z.max a 1) by (destruct (Z.ltb_spec a 1); lia).
  rewrite !fits_size_t_true, !size_t_of_nonneg by (unfold LLONG_MIN, LLONG_MAX in *; lia).
  rewrite Hr. destruct (Z.ltb_spec (zlength l) (Z.max a 1)); [apply Hempty; lia|].
  replace (if zlength l <? b then zlength l else b) with (Z.min b (zlength l)) by (destruct (Z.ltb_spec (zlength l) b); lia).
  exists (mkUDFValue (uv_value u) (uv_begin u + Z.max a 1 - 1) (Z.min b (zlength l) - Z.max a 1 + 1)).
  split; [done|]. split; [|done]. destruct Hl as (c & Hc' & Hs & Hcm). exists c. split; [done|]. split; [|done]. simpl.
  replace (uv_begin u + Z.max a 1 - 1) with (uv_begin u + (Z.max a 1 - 1)) by lia.
  rewrite (segment_part _ _ _ _ _ _ Hs) by lia. done.
Qed.
