(* ===== verification/MultifieldTheorems.v ===== *)
(** * Theorems on the multifield functions

    The properties of [multifun.c] as the evaluator calls it, each with a run in
    the environment of [EvalTheorems]. *)
From S2P Require Import Prelude Values Router Keeps Expr Functions Args Multifield Math MultifieldFunctions.
From S2P Require Import Evaluate EvalLaws EvalLemmas EvalTheorems MultifieldProofs.
#[local] Open Scope Z_scope.

(** C27: [replace$] with indices inside its segment returns a new multifield in
    which the fields [a..b] are replaced by those of the remaining arguments, of
    any number; with other indices it reports an error, sets both flags and
    returns an empty multifield. *)
Theorem ReplaceFunction_correct {W} `{!EvalHost W} n f em es ee rest (s s1 s' : EvalEnv W) u us ue ufs l a b new :
  functionPointer f = fp_ReplaceFunction →
  let e := Some (EFcall f (em :: es :: ee :: rest)) in
  gives (EvaluateExpression (S n)) (enter e s) [em; es; ee] [u; us; ue] s1 →
  gives (EvaluateExpression (S n)) s1 rest ufs s' → rest ≠ [] → argument_fields ufs = Some new →
  is_segment u l → uv_value us = VInteger a → uv_value ue = VInteger b → is_long_long a → is_long_long b →
  (1 <= a <= b ∧ b <= zlength l →
   EvaluateExpression (S (S n)) e s =
     Some (whole (take (Z.to_nat (a - 1)) l ++ new ++ drop (Z.to_nat b) l), enter (current_of s) s')) ∧
  (¬ (1 <= a <= b ∧ b <= zlength l) →
   ∃ msg, EvaluateExpression (S (S n)) e s =
     Some (mkUDFValue (VMultifield []) 0 0, enter (current_of s) (failed msg s'))).
Proof.
  intros Hfp e Hg Hgr Hrest Hnew Hl Ha Hb Hla Hlb. subst e. split.
  - intros (Hab & Hbl). destruct (split_range l a b) as (pre & mid & post & -> & Hp & Hm & Hne); [lia..|].
    replace (Z.to_nat (a - 1)) with (length pre) by (unfold zlength in Hp; lia).
    replace (Z.to_nat b) with (length (pre ++ mid)) by (rewrite length_app; unfold zlength in *; lia).
    rewrite take_app_length, (app_assoc pre mid post), drop_app_length, <- returned_whole.
    eapply eval_udf. rewrite Hfp. unfold call_functionPointer.
    eapply (ReplaceFunction_in_range (EvaluateExpression (S n))); [reflexivity|exact Hg|exact Hgr|exact Hrest|exact Hnew|exact Hl|exact Hne| |].
    + rewrite Ha. f_equal. lia.
    + rewrite Hb. f_equal. lia.
  - intros Hno. edestruct (ReplaceFunction_out_of_range (EvaluateExpression (S n)) (enter (Some (EFcall f (em :: es :: ee :: rest))) s))
      as [msg H]; [reflexivity|exact Hg|exact Hgr|exact Hrest|exact Hnew|exact Hl|exact Ha|exact Hb|exact Hla|exact Hlb|exact Hno|].
    exists msg. erewrite eval_udf; [|rewrite Hfp; apply H]. done.
Qed.
Definition w_multifield (l : list value) (b r : Z) : expr := EMultifield (mkUDFValue (VMultifield l) b r).
Definition w_abcd : list value := VSymbol <$> ["a"; "b"; "c"; "d"].
Lemma ReplaceFunction_correct_witness :
  let call := w_call "replace$" [w_multifield w_abcd 1 3; w_int 2; w_int 3; w_sym "x"; w_multifield w_abcd 0 2] in
  EvaluateExpression 2 (Some call) w_eval = Some (whole (VSymbol <$> ["b"; "x"; "a"; "b"]), w_eval).
Proof.
  intros call. eapply eq_trans.
  - eapply (proj1 (ReplaceFunction_correct 0 (w_fn "replace$") (w_multifield w_abcd 1 3) (w_int 2) (w_int 3)
      [w_sym "x"; w_multifield w_abcd 0 2] w_eval (enter (Some call) w_eval) (enter (Some call) w_eval)
      _ _ _ _ (VSymbol <$> ["b"; "c"; "d"]) 2 3 (VSymbol <$> ["x"; "a"; "b"])
      eq_refl ltac:(repeat econstructor) ltac:(repeat econstructor) ltac:(done) ltac:(vm_compute; reflexivity)
      ltac:(eexists; split_and!; [reflexivity|vm_compute; reflexivity|vm_compute; discriminate]) ltac:(done) ltac:(done)
      ltac:(vm_compute; split; discriminate) ltac:(vm_compute; split; discriminate))).
    vm_compute. split_and!; discriminate.
  - vm_compute. reflexivity.
Defined.

(** C28: [delete$] undoes [insert$]: evaluating [(delete$ (insert$ m i fields...) a b)],
    where [a..b] are the places the fields have got, returns the fields of [m],
    whatever segment [m] is; an index beyond the end inserts at the end. *)
Theorem insert_delete_roundtrip {W} `{!EvalHost W} n fi fd em ei rest (s s1 s2 : EvalEnv W) u ui ufs pre post new i :
  functionPointer fi = fp_InsertFunction → functionPointer fd = fp_DeleteFunction →
  let insert := EFcall fi (em :: ei :: rest) in
  let e := EFcall fd [insert; EConst (VInteger (zlength pre + 1)); EConst (VInteger (zlength pre + zlength new))] in
  gives (EvaluateExpression (S n)) (enter (Some insert) (enter (Some e) s)) [em; ei] [u; ui] s1 →
  gives (EvaluateExpression (S n)) s1 rest ufs s2 → rest ≠ [] → argument_fields ufs = Some new → new ≠ [] →
  is_segment u (pre ++ post) → uv_value ui = VInteger i → is_long_long i →
  i = zlength pre + 1 ∨ post = [] ∧ zlength pre < i →
  zlength (pre ++ new ++ post) <= LLONG_MAX →
  EvaluateExpression (S (S (S n))) (Some e) s = Some (whole (pre ++ post), enter (current_of s) s2).
Proof.
  intros Hfi Hfd insert e Hg Hgr Hrest Hnew Hne Hl Hi Hll Hpos Hmem. subst insert e.
  set (insert := EFcall fi _). set (e := EFcall fd _).
  assert (Hins : EvaluateExpression (S (S n)) (Some insert) (enter (Some e) s) =
    Some (whole (pre ++ new ++ post), enter (Some e) s2)).
  { rewrite <- returned_whole. eapply eval_udf. rewrite Hfi. unfold call_functionPointer.
    eapply (InsertFunction_eq (EvaluateExpression (S n)));
      [reflexivity|exact Hg|exact Hgr|exact Hrest|exact Hnew|exact Hl|exact Hi|exact Hll|exact Hpos]. }
  assert (Herr : error_of (enter (Some e) s2) = false) by (exact (gives_error _ _ _ _ _ Hgr Hrest)).
  rewrite <- (returned_whole (pre ++ post)).
  change (enter (current_of s) s2) with (enter (current_of s) (enter (Some e) s2)).
  eapply eval_udf. rewrite Hfd. unfold call_functionPointer.
  eapply (DeleteFunction_in_range (EvaluateExpression (S (S n))) _ _ _ _ _ (whole (pre ++ new ++ post))
    (set_uv_value (VInteger (zlength pre + 1)) initial_returnValue)
    (set_uv_value (VInteger (zlength pre + zlength new)) initial_returnValue)).
  - reflexivity.
  - econstructor; [exact Hins|exact Herr|]. do 2 (econstructor; [reflexivity|exact Herr|]). constructor.
  - by apply whole_segment.
  - done.
  - done.
  - done.
Qed.
Definition w_insert : expr := w_call "insert$" [w_multifield w_abcd 1 2; w_int 2; w_sym "x"; w_multifield w_abcd 0 2].
Lemma insert_delete_roundtrip_witness :
  EvaluateExpression 3 (Some (w_call "delete$" [w_insert; w_int 2; w_int 4])) w_eval =
    Some (whole (VSymbol <$> ["b"; "c"]), w_eval).
Proof.
  pose proof (insert_delete_roundtrip 0 (w_fn "insert$") (w_fn "delete$") (w_multifield w_abcd 1 2) (w_int 2)
    [w_sym "x"; w_multifield w_abcd 0 2] w_eval (enter (Some w_insert) w_eval) (enter (Some w_insert) w_eval)
    (mkUDFValue (VMultifield w_abcd) 1 2) (set_uv_value (VInteger 2) initial_returnValue)
    [set_uv_value (VSymbol "x") initial_returnValue; mkUDFValue (VMultifield w_abcd) 0 2]
    [VSymbol "b"] [VSymbol "c"] (VSymbol <$> ["x"; "a"; "b"]) 2 eq_refl eq_refl
    ltac:(repeat econstructor) ltac:(repeat econstructor) ltac:(discriminate) eq_refl ltac:(discriminate)) as H.
  specialize (H ltac:(eexists; split; [reflexivity|]; split; [vm_compute; reflexivity|vm_compute; discriminate]) eq_refl
    ltac:(vm_compute; split; discriminate) ltac:(left; reflexivity) ltac:(vm_compute; discriminate)).
  exact H.
Defined.

(** C29: [member$] finds the first occurrence: with the fields [sought] of the
    first argument (itself, when it is no multifield) occurring in the second
    after [pre], and not earlier, it returns the place of the first field, or for
    a multifield of another size than one the places of the first and the last
    field; when they do not occur it returns [FALSE]. *)
Theorem MemberFunction_correct {W} `{!EvalHost W} n f e1 e2 (s s' : EvalEnv W) u1 u2 sought l :
  functionPointer f = fp_MemberFunction →
  let e := Some (EFcall f [e1; e2]) in
  gives (EvaluateExpression (S n)) (enter e s) [e1; e2] [u1; u2] s' →
  is_segment u2 l → values_of u1 = Some sought → Forall clean sought →
  ((∀ pre post, l ≠ pre ++ sought ++ post) →
   EvaluateExpression (S (S n)) e s = Some (mkUDFValue FalseSymbol 0 SIZE_MAX, enter (current_of s) s')) ∧
  ∀ pre post, l = pre ++ sought ++ post →
   (∀ pre' post', l = pre' ++ sought ++ post' → zlength pre <= zlength pre') →
   EvaluateExpression (S (S n)) e s =
     Some (if is_multifield u1 && negb (zlength sought =? 1)
           then whole [VInteger (zlength pre + 1); VInteger (zlength pre + zlength sought)]
           else mkUDFValue (VInteger (zlength pre + 1)) 0 SIZE_MAX,
           enter (current_of s) s').
Proof.
  intros Hfp e Hg Hl Hs Hcl. subst e.
  assert (Heq : EvaluateExpression (S (S n)) (Some (EFcall f [e1; e2])) s =
    Some (returned (member_result u1 sought (first_occurrence sought l)), enter (current_of s) s')).
  { eapply eval_udf. rewrite Hfp. unfold call_functionPointer.
    eapply (MemberFunction_eq (EvaluateExpression (S n)));
      [reflexivity|exact Hg|exact Hl|exact Hs|exact Hcl]. }
  rewrite Heq. clear Heq. split.
  - intros Hno. destruct (first_occurrence sought l) as [k|] eqn:Ek; [|done].
    apply first_occurrence_split in Ek as (pre & post & E & _). by destruct (Hno pre post).
  - intros pre post -> Hleast. destruct (first_occurrence_least sought pre post) as (k & Hk & Hle). rewrite Hk.
    assert (k = length pre) as ->.
    { apply first_occurrence_split in Hk as (pre' & post' & E & <-). apply Hleast in E. unfold zlength in E. lia. }
    unfold member_result. fold (zlength pre). by destruct (_ && _).
Qed.
Lemma MemberFunction_correct_witness :
  EvaluateExpression 2 (Some (w_call "member$" [w_multifield w_abcd 1 2; w_multifield (w_abcd ++ w_abcd) 2 6])) w_eval =
    Some (whole [VInteger 4; VInteger 5], w_eval).
Proof.
  set (call := w_call "member$" _).
  exact (proj2 (MemberFunction_correct 0 (w_fn "member$") (w_multifield w_abcd 1 2) (w_multifield (w_abcd ++ w_abcd) 2 6)
    w_eval (enter (Some call) w_eval) (mkUDFValue (VMultifield w_abcd) 1 2) (mkUDFValue (VMultifield (w_abcd ++ w_abcd)) 2 6)
    (VSymbol <$> ["b"; "c"]) (VSymbol <$> ["c"; "d"; "a"; "b"; "c"; "d"]) eq_refl
    ltac:(repeat econstructor)
    ltac:(eexists; split; [reflexivity|]; split; [vm_compute; reflexivity|vm_compute; discriminate])
    eq_refl ltac:(repeat constructor)) (VSymbol <$> ["c"; "d"; "a"]) [VSymbol "d"] eq_refl
    ltac:(intros [|x [|y [|z pre']]] post' E; [discriminate E|discriminate E|discriminate E|unfold zlength; simpl; lia])).
Defined.

(** [delete-member$] of values that are no multifields returns the fields of
    its first argument that are none of them, in their order. *)
Theorem DeleteMemberFunction_correct {W} `{!EvalHost W} n f em es (s s' : EvalEnv W) u us vs l :
  functionPointer f = fp_DeleteMemberFunction →
  let e := Some (EFcall f (em :: es)) in
  gives (EvaluateExpression (S n)) (enter e s) (em :: es) (u :: us) s' →
  is_segment u l → Forall2 single us vs →
  ∃ u', EvaluateExpression (S (S n)) e s = Some (u', enter (current_of s) s') ∧
    is_segment u' (filter (fun w => w ∉ vs) l).
Proof.
  intros Hfp e Hg Hl Hus. subst e. set (c := EFcall f (em :: es)) in *.
  apply gives_cons_inv in Hg as (?&?&s1&[= <- <-]&H1&E1&Hg).
  destruct (delete_members_single (EvaluateExpression (S n)) s1 s' es us vs u l f 2 initial_returnValue Hg Hus Hl)
    as (u' & Hu' & Hl').
  exists u'. split; [|done]. rewrite <- (returned_segment _ _ Hl') at 1.
  - eapply eval_udf. rewrite Hfp. unfold call_functionPointer, DeleteMemberFunction, UDFArgumentCount.
    rewrite M_bind_assoc. mrun (current_args_eq (enter (Some c) s) f (em :: es) (mkUDFContext f 1 (em :: es) initial_returnValue) eq_refl).
    rewrite M_bind_ret.
    erewrite arg_or_return_ok by (apply (first_multifield_ok (EvaluateExpression (S n)) (enter (Some c) s) em es u l s1 f 1 _ _ f eq_refl H1 E1 Hl)).
    replace (Z.to_nat (Z.of_nat (length (em :: es)) - 1)) with (length es) by (simpl; lia). exact Hu'.
Qed.
Lemma DeleteMemberFunction_correct_witness :
  ∃ u', EvaluateExpression 2 (Some (w_call "delete-member$" [w_multifield (w_abcd ++ w_abcd) 2 5; w_sym "c"; w_int 7; w_sym "a"])) w_eval =
    Some (u', w_eval) ∧ is_segment u' (VSymbol <$> ["d"; "b"]).
Proof.
  set (call := w_call "delete-member$" _).
  exact (DeleteMemberFunction_correct 0 (w_fn "delete-member$") (w_multifield (w_abcd ++ w_abcd) 2 5)
    [w_sym "c"; w_int 7; w_sym "a"] w_eval (enter (Some call) w_eval) (mkUDFValue (VMultifield (w_abcd ++ w_abcd)) 2 5)
    ((fun v => set_uv_value v initial_returnValue) <$> [VSymbol "c"; VInteger 7; VSymbol "a"])
    [VSymbol "c"; VInteger 7; VSymbol "a"] (VSymbol <$> ["c"; "d"; "a"; "b"; "c"]) eq_refl
    ltac:(repeat econstructor)
    ltac:(eexists; split; [reflexivity|]; split; [vm_compute; reflexivity|vm_compute; discriminate])
    ltac:(repeat constructor)).
Defined.

(** C31: [delete-member$] of a multifield from a segment of a longer multifield,
    as [rest$] and [subseq$] make them, has undefined behaviour when the fields
    first occur fewer places from the start of the segment than the segment
    starts from the start of its multifield: the copy runs past its allocation. *)
Theorem DeleteMemberFunction_overruns {W} `{!EvalHost W} n f em e (s s' : EvalEnv W) u us sought pre post :
  functionPointer f = fp_DeleteMemberFunction →
  let c := Some (EFcall f [em; e]) in
  gives (EvaluateExpression (S n)) (enter c s) [em; e] [u; us] s' →
  is_segment u (pre ++ sought ++ post) → is_segment us sought → Forall clean sought → sought ≠ [] →
  zlength pre < uv_begin u →
  ∀ m, EvaluateExpression m c s = None.
Proof.
  intros Hfp c Hg Hl Hls Hc Hne Hlt m. subst c. set (c := EFcall f [em; e]) in *.
  destruct (EvaluateExpression m (Some c) s) as [r|] eqn:Hm; [|done]. exfalso.
  apply (below_EvaluateExpression m (S (max m (S n)))) in Hm; [|lia].
  assert (Hle : (S n <= max m (S n))%nat) by lia.
  destruct (max m (S n)) as [|k] eqn:Emax; [lia|]. revert Hm.
  apply gives_cons_inv in Hg as (?&?&s1&[= <- <-]&H1&E1&(?&?&s2&[= <- <-]&H2&E2&[_ <-]%gives_nil_inv)%gives_cons_inv).
  apply (below_EvaluateExpression _ (S k)) in H1; [|lia]. apply (below_EvaluateExpression _ (S k)) in H2; [|lia].
  unfold c at 1. rewrite eval_call, Hfp. unfold call_functionPointer, DeleteMemberFunction, UDFArgumentCount.
  rewrite M_bind_assoc.
  mrun (current_args_eq (enter (Some c) s) f [em; e] (mkUDFContext f 1 [em; e] initial_returnValue) eq_refl).
  rewrite M_bind_ret.
  erewrite arg_or_return_ok by (apply (first_multifield_ok (EvaluateExpression (S k)) (enter (Some c) s) em [e] u _ s1 f 1 _ _ f eq_refl H1 E1 Hl)).
  change (Z.to_nat (Z.of_nat (length [em; e]) - 1)) with 1%nat. cbn [delete_members].
  destruct (next_argument_gives (EvaluateExpression (S k)) s1 e us s' f 2 [] initial_returnValue None ANY_TYPE_BITS H2 E2
    (type_expected_any _)) as (us' & Hus & Hn).
  rewrite (same_argument_segment _ _ _ Hus Hls) in Hn. mrun Hn. cbn [negb]. rewrite M_fromOption_Some.
  rewrite (is_segment_multifield _ _ Hls). pose proof (is_segment_range _ _ Hls) as (-> & _ & _).
  rewrite (proj2 (Z.eqb_neq (zlength sought) 0)) by (unfold zlength; destruct sought; [done|simpl; lia]). cbn [andb].
  destruct (first_occurrence_least sought pre post) as (k' & Hk' & Hle').
  rewrite (delete_occurrences_overruns _ us sought u _ k' Hl (is_segment_values _ _ Hls) (is_segment_multifield _ _ Hls) Hc Hk' Hne); [done|].
  unfold zlength in Hlt. lia.
Qed.
Lemma DeleteMemberFunction_overruns_witness :
  EvaluateExpression 9 (Some (w_call "delete-member$" [w_multifield w_abcd 1 3; w_multifield w_abcd 1 2])) w_eval = None.
Proof.
  set (call := w_call "delete-member$" _).
  exact (DeleteMemberFunction_overruns 0 (w_fn "delete-member$") (w_multifield w_abcd 1 3) (w_multifield w_abcd 1 2)
    w_eval (enter (Some call) w_eval) (mkUDFValue (VMultifield w_abcd) 1 3) (mkUDFValue (VMultifield w_abcd) 1 2)
    (VSymbol <$> ["b"; "c"]) [] [VSymbol "d"] eq_refl ltac:(repeat econstructor)
    ltac:(eexists; split; [reflexivity|]; split; [vm_compute; reflexivity|vm_compute; discriminate])
    ltac:(eexists; split; [reflexivity|]; split; [vm_compute; reflexivity|vm_compute; discriminate])
    ltac:(repeat constructor) ltac:(discriminate) ltac:(vm_compute; reflexivity) 9%nat).
Defined.

(** Further into the segment, other fields are deleted: [c] and [d] here. *)
Example delete_member_deletes_others :
  fst <$> EvaluateExpression 3 (Some (w_call "delete-member$"
    [w_call "rest$" [w_multifield (w_abcd ++ [VSymbol "e"]) 0 5]; w_multifield w_abcd 2 2])) w_eval =
  Some (whole (VSymbol <$> ["d"; "e"])).
Proof. vm_compute. reflexivity. Qed.

(** C30: [replace-member$] of values that are no multifields returns, whatever the
    replacement is (it may hold the values itself, or nothing): each field that
    is one of the values is replaced once, the others keep their order. *)
Theorem ReplaceMemberFunction_correct {W} `{!EvalHost W} n f em er es (s s' : EvalEnv W) u r us vs l new :
  functionPointer f = fp_ReplaceMemberFunction →
  let e := Some (EFcall f (em :: er :: es)) in
  gives (EvaluateExpression (S n)) (enter e s) (em :: er :: es) (u :: r :: us) s' →
  is_segment u l → values_of r = Some new → Forall2 single us vs → zlength (replace_fields vs new l) <= LLONG_MAX →
  ∃ u', EvaluateExpression (S (S n)) e s = Some (u', enter (current_of s) s') ∧
    is_multifield u' = true ∧ values_of u' = Some (replace_fields vs new l).
Proof.
  intros Hfp e Hg Hl Hr Hus Hmem. subst e. set (c := EFcall f (em :: er :: es)) in *.
  apply gives_cons_inv in Hg as (?&?&s1&[= <- <-]&H1&E1&(?&?&s2&[= <- <-]&H2&E2&Hg)%gives_cons_inv).
  destruct (next_argument_gives (EvaluateExpression (S n)) s1 er r s2 f 2 es initial_returnValue None ANY_TYPE_BITS H2 E2
    (type_expected_any _)) as (r' & Hr' & Hn).
  pose proof (same_argument_values _ _ Hr') as Hv. rewrite Hr in Hv.
  assert (Hc2 : current_of s2 = Some (EFcall f ([em; er] ++ es))).
  { rewrite (ev_current (Some er) _ _ _ H2), (ev_current (Some em) _ _ _ H1). done. }
  destruct (nth_arguments_eq (EvaluateExpression (S n)) s2 s' es us ANY_TYPE_BITS f [em; er] 3 es initial_returnValue Hg)
    as (us' & p' & l' & Hus' & Hnth); [apply Forall_forall; intros; apply type_expected_any|done|by exists [em; er]|].
  assert (Hsingles : Forall2 single us' vs).
  { clear -Hus Hus'. revert vs Hus. induction Hus' as [|u' u us' us Hu Hus' IH]; intros vs Hus.
    - by apply Forall2_nil_inv_l in Hus as ->.
    - apply Forall2_cons_inv_l in Hus as (v & vs' & Hv & Hus & ->). constructor; [by eapply single_same|auto]. }
  assert (Hsize : if is_multifield r' then uv_range r' = zlength new else zlength new = 1).
  { unfold values_of, is_multifield in *. destruct (uv_value r'); try (by injection Hv as <-).
    by apply segment_Some in Hv as (_&_&_&->&_). }
  pose proof (is_segment_range _ _ Hl) as (Hru & _ & _).
  destruct (replace_occurrences_single (S (Z.to_nat (uv_range u))) us' vs r' new u [] l []
    (s', mkUDFContext f p' l' initial_returnValue) Hsingles Hv Hsize (is_segment_multifield _ _ Hl) (is_segment_values _ _ Hl))
    as (u' & Hu' & Hm' & Hv').
  { intros i. change (zlength []) with 0. destruct (Z.leb_spec 1 i), (Z.leb_spec i 0); try reflexivity. lia. }
  { rewrite Hru. unfold zlength. lia. }
  exists (returned u'). split.
  - eapply eval_udf. rewrite Hfp. unfold call_functionPointer, ReplaceMemberFunction, UDFArgumentCount.
    rewrite M_bind_assoc.
    mrun (current_args_eq (enter (Some c) s) f (em :: er :: es) (mkUDFContext f 1 (em :: er :: es) initial_returnValue) eq_refl).
    rewrite M_bind_ret.
    erewrite arg_or_return_ok by (apply (first_multifield_ok (EvaluateExpression (S n)) (enter (Some c) s) em (er :: es) u l s1 f 1 _ _ f eq_refl H1 E1 Hl)).
    rewrite (arg_or_return_ok _ _ _ _ _ Hn). cbv zeta. rewrite (proj2 (Z.ltb_ge _ 2)) by (cbn [length]; lia).
    replace (Z.to_nat (Z.of_nat (length (em :: er :: es)) - 2)) with (length es) by (cbn [length]; lia).
    mrun Hnth. replace (if is_multifield r' then uv_range r' else 1) with (zlength new) by (by destruct (is_multifield r')).
    rewrite Hu'. done.
  - destruct (values_of_multifield _ _ Hm' Hv') as (c' & Hc' & Hs'). unfold returned. rewrite Hc'.
    apply segment_Some in Hs' as (_ & _ & _ & Hlen & _).
    rewrite (proj2 (Z.eqb_neq _ _)); [done|]. unfold SIZE_MAX, LLONG_MAX in *. cbn [app] in Hlen. lia.
Qed.
Lemma ReplaceMemberFunction_correct_witness :
  ∃ u', EvaluateExpression 2 (Some (w_call "replace-member$" [w_multifield w_abcd 0 4; w_multifield w_abcd 1 3; w_sym "b"; w_sym "d"])) w_eval =
    Some (u', w_eval) ∧ is_multifield u' = true ∧ values_of u' = Some (VSymbol <$> ["a"; "b"; "c"; "d"; "c"; "b"; "c"; "d"]).
Proof.
  set (call := w_call "replace-member$" _).
  exact (ReplaceMemberFunction_correct 0 (w_fn "replace-member$") (w_multifield w_abcd 0 4) (w_multifield w_abcd 1 3)
    [w_sym "b"; w_sym "d"] w_eval (enter (Some call) w_eval) (mkUDFValue (VMultifield w_abcd) 0 4) (mkUDFValue (VMultifield w_abcd) 1 3)
    ((fun v => set_uv_value v initial_returnValue) <$> [VSymbol "b"; VSymbol "d"])
    [VSymbol "b"; VSymbol "d"] w_abcd (VSymbol <$> ["b"; "c"; "d"]) eq_refl
    ltac:(repeat econstructor)
    ltac:(eexists; split; [reflexivity|]; split; [vm_compute; reflexivity|vm_compute; discriminate])
    eq_refl ltac:(repeat constructor) ltac:(vm_compute; discriminate)).
Defined.

(** C32: [intersection$], [union$] and [difference$] never write outside their
    temporary array, whose size is the smallest argument, the sum of the
    arguments, the first argument; the result has the fields of the intersection,
    union and difference, each once and in the order of first occurrences. *)
Theorem set_functions_correct {W} `{!EvalHost W} n f es (s s' : EvalEnv W) u us l ls :
  functionPointer f ∈ [fp_IntersectionFunction; fp_UnionFunction; fp_DifferenceFunction] →
  let e := Some (EFcall f es) in
  gives (EvaluateExpression (S n)) (enter e s) es (u :: us) s' →
  Forall2 is_segment (u :: us) (l :: ls) → Forall (Forall clean) (l :: ls) →
  let result := set_result (functionPointer f) l ls in
  EvaluateExpression (S (S n)) e s = Some (whole result, enter (current_of s) s') ∧
  NoDup result ∧ ∀ v, v ∈ result ↔ in_set (functionPointer f) l ls v.
Proof.
  intros Hfp e Hg Hls Hcl result. pose proof (proj1 (proj1 (Forall_cons _ _ _) Hcl)) as Hcl1.
  assert (Hcall : ∃ p r, call_functionPointer (EvaluateExpression (S n)) (S n) (functionPointer f)
    (enter e s, mkUDFContext f 1 es initial_returnValue) = Some (tt, (s', mkUDFContext f p r (whole result)))).
  { subst result. repeat (apply elem_of_cons in Hfp as [->|Hfp]); [| | |by apply elem_of_nil in Hfp].
    - exact (IntersectionFunction_eq (EvaluateExpression (S n)) (enter e s) s' f es eq_refl us u ls l _ Hg Hls Hcl1).
    - exact (UnionFunction_eq (EvaluateExpression (S n)) (enter e s) s' f es eq_refl (u :: us) (l :: ls) _ ltac:(done) Hg Hls Hcl).
    - exact (DifferenceFunction_eq (EvaluateExpression (S n)) (enter e s) s' f es eq_refl us u ls l _ Hg Hls Hcl1). }
  destruct Hcall as (p & r & Hcall). split; [|split].
  - rewrite <- returned_whole. by eapply eval_udf.
  - subst result. repeat (apply elem_of_cons in Hfp as [->|Hfp]); [apply distinct_NoDup..|by apply elem_of_nil in Hfp].
  - subst result. intros v. repeat (apply elem_of_cons in Hfp as [->|Hfp]); [| | |by apply elem_of_nil in Hfp].
    all: unfold set_result, in_set; rewrite elem_of_distinct.
    + rewrite list_elem_of_filter, Forall_forall. tauto.
    + rewrite list_elem_of_In, in_concat. setoid_rewrite <- list_elem_of_In. naive_solver.
    + rewrite list_elem_of_filter, Forall_forall. tauto.
Qed.
Lemma set_functions_correct_witness :
  EvaluateExpression 2 (Some (w_call "difference$" [w_multifield (w_abcd ++ w_abcd) 2 6; w_multifield w_abcd 1 2])) w_eval =
    Some (whole (VSymbol <$> ["d"; "a"]), w_eval).
Proof.
  set (call := w_call "difference$" _).
  exact (proj1 (set_functions_correct 0 (w_fn "difference$") [w_multifield (w_abcd ++ w_abcd) 2 6; w_multifield w_abcd 1 2]
    w_eval (enter (Some call) w_eval) (mkUDFValue (VMultifield (w_abcd ++ w_abcd)) 2 6)
    [mkUDFValue (VMultifield w_abcd) 1 2] (VSymbol <$> ["c"; "d"; "a"; "b"; "c"; "d"]) [VSymbol <$> ["b"; "c"]]
    ltac:(right; right; left)
    ltac:(repeat econstructor)
    ltac:(repeat constructor; eexists; (split; [reflexivity|]); (split; [vm_compute; reflexivity|vm_compute; discriminate]))
    ltac:(repeat constructor))).
Defined.

(** [subseq$] never fails on a segment: it returns the fields [a..b], cut to
    the ends of the segment, as a segment of the same multifield, without
    copying; none when [a..b] and the segment have no place in common. *)
Theorem SubseqFunction_correct {W} `{!EvalHost W} n f em ea eb (s s' : EvalEnv W) u ua ub l a b :
  functionPointer f = fp_SubseqFunction →
  let e := Some (EFcall f [em; ea; eb]) in
  gives (EvaluateExpression (S n)) (enter e s) [em; ea; eb] [u; ua; ub] s' →
  is_segment u l → uv_value ua = VInteger a → uv_value ub = VInteger b → is_long_long a → is_long_long b →
  ∃ u', EvaluateExpression (S (S n)) e s = Some (u', enter (current_of s) s') ∧
    is_segment u' (cut l a b) ∧ (cut l a b ≠ [] → uv_value u' = uv_value u).
Proof.
  intros Hfp e Hg Hl Ha Hb Hla Hlb.
  destruct (SubseqFunction_eq (EvaluateExpression (S n)) (enter e s) s' em ea eb u ua ub l a b f 1 [em; ea; eb]
    initial_returnValue eq_refl Hg Hl Ha Hb Hla Hlb) as (u' & Hcall & Hu' & Hv').
  exists u'. split; [|done]. rewrite <- (returned_segment _ _ Hu') at 1. eapply eval_udf. rewrite Hfp. exact Hcall.
Qed.
Lemma SubseqFunction_correct_witness :
  ∃ u', EvaluateExpression 2 (Some (w_call "subseq$" [w_multifield w_abcd 1 3; w_int (-5); w_int 2])) w_eval =
    Some (u', w_eval) ∧ is_segment u' (VSymbol <$> ["b"; "c"]) ∧ (VSymbol <$> ["b"; "c"] ≠ [] → uv_value u' = VMultifield w_abcd).
Proof.
  set (call := w_call "subseq$" _).
  exact (SubseqFunction_correct 0 (w_fn "subseq$") (w_multifield w_abcd 1 3) (w_int (-5)) (w_int 2)
    w_eval (enter (Some call) w_eval) (mkUDFValue (VMultifield w_abcd) 1 3)
    (set_uv_value (VInteger (-5)) initial_returnValue) (set_uv_value (VInteger 2) initial_returnValue)
    (VSymbol <$> ["b"; "c"; "d"]) (-5) 2 eq_refl ltac:(repeat econstructor)
    ltac:(eexists; split; [reflexivity|]; split; [vm_compute; reflexivity|vm_compute; discriminate])
    eq_refl eq_refl ltac:(vm_compute; split; discriminate) ltac:(vm_compute; split; discriminate)).
Defined.

(** ** Runs *)

Definition w_flags (r : option (UDFValue * EvalEnv (list string))) : option (value * bool) :=
  (fun '(u, s) => (uv_value u, error_of s)) <$> r.

(** An index below 1 is reported, but is no error. *)
Example insert_bad_index :
  w_flags (EvaluateExpression 2 (Some (w_call "insert$" [w_multifield w_abcd 0 4; w_int 0; w_sym "x"])) w_eval) = Some (VVoid, false).
Proof. vm_compute. reflexivity. Qed.
Example subsetp_ignores_repetition :
  w_flags (EvaluateExpression 2 (Some (w_call "subsetp" [w_multifield [VInteger 1; VInteger 1] 0 2; w_multifield [VInteger 1] 0 1])) w_eval) =
    Some (TrueSymbol, false).
Proof. vm_compute. reflexivity. Qed.
Example member_of_nothing :
  fst <$> EvaluateExpression 2 (Some (w_call "member$" [w_multifield w_abcd 0 0; w_multifield w_abcd 0 4])) w_eval =
    Some (whole [VInteger 1; VInteger 0]).
Proof. vm_compute. reflexivity. Qed.
Example nth_and_first :
  fst <$> EvaluateExpression 4 (Some (w_call "nth$" [w_int 1; w_call "first$" [w_call "rest$" [w_multifield w_abcd 0 4]]])) w_eval =
    Some (mkUDFValue (VSymbol "b") 0 SIZE_MAX).
Proof. vm_compute. reflexivity. Qed.
Example delete_fields :
  fst <$> EvaluateExpression 4 (Some (w_call "delete$" [w_call "create$" [w_int 1; w_multifield w_abcd 1 2; w_int 2]; w_int 2; w_int 3])) w_eval =
    Some (whole [VInteger 1; VInteger 2]).
Proof. vm_compute. reflexivity. Qed.
