(* ===== verification/SList.v ===== *)
(** * Singly linked lists in a store

    The buckets of the hash tables and the garbage lists of multifields are
    lists linked by one [next] pointer.  This file states, once for every node
    type, that a store holds such a list, and what the pointer updates of the
    C code make of it: a node appended, a node unlinked. *)
From S2P Require Import Prelude.

(** A node type with one link field; [payload] is everything else. *)
Class SLinked (N P : Type) := {
  snext : N → option ptr;
  set_snext : option ptr → N → N;
  spayload : N → P;
  snext_set v n : snext (set_snext v n) = v;
  spayload_set v n : spayload (set_snext v n) = spayload n;
}.

Section slist.
Context {N P : Type} `{!SLinked N P}.
Implicit Types (h : gmap ptr N) (l : list ptr).

(** [sseg h o l n]: from the pointer [o], the nodes [l] in order, then the pointer [n]. *)
Fixpoint sseg h (o : option ptr) l (n : option ptr) : Prop :=
  match l with
  | [] => o = n
  | x :: l' => o = Some x ∧ ∃ a, h !! x = Some a ∧ sseg h (snext a) l' n
  end.

(** Walk from [cur] to the first node that passes [test]; the node before and
    the node, or the last node and [NULL]. *)
Fixpoint search (fuel : nat) h (test : N → bool) (past cur : option ptr) : option (option ptr * option ptr) :=
  match fuel with
  | O => None
  | S fuel' =>
      match cur with
      | None => Some (past, None)
      | Some p =>
          n ← h !! p;
          if test n then Some (past, Some p) else search fuel' h test (Some p) (snext n)
      end
  end.

(** The link that leads to the node after [past], [head] when there is none. *)
Definition set_link (past : option ptr) (v : option ptr) h : gmap ptr N :=
  match past with Some p => alter (set_snext v) p h | None => h end.

Lemma sseg_app h o l1 l2 n : sseg h o (l1 ++ l2) n ↔ ∃ m, sseg h o l1 m ∧ sseg h m l2 n.
Proof.
  revert o. induction l1 as [|x l1 IH]; intros o; simpl.
  - split; [by exists o|]. by intros (m & -> & ?).
  - setoid_rewrite IH. naive_solver.
Qed.

Lemma sseg_ext h h' o l n :
  (∀ x, x ∈ l → snext <$> h' !! x = snext <$> h !! x) → sseg h o l n → sseg h' o l n.
Proof.
  revert o. induction l as [|x l IH]; intros o Heq; [done|].
  intros (-> & a & Hx & Hl). split; [done|]. assert (Hx' := Heq x ltac:(set_solver)).
  rewrite Hx in Hx'. destruct (h' !! x) as [a'|]; [|done]. injection Hx' as Ha.
  exists a'. split; [done|]. rewrite Ha. apply IH; [set_solver|done].
Qed.

Lemma sseg_live h o l n x : sseg h o l n → x ∈ l → is_Some (h !! x).
Proof.
  revert o. induction l as [|y l IH]; intros o Hl Hx; [set_solver|].
  destruct Hl as (-> & a & Hy & Hl). apply elem_of_cons in Hx as [->|Hx]; eauto.
Qed.

Lemma sseg_length h o l n : NoDup l → sseg h o l n → length l ≤ size h.
Proof.
  intros Hd Hl. assert (Hsub : list_to_set (C := gset ptr) l ⊆ dom h).
  { intros x Hx%elem_of_list_to_set. apply elem_of_dom. by eapply sseg_live. }
  apply subseteq_size in Hsub. rewrite size_list_to_set, size_dom in Hsub by done. done.
Qed.

(** Two lists from the same pointer are the same. *)
Lemma sseg_det h o l l' : sseg h o l None → sseg h o l' None → l = l'.
Proof.
  revert o l'. induction l as [|x l IH]; intros o [|y l'] H1 H2; [done| | |].
  - simpl in *. destruct H2 as (H2 & _). congruence.
  - simpl in *. destruct H1 as (H1 & _). congruence.
  - destruct H1 as (-> & a & Ha & H1), H2 as ([= ->] & b & Hb & H2).
    simplify_eq. f_equal. by eapply IH.
Qed.

(** The last node before the end, [past] when there is none. *)
Definition slast (past : option ptr) l : option ptr := match last l with Some x => Some x | None => past end.
Lemma slast_cons past x l : slast past (x :: l) = slast (Some x) l.
Proof. unfold slast. rewrite last_cons. by destruct (last l). Qed.
Lemma slast_snoc past l x : slast past (l ++ [x]) = Some x.
Proof. unfold slast. by rewrite last_snoc. Qed.

(** [search] runs through nodes that fail the test. *)
Lemma search_found fuel h test past o l1 x l2 n a :
  sseg h o (l1 ++ x :: l2) n → length l1 < fuel →
  (∀ y b, y ∈ l1 → h !! y = Some b → test b = false) → h !! x = Some a → test a = true →
  search fuel h test past o = Some (slast past l1, Some x).
Proof.
  revert past o fuel. induction l1 as [|y l1 IH]; intros past o [|fuel] Hl Hf Ht Hx Ha; simpl in *; try lia.
  - destruct Hl as (-> & a' & Hx' & _). rewrite Hx in *. simplify_eq. simpl. by rewrite Ha.
  - destruct Hl as (-> & b & Hy & Hl). rewrite Hy. simpl. rewrite (Ht y b) by (done || set_solver).
    rewrite slast_cons. apply IH; [done|lia| |done|done]. intros z c Hz. apply Ht. set_solver.
Qed.

Lemma search_none fuel h test past o l :
  sseg h o l None → length l < fuel →
  (∀ y b, y ∈ l → h !! y = Some b → test b = false) →
  search fuel h test past o = Some (slast past l, None).
Proof.
  revert past o fuel. induction l as [|y l IH]; intros past o [|fuel] Hl Hf Ht; simpl in *; try lia.
  - by rewrite Hl.
  - destruct Hl as (-> & b & Hy & Hl). rewrite Hy. simpl. rewrite (Ht y b) by (done || set_solver).
    rewrite slast_cons. apply IH; [done|lia|]. intros z c Hz. apply Ht. set_solver.
Qed.

(** The two outcomes of a search, for a list of which nothing else is known. *)
Lemma search_cases fuel h test o l :
  sseg h o l None → length l < fuel →
  (∃ l1 x l2 a, l = l1 ++ x :: l2 ∧ h !! x = Some a ∧ test a = true ∧
    (∀ y b, y ∈ l1 → h !! y = Some b → test b = false) ∧
    search fuel h test None o = Some (slast None l1, Some x)) ∨
  ((∀ y b, y ∈ l → h !! y = Some b → test b = false) ∧
    search fuel h test None o = Some (slast None l, None)).
Proof.
  intros Hl Hf.
  destruct (decide (Forall (λ y, from_option test false (h !! y) = false) l)) as [Hall|Hex].
  - right. rewrite Forall_forall in Hall.
    assert (Ht : ∀ y b, y ∈ l → h !! y = Some b → test b = false).
    { intros y b Hy Hb. specialize (Hall y Hy). by rewrite Hb in Hall. }
    split; [done|]. by apply search_none.
  - left. apply not_Forall_Exists in Hex; [|apply _].
    apply Exists_exists in Hex as (x0 & Hx0 & Ht0).
    assert (Hfirst : ∃ l1 x l2, l = l1 ++ x :: l2 ∧ from_option test false (h !! x) = true ∧
      ∀ y, y ∈ l1 → from_option test false (h !! y) = false).
    { clear -Hx0 Ht0. induction l as [|y l IH]; [set_solver|].
      destruct (from_option test false (h !! y)) eqn:Ey; [by exists [], y, l; repeat split; [|set_solver]|].
      destruct IH as (l1 & x & l2 & -> & Hx & Hall).
      { apply elem_of_cons in Hx0 as [->|?]; [congruence|done]. }
      exists (y :: l1), x, l2. split; [done|]. split; [done|]. set_solver. }
    destruct Hfirst as (l1 & x & l2 & -> & Hx & Hall).
    destruct (h !! x) as [a|] eqn:Ha; [|done]. exists l1, x, l2, a.
    assert (Ht : ∀ y b, y ∈ l1 → h !! y = Some b → test b = false).
    { intros y b Hy Hb. specialize (Hall y Hy). by rewrite Hb in Hall. }
    split_and!; try done. rewrite length_app in Hf. simpl in Hf. eapply search_found; eauto. lia.
Qed.

(** ** Updates *)

(** [past->next = p] after the last node. *)
Lemma sseg_snoc h o l p a :
  NoDup l → h !! p = None → snext a = None → sseg h o l None →
  sseg (<[p:=a]> (set_link (slast None l) (Some p) h)) (if l is [] then Some p else o) (l ++ [p]) None.
Proof.
  intros Hd Hp Ha. destruct l as [|x l _] using rev_ind; simpl.
  { intros _. split; [done|]. exists a. by rewrite lookup_insert_eq. }
  rewrite slast_snoc. simpl. intros Hl. rewrite <- app_assoc. simpl.
  apply NoDup_app in Hd as (Hd1 & Hd2 & _).
  rewrite sseg_app in Hl. destruct Hl as (m & Hl & -> & b & Hx & Hb). simpl in Hb.
  assert (Hpx : p ≠ x) by congruence.
  assert (Hne : (if l ++ [x] is [] then Some p else o) = o) by by destruct l.
  rewrite Hne. apply sseg_app. exists (Some x). split.
  - eapply sseg_ext; [|exact Hl]. intros y Hy.
    assert (y ≠ x) by (intros ->; apply (Hd2 x Hy); set_solver).
    assert (y ≠ p). { intros ->. eapply sseg_live in Hl as [? Hc]; [|exact Hy]. congruence. }
    by rewrite lookup_insert_ne, lookup_alter_ne by done.
  - split; [done|]. exists (set_snext (Some p) b).
    rewrite lookup_insert_ne, lookup_alter_eq, Hx by done. split; [done|].
    simpl. rewrite snext_set. split; [done|]. exists a. by rewrite lookup_insert_eq.
Qed.

(** [previous->next = current->next], and the node is gone. *)
Lemma sseg_unlink h o l1 x l2 n a :
  NoDup (l1 ++ x :: l2) → h !! x = Some a → sseg h o (l1 ++ x :: l2) n →
  sseg (delete x (set_link (slast None l1) (snext a) h)) (if l1 is [] then snext a else o) (l1 ++ l2) n.
Proof.
  intros Hd Hx Hl. rewrite sseg_app in Hl. destruct Hl as (m & Hl1 & -> & a' & Hx' & Hl2). simplify_eq.
  apply NoDup_app in Hd as (Hd1 & Hd2 & Hd3%NoDup_cons). destruct Hd3 as [Hx2 Hd3].
  assert (Hx1 : x ∉ l1) by (intros Hx1; apply (Hd2 _ Hx1); set_solver).
  destruct l1 as [|y l1 _] using rev_ind; simpl.
  - eapply sseg_ext; [|exact Hl2]. intros y Hy. by rewrite lookup_delete_ne by set_solver.
  - rewrite slast_snoc. simpl. rewrite sseg_app in Hl1. destruct Hl1 as (m & Hl1 & -> & b & Hy & Hb). simpl in Hb.
    assert (Hne : (if l1 ++ [y] is [] then snext a else o) = o) by by destruct l1.
    rewrite Hne. apply NoDup_app in Hd1 as (Hd1 & Hd4 & _).
    assert (Hout : ∀ z, z ≠ x → z ≠ y →
      delete x (alter (set_snext (snext a)) y h) !! z = h !! z).
    { intros z ? ?. by rewrite lookup_delete_ne, lookup_alter_ne. }
    rewrite <- app_assoc. apply sseg_app. exists (Some y). split; [|split; [done|]].
    + eapply sseg_ext; [|exact Hl1]. intros z Hz. rewrite Hout; [done|set_solver|].
      intros ->. apply (Hd4 y Hz). set_solver.
    + exists (set_snext (snext a) b).
      rewrite lookup_delete_ne by set_solver. rewrite lookup_alter_eq, Hy. split; [done|].
      rewrite snext_set. eapply sseg_ext; [|exact Hl2]. intros z Hz. rewrite Hout; [done|set_solver|].
      intros ->. apply (Hd2 y); set_solver.
Qed.

(** [last->next = o2]: one list behind the other. *)
Lemma sseg_concat h o1 l1 o2 l2 n :
  NoDup (l1 ++ l2) → sseg h o1 l1 None → sseg h o2 l2 n →
  sseg (set_link (slast None l1) o2 h) (if l1 is [] then o2 else o1) (l1 ++ l2) n.
Proof.
  intros Hd H1 H2. destruct l1 as [|y l1 _] using rev_ind; [exact H2|].
  rewrite slast_snoc. simpl. rewrite sseg_app in H1. destruct H1 as (m & H1 & -> & b & Hy & Hb). simpl in Hb.
  assert (Hne : (if l1 ++ [y] is [] then o2 else o1) = o1) by by destruct l1.
  rewrite Hne, <- app_assoc. simpl. rewrite <- app_assoc in Hd. simpl in Hd.
  apply NoDup_app in Hd as (_ & Hd1 & [Hd2 _]%NoDup_cons).
  apply sseg_app. exists (Some y). split.
  - eapply sseg_ext; [|exact H1]. intros z Hz. rewrite lookup_alter_ne; [done|]. intros ->.
    apply (Hd1 z Hz). set_solver.
  - split; [done|]. exists (set_snext o2 b). rewrite lookup_alter_eq, Hy. split; [done|]. rewrite snext_set.
    eapply sseg_ext; [|exact H2]. intros z Hz. rewrite lookup_alter_ne; [done|]. intros ->. done.
Qed.
End slist.
