(* ===== verification/AtomState.v ===== *)
(** * State of the symbol and primitive tables

    The hash nodes of [symbol.h] and [entities.h] in a store, the buckets of the
    five tables, the garbage frames of [utility.h] and the multifields they
    own.  Facts and instances belong to other components: what the garbage
    collector calls of them is the interface [GarbageHost] of [Atoms]. *)
From S2P Require Import Prelude Values Router Process Hash SList.

(** ** Hash nodes *)

(** What a node stands for: [header.type] and [contents] of [clipsLexeme],
    [clipsFloat], [clipsInteger], [clipsBitMap], [clipsExternalAddress].  The length
    of the bytes is the [size] of a bitmap. *)
Inductive Atom :=
  | ALexeme (type : Z) (contents : string)
  | AFloat (contents : Z)
  | AInteger (contents : Z)
  | ABitMap (contents : list byte)
  | AExternalAddress (contents : Z) (type : Z).
#[export] Instance Atom_eq_dec : EqDecision Atom.
Proof. solve_decision. Defined.

(** [struct genericHashNode] with the contents; [needed] is not initialised
    before a binary save. *)
Record HashNode := mkHashNode {
  next : option ptr;
  count : Z;
  permanent : bool;
  markedEphemeral : bool;
  needed : option bool;
  bucket : Z;
  contents : Atom;
}.
Definition set_next v n := mkHashNode v (count n) (permanent n) (markedEphemeral n) (needed n) (bucket n) (contents n).
Definition set_count v n := mkHashNode (next n) v (permanent n) (markedEphemeral n) (needed n) (bucket n) (contents n).
Definition set_marked v n := mkHashNode (next n) (count n) (permanent n) v (needed n) (bucket n) (contents n).
Definition set_needed v n := mkHashNode (next n) (count n) (permanent n) (markedEphemeral n) v (bucket n) (contents n).
Definition set_bucket v n := mkHashNode (next n) (count n) (permanent n) (markedEphemeral n) (needed n) v (contents n).

(** Everything but the link. *)
Definition node_payload (n : HashNode) : Z * bool * bool * option bool * Z * Atom :=
  (count n, permanent n, markedEphemeral n, needed n, bucket n, contents n).
#[export] Instance HashNode_linked : SLinked HashNode (Z * bool * bool * option bool * Z * Atom) := {
  snext := next; set_snext := set_next; spayload := node_payload;
  snext_set v n := eq_refl; spayload_set v n := eq_refl;
}.

Definition BITMAP_TYPE : Z := 11.

(** [header.type] *)
Definition atom_type (a : Atom) : Z :=
  match a with
  | ALexeme type _ => type
  | AFloat _ => FLOAT_TYPE
  | AInteger _ => INTEGER_TYPE
  | ABitMap _ => BITMAP_TYPE
  | AExternalAddress _ _ => EXTERNAL_ADDRESS_TYPE
  end.

(** ** Tables *)

Inductive TableId := SymbolTable | FloatTable | IntegerTable | BitMapTable | ExternalAddressTable.
#[export] Instance TableId_eq_dec : EqDecision TableId.
Proof. solve_decision. Defined.
#[export] Instance TableId_countable : Countable TableId.
Proof.
  apply (inj_countable'
    (fun t => match t with SymbolTable => 0 | FloatTable => 1 | IntegerTable => 2 | BitMapTable => 3 | ExternalAddressTable => 4 end)
    (fun n => match n with 0 => SymbolTable | 1 => FloatTable | 2 => IntegerTable | 3 => BitMapTable | _ => ExternalAddressTable end)).
  by intros [].
Defined.

Definition table_size (t : TableId) : Z :=
  match t with
  | SymbolTable => SYMBOL_HASH_SIZE
  | FloatTable => FLOAT_HASH_SIZE
  | IntegerTable => INTEGER_HASH_SIZE
  | BitMapTable => BITMAP_HASH_SIZE
  | ExternalAddressTable => EXTERNAL_ADDRESS_HASH_SIZE
  end.

(** The table of an atom and its hash value; [None] where the code is undefined. *)
Definition atom_table (a : Atom) : TableId :=
  match a with
  | ALexeme _ _ => SymbolTable
  | AFloat _ => FloatTable
  | AInteger _ => IntegerTable
  | ABitMap _ => BitMapTable
  | AExternalAddress _ _ => ExternalAddressTable
  end.

(** ** Multifields *)

(** A [void *] of a [CLIPSValue], by the type its header shows. *)
Inductive object :=
  | ONode (p : ptr)
  | OMultifield (m : option ptr)
  | OFact (f : option ptr)
  | OInstance (i : option ptr)
  | OVoid.
#[export] Instance object_eq_dec : EqDecision object.
Proof. solve_decision. Defined.

(** [struct multifield]; [length] is the length of [mf_contents]. *)
Record Multifield := mkMultifield {
  busyCount : Z;
  mf_next : option ptr;
  mf_contents : list object;
}.
Definition set_busyCount v m := mkMultifield v (mf_next m) (mf_contents m).
Definition set_mf_next v m := mkMultifield (busyCount m) v (mf_contents m).
#[export] Instance Multifield_linked : SLinked Multifield (Z * list object) := {
  snext := mf_next; set_snext := set_mf_next; spayload m := (busyCount m, mf_contents m);
  snext_set v m := eq_refl; spayload_set v m := eq_refl;
}.

(** ** Garbage frames *)

(** [struct garbageFrame].  A list of ephemerons is the list of the nodes they
    are associated with; the garbage facts and instances are the lists from
    [GarbageFacts] to [LastGarbageFact] and from [GarbageInstances] to
    [LastGarbageInstance]. *)
Record garbageFrame := mkGarbageFrame {
  dirty : bool;
  priorFrame : option ptr;
  ephemeralSymbolList : list ptr;
  ephemeralFloatList : list ptr;
  ephemeralIntegerList : list ptr;
  ephemeralBitMapList : list ptr;
  ephemeralExternalAddressList : list ptr;
  ListOfMultifields : option ptr;
  LastMultifield : option ptr;
  GarbageFacts : list ptr;
  GarbageInstances : list ptr;
}.

Definition set_dirty v f := mkGarbageFrame v (priorFrame f) (ephemeralSymbolList f) (ephemeralFloatList f)
  (ephemeralIntegerList f) (ephemeralBitMapList f) (ephemeralExternalAddressList f)
  (ListOfMultifields f) (LastMultifield f) (GarbageFacts f) (GarbageInstances f).
Definition set_ListOfMultifields v f := mkGarbageFrame (dirty f) (priorFrame f) (ephemeralSymbolList f) (ephemeralFloatList f)
  (ephemeralIntegerList f) (ephemeralBitMapList f) (ephemeralExternalAddressList f)
  v (LastMultifield f) (GarbageFacts f) (GarbageInstances f).
Definition set_LastMultifield v f := mkGarbageFrame (dirty f) (priorFrame f) (ephemeralSymbolList f) (ephemeralFloatList f)
  (ephemeralIntegerList f) (ephemeralBitMapList f) (ephemeralExternalAddressList f)
  (ListOfMultifields f) v (GarbageFacts f) (GarbageInstances f).
Definition set_GarbageFacts v f := mkGarbageFrame (dirty f) (priorFrame f) (ephemeralSymbolList f) (ephemeralFloatList f)
  (ephemeralIntegerList f) (ephemeralBitMapList f) (ephemeralExternalAddressList f)
  (ListOfMultifields f) (LastMultifield f) v (GarbageInstances f).
Definition set_GarbageInstances v f := mkGarbageFrame (dirty f) (priorFrame f) (ephemeralSymbolList f) (ephemeralFloatList f)
  (ephemeralIntegerList f) (ephemeralBitMapList f) (ephemeralExternalAddressList f)
  (ListOfMultifields f) (LastMultifield f) (GarbageFacts f) v.

(** The ephemeral list for the nodes of a table. *)
Definition ephemerals (t : TableId) (f : garbageFrame) : list ptr :=
  match t with
  | SymbolTable => ephemeralSymbolList f
  | FloatTable => ephemeralFloatList f
  | IntegerTable => ephemeralIntegerList f
  | BitMapTable => ephemeralBitMapList f
  | ExternalAddressTable => ephemeralExternalAddressList f
  end.
Definition set_ephemerals (t : TableId) (v : list ptr) (f : garbageFrame) : garbageFrame :=
  let pick u l := if decide (t = u) then v else l in
  mkGarbageFrame (dirty f) (priorFrame f) (pick SymbolTable (ephemeralSymbolList f))
    (pick FloatTable (ephemeralFloatList f)) (pick IntegerTable (ephemeralIntegerList f))
    (pick BitMapTable (ephemeralBitMapList f)) (pick ExternalAddressTable (ephemeralExternalAddressList f))
    (ListOfMultifields f) (LastMultifield f) (GarbageFacts f) (GarbageInstances f).

Lemma ephemerals_set t u v f : ephemerals t (set_ephemerals u v f) = if decide (u = t) then v else ephemerals t f.
Proof. by destruct t, u. Qed.
Lemma ephemerals_set_eq t v f : ephemerals t (set_ephemerals t v f) = v.
Proof. by destruct t. Qed.

(** [memset] to 0, then [priorFrame]. *)
Definition new_frame (prior : option ptr) : garbageFrame := mkGarbageFrame false prior [] [] [] [] [] None None [] [].

(** ** The environment *)

(** [struct symbolData] and the parts of [utilityData] and of the environment
    used with it; [host] is the rest of the system. *)
Record AtomEnv (H : Type) := mkAtomEnv {
  nodes : gmap ptr HashNode;
  heads : gmap (TableId * Z) ptr;
  PositiveInfinity : option ptr;
  NegativeInfinity : option ptr;
  Zero : option ptr;
  TrueSymbol : option ptr;
  FalseSymbol : option ptr;
  multifields : gmap ptr Multifield;
  frames : gmap ptr garbageFrame;
  CurrentGarbageFrame : ptr;
  ListOfCleanupFunctions : list ptr;
  discardFunctions : gmap Z ptr;
  discarded : list (ptr * Z);
  atom_output : list output_item;
  host : H;
}.
Arguments mkAtomEnv {H}.
Arguments nodes {H}.
Arguments heads {H}.
Arguments PositiveInfinity {H}.
Arguments NegativeInfinity {H}.
Arguments Zero {H}.
Arguments TrueSymbol {H}.
Arguments FalseSymbol {H}.
Arguments multifields {H}.
Arguments frames {H}.
Arguments CurrentGarbageFrame {H}.
Arguments ListOfCleanupFunctions {H}.
Arguments discardFunctions {H}.
Arguments discarded {H}.
Arguments atom_output {H}.
Arguments host {H}.

Section state.
Context {H : Type}.
Implicit Types (s : AtomEnv H).

(** Rebuild the state with new tables: nodes, bucket heads. *)
Definition put_tables (ns : gmap ptr HashNode) (hs : gmap (TableId * Z) ptr) s : AtomEnv H :=
  mkAtomEnv ns hs (PositiveInfinity s) (NegativeInfinity s) (Zero s) (TrueSymbol s) (FalseSymbol s)
    (multifields s) (frames s) (CurrentGarbageFrame s) (ListOfCleanupFunctions s) (discardFunctions s)
    (discarded s) (atom_output s) (host s).
Definition put_nodes ns s := put_tables ns (heads s) s.
Definition put_heads hs s := put_tables (nodes s) hs s.

(** The predefined symbols: [+oo], [-oo], [0], [TRUE], [FALSE]. *)
Definition put_special pinf ninf zero true_ false_ s : AtomEnv H :=
  mkAtomEnv (nodes s) (heads s) pinf ninf zero true_ false_
    (multifields s) (frames s) (CurrentGarbageFrame s) (ListOfCleanupFunctions s) (discardFunctions s)
    (discarded s) (atom_output s) (host s).
Definition put_PositiveInfinity v s := put_special v (NegativeInfinity s) (Zero s) (TrueSymbol s) (FalseSymbol s) s.
Definition put_NegativeInfinity v s := put_special (PositiveInfinity s) v (Zero s) (TrueSymbol s) (FalseSymbol s) s.
Definition put_Zero v s := put_special (PositiveInfinity s) (NegativeInfinity s) v (TrueSymbol s) (FalseSymbol s) s.
Definition put_TrueSymbol v s := put_special (PositiveInfinity s) (NegativeInfinity s) (Zero s) v (FalseSymbol s) s.
Definition put_FalseSymbol v s := put_special (PositiveInfinity s) (NegativeInfinity s) (Zero s) (TrueSymbol s) v s.

(** The garbage: multifields, frames, the current frame. *)
Definition put_garbage mfs fs cur s : AtomEnv H :=
  mkAtomEnv (nodes s) (heads s) (PositiveInfinity s) (NegativeInfinity s) (Zero s) (TrueSymbol s) (FalseSymbol s)
    mfs fs cur (ListOfCleanupFunctions s) (discardFunctions s) (discarded s) (atom_output s) (host s).
Definition put_multifields mfs s := put_garbage mfs (frames s) (CurrentGarbageFrame s) s.
Definition put_frames fs s := put_garbage (multifields s) fs (CurrentGarbageFrame s) s.
Definition put_current cur s := put_garbage (multifields s) (frames s) cur s.

Definition put_output d o s : AtomEnv H :=
  mkAtomEnv (nodes s) (heads s) (PositiveInfinity s) (NegativeInfinity s) (Zero s) (TrueSymbol s) (FalseSymbol s)
    (multifields s) (frames s) (CurrentGarbageFrame s) (ListOfCleanupFunctions s) (discardFunctions s) d o (host s).
Definition put_host h s : AtomEnv H :=
  mkAtomEnv (nodes s) (heads s) (PositiveInfinity s) (NegativeInfinity s) (Zero s) (TrueSymbol s) (FalseSymbol s)
    (multifields s) (frames s) (CurrentGarbageFrame s) (ListOfCleanupFunctions s) (discardFunctions s)
    (discarded s) (atom_output s) h.

#[export] Instance AtomEnv_router : Router (AtomEnv H) := {
  map_output f s := put_output (discarded s) (f (atom_output s)) s;
}.

(** ** Access through pointers *)

Definition getsP {A} (f : AtomEnv H → A) : P (AtomEnv H) A := fun s => Returned (f s) s.
Definition modifyP (f : AtomEnv H → AtomEnv H) : P (AtomEnv H) unit := fun s => Returned tt (f s).
Definition someP {A} (o : option A) : P (AtomEnv H) A := fun s =>
  match o with Some a => Returned a s | None => Undefined end.

(** [*p] of a node, a multifield, a frame; undefined when it was freed. *)
Definition node (p : ptr) : P (AtomEnv H) HashNode := ns ← getsP nodes; someP (ns !! p).
Definition multifield (m : ptr) : P (AtomEnv H) Multifield := ms ← getsP multifields; someP (ms !! m).
Definition frame (f : ptr) : P (AtomEnv H) garbageFrame := fs ← getsP frames; someP (fs !! f).

Definition update_node (p : ptr) (g : HashNode → HashNode) : P (AtomEnv H) unit :=
  n ← node p; modifyP (fun s => put_nodes (<[p := g n]> (nodes s)) s).
Definition update_multifield (m : ptr) (g : Multifield → Multifield) : P (AtomEnv H) unit :=
  x ← multifield m; modifyP (fun s => put_multifields (<[m := g x]> (multifields s)) s).
Definition update_frame (f : ptr) (g : garbageFrame → garbageFrame) : P (AtomEnv H) unit :=
  x ← frame f; modifyP (fun s => put_frames (<[f := g x]> (frames s)) s).

(** [theTable[i]] *)
Definition bucket_head (t : TableId) (i : Z) : P (AtomEnv H) (option ptr) :=
  if ((0 <=? i) && (i <? table_size t))%Z then getsP (fun s => heads s !! (t, i)) else someP None.
Definition set_bucket_head (t : TableId) (i : Z) (v : option ptr) : P (AtomEnv H) unit :=
  if ((0 <=? i) && (i <? table_size t))%Z
  then modifyP (fun s => put_heads (partial_alter (fun _ => v) (t, i) (heads s)) s) else someP None.
End state.
