(* ===== verification/Atoms.v ===== *)
(** * The symbol and primitive tables: [symbol.c]

    Interning of lexemes, floats, integers, bitmaps and external addresses,
    reference counts, the lists of ephemeral nodes and their removal. *)
From S2P Require Import Prelude Values Router Process Hash SList AtomState.

Section atoms.
Context {H : Type}.
Notation P := (P (AtomEnv H)).
Implicit Types (p : ptr) (t : TableId).

(** ** Ephemeral nodes *)

(** [AddEphemeralHashNode], for the list of nodes of [t] of the frame [f]. *)
Definition AddEphemeralHashNode (theHashNode : ptr) (f : ptr) t (checkCount : bool) : P unit :=
  n ← node theHashNode;
  if checkCount && negb (count n =? 0)%Z then system_failure "SYMBOL" 12
  else
    _ ← update_node theHashNode (set_marked true);
    update_frame f (fun x => set_ephemerals t (theHashNode :: ephemerals t x) x).

(** The node joins the current frame, which gets dirty. *)
Definition add_to_current_frame p t (checkCount : bool) : P unit :=
  f ← getsP CurrentGarbageFrame;
  _ ← AddEphemeralHashNode p f t checkCount;
  update_frame f (set_dirty true).

(** ** Creation *)

(** The search of a bucket: the node before and the node found, or the last
    node and [NULL]. *)
Definition search_bucket t (tally : Z) (test : HashNode → bool) : P (option ptr * option ptr) :=
  head ← bucket_head t tally;
  ns ← getsP nodes;
  someP (search (S (size ns)) ns test None head).

(** The new node at the end of its bucket, without references, ephemeral. *)
Definition add_node t (tally : Z) (past : option ptr) (a : Atom) : P ptr :=
  peek ← getsP (fun s => fresh_ptr (nodes s));
  _ ← match past with
      | None => set_bucket_head t tally (Some peek)
      | Some q => update_node q (set_next (Some peek))
      end;
  _ ← modifyP (fun s => put_nodes (<[peek := mkHashNode None 0 false false None tally a]> (nodes s)) s);
  _ ← add_to_current_frame peek t true;
  mret peek.

Definition AddSymbol (str : option string) (theType : Z) : P ptr :=
  match str with
  | None => system_failure "SYMBOL" 1
  | Some str =>
      let tally := HashSymbol str SYMBOL_HASH_SIZE in
      r ← search_bucket SymbolTable tally (fun peek =>
            match contents peek with
            | ALexeme type chars => (type =? theType)%Z && String.eqb str chars
            | _ => false
            end);
      match r with
      | (_, Some peek) => mret peek
      | (past, None) => add_node SymbolTable tally past (ALexeme theType str)
      end
  end.

Definition CreateSymbol (str : option string) : P ptr := AddSymbol str SYMBOL_TYPE.
Definition CreateString (str : option string) : P ptr := AddSymbol str STRING_TYPE.
Definition CreateInstanceName (str : option string) : P ptr := AddSymbol str INSTANCE_NAME_TYPE.
Definition CreateBoolean (theValue : bool) : P (option ptr) :=
  if theValue then getsP TrueSymbol else getsP FalseSymbol.

Definition CreateFloat (number : Z) : P ptr :=
  let tally := HashFloat number FLOAT_HASH_SIZE in
  r ← search_bucket FloatTable tally (fun peek =>
        match contents peek with AFloat w => double_eq number w | _ => false end);
  match r with
  | (_, Some peek) => mret peek
  | (past, None) => add_node FloatTable tally past (AFloat number)
  end.

Definition CreateInteger (number : Z) : P ptr :=
  tally ← someP (HashInteger number INTEGER_HASH_SIZE);
  r ← search_bucket IntegerTable tally (fun peek =>
        match contents peek with AInteger z => (number =? z)%Z | _ => false end);
  match r with
  | (_, Some peek) => mret peek
  | (past, None) => add_node IntegerTable tally past (AInteger number)
  end.

(** [theBitMap] and [size]: the bytes, [None] for [NULL]. *)
Definition AddBitMap (theBitMap : option (list byte)) : P ptr :=
  match theBitMap with
  | None => system_failure "SYMBOL" 2
  | Some theBitMap =>
      let tally := HashBitMap theBitMap BITMAP_HASH_SIZE in
      r ← search_bucket BitMapTable tally (fun peek =>
            match contents peek with
            | ABitMap bytes => (length bytes =? length theBitMap)%nat && bool_decide (bytes = theBitMap)
            | _ => false
            end);
      match r with
      | (_, Some peek) => mret peek
      | (past, None) => add_node BitMapTable tally past (ABitMap theBitMap)
      end
  end.

Definition CreateExternalAddress (theExternalAddress theType : Z) : P ptr :=
  let tally := HashExternalAddress theExternalAddress EXTERNAL_ADDRESS_HASH_SIZE in
  r ← search_bucket ExternalAddressTable tally (fun peek =>
        match contents peek with
        | AExternalAddress a type => (type =? theType)%Z && (a =? theExternalAddress)%Z
        | _ => false
        end);
  match r with
  | (_, Some peek) => mret peek
  | (past, None) => add_node ExternalAddressTable tally past (AExternalAddress theExternalAddress theType)
  end.

Definition C_POINTER_EXTERNAL_ADDRESS : Z := 0.
Definition CreateCExternalAddress (theExternalAddress : Z) : P ptr :=
  CreateExternalAddress theExternalAddress C_POINTER_EXTERNAL_ADDRESS.

(** ** Lookup *)

Definition FindSymbolHN (str : string) (expectedType : Z) : P (option ptr) :=
  r ← search_bucket SymbolTable (HashSymbol str SYMBOL_HASH_SIZE) (fun peek =>
        match contents peek with
        | ALexeme type chars => has_bits (Z.shiftl 1 type) expectedType && String.eqb str chars
        | _ => false
        end);
  mret r.2.

Definition FindLongHN (theLong : Z) : P (option ptr) :=
  tally ← someP (HashInteger theLong INTEGER_HASH_SIZE);
  r ← search_bucket IntegerTable tally (fun peek =>
        match contents peek with AInteger z => (z =? theLong)%Z | _ => false end);
  mret r.2.

(** ** Reference counts *)

(** [theValue->count++] on a [long]. *)
Definition increment_count p : P unit :=
  n ← node p;
  c ← someP (long_long (count n + 1));
  update_node p (set_count c).

Definition RetainLexeme (theValue : ptr) : P unit := increment_count theValue.
Definition RetainFloat (theValue : ptr) : P unit := increment_count theValue.
Definition RetainInteger (theValue : ptr) : P unit := increment_count theValue.
Definition IncrementBitMapReferenceCount (theValue : ptr) : P unit := increment_count theValue.
Definition RetainExternalAddress (theValue : ptr) : P unit := increment_count theValue.

(** [theValue->count--]; at 0 the node gets ephemeral, if it is not. *)
Definition decrement_count p t : P unit :=
  _ ← update_node p (fun n => set_count (count n - 1) n);
  n ← node p;
  if negb (count n =? 0)%Z then mret tt
  else if markedEphemeral n then mret tt
  else add_to_current_frame p t true.

Definition ReleaseLexeme (theValue : ptr) : P unit :=
  n ← node theValue;
  if (count n <? 0)%Z then system_failure "SYMBOL" 3
  else if (count n =? 0)%Z then system_failure "SYMBOL" 4
  else decrement_count theValue SymbolTable.

Definition ReleaseFloat (theValue : ptr) : P unit :=
  n ← node theValue;
  if (count n <=? 0)%Z then system_failure "SYMBOL" 5
  else decrement_count theValue FloatTable.

Definition ReleaseInteger (theValue : ptr) : P unit :=
  n ← node theValue;
  if (count n <=? 0)%Z then system_failure "SYMBOL" 6
  else decrement_count theValue IntegerTable.

Definition DecrementBitMapReferenceCount (theValue : ptr) : P unit :=
  n ← node theValue;
  if (count n <? 0)%Z then system_failure "SYMBOL" 7
  else if (count n =? 0)%Z then system_failure "SYMBOL" 8
  else decrement_count theValue BitMapTable.

Definition ReleaseExternalAddress (theValue : ptr) : P unit :=
  n ← node theValue;
  if (count n <? 0)%Z then system_failure "SYMBOL" 9
  else if (count n =? 0)%Z then system_failure "SYMBOL" 10
  else decrement_count theValue ExternalAddressTable.

(** ** Removal *)

(** The walk of [RemoveHashNode] to [theValue]: the node before it; [inl] when
    the bucket ends before. *)
Fixpoint find_previous (fuel : nat) (ns : gmap ptr HashNode) (theValue : ptr)
    (previousNode currentNode : option ptr) : option (unit + option ptr) :=
  match fuel with
  | O => None
  | S fuel' =>
      if decide (currentNode = Some theValue) then Some (inr previousNode) else
      c ← currentNode;
      n ← ns !! c;
      match next n with
      | None => Some (inl tt)
      | Some d => find_previous fuel' ns theValue (Some c) (Some d)
      end
  end.

(** [discardFunction] of the type of an external address, called on its contents. *)
Definition discard (a : Atom) : P unit :=
  match a with
  | AExternalAddress pointer type =>
      fs ← getsP discardFunctions;
      match fs !! type with
      | Some function => modifyP (fun s => put_output (discarded s ++ [(function, pointer)]) (atom_output s) s)
      | None => mret tt
      end
  | _ => mret tt
  end.

Definition RemoveHashNode (theValue : ptr) t : P unit :=
  n ← node theValue;
  currentNode ← bucket_head t (bucket n);
  ns ← getsP nodes;
  r ← someP (find_previous (S (size ns)) ns theValue None currentNode);
  match r with
  | inl _ => system_failure "SYMBOL" 11
  | inr previousNode =>
      _ ← match previousNode with
          | None => set_bucket_head t (bucket n) (next n)
          | Some q => update_node q (set_next (next n))
          end;
      _ ← discard (contents n);
      modifyP (fun s => put_nodes (delete theValue (nodes s)) s)
  end.

(** The loop of [RemoveEphemeralHashNodes] over the list; what stays on it. *)
Fixpoint remove_ephemerals t (theEphemeralList : list ptr) : P (list ptr) :=
  match theEphemeralList with
  | [] => mret []
  | p :: rest =>
      n ← node p;
      if (count n =? 0)%Z then
        _ ← RemoveHashNode p t;
        remove_ephemerals t rest
      else if (0 <? count n)%Z then
        _ ← update_node p (set_marked false);
        remove_ephemerals t rest
      else
        kept ← remove_ephemerals t rest;
        mret (p :: kept)
  end.

Definition RemoveEphemeralHashNodes (f : ptr) t : P unit :=
  x ← frame f;
  kept ← remove_ephemerals t (ephemerals t x);
  update_frame f (set_ephemerals t kept).

Definition RemoveEphemeralAtoms : P unit :=
  f ← getsP CurrentGarbageFrame;
  theGarbageFrame ← frame f;
  if negb (dirty theGarbageFrame) then mret tt
  else
    _ ← RemoveEphemeralHashNodes f SymbolTable;
    _ ← RemoveEphemeralHashNodes f FloatTable;
    _ ← RemoveEphemeralHashNodes f IntegerTable;
    _ ← RemoveEphemeralHashNodes f BitMapTable;
    RemoveEphemeralHashNodes f ExternalAddressTable.

(** ** Initialization *)

Definition InitializeAtomTables : P unit :=
  p ← AddSymbol (Some "TRUE") SYMBOL_TYPE;
  _ ← modifyP (put_TrueSymbol (Some p));
  _ ← increment_count p;
  p ← AddSymbol (Some "FALSE") SYMBOL_TYPE;
  _ ← modifyP (put_FalseSymbol (Some p));
  _ ← increment_count p;
  p ← AddSymbol (Some "+oo") SYMBOL_TYPE;
  _ ← modifyP (put_PositiveInfinity (Some p));
  _ ← increment_count p;
  p ← AddSymbol (Some "-oo") SYMBOL_TYPE;
  _ ← modifyP (put_NegativeInfinity (Some p));
  _ ← increment_count p;
  p ← CreateInteger 0;
  _ ← modifyP (put_Zero (Some p));
  increment_count p.

Definition RefreshSpecialSymbols : P unit :=
  p ← FindSymbolHN "+oo" SYMBOL_BIT;
  _ ← modifyP (put_PositiveInfinity p);
  p ← FindSymbolHN "-oo" SYMBOL_BIT;
  _ ← modifyP (put_NegativeInfinity p);
  p ← FindLongHN 0;
  modifyP (put_Zero p).
End atoms.

(** The environment before [InitializeAtomTables]: empty tables, the master
    frame. *)
Definition MasterGarbageFrame : ptr := 1%positive.
Definition initial_env {H} (cleanup : list ptr) (discards : gmap Z ptr) (h : H) : AtomEnv H :=
  mkAtomEnv ∅ ∅ None None None None None ∅ {[ MasterGarbageFrame := new_frame None ]}
    MasterGarbageFrame cleanup discards [] [] h.
