(* ===== verification/AtomProofs.v ===== *)
(** * Well-formed symbol and primitive tables

    The buckets hold every node once, at its hash value, and no two nodes of
    the same contents; the nodes without references are on the lists of
    ephemeral nodes, each on one list of one frame.

    Then interning and reference counts. *)
From S2P Require Import Prelude Values Router Process Hash SList AtomState Atoms.
(** ** Atoms *)

Definition is_lexeme_type (type : Z) : Prop := type = SYMBOL_TYPE ∨ type = STRING_TYPE ∨ type = INSTANCE_NAME_TYPE.

(** The contents the creating functions are defined on. *)
Definition atom_ok (a : Atom) : Prop :=
  match a with
  | ALexeme type _ => is_lexeme_type type
  | AFloat w => is_word w
  | AInteger z => (LLONG_MIN < z <= LLONG_MAX)%Z
  | ABitMap _ => True
  | AExternalAddress _ _ => True
  end.

(** The hash value of an atom. *)
Definition atom_hash (a : Atom) : Z :=
  match a with
  | ALexeme _ chars => HashSymbol chars SYMBOL_HASH_SIZE
  | AFloat w => HashFloat w FLOAT_HASH_SIZE
  | AInteger z => (Z.abs z mod INTEGER_HASH_SIZE)%Z
  | ABitMap bytes => HashBitMap bytes BITMAP_HASH_SIZE
  | AExternalAddress p _ => HashExternalAddress p EXTERNAL_ADDRESS_HASH_SIZE
  end.

Definition is_nan_atom (a : Atom) : bool := match a with AFloat w => is_nan_bits w | _ => false end.

Lemma table_size_pos t : (0 < table_size t)%Z.
Proof. by destruct t. Qed.
Lemma atom_hash_bound a : (0 <= atom_hash a < table_size (atom_table a))%Z.
Proof.
  destruct a; simpl; [apply HashSymbol_bound|apply HashFloat_bound|apply Z.mod_pos_bound|
    apply HashBitMap_bound|apply HashExternalAddress_bound]; done.
Qed.

(** ** Nodes without their links *)

Definition view (ns : gmap ptr HashNode) : gmap ptr HashNode := set_next None <$> ns.

Lemma view_insert p n ns : view (<[p := n]> ns) = <[p := set_next None n]> (view ns).
Proof. apply fmap_insert. Qed.
Lemma view_delete p ns : view (delete p ns) = delete p (view ns).
Proof. apply fmap_delete. Qed.
Lemma view_set_next p v ns : view (alter (set_next v) p ns) = view ns.
Proof.
  apply map_eq. intros q. unfold view. rewrite !lookup_fmap.
  destruct (decide (p = q)) as [->|]; [rewrite lookup_alter_eq|by rewrite lookup_alter_ne].
  by destruct (ns !! q).
Qed.
Lemma view_set_link past v ns : view (set_link past v ns) = view ns.
Proof. destruct past; [apply view_set_next|done]. Qed.
Lemma view_lookup p n ns : ns !! p = Some n → view ns !! p = Some (set_next None n).
Proof. intros Hp. unfold view. by rewrite lookup_fmap, Hp. Qed.
Lemma view_lookup_inv p n ns : view ns !! p = Some n → ∃ n', ns !! p = Some n' ∧ n = set_next None n'.
Proof. unfold view. rewrite lookup_fmap. destruct (ns !! p) as [n'|]; [|done]. intros [= <-]. eauto. Qed.
Lemma view_None p ns : ns !! p = None ↔ view ns !! p = None.
Proof. unfold view. rewrite lookup_fmap. by destruct (ns !! p). Qed.
Lemma view_alter_eq ns ns' p n : view ns' = view ns → ns !! p = Some n →
  ∃ n', ns' !! p = Some n' ∧ set_next None n' = set_next None n.
Proof.
  intros Hv Hp. apply view_lookup in Hp. rewrite <- Hv in Hp.
  apply view_lookup_inv in Hp as (n' & ? & ?). eauto.
Qed.

(** ** The tables *)

(** [C t i] is the list of nodes of bucket [i] of table [t]. *)
Record tables_rep (ns : gmap ptr HashNode) (hs : gmap (TableId * Z) ptr) (C : TableId → Z → list ptr) : Prop := {
  tr_chain t i : (0 <= i < table_size t)%Z → sseg ns (hs !! (t, i)) (C t i) None;
  tr_nodup t i : NoDup (C t i);
  tr_member t i p : p ∈ C t i ↔ ∃ n, view ns !! p = Some n ∧ atom_table (contents n) = t ∧ bucket n = i;
  tr_hash p n : view ns !! p = Some n → bucket n = atom_hash (contents n);
  tr_ok p n : view ns !! p = Some n → atom_ok (contents n);
  tr_unique p q n m : view ns !! p = Some n → view ns !! q = Some m → contents n = contents m →
    is_nan_atom (contents n) = false → p = q;
}.

(** ** The garbage frames *)

Record frames_rep (vs : gmap ptr HashNode) (fs : gmap ptr garbageFrame) : Prop := {
  fr_count p n : vs !! p = Some n → (0 <= count n)%Z;
  fr_zero p n : vs !! p = Some n → count n = 0%Z → markedEphemeral n = true;
  fr_marked p n : vs !! p = Some n → markedEphemeral n = true →
    ∃ f x, fs !! f = Some x ∧ p ∈ ephemerals (atom_table (contents n)) x;
  fr_nodup f x t : fs !! f = Some x → NoDup (ephemerals t x);
  fr_member f x t p : fs !! f = Some x → p ∈ ephemerals t x →
    ∃ n, vs !! p = Some n ∧ atom_table (contents n) = t ∧ markedEphemeral n = true;
  fr_disjoint f g x y t p : fs !! f = Some x → fs !! g = Some y →
    p ∈ ephemerals t x → p ∈ ephemerals t y → f = g;
  fr_clean f x t : fs !! f = Some x → dirty x = false → ephemerals t x = [];
}.

(** ** The invariant *)

Record atoms_inv {H} (s : AtomEnv H) (C : TableId → Z → list ptr) : Prop := {
  ai_tables : tables_rep (nodes s) (heads s) C;
  ai_frames : frames_rep (view (nodes s)) (frames s);
  ai_current : is_Some (frames s !! CurrentGarbageFrame s);
}.

(** The node at [p] stands for [a]. *)
Definition interned {H} (s : AtomEnv H) (a : Atom) (p : ptr) : Prop :=
  contents <$> nodes s !! p = Some a.

Lemma interned_node {H} (s : AtomEnv H) a p :
  interned s a p ↔ ∃ n, nodes s !! p = Some n ∧ contents n = a.
Proof.
  unfold interned. destruct (nodes s !! p) as [n|]; simpl; [|naive_solver].
  split; [|naive_solver]. intros [= <-]. eauto.
Qed.

Section tables.
Context (ns : gmap ptr HashNode) (hs : gmap (TableId * Z) ptr) (C : TableId → Z → list ptr).
Hypothesis (Hrep : tables_rep ns hs C).

Lemma tables_bucket p n : view ns !! p = Some n → (0 <= bucket n < table_size (atom_table (contents n)))%Z.
Proof. intros Hp. rewrite (tr_hash _ _ _ Hrep p n Hp). apply atom_hash_bound. Qed.

Lemma tables_member p n : view ns !! p = Some n → p ∈ C (atom_table (contents n)) (bucket n).
Proof. intros Hp. apply (tr_member _ _ _ Hrep). eauto. Qed.

Lemma tables_fuel t i : (0 <= i < table_size t)%Z → length (C t i) < S (size ns).
Proof.
  intros Hi. pose proof (sseg_length _ _ _ _ (tr_nodup _ _ _ Hrep t i) (tr_chain _ _ _ Hrep t i Hi)). lia.
Qed.

(** An atom is found in the bucket of its hash value. *)
Lemma tables_at_hash a p n : view ns !! p = Some n → contents n = a → p ∈ C (atom_table a) (atom_hash a).
Proof. intros Hp <-. rewrite <- (tr_hash _ _ _ Hrep p n Hp). by apply tables_member. Qed.

(** A new node at the end of its bucket. *)
Definition appended (a : Atom) (p : ptr) : gmap (TableId * Z) ptr :=
  match C (atom_table a) (atom_hash a) with [] => <[(atom_table a, atom_hash a) := p]> hs | _ => hs end.

Definition C_app (a : Atom) (p : ptr) (t : TableId) (i : Z) : list ptr :=
  if decide ((t, i) = (atom_table a, atom_hash a)) then C t i ++ [p] else C t i.

Lemma tables_add p n :
  ns !! p = None → next n = None → atom_ok (contents n) → bucket n = atom_hash (contents n) →
  (is_nan_atom (contents n) = false → ∀ q m, view ns !! q = Some m → contents m ≠ contents n) →
  tables_rep (<[p := n]> (set_link (slast None (C (atom_table (contents n)) (atom_hash (contents n)))) (Some p) ns))
    (appended (contents n) p) (C_app (contents n) p).
Proof.
  intros Hp Hnext Hok Hb Huniq. set (a := contents n) in *.
  set (t := atom_table a) in *. set (i := atom_hash a) in *.
  assert (Hi : (0 <= i < table_size t)%Z) by apply atom_hash_bound.
  assert (Hlive : ∀ u j q, q ∈ C u j → is_Some (ns !! q)).
  { intros u j q (m & Hm & _)%(tr_member _ _ _ Hrep). apply view_lookup_inv in Hm as (m' & ? & _). eauto. }
  assert (Hpc : ∀ u j, p ∉ C u j).
  { intros u j Hin. destruct (Hlive _ _ _ Hin). congruence. }
  split.
  - intros u j Hj. unfold C_app, appended. fold t i.
    destruct (decide ((u, j) = (t, i))) as [[= -> ->]|Hne].
    + pose proof (sseg_snoc ns (hs !! (t, i)) (C t i) p n (tr_nodup _ _ _ Hrep t i) Hp Hnext (tr_chain _ _ _ Hrep t i Hi)) as Hs.
      destruct (C t i); [by rewrite lookup_insert_eq|done].
    + assert (Hh : match C t i with [] => <[(t, i) := p]> hs | _ => hs end !! (u, j) = hs !! (u, j)).
      { destruct (C t i); [|done]. by rewrite lookup_insert_ne. }
      rewrite Hh. eapply sseg_ext; [|exact (tr_chain _ _ _ Hrep u j Hj)].
      intros y Hy. rewrite lookup_insert_ne by (intros ->; by apply (Hpc u j)).
      destruct (slast None (C t i)) as [z|] eqn:Ez; [|done]. simpl.
      assert (Hz : z ∈ C t i).
      { unfold slast in Ez. destruct (last (C t i)) eqn:El; simplify_eq. apply last_Some in El as [l' ->]. set_solver. }
      rewrite lookup_alter_ne; [done|]. intros ->.
      apply (tr_member _ _ _ Hrep) in Hy as (m & Hm & Ht1 & Ht2).
      apply (tr_member _ _ _ Hrep) in Hz as (m' & Hm' & Ht3 & Ht4). naive_solver congruence.
  - intros u j. unfold C_app. destruct (decide _); [|apply (tr_nodup _ _ _ Hrep)].
    apply NoDup_app. split_and!; [apply (tr_nodup _ _ _ Hrep)| |apply NoDup_singleton].
    intros q Hq ->%list_elem_of_singleton. by apply (Hpc u j).
  - intros u j q. rewrite view_insert, view_set_link. unfold C_app. fold t i.
    destruct (decide (q = p)) as [->|Hq].
    + rewrite lookup_insert_eq. destruct (decide ((u, j) = (t, i))) as [[= -> ->]|Hne].
      * split; [|set_solver]. intros _. exists (set_next None n). simpl. fold a. by rewrite Hb.
      * split; [by intros ?%Hpc|]. intros (m & [= <-] & Hm1 & Hm2). simpl in *.
        subst u j. rewrite Hb in Hne. done.
    + rewrite lookup_insert_ne by done. rewrite <- (tr_member _ _ _ Hrep).
      destruct (decide _); [set_solver|done].
  - intros q m. rewrite view_insert, view_set_link. intros [[<- <-]|[Hq Hm]]%lookup_insert_Some; [done|].
    by eapply (tr_hash _ _ _ Hrep).
  - intros q m. rewrite view_insert, view_set_link. intros [[<- <-]|[Hq Hm]]%lookup_insert_Some; [done|].
    by eapply (tr_ok _ _ _ Hrep).
  - intros q r m m'. rewrite view_insert, view_set_link.
    intros [[<- <-]|[Hq Hm]]%lookup_insert_Some [[<- <-]|[Hr Hm']]%lookup_insert_Some Heq Hnan; simpl in *.
    + done.
    + exfalso. by eapply Huniq; eauto.
    + exfalso. eapply Huniq; [|exact Hm|exact Heq]. unfold a. by rewrite <- Heq.
    + by eapply (tr_unique _ _ _ Hrep).
Qed.
End tables.

Section table_updates.
Context (ns : gmap ptr HashNode) (hs : gmap (TableId * Z) ptr) (C : TableId → Z → list ptr).
Hypothesis (Hrep : tables_rep ns hs C).

(** The fields that the tables do not read. *)
Lemma tables_update p n n' :
  ns !! p = Some n → next n' = next n → bucket n' = bucket n → contents n' = contents n →
  tables_rep (<[p := n']> ns) hs C.
Proof.
  intros Hp Hnext Hb Hc. destruct Hrep as [Hch Hnd Hmem Hhash Hok Hun].
  pose proof (view_lookup _ _ _ Hp) as Hv.
  assert (Hold : ∀ q m, view (<[p := n']> ns) !! q = Some m →
    ∃ m', view ns !! q = Some m' ∧ contents m' = contents m ∧ bucket m' = bucket m).
  { intros q m. rewrite view_insert. intros [[<- <-]|[? ?]]%lookup_insert_Some; [|by eauto].
    exists (set_next None n). simpl. by rewrite Hb, Hc. }
  split; [| done | | | |].
  - intros t i Hi. eapply sseg_ext; [|exact (Hch t i Hi)]. intros q _.
    destruct (decide (p = q)) as [<-|]; [|by rewrite lookup_insert_ne].
    rewrite lookup_insert_eq, Hp. simpl. by rewrite Hnext.
  - intros t i q. rewrite Hmem. split.
    + intros (m & Hm & Ht & Hi). rewrite view_insert. destruct (decide (p = q)) as [<-|Hne].
      * exists (set_next None n'). rewrite lookup_insert_eq. simplify_eq. simpl. by rewrite Hb, Hc.
      * exists m. by rewrite lookup_insert_ne.
    + intros (m & Hm & Ht & Hi). destruct (Hold q m Hm) as (m' & ? & Heq & Hbm). exists m'.
      by rewrite Heq, Hbm.
  - intros q m Hm. destruct (Hold q m Hm) as (m' & Hm' & <- & <-). by eapply Hhash.
  - intros q m Hm. destruct (Hold q m Hm) as (m' & Hm' & <- & _). by eapply Hok.
  - intros q r m m' Hm Hm'. destruct (Hold q m Hm) as (k & Hk & <- & _), (Hold r m' Hm') as (k' & Hk' & <- & _).
    by eapply Hun.
Qed.

(** A node unlinked from its bucket and freed. *)
Definition C_del (x : ptr) (t : TableId) (i : Z) : list ptr := filter (.≠ x) (C t i).

Definition unlinked_heads (past : option ptr) (t : TableId) (i : Z) (v : option ptr) : gmap (TableId * Z) ptr :=
  match past with None => partial_alter (fun _ => v) (t, i) hs | Some _ => hs end.

Lemma filter_ne_id (l : list ptr) x : x ∉ l → filter (.≠ x) l = l.
Proof.
  induction l as [|y l IH]; intros Hx; [done|]. rewrite filter_cons_True by set_solver.
  f_equal. apply IH. set_solver.
Qed.
Lemma filter_ne_mid (l1 l2 : list ptr) x : NoDup (l1 ++ x :: l2) → filter (.≠ x) (l1 ++ x :: l2) = l1 ++ l2.
Proof.
  intros (_ & Hd & [Hx _]%NoDup_cons)%NoDup_app.
  rewrite filter_app, filter_cons_False by (intros ?; done).
  rewrite (filter_ne_id l2) by done. rewrite filter_ne_id; [done|].
  intros Hx1. apply (Hd _ Hx1). set_solver.
Qed.

Lemma slast_None_app (l1 : list ptr) : slast None l1 = None ↔ l1 = [].
Proof.
  destruct l1 as [|y l _] using rev_ind; [done|]. rewrite slast_snoc. split; [done|].
  intros [_ ?]%app_nil. done.
Qed.

Lemma tables_remove x n l1 l2 :
  ns !! x = Some n → C (atom_table (contents n)) (bucket n) = l1 ++ x :: l2 →
  tables_rep (delete x (set_link (slast None l1) (next n) ns))
    (unlinked_heads (slast None l1) (atom_table (contents n)) (bucket n) (next n)) (C_del x).
Proof.
  intros Hx HC. set (t := atom_table (contents n)) in *. set (i := bucket n) in *.
  destruct Hrep as [Hch Hnd Hmem Hhash Hok Hun].
  assert (Hv : view (delete x (set_link (slast None l1) (next n) ns)) = delete x (view ns)).
  { by rewrite view_delete, view_set_link. }
  pose proof (view_lookup _ _ _ Hx) as Hvx.
  assert (Hi : (0 <= i < table_size t)%Z) by exact (tables_bucket _ _ _ Hrep _ _ Hvx).
  assert (Hother : ∀ u j, (u, j) ≠ (t, i) → ∀ y, y ∈ C u j → y ∉ C t i).
  { intros u j Hne y (m & Hm & Ht & Hj)%Hmem (m' & Hm' & Ht' & Hj')%Hmem. naive_solver congruence. }
  assert (Hxt : ∀ u j, (u, j) ≠ (t, i) → x ∉ C u j).
  { intros u j Hne Hin. apply (Hother u j Hne x Hin). rewrite HC. set_solver. }
  split.
  - intros u j Hj. unfold C_del. destruct (decide ((u, j) = (t, i))) as [[= -> ->]|Hne].
    + pose proof (Hch t i Hi) as Hs. rewrite HC in Hs. pose proof (Hnd t i) as Hd. rewrite HC in Hd.
      pose proof (sseg_unlink _ _ _ _ _ _ _ Hd Hx Hs) as Hu. rewrite HC, filter_ne_mid by done.
      unfold unlinked_heads. destruct l1 as [|y l1]; simpl in *.
      * by rewrite lookup_partial_alter_eq.
      * destruct (slast None (y :: l1)) eqn:E; [done|]. by apply slast_None_app in E.
    + assert (Hh : unlinked_heads (slast None l1) t i (next n) !! (u, j) = hs !! (u, j)).
      { unfold unlinked_heads. destruct (slast None l1); [done|]. by rewrite lookup_partial_alter_ne. }
      rewrite Hh, filter_ne_id by by apply Hxt. eapply sseg_ext; [|exact (Hch u j Hj)].
      intros y Hy. rewrite lookup_delete_ne by (intros ->; by apply (Hxt u j)).
      destruct (slast None l1) as [z|] eqn:Ez; [|done]. simpl.
      assert (Hz : z ∈ C t i).
      { unfold slast in Ez. destruct (last l1) eqn:El; simplify_eq. apply last_Some in El as [l' ->].
        rewrite HC. set_solver. }
      rewrite lookup_alter_ne; [done|]. intros ->. by apply (Hother u j Hne y Hy).
  - intros u j. by apply NoDup_filter.
  - intros u j q. unfold C_del. rewrite list_elem_of_filter, Hmem, Hv. split.
    + intros (Hq & m & Hm & Ht & Hj). exists m. by rewrite lookup_delete_ne.
    + intros (m & [Hq Hm]%lookup_delete_Some & Ht & Hj). eauto.
  - intros q m. rewrite Hv. intros [_ Hm]%lookup_delete_Some. by eapply Hhash.
  - intros q m. rewrite Hv. intros [_ Hm]%lookup_delete_Some. by eapply Hok.
  - intros q r m m'. rewrite Hv. intros [_ Hm]%lookup_delete_Some [_ Hm']%lookup_delete_Some.
    by eapply Hun.
Qed.
End table_updates.

(** ** Updates of the frames *)

Definition listed (fs : gmap ptr garbageFrame) (p : ptr) : Prop :=
  ∃ f x t, fs !! f = Some x ∧ p ∈ ephemerals t x.

Section frame_updates.
Context (vs : gmap ptr HashNode) (fs : gmap ptr garbageFrame).
Hypothesis (Hrep : frames_rep vs fs).

Lemma frames_unlisted_fresh p : vs !! p = None → ¬ listed fs p.
Proof. intros Hp (f & x & t & Hf & Hin). destruct (fr_member _ _ Hrep _ _ _ _ Hf Hin) as (n & ? & _). congruence. Qed.
Lemma frames_unlisted p n : vs !! p = Some n → markedEphemeral n = false → ¬ listed fs p.
Proof.
  intros Hp Hm (f & x & t & Hf & Hin). destruct (fr_member _ _ Hrep _ _ _ _ Hf Hin) as (n' & ? & _ & ?). congruence.
Qed.

(** A node joins the list of the frame [f]. *)
Definition pushed (t : TableId) (p : ptr) (x : garbageFrame) : garbageFrame :=
  set_dirty true (set_ephemerals t (p :: ephemerals t x) x).

Lemma ephemerals_pushed u t p x :
  ephemerals u (pushed t p x) = if decide (t = u) then p :: ephemerals t x else ephemerals u x.
Proof. by destruct u, t. Qed.

Lemma frames_push p n f x :
  ¬ listed fs p → fs !! f = Some x → (0 <= count n)%Z → markedEphemeral n = true →
  frames_rep (<[p := n]> vs) (<[f := pushed (atom_table (contents n)) p x]> fs).
Proof.
  intros Hun Hf Hc Hm. set (t := atom_table (contents n)) in *.
  assert (Hin : ∀ g y u q, <[f := pushed t p x]> fs !! g = Some y → q ∈ ephemerals u y →
    (q = p ∧ u = t ∧ g = f) ∨ (q ≠ p ∧ ∃ z, fs !! g = Some z ∧ q ∈ ephemerals u z)).
  { assert (Hne : ∀ g z u q, fs !! g = Some z → q ∈ ephemerals u z → q ≠ p).
    { intros g z u q ? ? ->. apply Hun. by exists g, z, u. }
    intros g y u q [[<- <-]|[? Hg]]%lookup_insert_Some Hq; [|by right; eauto 10].
    rewrite ephemerals_pushed in Hq. destruct (decide (t = u)) as [<-|]; [|by right; eauto 10].
    apply elem_of_cons in Hq as [->|Hq]; [by left|right; eauto 10]. }
  destruct Hrep as [Hcount Hzero Hmark Hnd Hmem Hdis Hcl]. split.
  - intros q m [[<- <-]|[? ?]]%lookup_insert_Some; eauto.
  - intros q m [[<- <-]|[? ?]]%lookup_insert_Some; eauto.
  - intros q m [[<- <-]|[Hq Hm']]%lookup_insert_Some Hq'.
    + exists f, (pushed t p x). rewrite lookup_insert_eq, ephemerals_pushed. fold t.
      rewrite decide_True by done. split; [done|set_solver].
    + destruct (Hmark q m Hm' Hq') as (g & y & Hg & Hy). destruct (decide (g = f)) as [->|Hne].
      * exists f, (pushed t p x). rewrite lookup_insert_eq, ephemerals_pushed. simplify_eq.
        split; [done|]. destruct (decide _) as [Ht|]; [rewrite Ht|]; set_solver.
      * exists g, y. by rewrite lookup_insert_ne.
  - intros g y u Hg. apply lookup_insert_Some in Hg as [[<- <-]|[? Hg]]; [|by eapply Hnd].
    rewrite ephemerals_pushed. destruct (decide (t = u)) as [<-|]; [|by eapply Hnd].
    apply NoDup_cons. split; [|by eapply Hnd]. intros ?. apply Hun. by exists f, x, t.
  - intros g y u q Hg Hq. destruct (Hin g y u q Hg Hq) as [(-> & -> & ->)|(Hne & z & Hz & Hqz)].
    + exists n. by rewrite lookup_insert_eq.
    + rewrite lookup_insert_ne by done. by eapply Hmem.
  - intros g h y z u q Hg Hh Hy Hz.
    pose proof (Hin g y u q Hg Hy) as H1. pose proof (Hin h z u q Hh Hz) as H2.
    destruct H1 as [(? & ? & ->)|(Hne & y' & Hy' & Hqy)], H2 as [(? & ? & ->)|(Hne' & z' & Hz' & Hqz)]; try done.
    by eapply Hdis.
  - intros g y u [[<- <-]|[? Hg]]%lookup_insert_Some; [done|]. by eapply Hcl.
Qed.

(** A count changes, the mark stays. *)
Lemma frames_count p n n' :
  vs !! p = Some n → contents n' = contents n → markedEphemeral n' = markedEphemeral n →
  (0 <= count n')%Z → (count n' = 0%Z → markedEphemeral n' = true) →
  frames_rep (<[p := n']> vs) fs.
Proof.
  intros Hp Hc Hm Hpos Hz. destruct Hrep as [Hcount Hzero Hmark Hnd Hmem Hdis Hcl]. split; try done.
  - intros q m [[<- <-]|[? ?]]%lookup_insert_Some; eauto.
  - intros q m [[<- <-]|[? ?]]%lookup_insert_Some; eauto.
  - intros q m [[<- <-]|[? ?]]%lookup_insert_Some Hq; [|by eauto]. rewrite Hc. apply (Hmark p n); [done|congruence].
  - intros g y u q Hg Hq. destruct (Hmem g y u q Hg Hq) as (m & Hm' & Ht & Hmk).
    destruct (decide (p = q)) as [<-|Hne]; [|exists m; by rewrite lookup_insert_ne].
    exists n'. rewrite lookup_insert_eq. simplify_eq. split; [done|]. rewrite Hc. split; [done|congruence].
Qed.

(** The first node of a list leaves it: freed, or kept without its mark. *)
Lemma frames_pop_list f x t p rest :
  fs !! f = Some x → ephemerals t x = p :: rest →
  ∀ g y u q, <[f := set_ephemerals t rest x]> fs !! g = Some y → q ∈ ephemerals u y →
  q ≠ p ∧ ∃ z, fs !! g = Some z ∧ q ∈ ephemerals u z.
Proof.
  intros Hf Hx g y u q Hg Hq.
  assert (Hpt : ∃ n, vs !! p = Some n ∧ atom_table (contents n) = t).
  { destruct (fr_member _ _ Hrep f x t p Hf) as (n & ? & ? & _); [rewrite Hx; set_solver|eauto]. }
  destruct Hpt as (n & Hp & Ht).
  assert (Hqz : ∃ z, fs !! g = Some z ∧ q ∈ ephemerals u z).
  { apply lookup_insert_Some in Hg as [[<- <-]|[? ?]]; [|eauto].
    exists x. split; [done|]. rewrite ephemerals_set in Hq. destruct (decide _) as [<-|]; [|done]. rewrite Hx. set_solver. }
  split; [|done]. intros ->. destruct Hqz as (z & Hz & Hin).
  destruct (fr_member _ _ Hrep _ _ _ _ Hz Hin) as (m & Hm & Hu & _). simplify_eq.
  assert (g = f) as ->.
  { apply (fr_disjoint _ _ Hrep g f z x _ p Hz Hf Hin). rewrite Hx. set_solver. }
  rewrite lookup_insert_eq in Hg. simplify_eq. rewrite ephemerals_set_eq in Hq.
  pose proof (fr_nodup _ _ Hrep _ _ (atom_table (contents n)) Hf) as Hnd. rewrite Hx in Hnd.
  by apply NoDup_cons in Hnd as [? _].
Qed.

Lemma frames_pop f x t p rest (vs' : gmap ptr HashNode) :
  fs !! f = Some x → ephemerals t x = p :: rest →
  (∀ q, q ≠ p → vs' !! q = vs !! q) →
  (∀ n, vs' !! p = Some n → (0 < count n)%Z ∧ markedEphemeral n = false) →
  frames_rep vs' (<[f := set_ephemerals t rest x]> fs).
Proof.
  intros Hf Hx Hsame Hp. pose proof (frames_pop_list f x t p rest Hf Hx) as Hin.
  destruct Hrep as [Hcount Hzero Hmark Hnd Hmem Hdis Hcl].
  assert (Hcase : ∀ q m, vs' !! q = Some m → (q = p ∧ (0 < count m)%Z ∧ markedEphemeral m = false) ∨ (q ≠ p ∧ vs !! q = Some m)).
  { intros q m Hq. destruct (decide (q = p)) as [->|]; [left; by split; [|apply Hp]|right]. by rewrite <- Hsame. }
  split.
  - intros q m [(-> & ? & _)|[? ?]]%Hcase; [lia|eauto].
  - intros q m [(-> & ? & _)|[? ?]]%Hcase; [lia|eauto].
  - intros q m [(-> & _ & ?)|[Hne Hq]]%Hcase Hmk; [congruence|].
    destruct (Hmark q m Hq Hmk) as (g & y & Hg & Hy). destruct (decide (g = f)) as [->|].
    + exists f, (set_ephemerals t rest x). rewrite lookup_insert_eq, ephemerals_set. simplify_eq.
      split; [done|]. destruct (decide _) as [Ht|]; [|done]. rewrite <- Ht, Hx in Hy. set_solver.
    + exists g, y. by rewrite lookup_insert_ne.
  - intros g y u [[<- <-]|[? ?]]%lookup_insert_Some; [|eauto]. rewrite ephemerals_set.
    destruct (decide _) as [<-|]; [|eauto]. pose proof (Hnd _ _ t Hf) as Hd. rewrite Hx in Hd.
    by apply NoDup_cons in Hd as [_ ?].
  - intros g y u q Hg Hq. destruct (Hin g y u q Hg Hq) as (Hne & z & Hz & Hqz).
    rewrite Hsame by done. by eapply Hmem.
  - intros g h y z u q Hg Hh Hy Hz. destruct (Hin g y u q Hg Hy) as (_ & y' & ? & ?), (Hin h z u q Hh Hz) as (_ & z' & ? & ?).
    by eapply Hdis.
  - intros g y u [[<- <-]|[? ?]]%lookup_insert_Some Hd; [|eauto]. rewrite ephemerals_set.
    pose proof (Hcl _ _ t Hf Hd). destruct (decide _) as [<-|]; [congruence|eauto].
Qed.
End frame_updates.

(** * Interning and reference counts

    The creating functions return the node of their contents, the one in the
    table or a new one; retaining and releasing change one count. *)

Section proofs.
Context {H : Type}.
Implicit Types (s : AtomEnv H) (C : TableId → Z → list ptr).

(** ** Steps *)

Lemma node_Some s p n : nodes s !! p = Some n → node p s = Returned n s.
Proof. unfold node, mbind, P_bind, getsP, someP. by intros ->. Qed.
Lemma update_node_Some s p n g :
  nodes s !! p = Some n → update_node p g s = Returned tt (put_nodes (<[p := g n]> (nodes s)) s).
Proof. intros Hp. unfold update_node. by prun (node_Some _ _ _ Hp). Qed.
Lemma frame_Some s f x : frames s !! f = Some x → frame f s = Returned x s.
Proof. unfold frame, mbind, P_bind, getsP, someP. by intros ->. Qed.
Lemma update_frame_Some s f x g :
  frames s !! f = Some x → update_frame f g s = Returned tt (put_frames (<[f := g x]> (frames s)) s).
Proof. intros Hp. unfold update_frame. by prun (frame_Some _ _ _ Hp). Qed.

Lemma bucket_head_Some s t i :
  (0 <= i < table_size t)%Z → bucket_head t i s = Returned (heads s !! (t, i)) s.
Proof. intros Hi. unfold bucket_head. rewrite (proj2 (Z.leb_le _ _)), (proj2 (Z.ltb_lt _ _)) by lia. done. Qed.
Lemma set_bucket_head_Some s t i v :
  (0 <= i < table_size t)%Z →
  set_bucket_head t i v s = Returned tt (put_heads (partial_alter (fun _ => v) (t, i) (heads s)) s).
Proof. intros Hi. unfold set_bucket_head. rewrite (proj2 (Z.leb_le _ _)), (proj2 (Z.ltb_lt _ _)) by lia. done. Qed.

(** A node that is on no list joins the list of the current frame. *)
Lemma add_to_current_frame_Some s p n x t b :
  nodes s !! p = Some n → frames s !! CurrentGarbageFrame s = Some x → (b = true → count n = 0%Z) →
  add_to_current_frame p t b s =
  Returned tt (put_frames (<[CurrentGarbageFrame s := pushed t p x]> (frames s))
    (put_nodes (<[p := set_marked true n]> (nodes s)) s)).
Proof.
  intros Hp Hx Hb. unfold add_to_current_frame, AddEphemeralHashNode. unfold getsP at 1. simpl.
  unfold mbind at 1, P_bind at 1, mbind at 1, P_bind at 1.
  rewrite (P_bind_Returned _ _ _ _ _ (node_Some _ _ _ Hp)).
  assert (Hc : b && negb (count n =? 0)%Z = false) by (destruct b; [by rewrite Hb|done]).
  rewrite Hc, (P_bind_Returned _ _ _ _ _ (update_node_Some _ _ _ _ Hp)).
  erewrite update_frame_Some by exact Hx.
  erewrite update_frame_Some by (simpl; apply lookup_insert_eq).
  unfold put_frames, put_garbage. simpl. by rewrite insert_insert_eq.
Qed.

(** ** Creation *)

(** The state after [a] got a new node, in the frame [x]. *)
Definition added s C (a : Atom) (x : garbageFrame) : AtomEnv H :=
  let t := atom_table a in
  let p := fresh_ptr (nodes s) in
  put_frames (<[CurrentGarbageFrame s := pushed t p x]> (frames s))
    (put_tables
      (<[p := mkHashNode None 0 false true None (atom_hash a) a]>
        (set_link (slast None (C t (atom_hash a))) (Some p) (nodes s)))
      (appended (heads s) C a p) s).

Definition new_atom_node (a : Atom) : HashNode := mkHashNode None 0 false true None (atom_hash a) a.

Lemma added_view s C a x : view (nodes (added s C a x)) = <[fresh_ptr (nodes s) := new_atom_node a]> (view (nodes s)).
Proof. unfold added. simpl. by rewrite view_insert, view_set_link. Qed.

Lemma fresh_view s : view (nodes s) !! fresh_ptr (nodes s) = None.
Proof. apply (proj1 (view_None _ _)), fresh_ptr_None. Qed.

Lemma added_inv s C a x :
  atoms_inv s C → frames s !! CurrentGarbageFrame s = Some x → atom_ok a →
  (is_nan_atom a = false → ∀ p, ¬ interned s a p) →
  atoms_inv (added s C a x) (C_app C a (fresh_ptr (nodes s))).
Proof.
  intros [Ht Hf Hc] Hx Hok Hnew. split.
  - apply (tables_add _ _ _ Ht _ (new_atom_node a)); [apply fresh_ptr_None|done..|].
    intros Hnan q m (n & Hn & ->)%view_lookup_inv Heq. apply (Hnew Hnan q), interned_node. eauto.
  - rewrite added_view. apply (frames_push _ _ Hf _ (new_atom_node a)); try done.
    apply (frames_unlisted_fresh _ _ Hf), fresh_view.
  - simpl. by rewrite lookup_insert_eq.
Qed.

Lemma interned_view s a p : interned s a p ↔ contents <$> view (nodes s) !! p = Some a.
Proof. unfold interned, view. rewrite lookup_fmap. by destruct (nodes s !! p). Qed.

Lemma added_interned s C a x q b :
  interned (added s C a x) b q ↔ (q = fresh_ptr (nodes s) ∧ b = a) ∨ interned s b q.
Proof.
  rewrite !interned_view, added_view. destruct (decide (q = fresh_ptr (nodes s))) as [->|Hne].
  - rewrite lookup_insert_eq, fresh_view. simpl. naive_solver.
  - rewrite lookup_insert_ne by done. naive_solver.
Qed.

(** [test] picks out the node of [a] in the bucket of [a]. *)
Definition picks (test : HashNode → bool) (a : Atom) : Prop :=
  ∀ n, atom_table (contents n) = atom_table a → atom_ok (contents n) →
    atom_hash (contents n) = atom_hash a →
    test n = bool_decide (contents n = a) && negb (is_nan_atom a).

Lemma search_bucket_picks s C a test :
  atoms_inv s C → picks test a →
  (∃ past p, interned s a p ∧ is_nan_atom a = false ∧
    search_bucket (atom_table a) (atom_hash a) test s = Returned (past, Some p) s) ∨
  ((is_nan_atom a = false → ∀ p, ¬ interned s a p) ∧
    search_bucket (atom_table a) (atom_hash a) test s =
      Returned (slast None (C (atom_table a) (atom_hash a)), None) s).
Proof.
  intros [Ht _ _] Hpick. set (t := atom_table a). set (i := atom_hash a).
  assert (Hi : (0 <= i < table_size t)%Z) by apply atom_hash_bound.
  assert (Hstep : ∀ r, search (S (size (nodes s))) (nodes s) test None (heads s !! (t, i)) = Some r →
    search_bucket t i test s = Returned r s).
  { intros r Hr. unfold search_bucket. prun (bucket_head_Some s t i Hi).
    unfold mbind, P_bind, getsP, someP. by rewrite Hr. }
  assert (Hval : ∀ y b, y ∈ C t i → nodes s !! y = Some b → test b = bool_decide (contents b = a) && negb (is_nan_atom a)).
  { intros y b (n & Hn & Htn & Hin)%(tr_member _ _ _ Ht) Hb. pose proof (view_lookup _ _ _ Hb) as Hv.
    rewrite Hv in Hn. injection Hn as <-. apply Hpick; [exact Htn|exact (tr_ok _ _ _ Ht _ _ Hv)|].
    change (atom_hash (contents (set_next None b)) = atom_hash a). by rewrite <- (tr_hash _ _ _ Ht _ _ Hv). }
  destruct (search_cases _ _ test _ _ (tr_chain _ _ _ Ht t i Hi) (tables_fuel _ _ _ Ht t i Hi))
    as [(l1 & x & l2 & n & HC & Hx & Htest & _ & Hr)|[Hall Hr]].
  - left. rewrite (Hval x n) in Htest by (done || (rewrite HC; set_solver)).
    apply andb_true_iff in Htest as [Heq%bool_decide_eq_true Hnan%negb_true_iff].
    exists (slast None l1), x. split_and!; [|done|by apply Hstep]. apply interned_node. eauto.
  - right. split; [|by apply Hstep]. intros Hnan p (n & Hn & Hc)%interned_node.
    assert (Hp : p ∈ C t i) by exact (tables_at_hash _ _ _ Ht a p _ (view_lookup _ _ _ Hn) Hc).
    specialize (Hall p n Hp Hn). rewrite (Hval p n Hp Hn), bool_decide_eq_true_2, Hnan in Hall; done.
Qed.

Lemma tables_live ns hs C t i p : tables_rep ns hs C → p ∈ C t i → ∃ n, ns !! p = Some n.
Proof. intros Ht (n & Hn & _)%(tr_member _ _ _ Ht). apply view_lookup_inv in Hn as (n' & ? & _). eauto. Qed.

(** The link to the new node, and its record. *)
Lemma add_node_link s C a :
  atoms_inv s C →
  (match slast None (C (atom_table a) (atom_hash a)) with
   | None => set_bucket_head (atom_table a) (atom_hash a) (Some (fresh_ptr (nodes s)))
   | Some q => update_node q (set_next (Some (fresh_ptr (nodes s))))
   end) s =
  Returned tt (put_tables
    (set_link (slast None (C (atom_table a) (atom_hash a))) (Some (fresh_ptr (nodes s))) (nodes s))
    (appended (heads s) C a (fresh_ptr (nodes s))) s).
Proof.
  intros [Ht _ _]. unfold appended. pose proof (atom_hash_bound a) as Hi.
  assert (Hlive : ∀ y, y ∈ C (atom_table a) (atom_hash a) → ∃ n, nodes s !! y = Some n).
  { intros y. by apply (tables_live _ _ _ _ _ _ Ht). }
  destruct (C (atom_table a) (atom_hash a)) as [|y l _] eqn:E using rev_ind.
  - simpl. by rewrite (set_bucket_head_Some s _ _ _ Hi).
  - rewrite slast_snoc. destruct (Hlive y) as [n Hn]; [set_solver|].
    rewrite (update_node_Some _ _ _ _ Hn). unfold put_nodes. simpl.
    rewrite (alter_as_insert _ _ _ _ Hn). by destruct l.
Qed.

Lemma add_node_Some s C a x :
  atoms_inv s C → frames s !! CurrentGarbageFrame s = Some x →
  add_node (atom_table a) (atom_hash a) (slast None (C (atom_table a) (atom_hash a))) a s =
  Returned (fresh_ptr (nodes s)) (added s C a x).
Proof.
  intros Hinv Hx. unfold add_node, getsP. unfold mbind at 1, P_bind at 1.
  rewrite (P_bind_Returned _ _ _ _ _ (add_node_link s C a Hinv)). cbn beta.
  unfold modifyP. unfold mbind at 1, P_bind at 1. cbn iota beta.
  erewrite P_bind_Returned by (eapply add_to_current_frame_Some; [simpl; apply lookup_insert_eq|exact Hx|done]).
  unfold mret, P_ret, added, put_frames, put_garbage, put_nodes, put_tables. simpl.
  by rewrite insert_insert_eq.
Qed.

(** What every creating function does: the node of its contents, or a new one. *)
Definition creates (a : Atom) (create : P (AtomEnv H) ptr) s C : Prop :=
  (∃ p, interned s a p ∧ is_nan_atom a = false ∧ create s = Returned p s) ∨
  ((is_nan_atom a = false → ∀ p, ¬ interned s a p) ∧
   ∃ x, frames s !! CurrentGarbageFrame s = Some x ∧
     create s = Returned (fresh_ptr (nodes s)) (added s C a x) ∧
     atoms_inv (added s C a x) (C_app C a (fresh_ptr (nodes s)))).

Lemma search_or_add s C a test :
  atoms_inv s C → atom_ok a → picks test a →
  creates a (r ← search_bucket (atom_table a) (atom_hash a) test;
    match r with
    | (_, Some peek) => mret peek
    | (past, None) => add_node (atom_table a) (atom_hash a) past a
    end) s C.
Proof.
  intros Hinv Hok Hpick. destruct (search_bucket_picks s C a test Hinv Hpick) as [(past & p & Hp & Hn & Hr)|[Hnew Hr]].
  - left. exists p. split; [done|]. split; [done|]. by prun Hr.
  - right. split; [done|]. destruct (ai_current _ _ Hinv) as [x Hx]. exists x. split; [done|].
    split; [|by apply added_inv]. prun Hr. by apply add_node_Some.
Qed.

Lemma picks_lexeme type str : picks (fun peek =>
  match contents peek with
  | ALexeme type' chars => (type' =? type)%Z && String.eqb str chars
  | _ => false end) (ALexeme type str).
Proof.
  intros n Ht _ _. destruct (contents n) as [type' chars| | | |]; try done. simpl. rewrite andb_true_r.
  apply eq_true_iff_eq. rewrite andb_true_iff, Z.eqb_eq, String.eqb_eq, bool_decide_eq_true. naive_solver.
Qed.

Lemma picks_float w : is_word w → picks (fun peek =>
  match contents peek with AFloat w' => double_eq w w' | _ => false end) (AFloat w).
Proof.
  intros Hw n Ht Hok Hh. destruct (contents n) as [|w'| | |]; try done.
  change (is_word w') in Hok. change (HashFloat w' 8191 = HashFloat w 8191) in Hh.
  cbn [is_nan_atom]. apply eq_true_iff_eq. rewrite andb_true_iff, bool_decide_eq_true, negb_true_iff. split.
  - intros Heq. assert (w' = w) as ->.
    { destruct (double_eq_true _ _ Hw Hok Heq) as [|[H1 H2]]; [done|].
      exact (HashFloat_zeros w' w H2 H1 Hh). }
    split; [done|]. rewrite double_eq_refl in Heq. by apply negb_true_iff.
  - intros [[= ->] Hn]. by rewrite double_eq_refl, Hn.
Qed.

Lemma picks_integer z : picks (fun peek =>
  match contents peek with AInteger z' => (z =? z')%Z | _ => false end) (AInteger z).
Proof.
  intros n Ht _ _. destruct (contents n); try done. simpl. rewrite andb_true_r.
  apply eq_true_iff_eq. rewrite Z.eqb_eq, bool_decide_eq_true. naive_solver.
Qed.

Lemma picks_bitmap l : picks (fun peek =>
  match contents peek with
  | ABitMap bytes => (length bytes =? length l)%nat && bool_decide (bytes = l)
  | _ => false end) (ABitMap l).
Proof.
  intros n Ht _ _. destruct (contents n); try done. simpl. rewrite andb_true_r.
  apply eq_true_iff_eq. rewrite andb_true_iff, Nat.eqb_eq, !bool_decide_eq_true. naive_solver.
Qed.

Lemma picks_external p type : picks (fun peek =>
  match contents peek with
  | AExternalAddress a type' => (type' =? type)%Z && (a =? p)%Z
  | _ => false end) (AExternalAddress p type).
Proof.
  intros n Ht _ _. destruct (contents n); try done. simpl. rewrite andb_true_r.
  apply eq_true_iff_eq. rewrite andb_true_iff, !Z.eqb_eq, bool_decide_eq_true. naive_solver.
Qed.

Lemma AddSymbol_creates s C str type :
  atoms_inv s C → is_lexeme_type type → creates (ALexeme type str) (AddSymbol (Some str) type) s C.
Proof. intros Hinv Hty. exact (search_or_add s C (ALexeme type str) _ Hinv Hty (picks_lexeme type str)). Qed.
Lemma CreateFloat_creates s C w : atoms_inv s C → is_word w → creates (AFloat w) (CreateFloat w) s C.
Proof. intros Hinv Hw. exact (search_or_add s C (AFloat w) _ Hinv Hw (picks_float w Hw)). Qed.
Lemma CreateInteger_creates s C z :
  atoms_inv s C → (LLONG_MIN < z <= LLONG_MAX)%Z → creates (AInteger z) (CreateInteger z) s C.
Proof.
  intros Hinv Hz. pose proof (search_or_add s C (AInteger z) _ Hinv Hz (picks_integer z)) as Hc.
  unfold creates, CreateInteger in *. rewrite HashInteger_Some by done. exact Hc.
Qed.
Lemma AddBitMap_creates s C l : atoms_inv s C → creates (ABitMap l) (AddBitMap (Some l)) s C.
Proof. intros Hinv. exact (search_or_add s C (ABitMap l) _ Hinv I (picks_bitmap l)). Qed.
Lemma CreateExternalAddress_creates s C p type :
  atoms_inv s C → creates (AExternalAddress p type) (CreateExternalAddress p type) s C.
Proof. intros Hinv. exact (search_or_add s C (AExternalAddress p type) _ Hinv I (picks_external p type)). Qed.
End proofs.
