(* ===== verification/Garbage.v ===== *)
(** * Garbage frames and multifields

    [evaluatn.c]: retaining and releasing values; [multifld.c]: the creation of
    multifields, their counts and their disposal; [utility.c]: the frames of
    the garbage collector. *)
From S2P Require Import Prelude Values Router Process Hash SList AtomState Atoms.

(** ** What the collector calls of other components *)

(** The counts of facts and instances, the disposal of the garbage facts and
    instances of the current frame, and the registered cleanup functions. *)
Class GarbageHost (H : Type) := {
  RetainFact : option ptr → P (AtomEnv H) unit;
  ReleaseFact : option ptr → P (AtomEnv H) unit;
  RetainInstance : option ptr → P (AtomEnv H) unit;
  ReleaseInstance : option ptr → P (AtomEnv H) unit;
  RemoveGarbageFacts : P (AtomEnv H) unit;
  CleanupInstances : P (AtomEnv H) unit;
  call_cleanup_function : ptr → P (AtomEnv H) unit;
}.

Section garbage.
Context {H : Type} `{!GarbageHost H}.
Notation P := (P (AtomEnv H)).

(** [unsigned] arithmetic. *)
Definition uint (z : Z) : Z := (z mod 2 ^ 32)%Z.

(** ** Retaining *)

Definition lexeme_type (type : Z) : bool :=
  (type =? SYMBOL_TYPE)%Z || (type =? STRING_TYPE)%Z || (type =? INSTANCE_NAME_TYPE)%Z.

(** The cases of the hash nodes, in the order of the switch; [other] is its default. *)
Definition retain_node (p : ptr) (other : P unit) : P unit :=
  n ← node p;
  let type := atom_type (contents n) in
  if lexeme_type type then RetainLexeme p
  else if (type =? FLOAT_TYPE)%Z then RetainFloat p
  else if (type =? INTEGER_TYPE)%Z then RetainInteger p
  else if (type =? EXTERNAL_ADDRESS_TYPE)%Z then RetainExternalAddress p
  else other.
Definition release_node (p : ptr) (other : P unit) : P unit :=
  n ← node p;
  let type := atom_type (contents n) in
  if lexeme_type type then ReleaseLexeme p
  else if (type =? FLOAT_TYPE)%Z then ReleaseFloat p
  else if (type =? INTEGER_TYPE)%Z then ReleaseInteger p
  else if (type =? EXTERNAL_ADDRESS_TYPE)%Z then ReleaseExternalAddress p
  else other.

(** The bodies of the functions on a segment: its count, then each field. *)
Definition retain_segment (retain : object → P unit) (theSegment : option ptr) : P unit :=
  match theSegment with
  | None => mret tt
  | Some m =>
      x ← multifield m;
      _ ← update_multifield m (fun x => set_busyCount (uint (busyCount x + 1)) x);
      forM (mf_contents x) retain
  end.
Definition release_segment (release : object → P unit) (theSegment : option ptr) : P unit :=
  match theSegment with
  | None => mret tt
  | Some m =>
      x ← multifield m;
      _ ← update_multifield m (fun x => set_busyCount (uint (busyCount x - 1)) x);
      forM (mf_contents x) release
  end.

(** [AtomInstall] on a value and its type.  The default case looks the type up
    among the primitives: facts and instances have counters, bitmaps no entry.
    [depth] bounds the nesting of multifields. *)
Fixpoint AtomInstall (depth : nat) (vPtr : object) : P unit :=
  match vPtr with
  | ONode p => retain_node p (mret tt)
  | OMultifield m =>
      match depth with O => someP None | S depth' => retain_segment (AtomInstall depth') m end
  | OVoid => mret tt
  | OFact f => RetainFact f
  | OInstance i => RetainInstance i
  end.
Fixpoint AtomDeinstall (depth : nat) (vPtr : object) : P unit :=
  match vPtr with
  | ONode p => release_node p (mret tt)
  | OMultifield m =>
      match depth with O => someP None | S depth' => release_segment (AtomDeinstall depth') m end
  | OVoid => mret tt
  | OFact f => ReleaseFact f
  | OInstance i => ReleaseInstance i
  end.

(** The fields of a multifield are no multifields; those of a fact may be. *)
Definition max_depth : nat := 2.
Definition RetainMultifield (theSegment : option ptr) : P unit := retain_segment (AtomInstall max_depth) theSegment.
Definition ReleaseMultifield (theSegment : option ptr) : P unit := release_segment (AtomDeinstall max_depth) theSegment.

Definition Retain (th : object) : P unit :=
  match th with
  | ONode p => retain_node p (system_failure "EVALUATN" 7)
  | OMultifield m => RetainMultifield m
  | OInstance i => RetainInstance i
  | OFact f => RetainFact f
  | OVoid => mret tt
  end.
Definition Release (th : object) : P unit :=
  match th with
  | ONode p => release_node p (system_failure "EVALUATN" 8)
  | OMultifield m => ReleaseMultifield m
  | OInstance i => ReleaseInstance i
  | OFact f => ReleaseFact f
  | OVoid => mret tt
  end.

Definition IncrementCLIPSValueMultifieldReferenceCount (theSegment : option ptr) : P unit := retain_segment Retain theSegment.
Definition DecrementCLIPSValueMultifieldReferenceCount (theSegment : option ptr) : P unit := release_segment Release theSegment.

(** On the [value] of a [UDFValue] or [CLIPSValue]. *)
Definition RetainUDFV (vPtr : object) : P unit :=
  match vPtr with OMultifield m => IncrementCLIPSValueMultifieldReferenceCount m | _ => Retain vPtr end.
Definition ReleaseUDFV (vPtr : object) : P unit :=
  match vPtr with OMultifield m => DecrementCLIPSValueMultifieldReferenceCount m | _ => Release vPtr end.
Definition RetainCV (vPtr : object) : P unit :=
  match vPtr with OMultifield m => IncrementCLIPSValueMultifieldReferenceCount m | _ => Retain vPtr end.
Definition ReleaseCV (vPtr : object) : P unit :=
  match vPtr with OMultifield m => DecrementCLIPSValueMultifieldReferenceCount m | _ => Release vPtr end.

(** ** Creation of multifields *)

(** With the fields its caller stores. *)
Definition CreateUnmanagedMultifield (fields : list object) : P ptr :=
  m ← getsP (fun s => fresh_ptr (multifields s));
  _ ← modifyP (fun s => put_multifields (<[m := mkMultifield 0 None fields]> (multifields s)) s);
  mret m.

Definition AddToMultifieldList (theSegment : ptr) : P unit :=
  f ← getsP CurrentGarbageFrame;
  x ← frame f;
  _ ← update_multifield theSegment (set_mf_next (ListOfMultifields x));
  _ ← update_frame f (set_ListOfMultifields (Some theSegment));
  _ ← update_frame f (set_dirty true);
  match LastMultifield x with
  | None => update_frame f (set_LastMultifield (Some theSegment))
  | Some _ => mret tt
  end.

Definition CreateMultifield (fields : list object) : P ptr :=
  theSegment ← CreateUnmanagedMultifield fields;
  _ ← AddToMultifieldList theSegment;
  mret theSegment.

Definition CopyMultifield (src : ptr) : P ptr :=
  x ← multifield src;
  CreateUnmanagedMultifield (mf_contents x).

(** ** Ephemeral values *)

(** A node joins the current frame unless it is marked; fields of multifields
    in turn, to the same depth as above. *)
Definition ephemerate_node (p : ptr) : P unit :=
  n ← node p;
  let type := atom_type (contents n) in
  let add t := if markedEphemeral n then mret tt else add_to_current_frame p t false in
  if lexeme_type type then add SymbolTable
  else if (type =? FLOAT_TYPE)%Z then add FloatTable
  else if (type =? INTEGER_TYPE)%Z then add IntegerTable
  else if (type =? EXTERNAL_ADDRESS_TYPE)%Z then add ExternalAddressTable
  else mret tt.

Fixpoint EphemerateValue (depth : nat) (theValue : object) : P unit :=
  match theValue with
  | ONode p => ephemerate_node p
  | OMultifield (Some m) =>
      match depth with
      | O => someP None
      | S depth' => x ← multifield m; forM (mf_contents x) (EphemerateValue depth')
      end
  | _ => mret tt
  end.
Definition EphemerateMultifield (theSegment : option ptr) : P unit := EphemerateValue max_depth (OMultifield theSegment).

(** ** Garbage frames *)

(** The loop of [FlushMultifields] from [theSegment], after [lastPtr]. *)
Fixpoint flush_loop (fuel : nat) (f : ptr) (lastPtr theSegment : option ptr) : P unit :=
  match theSegment with
  | None => mret tt
  | Some m =>
      match fuel with
      | O => someP None
      | S fuel' =>
          x ← multifield m;
          let nextPtr := mf_next x in
          if (busyCount x =? 0)%Z then
            _ ← modifyP (fun s => put_multifields (delete m (multifields s)) s);
            _ ← match lastPtr with
                | None => update_frame f (set_ListOfMultifields nextPtr)
                | Some l => update_multifield l (set_mf_next nextPtr)
                end;
            _ ← match nextPtr with
                | None => update_frame f (set_LastMultifield lastPtr)
                | Some _ => mret tt
                end;
            flush_loop fuel' f lastPtr nextPtr
          else flush_loop fuel' f (Some m) nextPtr
      end
  end.

Definition FlushMultifields : P unit :=
  f ← getsP CurrentGarbageFrame;
  x ← frame f;
  fuel ← getsP (fun s => size (multifields s));
  flush_loop fuel f None (ListOfMultifields x).

Definition CallCleanupFunctions : P unit :=
  functions ← getsP ListOfCleanupFunctions;
  forM functions call_cleanup_function.

Definition optM {A} (o : option A) (f : A → P unit) : P unit :=
  match o with Some a => f a | None => mret tt end.

(** The steps of a collection. *)
Definition collect_garbage : P unit :=
  _ ← RemoveGarbageFacts;
  _ ← CleanupInstances;
  _ ← CallCleanupFunctions;
  _ ← RemoveEphemeralAtoms;
  FlushMultifields.

Definition frame_empty (x : garbageFrame) : bool :=
  bool_decide (ephemeralFloatList x = []) && bool_decide (ephemeralIntegerList x = []) &&
  bool_decide (ephemeralSymbolList x = []) && bool_decide (ephemeralBitMapList x = []) &&
  bool_decide (ephemeralExternalAddressList x = []) &&
  bool_decide (last (GarbageFacts x) = None) && bool_decide (last (GarbageInstances x) = None) &&
  bool_decide (LastMultifield x = None).

Definition CleanCurrentGarbageFrame (returnValue : option object) : P unit :=
  f ← getsP CurrentGarbageFrame;
  currentGarbageFrame ← frame f;
  if negb (dirty currentGarbageFrame) then mret tt
  else
    _ ← optM returnValue RetainUDFV;
    _ ← collect_garbage;
    _ ← optM returnValue ReleaseUDFV;
    currentGarbageFrame ← frame f;
    if frame_empty currentGarbageFrame then update_frame f (set_dirty false) else mret tt.

(** The lists of the new frame go behind those of the old one. *)
Definition merge_multifields (newGarbageFrame oldGarbageFrame : ptr) : P unit :=
  new ← frame newGarbageFrame;
  match ListOfMultifields new with
  | None => mret tt
  | Some _ =>
      old ← frame oldGarbageFrame;
      _ ← match ListOfMultifields old with
          | None => update_frame oldGarbageFrame (set_ListOfMultifields (ListOfMultifields new))
          | Some _ =>
              l ← someP (LastMultifield old);
              update_multifield l (set_mf_next (ListOfMultifields new))
          end;
      _ ← update_frame oldGarbageFrame (set_LastMultifield (LastMultifield new));
      update_frame oldGarbageFrame (set_dirty true)
  end.
Definition merge_facts (newGarbageFrame oldGarbageFrame : ptr) : P unit :=
  new ← frame newGarbageFrame;
  match GarbageFacts new with
  | [] => mret tt
  | facts =>
      _ ← update_frame oldGarbageFrame (fun old => set_GarbageFacts (GarbageFacts old ++ facts) old);
      update_frame oldGarbageFrame (set_dirty true)
  end.
Definition merge_instances (newGarbageFrame oldGarbageFrame : ptr) : P unit :=
  new ← frame newGarbageFrame;
  match GarbageInstances new with
  | [] => mret tt
  | instances =>
      _ ← update_frame oldGarbageFrame (fun old => set_GarbageInstances (GarbageInstances old ++ instances) old);
      update_frame oldGarbageFrame (set_dirty true)
  end.

Definition RestorePriorGarbageFrame (newGarbageFrame oldGarbageFrame : ptr) (returnValue : option object) : P unit :=
  new ← frame newGarbageFrame;
  _ ← whenP (dirty new)
        (_ ← optM returnValue RetainUDFV;
         collect_garbage);
  _ ← modifyP (put_current oldGarbageFrame);
  new ← frame newGarbageFrame;
  _ ← whenP (dirty new)
        (_ ← merge_multifields newGarbageFrame oldGarbageFrame;
         _ ← merge_facts newGarbageFrame oldGarbageFrame;
         _ ← merge_instances newGarbageFrame oldGarbageFrame;
         optM returnValue ReleaseUDFV);
  optM returnValue (EphemerateValue max_depth).

(** [struct gcBlock]: its own frame and the one before. *)
Record GCBlock := mkGCBlock { newGarbageFrame : ptr; oldGarbageFrame : ptr }.

Definition GCBlockStart : P GCBlock :=
  old ← getsP CurrentGarbageFrame;
  new ← getsP (fun s => fresh_ptr (frames s));
  _ ← modifyP (fun s => put_frames (<[new := new_frame (Some old)]> (frames s)) s);
  _ ← modifyP (put_current new);
  mret (mkGCBlock new old).
(** The block is a local of the caller; its frame ends with it. *)
Definition end_block (theBlock : GCBlock) : P unit :=
  modifyP (fun s => put_frames (delete (newGarbageFrame theBlock) (frames s)) s).
Definition GCBlockEnd (theBlock : GCBlock) : P unit :=
  _ ← RestorePriorGarbageFrame (newGarbageFrame theBlock) (oldGarbageFrame theBlock) None;
  end_block theBlock.
Definition GCBlockEndUDF (theBlock : GCBlock) (rv : object) : P unit :=
  _ ← RestorePriorGarbageFrame (newGarbageFrame theBlock) (oldGarbageFrame theBlock) (Some rv);
  end_block theBlock.

Definition CurrentGarbageFrameIsDirty : P bool :=
  f ← getsP CurrentGarbageFrame;
  x ← frame f;
  mret (dirty x).
End garbage.
