(* ===== verification/CollectProofs.v ===== *)
(** * Reference counts

    Retaining and releasing change counts and marks and nothing else: the
    relation [counts_step] says by how much, and composes.

    Then the removal of ephemeral atoms. *)
From S2P Require Import Prelude Values Router Process Hash SList AtomState Atoms AtomProofs Garbage.
Section counts.
Context {H : Type} `{!GarbageHost H}.
Implicit Types (s : AtomEnv H) (C : TableId → Z → list ptr) (d e : ptr → Z).

(** ** What retaining and releasing change *)

(** The part of a frame that only the multifields and other components use. *)
Definition frame_rest (x : garbageFrame) : option ptr * option ptr * option ptr * list ptr * list ptr :=
  (priorFrame x, ListOfMultifields x, LastMultifield x, GarbageFacts x, GarbageInstances x).

Definition node_step (delta : Z) (n n' : HashNode) : Prop :=
  contents n' = contents n ∧ count n' = (count n + delta)%Z.
Definition multifield_step (delta : Z) (x x' : Multifield) : Prop :=
  mf_next x' = mf_next x ∧ mf_contents x' = mf_contents x ∧ busyCount x' = (busyCount x + delta)%Z.
Definition frame_step (x x' : garbageFrame) : Prop :=
  frame_rest x' = frame_rest x ∧ (dirty x = true → dirty x' = true).

(** The counts of the nodes change by [d], those of the multifields by [e]. *)
Record counts_step s s' d e : Prop := {
  cs_nodes p : option_relation (node_step (d p)) (const False) (const False) (nodes s !! p) (nodes s' !! p);
  cs_multifields m : option_relation (multifield_step (e m)) (const False) (const False) (multifields s !! m) (multifields s' !! m);
  cs_frames f : option_relation frame_step (const False) (const False) (frames s !! f) (frames s' !! f);
  cs_others f : f ≠ CurrentGarbageFrame s → frames s' !! f = frames s !! f;
  cs_current : CurrentGarbageFrame s' = CurrentGarbageFrame s;
  cs_cleanup : ListOfCleanupFunctions s' = ListOfCleanupFunctions s;
  cs_host : host s' = host s;
}.

Lemma option_relation_refl {A} (R : A → A → Prop) (o : option A) :
  (∀ a, R a a) → option_relation R (const False) (const False) o o.
Proof. intros HR. destruct o; [apply HR|done]. Qed.
Lemma option_relation_trans {A} (R1 R2 R3 : A → A → Prop) (o1 o2 o3 : option A) :
  (∀ a b c, R1 a b → R2 b c → R3 a c) →
  option_relation R1 (const False) (const False) o1 o2 → option_relation R2 (const False) (const False) o2 o3 →
  option_relation R3 (const False) (const False) o1 o3.
Proof. intros HR. destruct o1, o2, o3; simpl; try done. eauto. Qed.
Lemma option_relation_Some {A} (R : A → A → Prop) (o o' : option A) a :
  option_relation R (const False) (const False) o o' → o = Some a → ∃ a', o' = Some a' ∧ R a a'.
Proof. intros HR ->. destruct o'; simpl in HR; [eauto|done]. Qed.
Lemma option_relation_Some_r {A} (R : A → A → Prop) (o o' : option A) a' :
  option_relation R (const False) (const False) o o' → o' = Some a' → ∃ a, o = Some a ∧ R a a'.
Proof. intros HR ->. destruct o; simpl in HR; [eauto|done]. Qed.

Definition zero_step : ptr → Z := fun _ => 0%Z.
Definition one_step (p : ptr) (z : Z) : ptr → Z := fun q => if decide (q = p) then z else 0%Z.
Definition plus_step d e : ptr → Z := fun q => (d q + e q)%Z.

Lemma counts_step_refl s : counts_step s s zero_step zero_step.
Proof.
  split; try done; intros k; apply option_relation_refl.
  - intros n. split; [done|]. unfold zero_step. lia.
  - intros x. split_and!; try done. unfold zero_step. lia.
  - by intros x.
Qed.

Lemma counts_step_trans s1 s2 s3 d1 d2 e1 e2 :
  counts_step s1 s2 d1 e1 → counts_step s2 s3 d2 e2 →
  counts_step s1 s3 (plus_step d1 d2) (plus_step e1 e2).
Proof.
  intros [N1 M1 F1 O1 C1 L1 H1] [N2 M2 F2 O2 C2 L2 H2]. split; [| | | |congruence..].
  - intros p. refine (option_relation_trans _ _ _ _ _ _ _ (N1 p) (N2 p)).
    intros a b c [? ?] [? ?]. split; [congruence|]. unfold plus_step. lia.
  - intros m. refine (option_relation_trans _ _ _ _ _ _ _ (M1 m) (M2 m)).
    intros a b c (? & ? & ?) (? & ? & ?). split_and!; [congruence..|]. unfold plus_step. lia.
  - intros f. refine (option_relation_trans _ _ _ _ _ _ _ (F1 f) (F2 f)).
    intros a b c [? ?] [? ?]. split; [congruence|auto].
  - intros f Hf. rewrite O2 by congruence. by apply O1.
Qed.

Lemma counts_step_ext s s' d d' e e' :
  (∀ p, d p = d' p) → (∀ m, e m = e' m) → counts_step s s' d e → counts_step s s' d' e'.
Proof.
  intros Hd He [N M F O Cu L Ho]. split; try done.
  - intros p. rewrite <- Hd. apply N.
  - intros m. rewrite <- He. apply M.
Qed.

Lemma counts_step_node s s' d e p n :
  counts_step s s' d e → nodes s !! p = Some n → ∃ n', nodes s' !! p = Some n' ∧ node_step (d p) n n'.
Proof. intros Hs. by apply option_relation_Some, (cs_nodes _ _ _ _ Hs). Qed.

(** ** One node *)

(** The state with another record for [p], and perhaps [p] on the current frame. *)
Lemma counts_step_update s p n n' z :
  nodes s !! p = Some n → node_step z n n' →
  counts_step s (put_nodes (<[p := n']> (nodes s)) s) (one_step p z) zero_step.
Proof.
  intros Hp Hn. split; try done; simpl.
  - intros q. unfold one_step. destruct (decide (q = p)) as [->|Hq].
    + by rewrite lookup_insert_eq, Hp.
    + rewrite lookup_insert_ne by done. apply option_relation_refl. intros m. split; [done|lia].
  - intros m. apply option_relation_refl. intros x. split_and!; try done. unfold zero_step. lia.
  - intros f. apply option_relation_refl. by intros x.
Qed.
Lemma counts_step_push s t p x :
  frames s !! CurrentGarbageFrame s = Some x →
  counts_step s (put_frames (<[CurrentGarbageFrame s := pushed t p x]> (frames s)) s) zero_step zero_step.
Proof.
  intros Hx. pose proof (counts_step_refl s) as [N M F _ _ _ _]. split; try done; intros f; simpl.
  2: { intros Hf. by rewrite lookup_insert_ne. }
  destruct (decide (f = CurrentGarbageFrame s)) as [->|Hf].
  - rewrite lookup_insert_eq, Hx. done.
  - rewrite lookup_insert_ne by done. apply F.
Qed.

(** Counts move, the tables stay. *)
Lemma atoms_inv_count s C p n n' :
  atoms_inv s C → nodes s !! p = Some n → next n' = next n → bucket n' = bucket n → contents n' = contents n →
  markedEphemeral n' = markedEphemeral n → (0 <= count n')%Z → (count n' = 0%Z → markedEphemeral n' = true) →
  atoms_inv (put_nodes (<[p := n']> (nodes s)) s) C.
Proof.
  intros [Ht Hf Hc] Hp Hn Hb Hco Hm Hpos Hz. split; [by eapply tables_update| |done]. simpl.
  rewrite view_insert. by eapply (frames_count _ _ Hf _ _ _ (view_lookup _ _ _ Hp)).
Qed.

(** An unmarked node gets its mark and joins the current frame. *)
Lemma atoms_inv_push s C p n x :
  atoms_inv s C → nodes s !! p = Some n → markedEphemeral n = false → (0 <= count n)%Z →
  frames s !! CurrentGarbageFrame s = Some x →
  atoms_inv (put_frames (<[CurrentGarbageFrame s := pushed (atom_table (contents n)) p x]> (frames s))
    (put_nodes (<[p := set_marked true n]> (nodes s)) s)) C.
Proof.
  intros [Ht Hf Hc] Hp Hm Hpos Hx. split; [by eapply tables_update| |simpl; by rewrite lookup_insert_eq]. simpl.
  rewrite view_insert. apply (frames_push _ _ Hf _ (set_next None (set_marked true n))); try done.
  exact (frames_unlisted _ _ Hf p _ (view_lookup _ _ _ Hp) Hm).
Qed.

Lemma node_count s C p n : atoms_inv s C → nodes s !! p = Some n → (0 <= count n)%Z.
Proof. intros [_ Hf _] Hp. exact (fr_count _ _ Hf _ _ (view_lookup _ _ _ Hp)). Qed.
Lemma node_zero s C p n : atoms_inv s C → nodes s !! p = Some n → count n = 0%Z → markedEphemeral n = true.
Proof. intros [_ Hf _] Hp. exact (fr_zero _ _ Hf _ _ (view_lookup _ _ _ Hp)). Qed.
Lemma node_ok s C p n : atoms_inv s C → nodes s !! p = Some n → atom_ok (contents n).
Proof. intros [Ht _ _] Hp. exact (tr_ok _ _ _ Ht _ _ (view_lookup _ _ _ Hp)). Qed.

Lemma increment_count_spec s C p n :
  atoms_inv s C → nodes s !! p = Some n → (count n + 1 <= LLONG_MAX)%Z →
  ∃ s', increment_count p s = Returned tt s' ∧ atoms_inv s' C ∧ counts_step s s' (one_step p 1) zero_step.
Proof.
  intros Hinv Hp Hmax. pose proof (node_count _ _ _ _ Hinv Hp) as Hpos.
  exists (put_nodes (<[p := set_count (count n + 1) n]> (nodes s)) s). split_and!.
  - unfold increment_count. prun (node_Some _ _ _ Hp).
    rewrite long_long_Some by (unfold LLONG_MIN in *; lia). unfold mbind, P_bind, someP.
    exact (update_node_Some _ _ _ _ Hp).
  - eapply atoms_inv_count; try done; simpl; lia.
  - by eapply counts_step_update.
Qed.

Lemma decrement_count_spec s C p n :
  atoms_inv s C → nodes s !! p = Some n → (0 < count n)%Z →
  ∃ s', decrement_count p (atom_table (contents n)) s = Returned tt s' ∧ atoms_inv s' C ∧
    counts_step s s' (one_step p (-1)) zero_step.
Proof.
  intros Hinv Hp Hpos. set (n' := set_count (count n - 1) n). set (s1 := put_nodes (<[p := n']> (nodes s)) s).
  assert (Hp1 : nodes s1 !! p = Some n') by (simpl; apply lookup_insert_eq).
  assert (Hstep : counts_step s s1 (one_step p (-1)) zero_step) by (by eapply counts_step_update).
  assert (Hrun : decrement_count p (atom_table (contents n)) s =
    (if negb (count n' =? 0)%Z then mret tt else if markedEphemeral n' then mret tt
    else add_to_current_frame p (atom_table (contents n)) true) s1).
  { unfold decrement_count. prun (update_node_Some s p n (fun n => set_count (count n - 1) n) Hp).
    by prun (node_Some _ _ _ Hp1). }
  rewrite Hrun. clear Hrun. destruct (count n' =? 0)%Z eqn:E; simpl.
  - apply Z.eqb_eq in E. destruct (markedEphemeral n) eqn:Em.
    + exists s1. split_and!; try done. eapply atoms_inv_count; try done; simpl; lia.
    + destruct (ai_current _ _ Hinv) as [x Hx].
      pose proof (add_to_current_frame_Some s1 p n' x (atom_table (contents n)) true Hp1 Hx (fun _ => E)) as Hadd.
      eexists. split; [exact Hadd|]. split.
      * pose proof (atoms_inv_push s C p n x Hinv Hp Em ltac:(lia) Hx) as Hpush.
        assert (Hc : atoms_inv (put_nodes (<[p := set_marked true n']> (nodes (put_frames (<[CurrentGarbageFrame s := pushed (atom_table (contents n)) p x]> (frames s))
          (put_nodes (<[p := set_marked true n]> (nodes s)) s)))) (put_frames (<[CurrentGarbageFrame s := pushed (atom_table (contents n)) p x]> (frames s))
          (put_nodes (<[p := set_marked true n]> (nodes s)) s))) C).
        { eapply atoms_inv_count; [exact Hpush|simpl; apply lookup_insert_eq|..]; simpl in *; first [done | lia]. }
        simpl in *. unfold put_frames, put_nodes, put_garbage, put_tables in *. simpl in *.
        rewrite !insert_insert_eq in *. exact Hc.
      * assert (Hmark : node_step 0 n' (set_marked true n')) by (split; [done|simpl; lia]).
        refine (counts_step_ext _ _ _ _ _ _ _ _ (counts_step_trans _ _ _ _ _ _ _ Hstep
          (counts_step_trans _ _ _ _ _ _ _ (counts_step_update s1 p n' (set_marked true n') 0 Hp1 Hmark) (counts_step_push
          (put_nodes (<[p := set_marked true n']> (nodes s1)) s1) _ p x Hx)))).
        -- intros q. unfold plus_step, zero_step, one_step. destruct (decide _); lia.
        -- intros q. unfold plus_step, zero_step. lia.
  - apply Z.eqb_neq in E. exists s1. split_and!; try done. simpl in E. eapply atoms_inv_count; try done; simpl; lia.
Qed.

(** ** The dispatch on the type of the header *)

Lemma lexeme_type_true type : lexeme_type type = true ↔ is_lexeme_type type.
Proof. unfold lexeme_type, is_lexeme_type. rewrite !orb_true_iff, !Z.eqb_eq. tauto. Qed.

Definition is_bitmap (a : Atom) : bool := match a with ABitMap _ => true | _ => false end.

Lemma retain_node_spec s C p n other :
  atoms_inv s C → nodes s !! p = Some n → is_bitmap (contents n) = false → (count n + 1 <= LLONG_MAX)%Z →
  ∃ s', retain_node p other s = Returned tt s' ∧ atoms_inv s' C ∧ counts_step s s' (one_step p 1) zero_step.
Proof.
  intros Hinv Hp Hb Hmax. destruct (increment_count_spec s C p n Hinv Hp Hmax) as (s' & Hr & Hs).
  exists s'. split; [|done]. unfold retain_node. prun (node_Some _ _ _ Hp).
  pose proof (node_ok _ _ _ _ Hinv Hp) as Hok.
  destruct (contents n) as [type chars| | | |]; try done; simpl in *.
  rewrite (proj2 (lexeme_type_true type) Hok). exact Hr.
Qed.

Lemma release_node_spec s C p n other :
  atoms_inv s C → nodes s !! p = Some n → is_bitmap (contents n) = false → (0 < count n)%Z →
  ∃ s', release_node p other s = Returned tt s' ∧ atoms_inv s' C ∧ counts_step s s' (one_step p (-1)) zero_step.
Proof.
  intros Hinv Hp Hb Hpos. destruct (decrement_count_spec s C p n Hinv Hp Hpos) as (s' & Hr & Hs).
  exists s'. split; [|done]. unfold release_node. prun (node_Some _ _ _ Hp).
  pose proof (node_ok _ _ _ _ Hinv Hp) as Hok.
  assert (H1 : (count n <? 0)%Z = false) by (apply Z.ltb_ge; lia).
  assert (H2 : (count n =? 0)%Z = false) by (apply Z.eqb_neq; lia).
  assert (H3 : (count n <=? 0)%Z = false) by (apply Z.leb_gt; lia).
  destruct (contents n) as [type chars| | | |]; try done; simpl in *;
    [rewrite (proj2 (lexeme_type_true type) Hok); unfold ReleaseLexeme|unfold ReleaseFloat|unfold ReleaseInteger|
    unfold ReleaseExternalAddress]; prun (node_Some _ _ _ Hp); rewrite ?H1, ?H2, ?H3; exact Hr.
Qed.

(** The counters are checked: a node nobody holds cannot be released. *)
Lemma release_node_zero s C p n other :
  atoms_inv s C → nodes s !! p = Some n → is_bitmap (contents n) = false → count n = 0%Z →
  ∃ id s', release_node p other s = Exited EXIT_FAILURE s' ∧ SystemError "SYMBOL" id s = Some (tt, s') ∧
    id = match atom_table (contents n) with
         | SymbolTable => 4 | FloatTable => 5 | IntegerTable => 6 | BitMapTable => 8 | ExternalAddressTable => 10
         end%Z.
Proof.
  intros Hinv Hp Hb Hc. pose proof (node_ok _ _ _ _ Hinv Hp) as Hok.
  unfold release_node. prun (node_Some _ _ _ Hp).
  destruct (contents n) as [type chars| | | |]; try done; simpl in *;
    [rewrite (proj2 (lexeme_type_true type) Hok); unfold ReleaseLexeme|unfold ReleaseFloat|unfold ReleaseInteger|
    unfold ReleaseExternalAddress]; prun (node_Some _ _ _ Hp); rewrite Hc; simpl;
    match goal with |- context [system_failure "SYMBOL" ?i _] =>
    destruct (system_failure_Exited (A := unit) "SYMBOL" i s) as (s' & Hs & Ho); exists i, s'; done end.
Qed.
End counts.

(** * The removal of ephemeral atoms

    [RemoveEphemeralAtoms] takes the nodes without references on the lists of
    the current frame out of their tables and unmarks the others. *)

(** ** The nodes after a collection of the list [l] *)

Definition collect (l : list ptr) (vs : gmap ptr HashNode) : gmap ptr HashNode :=
  map_imap (fun p n =>
    if decide (p ∈ l) then (if (count n =? 0)%Z then None else Some (set_marked false n)) else Some n) vs.

Lemma lookup_collect l vs p :
  collect l vs !! p = n ← vs !! p;
    if decide (p ∈ l) then (if (count n =? 0)%Z then None else Some (set_marked false n)) else Some n.
Proof. apply map_lookup_imap. Qed.

Lemma collect_nil vs : collect [] vs = vs.
Proof.
  apply map_eq. intros q. rewrite lookup_collect. by destruct (vs !! q).
Qed.

Lemma collect_cons p l vs n vs' :
  p ∉ l → vs !! p = Some n →
  vs' = (if (count n =? 0)%Z then delete p vs else <[p := set_marked false n]> vs) →
  collect (p :: l) vs = collect l vs'.
Proof.
  intros Hp Hn ->. apply map_eq. intros q. rewrite !lookup_collect.
  destruct (decide (p = q)) as [<-|Hne].
  - rewrite Hn. simpl. rewrite decide_True by set_solver. destruct (count n =? 0)%Z.
    + by rewrite lookup_delete_eq.
    + rewrite lookup_insert_eq. simpl. by rewrite decide_False.
  - replace ((if (count n =? 0)%Z then delete p vs else <[p := set_marked false n]> vs) !! q) with (vs !! q)
      by (destruct (count n =? 0)%Z; [by rewrite lookup_delete_ne|by rewrite lookup_insert_ne]).
    destruct (vs !! q) as [m|]; [|done]. simpl.
    destruct (decide (q ∈ l)); [by rewrite decide_True by set_solver|by rewrite decide_False by set_solver].
Qed.

Lemma collect_app l1 l2 vs : (∀ p, p ∈ l1 → p ∉ l2) → collect l2 (collect l1 vs) = collect (l1 ++ l2) vs.
Proof.
  intros Hd. apply map_eq. intros q. rewrite !lookup_collect. destruct (vs !! q) as [n|]; [|done]. simpl.
  destruct (decide (q ∈ l1)) as [H1|H1].
  - rewrite (decide_True (P := q ∈ l1 ++ l2)) by set_solver. destruct (count n =? 0)%Z; [done|]. simpl.
    by rewrite decide_False by auto.
  - simpl. destruct (decide (q ∈ l2)); [by rewrite decide_True by set_solver|by rewrite decide_False by set_solver].
Qed.

Section collect.
Context {H : Type}.
Implicit Types (s : AtomEnv H) (C : TableId → Z → list ptr).

(** What the discard functions of the removed addresses are called on. *)
Definition discard_of (fs : gmap Z ptr) (n : HashNode) : list (ptr * Z) :=
  match contents n with
  | AExternalAddress pointer type => match fs !! type with Some f => [(f, pointer)] | None => [] end
  | _ => []
  end.
Definition discards (fs : gmap Z ptr) (vs : gmap ptr HashNode) (l : list ptr) : list (ptr * Z) :=
  l ≫= fun p => match vs !! p with Some n => if (count n =? 0)%Z then discard_of fs n else [] | None => [] end.

#[local] Arguments discards : simpl never.

Lemma discards_cons fs vs vs' p n l :
  vs !! p = Some n → (∀ q, q ∈ l → vs' !! q = vs !! q) →
  discards fs vs (p :: l) = (if (count n =? 0)%Z then discard_of fs n else []) ++ discards fs vs' l.
Proof.
  intros Hp Hl. unfold discards. rewrite bind_cons, Hp. f_equal.
  induction l as [|q l IH]; [done|]. rewrite !bind_cons, Hl by set_solver. f_equal. apply IH. set_solver.
Qed.

Lemma find_previous_Some fuel ns x past o l1 l2 n :
  sseg ns o (l1 ++ x :: l2) n → x ∉ l1 → length l1 < fuel →
  find_previous fuel ns x past o = Some (inr (slast past l1)).
Proof.
  revert past o fuel. induction l1 as [|y l1 IH]; intros past o [|fuel] Hl Hx Hf; simpl in *; try lia.
  - destruct Hl as (-> & _). by rewrite decide_True.
  - destruct Hl as (-> & a & Hy & Hl). rewrite decide_False by (intros [= ->]; set_solver).
    simpl. rewrite Hy. simpl.
    assert (Hnext : ∃ d, next a = Some d).
    { destruct l1 as [|z l1]; destruct Hl as (Ha & _); eauto. }
    destruct Hnext as [d Hd]. rewrite Hd, slast_cons. change (snext a) with (next a) in Hl. rewrite Hd in Hl.
    apply IH; [done|set_solver|lia].
Qed.

(** A node leaves its table. *)
Lemma RemoveHashNode_Some s C p n :
  tables_rep (nodes s) (heads s) C → nodes s !! p = Some n →
  ∃ ns hs, RemoveHashNode p (atom_table (contents n)) s =
    Returned tt (put_output (discarded s ++ discard_of (discardFunctions s) n) (atom_output s) (put_tables ns hs s)) ∧
    tables_rep ns hs (C_del C p) ∧ view ns = delete p (view (nodes s)).
Proof.
  intros Ht Hp. pose proof (view_lookup _ _ _ Hp) as Hv. set (t := atom_table (contents n)).
  pose proof (tables_bucket _ _ _ Ht _ _ Hv) as Hi. simpl in Hi. fold t in Hi.
  pose proof (tables_member _ _ _ Ht _ _ Hv) as Hin. simpl in Hin. fold t in Hin.
  pose proof (tr_nodup _ _ _ Ht t (bucket n)) as Hnd. pose proof (tr_chain _ _ _ Ht t (bucket n) Hi) as Hs.
  pose proof (tables_fuel _ _ _ Ht t (bucket n) Hi) as Hfuel.
  apply list_elem_of_split in Hin as (l1 & l2 & HC). rewrite HC in Hnd, Hs, Hfuel.
  assert (Hx1 : p ∉ l1).
  { intros Hx1. apply NoDup_app in Hnd as (_ & Hd & _). apply (Hd _ Hx1). set_solver. }
  rewrite length_app in Hfuel. simpl in Hfuel.
  pose proof (find_previous_Some (S (size (nodes s))) _ _ None _ _ _ _ Hs Hx1 ltac:(lia)) as Hfind.
  pose proof (tables_remove _ _ _ Ht p n l1 l2 Hp HC) as Hrem. fold t in Hrem.
  eexists _, _. split; [|split; [exact Hrem|by rewrite view_delete, view_set_link]].
  unfold RemoveHashNode. prun (node_Some _ _ _ Hp). prun (bucket_head_Some s t (bucket n) Hi).
  unfold getsP at 1. unfold mbind at 1, P_bind at 1. rewrite Hfind. unfold someP. unfold mbind at 1, P_bind at 1. cbn iota.
  set (s1 := put_tables (set_link (slast None l1) (next n) (nodes s)) (unlinked_heads (heads s) (slast None l1) t (bucket n) (next n)) s).
  assert (Hlink : (match slast None l1 with
    | None => set_bucket_head t (bucket n) (next n)
    | Some q => update_node q (set_next (next n)) end) s = Returned tt s1).
  { unfold s1, unlinked_heads. destruct (slast None l1) as [q|] eqn:E.
    - assert (Hq : q ∈ C t (bucket n)).
      { unfold slast in E. destruct (last l1) eqn:El; simplify_eq. apply last_Some in El as [l' ->].
        rewrite HC. set_solver. }
      destruct (tables_live _ _ _ _ _ _ Ht Hq) as [m Hm]. rewrite (update_node_Some _ _ _ _ Hm).
      simpl. by rewrite (alter_as_insert _ _ _ _ Hm).
    - by rewrite (set_bucket_head_Some s t (bucket n) _ Hi). }
  prun Hlink. unfold discard, discard_of.
  destruct (contents n) as [| | | |pointer type]; simpl; rewrite ?app_nil_r; try done.
  destruct (discardFunctions s !! type) as [f|] eqn:Ef; unfold mbind, P_bind, getsP, modifyP; simpl;
    rewrite ?Ef, ?app_nil_r; done.
Qed.

(** The state with other tables and more calls of discard functions. *)
Definition retabled (ns : gmap ptr HashNode) (hs : gmap (TableId * Z) ptr) (d : list (ptr * Z)) s : AtomEnv H :=
  put_output (discarded s ++ d) (atom_output s) (put_tables ns hs s).

Lemma retabled_retabled ns1 hs1 d1 ns2 hs2 d2 s :
  retabled ns2 hs2 d2 (retabled ns1 hs1 d1 s) = retabled ns2 hs2 (d1 ++ d2) s.
Proof. unfold retabled, put_output, put_tables. simpl. by rewrite app_assoc. Qed.
Lemma retabled_id s : retabled (nodes s) (heads s) [] s = s.
Proof. unfold retabled, put_output, put_tables. destruct s. simpl. by rewrite app_nil_r. Qed.

Lemma remove_ephemerals_spec t l s C fs f x :
  tables_rep (nodes s) (heads s) C →
  frames_rep (view (nodes s)) (<[f := set_ephemerals t l x]> fs) →
  ∃ ns hs C', remove_ephemerals t l s = Returned [] (retabled ns hs (discards (discardFunctions s) (view (nodes s)) l) s) ∧
    tables_rep ns hs C' ∧ frames_rep (view ns) (<[f := set_ephemerals t [] x]> fs) ∧
    view ns = collect l (view (nodes s)).
Proof.
  revert s C. induction l as [|p l IH]; intros s C Ht Hf.
  { exists (nodes s), (heads s), C. rewrite collect_nil. split_and!; try done.
    unfold discards. simpl. by rewrite retabled_id. }
  assert (Hx : <[f := set_ephemerals t (p :: l) x]> fs !! f = Some (set_ephemerals t (p :: l) x)) by apply lookup_insert_eq.
  destruct (fr_member _ _ Hf _ _ t p Hx) as (v & Hv & Htab & _); [rewrite ephemerals_set_eq; set_solver|].
  destruct (view_lookup_inv _ _ _ Hv) as (n & Hp & ->). simpl in Htab.
  pose proof (fr_nodup _ _ Hf _ _ t Hx) as Hnd. rewrite ephemerals_set_eq in Hnd. apply NoDup_cons in Hnd as [Hpl Hnd].
  pose proof (fr_count _ _ Hf _ _ Hv) as Hpos. simpl in Hpos.
  assert (Hpop : ∀ vs', (∀ q, q ≠ p → vs' !! q = view (nodes s) !! q) →
    (∀ m, vs' !! p = Some m → (0 < count m)%Z ∧ markedEphemeral m = false) →
    frames_rep vs' (<[f := set_ephemerals t l x]> fs)).
  { intros vs' H1 H2. pose proof (frames_pop _ _ Hf f _ t p l vs' Hx (ephemerals_set_eq _ _ _) H1 H2) as Hr.
    rewrite insert_insert_eq in Hr. replace (set_ephemerals t l x) with (set_ephemerals t l (set_ephemerals t (p :: l) x)) by (by destruct t). done. }
  simpl. prun (node_Some _ _ _ Hp). destruct (count n =? 0)%Z eqn:E.
  - destruct (RemoveHashNode_Some s C p n Ht Hp) as (ns & hs & Hr & Ht' & Hview). rewrite Htab in Hr.
    prun Hr. set (s1 := put_output _ _ _).
    destruct (IH s1 (C_del C p) Ht') as (ns2 & hs2 & C2 & Hr2 & Ht2 & Hf2 & Hv2).
    { simpl. rewrite Hview. apply Hpop; [intros q Hq; by rewrite lookup_delete_ne|by rewrite lookup_delete_eq]. }
    exists ns2, hs2, C2. simpl in Hv2. rewrite Hview in Hv2. split_and!; try done.
    + rewrite Hr2. f_equal. change s1 with (retabled ns hs (discard_of (discardFunctions s) n) s).
      rewrite retabled_retabled. f_equal.
      change (discardFunctions (retabled _ _ _ s)) with (discardFunctions s).
      change (nodes (retabled ns hs _ s)) with ns. rewrite Hview.
      rewrite (discards_cons _ _ (delete p (view (nodes s))) p _ l Hv); [by change (count (set_next None n)) with (count n); rewrite E|].
      intros q Hq. rewrite lookup_delete_ne; [done|]. intros ->. done.
    + rewrite Hv2. symmetry. eapply collect_cons; [done|exact Hv|]. simpl. by rewrite E.
  - apply Z.eqb_neq in E. rewrite (proj2 (Z.ltb_lt _ _)) by lia.
    prun (update_node_Some s p n (set_marked false) Hp). set (s1 := put_nodes _ s).
    destruct (IH s1 C) as (ns2 & hs2 & C2 & Hr2 & Ht2 & Hf2 & Hv2).
    { by eapply tables_update. }
    { simpl. rewrite view_insert. apply Hpop; [intros q Hq; by rewrite lookup_insert_ne|].
      intros m. rewrite lookup_insert_eq. intros [= <-]. simpl. split; [lia|done]. }
    exists ns2, hs2, C2. simpl in Hv2. rewrite view_insert in Hv2. split_and!; try done.
    + rewrite Hr2. f_equal. change s1 with (put_nodes (<[p := set_marked false n]> (nodes s)) s).
      unfold retabled, put_output, put_tables, put_nodes. simpl. f_equal. f_equal. rewrite view_insert.
      rewrite (discards_cons _ _ (<[p := set_next None (set_marked false n)]> (view (nodes s))) p _ l Hv).
      * simpl. by rewrite (proj2 (Z.eqb_neq _ _)) by done.
      * intros q Hq. rewrite lookup_insert_ne; [done|]. intros ->. done.
    + rewrite Hv2. symmetry. eapply collect_cons; [done|exact Hv|]. simpl.
      by rewrite (proj2 (Z.eqb_neq _ _)) by done.
Qed.

(** One list of the frame. *)
Lemma RemoveEphemeralHashNodes_spec s C f x t :
  tables_rep (nodes s) (heads s) C → frames_rep (view (nodes s)) (frames s) → frames s !! f = Some x →
  ∃ ns hs C', RemoveEphemeralHashNodes f t s =
      Returned tt (put_frames (<[f := set_ephemerals t [] x]> (frames s))
        (retabled ns hs (discards (discardFunctions s) (view (nodes s)) (ephemerals t x)) s)) ∧
    tables_rep ns hs C' ∧ frames_rep (view ns) (<[f := set_ephemerals t [] x]> (frames s)) ∧
    view ns = collect (ephemerals t x) (view (nodes s)).
Proof.
  intros Ht Hf Hx.
  assert (Hid : set_ephemerals t (ephemerals t x) x = x) by (by destruct t, x).
  destruct (remove_ephemerals_spec t (ephemerals t x) s C (frames s) f x Ht) as (ns & hs & C' & Hr & Ht' & Hf' & Hv).
  { rewrite Hid, insert_id by done. done. }
  exists ns, hs, C'. split_and!; try done. unfold RemoveEphemeralHashNodes. prun (frame_Some _ _ _ Hx). prun Hr.
  exact (update_frame_Some (retabled ns hs _ s) f x (set_ephemerals t []) Hx).
Qed.

(** ** All lists of a frame *)

Definition all_tables : list TableId := [SymbolTable; FloatTable; IntegerTable; BitMapTable; ExternalAddressTable].
Definition listed_in (ts : list TableId) (x : garbageFrame) : list ptr := ts ≫= fun t => ephemerals t x.
Definition clear (ts : list TableId) (x : garbageFrame) : garbageFrame := foldl (fun x t => set_ephemerals t [] x) x ts.

Lemma listed_in_clear t ts x : t ∉ ts → listed_in ts (set_ephemerals t [] x) = listed_in ts x.
Proof.
  intros Ht. unfold listed_in. induction ts as [|u ts IH]; [done|]. rewrite !bind_cons, IH by set_solver.
  rewrite ephemerals_set, decide_False by set_solver. done.
Qed.
Lemma elem_of_listed_in ts x p : p ∈ listed_in ts x ↔ ∃ t, t ∈ ts ∧ p ∈ ephemerals t x.
Proof. unfold listed_in. rewrite list_elem_of_bind. naive_solver. Qed.

Lemma discards_app fs vs l1 l2 : discards fs vs (l1 ++ l2) = discards fs vs l1 ++ discards fs vs l2.
Proof. apply bind_app. Qed.
Lemma discards_ext fs vs vs' l : (∀ q, q ∈ l → vs' !! q = vs !! q) → discards fs vs' l = discards fs vs l.
Proof.
  intros Hl. unfold discards. induction l as [|q l IH]; [done|]. rewrite !bind_cons, Hl by set_solver.
  f_equal. apply IH. set_solver.
Qed.

Lemma put_frames_retabled fs1 fs2 ns1 hs1 d1 ns2 hs2 d2 s :
  put_frames fs2 (retabled ns2 hs2 d2 (put_frames fs1 (retabled ns1 hs1 d1 s))) =
  put_frames fs2 (retabled ns2 hs2 (d1 ++ d2) s).
Proof. destruct s. cbv -[app]. by rewrite app_assoc. Qed.

Lemma remove_lists_spec ts s C f x :
  NoDup ts → tables_rep (nodes s) (heads s) C → frames_rep (view (nodes s)) (frames s) → frames s !! f = Some x →
  ∃ ns hs C', forM ts (RemoveEphemeralHashNodes f) s =
      Returned tt (put_frames (<[f := clear ts x]> (frames s))
        (retabled ns hs (discards (discardFunctions s) (view (nodes s)) (listed_in ts x)) s)) ∧
    tables_rep ns hs C' ∧ frames_rep (view ns) (<[f := clear ts x]> (frames s)) ∧
    view ns = collect (listed_in ts x) (view (nodes s)).
Proof.
  revert s C x. induction ts as [|t ts IH]; intros s C x Hnd Ht Hf Hx.
  { exists (nodes s), (heads s), C. unfold listed_in, discards, clear. simpl. rewrite collect_nil, insert_id by done.
    split_and!; try done. unfold forM, mret, P_ret. by rewrite retabled_id; destruct s. }
  apply NoDup_cons in Hnd as [Htn Hnd].
  destruct (RemoveEphemeralHashNodes_spec s C f x t Ht Hf Hx) as (ns & hs & C1 & Hr & Ht1 & Hf1 & Hv1).
  set (s1 := put_frames _ _) in Hr.
  destruct (IH s1 C1 (set_ephemerals t [] x) Hnd Ht1 Hf1 ltac:(apply lookup_insert_eq)) as (ns2 & hs2 & C2 & Hr2 & Ht2 & Hf2 & Hv2).
  assert (Hdis : ∀ p, p ∈ ephemerals t x → p ∉ listed_in ts x).
  { intros p Hp (u & Hu & Hpu)%elem_of_listed_in.
    destruct (fr_member _ _ Hf _ _ _ _ Hx Hp) as (n & Hn & Htn2 & _).
    destruct (fr_member _ _ Hf _ _ _ _ Hx Hpu) as (m & Hm & Hum & _).
    rewrite Hn in Hm. injection Hm as <-. by rewrite Htn2 in Hum; subst u. }
  simpl in Hf2, Hv2. rewrite insert_insert_eq in Hf2. rewrite Hv1, listed_in_clear in Hv2 by done.
  assert (Hsplit : listed_in (t :: ts) x = ephemerals t x ++ listed_in ts x) by done. rewrite Hsplit.
  exists ns2, hs2, C2. split_and!; try done.
  - simpl. prun Hr. rewrite Hr2. f_equal. unfold s1.
    change (frames (put_frames ?fs _)) with fs. rewrite insert_insert_eq, put_frames_retabled.
    rewrite listed_in_clear by done. change (discardFunctions (put_frames _ (retabled _ _ _ s))) with (discardFunctions s).
    change (nodes (put_frames _ (retabled ?n _ _ s))) with n. rewrite Hv1.
    rewrite discards_app. do 3 f_equal.
    apply discards_ext. intros q Hq. rewrite lookup_collect. destruct (view (nodes s) !! q); [|done]. simpl.
    rewrite decide_False; [done|]. intros Hq'. by apply (Hdis q).
  - rewrite Hv2. by apply collect_app.
Qed.

Theorem RemoveEphemeralAtoms_spec s C x :
  atoms_inv s C → frames s !! CurrentGarbageFrame s = Some x → dirty x = true →
  ∃ ns hs C', RemoveEphemeralAtoms s =
      Returned tt (put_frames (<[CurrentGarbageFrame s := clear all_tables x]> (frames s))
        (retabled ns hs (discards (discardFunctions s) (view (nodes s)) (listed_in all_tables x)) s)) ∧
    atoms_inv (put_frames (<[CurrentGarbageFrame s := clear all_tables x]> (frames s))
        (retabled ns hs (discards (discardFunctions s) (view (nodes s)) (listed_in all_tables x)) s)) C' ∧
    view ns = collect (listed_in all_tables x) (view (nodes s)).
Proof.
  intros [Ht Hf Hc] Hx Hd. set (f := CurrentGarbageFrame s) in *.
  assert (Hnd : NoDup all_tables) by compute_done.
  destruct (remove_lists_spec all_tables s C f x Hnd Ht Hf Hx) as (ns & hs & C' & Hr & Ht' & Hf' & Hv).
  exists ns, hs, C'. split_and!; try done.
  - rewrite <- Hr. unfold RemoveEphemeralAtoms. unfold getsP, mbind at 1, P_bind at 1. prun (frame_Some _ _ _ Hx).
    rewrite Hd. unfold all_tables, forM. simpl. fold f. unfold mbind, P_bind.
    repeat match goal with
      | |- context [RemoveEphemeralHashNodes f ?t ?s] => destruct (RemoveEphemeralHashNodes f t s) as [[] ?|? ?|]; try done
      end.
  - split; [done..|]. simpl. by rewrite lookup_insert_eq.
Qed.
End collect.
