(* ===== verification/RetainProofs.v ===== *)
(** * The multifields of the garbage frames

    Each frame lists the multifields it may free, with a pointer to the last;
    [FlushMultifields] frees those that nothing retains.

    Then retaining, releasing and ephemerating values. *)
From S2P Require Import Prelude Values Router Process Hash SList AtomState Atoms AtomProofs Garbage.
From S2P Require Import CollectProofs.
(** ** The lists of the frames *)

Record multifields_rep (ms : gmap ptr Multifield) (fs : gmap ptr garbageFrame) (L : ptr → list ptr) : Prop := {
  mr_list f x : fs !! f = Some x → sseg ms (ListOfMultifields x) (L f) None ∧ LastMultifield x = last (L f);
  mr_nodup f : NoDup (L f);
  mr_disjoint f g m : m ∈ L f → m ∈ L g → f = g;
  mr_dom f m : m ∈ L f → is_Some (fs !! f);
  mr_clean f x : fs !! f = Some x → dirty x = false → L f = [];
  mr_busy m x : ms !! m = Some x → (0 <= busyCount x < 2 ^ 32)%Z;
}.

(** Multifields without their links. *)
Definition mview (ms : gmap ptr Multifield) : gmap ptr Multifield := set_mf_next None <$> ms.

Lemma mview_lookup m x ms : ms !! m = Some x → mview ms !! m = Some (set_mf_next None x).
Proof. intros Hm. unfold mview. by rewrite lookup_fmap, Hm. Qed.
Lemma mview_lookup_inv m x ms : mview ms !! m = Some x → ∃ x', ms !! m = Some x' ∧ x = set_mf_next None x'.
Proof. unfold mview. rewrite lookup_fmap. destruct (ms !! m) as [x'|]; [|done]. intros [= <-]. eauto. Qed.
Lemma mview_delete m ms : mview (delete m ms) = delete m (mview ms).
Proof. apply fmap_delete. Qed.
Lemma mview_insert m x ms : mview (<[m := x]> ms) = <[m := set_mf_next None x]> (mview ms).
Proof. apply fmap_insert. Qed.
Lemma mview_set_next m v ms : mview (alter (set_mf_next v) m ms) = mview ms.
Proof.
  apply map_eq. intros q. unfold mview. rewrite !lookup_fmap.
  destruct (decide (m = q)) as [->|]; [rewrite lookup_alter_eq|by rewrite lookup_alter_ne].
  by destruct (ms !! q).
Qed.
Lemma mview_set_link past v ms : mview (set_link past v ms) = mview ms.
Proof. destruct past; [apply mview_set_next|done]. Qed.

(** Retaining, releasing and the lists of ephemeral nodes leave them alone. *)
Lemma multifields_rep_step ms ms' fs fs' L (e : ptr → Z) :
  (∀ m, option_relation (multifield_step (e m)) (const False) (const False) (ms !! m) (ms' !! m)) →
  (∀ f, option_relation frame_step (const False) (const False) (fs !! f) (fs' !! f)) →
  (∀ m x, ms !! m = Some x → (0 <= busyCount x + e m < 2 ^ 32)%Z) →
  multifields_rep ms fs L → multifields_rep ms' fs' L.
Proof.
  intros Hm Hf He [Hlist Hnd Hdis Hdom Hcl Hb]. split; try done.
  - intros f x' Hx'. destruct (option_relation_Some_r _ _ _ _ (Hf f) Hx') as (x & Hx & Hrest & _).
    destruct (Hlist f x Hx) as [Hs Hl]. unfold frame_rest in Hrest. injection Hrest as _ -> -> _ _.
    split; [|done]. eapply sseg_ext; [|exact Hs]. intros m _. specialize (Hm m).
    destruct (ms !! m) as [y|], (ms' !! m) as [y'|]; simpl in Hm; try done. simpl. f_equal. apply Hm.
  - intros f m Hin. destruct (Hdom f m Hin) as [x Hx].
    destruct (option_relation_Some _ _ _ _ (Hf f) Hx) as (x' & Hx' & _). eauto.
  - intros f x' Hx' Hd. destruct (option_relation_Some_r _ _ _ _ (Hf f) Hx') as (x & Hx & _ & Hdx).
    apply (Hcl f x Hx). destruct (dirty x); [by rewrite Hdx in Hd|done].
  - intros m x' Hx'. destruct (option_relation_Some_r _ _ _ _ (Hm m) Hx') as (x & Hx & _ & _ & ->). by apply He.
Qed.

(** A list of a frame changes. *)
Definition L_upd (L : ptr → list ptr) (f : ptr) (l : list ptr) : ptr → list ptr :=
  fun g => if decide (g = f) then l else L g.
Lemma L_upd_eq L f l : L_upd L f l f = l.
Proof. unfold L_upd. by rewrite decide_True. Qed.
Lemma L_upd_ne L f l g : g ≠ f → L_upd L f l g = L g.
Proof. intros. unfold L_upd. by rewrite decide_False. Qed.

(** ** Freeing one multifield of a list *)

Definition unlinked_frame (l1 l2 : list ptr) (v : option ptr) (x : garbageFrame) : garbageFrame :=
  let x := match l1 with [] => set_ListOfMultifields v x | _ => x end in
  match l2 with [] => set_LastMultifield (last l1) x | _ => x end.

Lemma multifields_remove ms fs L f x l1 m l2 y :
  multifields_rep ms fs L → fs !! f = Some x → L f = l1 ++ m :: l2 → ms !! m = Some y →
  multifields_rep (delete m (set_link (last l1) (mf_next y) ms)) (<[f := unlinked_frame l1 l2 (mf_next y) x]> fs)
    (L_upd L f (l1 ++ l2)).
Proof.
  intros [Hlist Hnd Hdis Hdom Hcl Hb] Hx HL Hm. destruct (Hlist f x Hx) as [Hs Hl]. pose proof (Hnd f) as Hndf.
  rewrite HL in Hs, Hl, Hndf.
  assert (Hlast : slast None l1 = last l1) by (unfold slast; by destruct (last l1)).
  assert (Hsub : ∀ q, q ∈ l1 ++ l2 → q ∈ L f) by (intros q; rewrite HL; set_solver).
  assert (Hmot : ∀ g, g ≠ f → m ∉ L g).
  { intros g Hg Hin. apply Hg, (Hdis g f m Hin). rewrite HL. set_solver. }
  split.
  - intros g z [[<- <-]|[Hg Hz]]%lookup_insert_Some.
    + rewrite L_upd_eq. pose proof (sseg_unlink _ _ _ _ _ _ _ Hndf Hm Hs) as Hu. rewrite Hlast in Hu.
      change (snext y) with (mf_next y) in Hu. split.
      * replace (ListOfMultifields (unlinked_frame l1 l2 (mf_next y) x))
          with (if l1 is [] then mf_next y else ListOfMultifields x) by by destruct l1, l2. exact Hu.
      * destruct l2 as [|q l2 _] using rev_ind; [rewrite app_nil_r; by destruct l1|].
        rewrite app_assoc, last_snoc. rewrite app_comm_cons, app_assoc, last_snoc in Hl.
        by destruct l1, l2.
    + rewrite L_upd_ne by done. destruct (Hlist g z Hz) as [Hs' ?]. split; [|done].
      eapply sseg_ext; [|exact Hs']. intros q Hq. rewrite lookup_delete_ne by (intros ->; by apply (Hmot g)).
      destruct (last l1) as [r|] eqn:E; [|done]. simpl. rewrite lookup_alter_ne; [done|]. intros ->.
      apply Hg. apply (Hdis f g q); [|done]. apply Hsub. apply last_Some in E as [l' ->]. set_solver.
  - intros g. unfold L_upd. destruct (decide _); [|apply Hnd].
    apply NoDup_app in Hndf as (? & Hd & [_ ?]%NoDup_cons). apply NoDup_app. split_and!; try done.
    intros q Hq Hq'. apply (Hd q Hq). set_solver.
  - intros g h q. unfold L_upd. destruct (decide _) as [->|], (decide _) as [->|]; eauto.
  - intros g q. unfold L_upd. destruct (decide _) as [->|Hg]; [rewrite lookup_insert_eq; eauto|].
    rewrite lookup_insert_ne by done. apply Hdom.
  - intros g z [[<- <-]|[Hg Hz]]%lookup_insert_Some Hd; [|rewrite L_upd_ne by done; eauto].
    assert (Hdx : dirty x = false) by by destruct l1, l2. rewrite (Hcl f x Hx Hdx) in HL. by destruct l1.
  - intros q z Hq. assert (Hv : mview (delete m (set_link (last l1) (mf_next y) ms)) !! q = Some (set_mf_next None z))
      by by apply mview_lookup.
    rewrite mview_delete, mview_set_link in Hv. apply lookup_delete_Some in Hv as [_ (z' & Hz' & Heq)%mview_lookup_inv].
    replace (busyCount z) with (busyCount z') by by injection Heq. eauto.
Qed.

(** ** [FlushMultifields] *)

Section flush.
Context {H : Type} `{!GarbageHost H}.
Implicit Types (s : AtomEnv H) (L : ptr → list ptr).

Lemma multifield_Some s m x : multifields s !! m = Some x → multifield m s = Returned x s.
Proof. unfold multifield, mbind, P_bind, getsP, someP. by intros ->. Qed.
Lemma update_multifield_Some s m x g :
  multifields s !! m = Some x → update_multifield m g s = Returned tt (put_multifields (<[m := g x]> (multifields s)) s).
Proof. intros Hm. unfold update_multifield. by prun (multifield_Some _ _ _ Hm). Qed.

(** The free ones of a list are gone, the others are what they were. *)
Definition flushed (l : list ptr) (ms ms' : gmap ptr Multifield) : Prop :=
  ∀ m, mview ms' !! m = x ← mview ms !! m; if decide (m ∈ l ∧ busyCount x = 0%Z) then None else Some x.
Definition busy_in (ms : gmap ptr Multifield) (m : ptr) : bool :=
  match ms !! m with Some x => negb (busyCount x =? 0)%Z | None => false end.

(** A state that differs in the multifields and in the frame [f]. *)
Definition regarbaged s (ms : gmap ptr Multifield) (f : ptr) (x : garbageFrame) : AtomEnv H :=
  put_garbage ms (<[f := x]> (frames s)) (CurrentGarbageFrame s) s.

(** What flushing leaves of a frame. *)
Definition same_but_multifields (x x' : garbageFrame) : Prop :=
  x' = set_LastMultifield (LastMultifield x') (set_ListOfMultifields (ListOfMultifields x') x).
Lemma same_but_multifields_trans x y z :
  same_but_multifields x y → same_but_multifields y z → same_but_multifields x z.
Proof. unfold same_but_multifields. destruct x, y, z. intros [= -> -> -> -> -> -> -> -> ->] [= -> -> -> -> -> -> -> -> ->]. done. Qed.
Lemma unlinked_same l1 l2 v x : same_but_multifields x (unlinked_frame l1 l2 v x).
Proof. by destruct x, l1, l2. Qed.

(** One step of the loop at a free multifield. *)
Lemma flush_free s f x l1 m l2 y L fuel :
  multifields_rep (multifields s) (frames s) L → frames s !! f = Some x → L f = l1 ++ m :: l2 →
  multifields s !! m = Some y → busyCount y = 0%Z →
  flush_loop (S fuel) f (last l1) (Some m) s =
  flush_loop fuel f (last l1) (mf_next y)
    (regarbaged s (delete m (set_link (last l1) (mf_next y) (multifields s))) f (unlinked_frame l1 l2 (mf_next y) x)).
Proof.
  intros Hrep Hx HL Hm Hy. destruct (mr_list _ _ _ Hrep f x Hx) as [Hs Hl]. rewrite HL in Hs.
  pose proof (mr_nodup _ _ _ Hrep f) as Hnd. rewrite HL in Hnd.
  assert (Hnext : mf_next y = match l2 with [] => None | q :: _ => Some q end).
  { rewrite sseg_app in Hs. destruct Hs as (o & _ & -> & y' & Hy' & Hs). simplify_eq.
    destruct l2; [exact Hs|by destruct Hs as (? & _)]. }
  simpl. prun (multifield_Some _ _ _ Hm). rewrite Hy. simpl.
  unfold modifyP at 1. unfold mbind at 1, P_bind at 1. cbn iota.
  set (s1 := put_multifields (delete m (multifields s)) s).
  assert (H1 : (match last l1 with
    | None => update_frame f (set_ListOfMultifields (mf_next y))
    | Some l => update_multifield l (set_mf_next (mf_next y)) end) s1 =
    Returned tt (put_garbage (delete m (set_link (last l1) (mf_next y) (multifields s)))
    (<[f := match l1 with [] => set_ListOfMultifields (mf_next y) x | _ => x end]> (frames s)) (CurrentGarbageFrame s) s)).
  { destruct l1 as [|q l1 _] using rev_ind; [simpl; exact (update_frame_Some s1 f x _ Hx)|].
    rewrite last_snoc. simpl. replace (match l1 ++ [q] with [] => _ | _ => x end) with x by by destruct l1.
    assert (Hqm : q ≠ m).
    { intros ->. apply NoDup_app in Hnd as (_ & Hd & _). apply (Hd m); set_solver. }
    destruct (sseg_live _ _ _ _ q Hs) as [z Hz]; [set_solver|].
    assert (Hz1 : multifields s1 !! q = Some z) by (simpl; by rewrite lookup_delete_ne).
    rewrite (update_multifield_Some s1 q z _ Hz1). unfold put_multifields, put_garbage. simpl.
    rewrite (insert_id (frames s) f x Hx), (alter_as_insert _ _ _ _ Hz).
    by rewrite delete_insert_ne by congruence. }
  prun H1. set (s2 := put_garbage _ _ _ s).
  assert (H2 : (match mf_next y with None => update_frame f (set_LastMultifield (last l1)) | Some _ => mret tt end) s2 =
    Returned tt (regarbaged s (delete m (set_link (last l1) (mf_next y) (multifields s))) f (unlinked_frame l1 l2 (mf_next y) x))).
  { unfold s2. rewrite Hnext. destruct l2 as [|q l2]; [|by destruct l1].
    erewrite update_frame_Some by (simpl; apply lookup_insert_eq). unfold put_frames, put_garbage, regarbaged. simpl.
    rewrite insert_insert_eq. by destruct l1. }
  by prun H2.
Qed.

Lemma flush_loop_spec l2 : ∀ s f x l1 L fuel,
  multifields_rep (multifields s) (frames s) L → frames s !! f = Some x → L f = l1 ++ l2 → length l2 ≤ fuel →
  ∃ ms x' L', flush_loop fuel f (last l1) (match l2 with [] => None | m :: _ => Some m end) s =
      Returned tt (regarbaged s ms f x') ∧
    multifields_rep ms (<[f := x']> (frames s)) L' ∧ flushed l2 (multifields s) ms ∧ same_but_multifields x x'.
Proof.
  induction l2 as [|m l2 IH]; intros s f x l1 L fuel Hrep Hx HL Hf.
  { exists (multifields s), x, L. unfold regarbaged. rewrite insert_id by done.
    split; [by destruct fuel, s|]. split; [done|]. split; [|by destruct x].
    intros m. by destruct (mview (multifields s) !! m). }
  destruct fuel as [|fuel]; simpl in Hf; [lia|].
  destruct (mr_list _ _ _ Hrep f x Hx) as [Hs _]. rewrite HL in Hs.
  pose proof (mr_nodup _ _ _ Hrep f) as Hnd. rewrite HL in Hnd.
  assert (Hml2 : m ∉ l2) by by apply NoDup_app in Hnd as (_ & _ & [? _]%NoDup_cons).
  destruct (sseg_live _ _ _ _ m Hs) as [y Hy]; [set_solver|].
  assert (Hnext : mf_next y = match l2 with [] => None | q :: _ => Some q end).
  { rewrite sseg_app in Hs. destruct Hs as (o & _ & -> & y' & Hy' & Hs). simplify_eq.
    destruct l2; [exact Hs|by destruct Hs as (? & _)]. }
  destruct (decide (busyCount y = 0%Z)) as [Hb|Hb].
  - rewrite (flush_free s f x l1 m l2 y L fuel Hrep Hx HL Hy Hb), Hnext. set (s1 := regarbaged s _ f _).
    pose proof (multifields_remove _ _ _ f x l1 m l2 y Hrep Hx HL Hy) as Hrep1. rewrite Hnext in Hrep1.
    destruct (IH s1 f (unlinked_frame l1 l2 (match l2 with [] => None | q :: _ => Some q end) x) l1 _ fuel Hrep1)
      as (ms & x' & L' & Hr & Hrep' & Hfl & Hx'); [apply lookup_insert_eq|apply L_upd_eq|lia|].
    exists ms, x', L'. simpl in Hrep', Hfl. rewrite insert_insert_eq in Hrep'. split_and!; try done.
    + rewrite Hr. unfold regarbaged, put_garbage. simpl. by rewrite insert_insert_eq.
    + intros q. rewrite (Hfl q), mview_delete, mview_set_link. destruct (decide (q = m)) as [->|Hne].
      * rewrite lookup_delete_eq. simpl. rewrite (mview_lookup _ _ _ Hy). simpl. rewrite decide_True; [done|]. set_solver.
      * rewrite lookup_delete_ne by done. destruct (mview (multifields s) !! q); [|done]. simpl.
        apply decide_ext. set_solver.
    + eapply same_but_multifields_trans; [apply unlinked_same|exact Hx'].
  - destruct (IH s f x (l1 ++ [m]) L fuel Hrep Hx) as (ms & x' & L' & Hr & Hrep' & Hfl & Hx').
    { by rewrite <- app_assoc. } { lia. }
    exists ms, x', L'. split_and!; try done.
    + simpl. prun (multifield_Some _ _ _ Hy). rewrite (proj2 (Z.eqb_neq _ _)) by done.
      rewrite last_snoc in Hr. by rewrite Hnext.
    + intros q. rewrite (Hfl q). destruct (mview (multifields s) !! q) as [z|] eqn:Hz; [|done]. simpl.
      apply decide_ext. destruct (decide (q = m)) as [->|]; [|set_solver].
      rewrite (mview_lookup _ _ _ Hy) in Hz. simplify_eq. simpl. naive_solver.
Qed.

Lemma FlushMultifields_spec s x L :
  multifields_rep (multifields s) (frames s) L → frames s !! CurrentGarbageFrame s = Some x →
  ∃ ms x' L', FlushMultifields s = Returned tt (regarbaged s ms (CurrentGarbageFrame s) x') ∧
    multifields_rep ms (<[CurrentGarbageFrame s := x']> (frames s)) L' ∧
    flushed (L (CurrentGarbageFrame s)) (multifields s) ms ∧ same_but_multifields x x'.
Proof.
  intros Hrep Hx. set (f := CurrentGarbageFrame s) in *. destruct (mr_list _ _ _ Hrep f x Hx) as [Hs _].
  pose proof (sseg_length _ _ _ _ (mr_nodup _ _ _ Hrep f) Hs) as Hlen.
  destruct (flush_loop_spec (L f) s f x [] L (size (multifields s)) Hrep Hx eq_refl Hlen) as (ms & x' & L' & Hr & Hrest).
  exists ms, x', L'. split; [|done]. unfold FlushMultifields, getsP. unfold mbind at 1, P_bind at 1.
  prun (frame_Some _ _ _ Hx). unfold mbind, P_bind. rewrite <- Hr. f_equal.
  destruct (L f); [exact Hs|]. by destruct Hs.
Qed.
End flush.

(** * Retaining, releasing and ephemerating values

    A value is a node, or a multifield of nodes; retaining it adds one to the
    count of every occurrence of a node, releasing it takes one away. *)

(** ** Occurrences *)

Definition node_of (o : object) : option ptr := match o with ONode p => Some p | _ => None end.

Fixpoint occurs (p : ptr) (l : list ptr) : Z :=
  match l with [] => 0 | q :: l' => (if decide (p = q) then 1 else 0) + occurs p l' end.

Lemma occurs_pos p l : (0 <= occurs p l)%Z.
Proof. induction l; simpl; [done|]. destruct (decide _); lia. Qed.
Lemma occurs_elem p l : p ∈ l → (1 <= occurs p l)%Z.
Proof.
  induction l as [|q l IH]; intros Hp; [set_solver|]. simpl. pose proof (occurs_pos p l).
  destruct (decide (p = q)); [lia|]. assert (p ∈ l) as Hl by set_solver. specialize (IH Hl). lia.
Qed.
Lemma occurs_not p l : p ∉ l → occurs p l = 0%Z.
Proof. induction l as [|q l IH]; intros Hp; [done|]. simpl. rewrite decide_False by set_solver. rewrite IH; [done|set_solver]. Qed.

Section values.
Context {H : Type} `{!GarbageHost H}.
Implicit Types (s : AtomEnv H) (C : TableId → Z → list ptr).

(** ** Counts, 0 for what is not there *)

Definition count_at s (p : ptr) : Z := match nodes s !! p with Some n => count n | None => 0 end.
Definition busy_at s (m : ptr) : Z := match multifields s !! m with Some x => busyCount x | None => 0 end.

Lemma counts_step_count_at s s' d e p :
  counts_step s s' d e → is_Some (nodes s !! p) → count_at s' p = (count_at s p + d p)%Z.
Proof.
  intros Hs [n Hp]. destruct (counts_step_node _ _ _ _ _ _ Hs Hp) as (n' & Hp' & _ & Hc).
  unfold count_at. by rewrite Hp, Hp'.
Qed.
Lemma counts_step_busy_at s s' d e m :
  counts_step s s' d e → is_Some (multifields s !! m) → busy_at s' m = (busy_at s m + e m)%Z.
Proof.
  intros Hs [x Hm]. destruct (option_relation_Some _ _ _ _ (cs_multifields _ _ _ _ Hs m) Hm) as (x' & Hm' & _ & _ & Hb).
  unfold busy_at. by rewrite Hm, Hm'.
Qed.

(** ** Fields *)

(** A field the collector counts: a live node that is no bitmap, or void. *)
Definition plain_field s (o : object) : Prop :=
  match o with
  | ONode p => ∃ n, nodes s !! p = Some n ∧ is_bitmap (contents n) = false
  | OVoid => True
  | _ => False
  end.

Lemma plain_field_step s s' d e o : counts_step s s' d e → plain_field s o → plain_field s' o.
Proof.
  intros Hs. destruct o; simpl; try done. intros (n & Hn & Hb).
  destruct (counts_step_node _ _ _ _ _ _ Hs Hn) as (n' & ? & Hc & _). exists n'. by rewrite Hc.
Qed.

Lemma forM_cons {A} (x : A) l (f : A → P (AtomEnv H) unit) s s1 :
  f x s = Returned tt s1 → forM (x :: l) f s = forM l f s1.
Proof. intros Hx. simpl. by prun Hx. Qed.

(** The step of a list of fields, one by one. *)
Lemma fields_step l (act : object → P (AtomEnv H) unit) (z : Z) (ok : AtomEnv H → ptr → Z → Prop) s C :
  (∀ s C p n, atoms_inv s C → nodes s !! p = Some n → is_bitmap (contents n) = false → ok s p 1%Z →
    ∃ s', act (ONode p) s = Returned tt s' ∧ atoms_inv s' C ∧ counts_step s s' (one_step p z) zero_step) →
  (∀ s, act OVoid s = Returned tt s) →
  (∀ s p k, ok s p (1 + k)%Z → (0 <= k)%Z → ok s p 1%Z) →
  (∀ s s' q d e p k, ok s p ((if decide (p = q) then 1 else 0) + k)%Z → counts_step s s' d e →
    d p = (if decide (p = q) then z else 0)%Z → is_Some (nodes s !! p) → ok s' p k) →
  atoms_inv s C → Forall (plain_field s) l → (∀ p, p ∈ omap node_of l → ok s p (occurs p (omap node_of l))) →
  ∃ s', forM l act s = Returned tt s' ∧ atoms_inv s' C ∧
    counts_step s s' (fun p => (z * occurs p (omap node_of l))%Z) zero_step.
Proof.
  intros Hact Hvoid Hok1 Hokstep. revert s. induction l as [|o l IH]; intros s Hinv Hl Hok.
  { exists s. split_and!; try done. eapply counts_step_ext; [..|apply counts_step_refl]; intros q; unfold zero_step; simpl; lia. }
  apply Forall_cons in Hl as [Ho Hl]. destruct o as [p| | | |]; simpl in Ho; try done.
  - destruct Ho as (n & Hn & Hb). cbn [omap list_omap node_of] in *.
    assert (Hp1 : ok s p 1%Z).
    { eapply (Hok1 s p (occurs p (omap node_of l))); [|apply occurs_pos].
      specialize (Hok p ltac:(set_solver)). simpl in Hok. by rewrite decide_True in Hok. }
    destruct (Hact s C p n Hinv Hn Hb Hp1) as (s1 & Hr1 & Hinv1 & Hstep1).
    assert (Hl1 : Forall (plain_field s1) l).
    { eapply Forall_impl; [exact Hl|]. intros o. by apply (plain_field_step _ _ _ _ o Hstep1). }
    destruct (IH s1 Hinv1 Hl1) as (s2 & Hr2 & Hinv2 & Hstep2).
    { intros q Hq. apply (Hokstep s s1 p (one_step p z) zero_step q); [|exact Hstep1|done|].
      - apply (Hok q). set_solver.
      - apply list_elem_of_omap in Hq as (o & Ho & Heq). rewrite Forall_forall in Hl. specialize (Hl o Ho).
        destruct o; simpl in *; simplify_eq. destruct Hl as (n' & ? & _). eauto. }
    exists s2. split; [by rewrite (forM_cons _ _ _ _ _ Hr1)|]. split; [done|].
    eapply counts_step_ext; [..|exact (counts_step_trans _ _ _ _ _ _ _ Hstep1 Hstep2)].
    + intros q. unfold plus_step, one_step. simpl. destruct (decide _); lia.
    + done.
  - destruct (IH s Hinv Hl Hok) as (s2 & Hr2 & Hrest). exists s2. split; [|done].
    by rewrite (forM_cons _ _ _ _ _ (Hvoid s)).
Qed.

Lemma forM_Retain l s C :
  atoms_inv s C → Forall (plain_field s) l →
  (∀ p, p ∈ omap node_of l → (count_at s p + occurs p (omap node_of l) <= LLONG_MAX)%Z) →
  ∃ s', forM l Retain s = Returned tt s' ∧ atoms_inv s' C ∧
    counts_step s s' (fun p => (1 * occurs p (omap node_of l))%Z) zero_step.
Proof.
  intros Hinv Hl Hb.
  apply (fields_step l Retain 1 (fun s p k => (count_at s p + k <= LLONG_MAX)%Z)); try done.
  - intros s1 C1 p n Hi Hn Hbm Hok. unfold count_at in Hok. rewrite Hn in Hok. by eapply retain_node_spec.
  - intros s1 p k. lia.
  - intros s1 s2 q d e p k Hok Hstep Hd Hp. rewrite (counts_step_count_at _ _ _ _ _ Hstep Hp), Hd.
    destruct (decide _); lia.
Qed.

Lemma forM_Release l s C :
  atoms_inv s C → Forall (plain_field s) l →
  (∀ p, p ∈ omap node_of l → (occurs p (omap node_of l) <= count_at s p)%Z) →
  ∃ s', forM l Release s = Returned tt s' ∧ atoms_inv s' C ∧
    counts_step s s' (fun p => (-1 * occurs p (omap node_of l))%Z) zero_step.
Proof.
  intros Hinv Hl Hb.
  apply (fields_step l Release (-1) (fun s p k => (k <= count_at s p)%Z)); try done.
  - intros s1 C1 p n Hi Hn Hbm Hok. unfold count_at in Hok. rewrite Hn in Hok.
    eapply release_node_spec; try done. lia.
  - intros s1 p k. lia.
  - intros s1 s2 q d e p k Hok Hstep Hd Hp. rewrite (counts_step_count_at _ _ _ _ _ Hstep Hp), Hd.
    destruct (decide _); lia.
Qed.

(** An unmarked node joins the current frame. *)
Lemma ephemerate_node_spec s C p n :
  atoms_inv s C → nodes s !! p = Some n → is_bitmap (contents n) = false →
  ∃ s', ephemerate_node p s = Returned tt s' ∧ atoms_inv s' C ∧ counts_step s s' zero_step zero_step.
Proof.
  intros Hinv Hn Hb. pose proof (node_ok _ _ _ _ Hinv Hn) as Hok.
  assert (Hadd : ∃ s', (if markedEphemeral n then mret tt else add_to_current_frame p (atom_table (contents n)) false) s = Returned tt s' ∧
    atoms_inv s' C ∧ counts_step s s' zero_step zero_step).
  { destruct (markedEphemeral n) eqn:Em; [exists s; split_and!; [done..|apply counts_step_refl]|].
    destruct (ai_current _ _ Hinv) as [x Hx].
    eexists. split; [apply (add_to_current_frame_Some s p n x _ false Hn Hx); done|]. split.
    - apply atoms_inv_push; try done. by eapply node_count.
    - assert (Hm : node_step 0 n (set_marked true n)) by (split; [done|simpl; lia]).
      eapply counts_step_ext; [..|exact (counts_step_trans _ _ _ _ _ _ _ (counts_step_update s p n _ 0 Hn Hm)
        (counts_step_push (put_nodes (<[p := set_marked true n]> (nodes s)) s) _ p x Hx))].
      + intros q. unfold plus_step, one_step, zero_step. destruct (decide _); lia.
      + done. }
  destruct Hadd as (s' & Hr & Hrest). exists s'. split; [|done].
  unfold ephemerate_node. prun (node_Some _ _ _ Hn).
  destruct (contents n) as [type chars| | | |]; try done; simpl in *.
  by rewrite (proj2 (lexeme_type_true type) Hok).
Qed.

Lemma forM_ephemerate l s C depth :
  atoms_inv s C → Forall (plain_field s) l →
  ∃ s', forM l (EphemerateValue depth) s = Returned tt s' ∧ atoms_inv s' C ∧ counts_step s s' zero_step zero_step.
Proof.
  intros Hinv Hl.
  destruct (fields_step l (EphemerateValue depth) 0 (fun _ _ _ => True) s C) as (s' & Hr & Hi & Hs); try done.
  - intros s1 C1 p n Hi Hn Hbm _. destruct (ephemerate_node_spec s1 C1 p n Hi Hn Hbm) as (s' & Hr & Hi' & Hs).
    exists s'. split; [by destruct depth|]. split; [done|]. eapply counts_step_ext; [..|exact Hs]; [|done].
    intros q. unfold one_step, zero_step. by destruct (decide _).
  - intros s1. by destruct depth.
  - exists s'. split_and!; try done.
Qed.

(** ** Values *)

(** The fields of a value. *)
Definition fields_of s (v : object) : list object :=
  match v with
  | OMultifield (Some m) => match multifields s !! m with Some x => mf_contents x | None => [] end
  | OMultifield None => []
  | o => [o]
  end.
Definition value_nodes s (v : object) : list ptr := omap node_of (fields_of s v).
Definition value_step (v : object) : ptr → Z :=
  match v with OMultifield (Some m) => one_step m 1 | _ => zero_step end.

(** A value that is all there. *)
Definition live_value s (v : object) : Prop :=
  Forall (plain_field s) (fields_of s v) ∧
  match v with OMultifield (Some m) => is_Some (multifields s !! m) | _ => True end.

Lemma fields_of_step s s' d e v : counts_step s s' d e → fields_of s' v = fields_of s v.
Proof.
  intros Hs. destruct v as [|[m|]| | |]; try done. simpl. pose proof (cs_multifields _ _ _ _ Hs m) as Hm.
  destruct (multifields s !! m), (multifields s' !! m); simpl in Hm; try done. apply Hm.
Qed.
Lemma live_value_step s s' d e v : counts_step s s' d e → live_value s v → live_value s' v.
Proof.
  intros Hs [Hf Hm]. unfold live_value. rewrite (fields_of_step _ _ _ _ _ Hs). split.
  - eapply Forall_impl; [exact Hf|]. intros o. by apply (plain_field_step _ _ _ _ o Hs).
  - destruct v as [|[m|]| | |]; try done. destruct Hm as [x Hx].
    destruct (option_relation_Some _ _ _ _ (cs_multifields _ _ _ _ Hs m) Hx) as (x' & ? & _). eauto.
Qed.

(** The busy count of one segment. *)
Lemma counts_step_busy s m x z :
  multifields s !! m = Some x →
  counts_step s (put_multifields (<[m := set_busyCount (busyCount x + z) x]> (multifields s)) s) zero_step (one_step m z).
Proof.
  intros Hx. pose proof (counts_step_refl s) as [N M F _ _ _ _]. split; try done. intros q. simpl.
  unfold one_step. destruct (decide (q = m)) as [->|Hq].
  - by rewrite lookup_insert_eq, Hx.
  - rewrite lookup_insert_ne by done. apply M.
Qed.
Lemma atoms_inv_multifields s C ms : atoms_inv s C → atoms_inv (put_multifields ms s) C.
Proof. by intros [? ? ?]. Qed.

Lemma RetainUDFV_spec s C v :
  atoms_inv s C → live_value s v →
  (∀ p, p ∈ value_nodes s v → (count_at s p + occurs p (value_nodes s v) <= LLONG_MAX)%Z) →
  (∀ m, v = OMultifield (Some m) → (0 <= busy_at s m)%Z ∧ (busy_at s m + 1 < 2 ^ 32)%Z) →
  ∃ s', RetainUDFV v s = Returned tt s' ∧ atoms_inv s' C ∧
    counts_step s s' (fun p => occurs p (value_nodes s v)) (value_step v).
Proof.
  intros Hinv [Hf Hm] Hc Hb. destruct v as [p|[m|]|f|i|]; simpl in *; try (by apply Forall_cons in Hf as [? _]).
  - apply Forall_cons in Hf as [(n & Hn & Hbm) _]. assert (Hpin : p ∈ value_nodes s (ONode p)) by (unfold value_nodes; simpl; set_solver).
    specialize (Hc p Hpin). unfold count_at in Hc. rewrite Hn in Hc.
    unfold value_nodes in Hc. simpl in Hc. rewrite decide_True in Hc by done.
    destruct (retain_node_spec s C p n (system_failure "EVALUATN" 7) Hinv Hn Hbm ltac:(lia)) as (s' & ? & ? & Hs).
    exists s'. split_and!; try done. eapply counts_step_ext; [..|exact Hs]; [|done].
    intros q. unfold one_step, value_nodes. simpl. destruct (decide _); lia.
  - destruct Hm as [x Hx]. destruct (Hb m eq_refl) as [Hb0 Hb1]. unfold busy_at in Hb0, Hb1. rewrite Hx in *.
    assert (Hu : uint (busyCount x + 1) = (busyCount x + 1)%Z) by (apply Z.mod_small; lia).
    set (s1 := put_multifields (<[m := set_busyCount (busyCount x + 1) x]> (multifields s)) s).
    pose proof (counts_step_busy s m x 1 Hx) as Hs1. fold s1 in Hs1.
    assert (Hl1 : Forall (plain_field s1) (mf_contents x)).
    { eapply Forall_impl; [exact Hf|]. intros o. by apply (plain_field_step _ _ _ _ o Hs1). }
    destruct (forM_Retain (mf_contents x) s1 C) as (s2 & Hr2 & Hi2 & Hs2); [by apply atoms_inv_multifields|done| |].
    { intros p. unfold value_nodes in Hc. simpl in Hc. rewrite Hx in Hc. apply Hc. }
    exists s2. split_and!; try done.
    + unfold retain_segment. prun (multifield_Some _ _ _ Hx).
      prun (update_multifield_Some s m x (fun x => set_busyCount (uint (busyCount x + 1)) x) Hx). by rewrite Hu.
    + eapply counts_step_ext; [..|exact (counts_step_trans _ _ _ _ _ _ _ Hs1 Hs2)].
      * intros q. unfold plus_step, zero_step, value_nodes. simpl. rewrite Hx. lia.
      * intros q. unfold plus_step, zero_step. lia.
  - exists s. split_and!; try done. eapply counts_step_ext; [..|apply counts_step_refl]; done.
  - exists s. split_and!; try done. eapply counts_step_ext; [..|apply counts_step_refl]; done.
Qed.

Lemma ReleaseUDFV_spec s C v :
  atoms_inv s C → live_value s v →
  (∀ p, p ∈ value_nodes s v → (occurs p (value_nodes s v) <= count_at s p)%Z) →
  (∀ m, v = OMultifield (Some m) → (1 <= busy_at s m)%Z ∧ (busy_at s m < 2 ^ 32)%Z) →
  ∃ s', ReleaseUDFV v s = Returned tt s' ∧ atoms_inv s' C ∧
    counts_step s s' (fun p => (- occurs p (value_nodes s v))%Z) (fun m => (- value_step v m)%Z).
Proof.
  intros Hinv [Hf Hm] Hc Hb. destruct v as [p|[m|]|f|i|]; simpl in *; try (by apply Forall_cons in Hf as [? _]).
  - apply Forall_cons in Hf as [(n & Hn & Hbm) _]. assert (Hpin : p ∈ value_nodes s (ONode p)) by (unfold value_nodes; simpl; set_solver).
    specialize (Hc p Hpin). unfold count_at in Hc. rewrite Hn in Hc.
    unfold value_nodes in Hc. simpl in Hc. rewrite decide_True in Hc by done.
    destruct (release_node_spec s C p n (system_failure "EVALUATN" 8) Hinv Hn Hbm ltac:(lia)) as (s' & ? & ? & Hs).
    exists s'. split_and!; try done. eapply counts_step_ext; [..|exact Hs]; [|done].
    intros q. unfold one_step, value_nodes. simpl. destruct (decide _); lia.
  - destruct Hm as [x Hx]. destruct (Hb m eq_refl) as [Hb0 Hb1]. unfold busy_at in Hb0, Hb1. rewrite Hx in *.
    assert (Hu : uint (busyCount x - 1) = (busyCount x + (-1))%Z) by (apply Z.mod_small; lia).
    set (s1 := put_multifields (<[m := set_busyCount (busyCount x + (-1)) x]> (multifields s)) s).
    pose proof (counts_step_busy s m x (-1) Hx) as Hs1. fold s1 in Hs1.
    assert (Hl1 : Forall (plain_field s1) (mf_contents x)).
    { eapply Forall_impl; [exact Hf|]. intros o. by apply (plain_field_step _ _ _ _ o Hs1). }
    destruct (forM_Release (mf_contents x) s1 C) as (s2 & Hr2 & Hi2 & Hs2); [by apply atoms_inv_multifields|done| |].
    { intros p. unfold value_nodes in Hc. simpl in Hc. rewrite Hx in Hc. apply Hc. }
    exists s2. split_and!; try done.
    + unfold release_segment. prun (multifield_Some _ _ _ Hx).
      prun (update_multifield_Some s m x (fun x => set_busyCount (uint (busyCount x - 1)) x) Hx). by rewrite Hu.
    + eapply counts_step_ext; [..|exact (counts_step_trans _ _ _ _ _ _ _ Hs1 Hs2)].
      * intros q. unfold plus_step, zero_step, value_nodes. simpl. rewrite Hx. lia.
      * intros q. unfold plus_step, zero_step, one_step. simpl. destruct (decide _); lia.
  - exists s. split_and!; try done. eapply counts_step_ext; [..|apply counts_step_refl]; done.
  - exists s. split_and!; try done. eapply counts_step_ext; [..|apply counts_step_refl]; done.
Qed.

Lemma EphemerateValue_spec s C v :
  atoms_inv s C → live_value s v →
  ∃ s', EphemerateValue max_depth v s = Returned tt s' ∧ atoms_inv s' C ∧ counts_step s s' zero_step zero_step.
Proof.
  intros Hinv [Hf Hm]. destruct v as [p|[m|]|f|i|]; simpl in *;
    try (exists s; split_and!; [done..|apply counts_step_refl]).
  - apply Forall_cons in Hf as [(n & Hn & Hbm) _]. by eapply ephemerate_node_spec.
  - destruct Hm as [x Hx]. rewrite Hx in Hf.
    destruct (forM_ephemerate (mf_contents x) s C 1 Hinv Hf) as (s' & Hr & Hrest). exists s'. split; [|done].
    by prun (multifield_Some _ _ _ Hx).
Qed.
End values.
