(* ===== verification/BlockProofs.v ===== *)
(** * Collections and garbage blocks

    The invariant of the collector, the laws of the components it calls, and
    what a collection and the end of a block leave alive.

    Then a value over a collection and at the end of a block. *)
From S2P Require Import Prelude Values Router Process Hash SList AtomState Atoms AtomProofs Garbage.
From S2P Require Import CollectProofs RetainProofs.
(** ** The invariant of the collector *)

Section invariant.
Context {H : Type}.
Implicit Types (s : AtomEnv H) (C : TableId → Z → list ptr) (L : ptr → list ptr).

(** How many references to a node and to a multifield the rest of the system
    holds: at most the counts. *)
Record gc_inv (owned owned_busy : H → ptr → Z) s C L : Prop := {
  gi_atoms : atoms_inv s C;
  gi_multifields : multifields_rep (multifields s) (frames s) L;
  gi_owned p : (0 <= owned (host s) p <= count_at s p)%Z;
  gi_owned_busy m : (0 <= owned_busy (host s) m <= busy_at s m)%Z;
}.

(** What someone else holds is kept. *)
Record keeps_held (owned owned_busy : H → ptr → Z) s s' : Prop := {
  kh_nodes p n : nodes s !! p = Some n → (0 < count n - owned (host s) p)%Z →
    ∃ n', nodes s' !! p = Some n' ∧ contents n' = contents n ∧
      (count n' - owned (host s') p = count n - owned (host s) p)%Z;
  kh_multifields m x : multifields s !! m = Some x → (0 < busyCount x - owned_busy (host s) m)%Z →
    ∃ x', multifields s' !! m = Some x' ∧ mf_contents x' = mf_contents x ∧
      (busyCount x' - owned_busy (host s') m = busyCount x - owned_busy (host s) m)%Z;
  kh_current : CurrentGarbageFrame s' = CurrentGarbageFrame s;
  kh_frames f x : frames s !! f = Some x → ∃ x', frames s' !! f = Some x' ∧ priorFrame x' = priorFrame x ∧
    (dirty x = true → dirty x' = true);
  kh_cleanup : ListOfCleanupFunctions s' = ListOfCleanupFunctions s;
}.

Lemma keeps_held_refl o b s : keeps_held o b s s.
Proof. split; eauto. Qed.
Lemma keeps_held_trans o b s1 s2 s3 : keeps_held o b s1 s2 → keeps_held o b s2 s3 → keeps_held o b s1 s3.
Proof.
  intros [N1 M1 C1 F1 L1] [N2 M2 C2 F2 L2]. split; [| |congruence| |congruence].
  - intros p n Hp Hpos. destruct (N1 p n Hp Hpos) as (n1 & Hp1 & Hc1 & Heq1).
    destruct (N2 p n1 Hp1 ltac:(lia)) as (n2 & ? & ? & ?). exists n2. split_and!; [done|congruence|lia].
  - intros m x Hm Hpos. destruct (M1 m x Hm Hpos) as (x1 & Hm1 & Hc1 & Heq1).
    destruct (M2 m x1 Hm1 ltac:(lia)) as (x2 & ? & ? & ?). exists x2. split_and!; [done|congruence|lia].
  - intros f x Hf. destruct (F1 f x Hf) as (x1 & Hf1 & ? & ?), (F2 f x1 Hf1) as (x2 & ? & ? & ?).
    exists x2. split_and!; [done|congruence|auto].
Qed.
End invariant.

(** The components that the collector calls release what they own. *)
Class GarbageLaws (H : Type) `{!GarbageHost H} := {
  owned : H → ptr → Z;
  owned_busy : H → ptr → Z;
  collects (op : P (AtomEnv H) unit) : Prop := ∀ s C L, gc_inv owned owned_busy s C L →
    ∃ s' C' L', op s = Returned tt s' ∧ gc_inv owned owned_busy s' C' L' ∧ keeps_held owned owned_busy s s';
  law_facts : collects RemoveGarbageFacts;
  law_instances : collects CleanupInstances;
  law_cleanup g : collects (call_cleanup_function g);
}.

Section collection.
Context {H : Type} `{!GarbageHost H, !GarbageLaws H}.
Implicit Types (s : AtomEnv H) (C : TableId → Z → list ptr) (L : ptr → list ptr).
Notation gc_inv := (gc_inv owned owned_busy).
Notation keeps_held := (keeps_held owned owned_busy).

Lemma CallCleanupFunctions_collects : collects CallCleanupFunctions.
Proof.
  intros s C L Hinv. unfold CallCleanupFunctions, getsP. unfold mbind, P_bind.
  generalize (ListOfCleanupFunctions s) as l. intros l. revert s C L Hinv.
  induction l as [|g l IH]; intros s C L Hinv; [exists s, C, L; split_and!; [done..|apply keeps_held_refl]|].
  destruct (law_cleanup g s C L Hinv) as (s1 & C1 & L1 & Hr1 & Hinv1 & Hk1).
  destruct (IH s1 C1 L1 Hinv1) as (s2 & C2 & L2 & Hr2 & Hinv2 & Hk2).
  exists s2, C2, L2. split_and!; [|done|by eapply keeps_held_trans]. by rewrite (forM_cons _ _ _ _ _ Hr1).
Qed.

(** ** The removal of atoms *)

Lemma clear_rest ts x : frame_rest (clear ts x) = frame_rest x ∧ dirty (clear ts x) = dirty x.
Proof.
  unfold clear. revert x. induction ts as [|t ts IH]; intros x; simpl; [done|].
  destruct (IH (set_ephemerals t [] x)) as [-> ->]. done.
Qed.
Lemma ephemerals_clear ts x t : t ∈ ts → ephemerals t (clear ts x) = [].
Proof.
  revert x. induction ts as [|u ts IH]; intros x Ht; [set_solver|]. unfold clear. simpl. fold (clear ts).
  destruct (decide (t ∈ ts)) as [|Hn]; [by apply IH|]. assert (t = u) as -> by set_solver.
  clear IH Ht. revert x. induction ts as [|v ts IH]; intros x; simpl; [apply ephemerals_set_eq|].
  assert (Hcomm : set_ephemerals v [] (set_ephemerals u [] x) = set_ephemerals u [] (set_ephemerals v [] x)) by by destruct u, v.
  change (clear (v :: ts) (set_ephemerals u [] x)) with (clear ts (set_ephemerals v [] (set_ephemerals u [] x))).
  rewrite Hcomm. apply IH. set_solver.
Qed.

#[local] Arguments clear : simpl never.

Lemma view_node s p n : view (nodes s) !! p = Some n → ∃ n', nodes s !! p = Some n' ∧ n = set_next None n'.
Proof. apply view_lookup_inv. Qed.

Lemma collect_count s ns l p :
  view ns = collect l (view (nodes s)) →
  match nodes s !! p with
  | Some n =>
      if decide (p ∈ l ∧ count n = 0%Z) then ns !! p = None
      else ∃ n', ns !! p = Some n' ∧ contents n' = contents n ∧ count n' = count n
  | None => ns !! p = None
  end.
Proof.
  intros Hv. assert (Hp : view ns !! p = collect l (view (nodes s)) !! p) by by rewrite Hv.
  rewrite lookup_collect in Hp. unfold view in Hp. rewrite !lookup_fmap in Hp.
  destruct (nodes s !! p) as [n|]; simpl in Hp.
  - destruct (decide (p ∈ l)) as [Hl|Hl].
    + destruct (count n =? 0)%Z eqn:E.
      * apply Z.eqb_eq in E. rewrite decide_True by done. by destruct (ns !! p).
      * apply Z.eqb_neq in E. rewrite decide_False by naive_solver. destruct (ns !! p) as [n'|]; [|done].
        exists n'. unfold set_next, set_marked in Hp. simpl in Hp. by injection Hp.
    + rewrite decide_False by naive_solver. destruct (ns !! p) as [n'|]; [|done].
      exists n'. unfold set_next, set_marked in Hp. simpl in Hp. by injection Hp.
  - by destruct (ns !! p).
Qed.

Lemma RemoveEphemeralAtoms_collects s C L x :
  gc_inv s C L → frames s !! CurrentGarbageFrame s = Some x → dirty x = true →
  ∃ s' C' x', RemoveEphemeralAtoms s = Returned tt s' ∧ gc_inv s' C' L ∧ keeps_held s s' ∧
    frames s' !! CurrentGarbageFrame s = Some x' ∧ dirty x' = true ∧ (∀ t, ephemerals t x' = []) ∧
    multifields s' = multifields s ∧ host s' = host s.
Proof.
  intros [Ha Hm Ho Hb] Hx Hd.
  destruct (RemoveEphemeralAtoms_spec s C x Ha Hx Hd) as (ns & hs & C' & Hr & Hinv & Hv).
  destruct (clear_rest all_tables x) as [Hrest Hdx].
  eexists _, C', (clear all_tables x). split; [exact Hr|].
  assert (Hframes : ∀ f, option_relation frame_step (const False) (const False) (frames s !! f)
    (<[CurrentGarbageFrame s := clear all_tables x]> (frames s) !! f)).
  { intros f. destruct (decide (f = CurrentGarbageFrame s)) as [->|Hf].
    - rewrite lookup_insert_eq, Hx. simpl. split; [done|]. by rewrite Hdx.
    - rewrite lookup_insert_ne by done. apply option_relation_refl. by intros y. }
  split; [|split; [|split_and!]].
  - split; [done| | |done].
    + refine (multifields_rep_step _ _ _ _ _ zero_step _ Hframes _ Hm).
      * intros m. apply option_relation_refl. intros y. split_and!; try done. unfold zero_step. lia.
      * intros m y Hy. unfold zero_step. rewrite Z.add_0_r. by eapply (mr_busy _ _ _ Hm).
    + intros p. specialize (Ho p). unfold count_at in *. simpl. pose proof (collect_count s ns _ p Hv) as Hc.
      destruct (nodes s !! p) as [n|]; [|by rewrite Hc]. destruct (decide _) as [[_ Hz]|].
      * rewrite Hc. lia.
      * destruct Hc as (n' & -> & _ & ->). done.
  - split; try done; simpl.
    + intros p n Hp Hpos. pose proof (collect_count s ns _ p Hv) as Hc. rewrite Hp in Hc.
      specialize (Ho p). unfold count_at in Ho. rewrite Hp in Ho.
      rewrite decide_False in Hc by (intros [_ ?]; lia). destruct Hc as (n' & ? & ? & Hcn). exists n'. by rewrite Hcn.
    + eauto.
    + intros f y Hy. destruct (option_relation_Some _ _ _ _ (Hframes f) Hy) as (y' & Hy' & Heq & Hdy).
      exists y'. split; [done|]. unfold frame_rest in Heq. injection Heq as -> _ _ _ _. done.
  - simpl. apply lookup_insert_eq.
  - by rewrite Hdx.
  - intros t. apply ephemerals_clear. by destruct t; compute_done.
  - done.
  - done.
Qed.

(** ** The multifields *)

Lemma flushed_cases l ms ms' m : flushed l ms ms' →
  match ms !! m with
  | Some x =>
      if decide (m ∈ l ∧ busyCount x = 0%Z) then ms' !! m = None
      else ∃ x', ms' !! m = Some x' ∧ mf_contents x' = mf_contents x ∧ busyCount x' = busyCount x
  | None => ms' !! m = None
  end.
Proof.
  intros Hfl. specialize (Hfl m). unfold mview in Hfl. rewrite !lookup_fmap in Hfl.
  destruct (ms !! m) as [x|]; simpl in Hfl; [|by destruct (ms' !! m)].
  change (busyCount (set_mf_next None x)) with (busyCount x) in Hfl.
  destruct (decide _); [by destruct (ms' !! m)|]. destruct (ms' !! m) as [x'|]; [|done].
  exists x'. unfold set_mf_next in Hfl. simpl in Hfl. by injection Hfl.
Qed.

Lemma same_but_ephemerals x x' t : same_but_multifields x x' → ephemerals t x' = ephemerals t x.
Proof. unfold same_but_multifields. intros ->. by destruct t. Qed.

Lemma frames_rep_insert vs fs f x x' :
  frames_rep vs fs → fs !! f = Some x → (∀ t, ephemerals t x' = ephemerals t x) →
  (dirty x' = false → ∀ t, ephemerals t x' = []) → frames_rep vs (<[f := x']> fs).
Proof.
  intros [Hcount Hzero Hmark Hnd Hmem Hdis Hcl] Hx He Hd.
  assert (Hin : ∀ g y t, <[f := x']> fs !! g = Some y → ∃ z, fs !! g = Some z ∧ ephemerals t y = ephemerals t z).
  { intros g y t [[<- <-]|[? ?]]%lookup_insert_Some; eauto. }
  split; try done.
  - intros p n Hp Hm. destruct (Hmark p n Hp Hm) as (g & y & Hg & Hy).
    destruct (decide (g = f)) as [->|]; [|exists g, y; by rewrite lookup_insert_ne].
    exists f, x'. rewrite lookup_insert_eq, He. by simplify_eq.
  - intros g y t Hg. destruct (Hin g y t Hg) as (z & ? & ->). eauto.
  - intros g y t p Hg. destruct (Hin g y t Hg) as (z & ? & ->). eauto.
  - intros g h y z t p Hg Hh. destruct (Hin g y t Hg) as (y' & ? & ->), (Hin h z t Hh) as (z' & ? & ->). eauto.
  - intros g y t [[<- <-]|[? ?]]%lookup_insert_Some; eauto.
Qed.

Lemma FlushMultifields_collects s C L x :
  gc_inv s C L → frames s !! CurrentGarbageFrame s = Some x →
  ∃ s' L' x', FlushMultifields s = Returned tt s' ∧ gc_inv s' C L' ∧ keeps_held s s' ∧
    frames s' !! CurrentGarbageFrame s = Some x' ∧ same_but_multifields x x' ∧ nodes s' = nodes s.
Proof.
  intros [Ha Hm Ho Hb] Hx.
  destruct (FlushMultifields_spec s x L Hm Hx) as (ms & x' & L' & Hr & Hm' & Hfl & Hsame).
  assert (Hd : dirty x' = dirty x) by (rewrite Hsame; done).
  assert (Hp : priorFrame x' = priorFrame x) by (rewrite Hsame; done).
  eexists _, L', x'. split; [exact Hr|]. split; [|split; [|split_and!]].
  - destruct Ha as [Ht Hf Hc]. split; [split|done|done|].
    + done.
    + simpl. eapply frames_rep_insert; [done|exact Hx| |].
      * intros t. by apply same_but_ephemerals.
      * intros Hdx t. rewrite (same_but_ephemerals x) by done. apply (fr_clean _ _ Hf _ _ _ Hx). congruence.
    + simpl. by rewrite lookup_insert_eq.
    + intros m. specialize (Hb m). unfold busy_at in *. simpl. pose proof (flushed_cases _ _ _ m Hfl) as Hc'.
      destruct (multifields s !! m) as [y|]; [|by rewrite Hc']. destruct (decide _) as [[_ Hz]|].
      * rewrite Hc'. lia.
      * destruct Hc' as (y' & -> & _ & ->). done.
  - split; try done; simpl.
    + eauto.
    + intros m y Hy Hpos. pose proof (flushed_cases _ _ _ m Hfl) as Hc'. rewrite Hy in Hc'.
      specialize (Hb m). unfold busy_at in Hb. rewrite Hy in Hb.
      rewrite decide_False in Hc' by (intros [_ ?]; lia). destruct Hc' as (y' & ? & ? & Hcy). exists y'. by rewrite Hcy.
    + intros f y Hy. destruct (decide (f = CurrentGarbageFrame s)) as [->|Hf].
      * exists x'. rewrite lookup_insert_eq. simplify_eq. by rewrite Hd.
      * exists y. by rewrite lookup_insert_ne.
  - simpl. apply lookup_insert_eq.
  - done.
  - done.
Qed.

(** ** A collection *)

Theorem collect_garbage_spec s C L x :
  gc_inv s C L → frames s !! CurrentGarbageFrame s = Some x → dirty x = true →
  ∃ s' C' L' x', collect_garbage s = Returned tt s' ∧ gc_inv s' C' L' ∧ keeps_held s s' ∧
    frames s' !! CurrentGarbageFrame s = Some x' ∧ dirty x' = true ∧ ∀ t, ephemerals t x' = [].
Proof.
  intros Hinv Hx Hd.
  destruct (law_facts s C L Hinv) as (s1 & C1 & L1 & Hr1 & Hinv1 & Hk1).
  destruct (law_instances s1 C1 L1 Hinv1) as (s2 & C2 & L2 & Hr2 & Hinv2 & Hk2).
  destruct (CallCleanupFunctions_collects s2 C2 L2 Hinv2) as (s3 & C3 & L3 & Hr3 & Hinv3 & Hk3).
  pose proof (keeps_held_trans _ _ _ _ _ Hk1 (keeps_held_trans _ _ _ _ _ Hk2 Hk3)) as Hk.
  destruct (kh_frames _ _ _ _ Hk _ _ Hx) as (x3 & Hx3 & _ & Hd3). rewrite <- (kh_current _ _ _ _ Hk) in Hx3.
  destruct (RemoveEphemeralAtoms_collects s3 C3 L3 x3 Hinv3 Hx3 (Hd3 Hd))
    as (s4 & C4 & x4 & Hr4 & Hinv4 & Hk4 & Hx4 & Hd4 & He4 & _).
  rewrite <- (kh_current _ _ _ _ Hk4) in Hx4.
  destruct (FlushMultifields_collects s4 C4 L3 x4 Hinv4 Hx4) as (s5 & L5 & x5 & Hr5 & Hinv5 & Hk5 & Hx5 & Hsame & _).
  exists s5, C4, L5, x5. split_and!; try done.
  - unfold collect_garbage. prun Hr1. prun Hr2. prun Hr3. by prun Hr4.
  - eapply keeps_held_trans; [exact Hk|]. by eapply keeps_held_trans.
  - rewrite <- (kh_current _ _ _ _ Hk), <- (kh_current _ _ _ _ Hk4). done.
  - by rewrite Hsame.
  - intros t. by rewrite (same_but_ephemerals x4).
Qed.
End collection.

(** * The end of a garbage block

    A value that is retained over a collection is all there after it; the end
    of a block hands it to the frame before. *)

Section blocks.
Context {H : Type} `{!GarbageHost H, !GarbageLaws H}.
Implicit Types (s : AtomEnv H) (C : TableId → Z → list ptr) (L : ptr → list ptr).
Notation gc_inv := (gc_inv owned owned_busy).
Notation keeps_held := (keeps_held owned owned_busy).

(** References that the rest of the system does not own. *)
Definition unheld s (p : ptr) : Z := (count_at s p - owned (host s) p)%Z.
Definition unheld_busy s (m : ptr) : Z := (busy_at s m - owned_busy (host s) m)%Z.

(** ** Values over a collection *)

(** The value is all there, its nodes stand for the same atoms, and the
    references to them have changed by [d] and [e]. *)
Record same_value (d e : ptr → Z) s s' (v : object) : Prop := {
  sv_live : live_value s' v;
  sv_fields : fields_of s' v = fields_of s v;
  sv_nodes p : p ∈ value_nodes s v → contents <$> nodes s' !! p = contents <$> nodes s !! p ∧
    unheld s' p = (unheld s p + d p)%Z;
  sv_busy m : v = OMultifield (Some m) → unheld_busy s' m = (unheld_busy s m + e m)%Z;
}.

Lemma value_nodes_live s v p : live_value s v → p ∈ value_nodes s v → ∃ n, nodes s !! p = Some n ∧ is_bitmap (contents n) = false.
Proof.
  intros [Hf _] (o & Ho & Hp)%list_elem_of_omap. rewrite Forall_forall in Hf. specialize (Hf o Ho).
  destruct o; simpl in *; simplify_eq. done.
Qed.

Lemma same_value_nodes d e s s' v : same_value d e s s' v → value_nodes s' v = value_nodes s v.
Proof. intros Hs. unfold value_nodes. by rewrite (sv_fields _ _ _ _ _ Hs). Qed.

Lemma same_value_trans d1 e1 d2 e2 s1 s2 s3 v :
  same_value d1 e1 s1 s2 v → same_value d2 e2 s2 s3 v → same_value (plus_step d1 d2) (plus_step e1 e2) s1 s3 v.
Proof.
  intros H1 H2. pose proof (same_value_nodes _ _ _ _ _ H1) as Hn.
  destruct H1 as [L1 F1 N1 B1], H2 as [L2 F2 N2 B2]. split; [done|congruence| |].
  - intros p Hp. destruct (N1 p Hp) as [Hc1 Hu1]. rewrite <- Hn in Hp. destruct (N2 p Hp) as [Hc2 Hu2].
    rewrite Hc2, Hc1, Hu2, Hu1. split; [done|]. unfold plus_step. lia.
  - intros m Hm. rewrite (B2 m Hm), (B1 m Hm). unfold plus_step. lia.
Qed.

Lemma same_value_ext d e d' e' s s' v :
  (∀ p, d p = d' p) → (∀ m, e m = e' m) → same_value d e s s' v → same_value d' e' s s' v.
Proof.
  intros Hd He [V1 V2 V3 V4]. split; [done|done| |].
  - intros p. rewrite <- Hd. apply V3.
  - intros m. rewrite <- He. apply V4.
Qed.

Lemma counts_step_same_value s s' d e v :
  counts_step s s' d e → live_value s v → same_value d e s s' v.
Proof.
  intros Hs Hl. pose proof (cs_host _ _ _ _ Hs) as Hh. split.
  - by eapply live_value_step.
  - by eapply fields_of_step.
  - intros p Hp. destruct (value_nodes_live _ _ _ Hl Hp) as (n & Hn & _).
    destruct (counts_step_node _ _ _ _ _ _ Hs Hn) as (n' & Hn' & Hc & _). unfold unheld.
    rewrite (counts_step_count_at _ _ _ _ _ Hs) by eauto. rewrite Hn', Hn, Hh. simpl. rewrite Hc. split; [done|lia].
  - intros m ->. destruct Hl as [_ Hm]. unfold unheld_busy.
    rewrite (counts_step_busy_at _ _ _ _ _ Hs) by done. rewrite Hh. lia.
Qed.

(** A value every node of which someone holds. *)
Definition held_value s (v : object) : Prop :=
  live_value s v ∧ (∀ p, p ∈ value_nodes s v → (0 < unheld s p)%Z) ∧
  (∀ m, v = OMultifield (Some m) → (0 < unheld_busy s m)%Z).

Lemma keeps_held_value s s' v : keeps_held s s' → held_value s v → same_value zero_step zero_step s s' v.
Proof.
  intros Hk (Hl & Hp & Hm).
  assert (Hn : ∀ p, p ∈ value_nodes s v → ∃ n n', nodes s !! p = Some n ∧ is_bitmap (contents n) = false ∧
    nodes s' !! p = Some n' ∧ contents n' = contents n ∧ unheld s' p = unheld s p).
  { intros p Hin. destruct (value_nodes_live _ _ _ Hl Hin) as (n & Hn & Hb). specialize (Hp p Hin).
    unfold unheld, count_at in *. rewrite Hn in *.
    destruct (kh_nodes _ _ _ _ Hk p n Hn Hp) as (n' & Hn' & Hc & Hu). exists n, n'. by rewrite Hn'. }
  assert (Hf : fields_of s' v = fields_of s v ∧ match v with OMultifield (Some m) => is_Some (multifields s' !! m) ∧ unheld_busy s' m = unheld_busy s m | _ => True end).
  { destruct v as [|[m|]| | |]; try done. destruct Hl as [_ [x Hx]]. specialize (Hm m eq_refl).
    unfold unheld_busy, busy_at in *. simpl. rewrite Hx in *.
    destruct (kh_multifields _ _ _ _ Hk m x Hx Hm) as (x' & Hx' & Hc & Hu). rewrite Hx'. split_and!; [done|eauto|done]. }
  destruct Hf as [Hf Hmf]. split; [|done| |].
  - split; [|by destruct v as [|[m|]| | |]; try done; destruct Hmf]. rewrite Hf. destruct Hl as [Hl _].
    rewrite Forall_forall in *. intros o Ho. specialize (Hl o Ho). destruct o as [p| | | |]; try done.
    destruct (Hn p) as (n & n' & _ & Hb & Hn' & Hc & _).
    { unfold value_nodes. rewrite list_elem_of_omap. by exists (ONode p). }
    simpl. exists n'. by rewrite Hc.
  - intros p Hin. destruct (Hn p Hin) as (n & n' & -> & _ & -> & Hc & Hu). simpl. rewrite Hc. split; [done|].
    unfold zero_step. lia.
  - intros m ->. destruct Hmf as [_ ->]. unfold zero_step. lia.
Qed.

(** ** The counts around a collection *)

Lemma gc_inv_step s s' C C' L d e :
  gc_inv s C L → counts_step s s' d e → atoms_inv s' C' →
  (∀ p, is_Some (nodes s !! p) → (0 <= unheld s p + d p)%Z) →
  (∀ m, is_Some (multifields s !! m) → (0 <= unheld_busy s m + e m)%Z ∧ (busy_at s m + e m < 2 ^ 32)%Z) →
  gc_inv s' C' L.
Proof.
  intros [Ha Hm Ho Hb] Hs Ha' Hd He. split; [done| | |].
  - refine (multifields_rep_step _ _ _ _ _ e (cs_multifields _ _ _ _ Hs) (cs_frames _ _ _ _ Hs) _ Hm).
    intros m x Hx. destruct (He m ltac:(eauto)) as [H1 H2]. specialize (Hb m).
    unfold unheld_busy, busy_at in *. rewrite Hx in *. lia.
  - intros p. rewrite (cs_host _ _ _ _ Hs). specialize (Ho p). destruct (nodes s !! p) as [n|] eqn:Hn.
    + rewrite (counts_step_count_at _ _ _ _ _ Hs) by eauto. specialize (Hd p ltac:(eauto)). unfold unheld in Hd. lia.
    + unfold count_at in *. rewrite Hn in Ho. pose proof (cs_nodes _ _ _ _ Hs p) as Hp. rewrite Hn in Hp.
      destruct (nodes s' !! p); done.
  - intros m. rewrite (cs_host _ _ _ _ Hs). specialize (Hb m). destruct (multifields s !! m) as [x|] eqn:Hx.
    + rewrite (counts_step_busy_at _ _ _ _ _ Hs) by eauto. destruct (He m ltac:(eauto)). unfold unheld_busy in *. lia.
    + unfold busy_at in *. rewrite Hx in Hb. pose proof (cs_multifields _ _ _ _ Hs m) as Hp. rewrite Hx in Hp.
      destruct (multifields s' !! m); done.
Qed.

Lemma unheld_nonneg s C L p : gc_inv s C L → (0 <= unheld s p)%Z.
Proof. intros Hi. pose proof (gi_owned _ _ _ _ _ Hi p). unfold unheld. lia. Qed.
Lemma unheld_busy_nonneg s C L m : gc_inv s C L → (0 <= unheld_busy s m)%Z.
Proof. intros Hi. pose proof (gi_owned_busy _ _ _ _ _ Hi m). unfold unheld_busy. lia. Qed.

(** The counters have room for one more reference by the value. *)
Definition countable s (v : object) : Prop :=
  (∀ p, p ∈ value_nodes s v → (count_at s p + occurs p (value_nodes s v) <= LLONG_MAX)%Z) ∧
  (∀ m, v = OMultifield (Some m) → (busy_at s m + 1 < 2 ^ 32)%Z).

Lemma occurs_value_pos s v p : p ∈ value_nodes s v → (1 <= occurs p (value_nodes s v))%Z.
Proof. apply occurs_elem. Qed.

Lemma retain_value s C L v :
  gc_inv s C L → live_value s v → countable s v →
  ∃ s', RetainUDFV v s = Returned tt s' ∧ gc_inv s' C L ∧ held_value s' v ∧
    counts_step s s' (fun p => occurs p (value_nodes s v)) (value_step v).
Proof.
  intros Hinv Hl [Hc Hb].
  destruct (RetainUDFV_spec s C v (gi_atoms _ _ _ _ _ Hinv) Hl Hc) as (s' & Hr & Ha & Hs).
  { intros m ->. split; [|by apply Hb]. pose proof (gi_owned_busy _ _ _ _ _ Hinv m). lia. }
  pose proof (counts_step_same_value _ _ _ _ _ Hs Hl) as Hv.
  exists s'. split_and!; try done.
  - eapply gc_inv_step; [exact Hinv|exact Hs|exact Ha| |].
    + intros p _. pose proof (unheld_nonneg _ _ _ p Hinv). pose proof (occurs_pos p (value_nodes s v)). lia.
    + intros m [x Hx]. pose proof (unheld_busy_nonneg _ _ _ m Hinv).
      pose proof (mr_busy _ _ _ (gi_multifields _ _ _ _ _ Hinv) m x Hx) as Hbx.
      unfold busy_at. rewrite Hx. destruct v as [|[m'|]| | |]; simpl; unfold zero_step, one_step; try lia.
      specialize (Hb m' eq_refl). destruct (decide (m = m')) as [->|]; [|lia]. unfold busy_at in Hb. rewrite Hx in Hb. lia.
  - split; [exact (sv_live _ _ _ _ _ Hv)|]. rewrite (same_value_nodes _ _ _ _ _ Hv). split.
    + intros p Hp. destruct (sv_nodes _ _ _ _ _ Hv p Hp) as [_ ->]. pose proof (unheld_nonneg _ _ _ p Hinv).
      pose proof (occurs_elem _ _ Hp). lia.
    + intros m Hm. rewrite (sv_busy _ _ _ _ _ Hv m Hm). pose proof (unheld_busy_nonneg _ _ _ m Hinv). subst v. simpl.
      unfold one_step. rewrite decide_True by done. lia.
Qed.

(** Releasing it again needs no more than that the references are there. *)
Lemma release_value s C v :
  atoms_inv s C → live_value s v →
  (∀ p, p ∈ value_nodes s v → (0 <= owned (host s) p)%Z ∧ (occurs p (value_nodes s v) <= unheld s p)%Z) →
  (∀ m, v = OMultifield (Some m) → (0 <= owned_busy (host s) m)%Z ∧ (1 <= unheld_busy s m)%Z ∧ (busy_at s m < 2 ^ 32)%Z) →
  ∃ s', ReleaseUDFV v s = Returned tt s' ∧ atoms_inv s' C ∧
    counts_step s s' (fun p => (- occurs p (value_nodes s v))%Z) (fun m => (- value_step v m)%Z).
Proof.
  intros Ha Hl Hp Hm. apply ReleaseUDFV_spec; try done.
  - intros p Hin. specialize (Hp p Hin). unfold unheld in Hp. lia.
  - intros m Heq. specialize (Hm m Heq). unfold unheld_busy in Hm. lia.
Qed.

(** ** [CleanCurrentGarbageFrame] *)

Lemma optM_None (f : object → P (AtomEnv H) unit) s : (∀ s, f OVoid s = Returned tt s) → optM None f s = f OVoid s.
Proof. by intros ->. Qed.

(** No value is as good as a void one. *)
Definition value_of (rv : option object) : object := match rv with Some v => v | None => OVoid end.
Lemma optM_Retain rv s : optM rv RetainUDFV s = RetainUDFV (value_of rv) s.
Proof. by destruct rv. Qed.
Lemma optM_Release rv s : optM rv ReleaseUDFV s = ReleaseUDFV (value_of rv) s.
Proof. by destruct rv. Qed.
Lemma optM_Ephemerate rv s : optM rv (EphemerateValue max_depth) s = EphemerateValue max_depth (value_of rv) s.
Proof. by destruct rv. Qed.

(** A collection under a value [v] that is retained: [v] and what others hold. *)
Definition safe s (v w : object) : Prop := w = v ∨ held_value s w.

Lemma held_value_step s s' d e w :
  same_value d e s s' w → (∀ p, (0 <= d p)%Z) → (∀ m, (0 <= e m)%Z) → held_value s w → held_value s' w.
Proof.
  intros Hw Hd He (_ & Hp & Hm). split; [by eapply sv_live|]. split.
  - intros p. rewrite (same_value_nodes _ _ _ _ _ Hw). intros Hin. destruct (sv_nodes _ _ _ _ _ Hw p Hin) as [_ ->].
    specialize (Hp p Hin). specialize (Hd p). lia.
  - intros m Ew. rewrite (sv_busy _ _ _ _ _ Hw m Ew). specialize (Hm m Ew). specialize (He m). lia.
Qed.

Lemma value_step_nonneg v m : (0 <= value_step v m)%Z.
Proof. destruct v as [|[]| | |]; unfold value_step, one_step, zero_step; try lia. case_decide; lia. Qed.

(** Retain, then collect. *)
Lemma retain_collect s C L x v :
  gc_inv s C L → frames s !! CurrentGarbageFrame s = Some x → dirty x = true → live_value s v → countable s v →
  ∃ s1 s2 C2 L2 x2, RetainUDFV v s = Returned tt s1 ∧ collect_garbage s1 = Returned tt s2 ∧ gc_inv s2 C2 L2 ∧
    CurrentGarbageFrame s2 = CurrentGarbageFrame s ∧
    (∀ w, safe s v w → same_value (fun p => occurs p (value_nodes s v)) (value_step v) s s2 w) ∧
    frames s2 !! CurrentGarbageFrame s = Some x2 ∧ dirty x2 = true ∧ (∀ t, ephemerals t x2 = []) ∧
    (∀ f y, frames s !! f = Some y → ∃ y', frames s2 !! f = Some y' ∧ priorFrame y' = priorFrame y).
Proof.
  intros Hinv Hx Hd Hl Hc. destruct (retain_value s C L v Hinv Hl Hc) as (s1 & Hr1 & Hinv1 & Hh1 & Hs1).
  destruct (option_relation_Some _ _ _ _ (cs_frames _ _ _ _ Hs1 _) Hx) as (x1 & Hx1 & Hrest & Hd1).
  rewrite <- (cs_current _ _ _ _ Hs1) in Hx1.
  destruct (collect_garbage_spec s1 C L x1 Hinv1 Hx1 (Hd1 Hd)) as (s2 & C2 & L2 & x2 & Hr2 & Hinv2 & Hk2 & Hx2 & Hd2 & He2).
  exists s1, s2, C2, L2, x2. rewrite (cs_current _ _ _ _ Hs1) in Hx2. split_and!; try done.
  - by rewrite (kh_current _ _ _ _ Hk2), (cs_current _ _ _ _ Hs1).
  - intros w Hw. assert (Hlw : live_value s w) by (destruct Hw as [->|[? _]]; done).
    pose proof (counts_step_same_value _ _ _ _ _ Hs1 Hlw) as Hw1.
    assert (Hhw : held_value s1 w).
    { destruct Hw as [->|Hw]; [done|]. eapply held_value_step; [exact Hw1|intros; apply occurs_pos|apply value_step_nonneg|done]. }
    eapply same_value_ext; [..|exact (same_value_trans _ _ _ _ _ _ _ _ Hw1 (keeps_held_value _ _ _ Hk2 Hhw))];
      intros q; unfold plus_step, zero_step; lia.
  - intros f y Hy. destruct (option_relation_Some _ _ _ _ (cs_frames _ _ _ _ Hs1 f) Hy) as (y1 & Hy1 & Hry & _).
    destruct (kh_frames _ _ _ _ Hk2 f y1 Hy1) as (y2 & Hy2 & Hp2 & _). exists y2. split; [done|].
    unfold frame_rest in Hry. injection Hry as Hp1 _ _ _ _. congruence.
Qed.

Lemma release_after s C L s2 C2 L2 v :
  gc_inv s C L → gc_inv s2 C2 L2 →
  same_value (fun p => occurs p (value_nodes s v)) (value_step v) s s2 v →
  (∀ p, p ∈ value_nodes s2 v → (0 <= owned (host s2) p)%Z ∧ (occurs p (value_nodes s2 v) <= unheld s2 p)%Z) ∧
  (∀ m, v = OMultifield (Some m) → (0 <= owned_busy (host s2) m)%Z ∧ (1 <= unheld_busy s2 m)%Z ∧ (busy_at s2 m < 2 ^ 32)%Z).
Proof.
  intros Hinv Hinv2 Hv. rewrite (same_value_nodes _ _ _ _ _ Hv). split.
  - intros p Hp. pose proof (gi_owned _ _ _ _ _ Hinv2 p). split; [lia|].
    destruct (sv_nodes _ _ _ _ _ Hv p Hp) as [_ ->]. pose proof (unheld_nonneg _ _ _ p Hinv). lia.
  - intros m Hm. pose proof (gi_owned_busy _ _ _ _ _ Hinv2 m). split; [lia|]. rewrite (sv_busy _ _ _ _ _ Hv m Hm).
    pose proof (unheld_busy_nonneg _ _ _ m Hinv). destruct (sv_live _ _ _ _ _ Hv) as [_ Hx]. subst v. destruct Hx as [x Hx].
    pose proof (mr_busy _ _ _ (gi_multifields _ _ _ _ _ Hinv2) m x Hx). unfold busy_at. rewrite Hx. simpl.
    unfold one_step. rewrite decide_True by done. lia.
Qed.
End blocks.
