(* ===== verification/SymbolMatch.v ===== *)
(** * Completion: [GetNextSymbolMatch], [FindSymbolMatches]

    The walk of [symbol.c] over the symbol table for the lexemes in use that
    begin with a string, with the length of their common prefix.

    Then what it finds. *)
From S2P Require Import Prelude Values Router Process Hash SList AtomState Atoms AtomProofs.
(** ** Strings *)

Fixpoint CommonPrefixLength (cs ct : string) : Z :=
  match cs, ct with
  | String a cs', String b ct' => if Ascii.eqb a b then 1 + CommonPrefixLength cs' ct' else 0
  | _, _ => 0
  end.

(** The inner loop of [StringWithinString]: [ct] ends before the strings differ. *)
Fixpoint begins_with (ct cs : string) : bool :=
  match ct, cs with
  | EmptyString, _ => true
  | String a ct', String b cs' => Ascii.eqb a b && begins_with ct' cs'
  | _, _ => false
  end.

(** The suffix of [cs] at the first occurrence of [ct]; an empty [ct] has none. *)
Fixpoint StringWithinString (cs ct : string) : option string :=
  match cs with
  | EmptyString => None
  | String _ cs' => if begins_with ct cs && negb (String.eqb ct "") then Some cs else StringWithinString cs' ct
  end.

Definition strlen (s : string) : Z := Z.of_nat (String.length s).

(** [contents[0] == '('] *)
Definition left_parenthesis : Ascii.ascii := Ascii.ascii_of_nat 40.
Definition parenthesized (s : string) : bool :=
  match s with String c _ => Ascii.eqb c left_parenthesis | EmptyString => false end.

Definition lexeme_contents (n : HashNode) : string :=
  match contents n with ALexeme _ chars => chars | _ => "" end.

(** ** The walk *)

(** The condition under which the walk returns a node; [reference] is the last
    match, or the search string before the first. *)
Definition returns (reference searchString : string) (searchLength : Z) (anywhere : bool) (n : HashNode) : bool :=
  if parenthesized (lexeme_contents n) || markedEphemeral n then false
  else if anywhere
       then match StringWithinString (lexeme_contents n) searchString with Some _ => true | None => false end
       else (searchLength <=? CommonPrefixLength reference (lexeme_contents n))%Z.

Section match_.
Context {H : Type}.
Notation P := (P (AtomEnv H)).

(** From [hashPtr] in bucket [i] through the [more] buckets behind it. *)
Fixpoint match_loop (test : HashNode → bool) (more : nat) (i : Z) (hashPtr : option ptr) : P (option ptr) :=
  ns ← getsP nodes;
  r ← someP (search (S (size ns)) ns test None hashPtr);
  match r with
  | (_, Some found) => mret (Some found)
  | (_, None) =>
      match more with
      | O => mret None
      | S more' =>
          hashPtr ← bucket_head SymbolTable (i + 1);
          match_loop test more' (i + 1) hashPtr
      end
  end.

(** [commonPrefixLength] is [None] for [NULL], else the value it points to. *)
Definition GetNextSymbolMatch (searchString : string) (searchLength : Z) (prevSymbol : option ptr) (anywhere : bool)
    (commonPrefixLength : option Z) : P (option ptr * option Z) :=
  let commonPrefixLength :=
    if anywhere then match commonPrefixLength with Some _ => Some 0%Z | None => None end else commonPrefixLength in
  start ← match prevSymbol with
          | None => hashPtr ← bucket_head SymbolTable 0; mret (0%Z, hashPtr, searchString)
          | Some p => n ← node p; mret (bucket n, next n, lexeme_contents n)
          end;
  let '(i, hashPtr, reference) := start in
  found ← match_loop (returns reference searchString searchLength anywhere)
            (Z.to_nat (SYMBOL_HASH_SIZE - 1 - i)) i hashPtr;
  match found with
  | None => mret (None, commonPrefixLength)
  | Some p =>
      n ← node p;
      let prefixLength := CommonPrefixLength reference (lexeme_contents n) in
      mret (Some p,
        if anywhere then commonPrefixLength else
        match commonPrefixLength with
        | None => None
        | Some k =>
            match prevSymbol with
            | None => Some (strlen (lexeme_contents n))
            | Some _ => if (prefixLength <? k)%Z then Some prefixLength else Some k
            end
        end)
  end.

(** The loop of [FindSymbolMatches]; [unsigned] counts wrap. *)
Fixpoint find_loop (fuel : nat) (searchString : string) (hashPtr : option ptr) (reply : list ptr)
    (numberOfMatches : Z) (commonPrefixLength : option Z) : P (list ptr * Z * option Z) :=
  match fuel with
  | O => someP None
  | S fuel' =>
      r ← GetNextSymbolMatch searchString (strlen searchString) hashPtr false commonPrefixLength;
      match r with
      | (None, k) => mret (reply, numberOfMatches, k)
      | (Some p, k) => find_loop fuel' searchString (Some p) (p :: reply) ((numberOfMatches + 1) mod 2 ^ 32) k
      end
  end.

Definition FindSymbolMatches (searchString : string) (commonPrefixLength : option Z) : P (list ptr * Z * option Z) :=
  ns ← getsP nodes;
  find_loop (S (size ns)) searchString None [] 0 commonPrefixLength.
End match_.

(** * What completion finds

    [FindSymbolMatches] returns the lexemes in use that begin with the search
    string, in the order of the table, and the length of the longest prefix
    they share. *)

(** ** Prefixes *)

(** [k] characters of [a] and [b] agree. *)
Fixpoint agree (k : nat) (a b : string) : Prop :=
  match k, a, b with
  | O, _, _ => True
  | S k', String x a', String y b' => x = y ∧ agree k' a' b'
  | _, _, _ => False
  end.

Lemma CommonPrefixLength_agree a b k : (Z.of_nat k <= CommonPrefixLength a b)%Z ↔ agree k a b.
Proof.
  revert b k. induction a as [|x a IH]; intros b k.
  { destruct k, b; simpl; split; intros; try done; lia. }
  destruct b as [|y b]; [destruct k; simpl; split; intros; try done; lia|]. simpl.
  destruct (Ascii.eqb x y) eqn:E.
  - apply Ascii.eqb_eq in E as ->. destruct k as [|k]; cbn [agree].
    2: { rewrite <- IH. split; [intros; split; [done|lia]|lia]. }
    split; [done|]. specialize (IH b 0). simpl in IH. destruct IH as [_ IH]. specialize (IH I). lia.
  - apply Ascii.eqb_neq in E. destruct k; simpl; [lia|]. split; [lia|naive_solver].
Qed.
Lemma CommonPrefixLength_nonneg a b : (0 <= CommonPrefixLength a b)%Z.
Proof. pose proof (CommonPrefixLength_agree a b 0) as Hk. simpl in Hk. naive_solver. Qed.

Lemma agree_sym k a b : agree k a b → agree k b a.
Proof. revert a b. induction k as [|k IH]; intros a b; [done|]. destruct a, b; simpl; naive_solver. Qed.
Lemma agree_trans k a b c : agree k a b → agree k b c → agree k a c.
Proof. revert a b c. induction k as [|k IH]; intros a b c; [done|]. destruct a, b, c; simpl; naive_solver. Qed.
Lemma agree_le k j a b : j ≤ k → agree k a b → agree j a b.
Proof.
  intros Hj Ha. apply CommonPrefixLength_agree. apply CommonPrefixLength_agree in Ha. lia.
Qed.
Lemma agree_length k a b : agree k a b → k ≤ String.length a.
Proof. revert a b. induction k as [|k IH]; intros a b; [lia|]. destruct a, b; simpl; try done. intros [_ ?%IH]. lia. Qed.
Lemma agree_refl k a : k ≤ String.length a → agree k a a.
Proof. revert a. induction k as [|k IH]; intros [|x a]; simpl; try lia; try done. intros ?. split; [done|]. apply IH. lia. Qed.

(** ** The matches *)

(** The lexemes that completion is about. *)
Definition in_use (n : HashNode) : bool := negb (parenthesized (lexeme_contents n) || markedEphemeral n).
Definition matches (searchString : string) (n : HashNode) : bool :=
  in_use n && (strlen searchString <=? CommonPrefixLength searchString (lexeme_contents n))%Z.

(** Whether the walk compares with the search string or with a match. *)
Lemma returns_matches reference searchString n :
  agree (String.length searchString) searchString reference →
  returns reference searchString (strlen searchString) false n = matches searchString n.
Proof.
  intros Ha. unfold returns, matches, in_use. destruct (parenthesized _ || markedEphemeral n); [done|]. simpl.
  apply eq_true_iff_eq. unfold strlen. rewrite !Z.leb_le, !CommonPrefixLength_agree. split; intros Hb.
  - by eapply agree_trans.
  - eapply agree_trans; [by apply agree_sym|done].
Qed.

Section walk.
Context {H : Type}.
Implicit Types (s : AtomEnv H) (C : TableId → Z → list ptr).

Lemma elem_of_middle (l1 l2 : list ptr) p : p ∈ l1 ++ p :: l2.
Proof. set_solver. Qed.

(** The size of the table is never computed with in unary. *)
Lemma symbol_table_size : (0 < SYMBOL_HASH_SIZE)%Z.
Proof. done. Qed.
#[local] Opaque SYMBOL_HASH_SIZE.

(** The nodes of the buckets from [i] on. *)
Definition buckets_from C (i : Z) (n : nat) : list ptr := seqZ i (Z.of_nat n) ≫= C SymbolTable.
Definition table_order C : list ptr := buckets_from C 0 (Z.to_nat SYMBOL_HASH_SIZE).

Lemma buckets_from_S C i n : buckets_from C i (S n) = C SymbolTable i ++ buckets_from C (i + 1) n.
Proof.
  unfold buckets_from. rewrite seqZ_cons by lia. rewrite bind_cons. f_equal. f_equal. f_equal; lia.
Qed.

(** The first of a list of nodes that passes the test. *)
Definition first_match s (test : HashNode → bool) (l : list ptr) : option ptr :=
  head (filter (λ p, from_option test false (nodes s !! p) = true) l).

Lemma first_match_app s test l1 l2 :
  first_match s test (l1 ++ l2) = match first_match s test l1 with Some p => Some p | None => first_match s test l2 end.
Proof. unfold first_match. rewrite filter_app. by destruct (filter _ l1). Qed.

Lemma filter_fails s test l :
  (∀ y b, y ∈ l → nodes s !! y = Some b → test b = false) →
  filter (λ p, from_option test false (nodes s !! p) = true) l = [].
Proof.
  intros Hall. induction l as [|y l IH]; [done|]. rewrite filter_cons_False.
  - apply IH. intros z b Hz. apply Hall. set_solver.
  - destruct (nodes s !! y) as [b|] eqn:Eb; [|done]. simpl. rewrite (Hall y b); [done|set_solver|done].
Qed.

(** One bucket, from any of its nodes. *)
Lemma search_first s C test i hashPtr l :
  tables_rep (nodes s) (heads s) C → sseg (nodes s) hashPtr l None → (∃ l0, C SymbolTable i = l0 ++ l) →
  ∃ past, search (S (size (nodes s))) (nodes s) test None hashPtr = Some (past, first_match s test l).
Proof.
  intros Ht Hs [l0 HC]. assert (Hnd : NoDup l).
  { pose proof (tr_nodup _ _ _ Ht SymbolTable i) as Hd. rewrite HC in Hd. by apply NoDup_app in Hd as (_ & _ & ?). }
  pose proof (sseg_length _ _ _ _ Hnd Hs) as Hlen.
  destruct (search_cases (S (size (nodes s))) (nodes s) test hashPtr l Hs ltac:(lia))
    as [(l1 & x & l2 & n & -> & Hx & Hn & Hall & ->)|[Hall ->]].
  - exists (slast None l1). do 2 f_equal. unfold first_match. rewrite filter_app.
    rewrite (filter_fails s test l1 Hall), filter_cons_True; [done|]. by rewrite Hx.
  - exists (slast None l). do 2 f_equal. unfold first_match.
    by rewrite (filter_fails s test l Hall).
Qed.

Lemma match_loop_spec s C test more i hashPtr l :
  tables_rep (nodes s) (heads s) C → (0 <= i)%Z → (i + Z.of_nat more < SYMBOL_HASH_SIZE)%Z →
  sseg (nodes s) hashPtr l None → (∃ l0, C SymbolTable i = l0 ++ l) →
  match_loop test more i hashPtr s = Returned (first_match s test (l ++ buckets_from C (i + 1) more)) s.
Proof.
  intros Ht. revert i hashPtr l. induction more as [|more IH]; intros i hashPtr l Hi Hmore Hs Hl;
    destruct (search_first s C test i hashPtr l Ht Hs Hl) as [past Hr].
  - cbn [match_loop]. unfold mbind, P_bind, getsP. cbn iota. rewrite Hr. unfold someP.
    rewrite first_match_app. destruct (first_match s test l) eqn:E; [done|]. unfold buckets_from. simpl. done.
  - rewrite first_match_app, buckets_from_S. cbn [match_loop].
    unfold getsP. unfold mbind at 1, P_bind at 1. rewrite Hr. unfold someP. unfold mbind at 1, P_bind at 1. cbn iota.
    destruct (first_match s test l) eqn:E; [done|].
    assert (Hi1 : (0 <= i + 1 < table_size SymbolTable)%Z) by (simpl; lia).
    prun (bucket_head_Some s SymbolTable (i + 1) Hi1).
    apply IH; [lia|lia|by apply (tr_chain _ _ _ Ht)|by exists []].
Qed.

(** ** From one match to the next *)

Lemma buckets_split C i n pre p rest :
  buckets_from C i n = pre ++ p :: rest →
  ∃ j l0 l, (i <= j < i + Z.of_nat n)%Z ∧ C SymbolTable j = l0 ++ p :: l ∧
    rest = l ++ buckets_from C (j + 1) (Z.to_nat (i + Z.of_nat n - 1 - j)).
Proof.
  revert i pre. induction n as [|n IH]; intros i pre; [by destruct pre|]. rewrite buckets_from_S.
  intros (k & [[H1 H2]|[H1 H2]])%app_eq_app.
  - destruct k as [|x k]; simpl in H2.
    + destruct (IH (i + 1)%Z []) as (j & l0 & l & Hj & HC & Hr); [by rewrite H2|].
      exists j, l0, l. split; [lia|]. split; [done|]. rewrite Hr. do 2 f_equal. lia.
    + injection H2 as <- H2. exists i, pre, k. split; [lia|]. split; [done|]. rewrite H2. do 2 f_equal. lia.
  - destruct (IH (i + 1)%Z k H2) as (j & l0 & l & Hj & HC & Hr).
    exists j, l0, l. split; [lia|]. split; [done|]. rewrite Hr. do 2 f_equal. lia.
Qed.

Definition matching s (searchString : string) (l : list ptr) : list ptr :=
  filter (λ p, from_option (matches searchString) false (nodes s !! p) = true) l.

Lemma first_match_head s reference searchString l :
  agree (String.length searchString) searchString reference →
  first_match s (returns reference searchString (strlen searchString) false) l = head (matching s searchString l).
Proof.
  intros Ha. unfold first_match, matching. f_equal. apply list_filter_iff. intros p.
  destruct (nodes s !! p); [|done]. simpl. by rewrite returns_matches.
Qed.

(** What the walk leaves in [commonPrefixLength]. *)
Definition next_prefix (prev : option string) (a : string) (k : Z) : Z :=
  match prev with
  | None => strlen a
  | Some b => if (CommonPrefixLength b a <? k)%Z then CommonPrefixLength b a else k
  end.

(** The lexeme of a node of the table. *)
Definition chars_at s (p : ptr) : string := from_option lexeme_contents "" (nodes s !! p).

Lemma GetNextSymbolMatch_spec s C searchString prev l k :
  tables_rep (nodes s) (heads s) C →
  match prev with
  | None => l = table_order C
  | Some p => ∃ pre, table_order C = pre ++ p :: l ∧ agree (String.length searchString) searchString (chars_at s p)
  end →
  GetNextSymbolMatch searchString (strlen searchString) prev false (Some k) s =
  Returned (match head (matching s searchString l) with
            | None => (None, Some k)
            | Some q => (Some q, Some (next_prefix (chars_at s <$> prev) (chars_at s q) k))
            end) s.
Proof.
  intros Ht Hprev. pose proof symbol_table_size as Hsz.
  assert (Hstart : ∃ i hashPtr reference l1,
    (match prev with
    | None => hashPtr ← bucket_head SymbolTable 0; mret (0%Z, hashPtr, searchString)
    | Some p => n ← node p; mret (bucket n, next n, lexeme_contents n)
    end) s = Returned (i, hashPtr, reference) s ∧ (0 <= i < SYMBOL_HASH_SIZE)%Z ∧
    sseg (nodes s) hashPtr l1 None ∧ (∃ l0, C SymbolTable i = l0 ++ l1) ∧
    l = l1 ++ buckets_from C (i + 1) (Z.to_nat (SYMBOL_HASH_SIZE - 1 - i)) ∧
    agree (String.length searchString) searchString reference ∧
    reference = match prev with None => searchString | Some p => chars_at s p end).
  { destruct prev as [p|].
    - destruct Hprev as (pre & HT & Ha). destruct (buckets_split C 0 _ pre p l HT) as (j & l0 & l1 & Hj & HC & Hl).
      rewrite Z2Nat.id, Z.add_0_l in Hj, Hl by lia.
      assert (Hpin : p ∈ C SymbolTable j) by (rewrite HC; apply elem_of_middle).
      apply (tr_member _ _ _ Ht) in Hpin as (v & Hv & _ & Hb). apply view_lookup_inv in Hv as (n & Hn & ->). simpl in Hb.
      exists j, (next n), (lexeme_contents n), l1. unfold chars_at in *. rewrite Hn in *. split_and!; [..|done|done].
      + prun (node_Some _ _ _ Hn). by rewrite Hb.
      + lia.
      + lia.
      + pose proof (tr_chain _ _ _ Ht SymbolTable j ltac:(simpl; lia)) as Hs. rewrite HC, sseg_app in Hs.
        destruct Hs as (m & _ & -> & n' & Hn' & Hs). rewrite Hn in Hn'. injection Hn' as <-. exact Hs.
      + exists (l0 ++ [p]). by rewrite <- app_assoc.
      + exact Hl.
    - subst l. exists 0%Z, (heads s !! (SymbolTable, 0%Z)), searchString, (C SymbolTable 0%Z). split_and!; [..|done].
      + prun (bucket_head_Some s SymbolTable 0 ltac:(simpl; lia)). done.
      + lia.
      + lia.
      + by apply (tr_chain _ _ _ Ht).
      + by exists [].
      + unfold table_order. replace (Z.to_nat SYMBOL_HASH_SIZE) with (S (Z.to_nat (SYMBOL_HASH_SIZE - 1 - 0))) by (lia).
        apply buckets_from_S.
      + by apply agree_refl. }
  destruct Hstart as (i & hashPtr & reference & l1 & Hr & Hi & Hs & HC & -> & Ha & Href).
  unfold GetNextSymbolMatch. cbn [negb]. prun Hr. cbn iota beta.
  assert (Hloop := match_loop_spec s C (returns reference searchString (strlen searchString) false)
    (Z.to_nat (SYMBOL_HASH_SIZE - 1 - i)) i hashPtr l1 Ht ltac:(lia) ltac:(lia) Hs HC).
  prun Hloop. rewrite first_match_head by done.
  destruct (head (matching s searchString _)) as [q|] eqn:Eq; [|done].
  assert (Hq : ∃ n, nodes s !! q = Some n).
  { apply head_Some_elem_of, list_elem_of_filter in Eq as [Hq _]. destruct (nodes s !! q); [eauto|done]. }
  destruct Hq as [n Hn]. prun (node_Some _ _ _ Hn). unfold mret, P_ret. unfold chars_at. rewrite Hn. simpl.
  rewrite Href. unfold chars_at. destruct prev as [p|]; simpl; [|done]. by destruct (_ <? _)%Z.
Qed.

(** ** The loop *)

Fixpoint shrink (prev : option string) (k : Z) (l : list string) : Z :=
  match l with [] => k | a :: l' => shrink (Some a) (next_prefix prev a k) l' end.

Lemma head_split {A} (l : list A) x : head l = Some x → ∃ l', l = x :: l'.
Proof. destruct l as [|y l']; [done|]. intros [= ->]. eauto. Qed.

Lemma matching_split s searchString l q ms :
  matching s searchString l = q :: ms → ∃ l1 l2, l = l1 ++ q :: l2 ∧ matching s searchString l2 = ms ∧
    from_option (matches searchString) false (nodes s !! q) = true.
Proof.
  unfold matching. induction l as [|x l IH]; [done|]. rewrite filter_cons. destruct (decide _) as [Hx|Hx].
  - intros [= -> <-]. by exists [], l.
  - intros Hm. destruct (IH Hm) as (l1 & l2 & -> & ? & ?). by exists (x :: l1), l2.
Qed.

Lemma matches_agree searchString n :
  matches searchString n = true → agree (String.length searchString) searchString (lexeme_contents n).
Proof. unfold matches. rewrite andb_true_iff, Z.leb_le. intros [_ Hl]. by apply CommonPrefixLength_agree. Qed.

Lemma find_loop_spec fuel : ∀ s C searchString prev l reply number k,
  tables_rep (nodes s) (heads s) C → length (matching s searchString l) < fuel →
  match prev with
  | None => l = table_order C
  | Some p => ∃ pre, table_order C = pre ++ p :: l ∧ agree (String.length searchString) searchString (chars_at s p)
  end →
  find_loop fuel searchString prev reply number (Some k) s =
  Returned (reverse (matching s searchString l) ++ reply,
    match matching s searchString l with
    | [] => number
    | ms => (number + Z.of_nat (length ms)) mod 2 ^ 32
    end%Z,
    Some (shrink (chars_at s <$> prev) k (chars_at s <$> matching s searchString l))) s.
Proof.
  induction fuel as [|fuel IH]; intros s C searchString prev l reply number k Ht Hf Hprev; [lia|].
  pose proof (GetNextSymbolMatch_spec s C searchString prev l k Ht Hprev) as Hr.
  cbn [find_loop]. prun Hr. destruct (matching s searchString l) as [|q ms] eqn:Em; [done|]. cbn [head].
  destruct (matching_split _ _ _ _ _ Em) as (l1 & l2 & -> & Hms & Hq).
  assert (Hagree : agree (String.length searchString) searchString (chars_at s q)).
  { unfold chars_at. destruct (nodes s !! q); [|done]. by apply matches_agree. }
  assert (Hpos : ∃ pre, table_order C = pre ++ q :: l2).
  { destruct prev as [p|]; [destruct Hprev as (pre & -> & _)|by exists l1].
    exists (pre ++ p :: l1). by rewrite <- app_assoc. }
  destruct Hpos as [pre HT].
  rewrite (IH s C searchString (Some q) l2); [|exact Ht|rewrite Hms; cbn [length] in Hf; clear -Hf; lia|exists pre; split; [exact HT|exact Hagree]].
  rewrite Hms, reverse_cons, <- app_assoc. clear. f_equal. f_equal. f_equal. destruct ms as [|r ms]; cbn [length].
  - f_equal; lia.
  - rewrite Zplus_mod_idemp_l. f_equal. lia.
Qed.

(** ** The common prefix *)

Lemma shrink_agree b k l j :
  (Z.of_nat j <= shrink (Some b) k l)%Z ↔ (Z.of_nat j <= k)%Z ∧ ∀ a, a ∈ l → agree j b a.
Proof.
  revert b k. induction l as [|a l IH]; intros b k; simpl; [set_solver|].
  rewrite IH. assert (Hn : (Z.of_nat j <= (if (CommonPrefixLength b a <? k)%Z then CommonPrefixLength b a else k))%Z ↔
    (Z.of_nat j <= k)%Z ∧ agree j b a).
  { rewrite <- CommonPrefixLength_agree. destruct (CommonPrefixLength b a <? k)%Z eqn:E;
      [apply Z.ltb_lt in E|apply Z.ltb_ge in E]; lia. }
  rewrite Hn. split.
  - intros [[Hk Hb] Hl]. split; [done|]. intros c [->|Hc]%elem_of_cons; [done|]. eapply agree_trans; eauto.
  - intros [Hk Hl]. assert (Hb : agree j b a) by (apply Hl; set_solver). split; [done|].
    intros c Hc. eapply agree_trans; [by apply agree_sym|]. apply Hl. set_solver.
Qed.

Lemma shrink_common k a l j :
  (Z.of_nat j <= shrink None k (a :: l))%Z ↔ (∀ b c, b ∈ a :: l → c ∈ a :: l → agree j b c).
Proof.
  simpl. rewrite shrink_agree. unfold strlen. split.
  - intros [Hj Hl] b c Hb Hc.
    assert (Ha : ∀ d, d ∈ a :: l → agree j a d).
    { intros d [->|Hd]%elem_of_cons; [apply agree_refl; lia|by apply Hl]. }
    eapply agree_trans; [apply agree_sym, Ha|apply Ha]; done.
  - intros Hall. assert (Ha : agree j a a) by (apply Hall; set_solver). apply agree_length in Ha as Hj.
    split; [lia|]. intros b Hb. apply Hall; set_solver.
Qed.
(** ** The whole table *)

Lemma elem_of_table_order s C p :
  tables_rep (nodes s) (heads s) C →
  p ∈ table_order C ↔ ∃ n, nodes s !! p = Some n ∧ atom_table (contents n) = SymbolTable.
Proof.
  intros Ht. pose proof symbol_table_size as Hsz. unfold table_order, buckets_from. rewrite Z2Nat.id by lia.
  rewrite list_elem_of_bind. split.
  - intros (i & Hp & _). apply (tr_member _ _ _ Ht) in Hp as (v & Hv & Ha & _).
    apply view_lookup_inv in Hv as (n & Hn & ->). eauto.
  - intros (n & Hn & Ha). pose proof (view_lookup _ _ _ Hn) as Hv. exists (bucket n). split.
    + apply (tr_member _ _ _ Ht). eauto.
    + apply elem_of_seqZ. pose proof (tables_bucket _ _ _ Ht _ _ Hv) as Hb. cbn [contents set_next] in Hb.
      rewrite Ha in Hb. cbn [table_size] in Hb. exact Hb.
Qed.

Lemma table_order_NoDup s C : tables_rep (nodes s) (heads s) C → NoDup (table_order C).
Proof.
  intros Ht. apply NoDup_bind.
  - intros i j p _ _ (n & Hn & _ & <-)%(tr_member _ _ _ Ht) (m & Hm & _ & <-)%(tr_member _ _ _ Ht). congruence.
  - intros i _. apply (tr_nodup _ _ _ Ht).
  - apply NoDup_seqZ.
Qed.

Lemma matching_bound s C searchString :
  tables_rep (nodes s) (heads s) C → length (matching s searchString (table_order C)) ≤ size (nodes s).
Proof.
  intros Ht. assert (Hnd : NoDup (matching s searchString (table_order C))).
  { apply NoDup_filter. by eapply table_order_NoDup. }
  rewrite <- (size_list_to_set (C := gset ptr) _ Hnd), <- (size_dom (D := gset ptr) (nodes s)). apply subseteq_size.
  intros p (_ & Hp)%elem_of_list_to_set%list_elem_of_filter.
  apply (elem_of_table_order s C p Ht) in Hp as (n & Hn & _). apply elem_of_dom. eauto.
Qed.

Lemma FindSymbolMatches_eq s C searchString k :
  tables_rep (nodes s) (heads s) C →
  let ms := matching s searchString (table_order C) in
  FindSymbolMatches searchString (Some k) s =
  Returned (reverse ms, Z.of_nat (length ms) mod 2 ^ 32, Some (shrink None k (chars_at s <$> ms)))%Z s.
Proof.
  intros Ht ms. pose proof (matching_bound s C searchString Ht) as Hb.
  unfold FindSymbolMatches, getsP. unfold mbind, P_bind. rewrite (find_loop_spec _ s C searchString None (table_order C));
    [|exact Ht|unfold ms in *; clear -Hb; lia|reflexivity].
  fold ms. rewrite app_nil_r. by destruct ms.
Qed.

Lemma agree_prefix a b : agree (String.length a) a b ↔ String.prefix a b = true.
Proof.
  revert b. induction a as [|x a IH]; intros [|y b]; simpl; try done.
  destruct (Ascii.ascii_dec x y) as [->|Hne]; [rewrite <- IH; naive_solver|naive_solver].
Qed.
End walk.
