(* ===== verification/BlockEnd.v ===== *)
(** * Cleaning a frame, ending a block

    [CleanCurrentGarbageFrame] and [RestorePriorGarbageFrame] keep the value
    they are given; the multifields that are still in use go to the frame
    before.

    Then the start of a block, and the creation of values inside it. *)
From S2P Require Import Prelude Values Router Process Hash SList AtomState Atoms AtomProofs Garbage.
From S2P Require Import CollectProofs RetainProofs BlockProofs.
(** ** Frames *)

(** A frame changes but for its lists of nodes and of multifields. *)
Lemma multifields_rep_frame ms fs L f x x' :
  multifields_rep ms fs L → fs !! f = Some x → ListOfMultifields x' = ListOfMultifields x →
  LastMultifield x' = LastMultifield x → (dirty x' = false → L f = []) →
  multifields_rep ms (<[f := x']> fs) L.
Proof.
  intros [Hlist Hnd Hdis Hdom Hcl Hb] Hx H1 H2 Hd. split; try done.
  - intros g y [[<- <-]|[? ?]]%lookup_insert_Some; [|eauto]. rewrite H1, H2. eauto.
  - intros g m Hm. destruct (decide (g = f)) as [->|]; [rewrite lookup_insert_eq; eauto|].
    rewrite lookup_insert_ne by done. by eapply Hdom.
  - intros g y [[<- <-]|[? ?]]%lookup_insert_Some; eauto.
Qed.

(** A frame with empty lists ends. *)
Lemma frames_rep_delete vs fs f x :
  frames_rep vs fs → fs !! f = Some x → (∀ t, ephemerals t x = []) → frames_rep vs (delete f fs).
Proof.
  intros [Hcount Hzero Hmark Hnd Hmem Hdis Hcl] Hx He. split; try done.
  - intros p n Hp Hm. destruct (Hmark p n Hp Hm) as (g & y & Hg & Hy). exists g, y. split; [|done].
    rewrite lookup_delete_ne; [done|]. intros ->. simplify_eq. rewrite He in Hy. set_solver.
  - intros g y t [_ ?]%lookup_delete_Some. eauto.
  - intros g y t p [_ ?]%lookup_delete_Some. eauto.
  - intros g h y z t p [_ ?]%lookup_delete_Some [_ ?]%lookup_delete_Some. eauto.
  - intros g y t [_ ?]%lookup_delete_Some. eauto.
Qed.

(** The multifields of [new] behind those of [old], and [new] ends. *)
Definition merged_frame (new old : garbageFrame) : garbageFrame :=
  match ListOfMultifields new with
  | None => old
  | Some _ =>
      set_dirty true (set_LastMultifield (LastMultifield new)
        (match ListOfMultifields old with
         | None => set_ListOfMultifields (ListOfMultifields new) old
         | Some _ => old
         end))
  end.
Definition merged_multifields (ms : gmap ptr Multifield) (new old : garbageFrame) : gmap ptr Multifield :=
  match ListOfMultifields new with
  | None => ms
  | Some _ => match ListOfMultifields old with None => ms | Some _ => set_link (LastMultifield old) (ListOfMultifields new) ms end
  end.

Lemma list_head_None ms o (l : list ptr) : sseg (N := Multifield) ms o l None → o = None ↔ l = [].
Proof. destruct l; simpl; [done|]. intros (-> & _). done. Qed.
Lemma last_nil_iff (l : list ptr) : last l = None ↔ l = [].
Proof. apply last_None. Qed.

Lemma multifields_merge ms fs L nf of_ new old :
  multifields_rep ms fs L → nf ≠ of_ → fs !! nf = Some new → fs !! of_ = Some old →
  multifields_rep (merged_multifields ms new old) (delete nf (<[of_ := merged_frame new old]> fs))
    (L_upd (L_upd L of_ (L of_ ++ L nf)) nf []).
Proof.
  intros Hrep Hne Hn Ho. pose proof Hrep as [Hlist Hnd Hdis Hdom Hcl Hb].
  destruct (Hlist _ _ Hn) as [Hsn Hln], (Hlist _ _ Ho) as [Hso Hlo].
  pose proof (list_head_None _ _ _ Hsn) as En. pose proof (list_head_None _ _ _ Hso) as Eo.
  assert (Hndm : NoDup (L of_ ++ L nf)).
  { apply NoDup_app. split_and!; [apply Hnd| |apply Hnd]. intros m H1 H2. by apply Hne, (Hdis _ _ m). }
  assert (Hslast : slast None (L of_) = last (L of_)) by (unfold slast; by destruct (last (L of_))).
  assert (Hmv : mview (merged_multifields ms new old) = mview ms).
  { unfold merged_multifields. destruct (ListOfMultifields new); [|done]. destruct (ListOfMultifields old); [|done].
    apply mview_set_link. }
  assert (Hmerged : sseg (merged_multifields ms new old) (ListOfMultifields (merged_frame new old)) (L of_ ++ L nf) None ∧
    LastMultifield (merged_frame new old) = last (L of_ ++ L nf)).
  { unfold merged_multifields, merged_frame. destruct (ListOfMultifields new) as [q|] eqn:Eq.
    - assert (Hne1 : L nf ≠ []) by (intros E; by apply En in E). split.
      + pose proof (sseg_concat ms _ _ _ _ _ Hndm Hso Hsn) as Hc. rewrite Hslast, <- Hlo in Hc.
        destruct (ListOfMultifields old) as [r|] eqn:Er; simpl.
        * destruct (L of_); [by destruct Eo as [_ Eo]; discriminate Eo|]. rewrite Er. exact Hc.
        * rewrite (proj1 Eo eq_refl) in *. simpl in *. by rewrite Hlo in Hc.
      + simpl. destruct (L nf) as [|a l _] using rev_ind; [done|]. by rewrite Hln, app_assoc, !last_snoc.
    - rewrite (proj1 En eq_refl), app_nil_r. done. }
  split.
  - intros g y [Hgn Hg]%lookup_delete_Some. rewrite L_upd_ne by done.
    apply lookup_insert_Some in Hg as [[<- <-]|[Hgo Hg]]; [rewrite L_upd_eq; exact Hmerged|].
    rewrite L_upd_ne by done. destruct (Hlist g y Hg) as [Hs ?]. split; [|done].
    eapply sseg_ext; [|exact Hs]. intros m Hm. unfold merged_multifields.
    destruct (ListOfMultifields new); [|done]. destruct (ListOfMultifields old); [|done].
    destruct (LastMultifield old) as [r|] eqn:Er; [|done]. simpl. rewrite lookup_alter_ne; [done|]. intros ->.
    apply Hgo. apply (Hdis of_ g m); [|done]. assert (Hr : last (L of_) = Some m) by (by rewrite <- Hlo, <- Er).
    apply last_Some in Hr as [l' Hl']. rewrite Hl'. set_solver.
  - intros g. unfold L_upd. repeat destruct (decide _); [constructor|done|apply Hnd].
  - intros g h m. unfold L_upd. destruct (decide (g = nf)), (decide (h = nf)), (decide (g = of_)), (decide (h = of_)); subst;
      rewrite ?elem_of_app; try set_solver; try done; intros; destruct_or?; naive_solver.
  - intros g m. unfold L_upd. destruct (decide (g = nf)) as [|Hg]; [set_solver|]. intros Hin.
    rewrite lookup_delete_ne by done. destruct (decide (g = of_)) as [->|]; [rewrite lookup_insert_eq; eauto|].
    rewrite lookup_insert_ne by done. by eapply Hdom.
  - intros g y [Hgn Hg]%lookup_delete_Some Hd. rewrite L_upd_ne by done.
    apply lookup_insert_Some in Hg as [[<- <-]|[Hgo Hg]]; [|rewrite L_upd_ne by done; eauto].
    rewrite L_upd_eq. unfold merged_frame in Hd. destruct (ListOfMultifields new) as [q|] eqn:Eq; [done|].
    rewrite (proj1 En eq_refl), (Hcl _ _ Ho Hd). done.
  - intros m x Hm. pose proof (mview_lookup _ _ _ Hm) as Hv. rewrite Hmv in Hv.
    apply mview_lookup_inv in Hv as (x' & Hx' & Heq). replace (busyCount x) with (busyCount x') by by injection Heq.
    eauto.
Qed.

Section ends.
Context {H : Type} `{!GarbageHost H, !GarbageLaws H}.
Implicit Types (s : AtomEnv H) (C : TableId → Z → list ptr) (L : ptr → list ptr).
Notation gc_inv := (gc_inv owned owned_busy).

Lemma same_value_refl s v : live_value s v → same_value zero_step zero_step s s v.
Proof. intros Hl. apply counts_step_same_value; [apply counts_step_refl|done]. Qed.

(** Frames whose marks, lists and the rest stay are as good. *)
Lemma gc_inv_frame s C L f x x' :
  gc_inv s C L → frames s !! f = Some x → (∀ t, ephemerals t x' = ephemerals t x) →
  ListOfMultifields x' = ListOfMultifields x → LastMultifield x' = LastMultifield x →
  (dirty x' = false → L f = [] ∧ ∀ t, ephemerals t x' = []) →
  gc_inv (put_frames (<[f := x']> (frames s)) s) C L.
Proof.
  intros [[Ht Hf Hc] Hm Ho Hb] Hx He H1 H2 Hd. split; [split|..]; try done; simpl.
  - eapply frames_rep_insert; [done|exact Hx|done|]. intros ?. by apply Hd.
  - destruct (decide (CurrentGarbageFrame s = f)) as [->|]; [rewrite lookup_insert_eq; eauto|by rewrite lookup_insert_ne].
  - eapply multifields_rep_frame; [done|exact Hx|done|done|]. intros ?. by apply Hd.
Qed.

Lemma frame_empty_true x : frame_empty x = true → (∀ t, ephemerals t x = []) ∧ LastMultifield x = None.
Proof.
  unfold frame_empty. rewrite !andb_true_iff, !bool_decide_eq_true. intros (((((((? & ?) & ?) & ?) & ?) & ?) & ?) & ?).
  split; [by intros []|done].
Qed.

(** Putting the two steps of a value together. *)
Lemma same_value_back s s2 s3 d e w :
  same_value d e s s2 w → same_value (fun p => (- d p)%Z) (fun m => (- e m)%Z) s2 s3 w →
  same_value zero_step zero_step s s3 w.
Proof.
  intros H1 H2. eapply same_value_ext; [..|exact (same_value_trans _ _ _ _ _ _ _ _ H1 H2)];
    intros q; unfold plus_step, zero_step; lia.
Qed.

(** Releasing a value leaves every count above what the rest owns. *)
Lemma release_room s v ms fs L :
  multifields_rep ms fs L → ms = multifields s → (∀ p, (0 <= unheld s p)%Z) → (∀ m, (0 <= unheld_busy s m)%Z) →
  (∀ p, p ∈ value_nodes s v → (0 <= owned (host s) p)%Z ∧ (occurs p (value_nodes s v) <= unheld s p)%Z) →
  (∀ m, v = OMultifield (Some m) → (0 <= owned_busy (host s) m)%Z ∧ (1 <= unheld_busy s m)%Z ∧ (busy_at s m < 2 ^ 32)%Z) →
  (∀ p, is_Some (nodes s !! p) → (0 <= unheld s p + - occurs p (value_nodes s v))%Z) ∧
  (∀ m, is_Some (multifields s !! m) → (0 <= unheld_busy s m + - value_step v m)%Z ∧ (busy_at s m + - value_step v m < 2 ^ 32)%Z).
Proof.
  intros Hrep -> Hu Hub Hp Hm. split.
  - intros p _. specialize (Hu p). destruct (decide (p ∈ value_nodes s v)) as [Hin|Hin]; [destruct (Hp p Hin); lia|].
    rewrite (occurs_not p) by done. lia.
  - intros m [z Hz]. specialize (Hub m). pose proof (mr_busy _ _ _ Hrep m z Hz) as Hbz. unfold busy_at. rewrite Hz.
    destruct v as [|[m'|]| | |]; simpl; unfold zero_step, one_step; try lia.
    destruct (decide (m = m')) as [->|]; [|lia]. destruct (Hm m' eq_refl) as (_ & ? & _). lia.
Qed.

Lemma CleanCurrentGarbageFrame_spec s C L rv :
  gc_inv s C L → live_value s (value_of rv) → countable s (value_of rv) →
  ∃ s' C' L', CleanCurrentGarbageFrame rv s = Returned tt s' ∧ gc_inv s' C' L' ∧
    (∀ w, safe s (value_of rv) w → same_value zero_step zero_step s s' w) ∧ CurrentGarbageFrame s' = CurrentGarbageFrame s.
Proof.
  intros Hinv Hl Hc. set (v := value_of rv) in *. set (f := CurrentGarbageFrame s).
  destruct (ai_current _ _ (gi_atoms _ _ _ _ _ Hinv)) as [x Hx].
  unfold CleanCurrentGarbageFrame, getsP. unfold mbind at 1, P_bind at 1. prun (frame_Some _ _ _ Hx).
  destruct (dirty x) eqn:Hd; simpl.
  2: { exists s, C, L. split_and!; try done. intros w [->|[? _]]; by apply same_value_refl. }
  destruct (retain_collect s C L x v Hinv Hx Hd Hl Hc) as (s1 & s2 & C2 & L2 & x2 & Hr1 & Hr2 & Hinv2 & Hcur2 & Hsafe & Hx2 & Hd2 & He2 & _).
  pose proof (Hsafe v (or_introl eq_refl)) as Hv2.
  destruct (release_after s C L s2 C2 L2 v Hinv Hinv2 Hv2) as [Hp2 Hm2].
  destruct (release_value s2 C2 v (gi_atoms _ _ _ _ _ Hinv2) (sv_live _ _ _ _ _ Hv2) Hp2 Hm2) as (s3 & Hr3 & Ha3 & Hs3).
  assert (Hinv3 : gc_inv s3 C2 L2).
  { destruct (release_room s2 v _ _ _ (gi_multifields _ _ _ _ _ Hinv2) eq_refl
      (fun p => unheld_nonneg _ _ _ p Hinv2) (fun m => unheld_busy_nonneg _ _ _ m Hinv2) Hp2 Hm2) as [R1 R2].
    by eapply gc_inv_step. }
  assert (Hv : ∀ w, safe s v w → same_value zero_step zero_step s s3 w).
  { intros w Hw. apply Hsafe in Hw. pose proof (counts_step_same_value _ _ _ _ _ Hs3 (sv_live _ _ _ _ _ Hw)) as Hw3.
    rewrite (same_value_nodes _ _ _ _ _ Hv2) in Hw3. exact (same_value_back _ _ _ _ _ _ Hw Hw3). }
  pose proof (cs_current _ _ _ _ Hs3) as Hcur3.
  destruct (ai_current _ _ (gi_atoms _ _ _ _ _ Hinv3)) as [x3 Hx3]. rewrite Hcur3, Hcur2 in Hx3. fold f in Hx3.
  assert (Hrun : (_ ← optM rv RetainUDFV; _ ← collect_garbage; _ ← optM rv ReleaseUDFV;
    currentGarbageFrame ← frame f;
    if frame_empty currentGarbageFrame then update_frame f (set_dirty false) else mret tt) s =
    (if frame_empty x3 then update_frame f (set_dirty false) else mret tt) s3).
  { assert (E1 : optM rv RetainUDFV s = Returned tt s1) by (rewrite optM_Retain; exact Hr1).
    assert (E3 : optM rv ReleaseUDFV s2 = Returned tt s3) by (rewrite optM_Release; exact Hr3).
    prun E1. prun Hr2. prun E3. by prun (frame_Some _ _ _ Hx3). }
  fold f. rewrite Hrun. destruct (frame_empty x3) eqn:Ee.
  - apply frame_empty_true in Ee as [Ee El].
    eexists _, C2, L2. split; [exact (update_frame_Some _ _ _ _ Hx3)|]. split; [|split].
    + eapply gc_inv_frame; [exact Hinv3|exact Hx3|by intros []|done|done|]. intros _.
      split; [|intros t; rewrite <- (Ee t); by destruct t].
      destruct (mr_list _ _ _ (gi_multifields _ _ _ _ _ Hinv3) f x3 Hx3) as [_ Hlast]. rewrite El in Hlast.
      symmetry in Hlast. by apply last_None in Hlast.
    + intros w [V1 V2 V3 V4]%Hv. by split.
    + simpl. by rewrite Hcur3, Hcur2.
  - exists s3, C2, L2. split_and!; try done. by rewrite Hcur3, Hcur2.
Qed.

(** ** The end of a block *)

Definition ended (nf : ptr) s : AtomEnv H := put_frames (delete nf (frames s)) s.

(** The state over which the frame [nf] ends well. *)
Definition ends_well (nf : ptr) s C L : Prop :=
  gc_inv (ended nf s) C L ∧ atoms_inv s C ∧ nf ≠ CurrentGarbageFrame s ∧
  ∃ x, frames s !! nf = Some x ∧ ∀ t, ephemerals t x = [].

Lemma atoms_inv_ended nf s C x :
  atoms_inv s C → nf ≠ CurrentGarbageFrame s → frames s !! nf = Some x → (∀ t, ephemerals t x = []) →
  atoms_inv (ended nf s) C.
Proof.
  intros [Ht Hf Hc] Hne Hx He. split; [done| |]; simpl.
  - by eapply frames_rep_delete.
  - by rewrite lookup_delete_ne.
Qed.

Lemma ends_well_step nf s s' C L d e :
  ends_well nf s C L → counts_step s s' d e → atoms_inv s' C →
  (∀ p, is_Some (nodes s !! p) → (0 <= unheld s p + d p)%Z) →
  (∀ m, is_Some (multifields s !! m) → (0 <= unheld_busy s m + e m)%Z ∧ (busy_at s m + e m < 2 ^ 32)%Z) →
  ends_well nf s' C L.
Proof.
  intros (Hinv & Ha & Hne & x & Hx & He) Hs Ha' Hd Hb.
  assert (Hx' : frames s' !! nf = Some x) by (by rewrite (cs_others _ _ _ _ Hs)).
  assert (Hne' : nf ≠ CurrentGarbageFrame s') by (by rewrite (cs_current _ _ _ _ Hs)).
  split_and!; [|done..|eauto].
  eapply gc_inv_step; [exact Hinv| |by eapply atoms_inv_ended|exact Hd|exact Hb].
  destruct Hs as [N M F O Cu Cl Ho]. split; try done; simpl.
  - intros f. destruct (decide (f = nf)) as [->|]; [by rewrite !lookup_delete_eq|by rewrite !lookup_delete_ne].
  - intros f Hf. destruct (decide (f = nf)) as [->|]; [by rewrite !lookup_delete_eq|].
    rewrite !lookup_delete_ne by done. by apply O.
Qed.

(** A frame that another one takes the place of, but for the lists of facts
    and instances. *)
Definition same_lists (y y' : garbageFrame) : Prop :=
  (∀ t, ephemerals t y' = ephemerals t y) ∧ ListOfMultifields y' = ListOfMultifields y ∧
  LastMultifield y' = LastMultifield y ∧ (dirty y = true → dirty y' = true).

Lemma merge_rest nf of_ s x y :
  nf ≠ of_ → frames s !! nf = Some x → frames s !! of_ = Some y →
  ∃ y', (_ ← merge_facts nf of_; merge_instances nf of_) s = Returned tt (put_frames (<[of_ := y']> (frames s)) s) ∧
    same_lists y y'.
Proof.
  intros Hne Hx Hy.
  assert (H1 : ∃ y1, merge_facts nf of_ s = Returned tt (put_frames (<[of_ := y1]> (frames s)) s) ∧ same_lists y y1).
  { unfold merge_facts. destruct (GarbageFacts x) as [|a l] eqn:E.
    - exists y. prun (frame_Some _ _ _ Hx). rewrite E, insert_id by done. by destruct s.
    - eexists. split; [prun (frame_Some _ _ _ Hx); rewrite E; prun (update_frame_Some _ _ _ (fun old => set_GarbageFacts (GarbageFacts old ++ a :: l) old) Hy);
        erewrite update_frame_Some by (simpl; apply lookup_insert_eq);
        unfold put_frames, put_garbage; simpl; by rewrite insert_insert_eq|].
      by split_and!; [intros []|..]. }
  destruct H1 as (y1 & Hr1 & Hs1). set (s1 := put_frames _ s) in Hr1.
  assert (Hx1 : frames s1 !! nf = Some x) by (simpl; by rewrite lookup_insert_ne).
  assert (Hy1 : frames s1 !! of_ = Some y1) by (simpl; apply lookup_insert_eq).
  assert (H2 : ∃ y2, merge_instances nf of_ s1 = Returned tt (put_frames (<[of_ := y2]> (frames s)) s) ∧ same_lists y1 y2).
  { unfold merge_instances. destruct (GarbageInstances x) as [|a l] eqn:E.
    - exists y1. prun (frame_Some _ _ _ Hx1). by rewrite E.
    - eexists. split; [prun (frame_Some _ _ _ Hx1); rewrite E; prun (update_frame_Some _ _ _ (fun old => set_GarbageInstances (GarbageInstances old ++ a :: l) old) Hy1);
        erewrite update_frame_Some by (simpl; apply lookup_insert_eq);
        unfold put_frames, put_garbage; simpl; by rewrite !insert_insert_eq|].
      by split_and!; [intros []|..]. }
  destruct H2 as (y2 & Hr2 & Hs2). exists y2. split; [by prun Hr1|].
  destruct Hs1 as (E1 & L1 & T1 & D1), Hs2 as (E2 & L2 & T2 & D2). split_and!; [|congruence..|auto].
  intros t. by rewrite E2, E1.
Qed.

Lemma merge_multifields_Some nf of_ s L x y :
  multifields_rep (multifields s) (frames s) L → nf ≠ of_ →
  frames s !! nf = Some x → frames s !! of_ = Some y →
  merge_multifields nf of_ s =
  Returned tt (put_garbage (merged_multifields (multifields s) x y) (<[of_ := merged_frame x y]> (frames s)) (CurrentGarbageFrame s) s).
Proof.
  intros Hrep Hne Hx Hy. unfold merge_multifields, merged_multifields, merged_frame. prun (frame_Some _ _ _ Hx).
  destruct (ListOfMultifields x) as [q|] eqn:Eq.
  2: { rewrite insert_id by done. by destruct s. }
  prun (frame_Some _ _ _ Hy). destruct (mr_list _ _ _ Hrep _ _ Hy) as [Hso Hlo].
  pose proof (list_head_None _ _ _ Hso) as Eo. destruct (ListOfMultifields y) as [r|] eqn:Er.
  - destruct (L of_) as [|m l _] eqn:EL using rev_ind; [by destruct Eo as [_ Eo]; discriminate Eo|].
    rewrite last_snoc in Hlo. rewrite Hlo. destruct (sseg_live _ _ _ _ m Hso) as [z Hz]; [set_solver|].
    assert (H1 : (l0 ← someP (Some m); update_multifield l0 (set_mf_next (Some q))) s =
      Returned tt (put_multifields (<[m := set_mf_next (Some q) z]> (multifields s)) s))
      by exact (update_multifield_Some s m z (set_mf_next (Some q)) Hz).
    prun H1.
    erewrite P_bind_Returned by (apply update_frame_Some; exact Hy).
    erewrite update_frame_Some by (simpl; apply lookup_insert_eq).
    unfold put_frames, put_multifields, put_garbage. simpl. rewrite insert_insert_eq.
    by rewrite (alter_as_insert _ _ _ _ Hz).
  - prun (update_frame_Some s of_ y (set_ListOfMultifields (Some q)) Hy).
    erewrite P_bind_Returned by (apply update_frame_Some; simpl; apply lookup_insert_eq).
    erewrite update_frame_Some by (simpl; apply lookup_insert_eq).
    unfold put_frames, put_garbage. simpl. by rewrite !insert_insert_eq.
Qed.

(** States with the same nodes and, but for the links, the same multifields. *)
Record same_objects s s' : Prop := {
  so_nodes : nodes s' = nodes s;
  so_multifields : mview (multifields s') = mview (multifields s);
  so_host : host s' = host s;
}.

Lemma same_objects_lookup s s' m : same_objects s s' →
  match multifields s !! m, multifields s' !! m with
  | Some x, Some x' => mf_contents x' = mf_contents x ∧ busyCount x' = busyCount x
  | None, None => True
  | _, _ => False
  end.
Proof.
  intros [_ Hm _]. assert (Hv : mview (multifields s') !! m = mview (multifields s) !! m) by by rewrite Hm.
  unfold mview in Hv. rewrite !lookup_fmap in Hv.
  destruct (multifields s !! m) as [x|], (multifields s' !! m) as [x'|]; try done.
  unfold set_mf_next in Hv. simpl in Hv. by injection Hv.
Qed.

Lemma same_objects_busy s s' m : same_objects s s' → busy_at s' m = busy_at s m.
Proof.
  intros Hs. pose proof (same_objects_lookup s s' m Hs) as Hm. unfold busy_at.
  destruct (multifields s !! m), (multifields s' !! m); try done. apply Hm.
Qed.

Lemma same_objects_value s s' v : same_objects s s' → live_value s v → same_value zero_step zero_step s s' v.
Proof.
  intros Hs [Hf Hm]. assert (Hfields : fields_of s' v = fields_of s v).
  { destruct v as [|[m|]| | |]; try done. simpl. pose proof (same_objects_lookup s s' m Hs) as Hx.
    destruct (multifields s !! m), (multifields s' !! m); try done. apply Hx. }
  split; [split|done| |].
  - rewrite Hfields. eapply Forall_impl; [exact Hf|]. intros [p| | | |]; try done. simpl. by rewrite (so_nodes _ _ Hs).
  - destruct v as [|[m|]| | |]; try done. destruct Hm as [x Hx]. pose proof (same_objects_lookup s s' m Hs) as Hx'.
    rewrite Hx in Hx'. destruct (multifields s' !! m); [eauto|done].
  - intros p _. unfold unheld, count_at, zero_step. rewrite (so_nodes _ _ Hs), (so_host _ _ Hs). split; [done|lia].
  - intros m _. unfold unheld_busy, zero_step. rewrite (same_objects_busy _ _ _ Hs), (so_host _ _ Hs). lia.
Qed.

(** The lists of a collected frame go to the frame before. *)
Lemma merges_spec s C L nf of_ x :
  gc_inv s C L → CurrentGarbageFrame s = nf → nf ≠ of_ → frames s !! nf = Some x → is_Some (frames s !! of_) →
  (∀ t, ephemerals t x = []) →
  ∃ s3 L3, (_ ← merge_multifields nf of_; _ ← merge_facts nf of_; merge_instances nf of_) (put_current of_ s) = Returned tt s3 ∧
    ends_well nf s3 C L3 ∧ same_objects s s3 ∧ CurrentGarbageFrame s3 = of_.
Proof.
  intros [Ha Hm Ho Hb] Hcur Hne Hx [y Hy] He. set (s0 := put_current of_ s).
  pose proof (merge_multifields_Some nf of_ s0 L x y Hm Hne Hx Hy) as Hr1. set (s1 := put_garbage _ _ _ s0) in Hr1.
  assert (Hx1 : frames s1 !! nf = Some x) by (simpl; by rewrite lookup_insert_ne).
  assert (Hy1 : frames s1 !! of_ = Some (merged_frame x y)) by (simpl; apply lookup_insert_eq).
  destruct (merge_rest nf of_ s1 x (merged_frame x y) Hne Hx1 Hy1) as (y' & Hr2 & He' & Hl' & Ht' & Hd').
  set (s3 := put_frames _ s1) in Hr2. simpl in s3.
  set (L3 := L_upd (L_upd L of_ (L of_ ++ L nf)) nf []).
  pose proof (multifields_merge _ _ _ nf of_ x y Hm Hne Hx Hy) as Hm1. fold L3 in Hm1.
  assert (Hfr : frames s3 = <[of_ := y']> (frames s)).
  { unfold s3. simpl. by rewrite insert_insert_eq. }
  assert (Hey : ∀ t, ephemerals t y' = ephemerals t y).
  { intros t. rewrite He'. unfold merged_frame. destruct (ListOfMultifields x); [|done].
    by destruct t, (ListOfMultifields y). }
  assert (Hdy : dirty y' = false → dirty (merged_frame x y) = false).
  { intros Hd. destruct (dirty (merged_frame x y)) eqn:E; [|done]. by rewrite Hd' in Hd. }
  assert (Hdm : dirty (merged_frame x y) = false → dirty y = false).
  { unfold merged_frame. by destruct (ListOfMultifields x). }
  assert (Hat : atoms_inv s3 C).
  { destruct Ha as [Htb Hf Hc]. split; [done| |].
    - rewrite Hfr. eapply frames_rep_insert; [exact Hf|exact Hy|exact Hey|].
      intros Hd t. rewrite Hey. apply (fr_clean _ _ Hf _ _ _ Hy). auto.
    - rewrite Hfr. simpl. rewrite lookup_insert_eq. eauto. }
  assert (Hms : multifields_rep (multifields s3) (delete nf (frames s3)) L3).
  { rewrite Hfr. simpl. assert (Hy1' : delete nf (<[of_ := merged_frame x y]> (frames s)) !! of_ = Some (merged_frame x y)).
    { by rewrite lookup_delete_ne, lookup_insert_eq. }
    pose proof (multifields_rep_frame _ _ _ _ _ y' Hm1 Hy1' Hl' Ht') as Hf.
    rewrite <- delete_insert_ne in Hf by done. rewrite insert_insert_eq in Hf. apply Hf.
    intros Hd. apply (mr_clean _ _ _ Hm1 of_ (merged_frame x y)); [done|auto]. }
  assert (Hso : same_objects s s3).
  { split; try done. simpl. unfold merged_multifields. destruct (ListOfMultifields x); [|done].
    destruct (ListOfMultifields y); [|done]. apply mview_set_link. }
  exists s3, L3. split; [|split; [|split; [exact Hso|done]]].
  - prun Hr1. exact Hr2.
  - assert (Hx3 : frames s3 !! nf = Some x) by (rewrite Hfr; by rewrite lookup_insert_ne).
    split_and!; [|exact Hat|exact Hne|eauto]. split.
    + by eapply atoms_inv_ended.
    + exact Hms.
    + exact Ho.
    + intros m. pose proof (same_objects_busy _ _ m Hso) as Hbm. simpl. specialize (Hb m).
      change (busy_at (ended nf s3) m) with (busy_at s3 m). by rewrite Hbm.
Qed.

(** Nothing to hand over: the frame was not dirty. *)
Lemma clean_ends_well s C L nf of_ x :
  gc_inv s C L → CurrentGarbageFrame s = nf → nf ≠ of_ → frames s !! nf = Some x → is_Some (frames s !! of_) →
  dirty x = false → ∃ L3, ends_well nf (put_current of_ s) C L3.
Proof.
  intros [Ha Hm Ho Hb] Hcur Hne Hx [y Hy] Hd. destruct (mr_list _ _ _ Hm _ _ Hx) as [Hs _].
  rewrite (mr_clean _ _ _ Hm _ _ Hx Hd) in Hs. simpl in Hs.
  assert (He : ∀ t, ephemerals t x = []).
  { intros t. destruct Ha as [_ Hf _]. exact (fr_clean _ _ Hf _ _ _ Hx Hd). }
  assert (Hat : atoms_inv (put_current of_ s) C).
  { destruct Ha as [Htb Hf Hc]. split; [done..|]. simpl. eauto. }
  exists (L_upd (L_upd L of_ (L of_ ++ L nf)) nf []). split_and!; [|exact Hat|done|eauto]. split; try done.
  - by eapply atoms_inv_ended.
  - pose proof (multifields_merge _ _ _ nf of_ x y Hm Hne Hx Hy) as Hm1.
    unfold merged_multifields, merged_frame in Hm1. rewrite Hs, insert_id in Hm1 by done. exact Hm1.
Qed.

(** From the end of the collection to the release of the value, in the frame before. *)
Lemma merge_release s C L s2 C2 L2 nf of_ rv x2 :
  gc_inv s C L → gc_inv s2 C2 L2 → CurrentGarbageFrame s2 = nf → nf ≠ of_ → frames s2 !! nf = Some x2 →
  is_Some (frames s2 !! of_) → (∀ t, ephemerals t x2 = []) →
  (∀ w, safe s (value_of rv) w →
    same_value (fun p => occurs p (value_nodes s (value_of rv))) (value_step (value_of rv)) s s2 w) →
  ∃ s4 L4, (_ ← merge_multifields nf of_; _ ← merge_facts nf of_; _ ← merge_instances nf of_; optM rv ReleaseUDFV)
      (put_current of_ s2) = Returned tt s4 ∧
    ends_well nf s4 C2 L4 ∧ (∀ w, safe s (value_of rv) w → same_value zero_step zero_step s s4 w) ∧ CurrentGarbageFrame s4 = of_.
Proof.
  intros Hinv Hinv2 Hcur2 Hne Hx2 Hy2 He2 Hsafe. set (v := value_of rv) in *.
  pose proof (Hsafe v (or_introl eq_refl)) as Hv2.
  destruct (merges_spec s2 C2 L2 nf of_ x2 Hinv2 Hcur2 Hne Hx2 Hy2 He2) as (s3 & L3 & Hr3 & Hew3 & Hso & Hcur3).
  pose proof (same_objects_value _ _ _ Hso (sv_live _ _ _ _ _ Hv2)) as Hv3.
  pose proof (release_after s C L s2 C2 L2 v Hinv Hinv2 Hv2) as [Hp2 Hm2].
  assert (Hp3 : ∀ p, p ∈ value_nodes s3 v → (0 <= owned (host s3) p)%Z ∧ (occurs p (value_nodes s3 v) <= unheld s3 p)%Z).
  { intros p. rewrite (same_value_nodes _ _ _ _ _ Hv3). intros Hp. destruct (sv_nodes _ _ _ _ _ Hv3 p Hp) as [_ ->].
    rewrite (so_host _ _ Hso). unfold zero_step. rewrite Z.add_0_r. by apply Hp2. }
  assert (Hm3 : ∀ m, v = OMultifield (Some m) → (0 <= owned_busy (host s3) m)%Z ∧ (1 <= unheld_busy s3 m)%Z ∧ (busy_at s3 m < 2 ^ 32)%Z).
  { intros m Hm. rewrite (sv_busy _ _ _ _ _ Hv3 m Hm), (same_objects_busy _ _ _ Hso), (so_host _ _ Hso).
    unfold zero_step. rewrite Z.add_0_r. by apply Hm2. }
  pose proof Hew3 as (Hinv3 & Ha3 & _).
  destruct (release_value s3 C2 v Ha3 (sv_live _ _ _ _ _ Hv3) Hp3 Hm3) as (s4 & Hr4 & Ha4 & Hs4).
  exists s4, L3. split_and!.
  - assert (E4 : optM rv ReleaseUDFV s3 = Returned tt s4) by (rewrite optM_Release; exact Hr4).
    rewrite <- E4. revert Hr3. unfold mbind, P_bind.
    destruct (merge_multifields nf of_ (put_current of_ s2)) as [[] t1| |]; [|done..].
    destruct (merge_facts nf of_ t1) as [[] t2| |]; [|done..]. intros ->. done.
  - destruct (release_room s3 v _ _ _ (gi_multifields _ _ _ _ _ Hinv3) eq_refl
      (fun p => unheld_nonneg _ _ _ p Hinv3) (fun m => unheld_busy_nonneg _ _ _ m Hinv3) Hp3 Hm3) as [R1 R2].
    by eapply ends_well_step.
  - intros w Hw%Hsafe. pose proof (same_objects_value _ _ _ Hso (sv_live _ _ _ _ _ Hw)) as Hw3.
    pose proof (counts_step_same_value _ _ _ _ _ Hs4 (sv_live _ _ _ _ _ Hw3)) as Hw4.
    rewrite (same_value_nodes _ _ _ _ _ Hv3), (same_value_nodes _ _ _ _ _ Hv2) in Hw4.
    eapply same_value_back; [|exact Hw4].
    eapply same_value_ext; [..|exact (same_value_trans _ _ _ _ _ _ _ _ Hw Hw3)];
      intros q; unfold plus_step, zero_step; lia.
  - by rewrite (cs_current _ _ _ _ Hs4).
Qed.

(** Everything before the return value is made ephemeral. *)
Lemma restore_release s C L nf of_ rv x :
  gc_inv s C L → CurrentGarbageFrame s = nf → nf ≠ of_ → frames s !! nf = Some x → is_Some (frames s !! of_) →
  live_value s (value_of rv) → countable s (value_of rv) →
  ∃ s4 C4 L4,
    (_ ← whenP (dirty x) (_ ← optM rv RetainUDFV; collect_garbage);
     _ ← modifyP (put_current of_);
     new ← frame nf;
     whenP (dirty new) (_ ← merge_multifields nf of_; _ ← merge_facts nf of_; _ ← merge_instances nf of_; optM rv ReleaseUDFV)) s =
    Returned tt s4 ∧ ends_well nf s4 C4 L4 ∧ (∀ w, safe s (value_of rv) w → same_value zero_step zero_step s s4 w) ∧ CurrentGarbageFrame s4 = of_.
Proof.
  intros Hinv Hcur Hne Hx [y Hy] Hl Hc. destruct (dirty x) eqn:Hd.
  - assert (Hxc : frames s !! CurrentGarbageFrame s = Some x) by by rewrite Hcur.
    destruct (retain_collect s C L x _ Hinv Hxc Hd Hl Hc) as (s1 & s2 & C2 & L2 & x2 & Hr1 & Hr2 & Hinv2 & Hcur2 & Hv2 & Hx2 & Hd2 & He2 & Hfr).
    rewrite Hcur in Hx2, Hcur2. destruct (Hfr of_ y Hy) as (y2 & Hy2 & _).
    destruct (merge_release s C L s2 C2 L2 nf of_ rv x2 Hinv Hinv2 Hcur2 Hne Hx2 ltac:(eauto) He2 Hv2) as (s4 & L4 & Hr4 & Hrest).
    exists s4, C2, L4. split; [|exact Hrest].
    assert (E1 : optM rv RetainUDFV s = Returned tt s1) by (rewrite optM_Retain; exact Hr1).
    assert (E2 : whenP true (_ ← optM rv RetainUDFV; collect_garbage) s = Returned tt s2).
    { unfold whenP. prun E1. exact Hr2. }
    prun E2. unfold modifyP at 1. unfold mbind at 1, P_bind at 1.
    prun (frame_Some (put_current of_ s2) nf x2 Hx2). rewrite Hd2. exact Hr4.
  - destruct (clean_ends_well s C L nf of_ x Hinv Hcur Hne Hx ltac:(eauto) Hd) as (L3 & Hew).
    exists (put_current of_ s), C, L3. split_and!; try done.
    + unfold whenP, modifyP. unfold mbind, P_bind. simpl. unfold mret, P_ret.
      assert (E := frame_Some (put_current of_ s) nf x Hx). rewrite E, Hd. done.
    + intros w Hw. apply same_objects_value; [by split|by destruct Hw as [->|[? _]]].
Qed.

Theorem RestorePriorGarbageFrame_spec s C L nf of_ rv x :
  gc_inv s C L → CurrentGarbageFrame s = nf → nf ≠ of_ → frames s !! nf = Some x → is_Some (frames s !! of_) →
  live_value s (value_of rv) → countable s (value_of rv) →
  ∃ s' C' L', RestorePriorGarbageFrame nf of_ rv s = Returned tt s' ∧ ends_well nf s' C' L' ∧
    (∀ w, safe s (value_of rv) w → same_value zero_step zero_step s s' w) ∧ CurrentGarbageFrame s' = of_.
Proof.
  intros Hinv Hcur Hne Hx Hy Hl Hc.
  destruct (restore_release s C L nf of_ rv x Hinv Hcur Hne Hx Hy Hl Hc) as (s4 & C4 & L4 & Hr4 & Hew4 & Hsafe & Hcur4).
  pose proof (Hsafe (value_of rv) (or_introl eq_refl)) as Hv4.
  pose proof Hew4 as (Hinv4 & Ha4 & _).
  destruct (EphemerateValue_spec s4 C4 _ Ha4 (sv_live _ _ _ _ _ Hv4)) as (s5 & Hr5 & Ha5 & Hs5).
  exists s5, C4, L4. split_and!.
  - unfold RestorePriorGarbageFrame. prun (frame_Some _ _ _ Hx).
    assert (E5 : optM rv (EphemerateValue max_depth) s4 = Returned tt s5) by (rewrite optM_Ephemerate; exact Hr5).
    rewrite <- E5. revert Hr4. unfold mbind, P_bind.
    destruct (whenP (dirty x) _ s) as [[] t1| |]; [|done..]. unfold modifyP.
    destruct (frame nf (put_current of_ t1)) as [z t2| |]; [|done..]. intros ->. done.
  - eapply ends_well_step; [exact Hew4|exact Hs5|exact Ha5| |].
    + intros p _. pose proof (unheld_nonneg _ _ _ p Hinv4) as Hu.
      change (unheld (ended nf s4) p) with (unheld s4 p) in Hu. unfold zero_step. lia.
    + intros m [z Hz]. pose proof (unheld_busy_nonneg _ _ _ m Hinv4) as Hu.
      change (unheld_busy (ended nf s4) m) with (unheld_busy s4 m) in Hu.
      pose proof (mr_busy _ _ _ (gi_multifields _ _ _ _ _ Hinv4) m z Hz) as Hbz.
      unfold busy_at. rewrite Hz. unfold zero_step. lia.
  - intros w Hw%Hsafe. eapply same_value_ext; [..|exact (same_value_trans _ _ _ _ _ _ _ _ Hw
      (counts_step_same_value _ _ _ _ _ Hs5 (sv_live _ _ _ _ _ Hw)))]; intros q; done.
  - by rewrite (cs_current _ _ _ _ Hs5).
Qed.
End ends.

(** * Inside a garbage block

    The start of a block, and the creation of atoms and multifields in it,
    keep the invariant of the collector. *)

Section block_start.
Context {H : Type} `{!GarbageHost H} (owned owned_busy : H → ptr → Z).
Implicit Types (s : AtomEnv H) (C : TableId → Z → list ptr) (L : ptr → list ptr).
Notation gc_inv := (gc_inv owned owned_busy).

(** ** The start of a block *)

Definition opened (nf : ptr) s : AtomEnv H :=
  put_current nf (put_frames (<[nf := new_frame (Some (CurrentGarbageFrame s))]> (frames s)) s).

Lemma new_frame_empty prior t : ephemerals t (new_frame prior) = [].
Proof. by destruct t. Qed.

Lemma frames_rep_new vs fs f prior :
  frames_rep vs fs → fs !! f = None → frames_rep vs (<[f := new_frame prior]> fs).
Proof.
  intros [Hc Hz Hm Hn Hmem Hd Hcl] Hf.
  assert (Hold : ∀ g x t p, <[f := new_frame prior]> fs !! g = Some x → p ∈ ephemerals t x → fs !! g = Some x).
  { intros g x t p [[<- <-]|[_ ?]]%lookup_insert_Some; [|done]. rewrite new_frame_empty. by intros ?%not_elem_of_nil. }
  split; [done|done| | | | |].
  - intros p n Hp Hmk. destruct (Hm p n Hp Hmk) as (g & x & Hg & Hx). exists g, x.
    rewrite lookup_insert_ne by congruence. done.
  - intros g x t [[<- <-]|[_ Hg]]%lookup_insert_Some; [rewrite new_frame_empty; constructor|by eapply Hn].
  - intros g x t p Hg Hp. exact (Hmem g x t p (Hold g x t p Hg Hp) Hp).
  - intros g h x y t p Hg Hh Hp Hq. exact (Hd g h x y t p (Hold g x t p Hg Hp) (Hold h y t p Hh Hq) Hp Hq).
  - intros g x t [[<- <-]|[_ Hg]]%lookup_insert_Some; [intros _; apply new_frame_empty|by eapply Hcl].
Qed.

Lemma multifields_rep_new ms fs L f prior :
  multifields_rep ms fs L → fs !! f = None → multifields_rep ms (<[f := new_frame prior]> fs) L.
Proof.
  intros [Hl Hn Hdj Hdom Hcl Hb] Hf.
  assert (HLf : L f = []).
  { destruct (L f) as [|m l] eqn:E; [done|]. destruct (Hdom f m) as [x Hx]; [rewrite E; constructor|congruence]. }
  split; [|done|done| | |done].
  - intros g x [[<- <-]|[_ Hg]]%lookup_insert_Some; [rewrite HLf; by split|by apply Hl].
  - intros g m Hm. destruct (Hdom g m Hm) as [x Hx]. exists x. by rewrite lookup_insert_ne by congruence.
  - intros g x [[<- <-]|[_ Hg]]%lookup_insert_Some; [done|by eapply Hcl].
Qed.

Lemma GCBlockStart_spec s C L :
  gc_inv s C L →
  let nf := fresh_ptr (frames s) in
  GCBlockStart s = Returned (mkGCBlock nf (CurrentGarbageFrame s)) (opened nf s) ∧ gc_inv (opened nf s) C L ∧
  nf ≠ CurrentGarbageFrame s.
Proof.
  intros [Ha Hm Ho Hb] nf. assert (Hnf : frames s !! nf = None) by apply fresh_ptr_None.
  destruct (ai_current _ _ Ha) as [x Hx]. split; [done|]. split; [|intros E; rewrite <- E in Hx; congruence].
  split; [|by apply multifields_rep_new|done|done]. destruct Ha as [Ht Hf Hc]. split; [done|by apply frames_rep_new|].
  unfold opened. simpl. rewrite lookup_insert_eq. eauto.
Qed.

(** ** Creation of atoms *)

Lemma added_nodes s C a x p n :
  nodes s !! p = Some n → ∃ n', nodes (added s C a x) !! p = Some n' ∧ set_next None n' = set_next None n.
Proof.
  intros Hp. assert (Hv : view (nodes (added s C a x)) !! p = Some (set_next None n)).
  { rewrite added_view, lookup_insert_ne; [by apply view_lookup|]. intros E.
    pose proof (fresh_ptr_None (nodes s)) as Hf. congruence. }
  apply view_lookup_inv in Hv as (n' & ? & ?). eauto.
Qed.

Lemma added_count s C a x p : count_at (added s C a x) p = count_at s p.
Proof.
  unfold count_at. destruct (nodes s !! p) as [n|] eqn:Hp.
  - destruct (added_nodes s C a x p n Hp) as (n' & -> & E). injection E. done.
  - destruct (nodes (added s C a x) !! p) as [n'|] eqn:Hp'; [|done].
    apply view_lookup in Hp'. rewrite added_view in Hp'.
    apply lookup_insert_Some in Hp' as [[_ E]|[_ Hp']]; [injection E; done|].
    apply view_lookup_inv in Hp' as (? & ? & _). congruence.
Qed.

Lemma added_gc_inv s C C' L a x :
  gc_inv s C L → frames s !! CurrentGarbageFrame s = Some x → atoms_inv (added s C a x) C' →
  gc_inv (added s C a x) C' L.
Proof.
  intros [Ha Hm Ho Hb] Hx Ha'. split; [done| | |].
  - change (multifields (added s C a x)) with (multifields s). unfold added. simpl frames.
    eapply multifields_rep_frame; [exact Hm|exact Hx| | |]; by destruct (atom_table a).
  - intros p. rewrite added_count. apply Ho.
  - apply Hb.
Qed.

(** What a creating function does, for the collector. *)
Lemma creates_gc_inv s C L a create :
  creates a create s C → gc_inv s C L →
  ∃ p s' C', create s = Returned p s' ∧ gc_inv s' C' L ∧ interned s' a p ∧
    (∀ q n, nodes s !! q = Some n → ∃ n', nodes s' !! q = Some n' ∧ set_next None n' = set_next None n) ∧
    multifields s' = multifields s ∧ host s' = host s ∧ CurrentGarbageFrame s' = CurrentGarbageFrame s.
Proof.
  intros [(p & Hp & _ & Hc)|(_ & x & Hx & Hc & Hinv)] Hgc.
  - exists p, s, C. split_and!; try done. eauto.
  - do 3 eexists. split; [exact Hc|]. split; [by eapply added_gc_inv|]. split; [apply added_interned; by left|].
    split; [|done]. intros q n Hq. by apply added_nodes.
Qed.

(** ** Creation of multifields *)

Definition pushed_multifield (m : ptr) (x : garbageFrame) : garbageFrame :=
  let x' := set_dirty true (set_ListOfMultifields (Some m) x) in
  match LastMultifield x with None => set_LastMultifield (Some m) x' | Some _ => x' end.

Lemma multifields_push ms fs L f x m fields :
  multifields_rep ms fs L → fs !! f = Some x → ms !! m = None →
  multifields_rep (<[m := mkMultifield 0 (ListOfMultifields x) fields]> ms) (<[f := pushed_multifield m x]> fs)
    (L_upd L f (m :: L f)).
Proof.
  intros [Hl Hn Hdj Hdom Hcl Hb] Hx Hm.
  assert (Hmem : ∀ g q, q ∈ L g → is_Some (ms !! q)).
  { intros g q Hq. destruct (Hdom g q Hq) as [y Hy]. destruct (Hl g y Hy) as [Hs _].
    apply list_elem_of_split in Hq as (l1 & l2 & E). rewrite E, sseg_app in Hs.
    destruct Hs as (k & _ & -> & z & Hz & _). eauto. }
  assert (Hfresh : ∀ g, m ∉ L g) by (intros g [? ?]%Hmem; congruence).
  assert (Hext : ∀ g o, sseg ms o (L g) None → sseg (<[m := mkMultifield 0 (ListOfMultifields x) fields]> ms) o (L g) None).
  { intros g o Hs. eapply sseg_ext; [|exact Hs]. intros q Hq. rewrite lookup_insert_ne; [done|]. intros ->. by apply (Hfresh g). }
  destruct (Hl f x Hx) as [Hsf Hlf]. split.
  - intros g y [[<- <-]|[Hg Hy]]%lookup_insert_Some.
    + rewrite L_upd_eq. split.
      * assert (E : ListOfMultifields (pushed_multifield m x) = Some m).
        { unfold pushed_multifield. by destruct (LastMultifield x). }
        rewrite E. simpl. split; [done|]. eexists. rewrite lookup_insert_eq. split; [done|]. by apply Hext.
      * unfold pushed_multifield. rewrite Hlf. destruct (L f) as [|q l]; [done|].
        cbn [last]. destruct (last (q :: l)) eqn:El; [|by apply last_nil_iff in El]. done.
    + rewrite L_upd_ne by done. destruct (Hl g y Hy). split; [by apply Hext|done].
  - intros g. unfold L_upd. case_decide; [|done]. apply NoDup_cons. split; [apply Hfresh|apply Hn].
  - intros g h q. unfold L_upd. repeat case_decide; subst; try done.
    + intros [->|Hq]%elem_of_cons Hq'; [by apply Hfresh in Hq'|by eapply Hdj].
    + intros Hq' [->|Hq]%elem_of_cons; [by apply Hfresh in Hq'|by eapply Hdj].
    + by apply Hdj.
  - intros g q. unfold L_upd. case_decide as E; intros Hq; [subst; rewrite lookup_insert_eq; eauto|].
    rewrite lookup_insert_ne by done. by eapply Hdom.
  - intros g y [[<- <-]|[Hg Hy]]%lookup_insert_Some; [|rewrite L_upd_ne by done; by apply Hcl].
    unfold pushed_multifield. by destruct (LastMultifield x).
  - intros q y [[<- <-]|[_ Hy]]%lookup_insert_Some; [simpl; lia|by eapply Hb].
Qed.

Lemma pushed_multifield_ephemerals m x t : ephemerals t (pushed_multifield m x) = ephemerals t x.
Proof. unfold pushed_multifield. by destruct (LastMultifield x), t. Qed.

(** The new multifield has the fields, and is garbage until somebody retains it. *)
Lemma CreateMultifield_spec s C L fields :
  gc_inv s C L →
  let m := fresh_ptr (multifields s) in
  ∃ s' L', CreateMultifield fields s = Returned m s' ∧ gc_inv s' C L' ∧
    (∃ nxt, multifields s' = <[m := mkMultifield 0 nxt fields]> (multifields s)) ∧ m ∈ L' (CurrentGarbageFrame s) ∧
    nodes s' = nodes s ∧ host s' = host s ∧ CurrentGarbageFrame s' = CurrentGarbageFrame s.
Proof.
  intros [Ha Hm Ho Hb] m. assert (Hfm : multifields s !! m = None) by apply fresh_ptr_None.
  destruct (ai_current _ _ Ha) as [x Hx].
  set (ms := <[m := mkMultifield 0 (ListOfMultifields x) fields]> (multifields s)).
  set (s' := put_frames (<[CurrentGarbageFrame s := pushed_multifield m x]> (frames s)) (put_multifields ms s)).
  exists s', (L_upd L (CurrentGarbageFrame s) (m :: L (CurrentGarbageFrame s))).
  pose proof (multifields_push _ _ _ _ _ m fields Hm Hx Hfm) as Hpush.
  split; [|split; [|split; [|split; [|done]]]].
  - unfold CreateMultifield, CreateUnmanagedMultifield, AddToMultifieldList, getsP, modifyP, mret, P_ret.
    unfold mbind at 1 2 3, P_bind at 1 2 3. fold m. do 2 unfold mbind at 1, P_bind at 1. simpl CurrentGarbageFrame.
    set (s1 := put_multifields (<[m := mkMultifield 0 None fields]> (multifields s)) s).
    prun (frame_Some s1 _ x Hx).
    prun (update_multifield_Some s1 m (mkMultifield 0 None fields) (set_mf_next (ListOfMultifields x)) (lookup_insert_eq _ _ _)).
    set (s2 := put_multifields _ s1).
    prun (update_frame_Some s2 _ x (set_ListOfMultifields (Some m)) Hx).
    set (s3 := put_frames _ s2).
    prun (update_frame_Some s3 (CurrentGarbageFrame s) (set_ListOfMultifields (Some m) x) (set_dirty true) (lookup_insert_eq _ _ _)).
    assert (E2 : s2 = put_multifields ms s).
    { unfold s2, s1, ms, put_multifields, put_garbage. simpl. by rewrite insert_insert_eq. }
    unfold s', pushed_multifield. destruct (LastMultifield x) eqn:El.
    + f_equal. unfold s3. rewrite E2. unfold put_frames, put_garbage. simpl. by rewrite insert_insert_eq.
    + erewrite update_frame_Some by apply lookup_insert_eq.
      f_equal. unfold s3. rewrite E2. unfold put_frames, put_garbage. simpl. by rewrite !insert_insert_eq.
  - split; [|exact Hpush|exact Ho|].
    + destruct Ha as [Ht Hf Hc]. split; [done| |].
      * eapply frames_rep_insert; [exact Hf|exact Hx|apply pushed_multifield_ephemerals|].
        unfold pushed_multifield. by destruct (LastMultifield x).
      * simpl. rewrite lookup_insert_eq. eauto.
    + intros q. unfold busy_at. simpl. unfold ms. destruct (decide (q = m)) as [->|Hne].
      * rewrite lookup_insert_eq. simpl. specialize (Hb m). unfold busy_at in Hb. rewrite Hfm in Hb. exact Hb.
      * rewrite lookup_insert_ne by done. apply Hb.
  - eauto.
  - rewrite L_upd_eq. constructor.
Qed.
End block_start.
