(* ===== verification/AtomWitness.v ===== *)
(** * The first atoms

    The empty tables satisfy the invariant, and [InitializeAtomTables] puts the
    predefined atoms into them, with a reference each.

    Then a host of the garbage collector, on which the witnesses run. *)
From S2P Require Import Prelude Values Router Process Hash SList AtomState Atoms AtomProofs Garbage.
From S2P Require Import CollectProofs RetainProofs BlockProofs BlockEnd.
Definition no_nodes : TableId → Z → list ptr := fun _ _ => [].

Lemma initial_frame f x :
  ({[ MasterGarbageFrame := new_frame None ]} : gmap ptr garbageFrame) !! f = Some x → x = new_frame None.
Proof. intros [_ ->]%lookup_singleton_Some. done. Qed.

Section init.
Context {H : Type}.
Implicit Types (s : AtomEnv H) (C : TableId → Z → list ptr).

Lemma initial_atoms_inv cleanup discards (h : H) : atoms_inv (initial_env cleanup discards h) no_nodes.
Proof.
  assert (Hn : ∀ p n, view (∅ : gmap ptr HashNode) !! p ≠ Some n) by (intros p n; unfold view; by rewrite fmap_empty, lookup_empty).
  split; simpl.
  - split.
    + intros t i _. simpl. by rewrite lookup_empty.
    + intros t i. constructor.
    + intros t i p. unfold no_nodes. split; [by intros ?%not_elem_of_nil|]. by intros (n & []%Hn & _).
    + by intros p n []%Hn.
    + by intros p n []%Hn.
    + by intros p q n m []%Hn.
  - split; [by intros p n []%Hn|by intros p n []%Hn|by intros p n []%Hn|..].
    + intros f x t ->%initial_frame. rewrite new_frame_empty. constructor.
    + intros f x t p ->%initial_frame. rewrite new_frame_empty. by intros ?%not_elem_of_nil.
    + intros f g x y t p ->%initial_frame _. rewrite new_frame_empty. by intros ?%not_elem_of_nil.
    + intros f x t ->%initial_frame _. apply new_frame_empty.
  - rewrite lookup_singleton_eq. eauto.
Qed.

(** ** Creating an atom and keeping it *)

(** [put] stores a predefined symbol, and nothing else. *)
Definition special_put (put : option ptr → AtomEnv H → AtomEnv H) : Prop :=
  ∀ p s, nodes (put p s) = nodes s ∧ heads (put p s) = heads s ∧ frames (put p s) = frames s ∧
    CurrentGarbageFrame (put p s) = CurrentGarbageFrame s.

Definition specials s : list (option ptr) := [PositiveInfinity s; NegativeInfinity s; Zero s; TrueSymbol s; FalseSymbol s].

Definition counts_below s (k : Z) : Prop := ∀ p, (count_at s p <= k)%Z.

(** The atoms of [s] are those of [s'], with no fewer references. *)
Definition atoms_grow s s' : Prop :=
  ∀ b q, interned s b q → interned s' b q ∧ (count_at s q <= count_at s' q)%Z.

Lemma increment_count_Some s p n :
  nodes s !! p = Some n → (0 <= count n)%Z → (count n + 1 <= LLONG_MAX)%Z →
  increment_count p s = Returned tt (put_nodes (<[p := set_count (count n + 1) n]> (nodes s)) s).
Proof.
  intros Hn H0 H1. unfold increment_count. prun (node_Some _ _ _ Hn).
  rewrite long_long_Some by (unfold LLONG_MIN, LLONG_MAX in *; lia). unfold someP. unfold mbind, P_bind.
  exact (update_node_Some s p n (set_count (count n + 1)) Hn).
Qed.

Lemma create_keep s C a create put k :
  special_put put → creates a create s C → atoms_inv s C → counts_below s k → (k + 1 <= LLONG_MAX)%Z →
  ∃ p s1 s' C', create s = Returned p s1 ∧
    increment_count p (put (Some p) s1) = Returned tt s' ∧ atoms_inv s' C' ∧ counts_below s' (k + 1) ∧
    interned s' a p ∧ (0 < count_at s' p)%Z ∧ atoms_grow s s' ∧ specials s1 = specials s ∧
    specials s' = specials (put (Some p) s1).
Proof.
  intros Hput Hcr Hinv Hk Hmax.
  assert (H1 : ∃ p s1 C1, create s = Returned p s1 ∧ atoms_inv s1 C1 ∧ interned s1 a p ∧
    (∀ b q, interned s b q → interned s1 b q) ∧ (∀ q, count_at s1 q = count_at s q) ∧ specials s1 = specials s).
  { destruct Hcr as [(p & Hp & _ & Hc)|(_ & x & Hx & Hc & Hinv1)]; [by exists p, s, C|].
    do 3 eexists. split; [exact Hc|]. split; [exact Hinv1|]. split; [apply added_interned; by left|].
    split; [intros b q Hb; apply added_interned; by right|]. split; [apply added_count|done]. }
  destruct H1 as (p & s1 & C1 & Hc & Hinv1 & Hp & Hold & Hcount & Hsp).
  destruct (Hput (Some p) s1) as (En & Eh & Ef & Ec). set (s2 := put (Some p) s1) in *.
  assert (Hinv2 : atoms_inv s2 C1).
  { destruct Hinv1 as [T F Cu]. split; by rewrite ?En, ?Eh, ?Ef, ?Ec. }
  apply interned_node in Hp as (n & Hn & Ha). pose proof (node_count _ _ _ _ Hinv1 Hn) as Hn0.
  assert (Hnk : (count n <= k)%Z).
  { specialize (Hk p). rewrite <- Hcount in Hk. unfold count_at in Hk. by rewrite Hn in Hk. }
  assert (Hn2 : nodes s2 !! p = Some n) by by rewrite En.
  pose proof (increment_count_Some s2 p n Hn2 Hn0 ltac:(lia)) as Hr.
  assert (Hc' : ∀ q, count_at (put_nodes (<[p := set_count (count n + 1) n]> (nodes s2)) s2) q =
    if decide (q = p) then (count n + 1)%Z else count_at s q).
  { intros q. unfold count_at at 1. simpl. case_decide; [subst; by rewrite lookup_insert_eq|].
    rewrite lookup_insert_ne, En, <- Hcount by done. done. }
  exists p, s1, (put_nodes (<[p := set_count (count n + 1) n]> (nodes s2)) s2), C1. split_and!; try done.
  - eapply atoms_inv_count; [exact Hinv2|exact Hn2|done..|simpl; lia|simpl; lia].
  - intros q. rewrite Hc'. case_decide; [lia|]. specialize (Hk q). lia.
  - unfold interned. simpl. rewrite lookup_insert_eq. simpl. by rewrite Ha.
  - rewrite Hc', decide_True by done. lia.
  - intros b q Hb. split.
    + apply Hold in Hb. unfold interned in *. simpl. rewrite En. destruct (decide (q = p)) as [->|].
      * rewrite lookup_insert_eq. rewrite Hn in Hb. exact Hb.
      * by rewrite lookup_insert_ne.
    + rewrite Hc'. case_decide; [|lia]. subst. rewrite <- Hcount. unfold count_at. rewrite Hn. lia.
Qed.

(** The predefined atom [a] is in its place, and held. *)
Definition predefined s (o : option ptr) (a : Atom) : Prop :=
  ∃ p, o = Some p ∧ interned s a p ∧ (0 < count_at s p)%Z.

Lemma predefined_grow s s' o a : atoms_grow s s' → predefined s o a → predefined s' o a.
Proof. intros Hg (p & -> & Hp & Hc). exists p. destruct (Hg a p Hp). split_and!; [done..|lia]. Qed.

Lemma InitializeAtomTables_spec s C k :
  atoms_inv s C → counts_below s k → (k + 5 <= LLONG_MAX)%Z →
  ∃ s' C', InitializeAtomTables s = Returned tt s' ∧ atoms_inv s' C' ∧ atoms_grow s s' ∧
    predefined s' (TrueSymbol s') (ALexeme SYMBOL_TYPE "TRUE") ∧
    predefined s' (FalseSymbol s') (ALexeme SYMBOL_TYPE "FALSE") ∧
    predefined s' (PositiveInfinity s') (ALexeme SYMBOL_TYPE "+oo") ∧
    predefined s' (NegativeInfinity s') (ALexeme SYMBOL_TYPE "-oo") ∧
    predefined s' (Zero s') (AInteger 0).
Proof.
  intros Hinv Hk Hmax. assert (Hsym : is_lexeme_type SYMBOL_TYPE) by by left.
  destruct (create_keep s C _ _ put_TrueSymbol k ltac:(done) (AddSymbol_creates s C "TRUE" SYMBOL_TYPE Hinv Hsym) Hinv Hk ltac:(lia))
    as (p1 & t1 & s1 & C1 & Hc1 & Hr1 & Hi1 & Hk1 & Ha1 & Hp1 & Hg1 & Es1 & Et1).
  destruct (create_keep s1 C1 _ _ put_FalseSymbol (k + 1) ltac:(done) (AddSymbol_creates s1 C1 "FALSE" SYMBOL_TYPE Hi1 Hsym) Hi1 Hk1 ltac:(lia))
    as (p2 & t2 & s2 & C2 & Hc2 & Hr2 & Hi2 & Hk2 & Ha2 & Hp2 & Hg2 & Es2 & Et2).
  destruct (create_keep s2 C2 _ _ put_PositiveInfinity (k + 1 + 1) ltac:(done) (AddSymbol_creates s2 C2 "+oo" SYMBOL_TYPE Hi2 Hsym) Hi2 Hk2 ltac:(lia))
    as (p3 & t3 & s3 & C3 & Hc3 & Hr3 & Hi3 & Hk3 & Ha3 & Hp3 & Hg3 & Es3 & Et3).
  destruct (create_keep s3 C3 _ _ put_NegativeInfinity (k + 1 + 1 + 1) ltac:(done) (AddSymbol_creates s3 C3 "-oo" SYMBOL_TYPE Hi3 Hsym) Hi3 Hk3 ltac:(lia))
    as (p4 & t4 & s4 & C4 & Hc4 & Hr4 & Hi4 & Hk4 & Ha4 & Hp4 & Hg4 & Es4 & Et4).
  destruct (create_keep s4 C4 _ _ put_Zero (k + 1 + 1 + 1 + 1) ltac:(done) (CreateInteger_creates s4 C4 0 Hi4 ltac:(unfold LLONG_MIN, LLONG_MAX; lia)) Hi4 Hk4 ltac:(lia))
    as (p5 & t5 & s5 & C5 & Hc5 & Hr5 & Hi5 & Hk5 & Ha5 & Hp5 & Hg5 & Es5 & Et5).
  assert (Hput : ∀ (put : option ptr → AtomEnv H → AtomEnv H) p t, modifyP (put (Some p)) t = Returned tt (put (Some p) t)) by done.
  exists s5, C5. unfold specials in *. simpl in *.
  injection Es1 as E11 E12 E13 E14 E15; injection Et1 as F11 F12 F13 F14 F15.
  injection Es2 as E21 E22 E23 E24 E25; injection Et2 as F21 F22 F23 F24 F25.
  injection Es3 as E31 E32 E33 E34 E35; injection Et3 as F31 F32 F33 F34 F35.
  injection Es4 as E41 E42 E43 E44 E45; injection Et4 as F41 F42 F43 F44 F45.
  injection Es5 as E51 E52 E53 E54 E55; injection Et5 as F51 F52 F53 F54 F55.
  split; [|split; [exact Hi5|split]].
  - unfold InitializeAtomTables. prun Hc1. prun (Hput put_TrueSymbol p1 t1). prun Hr1.
    prun Hc2. prun (Hput put_FalseSymbol p2 t2). prun Hr2. prun Hc3. prun (Hput put_PositiveInfinity p3 t3). prun Hr3.
    prun Hc4. prun (Hput put_NegativeInfinity p4 t4). prun Hr4. prun Hc5. prun (Hput put_Zero p5 t5). exact Hr5.
  - intros b q Hb. apply Hg1 in Hb as [Hb ?]. apply Hg2 in Hb as [Hb ?]. apply Hg3 in Hb as [Hb ?].
    apply Hg4 in Hb as [Hb ?]. apply Hg5 in Hb as [Hb ?]. split; [done|lia].
  - split_and!.
    + eapply predefined_grow; [exact Hg5|]. eapply predefined_grow; [exact Hg4|]. eapply predefined_grow; [exact Hg3|].
      eapply predefined_grow; [exact Hg2|]. exists p1. split; [congruence|done].
    + eapply predefined_grow; [exact Hg5|]. eapply predefined_grow; [exact Hg4|]. eapply predefined_grow; [exact Hg3|].
      exists p2. split; [congruence|done].
    + eapply predefined_grow; [exact Hg5|]. eapply predefined_grow; [exact Hg4|]. exists p3. split; [congruence|done].
    + eapply predefined_grow; [exact Hg5|]. exists p4. split; [congruence|done].
    + exists p5. split; [congruence|done].
Qed.
End init.

(** * A host for the garbage collector

    The rest of the system as a list of references to nodes, released one by
    one when the collector disposes of the garbage facts; the witnesses run
    on it. *)

(** The references that are held. *)
Definition Holder : Type := list ptr.

(** The first reference is given up. *)
Definition drop_first : P (AtomEnv Holder) unit :=
  held ← getsP (fun s : AtomEnv Holder => (host s : Holder));
  match held with
  | [] => mret tt
  | p :: rest =>
      n ← node p;
      _ ← decrement_count p (atom_table (contents n));
      modifyP (put_host rest)
  end.

#[export] Instance Holder_host : GarbageHost Holder := {
  RetainFact _ := mret tt; ReleaseFact _ := mret tt;
  RetainInstance _ := mret tt; ReleaseInstance _ := mret tt;
  RemoveGarbageFacts := drop_first;
  CleanupInstances := mret tt;
  call_cleanup_function _ := drop_first;
}.

Definition held_count (h : Holder) (p : ptr) : Z := occurs p h.
Definition no_busy (h : Holder) (m : ptr) : Z := 0.

Lemma drop_first_collects s C L :
  gc_inv held_count no_busy s C L →
  ∃ s' C' L', drop_first s = Returned tt s' ∧ gc_inv held_count no_busy s' C' L' ∧ keeps_held held_count no_busy s s'.
Proof.
  intros Hinv. unfold drop_first, getsP. unfold mbind at 1, P_bind at 1.
  destruct (host s) as [|p rest] eqn:Eh; rewrite ?Eh.
  { exists s, C, L. split; [done|]. split; [done|apply keeps_held_refl]. }
  destruct Hinv as [Ha Hm Ho Hb].
  assert (Hp : ∃ n, nodes s !! p = Some n ∧ (0 < count n)%Z).
  { specialize (Ho p). rewrite Eh in Ho. unfold held_count, count_at in Ho. simpl in Ho. rewrite decide_True in Ho by done.
    pose proof (occurs_pos p rest). destruct (nodes s !! p) as [n|]; [|lia]. exists n. split; [done|lia]. }
  destruct Hp as (n & Hn & Hc). prun (node_Some _ _ _ Hn).
  destruct (decrement_count_spec s C p n Ha Hn Hc) as (s1 & Hr & Ha1 & Hs1). prun Hr.
  exists (put_host rest s1), C, L. split; [done|].
  assert (Hcount : ∀ q, count_at s1 q = (count_at s q + one_step p (-1) q)%Z).
  { intros q. unfold count_at. pose proof (cs_nodes _ _ _ _ Hs1 q) as Hq.
    destruct (nodes s !! q) as [m|] eqn:E, (nodes s1 !! q) as [m'|]; try done.
    - by destruct Hq as [_ ->].
    - unfold one_step. rewrite decide_False; [done|congruence]. }
  assert (Hocc : ∀ q, occurs q (p :: rest) = (occurs q rest - one_step p (-1) q)%Z).
  { intros q. simpl. unfold one_step. repeat case_decide; simplify_eq; lia. }
  split; split.
  - destruct Ha1 as [T F Cu]. by split.
  - apply (multifields_rep_step _ _ _ _ L zero_step (cs_multifields _ _ _ _ Hs1) (cs_frames _ _ _ _ Hs1)); [|done].
    intros m x Hx. pose proof (mr_busy _ _ _ Hm m x Hx). unfold zero_step. lia.
  - intros q. specialize (Ho q). rewrite Eh in Ho. unfold held_count in *. rewrite Hocc in Ho.
    change (count_at (put_host rest s1) q) with (count_at s1 q). rewrite Hcount. simpl. pose proof (occurs_pos q rest). lia.
  - intros m. specialize (Hb m). unfold no_busy in *. split; [done|].
    change (busy_at (put_host rest s1) m) with (busy_at s1 m). unfold busy_at.
    destruct (multifields s1 !! m) as [x|] eqn:E; [|lia].
    destruct (option_relation_Some_r _ _ _ _ (cs_multifields _ _ _ _ Hs1 m) E) as (y & Hy & _ & _ & ->).
    pose proof (mr_busy _ _ _ Hm m y Hy). unfold zero_step. lia.
  - intros q m Hq _. destruct (counts_step_node _ _ _ _ _ _ Hs1 Hq) as (m' & Hm' & Hcm & Hk). exists m'.
    split; [done|]. split; [done|]. rewrite Hk, Eh. unfold held_count. rewrite Hocc. simpl. lia.
  - intros m x Hx _. destruct (option_relation_Some _ _ _ _ (cs_multifields _ _ _ _ Hs1 m) Hx) as (x' & Hx' & _ & Hf & Hk).
    exists x'. split; [done|]. split; [done|]. rewrite Hk. unfold no_busy, zero_step. lia.
  - exact (cs_current _ _ _ _ Hs1).
  - intros f x Hx. destruct (option_relation_Some _ _ _ _ (cs_frames _ _ _ _ Hs1 f) Hx) as (x' & Hx' & Hr' & Hd).
    exists x'. split; [done|]. unfold frame_rest in Hr'. by injection Hr' as -> _ _ _ _.
  - exact (cs_cleanup _ _ _ _ Hs1).
Qed.

Lemma no_change_collects s C L :
  gc_inv held_count no_busy s C L →
  ∃ s' C' L', CleanupInstances (H := Holder) s = Returned tt s' ∧ gc_inv held_count no_busy s' C' L' ∧
    keeps_held held_count no_busy s s'.
Proof. intros Hinv. exists s, C, L. split; [done|]. split; [done|apply keeps_held_refl]. Qed.

#[export] Instance Holder_laws : GarbageLaws Holder := {
  owned := held_count; owned_busy := no_busy;
  law_facts := drop_first_collects; law_instances := no_change_collects; law_cleanup _ := drop_first_collects;
}.

(** ** The first state *)

Definition no_multifields : ptr → list ptr := fun _ => [].

Lemma initial_gc_inv cleanup discards :
  gc_inv held_count no_busy (initial_env cleanup discards ([] : Holder)) no_nodes no_multifields.
Proof.
  split; [apply initial_atoms_inv| | |]; simpl.
  - split.
    + intros f x ->%initial_frame. by split.
    + intros f. constructor.
    + by intros f g m ?%not_elem_of_nil.
    + by intros f m ?%not_elem_of_nil.
    + done.
    + intros m x. by rewrite lookup_empty.
  - intros p. unfold held_count, count_at. simpl. by rewrite lookup_empty.
  - intros m. unfold no_busy, busy_at. simpl. by rewrite lookup_empty.
Qed.
