(* ===== verification/AtomTheorems.v ===== *)
(** * Theorems on the symbol and primitive tables

    [symbol.c]: interning, lookup, reference counts, the removal of ephemeral
    atoms, completion, and the invariant over any sequence of these. *)
From S2P Require Import Prelude Values Router Process Hash SList AtomState Atoms AtomProofs.
From S2P Require Import Garbage CollectProofs RetainProofs BlockProofs.
From S2P Require Import BlockEnd.
From S2P Require Import SymbolMatch AtomWitness.

Section theorems.
Context {H : Type}.
Implicit Types (s : AtomEnv H) (C : TableId → Z → list ptr).

(** ** Interning *)

(** The contract of a creating function: it returns the one node of [a], which
    is new, without references and on a list of the current frame when there
    was none; every other node stays as it is, but for its link. *)
Record interning (a : Atom) s (p : ptr) s' C' : Prop := {
  in_inv : atoms_inv s' C';
  in_node : interned s' a p;
  in_others q n : nodes s !! q = Some n → ∃ n', nodes s' !! q = Some n' ∧ set_next None n' = set_next None n;
  in_found : is_nan_atom a = false → (∃ q, interned s a q) → interned s a p ∧ s' = s;
  in_new : (is_nan_atom a = true ∨ ∀ q, ¬ interned s a q) → nodes s !! p = None ∧ count_at s' p = 0%Z ∧
    ∃ x, frames s' !! CurrentGarbageFrame s' = Some x ∧ dirty x = true ∧ p ∈ ephemerals (atom_table a) x;
}.

Lemma creates_interning s C a create :
  atoms_inv s C → creates a create s C → ∃ p s' C', create s = Returned p s' ∧ interning a s p s' C'.
Proof.
  intros Hinv [(p & Hp & Hnan & Hc)|(Hnone & x & Hx & Hc & Hinv')].
  - exists p, s, C. split; [done|]. split; [done|done|by eauto|done|].
    intros [Hno|Hno]; [congruence|by destruct (Hno p)].
  - do 3 eexists. split; [exact Hc|]. split; [exact Hinv'|apply added_interned; by left|by intros; apply added_nodes| |].
    + intros Hnan [q Hq]. by destruct (Hnone Hnan q).
    + intros _. split; [apply fresh_ptr_None|]. split.
      * rewrite added_count. unfold count_at. by rewrite fresh_ptr_None.
      * eexists. split; [simpl; apply lookup_insert_eq|]. split; [by destruct (atom_table a)|].
        rewrite ephemerals_pushed, decide_True by done. constructor.
Qed.

(** C12: [AddSymbol] of a string and a lexeme type returns the node of that
    lexeme: the one in the table, leaving the state alone, or a new ephemeral
    one; the tables stay well formed. *)
Theorem AddSymbol_interns s C str type :
  atoms_inv s C → is_lexeme_type type →
  ∃ p s' C', AddSymbol (Some str) type s = Returned p s' ∧ interning (ALexeme type str) s p s' C'.
Proof. intros Hinv Ht. by eapply creates_interning, AddSymbol_creates. Qed.

(** The other creating functions meet the same contract, on every double,
    on every integer but the least, on all bitmaps and external addresses. *)
Theorem primitives_intern s C :
  atoms_inv s C →
  (∀ w, is_word w → ∃ p s' C', CreateFloat w s = Returned p s' ∧ interning (AFloat w) s p s' C') ∧
  (∀ z, (LLONG_MIN < z <= LLONG_MAX)%Z → ∃ p s' C', CreateInteger z s = Returned p s' ∧ interning (AInteger z) s p s' C') ∧
  (∀ l, ∃ p s' C', AddBitMap (Some l) s = Returned p s' ∧ interning (ABitMap l) s p s' C') ∧
  (∀ a type, ∃ p s' C', CreateExternalAddress a type s = Returned p s' ∧ interning (AExternalAddress a type) s p s' C').
Proof.
  intros Hinv. split_and!; intros; eapply creates_interning; try exact Hinv.
  - by apply CreateFloat_creates.
  - by apply CreateInteger_creates.
  - by apply AddBitMap_creates.
  - by apply CreateExternalAddress_creates.
Qed.

Lemma interned_unique s C a b p q :
  atoms_inv s C → interned s a p → interned s b q → is_nan_atom a = false → p = q ↔ a = b.
Proof.
  intros Hinv (n & Hn & <-)%interned_node (m & Hm & <-)%interned_node Hnan. split; [by intros ->; simplify_eq|].
  intros Heq. apply view_lookup in Hn, Hm.
  by apply (tr_unique _ _ _ (ai_tables _ _ Hinv) p q _ _ Hn Hm).
Qed.

(** Comparing the pointers that [AddSymbol] returns decides whether the
    lexemes are the same. *)
Theorem AddSymbol_pointer_equality s C str1 type1 str2 type2 :
  atoms_inv s C → is_lexeme_type type1 → is_lexeme_type type2 →
  ∃ p q s1 s2, AddSymbol (Some str1) type1 s = Returned p s1 ∧ AddSymbol (Some str2) type2 s1 = Returned q s2 ∧
    (p = q ↔ type1 = type2 ∧ str1 = str2).
Proof.
  intros Hinv H1 H2.
  destruct (creates_interning _ _ _ _ Hinv (AddSymbol_creates s C str1 type1 Hinv H1)) as (p & s1 & C1 & Hc1 & I1).
  pose proof (in_inv _ _ _ _ _ I1) as Hinv1.
  destruct (creates_interning _ _ _ _ Hinv1 (AddSymbol_creates s1 C1 str2 type2 Hinv1 H2)) as (q & s2 & C2 & Hc2 & I2).
  exists p, q, s1, s2. split; [done|]. split; [done|].
  assert (Hp : interned s2 (ALexeme type1 str1) p).
  { pose proof (in_node _ _ _ _ _ I1) as (n & Hn & Ha)%interned_node.
    destruct (in_others _ _ _ _ _ I2 p n Hn) as (n' & Hn' & E). apply interned_node. exists n'. split; [done|].
    injection E as _ _ _ _ _ E. congruence. }
  rewrite (interned_unique _ _ _ _ _ _ (in_inv _ _ _ _ _ I2) Hp (in_node _ _ _ _ _ I2) eq_refl). naive_solver.
Qed.

(** *** Values of the evaluator *)

(** The atom that a value of the evaluator stands for. *)
Inductive represents : value → Atom → Prop :=
| rep_symbol str : represents (VSymbol str) (ALexeme SYMBOL_TYPE str)
| rep_string str : represents (VString str) (ALexeme STRING_TYPE str)
| rep_instance_name str : represents (VInstanceName str) (ALexeme INSTANCE_NAME_TYPE str)
| rep_integer z : represents (VInteger z) (AInteger z)
| rep_float w : is_word w → represents (VFloat (double_of_bits w)) (AFloat w).

Lemma represents_nan v a : represents v a → is_nan v = is_nan_atom a.
Proof. by destruct 1. Qed.

Lemma double_of_bits_inj w1 w2 :
  is_word w1 → is_word w2 → double_of_bits w1 ≠ S754_nan → double_of_bits w1 = double_of_bits w2 → w1 = w2.
Proof.
  intros H1 H2 Hn Heq. pose proof (double_of_bits_fields w1 H1 Hn) as F1. rewrite Heq in Hn, F1.
  pose proof (double_of_bits_fields w2 H2 Hn) as F2. clear Heq H1 H2.
  destruct (double_of_bits w2) as [?|?| |? ? ?]; [| |destruct (Hn eq_refl)|];
    exact (eq_trans F1 (eq_sym F2)).
Qed.

Lemma represents_inj v w a b : represents v a → represents w b → is_nan v = false → v = w ↔ a = b.
Proof.
  intros [str|str|str|z|x Hx] [str'|str'|str'|z'|y Hy] Hn; split; intros E; try discriminate E; try (by injection E as ->).
  f_equal. injection E as E. apply double_of_bits_inj; try done. intros En. simpl in Hn. by rewrite En in Hn.
Qed.

(** The call by which the code makes the object of a value. *)
Inductive creating : value → P (AtomEnv H) ptr → Prop :=
| creating_symbol str : creating (VSymbol str) (AddSymbol (Some str) SYMBOL_TYPE)
| creating_string str : creating (VString str) (AddSymbol (Some str) STRING_TYPE)
| creating_instance_name str : creating (VInstanceName str) (AddSymbol (Some str) INSTANCE_NAME_TYPE)
| creating_integer z : (LLONG_MIN < z <= LLONG_MAX)%Z → creating (VInteger z) (CreateInteger z)
| creating_float w : is_word w → creating (VFloat (double_of_bits w)) (CreateFloat w).

Lemma creating_interns s C v create :
  atoms_inv s C → creating v create →
  ∃ a p s' C', represents v a ∧ create s = Returned p s' ∧ interning a s p s' C'.
Proof.
  intros Hinv Hc.
  assert (∃ a, represents v a ∧ creates a create s C) as (a & Ha & Hcr).
  { destruct Hc; eexists; (split; [by constructor|]);
      first [apply AddSymbol_creates; [done|by repeat constructor]|by apply CreateInteger_creates|by apply CreateFloat_creates]. }
  destruct (creates_interning s C a create Hinv Hcr) as (p & s' & C' & Hr & I). by exists a, p, s', C'.
Qed.

(** Interned in a state, interned after the next creation. *)
Lemma interning_keeps a b s p q s' C' : interned s b q → interning a s p s' C' → interned s' b q.
Proof.
  intros (n & Hn & Ha)%interned_node I. destruct (in_others _ _ _ _ _ I q n Hn) as (n' & Hn' & E).
  apply interned_node. exists n'. split; [done|]. injection E as _ _ _ _ _ E. congruence.
Qed.

Lemma interned_same_object s C v w a b p q :
  atoms_inv s C → represents v a → represents w b → interned s a p → interned s b q →
  match same_object v w with
  | Some same => p = q ↔ same = true
  | None => is_nan v = true ∧ is_nan w = true
  end.
Proof.
  intros Hinv Hv Hw Hp Hq. unfold same_object. destruct (is_nan v) eqn:Ev; simpl.
  - destruct (is_nan w) eqn:Ew; [done|]. rewrite bool_decide_eq_true.
    pose proof (represents_inj w v b a Hw Hv Ew) as Hi. rewrite (represents_nan _ _ Hw) in Ew.
    pose proof (interned_unique s C b a q p Hinv Hq Hp Ew) as Hu. naive_solver.
  - rewrite bool_decide_eq_true. pose proof (represents_inj v w a b Hv Hw Ev) as Hi. rewrite (represents_nan _ _ Hv) in Ev.
    pose proof (interned_unique s C a b p q Hinv Hp Hq Ev) as Hu. naive_solver.
Qed.

(** C13: [AddSymbol], [CreateFloat] and [CreateInteger] called one after the
    other for two values of the evaluator return the same pointer exactly when
    the values are the same, as [same_object] decides by content; two NaNs,
    which [same_object] leaves undecided, get different nodes. *)
Theorem created_pointers_compare s C v w create_v create_w :
  atoms_inv s C → creating v create_v → creating w create_w →
  ∃ p q s1 s2, create_v s = Returned p s1 ∧ create_w s1 = Returned q s2 ∧
    match same_object v w with
    | Some same => p = q ↔ same = true
    | None => p ≠ q
    end.
Proof.
  intros Hinv Hv Hw.
  destruct (creating_interns s C v create_v Hinv Hv) as (a & p & s1 & C1 & Ha & Hr1 & I1).
  pose proof (in_inv _ _ _ _ _ I1) as Hinv1. pose proof (in_node _ _ _ _ _ I1) as Hp1.
  destruct (creating_interns s1 C1 w create_w Hinv1 Hw) as (b & q & s2 & C2 & Hb & Hr2 & I2).
  exists p, q, s1, s2. split; [done|]. split; [done|].
  pose proof (interned_same_object s2 C2 v w a b p q (in_inv _ _ _ _ _ I2) Ha Hb
    (interning_keeps _ _ _ _ _ _ _ Hp1 I2) (in_node _ _ _ _ _ I2)) as Hs.
  destruct (same_object v w); [done|]. destruct Hs as [_ Hn]. rewrite (represents_nan _ _ Hb) in Hn.
  destruct (in_new _ _ _ _ _ I2 (or_introl Hn)) as [Hq _].
  apply interned_node in Hp1 as (n & Hp1 & _). congruence.
Qed.

(** ** Lookup *)

Lemma search_bucket_cases s C t i test :
  atoms_inv s C → (0 <= i < table_size t)%Z →
  ∃ past o, search_bucket t i test s = Returned (past, o) s ∧
    match o with
    | Some p => ∃ n, nodes s !! p = Some n ∧ test n = true
    | None => ∀ p n, p ∈ C t i → nodes s !! p = Some n → test n = false
    end.
Proof.
  intros Hinv Hi. pose proof (ai_tables _ _ Hinv) as Ht. unfold search_bucket. prun (bucket_head_Some s t i Hi).
  unfold getsP, someP. unfold mbind, P_bind.
  destruct (search_cases (S (size (nodes s))) (nodes s) test _ _ (tr_chain _ _ _ Ht t i Hi) (tables_fuel _ _ _ Ht t i Hi))
    as [(l1 & x & l2 & n & HC & Hx & Hn & Hall & Hs)|[Hall Hs]]; rewrite Hs; do 2 eexists; (split; [done|]); simpl; eauto.
Qed.

(** [FindSymbolHN] finds a lexeme with the string and one of the types
    asked for, exactly when there is one, and changes nothing. *)
Theorem FindSymbolHN_correct s C str expectedType :
  atoms_inv s C →
  ∃ o, FindSymbolHN str expectedType s = Returned o s ∧
    match o with
    | Some p => ∃ type, interned s (ALexeme type str) p ∧ has_bits (Z.shiftl 1 type) expectedType = true
    | None => ∀ type p, has_bits (Z.shiftl 1 type) expectedType = true → ¬ interned s (ALexeme type str) p
    end.
Proof.
  intros Hinv. assert (Hi : (0 <= HashSymbol str SYMBOL_HASH_SIZE < table_size SymbolTable)%Z) by by apply HashSymbol_bound.
  pose proof (search_bucket_cases s C SymbolTable _ (fun peek =>
    match contents peek with
    | ALexeme type chars => has_bits (Z.shiftl 1 type) expectedType && String.eqb str chars
    | _ => false
    end) Hinv Hi) as (past & o & Hr & Ho).
  exists o. split; [unfold FindSymbolHN; by prun Hr|]. destruct o as [p|].
  - destruct Ho as (n & Hn & Ht). destruct (contents n) as [type chars| | | |] eqn:E; try done.
    apply andb_true_iff in Ht as [Hb ->%String.eqb_eq]. exists type. split; [|done]. apply interned_node. eauto.
  - intros type p Hb (n & Hn & Ha)%interned_node.
    assert (Hp : p ∈ C SymbolTable (HashSymbol str SYMBOL_HASH_SIZE)).
    { exact (tables_at_hash _ _ _ (ai_tables _ _ Hinv) (ALexeme type str) p _ (view_lookup _ _ _ Hn) Ha). }
    specialize (Ho p n Hp Hn). by rewrite Ha, Hb, String.eqb_refl in Ho.
Qed.

(** ** Reference counts *)

(** Releasing a value that was retained gives every node and multifield its
    count back. *)
Theorem retain_release_roundtrip `{!GarbageHost H} s C v :
  atoms_inv s C → live_value s v →
  (∀ p, p ∈ value_nodes s v → (count_at s p + occurs p (value_nodes s v) <= LLONG_MAX)%Z) →
  (∀ m, v = OMultifield (Some m) → (0 <= busy_at s m)%Z ∧ (busy_at s m + 1 < 2 ^ 32)%Z) →
  ∃ s1 s2, RetainUDFV v s = Returned tt s1 ∧ ReleaseUDFV v s1 = Returned tt s2 ∧ atoms_inv s1 C ∧ atoms_inv s2 C ∧
    (∀ p, p ∈ value_nodes s v → count_at s1 p = (count_at s p + occurs p (value_nodes s v))%Z) ∧
    (∀ p, is_Some (nodes s !! p) → count_at s2 p = count_at s p) ∧
    (∀ m, is_Some (multifields s !! m) → busy_at s2 m = busy_at s m).
Proof.
  intros Hinv Hl Hc Hb. destruct (RetainUDFV_spec s C v Hinv Hl Hc Hb) as (s1 & Hr1 & Hinv1 & Hs1).
  assert (Hl1 : live_value s1 v) by by eapply live_value_step.
  assert (Hv1 : value_nodes s1 v = value_nodes s v) by (unfold value_nodes; by rewrite (fields_of_step _ _ _ _ _ Hs1)).
  assert (Hcount : ∀ p, p ∈ value_nodes s v → count_at s1 p = (count_at s p + occurs p (value_nodes s v))%Z).
  { intros p Hp. apply (counts_step_count_at _ _ _ _ _ Hs1). destruct (value_nodes_live s v p Hl Hp) as (n & -> & _). eauto. }
  destruct (ReleaseUDFV_spec s1 C v Hinv1 Hl1) as (s2 & Hr2 & Hinv2 & Hs2).
  { intros p. rewrite Hv1. intros Hp. rewrite (Hcount p Hp). destruct (value_nodes_live s v p Hl Hp) as (n & Hn & _).
    pose proof (node_count _ _ _ _ Hinv Hn) as H0. unfold count_at. rewrite Hn. lia. }
  { intros m Hm. specialize (Hb m Hm). destruct Hl as [_ Hm']. subst v.
    rewrite (counts_step_busy_at _ _ _ _ _ Hs1 Hm'). simpl. unfold one_step. rewrite decide_True by done. lia. }
  pose proof (counts_step_trans _ _ _ _ _ _ _ Hs1 Hs2) as Hs. exists s1, s2. split_and!; try done.
  - intros p Hp. rewrite (counts_step_count_at _ _ _ _ _ Hs Hp). unfold plus_step. rewrite Hv1. lia.
  - intros m Hm. rewrite (counts_step_busy_at _ _ _ _ _ Hs Hm). unfold plus_step. lia.
Qed.

(** Releasing a node that nobody retains is reported as an inconsistency,
    and ends the process. *)
Theorem Release_unretained_exits `{!GarbageHost H} s C p n :
  atoms_inv s C → nodes s !! p = Some n → count n = 0%Z →
  ∃ id s', (if is_bitmap (contents n) then DecrementBitMapReferenceCount p s else Release (ONode p) s) = Exited EXIT_FAILURE s' ∧
    SystemError "SYMBOL" id s = Some (tt, s') ∧
    id = match contents n with
         | ALexeme _ _ => 4 | AFloat _ => 5 | AInteger _ => 6 | ABitMap _ => 8 | AExternalAddress _ _ => 10
         end%Z.
Proof.
  intros Hinv Hn Hc. destruct (is_bitmap (contents n)) eqn:Eb.
  - destruct (contents n) eqn:E; try done. unfold DecrementBitMapReferenceCount. prun (node_Some _ _ _ Hn). rewrite Hc. simpl.
    destruct (system_failure_Exited (A := unit) "SYMBOL" 8 s) as (s' & Hs & Ho). eauto.
  - destruct (release_node_zero s C p n (system_failure "EVALUATN" 8) Hinv Hn Eb Hc) as (id & s' & Hr & Hs & ->).
    do 2 eexists. split; [exact Hr|]. split; [exact Hs|]. by destruct (contents n).
Qed.

(** ** Removal *)

(** C14: [RemoveEphemeralAtoms] frees exactly the nodes on the lists of the
    current frame that have no references, calls the discard functions of the
    external addresses among them, empties the lists and keeps the tables. *)
Theorem RemoveEphemeralAtoms_correct s C x :
  atoms_inv s C → frames s !! CurrentGarbageFrame s = Some x →
  ∃ s' C' x', RemoveEphemeralAtoms s = Returned tt s' ∧ atoms_inv s' C' ∧
    (∀ p, match nodes s !! p with
          | Some n =>
              if decide (p ∈ listed_in all_tables x ∧ count n = 0%Z) then nodes s' !! p = None
              else ∃ n', nodes s' !! p = Some n' ∧ contents n' = contents n ∧ count n' = count n
          | None => nodes s' !! p = None
          end) ∧
    frames s' !! CurrentGarbageFrame s' = Some x' ∧ (∀ t, ephemerals t x' = []) ∧
    discarded s' = discarded s ++ discards (discardFunctions s) (view (nodes s)) (listed_in all_tables x).
Proof.
  intros Hinv Hx. destruct (dirty x) eqn:Hd.
  - destruct (RemoveEphemeralAtoms_spec s C x Hinv Hx Hd) as (ns & hs & C' & Hr & Hinv' & Hv).
    do 3 eexists. split; [exact Hr|]. split; [exact Hinv'|]. split; [|split; [|split; [|done]]].
    + intros p. exact (collect_count s ns _ p Hv).
    + simpl. apply lookup_insert_eq.
    + intros t. by destruct t.
  - assert (He : ∀ t, ephemerals t x = []) by (intros t; exact (fr_clean _ _ (ai_frames _ _ Hinv) _ _ t Hx Hd)).
    assert (Hl : listed_in all_tables x = []).
    { unfold listed_in, all_tables. cbn [mbind list_bind]. by rewrite !He. }
    exists s, C, x. split_and!; try done.
    + unfold RemoveEphemeralAtoms, getsP. unfold mbind at 1, P_bind at 1. prun (frame_Some _ _ _ Hx). by rewrite Hd.
    + intros p. destruct (nodes s !! p); [|done]. rewrite decide_False by (rewrite Hl; intros [?%not_elem_of_nil _]; done). eauto.
    + rewrite Hl. cbn. by rewrite app_nil_r.
Qed.

(** ** Hash values *)

(** C15: Every hash value is an index of a table of the given size; that of an
    integer is undefined exactly for the least one, whose absolute value is no
    [long long]. *)
Theorem hash_values_bounded range :
  (0 < range)%Z →
  (∀ word, 0 <= HashSymbol word range < range)%Z ∧ (∀ w, 0 <= HashFloat w range < range)%Z ∧
  (∀ a, 0 <= HashExternalAddress a range < range)%Z ∧ (∀ l, 0 <= HashBitMap l range < range)%Z ∧
  (∀ z, (LLONG_MIN <= z <= LLONG_MAX)%Z →
    match HashInteger z range with Some k => (z ≠ LLONG_MIN ∧ 0 <= k < range)%Z | None => z = LLONG_MIN end).
Proof.
  intros Hr. split_and!; intros.
  - by apply HashSymbol_bound.
  - by apply HashFloat_bound.
  - by apply HashExternalAddress_bound.
  - by apply HashBitMap_bound.
  - destruct (decide (z = LLONG_MIN)) as [->|Hne]; [done|].
    rewrite HashInteger_Some by lia. split; [done|]. by apply Z.mod_pos_bound.
Qed.

(** ** Completion *)

(** [FindSymbolMatches] leaves the state alone and returns, last found
    first, the lexemes that begin with the string, except those that begin
    with a parenthesis or are ephemeral; with their number as an [unsigned],
    and the length of the longest prefix that all of them share. *)
Theorem FindSymbolMatches_correct s C searchString k :
  atoms_inv s C →
  ∃ l k', FindSymbolMatches searchString (Some k) s = Returned (reverse l, Z.of_nat (length l) mod 2 ^ 32, Some k')%Z s ∧
    NoDup l ∧ l `sublist_of` table_order C ∧
    (∀ p, p ∈ l ↔ ∃ n type chars, nodes s !! p = Some n ∧ contents n = ALexeme type chars ∧
      String.prefix searchString chars = true ∧ parenthesized chars = false ∧ markedEphemeral n = false) ∧
    match l with
    | [] => k' = k
    | _ => ∀ j : nat, (Z.of_nat j <= k')%Z ↔ ∀ p q, p ∈ l → q ∈ l → agree j (chars_at s p) (chars_at s q)
    end.
Proof.
  intros Hinv. pose proof (ai_tables _ _ Hinv) as Ht. clear Hinv.
  set (l := matching s searchString (table_order C)).
  exists l, (shrink None k (chars_at s <$> l)). split; [exact (FindSymbolMatches_eq s C searchString k Ht)|].
  split; [exact (NoDup_filter _ _ (table_order_NoDup s C Ht))|]. split; [apply sublist_filter|]. split.
  - intros p. unfold l, matching. rewrite list_elem_of_filter, (elem_of_table_order s C p Ht). split.
    + intros (Hm & n & Hn & Ha). rewrite Hn in Hm. simpl in Hm. unfold matches, in_use, lexeme_contents in Hm.
      destruct (contents n) as [type chars| | | |] eqn:E; try done. exists n, type, chars.
      apply andb_true_iff in Hm as [Hu Hp]. apply negb_true_iff, orb_false_iff in Hu as [? ?].
      apply Z.leb_le, CommonPrefixLength_agree, agree_prefix in Hp. done.
    + intros (n & type & chars & Hn & Ha & Hp & Hb & Hk). split; [|exists n; by rewrite Ha].
      rewrite Hn. simpl. unfold matches, in_use, lexeme_contents. rewrite Ha, Hb, Hk. simpl.
      by apply Z.leb_le, CommonPrefixLength_agree, agree_prefix.
  - clearbody l. destruct l as [|p0 l0]; [reflexivity|]. intros j. rewrite fmap_cons, shrink_common, <- fmap_cons. split.
    + intros Hall p q Hp Hq. apply Hall; by apply list_elem_of_fmap_2.
    + intros Hall b c (p & -> & Hp)%list_elem_of_fmap_1 (q & -> & Hq)%list_elem_of_fmap_1. by apply Hall.
Qed.

(** ** Any sequence of operations *)

Definition retain_of (t : TableId) : ptr → P (AtomEnv H) unit :=
  match t with
  | SymbolTable => RetainLexeme
  | FloatTable => RetainFloat
  | IntegerTable => RetainInteger
  | BitMapTable => IncrementBitMapReferenceCount
  | ExternalAddressTable => RetainExternalAddress
  end.
Definition release_of (t : TableId) : ptr → P (AtomEnv H) unit :=
  match t with
  | SymbolTable => ReleaseLexeme
  | FloatTable => ReleaseFloat
  | IntegerTable => ReleaseInteger
  | BitMapTable => DecrementBitMapReferenceCount
  | ExternalAddressTable => ReleaseExternalAddress
  end.

(** An operation that returns; retaining and releasing are for nodes of their type. *)
Inductive table_step : AtomEnv H → AtomEnv H → Prop :=
| step_AddSymbol str type p s s' :
    is_lexeme_type type → AddSymbol (Some str) type s = Returned p s' → table_step s s'
| step_CreateFloat w p s s' : is_word w → CreateFloat w s = Returned p s' → table_step s s'
| step_CreateInteger z p s s' : (LLONG_MIN < z <= LLONG_MAX)%Z → CreateInteger z s = Returned p s' → table_step s s'
| step_AddBitMap l p s s' : AddBitMap (Some l) s = Returned p s' → table_step s s'
| step_CreateExternalAddress a type p s s' : CreateExternalAddress a type s = Returned p s' → table_step s s'
| step_Retain p n s s' :
    nodes s !! p = Some n → retain_of (atom_table (contents n)) p s = Returned tt s' → table_step s s'
| step_Release p n s s' :
    nodes s !! p = Some n → release_of (atom_table (contents n)) p s = Returned tt s' → table_step s s'
| step_RemoveEphemeralAtoms s s' : RemoveEphemeralAtoms s = Returned tt s' → table_step s s'.

Lemma creates_step s C a create p s' :
  atoms_inv s C → creates a create s C → create s = Returned p s' → ∃ C', atoms_inv s' C'.
Proof.
  intros Hinv Hc Hr. destruct (creates_interning s C a create Hinv Hc) as (q & s1 & C1 & Hr' & I).
  rewrite Hr in Hr'. injection Hr' as <- <-. exists C1. exact (in_inv _ _ _ _ _ I).
Qed.

Lemma retain_of_eq t : retain_of t = increment_count.
Proof. by destruct t. Qed.

Lemma retain_step s C p n s' :
  atoms_inv s C → nodes s !! p = Some n → increment_count p s = Returned tt s' → atoms_inv s' C.
Proof.
  intros Hinv Hn Hr. assert (Hmax : (count n + 1 <= LLONG_MAX)%Z).
  { destruct (decide (count n + 1 <= LLONG_MAX)%Z); [done|]. revert Hr. unfold increment_count. prun (node_Some _ _ _ Hn).
    by rewrite long_long_None by lia. }
  destruct (increment_count_spec s C p n Hinv Hn Hmax) as (s1 & Hr' & Hinv1 & _). congruence.
Qed.

Lemma release_step s C p n s' :
  atoms_inv s C → nodes s !! p = Some n → release_of (atom_table (contents n)) p s = Returned tt s' → atoms_inv s' C.
Proof.
  intros Hinv Hn Hr. pose proof (node_count _ _ _ _ Hinv Hn) as H0.
  assert (Hpos : (0 < count n)%Z ∧ decrement_count p (atom_table (contents n)) s = Returned tt s').
  { destruct (decide (count n = 0)%Z) as [Hz|Hz].
    - exfalso. revert Hr. destruct (atom_table (contents n)); simpl; unfold ReleaseLexeme, ReleaseFloat, ReleaseInteger,
        DecrementBitMapReferenceCount, ReleaseExternalAddress; prun (node_Some _ _ _ Hn); rewrite Hz; simpl;
        match goal with |- context [system_failure "SYMBOL" ?i _] =>
        destruct (system_failure_Exited (A := unit) "SYMBOL" i s) as (? & -> & _) end; done.
    - split; [lia|]. revert Hr. assert (E1 : (count n <? 0)%Z = false) by lia. assert (E2 : (count n =? 0)%Z = false) by lia.
      assert (E3 : (count n <=? 0)%Z = false) by lia.
      destruct (atom_table (contents n)); simpl; unfold ReleaseLexeme, ReleaseFloat, ReleaseInteger,
        DecrementBitMapReferenceCount, ReleaseExternalAddress; prun (node_Some _ _ _ Hn); by rewrite ?E1, ?E2, ?E3. }
  destruct Hpos as [Hpos Hd]. destruct (decrement_count_spec s C p n Hinv Hn Hpos) as (s1 & Hr' & Hinv1 & _). congruence.
Qed.

Lemma table_step_inv s s' C : table_step s s' → atoms_inv s C → ∃ C', atoms_inv s' C'.
Proof.
  intros Hstep Hinv. destruct Hstep as [str type p s s' Ht Hr|w p s s' Hw Hr|z p s s' Hz Hr|l p s s' Hr|a type p s s' Hr|p n s s' Hn Hr|p n s s' Hn Hr|s s' Hr].
  - eapply creates_step; [exact Hinv|by apply AddSymbol_creates|exact Hr].
  - eapply creates_step; [exact Hinv|by apply CreateFloat_creates|exact Hr].
  - eapply creates_step; [exact Hinv|by apply CreateInteger_creates|exact Hr].
  - eapply creates_step; [exact Hinv|by apply AddBitMap_creates|exact Hr].
  - eapply creates_step; [exact Hinv|by apply CreateExternalAddress_creates|exact Hr].
  - rewrite retain_of_eq in Hr. exists C. by eapply retain_step.
  - exists C. by eapply release_step.
  - destruct (ai_current _ _ Hinv) as [x Hx]. destruct (dirty x) eqn:Hd.
    + destruct (RemoveEphemeralAtoms_spec s C x Hinv Hx Hd) as (ns & hs & C' & Hr' & Hinv' & _).
      rewrite Hr in Hr'. injection Hr' as ->. by exists C'.
    + assert (Hr' : RemoveEphemeralAtoms s = Returned tt s).
      { unfold RemoveEphemeralAtoms, getsP. unfold mbind at 1, P_bind at 1. prun (frame_Some _ _ _ Hx). by rewrite Hd. }
      exists C. congruence.
Qed.

(** The contents that the type of a table's nodes stands for. *)
Definition well_typed (t : TableId) (a : Atom) : Prop :=
  match t, a with
  | SymbolTable, ALexeme type _ => is_lexeme_type type
  | FloatTable, AFloat w => is_word w
  | IntegerTable, AInteger z => (LLONG_MIN < z <= LLONG_MAX)%Z
  | BitMapTable, ABitMap _ | ExternalAddressTable, AExternalAddress _ _ => True
  | _, _ => False
  end.

(** C11: Whatever sequence of operations follows the initialization, a bucket is
    a list of live nodes that have the type of its table, legal contents, the
    bucket's index as their hash value, a count that is not negative, and a
    mark when the count is 0. *)
Theorem tables_well_typed cleanup discardTable (h : H) s0 s :
  InitializeAtomTables (initial_env cleanup discardTable h) = Returned tt s0 → rtc table_step s0 s →
  ∃ C, ∀ t i, (0 <= i < table_size t)%Z →
    sseg (nodes s) (heads s !! (t, i)) (C t i) None ∧ NoDup (C t i) ∧
    ∀ p, p ∈ C t i → ∃ n, nodes s !! p = Some n ∧ well_typed t (contents n) ∧ atom_hash (contents n) = i ∧
      bucket n = i ∧ (0 <= count n)%Z ∧ (count n = 0%Z → markedEphemeral n = true).
Proof.
  intros Hinit Hsteps.
  assert (H0 : ∃ C0, atoms_inv s0 C0).
  { assert (Hk : counts_below (initial_env cleanup discardTable h) 0).
    { intros p. unfold count_at. simpl. by rewrite lookup_empty. }
    destruct (InitializeAtomTables_spec _ _ 0 (initial_atoms_inv cleanup discardTable h) Hk ltac:(unfold LLONG_MAX; lia))
      as (s1 & C1 & Hr & Hinv1 & _). rewrite Hinit in Hr. injection Hr as ->. by exists C1. }
  destruct H0 as [C0 Hinv0]. clear Hinit. assert (Hinv : ∃ C, atoms_inv s C).
  { revert C0 Hinv0. induction Hsteps as [|s1 s2 s3 Hstep _ IH]; [eauto|]. intros C1 Hinv1.
    destruct (table_step_inv s1 s2 C1 Hstep Hinv1) as [C2 Hinv2]. by apply (IH C2). }
  destruct Hinv as [C Hinv]. pose proof (ai_tables _ _ Hinv) as Ht. exists C. intros t i Hi.
  split; [by apply (tr_chain _ _ _ Ht)|]. split; [apply (tr_nodup _ _ _ Ht)|]. intros p Hp.
  apply (tr_member _ _ _ Ht) in Hp as (v & Hv & Ha & Hb). pose proof (tr_hash _ _ _ Ht _ _ Hv) as Hh.
  apply view_lookup_inv in Hv as (n & Hn & ->). simpl in *. exists n. split; [done|].
  pose proof (node_ok _ _ _ _ Hinv Hn) as Hok. split; [|split; [congruence|split; [done|split]]].
  - rewrite <- Ha. by destruct (contents n).
  - by eapply node_count.
  - by eapply node_zero.
Qed.

(** ** Initialization *)

(** [InitializeAtomTables] leaves well-formed tables in which [TRUE], [FALSE],
    [+oo], [-oo] and [0] are interned, stored in the environment, and held, so
    that no collection frees them. *)
Theorem InitializeAtomTables_correct cleanup discardTable (h : H) :
  ∃ s C, InitializeAtomTables (initial_env cleanup discardTable h) = Returned tt s ∧ atoms_inv s C ∧
    predefined s (TrueSymbol s) (ALexeme SYMBOL_TYPE "TRUE") ∧
    predefined s (FalseSymbol s) (ALexeme SYMBOL_TYPE "FALSE") ∧
    predefined s (PositiveInfinity s) (ALexeme SYMBOL_TYPE "+oo") ∧
    predefined s (NegativeInfinity s) (ALexeme SYMBOL_TYPE "-oo") ∧
    predefined s (Zero s) (AInteger 0).
Proof.
  assert (Hk : counts_below (initial_env cleanup discardTable h) 0).
  { intros p. unfold count_at. simpl. by rewrite lookup_empty. }
  destruct (InitializeAtomTables_spec _ _ 0 (initial_atoms_inv cleanup discardTable h) Hk ltac:(unfold LLONG_MAX; lia))
    as (s & C & Hr & Hinv & _ & Hrest). eauto.
Qed.
End theorems.

(** ** Instances *)

Definition first_env : AtomEnv Holder := initial_env [] ∅ [].
Lemma first_inv : atoms_inv first_env no_nodes.
Proof. apply initial_atoms_inv. Qed.
Lemma first_not_interned a q : ¬ interned first_env a q.
Proof. unfold interned, first_env. simpl. by rewrite lookup_empty. Qed.

Lemma AddSymbol_interns_witness :
  ∃ p s' C', AddSymbol (Some "duck") SYMBOL_TYPE first_env = Returned p s' ∧
    interning (ALexeme SYMBOL_TYPE "duck") first_env p s' C'.
Proof. apply (AddSymbol_interns first_env no_nodes "duck" SYMBOL_TYPE first_inv). left. reflexivity. Defined.

Lemma primitives_intern_witness :
  ∃ p s' C', CreateInteger 42 first_env = Returned p s' ∧ interning (AInteger 42) first_env p s' C'.
Proof.
  destruct (primitives_intern first_env no_nodes first_inv) as (_ & Hz & _). apply (Hz 42%Z).
  unfold LLONG_MIN, LLONG_MAX. lia.
Defined.

Lemma AddSymbol_pointer_equality_witness :
  ∃ p q s1 s2, AddSymbol (Some "a") SYMBOL_TYPE first_env = Returned p s1 ∧ AddSymbol (Some "a") STRING_TYPE s1 = Returned q s2 ∧ p ≠ q.
Proof.
  destruct (AddSymbol_pointer_equality first_env no_nodes "a" SYMBOL_TYPE "a" STRING_TYPE first_inv) as (p & q & s1 & s2 & H1 & H2 & Heq).
  - left. reflexivity.
  - right. left. reflexivity.
  - exists p, q, s1, s2. split; [exact H1|]. split; [exact H2|]. intros E. apply Heq in E as [E _]. discriminate E.
Defined.

(** A symbol made twice, and the not-a-number of the bits [7FF8...]. *)
Lemma created_pointers_compare_witness :
  (∃ p q s1 s2, AddSymbol (Some "a") SYMBOL_TYPE first_env = Returned p s1 ∧
    AddSymbol (Some "a") SYMBOL_TYPE s1 = Returned q s2 ∧ p = q) ∧
  (∃ p q s1 s2, CreateFloat 9221120237041090560 first_env = Returned p s1 ∧
    CreateFloat 9221120237041090560 s1 = Returned q s2 ∧ p ≠ q).
Proof.
  split.
  - destruct (created_pointers_compare first_env no_nodes _ _ _ _ first_inv (creating_symbol "a") (creating_symbol "a"))
      as (p & q & s1 & s2 & H1 & H2 & Heq).
    exists p, q, s1, s2. split; [exact H1|]. split; [exact H2|]. apply Heq. reflexivity.
  - assert (Hw : is_word 9221120237041090560) by (vm_compute; split; [discriminate|reflexivity]).
    destruct (created_pointers_compare first_env no_nodes _ _ _ _ first_inv (creating_float _ Hw) (creating_float _ Hw))
      as (p & q & s1 & s2 & H1 & H2 & Heq).
    exists p, q, s1, s2. split; [exact H1|]. split; [exact H2|exact Heq].
Defined.

Lemma FindSymbolHN_correct_witness : FindSymbolHN "duck" SYMBOL_BIT first_env = Returned None first_env.
Proof.
  destruct (FindSymbolHN_correct first_env no_nodes "duck" SYMBOL_BIT first_inv) as (o & Hr & Ho).
  destruct o as [p|]; [|exact Hr]. destruct Ho as (type & Hp & _). destruct (first_not_interned _ _ Hp).
Defined.

(** A symbol just created: retained and released, or removed. *)
Lemma new_symbol : ∃ p s C n x,
  AddSymbol (Some "duck") SYMBOL_TYPE first_env = Returned p s ∧ atoms_inv s C ∧ nodes s !! p = Some n ∧
  contents n = ALexeme SYMBOL_TYPE "duck" ∧ count n = 0%Z ∧
  frames s !! CurrentGarbageFrame s = Some x ∧ p ∈ ephemerals SymbolTable x.
Proof.
  destruct (creates_interning first_env no_nodes _ _ first_inv
    (AddSymbol_creates first_env no_nodes "duck" SYMBOL_TYPE first_inv (or_introl eq_refl))) as (p & s & C & Hr & [Hinv Hn _ _ Hnew]).
  destruct (Hnew (or_intror (first_not_interned _))) as (_ & Hc & x & Hx & _ & Hp).
  apply interned_node in Hn as (n & Hn & Ha). unfold count_at in Hc. rewrite Hn in Hc.
  exists p, s, C, n, x. split_and!; done.
Qed.

Lemma retain_release_roundtrip_witness :
  ∃ p s s1 s2, AddSymbol (Some "duck") SYMBOL_TYPE first_env = Returned p s ∧
    RetainUDFV (ONode p) s = Returned tt s1 ∧ ReleaseUDFV (ONode p) s1 = Returned tt s2 ∧
    count_at s1 p = 1%Z ∧ count_at s2 p = 0%Z.
Proof.
  destruct new_symbol as (p & s & C & n & x & Hr & Hinv & Hn & Ha & Hc & _).
  assert (Hcp : count_at s p = 0%Z) by (unfold count_at; rewrite Hn; exact Hc).
  assert (Ho : occurs p (value_nodes s (ONode p)) = 1%Z) by (simpl; rewrite decide_True by reflexivity; reflexivity).
  destruct (retain_release_roundtrip s C (ONode p) Hinv) as (s1 & s2 & H1 & H2 & _ & _ & Hc1 & Hc2 & _).
  - split; [|exact I]. constructor; [|constructor]. exists n. split; [exact Hn|]. rewrite Ha. reflexivity.
  - intros q Hq. apply list_elem_of_singleton in Hq. subst q. rewrite Hcp, Ho. unfold LLONG_MAX. lia.
  - intros m Hm. discriminate Hm.
  - exists p, s, s1, s2. split; [exact Hr|]. split; [exact H1|]. split; [exact H2|]. split.
    + rewrite Hc1, Hcp, Ho; [reflexivity|]. apply list_elem_of_singleton. reflexivity.
    + rewrite Hc2; [exact Hcp|]. exists n. exact Hn.
Defined.

Lemma Release_unretained_exits_witness :
  ∃ p s s', AddSymbol (Some "duck") SYMBOL_TYPE first_env = Returned p s ∧
    Release (ONode p) s = Exited EXIT_FAILURE s' ∧ SystemError "SYMBOL" 4 s = Some (tt, s').
Proof.
  destruct new_symbol as (p & s & C & n & x & Hr & Hinv & Hn & Ha & Hc & _).
  destruct (Release_unretained_exits s C p n Hinv Hn Hc) as (id & s' & H1 & H2 & H3).
  rewrite Ha in H1, H3. simpl in H1, H3. subst id. exists p, s, s'. split; [exact Hr|]. split; [exact H1|exact H2].
Defined.

Lemma RemoveEphemeralAtoms_correct_witness :
  ∃ p s s', AddSymbol (Some "duck") SYMBOL_TYPE first_env = Returned p s ∧ is_Some (nodes s !! p) ∧
    RemoveEphemeralAtoms s = Returned tt s' ∧ nodes s' !! p = None.
Proof.
  destruct new_symbol as (p & s & C & n & x & Hr & Hinv & Hn & Ha & Hc & Hx & Hp).
  destruct (RemoveEphemeralAtoms_correct s C x Hinv Hx) as (s' & C' & x' & Hrun & _ & Hnodes & _).
  specialize (Hnodes p). rewrite Hn in Hnodes. rewrite decide_True in Hnodes.
  - exists p, s, s'. split; [exact Hr|]. split; [exists n; exact Hn|]. split; [exact Hrun|exact Hnodes].
  - split; [|exact Hc]. apply elem_of_listed_in. exists SymbolTable. split; [|exact Hp]. left.
Defined.

Lemma hash_values_bounded_witness : (0 <= HashSymbol "duck" 63559 < 63559)%Z.
Proof. destruct (hash_values_bounded 63559) as [Hs _]; [lia|]. apply Hs. Defined.

(** The state in which the first command is read: the predefined symbols are
    in use, and nothing is ephemeral. *)
Definition started : AtomEnv Holder :=
  match (_ ← InitializeAtomTables; RemoveEphemeralAtoms) first_env with Returned _ s => s | _ => first_env end.

Lemma started_inv : ∃ C, atoms_inv started C.
Proof.
  assert (Hr : (_ ← InitializeAtomTables; RemoveEphemeralAtoms) first_env = Returned tt started) by (vm_compute; reflexivity).
  apply P_bind_inv in Hr as ([] & s0 & Hinit & Hr).
  destruct (InitializeAtomTables_spec first_env no_nodes 0 first_inv) as (s0' & C0 & Hinit' & Hinv0 & _).
  { intros p. unfold count_at, first_env. simpl. rewrite lookup_empty. lia. }
  { unfold LLONG_MAX. lia. }
  rewrite Hinit in Hinit'. injection Hinit' as <-. exact (table_step_inv s0 started C0 (step_RemoveEphemeralAtoms _ _ Hr) Hinv0).
Qed.

Example completion_of_T :
  match FindSymbolMatches "T" (Some 0%Z) started with
  | Returned (l, n, k) s => chars_at s <$> l = ["TRUE"] ∧ n = 1%Z ∧ k = Some 4%Z
  | _ => False
  end.
Proof. vm_compute. done. Qed.
Example completion_of_anything :
  match FindSymbolMatches "" (Some 0%Z) started with
  | Returned (l, n, k) s => chars_at s <$> l = ["FALSE"; "-oo"; "TRUE"; "+oo"] ∧ n = 4%Z ∧ k = Some 0%Z
  | _ => False
  end.
Proof. vm_compute. done. Qed.

Lemma FindSymbolMatches_correct_witness :
  ∃ l k', FindSymbolMatches "T" (Some 0%Z) started = Returned (reverse l, Z.of_nat (length l) mod 2 ^ 32, Some k')%Z started ∧
    NoDup l ∧ ∀ p, p ∈ l → String.prefix "T" (chars_at started p) = true.
Proof.
  destruct started_inv as [C Hinv].
  destruct (FindSymbolMatches_correct started C "T" 0 Hinv) as (l & k' & Hr & Hnd & _ & Hl & _).
  exists l, k'. split; [exact Hr|]. split; [exact Hnd|]. intros p Hp.
  apply Hl in Hp as (n & type & chars & Hn & Ha & Hpre & _). unfold chars_at. rewrite Hn. simpl.
  unfold lexeme_contents. rewrite Ha. exact Hpre.
Defined.

Lemma tables_well_typed_witness :
  ∃ s0 p s C, InitializeAtomTables first_env = Returned tt s0 ∧ AddSymbol (Some "duck") STRING_TYPE s0 = Returned p s ∧
    ∀ t i, (0 <= i < table_size t)%Z → sseg (nodes s) (heads s !! (t, i)) (C t i) None.
Proof.
  destruct (InitializeAtomTables_spec first_env no_nodes 0 first_inv) as (s0 & C0 & Hinit & Hinv0 & _).
  { intros p. unfold count_at, first_env. simpl. rewrite lookup_empty. lia. }
  { unfold LLONG_MAX. lia. }
  assert (Ht : is_lexeme_type STRING_TYPE) by (right; left; reflexivity).
  destruct (creates_interning s0 C0 _ _ Hinv0 (AddSymbol_creates s0 C0 "duck" STRING_TYPE Hinv0 Ht)) as (p & s & C1 & Hr & _).
  destruct (tables_well_typed [] ∅ ([] : Holder) s0 s Hinit) as [C HC].
  - apply rtc_once. exact (step_AddSymbol _ _ _ _ _ Ht Hr).
  - exists s0, p, s, C. split; [exact Hinit|]. split; [exact Hr|]. intros t i Hi. apply (HC t i Hi).
Defined.
