(* ===== verification/GarbageTheorems.v ===== *)
(** * Theorems on the garbage collector

    [utility.c]: what a garbage block and a cleaning of the current frame
    leave alive, for any rest of the system that keeps the laws. *)
From S2P Require Import Prelude Values Router Process Hash SList AtomState Atoms AtomProofs.
From S2P Require Import Garbage CollectProofs RetainProofs BlockProofs.
From S2P Require Import BlockEnd.
From S2P Require Import AtomWitness.

Section theorems.
Context {H : Type} `{!GarbageHost H, !GarbageLaws H}.
Implicit Types (s : AtomEnv H) (C : TableId → Z → list ptr) (L : ptr → list ptr).
Notation gc_inv := (gc_inv owned owned_busy).

(** The end of a block that returns a value, or none. *)
Definition end_with (theBlock : GCBlock) (rv : option object) : P (AtomEnv H) unit :=
  match rv with Some v => GCBlockEndUDF theBlock v | None => GCBlockEnd theBlock end.

Lemma end_with_eq theBlock rv :
  end_with theBlock rv =
  (_ ← RestorePriorGarbageFrame (newGarbageFrame theBlock) (oldGarbageFrame theBlock) rv; end_block theBlock).
Proof. by destruct rv. Qed.

(** What a body may do in a block: anything that keeps the invariant, leaves
    the frames of the block, and returns a value that is all there. *)
Record block_body s nf rv s1 C1 L1 : Prop := {
  bb_inv : gc_inv s1 C1 L1;
  bb_current : CurrentGarbageFrame s1 = nf;
  bb_new : is_Some (frames s1 !! nf);
  bb_old : is_Some (frames s1 !! CurrentGarbageFrame s);
  bb_live : live_value s1 (value_of rv);
  bb_countable : countable s1 (value_of rv);
}.

(** C10: A garbage block around any code that keeps the invariant returns: the
    block's frame is gone and the frame before is current, the invariant holds,
    and the returned value and every value that somebody holds are unchanged,
    fields, contents and counts. *)
Theorem garbage_block_safe s C L (body : P (AtomEnv H) (option object)) rv s1 C1 L1 :
  gc_inv s C L → let nf := fresh_ptr (frames s) in
  body (opened nf s) = Returned rv s1 → block_body s nf rv s1 C1 L1 →
  ∃ s' C' L', (theBlock ← GCBlockStart; rv ← body; end_with theBlock rv) s = Returned tt s' ∧ gc_inv s' C' L' ∧
    CurrentGarbageFrame s' = CurrentGarbageFrame s ∧ frames s' !! nf = None ∧
    ∀ w, safe s1 (value_of rv) w → same_value zero_step zero_step s1 s' w.
Proof.
  intros Hinv nf Hbody [Hinv1 Hcur1 [x Hx] Hold Hl Hc].
  destruct (GCBlockStart_spec owned owned_busy s C L Hinv) as (Hstart & _ & Hne). fold nf in Hstart, Hne.
  destruct (RestorePriorGarbageFrame_spec s1 C1 L1 nf (CurrentGarbageFrame s) rv x Hinv1 Hcur1 Hne Hx Hold Hl Hc)
    as (s2 & C2 & L2 & Hr2 & (Hinv2 & Ha2 & _) & Hsafe & Hcur2).
  exists (ended nf s2), C2, L2. split; [|split; [exact Hinv2|split; [exact Hcur2|split]]].
  - prun Hstart. prun Hbody. rewrite end_with_eq. by prun Hr2.
  - apply lookup_delete_eq.
  - intros w Hw. destruct (Hsafe w Hw) as [V1 V2 V3 V4]. by split.
Qed.

(** [CleanCurrentGarbageFrame] keeps the value it is given and every value
    that somebody holds, whatever it frees, and the invariant. *)
Theorem CleanCurrentGarbageFrame_keeps s C L returnValue :
  gc_inv s C L → live_value s (value_of returnValue) → countable s (value_of returnValue) →
  ∃ s' C' L', CleanCurrentGarbageFrame returnValue s = Returned tt s' ∧ gc_inv s' C' L' ∧
    CurrentGarbageFrame s' = CurrentGarbageFrame s ∧
    ∀ w, safe s (value_of returnValue) w → same_value zero_step zero_step s s' w.
Proof.
  intros Hinv Hl Hc. destruct (CleanCurrentGarbageFrame_spec s C L returnValue Hinv Hl Hc) as (s' & C' & L' & Hr & Hinv' & Hs & Hcur).
  exists s', C', L'. done.
Qed.
End theorems.

(** ** Instances *)

Definition first_env : AtomEnv Holder := initial_env [] ∅ [].

(** A body that returns a multifield of a new symbol and a new float. *)
Definition make_multifield : P (AtomEnv Holder) (option object) :=
  p ← CreateSymbol (Some "duck");
  q ← CreateFloat 4607182418800017408;
  m ← CreateMultifield [ONode p; ONode q];
  mret (Some (OMultifield (Some m))).

Definition inside : AtomEnv Holder := opened (fresh_ptr (frames first_env)) first_env.
Definition made : option object * AtomEnv Holder :=
  match make_multifield inside with Returned rv s => (rv, s) | _ => (None, inside) end.

Lemma make_multifield_eq : make_multifield inside = Returned made.1 made.2.
Proof. vm_compute. reflexivity. Qed.

Lemma made_inv : ∃ C L, gc_inv (owned (H := Holder)) owned_busy made.2 C L.
Proof.
  pose proof (initial_gc_inv [] ∅) as Hinv. fold first_env in Hinv.
  destruct (GCBlockStart_spec held_count no_busy first_env _ _ Hinv) as (_ & Hinv0 & _). fold inside in Hinv0.
  pose proof make_multifield_eq as Hr. unfold make_multifield in Hr.
  pose proof (gi_atoms _ _ _ _ _ Hinv0) as Ha0.
  destruct (creates_gc_inv held_count no_busy inside _ _ _ _ (AddSymbol_creates inside _ "duck" SYMBOL_TYPE Ha0 (or_introl eq_refl)) Hinv0)
    as (p & t1 & C1 & Hr1 & Hinv1 & _).
  pose proof (gi_atoms _ _ _ _ _ Hinv1) as Ha1.
  assert (Hw : is_word 4607182418800017408) by (unfold is_word; lia).
  destruct (creates_gc_inv held_count no_busy t1 _ _ _ _ (CreateFloat_creates t1 C1 _ Ha1 Hw) Hinv1)
    as (q & t2 & C2 & Hr2 & Hinv2 & _).
  destruct (CreateMultifield_spec held_count no_busy t2 C2 _ [ONode p; ONode q] Hinv2) as (t3 & L3 & Hr3 & Hinv3 & _).
  revert Hr. unfold CreateSymbol. prun Hr1. prun Hr2. prun Hr3. unfold mret, P_ret. generalize made. intros [rv s1] E.
  injection E as <- <-. eauto.
Qed.

(** The value is a multifield of two live nodes without references. *)
Lemma made_value : live_value made.2 (value_of made.1) ∧ countable made.2 (value_of made.1).
Proof.
  assert (Hrv : value_of made.1 = OMultifield (Some 2%positive)) by (vm_compute; reflexivity).
  assert (Hf : fields_of made.2 (value_of made.1) = [ONode 2%positive; ONode 3%positive]) by (vm_compute; reflexivity).
  assert (Hc : ∀ p, p = 2%positive ∨ p = 3%positive → ∃ n, nodes made.2 !! p = Some n ∧ is_bitmap (contents n) = false ∧ count n = 0%Z).
  { intros p [->| ->]; eexists; (split; [vm_compute; reflexivity|]); split; reflexivity. }
  split; split.
  - rewrite Hf. apply Forall_cons. split; [|apply Forall_singleton].
    + destruct (Hc 2%positive (or_introl eq_refl)) as (n & Hn & Hb & _). exists n. exact (conj Hn Hb).
    + destruct (Hc 3%positive (or_intror eq_refl)) as (n & Hn & Hb & _). exists n. exact (conj Hn Hb).
  - rewrite Hrv. vm_compute. eauto.
  - unfold value_nodes. rewrite Hf. simpl. intros p Hp.
    assert (Hp' : p = 2%positive ∨ p = 3%positive).
    { apply elem_of_cons in Hp as [->|Hp%list_elem_of_singleton]; [by left|by right]. }
    destruct (Hc p Hp') as (n & Hn & _ & H0). unfold count_at. rewrite Hn, H0. unfold LLONG_MAX.
    repeat case_decide; lia.
  - intros m. rewrite Hrv. intros [= <-].
    assert (Hb : busy_at made.2 2%positive = 0%Z) by (vm_compute; reflexivity). rewrite Hb. lia.
Qed.

Lemma garbage_block_safe_witness :
  ∃ s' C' L', (theBlock ← GCBlockStart; rv ← make_multifield; end_with theBlock rv) first_env = Returned tt s' ∧
    gc_inv held_count no_busy s' C' L' ∧ CurrentGarbageFrame s' = MasterGarbageFrame ∧
    same_value zero_step zero_step made.2 s' (value_of made.1).
Proof.
  destruct made_inv as (C1 & L1 & Hinv1). destruct made_value as [Hl Hc].
  assert (Hinv : gc_inv (owned (H := Holder)) owned_busy first_env no_nodes no_multifields) by exact (initial_gc_inv [] ∅).
  destruct (garbage_block_safe first_env no_nodes no_multifields make_multifield made.1 made.2 C1 L1
    Hinv make_multifield_eq) as (s' & C' & L' & Hr & Hinv' & Hcur & _ & Hs).
  - split; [exact Hinv1|vm_compute; reflexivity|vm_compute; eauto|vm_compute; eauto|exact Hl|exact Hc].
  - exists s', C', L'. split; [exact Hr|]. split; [exact Hinv'|]. split; [exact Hcur|]. apply Hs. left. reflexivity.
Defined.

Lemma CleanCurrentGarbageFrame_keeps_witness :
  ∃ s' C' L', CleanCurrentGarbageFrame made.1 made.2 = Returned tt s' ∧ gc_inv held_count no_busy s' C' L' ∧
    same_value zero_step zero_step made.2 s' (value_of made.1).
Proof.
  destruct made_inv as (C1 & L1 & Hinv1). destruct made_value as [Hl Hc].
  destruct (CleanCurrentGarbageFrame_keeps made.2 C1 L1 made.1 Hinv1 Hl Hc) as (s' & C' & L' & Hr & Hinv' & _ & Hs).
  exists s', C', L'. split; [exact Hr|]. split; [exact Hinv'|]. apply Hs. left. reflexivity.
Defined.

(** Without the value the collection at the end of the block frees the symbol. *)
Example unreturned_symbol_is_freed :
  match (theBlock ← GCBlockStart; _ ← make_multifield; end_with theBlock None) first_env with
  | Returned _ s => nodes s = ∅ ∧ multifields s = ∅
  | _ => False
  end.
Proof. vm_compute. done. Qed.
