(* ===== verification/TextProofs.v ===== *)
(** * Growing strings hold what was added to them

    A buffer built by [ExpandStringWithChar], [AppendToString] and
    [AppendNToString] always holds a list of bytes with the final [NUL] inside
    its allocation, so that none of them ever leaves it; the UTF-8 functions
    agree with splitting a string into characters and never read past its end. *)
From S2P Require Import Prelude Values Hash TextBuffer.
#[local] Open Scope nat_scope.

(** ** Characters *)

Lemma code_of_bounds c : (0 <= code_of c < 256)%Z.
Proof. unfold code_of. pose proof (Ascii.N_ascii_bounded c). lia. Qed.
Lemma char_of_code c : char_of (code_of c) = c.
Proof.
  unfold char_of. rewrite Z.mod_small by apply code_of_bounds. unfold code_of.
  by rewrite N2Z.id, Ascii.ascii_N_embedding.
Qed.
Lemma code_of_char z : code_of (char_of z) = (z mod 256)%Z.
Proof.
  unfold code_of, char_of. pose proof (Z.mod_pos_bound z 256).
  rewrite Ascii.N_ascii_embedding by lia. lia.
Qed.
Lemma char_of_value c : char_of (char_value c) = c.
Proof.
  transitivity (char_of (code_of c)); [|apply char_of_code].
  unfold char_value. fold (code_of c). destruct (_ <? 128)%Z; [done|].
  unfold char_of. replace ((code_of c - 256) mod 256)%Z with (code_of c mod 256)%Z; [done|].
  rewrite <- (Z_mod_plus_full (code_of c - 256) 1 256). f_equal. lia.
Qed.

(** ** What a buffer holds *)

Definition holds (b : Buffer) (l : list byte) : Prop :=
  position b = length l ∧
  match bytes b with
  | None => l = [] ∧ maximum b = 0
  | Some cells => length cells = maximum b ∧ ∃ rest, cells = (Some <$> l) ++ Some NUL :: rest
  end.

(** The same before the [NUL] is written, with room for [n] bytes. *)
Definition has_room (b : Buffer) (l : list byte) (n : nat) : Prop :=
  position b = length l ∧
  ∃ rest, bytes b = Some ((Some <$> l) ++ rest) ∧ length l + length rest = maximum b ∧ n <= length rest.

Lemma holds_empty : holds empty_buffer [].
Proof. done. Qed.
Lemma holds_room b l n : holds b l → bytes b ≠ None → length l + n <= maximum b → has_room b l n.
Proof.
  intros [Hp Hb] Hn Hm. destruct (bytes b) as [cells|] eqn:E; [|done].
  destruct Hb as [Hl [rest ->]]. split; [done|]. eexists. split; [done|].
  rewrite length_app, length_fmap in Hl. split; [done|]. lia.
Qed.
Lemma holds_fits b l : holds b l → length l + 1 <= maximum b ∨ l = [] ∧ bytes b = None.
Proof.
  intros [Hp Hb]. destruct (bytes b) as [cells|] eqn:E; [|naive_solver].
  destruct Hb as [Hl [rest ->]]. rewrite length_app, length_fmap in Hl. simpl in Hl. left. lia.
Qed.

Lemma write_bytes_at (l l' : list byte) rest : length l' <= length rest →
  write_bytes (Some ((Some <$> l) ++ rest)) (length l) l' =
  Some (Some ((Some <$> (l ++ l')) ++ drop (length l') rest)).
Proof.
  revert l rest. induction l' as [|c l' IH]; intros l rest Hle; cbn [write_bytes length drop].
  { by rewrite app_nil_r. }
  destruct rest as [|r rest]; [cbn in Hle; lia|]. cbn [length] in Hle.
  unfold write_byte at 1. cbn [mbind option_bind].
  rewrite (proj2 (Nat.ltb_lt _ _)) by (rewrite length_app, length_fmap; cbn [length]; lia).
  cbn [mbind option_bind].
  rewrite insert_app_r_alt by (rewrite length_fmap; lia). rewrite length_fmap, Nat.sub_diag. cbn [insert list_insert].
  specialize (IH (l ++ [c]) rest). rewrite length_app, fmap_app in IH. cbn [length] in IH. rewrite Nat.add_1_r, <- (app_assoc (Some <$> l)) in IH.
  change ((Some <$> [c]) ++ rest) with (Some c :: rest) in IH.
  rewrite IH by lia. by rewrite <- app_assoc.
Qed.
Lemma write_byte_bytes m i c : write_byte m i c = write_bytes m i [c].
Proof. unfold write_bytes. by destruct (write_byte m i c). Qed.
Lemma write_byte_at (l : list byte) r rest c :
  write_byte (Some ((Some <$> l) ++ r :: rest)) (length l) c = Some (Some ((Some <$> (l ++ [c])) ++ rest)).
Proof. rewrite write_byte_bytes, write_bytes_at by (cbn; lia). done. Qed.

Lemma genrealloc_room b l newSize : holds b l → length l + 1 <= newSize →
  ∃ rest, genrealloc (bytes b) (maximum b) newSize = Some (Some ((Some <$> l) ++ rest)) ∧
    length l + length rest = newSize.
Proof.
  intros [Hp Hb] Hn. destruct (bytes b) as [cells|] eqn:E; cycle 1.
  { destruct Hb as [-> _]. eexists. split; [done|]. by rewrite length_replicate. }
  destruct Hb as [Hl [rest ->]]. unfold genrealloc.
  rewrite (proj2 (Nat.leb_le _ _)) by lia.
  rewrite length_app, length_fmap in Hl. cbn [length] in Hl.
  rewrite take_app, take_ge, <- app_assoc by (rewrite length_fmap; lia).
  eexists. split; [done|]. rewrite length_app, length_take, length_replicate, length_fmap. cbn [length]. lia.
Qed.

(** ** Adding a character *)

(** The reverse of a list without its last UTF-8 character. *)
Fixpoint drop_char (r : list byte) : list byte :=
  match r with
  | [] | [_] => []
  | c :: r' => if IsUTF8MultiByteContinuation (code_of c) then drop_char r' else r'
  end.
Definition delete_char (l : list byte) : list byte := reverse (drop_char (reverse l)).

(** What [ExpandStringWithChar] makes of the characters. *)
Definition expand_char (l : list byte) (inchar : Z) : list byte :=
  if (inchar =? BACKSPACE)%Z then delete_char l else l ++ [char_of inchar].

Lemma delete_char_snoc l c : l ≠ [] → delete_char (l ++ [c]) =
  if IsUTF8MultiByteContinuation (code_of c) then delete_char l else l.
Proof.
  intros Hl. unfold delete_char. rewrite reverse_snoc. cbn [drop_char].
  destruct (reverse l) as [|x r] eqn:E.
  { by apply (f_equal reverse) in E; rewrite reverse_involutive in E. }
  destruct (IsUTF8MultiByteContinuation _); [done|]. by rewrite <- E, reverse_involutive.
Qed.

Lemma read_byte_at (l : list byte) c rest : read_byte (Some ((Some <$> (l ++ [c])) ++ rest)) (length l) = Some c.
Proof.
  unfold read_byte. cbn [mbind option_bind]. rewrite lookup_app_l by (rewrite length_fmap, length_app; cbn; lia).
  rewrite list_lookup_fmap, lookup_app_r, Nat.sub_diag by lia. done.
Qed.

Lemma drop_continuation_correct l rest : ∃ p,
  drop_continuation (Some ((Some <$> l) ++ rest)) (length l) = Some p ∧
  (if 0 <? p then p - 1 else p) = length (delete_char l) ∧ ∃ tl, l = delete_char l ++ tl.
Proof.
  revert rest. induction l as [|c l IH] using rev_ind; intros rest.
  { exists 0. split_and!; [done..|]. by exists []. }
  destruct (decide (l = [])) as [->|Hl].
  { exists 1. split_and!; [done..|]. by exists [c]. }
  rewrite (delete_char_snoc l c Hl). rewrite length_app. cbn [length]. rewrite Nat.add_1_r.
  destruct l as [|x l']; [done|]. cbn [drop_continuation length].
  rewrite (read_byte_at (x :: l') c). cbn [mbind option_bind].
  destruct (IsUTF8MultiByteContinuation (code_of c)).
  - destruct (IH (Some c :: rest)) as (p & H1 & H2 & tl & H3). exists p. split_and!.
    + rewrite <- H1. cbn [length]. by rewrite fmap_app, <- app_assoc.
    + done.
    + exists (tl ++ [c]). by rewrite app_assoc, <- H3.
  - exists (S (S (length l'))). split_and!; [done| |by exists [c]]. cbn [length Nat.ltb Nat.leb]. lia.
Qed.

Lemma room_NUL l rest m pos : 1 <= length rest → length l + length rest = m → pos = length l →
  ∃ str, write_byte (Some ((Some <$> l) ++ rest)) pos NUL = Some str ∧ holds (mkBuffer str pos m) l.
Proof.
  intros Hr Hm ->. destruct rest as [|r rest]; [cbn in Hr; lia|]. rewrite write_byte_at. eexists. split; [done|].
  split; [done|]. cbn [bytes maximum]. rewrite fmap_app, <- app_assoc. split; [|by exists rest].
  rewrite length_app, length_fmap. cbn [length app fmap list_fmap] in *. lia.
Qed.

Lemma ExpandStringWithChar_holds inchar b newSize l : holds b l → maximum b < newSize →
  ∃ b', ExpandStringWithChar inchar b newSize = Some b' ∧ holds b' (expand_char l inchar).
Proof.
  intros Hb Hm. destruct (Hb) as [Hp _]. unfold ExpandStringWithChar.
  match goal with |- context [mbind (M := option) _ ?m] => set (grown := m) end.
  assert (∃ rest max, grown = Some (Some ((Some <$> l) ++ rest), max) ∧
    length l + length rest = max ∧ 2 <= length rest) as (rest & max & -> & Hmax & Hrest).
  { subst grown. destruct (Nat.leb_spec (maximum b) (position b + 1)) as [Hg|Hg].
    - cbn zeta. set (n := if newSize <? _ then _ else _).
      assert (newSize <= n ∧ 8 <= n) as [Hn Hn'].
      { subst n. unfold sizeof_char_ptr. destruct (Nat.ltb_spec newSize 8); lia. }
      destruct (holds_fits _ _ Hb) as [Hf|[-> _]].
      + destruct (genrealloc_room b l n Hb) as (rest & -> & Hl); [lia|]. exists rest, n. split_and!; [done..|lia].
      + destruct (genrealloc_room b [] n Hb) as (rest & -> & Hl); [cbn; lia|]. exists rest, n.
        split_and!; [done..|]. cbn [length] in Hl. lia.
    - destruct (holds_room b l 2 Hb) as [_ (rest & -> & Hl & H2)]; [|lia|].
      { destruct Hb as [_ Hb]. destruct (bytes b); [done|]. intros _. lia. }
      by exists rest, (maximum b). }
  cbn [mbind option_bind]. rewrite Hp. unfold expand_char.
  destruct (inchar =? BACKSPACE)%Z; cbn [negb].
  - destruct (drop_continuation_correct l rest) as (p & -> & Hpos & tl & Hl). cbn [mbind option_bind].
    rewrite Hpos.
    assert ((Some <$> l) ++ rest = (Some <$> delete_char l) ++ (Some <$> tl) ++ rest) as ->
      by (rewrite app_assoc, <- fmap_app; by rewrite <- Hl).
    destruct (room_NUL (delete_char l) ((Some <$> tl) ++ rest) max (length (delete_char l))) as (str & -> & Hh).
    + rewrite length_app. lia.
    + apply (f_equal length) in Hl. rewrite length_app in Hl. rewrite length_app, length_fmap. lia.
    + done.
    + by eexists.
  - destruct rest as [|r rest]; [cbn in Hrest; lia|]. rewrite write_byte_at. cbn [mbind option_bind].
    destruct (room_NUL (l ++ [char_of inchar]) rest max (length l + 1)) as (str & -> & Hh).
    + cbn [length] in Hrest. lia.
    + rewrite length_app. cbn [length] in *. lia.
    + by rewrite length_app.
    + by eexists.
Qed.

(** ** Appending *)

Lemma EnlargeString_room length_ b l : holds b l →
  ∃ b', EnlargeString length_ b = Some b' ∧ has_room b' l (length_ + 1).
Proof.
  intros Hb. destruct (Hb) as [Hp _]. unfold EnlargeString.
  destruct (Nat.ltb_spec (maximum b) (length_ + position b + 1)) as [Hg|Hg].
  - cbn zeta. set (n := if _ <? sizeof_char_ptr then _ else _).
    assert (length_ + position b + 1 <= n) as Hn by (subst n; destruct (Nat.ltb_spec (length_ + position b + 1) sizeof_char_ptr); lia).
    destruct (genrealloc_room b l n Hb) as (rest & -> & Hl); [lia|]. eexists. split; [done|]. split; [done|].
    exists rest. cbn [bytes maximum]. split_and!; [done..|lia].
  - eexists. split; [done|]. apply (holds_room _ _ _ Hb); [|lia].
    destruct Hb as [_ Hb]. destruct (bytes b); [done|]. intros _. lia.
Qed.

Lemma write_string_room b l w m : has_room b l m → length w + 1 <= m → ∃ str,
  write_bytes (bytes b) (position b) (w ++ [NUL]) = Some str ∧
  holds (mkBuffer str (position b + length w) (maximum b)) (l ++ w).
Proof.
  intros (Hp & rest & Hb & Hl & Hm) Hw. rewrite Hp, Hb, write_bytes_at by (rewrite length_app; cbn; lia).
  eexists. split; [done|]. split; [cbn [position]; by rewrite length_app|]. cbn [bytes maximum].
  rewrite app_assoc, fmap_app, <- (app_assoc (Some <$> _)). split; [|by eexists].
  rewrite !length_app, !length_fmap, length_drop, !length_app. cbn [length fmap list_fmap]. lia.
Qed.

Lemma length_chars s : length (chars s) = String.length s.
Proof. induction s as [|c s IH]; [done|]. cbn. by rewrite <- IH. Qed.

Lemma AppendToString_holds appendStr b l : holds b l →
  ∃ b', AppendToString appendStr b = Some b' ∧ holds b' (l ++ chars appendStr).
Proof.
  intros Hb. unfold AppendToString. destruct (EnlargeString_room (String.length appendStr) b l Hb) as (b' & -> & Hr).
  cbn [mbind option_bind]. rewrite <- length_chars in *.
  destruct (write_string_room b' l (chars appendStr) _ Hr) as (str & -> & Hh); [done|]. by eexists.
Qed.

(** The length that [AppendNToString] is given includes the [NUL] or not. *)
Lemma AppendNToString_holds appendStr b n l : holds b l → NUL ∉ chars appendStr →
  1 <= n <= String.length appendStr + 1 →
  ∃ b', AppendNToString appendStr b n = Some b' ∧ holds b' (l ++ take n (chars appendStr)).
Proof.
  intros Hb Hnul Hn. destruct (Hb) as [Hp _]. unfold AppendNToString. destruct n as [|last]; [lia|].
  rewrite <- length_chars in Hn. set (cs := chars appendStr) in *.
  assert (∃ c, char_at cs last = Some c ∧ (if bool_decide (c = NUL) then S last else S last + 1) = length (take (S last) cs) + 1)
    as (c & -> & Hlen).
  { unfold char_at. rewrite length_take. destruct (decide (last < length cs)) as [Hlt|Hge].
    - rewrite lookup_app_l by done. destruct (lookup_lt_is_Some_2 cs last Hlt) as [c Hc]. exists c. split; [done|].
      rewrite bool_decide_false; [lia|]. intros ->. by apply Hnul, (list_elem_of_lookup_2 _ last).
    - rewrite lookup_app_r by lia. replace (last - length cs) with 0 by lia. exists NUL. split; [done|].
      rewrite bool_decide_true by done. lia. }
  cbn [mbind option_bind]. rewrite Hlen. set (w := take (S last) cs) in *.
  match goal with |- context [mbind (M := option) _ ?m] => set (grown := m) end.
  assert (∃ b', grown = Some b' ∧ has_room b' l (length w + 1)) as (b' & -> & Hr).
  { subst grown. destruct (Nat.ltb_spec (maximum b) (length w + 1 + position b)) as [Hg|Hg].
    - cbn zeta. set (k := if _ <? sizeof_char_ptr then _ else _).
      assert (position b + (length w + 1) <= k) as Hk
        by (subst k; destruct (Nat.ltb_spec (position b + (length w + 1)) sizeof_char_ptr); lia).
      destruct (genrealloc_room b l k Hb) as (rest & -> & Hl); [lia|]. eexists. split; [done|]. split; [done|].
      exists rest. cbn [bytes maximum]. split_and!; [done..|lia].
    - eexists. split; [done|]. apply (holds_room _ _ _ Hb); [|lia].
      destruct Hb as [_ Hb]. destruct (bytes b); [done|]. intros _. lia. }
  cbn [mbind option_bind]. clear Hb. destruct Hr as (Hp' & rest & Hb & Hl & Hm). rewrite Hp', Hb.
  assert (∃ rest', write_bytes (Some ((Some <$> l) ++ rest)) (length l) (padded appendStr (S last)) =
    Some (Some ((Some <$> (l ++ w)) ++ rest')) ∧ length l + length w + length rest' = maximum b' ∧ 1 <= length rest')
    as (rest' & -> & Hl' & Hr').
  { assert (padded appendStr (S last) = w ++ replicate (S last - length cs) NUL) as Hpad.
    { unfold padded. fold cs. rewrite take_app. subst w. f_equal. by rewrite take_replicate, Nat.min_l by lia. }
    rewrite Hpad, write_bytes_at by (rewrite length_app, length_replicate; subst w; rewrite length_take in *; lia).
    rewrite app_assoc, fmap_app, <- (app_assoc (Some <$> _)). eexists. split; [done|].
    rewrite length_app, length_fmap, length_drop, length_app, length_replicate. subst w. rewrite length_take in *. lia. }
  cbn [mbind option_bind]. destruct (room_NUL (l ++ w) rest' (maximum b') (length l + (length w + 1 - 1))) as (str & -> & Hh).
  { done. } { by rewrite length_app. } { rewrite length_app. lia. }
  by eexists.
Qed.

(** ** Reading the characters back *)

Fixpoint until_nul (l : list byte) : list byte :=
  match l with [] => [] | c :: l' => if bool_decide (c = NUL) then [] else c :: until_nul l' end.
Definition text (l : list byte) : string := String.string_of_list_ascii (until_nul l).

Lemma until_nul_id l : NUL ∉ l → until_nul l = l.
Proof.
  induction l as [|c l IH]; [done|]. intros Hn. cbn. rewrite bool_decide_false by set_solver.
  rewrite IH by set_solver. done.
Qed.
Lemma text_chars s : NUL ∉ chars s → text (chars s) = s.
Proof. intros H. unfold text. rewrite until_nul_id by done. apply String.string_of_list_ascii_of_string. Qed.

Lemma c_string_holds b l : holds b l → bytes b ≠ None → c_string (bytes b) = Some (text l).
Proof.
  intros [_ Hb] Hn. destruct (bytes b) as [cells|]; [|done]. destruct Hb as [_ [rest ->]]. clear Hn. unfold c_string, text.
  cbn [mbind option_bind]. induction l as [|c l IH]; [done|]. cbn [fmap list_fmap app string_from until_nul].
  destruct (bool_decide (c = NUL)); [done|]. rewrite IH. done.
Qed.
Lemma holds_allocated b l : holds b l → l ≠ [] → bytes b ≠ None.
Proof. intros [_ Hb] Hl E. rewrite E in Hb. naive_solver. Qed.
Lemma c_string_nonempty b l : holds b l → l ≠ [] → c_string (bytes b) = Some (text l).
Proof. intros Hb Hl. apply c_string_holds; [done|]. by eapply holds_allocated. Qed.

Lemma write_byte_allocates m i c m' : write_byte m i c = Some m' → m' ≠ None.
Proof. unfold write_byte. destruct m as [cells|]; [|done]. cbn [mbind option_bind]. case_match; naive_solver. Qed.
Lemma ExpandStringWithChar_allocates inchar b newSize b' :
  ExpandStringWithChar inchar b newSize = Some b' → bytes b' ≠ None.
Proof.
  unfold ExpandStringWithChar. intros H. apply bind_Some in H as ([str max] & _ & H).
  destruct (negb _).
  - apply bind_Some in H as (str1 & _ & H). apply bind_Some in H as (str2 & Hw & [= <-]). by eapply write_byte_allocates.
  - apply bind_Some in H as (pos & _ & H). apply bind_Some in H as (str2 & Hw & [= <-]). by eapply write_byte_allocates.
Qed.

(** ** Print forms *)

Definition escape (l : list byte) : list byte :=
  l ≫= fun c => if (code_of c =? quote)%Z || (code_of c =? backslash)%Z then [char_of backslash; c] else [c].
Definition plain (l : list byte) : Prop := NUL ∉ l ∧ char_of BACKSPACE ∉ l.

Lemma expand_holds inchar b l : holds b l →
  ∃ b', expand inchar b = Some b' ∧ holds b' (expand_char l inchar) ∧ bytes b' ≠ None.
Proof.
  intros Hb. destruct (ExpandStringWithChar_holds inchar b (maximum b + 80) l Hb) as (b' & H & Hb'); [lia|].
  exists b'. split_and!; [done..|]. by eapply ExpandStringWithChar_allocates.
Qed.
Lemma expand_char_value l c : c ≠ char_of BACKSPACE → expand_char l (char_value c) = l ++ [c].
Proof.
  intros Hc. unfold expand_char. rewrite char_of_value. destruct (Z.eqb_spec (char_value c) BACKSPACE) as [E|]; [|done].
  rewrite <- E, char_of_value in Hc. done.
Qed.

Lemma print_form_loop_holds str b l : holds b l → ∃ b', print_form_loop str b = Some b' ∧
  holds b' (foldl expand_char l (char_value <$> escape str)).
Proof.
  revert b l. induction str as [|c str IH]; intros b l Hb; [by exists b|]. cbn [print_form_loop escape mbind list_bind].
  destruct (_ || _).
  - destruct (expand_holds backslash b l Hb) as (b1 & -> & Hb1 & _). cbn [mbind option_bind].
    destruct (expand_holds (char_value c) b1 _ Hb1) as (b2 & -> & Hb2 & _). apply (IH b2 _ Hb2).
  - destruct (expand_holds (char_value c) b l Hb) as (b1 & -> & Hb1 & _). apply (IH b1 _ Hb1).
Qed.

Lemma string_print_form_eq str : string_print_form str =
  Some (text (foldl expand_char [] (quote :: (char_value <$> escape (chars str)) ++ [quote]))).
Proof.
  unfold string_print_form. destruct (expand_holds quote empty_buffer [] holds_empty) as (b1 & -> & Hb1 & _).
  cbn [mbind option_bind]. destruct (print_form_loop_holds (chars str) b1 _ Hb1) as (b2 & -> & Hb2). cbn [mbind option_bind].
  destruct (expand_holds quote b2 _ Hb2) as (b3 & -> & Hb3 & Ha). cbn [mbind option_bind].
  rewrite (c_string_holds b3 _ Hb3 Ha). cbn [foldl]. by rewrite foldl_app.
Qed.

Lemma foldl_expand_plain l l' : char_of BACKSPACE ∉ l' → foldl expand_char l (char_value <$> l') = l ++ l'.
Proof.
  revert l. induction l' as [|c l' IH]; intros l Hn; cbn [fmap list_fmap foldl]; [by rewrite app_nil_r|].
  rewrite expand_char_value by set_solver. rewrite IH by set_solver. by rewrite <- app_assoc.
Qed.
Lemma elem_of_escape c l : c ∈ escape l → c = char_of backslash ∨ c ∈ l.
Proof.
  unfold escape. rewrite list_elem_of_bind. intros (x & Hc & Hx). destruct (_ || _); set_solver.
Qed.
Lemma escape_plain l : plain l → plain (escape l).
Proof.
  intros [H1 H2]. split; intros H%elem_of_escape; destruct H as [H|H]; done.
Qed.

(** The string that [StringPrintForm] shows for text without control characters. *)
Definition quoted (l : list byte) : list byte := char_of quote :: escape l ++ [char_of quote].
Lemma string_print_form_plain str : plain (chars str) →
  string_print_form str = Some (String.string_of_list_ascii (quoted (chars str))).
Proof.
  intros Hs%escape_plain. rewrite string_print_form_eq. cbn [foldl]. rewrite foldl_app.
  rewrite foldl_expand_plain by apply Hs. change (foldl expand_char ?l [quote]) with (l ++ [char_of quote]).
  unfold text. rewrite until_nul_id; [done|]. destruct Hs as [Hs _].
  change (expand_char [] quote) with [char_of quote]. rewrite !not_elem_of_app. split_and!; [|done|]; set_solver.
Qed.

Lemma write_bytes_allocates l m p str : write_bytes m p l = Some str → l ≠ [] → str ≠ None.
Proof.
  revert m p. induction l as [|c l IH]; [done|]. intros m p H _. apply bind_Some in H as (m' & Hw & H).
  destruct l as [|c' l]; [injection H as <-; by eapply write_byte_allocates|by eapply IH].
Qed.
Lemma AppendToString_allocates appendStr b b' : AppendToString appendStr b = Some b' → bytes b' ≠ None.
Proof.
  unfold AppendToString. intros H. apply bind_Some in H as (b1 & _ & H). apply bind_Some in H as (str & Hw & [= <-]).
  eapply write_bytes_allocates; [done|]. by destruct (chars appendStr).
Qed.

Lemma chars_app s1 s2 : chars (s1 +:+ s2) = chars s1 ++ chars s2.
Proof. induction s1 as [|c s1 IH]; [done|]. change (c :: chars (s1 +:+ s2) = c :: chars s1 ++ chars s2). by rewrite IH. Qed.

Lemma append_strings_correct str1 str2 : append_strings str1 str2 = Some (text (chars (str1 +:+ str2))).
Proof.
  unfold append_strings. destruct (AppendToString_holds str1 empty_buffer [] holds_empty) as (b1 & -> & Hb1).
  cbn [mbind option_bind]. destruct (AppendToString_holds str2 b1 _ Hb1) as (b2 & E & Hb2). rewrite E. cbn [mbind option_bind].
  rewrite (c_string_holds b2 _ Hb2) by (by eapply AppendToString_allocates). by rewrite chars_app.
Qed.

(** ** String builders *)

Definition builds (theSB : StringBuilder) (l : list byte) : Prop :=
  holds (sb_buffer theSB) l ∧ bytes (sb_buffer theSB) ≠ None ∧ 1 <= bufferReset theSB.

Lemma CreateStringBuilder_builds theSize : ∃ theSB, CreateStringBuilder theSize = Some theSB ∧ builds theSB [].
Proof.
  unfold CreateStringBuilder. rewrite Nat.add_1_r. cbn zeta. cbn [replicate].
  change (write_byte _ 0 NUL) with (write_byte (Some ((Some <$> []) ++ None :: replicate theSize None)) (length (A := byte) []) NUL).
  rewrite write_byte_at. eexists. split; [done|]. split_and!; [|done|cbn; lia]. split; [done|].
  cbn [bytes maximum sb_buffer]. split; [|by eexists]. cbn. by rewrite length_replicate.
Qed.
Lemma SBAppend_builds theSB appendString l : builds theSB l →
  ∃ theSB', SBAppend theSB appendString = Some theSB' ∧ builds theSB' (l ++ chars appendString).
Proof.
  intros (Hb & _ & Hr). unfold SBAppend. destruct (AppendToString_holds appendString _ _ Hb) as (b & E & Hh). rewrite E.
  eexists. split; [done|]. split_and!; [done| |done]. by eapply AppendToString_allocates.
Qed.
Lemma SBAddChar_builds theSB theChar l : builds theSB l →
  ∃ theSB', SBAddChar theSB theChar = Some theSB' ∧ builds theSB' (expand_char l theChar).
Proof.
  intros (Hb & _ & Hr). unfold SBAddChar. destruct (expand_holds theChar _ _ Hb) as (b & E & Hh & Ha).
  unfold expand in E. rewrite E. by eexists.
Qed.
Lemma SBReset_builds theSB l : builds theSB l → ∃ theSB', SBReset theSB = Some theSB' ∧ builds theSB' [].
Proof.
  intros ([Hp Hb] & Ha & Hr). unfold SBReset. cbn zeta.
  set (b := if _ =? _ then _ else _).
  assert (∃ c cells, bytes b = Some (c :: cells) ∧ S (length cells) = maximum b) as (c & cells & Hcells & Hl).
  { subst b. destruct (Nat.eqb_spec (bufferReset theSB) (maximum (sb_buffer theSB))) as [E|E].
    - destruct (bytes _) as [[|c cells]|]; [|by exists c, cells; naive_solver|done].
      destruct Hb as [_ [rest Hb]]. by destruct l.
    - destruct (bufferReset theSB) as [|n]; [lia|]. exists None, (replicate n None). cbn. by rewrite length_replicate. }
  rewrite Hcells. change (c :: cells) with ((Some <$> []) ++ c :: cells). change 0 with (length (A := byte) []) at 1.
  rewrite write_byte_at. eexists. split; [done|]. split_and!; [|done|done]. split; [done|].
  cbn [bytes maximum sb_buffer]. split; [done|by eexists].
Qed.
Lemma SBCopy_builds theSB l : builds theSB l → SBCopy theSB = Some (text l).
Proof. intros (Hb & Ha & _). by apply c_string_holds. Qed.

(** ** UTF-8 *)

(** How many of the first [n] bytes continue a character. *)
Fixpoint conts (n : nat) (l : list byte) : nat :=
  match n, l with
  | S n', c :: l' => if IsUTF8Start c then 0 else S (conts n' l')
  | _, _ => 0
  end.

(** The bytes that may still belong to the current character, and the characters after it. *)
Fixpoint split_char (n : nat) (l : list byte) : list byte * list (list byte) :=
  match l with
  | [] => ([], [])
  | c :: l' =>
      let start := let '(cur, rest) := split_char 3 l' in ([], (c :: cur) :: rest) in
      match n with
      | O => start
      | S n' => if IsUTF8Start c then start else let '(cur, rest) := split_char n' l' in (c :: cur, rest)
      end
  end.
(** The characters of a string: a byte with at most three continuation bytes each. *)
Definition utf8_chars (l : list byte) : list (list byte) :=
  match l with [] => [] | c :: l' => let '(cur, rest) := split_char 3 l' in (c :: cur) :: rest end.

Lemma split_char_eq n l : split_char n l = (take (conts n l) l, utf8_chars (drop (conts n l) l)).
Proof.
  revert n. induction l as [|c l IH]; intros n; [by destruct n|]. rewrite (surjective_pairing (split_char n _)).
  destruct n as [|n]; cbn [split_char conts utf8_chars take drop]; [by destruct (split_char 3 l)|].
  destruct (IsUTF8Start c); [cbn [utf8_chars take drop]; by destruct (split_char 3 l)|]. by rewrite IH.
Qed.
Lemma utf8_chars_cons c l : utf8_chars (c :: l) = (c :: take (conts 3 l) l) :: utf8_chars (drop (conts 3 l) l).
Proof. cbn [utf8_chars]. by rewrite split_char_eq. Qed.
Lemma conts_le n l : conts n l <= length l.
Proof. revert n. induction l as [|c l IH]; intros [|n]; cbn; try lia. destruct (IsUTF8Start c); [lia|]. specialize (IH n). lia. Qed.

Lemma concat_utf8_chars l : concat (utf8_chars l) = l.
Proof.
  remember (length l) as n eqn:Hn. revert l Hn. induction n as [n IH] using lt_wf_ind. intros [|c l] Hn; [done|].
  rewrite utf8_chars_cons. cbn [concat]. rewrite (IH (length (drop (conts 3 l) l))); [|rewrite length_drop; cbn in Hn; lia|done].
  cbn. by rewrite take_drop.
Qed.

Lemma char_at_app pre l k : char_at (pre ++ l) (length pre + k) = char_at l k.
Proof. unfold char_at. rewrite <- app_assoc, lookup_app_r by lia. f_equal. lia. Qed.
Lemma char_at_start pre c l : char_at (pre ++ c :: l) (length pre) = Some c.
Proof. rewrite <- (Nat.add_0_r (length pre)) at 1. by rewrite char_at_app. Qed.
Lemma char_at_end pre : char_at pre (length pre) = Some NUL.
Proof. unfold char_at. by rewrite lookup_app_r, Nat.sub_diag by lia. Qed.

Lemma UTF8Increment_correct pre c l :
  UTF8Increment (pre ++ c :: l) (length pre) = Some (length pre + 1 + conts 3 l).
Proof.
  unfold UTF8Increment. rewrite !char_at_app.
  assert (IsUTF8Start NUL = true) as Hnul by reflexivity.
  destruct l as [|c1 l]; cbn [char_at app lookup list_lookup mbind option_bind conts].
  { rewrite Hnul. f_equal. lia. }
  destruct (IsUTF8Start c1); [f_equal; lia|].
  destruct l as [|c2 l]; cbn [char_at app lookup list_lookup mbind option_bind conts].
  { rewrite Hnul. f_equal. lia. }
  destruct (IsUTF8Start c2); [f_equal; lia|].
  destruct l as [|c3 l]; cbn [char_at app lookup list_lookup mbind option_bind conts].
  { rewrite Hnul. f_equal. lia. }
  destruct (IsUTF8Start c3); f_equal; lia.
Qed.
(** One character on. *)
Lemma UTF8Increment_next pre c l : ∃ pre' l', pre ++ c :: l = pre' ++ l' ∧ length l' <= length l ∧
  UTF8Increment (pre ++ c :: l) (length pre) = Some (length pre') ∧ length pre' = length pre + 1 + conts 3 l ∧
  utf8_chars (c :: l) = (c :: take (conts 3 l) l) :: utf8_chars l' ∧ (∀ x, x ∈ l' → x ∈ l).
Proof.
  exists (pre ++ c :: take (conts 3 l) l), (drop (conts 3 l) l).
  pose proof (conts_le 3 l). rewrite UTF8Increment_correct, utf8_chars_cons, <- app_assoc. cbn [app].
  rewrite take_drop, length_drop, length_app. cbn [length]. rewrite length_take, Nat.min_l by done.
  split_and!; try done; [lia|f_equal; lia|lia|].
  intros x Hx. rewrite <- (take_drop (conts 3 l) l). apply elem_of_app. by right.
Qed.

Lemma utf8_length_loop_correct fuel pre l len : length l < fuel → NUL ∉ l →
  utf8_length_loop fuel (pre ++ l) (length pre) len = Some (len + length (utf8_chars l)).
Proof.
  revert pre l len. induction fuel as [|fuel IH]; intros pre l len Hf Hn; [lia|]. cbn [utf8_length_loop].
  destruct l as [|c l].
  { rewrite app_nil_r, char_at_end. cbn. by rewrite Nat.add_0_r. }
  rewrite char_at_start. cbn [mbind option_bind]. rewrite bool_decide_false by set_solver.
  destruct (UTF8Increment_next pre c l) as (pre' & l' & Hs & Hl & -> & _ & Hc & Hsub).
  cbn [mbind option_bind]. rewrite Hs, IH; [|cbn in Hf; lia|set_solver]. rewrite Hc. cbn [length]. f_equal. lia.
Qed.

Lemma utf8_offset_loop_correct n pre l : NUL ∉ l →
  utf8_offset_loop n (pre ++ l) (length pre) = Some (length pre + length (concat (take n (utf8_chars l)))).
Proof.
  revert pre l. induction n as [|n IH]; intros pre l Hn; cbn [utf8_offset_loop take].
  { rewrite take_0. cbn. f_equal. lia. }
  destruct l as [|c l].
  { rewrite app_nil_r, char_at_end. cbn. f_equal. lia. }
  rewrite char_at_start. cbn [mbind option_bind]. rewrite bool_decide_false by set_solver.
  destruct (UTF8Increment_next pre c l) as (pre' & l' & Hs & Hl & -> & Hp & Hc & Hsub).
  cbn [mbind option_bind]. rewrite Hs, IH by set_solver. rewrite Hc. cbn [take concat]. rewrite Hp.
  rewrite length_app. cbn [length]. rewrite length_take. pose proof (conts_le 3 l). f_equal. lia.
Qed.

Lemma utf8_charnum_loop_correct fuel n pre l cn : length l < fuel → NUL ∉ l →
  utf8_charnum_loop fuel (pre ++ l) (length pre + length (concat (take n (utf8_chars l)))) cn (length pre) =
  Some (cn + Nat.min n (length (utf8_chars l))).
Proof.
  revert n pre l cn. induction fuel as [|fuel IH]; intros n pre l cn Hf Hn; [lia|]. cbn [utf8_charnum_loop].
  destruct n as [|n].
  { rewrite take_0. cbn [concat length]. rewrite (proj2 (Nat.ltb_ge _ _)) by lia. f_equal. cbn. lia. }
  destruct l as [|c l].
  { rewrite (proj2 (Nat.ltb_ge _ _)) by (cbn; lia). f_equal. cbn. lia. }
  rewrite char_at_start. cbn [mbind option_bind]. rewrite bool_decide_false by set_solver.
  destruct (UTF8Increment_next pre c l) as (pre' & l' & Hs & Hl & -> & Hp & Hc & Hsub).
  cbn [mbind option_bind]. rewrite Hc. cbn [take concat length]. rewrite length_app. cbn [length]. rewrite length_take.
  pose proof (conts_le 3 l).
  rewrite (proj2 (Nat.ltb_lt _ _)) by lia. rewrite Hs.
  replace (length pre + (S (Nat.min (conts 3 l) (length l)) + length (concat (take n (utf8_chars l')))))
    with (length pre' + length (concat (take n (utf8_chars l')))) by lia.
  rewrite IH; [|cbn in Hf; lia|set_solver]. f_equal. lia.
Qed.
