(* ===== verification/StringTheorems.v ===== *)
(** * Theorems on the string functions

    The memory the functions of [strngfun.c] write, their searches as
    occurrences, characters of UTF-8 text; then the properties of the functions
    as the evaluator calls them, with runs in the environment of [EvalTheorems]. *)
From S2P Require Import Prelude Values Router Keeps Expr Functions Args Multifield Math Hash TextBuffer.
From S2P Require Import NumberText TextProofs.
From S2P Require Import MultifieldFunctions StringFunctions Evaluate EvalLaws EvalLemmas EvalTheorems.
From S2P Require Import MultifieldProofs.
#[local] Open Scope Z_scope.

(** ** Memory *)

(** The characters [l], and what has been or has not been written after them. *)
Definition filled (l : list byte) (rest : list (option byte)) : memory := Some ((Some <$> l) ++ rest).
Definition of_chars (l : list byte) : string := String.string_of_list_ascii l.

Lemma chars_of_chars l : chars (of_chars l) = l.
Proof. apply String.list_ascii_of_string_of_list_ascii. Qed.
Lemma of_chars_chars x : of_chars (chars x) = x.
Proof. apply String.string_of_list_ascii_of_string. Qed.

Lemma c_string_filled l rest : NUL ∉ l → c_string (filled l (Some NUL :: rest)) = Some (of_chars l).
Proof.
  intros Hl. unfold c_string, filled, of_chars. cbn [mbind option_bind].
  induction l as [|c l IH]; [done|]. cbn [fmap list_fmap app string_from].
  rewrite bool_decide_eq_false_2 by set_solver. by rewrite IH by set_solver.
Qed.
Lemma gm2_eq n z : z = Z.of_nat n → gm2 z = Some (filled [] (replicate n None)).
Proof. intros ->. unfold gm2. rewrite (proj2 (Z.ltb_ge _ _)) by lia. by rewrite Nat2Z.id. Qed.
Lemma write_filled l l' rest : (length l' <= length rest)%nat →
  write_bytes (filled l rest) (length l) l' = Some (filled (l ++ l') (drop (length l') rest)).
Proof. apply write_bytes_at. Qed.
(** [strcpy]: the terminating zero is written too, and is the next to be overwritten. *)
Lemma write_string_filled l l' rest : (length l' < length rest)%nat → ∃ rest',
  write_bytes (filled l rest) (length l) (l' ++ [NUL]) = Some (filled (l ++ l') (Some NUL :: rest')) ∧
  (length rest' = length rest - length l' - 1)%nat.
Proof.
  intros Hlen. exists (drop (length l' + 1) rest). split.
  - rewrite write_filled by (rewrite length_app; simpl; lia). rewrite length_app. f_equal. unfold filled.
    by rewrite !fmap_app, <- !app_assoc.
  - rewrite length_drop. lia.
Qed.

(** ** [str-cat], [sym-cat] *)

Lemma copy_strings_filled l xs rest : xs ≠ [] →
  (length (concat (chars <$> xs)) < length rest)%nat → ∃ rest',
  copy_strings (filled l rest) (length l) xs = Some (filled (l ++ concat (chars <$> xs)) (Some NUL :: rest')).
Proof.
  intros Hxs. revert l rest. induction xs as [|x xs IH]; intros l rest Hlen; [done|]. clear Hxs.
  cbn [fmap list_fmap concat] in Hlen |- *. rewrite length_app in Hlen. cbn [copy_strings].
  destruct (write_string_filled l (chars x) rest ltac:(lia)) as (rest' & -> & Hr). cbn [mbind option_bind].
  rewrite <- length_chars, <- length_app. destruct xs as [|y xs].
  - cbn [copy_strings fmap list_fmap concat]. rewrite app_nil_r. by exists rest'.
  - destruct (IH ltac:(done) (l ++ chars x) (Some NUL :: rest')) as (rest'' & H); [simpl in *; lia|].
    exists rest''. by rewrite app_assoc.
Qed.
Lemma total_length_eq xs : total_length xs = 1 + zlength (concat (chars <$> xs)).
Proof.
  unfold total_length. assert (H : ∀ n, foldl (fun n x => n + Z.of_nat (String.length x)) n xs = n + zlength (concat (chars <$> xs))).
  { induction xs as [|x xs IH]; intros n; cbn; [unfold zlength; simpl; lia|].
    rewrite IH, zlength_app. unfold zlength. rewrite length_chars. lia. }
  by rewrite H.
Qed.
Lemma concatenated_eq xs : xs ≠ [] → Forall (fun x => NUL ∉ chars x) xs →
  concatenated xs = Some (of_chars (concat (chars <$> xs))).
Proof.
  intros Hxs Hn. unfold concatenated.
  rewrite (gm2_eq (S (length (concat (chars <$> xs))))) by (rewrite total_length_eq; unfold zlength; lia).
  cbn [mbind option_bind].
  destruct (copy_strings_filled [] xs (replicate (S (length (concat (chars <$> xs)))) None) Hxs) as (rest & H).
  { rewrite length_replicate. lia. }
  cbn [length] in H. rewrite H. cbn [mbind option_bind app]. apply c_string_filled.
  clear -Hn. induction Hn as [|x xs Hx _ IH]; cbn; set_solver.
Qed.

(** ** Searching *)

Lemma is_prefix_true needle s : is_prefix needle s = true ↔ ∃ post, s = needle ++ post.
Proof.
  revert s. induction needle as [|c needle IH]; intros s; cbn [is_prefix].
  { split; [by exists s|done]. }
  destruct s as [|d s]; [split; [done|by intros [post [=]]]|].
  rewrite andb_true_iff, IH, Ascii.eqb_eq. split.
  - intros [-> [post ->]]. by exists post.
  - intros [post [= -> ->]]. eauto.
Qed.
(** No occurrence starts before the end of [pre]. *)
Definition first_in (needle pre post : list byte) : Prop :=
  ∀ a b, pre ++ needle ++ post = a ++ needle ++ b → (length pre <= length a)%nat.
Definition not_in (needle s : list byte) : Prop := ∀ a b, s ≠ a ++ needle ++ b.

Lemma strstr_correct s needle : match strstr s needle with
  | Some k => ∃ pre post, s = pre ++ needle ++ post ∧ length pre = k ∧ first_in needle pre post
  | None => not_in needle s
  end.
Proof.
  induction s as [|c s IH]; cbn [strstr]; destruct (is_prefix needle _) eqn:E.
  - apply is_prefix_true in E as [post ->]. exists [], post. split_and!; [done|done|]. intros a b _. simpl. lia.
  - intros a b Hs. apply (f_equal (is_prefix needle)) in Hs as Hp. symmetry in Hs. apply app_eq_nil in Hs as [-> Hs].
    cbn [app] in Hp. rewrite E in Hp. symmetry in Hp. apply not_true_iff_false in Hp. apply Hp. apply is_prefix_true. by exists b.
  - apply is_prefix_true in E as [post Hp]. rewrite Hp. exists [], post. split_and!; [done|done|]. intros a b _. simpl. lia.
  - assert (Hno : ∀ b, c :: s ≠ needle ++ b).
    { intros b Hb. apply not_true_iff_false in E. apply E, is_prefix_true. by exists b. }
    destruct (strstr s needle) as [k|]; cbn [fmap option_fmap option_map].
    + destruct IH as (pre & post & -> & <- & Hf). exists (c :: pre), post. split_and!; [done|done|].
      intros [|d a] b Hab; [by destruct (Hno b)|]. injection Hab as _ Hab. apply Hf in Hab. simpl. lia.
    + intros [|d a] b Hab; [by destruct (Hno b)|]. injection Hab as _ Hab. by destruct (IH a b).
Qed.

(** ** [str-replace] *)

(** [r] is [s] with the occurrences of [find], taken from the left, replaced. *)
Inductive replaced (find rep : list byte) : list byte → list byte → Prop :=
  | replaced_none s : not_in find s → replaced find rep s s
  | replaced_first pre s r : first_in find pre s → replaced find rep s r →
      replaced find rep (pre ++ find ++ s) (pre ++ rep ++ r).

Section replace.
Context (find rep : list byte).
Hypothesis Hfind : find ≠ [].

(** One turn of the loops. *)
Lemma strstr_turn s : match strstr s find with
  | Some k => ∃ pre post, s = pre ++ find ++ post ∧ k = length pre ∧ drop (k + length find) s = post ∧ take k s = pre ∧
      first_in find pre post ∧ (length post < length s)%nat
  | None => not_in find s
  end.
Proof.
  pose proof (strstr_correct s find) as H. destruct (strstr s find) as [k|]; [|done].
  destruct H as (pre & post & -> & <- & Hf). exists pre, post. split_and!; try done.
  - by rewrite app_assoc, <- length_app, drop_app_length.
  - by rewrite take_app_length.
  - rewrite !length_app. destruct find; [done|simpl; lia].
Qed.

Lemma replaced_exists s : ∃ r, replaced find rep s r.
Proof.
  remember (length s) as n eqn:Hn. revert s Hn. induction n as [n IH] using lt_wf_ind. intros s ->.
  pose proof (strstr_turn s) as H. destruct (strstr s find) as [k|]; [|exists s; by constructor].
  destruct H as (pre & post & -> & _ & _ & _ & Hf & Hlt). destruct (IH _ Hlt post eq_refl) as [r Hr].
  exists (pre ++ rep ++ r). by constructor.
Qed.

Lemma not_in_strstr s : not_in find s → strstr s find = None.
Proof.
  intros Hs. pose proof (strstr_turn s) as H. destruct (strstr s find); [|done].
  destruct H as (pre & post & -> & _). by destruct (Hs pre post).
Qed.
Lemma first_in_strstr pre s : first_in find pre s → strstr (pre ++ find ++ s) find = Some (length pre) ∧
  take (length pre) (pre ++ find ++ s) = pre ∧ drop (length pre + length find) (pre ++ find ++ s) = s ∧
  (length s < length (pre ++ find ++ s))%nat.
Proof.
  intros Hf. pose proof (strstr_turn (pre ++ find ++ s)) as H. split_and!.
  - destruct (strstr _ find) as [k|].
    + destruct H as (pre' & post' & E & -> & _ & _ & Hf' & _). f_equal. apply Nat.le_antisymm; [|by eapply Hf].
      symmetry in E. by eapply Hf'.
    + by destruct (H pre s).
  - apply take_app_length.
  - by rewrite app_assoc, <- length_app, drop_app_length.
  - rewrite !length_app. destruct find; [done|simpl; lia].
Qed.

Definition modulus : Z := SIZE_MAX + 1.
(** The first loop computes the new size modulo the size of a [size_t]. *)
Lemma count_replaced_eq fuel s r n : replaced find rep s r → (length s <= fuel)%nat → 0 <= n < modulus →
  ∃ x, count_replaced fuel find (zlength rep) n s = Some x ∧ 0 <= x < modulus ∧
    x mod modulus = (n + zlength r - zlength s) mod modulus.
Proof.
  intros Hr. revert fuel n. induction Hr as [s Hs|pre s r Hf Hr IH]; intros fuel n Hfuel Hn.
  - exists n. split; [by destruct fuel; cbn [count_replaced]; rewrite not_in_strstr|]. split; [done|]. f_equal. lia.
  - destruct (first_in_strstr pre s Hf) as (Hk & _ & Hd & Hlt).
    destruct fuel as [|fuel]; [rewrite !length_app in *; destruct find; [done|simpl in *; lia]|].
    cbn [count_replaced]. rewrite Hk, Hd. unfold size_t_of. fold modulus.
    destruct (IH fuel ((n + (zlength rep - Z.of_nat (length find)) mod modulus) mod modulus)) as (x & Hx & Hb & Hmod).
    + lia.
    + apply Z.mod_pos_bound. unfold modulus, SIZE_MAX. lia.
    + exists x. split; [done|]. split; [done|]. rewrite Hmod, !zlength_app.
      rewrite <- Z.add_sub_assoc, Zplus_mod_idemp_l, Z.add_shuffle0, Zplus_mod_idemp_r. f_equal. unfold zlength. lia.
Qed.

(** The second loop fills [length r + 1] bytes. *)
Lemma copy_replaced_eq fuel s r l rest : replaced find rep s r → (length s <= fuel)%nat → (length r < length rest)%nat →
  ∃ rest', copy_replaced fuel find rep (filled l rest) (length l) s = Some (filled (l ++ r) (Some NUL :: rest')).
Proof.
  intros Hr. revert fuel l rest. induction Hr as [s Hs|pre s r Hf Hr IH]; intros fuel l rest Hfuel Hrest.
  - destruct (write_string_filled l s rest Hrest) as (rest' & H & _). exists rest'.
    by destruct fuel; cbn [copy_replaced]; rewrite not_in_strstr.
  - destruct (first_in_strstr pre s Hf) as (Hk & Ht & Hd & Hlt). rewrite !length_app in Hrest.
    destruct fuel as [|fuel]; [lia|]. cbn [copy_replaced]. rewrite Hk, Ht, Hd.
    rewrite write_filled by lia. cbn [mbind option_bind]. rewrite <- length_app.
    destruct (write_string_filled (l ++ pre) rep (drop (length pre) rest)) as (rest1 & -> & H1); [rewrite length_drop; lia|].
    rewrite length_drop in H1. cbn [mbind option_bind]. rewrite <- length_app.
    destruct (IH fuel ((l ++ pre) ++ rep) (Some NUL :: rest1)) as (rest' & H); [lia|simpl; lia|].
    exists rest'. by rewrite H, <- !app_assoc.
Qed.
Lemma replaced_same_length s r : length find = length rep → replaced find rep s r → length r = length s.
Proof. intros Hl. induction 1; [done|]. rewrite !length_app in *. lia. Qed.
Lemma replaced_NUL s r : NUL ∉ s → NUL ∉ rep → replaced find rep s r → NUL ∉ r.
Proof. intros Hs Hrep. induction 1; [done|]. rewrite !elem_of_app in *. tauto. Qed.
End replace.

Lemma str_replace_eq init find rep r : find ≠ "" → replaced (chars find) (chars rep) (chars init) r →
  NUL ∉ chars init → NUL ∉ chars rep → zlength (chars init) < SIZE_MAX → zlength r < SIZE_MAX →
  str_replace init find rep = Some (of_chars r).
Proof.
  intros Hfind Hr Hi Hp Hil Hrl. assert (Hne : chars find ≠ []) by (destruct find; [done|discriminate]).
  assert (Hsize : (if negb (Z.of_nat (String.length find) =? Z.of_nat (String.length rep))
    then count_replaced (String.length init) (chars find) (Z.of_nat (String.length rep)) (Z.of_nat (String.length init) + 1) (chars init)
    else Some (Z.of_nat (String.length init) + 1)) = Some (Z.of_nat (S (length r)))).
  { rewrite <- !length_chars. fold (zlength (chars init)). fold (zlength (chars rep)). destruct (Z.eqb_spec (Z.of_nat (length (chars find))) (zlength (chars rep))) as [E|E]; cbn [negb].
    - rewrite (replaced_same_length (chars find) (chars rep) (chars init) r) by (done || (unfold zlength in E; lia)). f_equal. unfold zlength. lia.
    - destruct (count_replaced_eq _ _ Hne (length (chars init)) (chars init) r (zlength (chars init) + 1) Hr ltac:(lia)) as (x & -> & Hb & Hm).
      + pose proof (zlength_nonneg (chars init)). unfold modulus. lia.
      + f_equal. rewrite Z.mod_small in Hm by done. rewrite Hm.
        replace (zlength (chars init) + 1 + zlength r - zlength (chars init)) with (zlength r + 1) by lia.
        pose proof (zlength_nonneg r). rewrite Z.mod_small by (unfold modulus; lia). unfold zlength. lia. }
  unfold str_replace. cbv zeta. rewrite Hsize. cbn [mbind option_bind]. rewrite (gm2_eq (S (length r))) by done. cbn [mbind option_bind].
  rewrite <- length_chars.
  destruct (copy_replaced_eq _ _ Hne (length (chars init)) (chars init) r [] (replicate (S (length r)) None) Hr) as (rest & H).
  - lia.
  - rewrite length_replicate. lia.
  - cbn [length] in H. rewrite H. cbn [mbind option_bind app]. apply c_string_filled. exact (replaced_NUL _ _ _ _ Hi Hp Hr).
Qed.

(** ** [sub-string] *)

Lemma read_chars_eq n pre mid post : n = length mid → read_chars n (pre ++ mid ++ post) (length pre) = Some mid.
Proof.
  intros ->. revert pre. induction mid as [|c mid IH]; intros pre; cbn [length read_chars]; [done|].
  cbn [app]. rewrite char_at_start. cbn [mbind option_bind].
  specialize (IH (pre ++ [c])). rewrite length_app, <- app_assoc in IH. cbn [length app] in IH. by rewrite IH.
Qed.
Lemma UTF8Offset_eq l n : NUL ∉ l → UTF8Offset l n = Some (length (concat (take n (utf8_chars l)))).
Proof. intros Hl. exact (utf8_offset_loop_correct n [] l Hl). Qed.
Lemma UTF8Length_eq l : NUL ∉ l → UTF8Length l = Some (length (utf8_chars l)).
Proof. intros Hl. apply (utf8_length_loop_correct (S (length l)) [] l 0); [lia|done]. Qed.
Lemma utf8_chars_nonempty l : Forall (fun c => c ≠ []) (utf8_chars l).
Proof.
  remember (length l) as n eqn:Hn. revert l Hn. induction n as [n IH] using lt_wf_ind. intros [|c l] ->; [constructor|].
  rewrite utf8_chars_cons. constructor; [done|]. eapply IH; [|done]. rewrite length_drop. simpl. lia.
Qed.

(** The characters [start..fin] of [l], counted from 0. *)
Definition characters (l : list byte) (start fin : Z) : list byte :=
  concat (take (Z.to_nat (fin - start + 1)) (drop (Z.to_nat start) (utf8_chars l))).

Lemma concat_parts {A} (ls : list (list A)) a b : (a <= b)%nat →
  concat ls = concat (take a ls) ++ concat (take (b - a) (drop a ls)) ++ concat (drop b ls) ∧
  concat (take b ls) = concat (take a ls) ++ concat (take (b - a) (drop a ls)).
Proof.
  intros Hab. rewrite <- !concat_app. split; f_equal.
  - rewrite <- (take_drop a ls) at 1. f_equal. rewrite <- (take_drop (b - a) (drop a ls)) at 1. f_equal.
    rewrite drop_drop. f_equal. lia.
  - rewrite take_take_drop. f_equal. lia.
Qed.

Lemma sub_string_eq x start fin : NUL ∉ chars x → 0 <= start → 0 <= fin →
  sub_string x start fin = Some (of_chars (characters (chars x) start fin)).
Proof.
  intros Hx Hs Hf. unfold sub_string, characters. rewrite UTF8Length_eq by done. cbn [mbind option_bind].
  set (chs := utf8_chars (chars x)). pose proof (concat_utf8_chars (chars x)) as Hchs. fold chs in Hchs.
  assert (Hoff : ∀ n, UTF8Offset (chars x) n = Some (length (concat (take n chs)))) by (intros n; by apply UTF8Offset_eq).
  pose proof (utf8_chars_nonempty (chars x)) as Hne. fold chs in Hne. clearbody chs.
  set (len := Z.of_nat (length chs)). set (fin' := if len <? fin then len else fin).
  assert (Hfin' : fin' = Z.min fin len) by (unfold fin'; destruct (Z.ltb_spec len fin); lia). clearbody fin'.
  destruct (Z.ltb_spec fin' start) as [Hlt|Hge]; cbn [orb].
  { replace (take _ _) with (@nil (list byte)); [done|]. symmetry. destruct (Z.le_gt_cases fin len).
    - by replace (Z.to_nat (fin - start + 1)) with 0%nat by lia.
    - rewrite drop_ge by lia. by rewrite take_nil. }
  destruct (Z.eqb_spec len 0) as [E|E].
  { assert (chs = []) as -> by (destruct chs; [done|unfold len in E; simpl in E; lia]). by rewrite drop_nil, take_nil. }
  rewrite !Hoff. cbn [mbind option_bind].
  assert (Hlen : len = Z.of_nat (length chs)) by done.
  set (a := Z.to_nat start). set (b := Z.to_nat (fin' + 1)).
  assert (Ha : Z.of_nat a = start) by lia. assert (Hb : Z.of_nat b = fin' + 1) by lia. clearbody len a b.
  destruct (concat_parts chs a b ltac:(lia)) as [Hall Htake].
  replace (take (Z.to_nat (fin - start + 1)) (drop a chs)) with (take (b - a) (drop a chs)).
  2: { destruct (Z.le_gt_cases fin len); [f_equal; lia|]. rewrite !take_ge; [done|rewrite length_drop; lia..]. }
  rewrite Htake. set (pre := concat (take a chs)) in *. set (mid := concat (take (b - a) (drop a chs))) in *.
  assert (Hpos : (0 < length (pre ++ mid))%nat).
  { rewrite <- Htake.
    destruct chs as [|ch chs']; [done|]. destruct b as [|b'] eqn:Eb; [lia|]. cbn [take concat].
    apply Forall_cons in Hne as [Hne _]. rewrite length_app. destruct ch; [done|simpl; lia]. }
  rewrite length_app in *. rewrite (proj2 (Z.ltb_ge _ 0)) by lia.
  rewrite (gm2_eq (S (length mid))) by lia. cbn [mbind option_bind]. rewrite <- Hchs, Hall.
  rewrite read_chars_eq by lia. cbn [mbind option_bind].
  destruct (write_string_filled [] mid (replicate (S (length mid)) None)) as (rest & H & _); [rewrite length_replicate; lia|].
  cbn [length] in H. rewrite H. cbn [mbind option_bind app]. apply c_string_filled.
  intros Hin. apply Hx. rewrite <- Hchs, Hall. set_solver.
Qed.

(** ** Valid UTF-8 *)

(** How many continuation bytes a first byte announces. *)
Definition announced (c : byte) : nat :=
  if code_of c <? 192 then 0%nat else if code_of c <? 224 then 1%nat else if code_of c <? 240 then 2%nat else 3%nat.
Definition valid_char (ch : list byte) : bool :=
  match ch with
  | [] => false
  | c :: r => IsUTF8Start c && bool_decide (length r = announced c) && forallb (fun d => negb (IsUTF8Start d)) r
  end.
Definition valid_utf8 (l : list byte) : bool := forallb valid_char (utf8_chars l).

Lemma valid_char_cons ch : valid_char ch = true ↔ ∃ c r, ch = c :: r ∧ IsUTF8Start c = true ∧ length r = announced c ∧
  Forall (fun d => IsUTF8Start d = false) r.
Proof.
  destruct ch as [|c r]; cbn [valid_char].
  - split; [done|by intros (?&?&[=]&_)].
  - rewrite !andb_true_iff, bool_decide_eq_true, forallb_forall. split.
    + intros [[H1 H2] H3]. exists c, r. split_and!; try done. apply Forall_forall. intros d Hd.
      apply list_elem_of_In, H3 in Hd. by apply negb_true_iff.
    + intros (? & ? & [= <- <-] & H1 & H2 & H3). split; [done|]. intros d Hd. rewrite Forall_forall in H3.
      apply negb_true_iff, H3. by apply list_elem_of_In.
Qed.
Lemma announced_le c : (announced c <= 3)%nat.
Proof. unfold announced. by repeat case_match; lia. Qed.

Lemma conts_exact n r l : (length r <= n)%nat → Forall (fun d => IsUTF8Start d = false) r →
  (length r = n ∨ match l with [] => True | c :: _ => IsUTF8Start c = true end) → conts n (r ++ l) = length r.
Proof.
  revert n. induction r as [|d r IH]; intros n Hn Hr Hl; cbn [app length].
  - destruct n as [|n]; [done|]. destruct l as [|c l]; [done|]. cbn [conts]. destruct Hl as [Hl|Hl]; [done|by rewrite Hl].
  - apply Forall_cons in Hr as [Hd Hr]. destruct n as [|n]; [simpl in Hn; lia|]. cbn [conts]. rewrite Hd. f_equal.
    apply IH; [simpl in Hn; lia|done|]. destruct Hl; [left; simpl in *; lia|by right].
Qed.

Definition start_or_end (l : list byte) : Prop := match l with [] => True | c :: _ => IsUTF8Start c = true end.
Lemma valid_start chs post : Forall (fun ch => valid_char ch = true) chs → start_or_end post → start_or_end (concat chs ++ post).
Proof.
  intros [|ch chs' Hch _] Hp; [done|]. apply valid_char_cons in Hch as (c & r & -> & Hc & _). done.
Qed.

(** The characters of a concatenation of valid characters. *)
Lemma utf8_chars_concat chs : Forall (fun ch => valid_char ch = true) chs → utf8_chars (concat chs) = chs.
Proof.
  induction 1 as [|ch chs Hch Hchs IH]; [done|]. apply valid_char_cons in Hch as (c & r & -> & Hc & Hr & Hall).
  cbn [concat app]. rewrite utf8_chars_cons.
  rewrite (conts_exact 3 r (concat chs)); [|rewrite Hr; apply announced_le|done|right].
  - by rewrite take_app_length, drop_app_length, IH.
  - pose proof (valid_start chs [] Hchs I) as H. by rewrite app_nil_r in H.
Qed.

(** A place before a first byte is between characters. *)
Lemma valid_split chs p q : Forall (fun ch => valid_char ch = true) chs → concat chs = p ++ q → start_or_end q →
  ∃ chs1 chs2, chs = chs1 ++ chs2 ∧ p = concat chs1 ∧ q = concat chs2.
Proof.
  intros Hchs. revert p. induction Hchs as [|ch chs Hch Hchs IH]; intros p Hpq Hq.
  { symmetry in Hpq. apply app_eq_nil in Hpq as [-> ->]. by exists [], []. }
  destruct p as [|b p]; [by exists [], (ch :: chs)|].
  apply valid_char_cons in Hch as (c & r & -> & Hc & Hr & Hall). cbn [concat app] in Hpq. injection Hpq as <- Hpq.
  apply app_eq_inv in Hpq as [(k & -> & ->)|(k & -> & Hk)].
  - destruct k as [|d k].
    + exists [c :: p], chs. rewrite app_nil_r. cbn [concat app]. by rewrite app_nil_r.
    + cbn in Hq. apply Forall_app in Hall as [_ Hall]. apply Forall_cons in Hall as [Hd _]. congruence.
  - destruct (IH k Hk Hq) as (chs1 & chs2 & -> & -> & ->). exists ((c :: r) :: chs1), chs2. done.
Qed.

(** Valid characters are a prefix code. *)
Lemma valid_prefix xs chs post : Forall (fun ch => valid_char ch = true) xs → Forall (fun ch => valid_char ch = true) chs →
  concat chs = concat xs ++ post → ∃ rest, chs = xs ++ rest ∧ post = concat rest.
Proof.
  intros Hxs. revert chs. induction Hxs as [|x xs Hx Hxs IH]; intros chs Hchs Heq; [by exists chs|].
  apply valid_char_cons in Hx as (c & r & -> & Hc & Hr & _). destruct chs as [|ch chs]; [done|].
  apply Forall_cons in Hchs as [Hch Hchs]. apply valid_char_cons in Hch as (c' & r' & -> & Hc' & Hr' & _).
  cbn [concat app] in Heq. injection Heq as -> Heq. rewrite <- app_assoc in Heq.
  apply app_inj_1 in Heq as [-> Heq]; [|congruence].
  destruct (IH chs Hchs Heq) as (rest & -> & ->). by exists rest.
Qed.

(** ** [str-index] *)

(** An offset inside the character after [chs1]. *)
Lemma charnum_loop_inside fuel chs1 pre c chs2 l cn d : utf8_chars l = chs1 ++ c :: chs2 → (1 <= d <= length c)%nat →
  (length l < fuel)%nat → NUL ∉ l →
  utf8_charnum_loop fuel (pre ++ l) (length pre + length (concat chs1) + d)%nat cn (length pre) = Some (cn + length chs1 + 1)%nat.
Proof.
  revert chs1 pre l cn. induction fuel as [|fuel IH]; intros chs1 pre l cn Hl Hd Hf Hn; [lia|]. cbn [utf8_charnum_loop].
  rewrite (proj2 (Nat.ltb_lt _ _)) by lia.
  destruct l as [|b l]; [by destruct chs1|].
  rewrite char_at_start. cbn [mbind option_bind]. rewrite bool_decide_false by set_solver.
  destruct (UTF8Increment_next pre b l) as (pre' & l' & Hs & Hl' & -> & Hp & Hc & Hsub).
  cbn [mbind option_bind]. rewrite Hs. rewrite Hc in Hl. pose proof (conts_le 3 l) as Hconts.
  assert (Hlen : length (b :: take (conts 3 l) l) = (1 + conts 3 l)%nat) by (cbn [length]; rewrite length_take; lia).
  clear Hc. generalize dependent (conts 3 l). intros k Hl Hp Hconts Hlen.
  destruct chs1 as [|c1 chs1]; cbn [app] in Hl; injection Hl as Hl1 Hl2.
  - destruct fuel as [|fuel]; [simpl in Hf; lia|]. cbn [utf8_charnum_loop].
    rewrite (proj2 (Nat.ltb_ge _ _)); [f_equal; simpl; lia|]. subst c. cbn [length concat] in *. lia.
  - subst c1. cbn [concat]. rewrite length_app, Hlen.
    replace (length pre + (1 + k + length (concat chs1)) + d)%nat with (length pre' + length (concat chs1) + d)%nat by lia.
    rewrite (IH chs1 pre' l' (cn + 1)%nat Hl2 Hd); [f_equal; cbn [length]; lia|cbn [length] in Hf; lia|set_solver].
Qed.

Definition utf8_length (l : list byte) : Z := zlength (utf8_chars l).

Lemma valid_utf8_Forall l : valid_utf8 l = true → Forall (fun ch => valid_char ch = true) (utf8_chars l).
Proof. unfold valid_utf8. rewrite forallb_forall, Forall_forall. intros H ch Hch. by apply H, list_elem_of_In. Qed.

(** An occurrence of valid text in valid text is one of its characters. *)
Lemma valid_occurrence pre find post : valid_utf8 (pre ++ find ++ post) = true → valid_utf8 find = true → find ≠ [] →
  utf8_chars (pre ++ find ++ post) = utf8_chars pre ++ utf8_chars find ++ utf8_chars post.
Proof.
  intros Hs%valid_utf8_Forall Hf%valid_utf8_Forall Hne.
  pose proof (concat_utf8_chars (pre ++ find ++ post)) as Hc. pose proof (concat_utf8_chars find) as Hcf.
  destruct (valid_split _ pre (find ++ post) Hs Hc) as (A & B & Hsplit & -> & HB).
  { rewrite <- Hcf. destruct (utf8_chars find) as [|ch chs]; [by rewrite <- Hcf in Hne|].
    apply Forall_cons in Hf as [(c & r & -> & Hst & _)%valid_char_cons _]. done. }
  rewrite Hsplit in Hs |- *. apply Forall_app in Hs as [HA HBv]. rewrite (utf8_chars_concat A HA). f_equal.
  rewrite <- Hcf in HB at 1. symmetry in HB. destruct (valid_prefix _ _ _ Hf HBv HB) as (rest & -> & ->).
  f_equal. apply Forall_app in HBv as [_ Hrest]. by rewrite utf8_chars_concat.
Qed.

Lemma str_index_eq x1 x2 pre post : NUL ∉ chars x2 → x1 ≠ "" → valid_utf8 (chars x2) = true → valid_utf8 (chars x1) = true →
  chars x2 = pre ++ chars x1 ++ post → first_in (chars x1) pre post →
  str_index x1 x2 = Some (Some (length (utf8_chars pre) + 1)%nat).
Proof.
  intros Hn Hne Hv2 Hv1 Heq Hf. assert (Hne1 : chars x1 ≠ []) by (destruct x1; [done|discriminate]).
  unfold str_index. rewrite Heq in *. rewrite (proj1 (first_in_strstr _ Hne1 pre post Hf)).
  pose proof (valid_occurrence _ _ _ Hv2 Hv1 Hne1) as Hchs.
  pose proof (concat_utf8_chars pre) as Hpre. pose proof (utf8_chars_nonempty (chars x1)) as Hall.
  pose proof (concat_utf8_chars (chars x1)) as Hc1.
  destruct (utf8_chars (chars x1)) as [|c cs]; [by rewrite <- Hc1 in Hne1|].
  apply Forall_cons in Hall as [Hc _]. unfold UTF8CharNum.
  pose proof (charnum_loop_inside (S (length (pre ++ chars x1 ++ post))) (utf8_chars pre) [] c (cs ++ utf8_chars post)
    (pre ++ chars x1 ++ post) 0 1 Hchs) as H. rewrite Hpre in H. cbn [app length Nat.add] in H.
  rewrite H; [done|destruct c; [done|simpl; lia]|lia|done].
Qed.

(** ** Calls *)

Section text_arguments.
Context {W : Type} (ev : Evaluator W) `{!EvaluatorLaws ev}.

Lemma next_text_ok (s s' : EvalEnv W) e u x f p es rv :
  ev (Some e) s = Some (u, s') → error_of s' = false → lexeme_text u = Some x →
  ∃ u', uv_value u' = uv_value u ∧
  next_text ev (s, mkUDFContext f p (e :: es) rv) = Some ((true, Some u'), (s', mkUDFContext f (p + 1) es rv)).
Proof.
  intros He Herr Hx.
  destruct (next_argument_gives ev s e u s' f p es rv None TEXT_BITS He Herr) as (u' & [Hu _] & H); [|by exists u'].
  unfold lexeme_text in Hx. by destruct (uv_value u).
Qed.
Lemma first_text_ok (s s' : EvalEnv W) e u x f p l0 es rv g :
  current_of s = Some (EFcall g (e :: es)) → ev (Some e) s = Some (u, s') → error_of s' = false → lexeme_text u = Some x →
  ∃ u', uv_value u' = uv_value u ∧
  first_text ev (s, mkUDFContext f p l0 rv) = Some ((true, Some u'), (s', mkUDFContext f 2 es rv)).
Proof.
  intros Hc He Herr Hx. unfold first_text. rewrite (first_argument_eq ev _ _ _ _ _ _ Hc).
  by apply (next_text_ok s s' e u x f 1 es rv).
Qed.
Lemma text_contents_eq u u' x (fr : EvalEnv W * UDFContext) : uv_value u' = uv_value u → lexeme_text u = Some x →
  text_contents u' fr = Some (x, fr).
Proof. intros Hu Hx. unfold text_contents, lexeme_text in *. by rewrite Hu, Hx. Qed.

Lemma StrReplaceFunction_eq (s s' : EvalEnv W) e1 e2 e3 u1 u2 u3 init find rep r f p l0 rv g :
  current_of s = Some (EFcall g [e1; e2; e3]) → gives ev s [e1; e2; e3] [u1; u2; u3] s' →
  lexeme_text u1 = Some init → lexeme_text u2 = Some find → lexeme_text u3 = Some rep → find ≠ "" →
  str_replace init find rep = Some r →
  StrReplaceFunction ev (s, mkUDFContext f p l0 rv) = Some (tt, (s', mkUDFContext f 4 [] (set_uv_value (lexeme_like u1 r) rv))).
Proof.
  intros Hc (?&?&s1&[= <- <-]&H1&E1&(?&?&s2&[= <- <-]&H2&E2&(?&?&s3&[= <- <-]&H3&E3&[_ <-]%gives_nil_inv)%gives_cons_inv)%gives_cons_inv)%gives_cons_inv T1 T2 T3 Hf Hr.
  destruct (first_text_ok s s1 e1 u1 init f p l0 [e2; e3] rv g Hc H1 E1 T1) as (u1' & Hu1 & G1).
  destruct (next_text_ok s1 s2 e2 u2 find f 2 [e3] rv H2 E2 T2) as (u2' & Hu2 & G2).
  destruct (next_text_ok s2 s' e3 u3 rep f 3 [] rv H3 E3 T3) as (u3' & Hu3 & G3).
  unfold StrReplaceFunction. rewrite (arg_or_return_ok _ _ _ _ _ G1), (arg_or_return_ok _ _ _ _ _ G2), (arg_or_return_ok _ _ _ _ _ G3).
  mrun (text_contents_eq u1 u1' init (s', mkUDFContext f 4 [] rv) Hu1 T1).
  mrun (text_contents_eq u2 u2' find (s', mkUDFContext f 4 [] rv) Hu2 T2).
  mrun (text_contents_eq u3 u3' rep (s', mkUDFContext f 4 [] rv) Hu3 T3).
  rewrite bool_decide_eq_false_2 by done. rewrite Hr, M_fromOption_Some. unfold lexeme_like. by rewrite Hu1.
Qed.

Lemma SubStringFunction_eq (s s' : EvalEnv W) e1 e2 e3 u1 u2 u3 a b x f p l0 rv g :
  current_of s = Some (EFcall g [e1; e2; e3]) → gives ev s [e1; e2; e3] [u1; u2; u3] s' →
  uv_value u1 = VInteger a → uv_value u2 = VInteger b → lexeme_text u3 = Some x → NUL ∉ chars x → 1 <= b →
  SubStringFunction ev (s, mkUDFContext f p l0 rv) =
    Some (tt, (s', mkUDFContext f 4 [] (set_uv_value (VString (of_chars (characters (chars x) (Z.max a 1 - 1) (b - 1)))) rv))).
Proof.
  intros Hc (?&?&s1&[= <- <-]&H1&E1&(?&?&s2&[= <- <-]&H2&E2&(?&?&s3&[= <- <-]&H3&E3&[_ <-]%gives_nil_inv)%gives_cons_inv)%gives_cons_inv)%gives_cons_inv Ha Hb Hx Hn Hb1.
  destruct (next_integer_ok ev s e1 u1 a s1 f 1 [e2; e3] rv H1 E1 Ha) as (u1' & Hu1 & G1).
  destruct (next_integer_ok ev s1 e2 u2 b s2 f 2 [e3] rv H2 E2 Hb) as (u2' & Hu2 & G2).
  destruct (next_text_ok s2 s' e3 u3 x f 3 [] rv H3 E3 Hx) as (u3' & Hu3 & G3).
  unfold SubStringFunction.
  erewrite arg_or_return_ok by (rewrite (first_argument_eq ev _ _ _ _ _ _ Hc); exact G1).
  mrun (integer_contents_eq _ _ (s1, mkUDFContext f 2 [e2; e3] rv) Hu1). cbv zeta.
  rewrite (arg_or_return_ok _ _ _ _ _ G2). mrun (integer_contents_eq _ _ (s2, mkUDFContext f 3 [e3] rv) Hu2).
  rewrite (proj2 (Z.ltb_ge _ 1)) by lia. rewrite (arg_or_return_ok _ _ _ _ _ G3).
  mrun (text_contents_eq u3 u3' x (s', mkUDFContext f 4 [] rv) Hu3 Hx).
  replace (if a <? 1 then 0 else a - 1) with (Z.max a 1 - 1) by (destruct (Z.ltb_spec a 1); lia).
  rewrite sub_string_eq by (done || lia). done.
Qed.

Lemma StrIndexFunction_eq (s s' : EvalEnv W) e1 e2 u1 u2 x1 x2 k f p l0 rv g :
  current_of s = Some (EFcall g [e1; e2]) → gives ev s [e1; e2] [u1; u2] s' →
  lexeme_text u1 = Some x1 → lexeme_text u2 = Some x2 → x1 ≠ "" → str_index x1 x2 = Some (Some k) →
  StrIndexFunction ev (s, mkUDFContext f p l0 rv) = Some (tt, (s', mkUDFContext f 3 [] (set_uv_value (VInteger (Z.of_nat k)) rv))).
Proof.
  intros Hc (?&?&s1&[= <- <-]&H1&E1&(?&?&s2&[= <- <-]&H2&E2&[_ <-]%gives_nil_inv)%gives_cons_inv)%gives_cons_inv T1 T2 Hne Hk.
  destruct (first_text_ok s s1 e1 u1 x1 f p l0 [e2] (set_uv_value FalseSymbol rv) g Hc H1 E1 T1) as (u1' & Hu1 & G1).
  destruct (next_text_ok s1 s' e2 u2 x2 f 2 [] (set_uv_value FalseSymbol rv) H2 E2 T2) as (u2' & Hu2 & G2).
  unfold StrIndexFunction. rewrite (M_bind_Some _ _ _ tt (s, mkUDFContext f p l0 (set_uv_value FalseSymbol rv))) by done.
  rewrite (arg_or_return_ok _ _ _ _ _ G1), (arg_or_return_ok _ _ _ _ _ G2).
  mrun (text_contents_eq u1 u1' x1 (s', mkUDFContext f 3 [] (set_uv_value FalseSymbol rv)) Hu1 T1).
  mrun (text_contents_eq u2 u2' x2 (s', mkUDFContext f 3 [] (set_uv_value FalseSymbol rv)) Hu2 T2).
  rewrite bool_decide_eq_false_2 by done. by rewrite Hk, M_fromOption_Some.
Qed.

(** The text of one argument of [str-cat]. *)
Definition argument_text (u : UDFValue) : option string :=
  match uv_value u with
  | VString x | VInstanceName x | VSymbol x => Some x
  | VFloat d => Some (float_to_string (bits_of_double d))
  | VInteger z => Some (integer_to_string z)
  | _ => None
  end.

Lemma string_arguments_eq (s s' : EvalEnv W) es us xs f es1 p l rv o :
  gives ev s es us s' → Forall2 (fun u x => argument_text u = Some x) us xs →
  current_of s = Some (EFcall f (es1 ++ es)) → (∃ r, es1 ++ es = r ++ l ∧ p = 1 + Z.of_nat (length r)) →
  ∃ p' l', string_arguments ev (length es) (1 + zlength es1) o (s, mkUDFContext f p l rv) =
    Some (Some xs, (s', mkUDFContext f p' l' rv)).
Proof.
  intros Hg. revert xs es1 p l o. induction Hg as [s|s e u s1 es us s2 He Herr Hg IH]; intros xs es1 p l o Hxs Hc Hr.
  - apply Forall2_nil_inv_l in Hxs as ->. by exists p, l.
  - apply Forall2_cons_inv_l in Hxs as (x & xs' & Hx & Hxs & ->). cbn [length string_arguments].
    destruct (next_argument_gives ev s e u s1 f (1 + zlength es1) es rv o ANY_TYPE_BITS He Herr (type_expected_any _)) as (u' & [Hu _] & Hn).
    unfold zlength in Hn at 1. rewrite <- (nth_argument_eq ev _ _ s f es1 (e :: es) p l rv Hc Hr) in Hn.
    mrun Hn. rewrite M_fromOption_Some.
    assert (Ha : argument_string u' (s1, mkUDFContext f (1 + zlength es1 + 1) es rv) = Some (Some x, (s1, mkUDFContext f (1 + zlength es1 + 1) es rv))).
    { unfold argument_string, argument_text in *. rewrite Hu. destruct (uv_value u); simplify_eq/=; done. }
    mrun Ha. rewrite (M_bind_Some _ _ _ false (s1, mkUDFContext f (1 + zlength es1 + 1) es rv)) by (unfold GetEvaluationError, gets; by rewrite <- Herr).
    rewrite M_fromOption_Some.
    destruct (IH xs' (es1 ++ [e]) (1 + zlength es1 + 1) es (Some u') Hxs) as (p' & l' & H).
    + rewrite (ev_current (Some e) _ _ _ He), Hc. by rewrite <- app_assoc.
    + exists (es1 ++ [e]). split; [by rewrite <- app_assoc|]. rewrite length_app. unfold zlength. simpl. lia.
    + rewrite zlength_app in H. change (zlength [e]) with 1 in H. rewrite Z.add_assoc in H.
      exists p', l'. by mrun H.
Qed.
End text_arguments.

(** ** The properties *)

Definition w_text (x : string) : UDFValue := set_uv_value (VString x) initial_returnValue.
Definition w_word : string := String (char_of 195) (String (char_of 164) "-b-").

(** C33: [str-replace] stays within the memory it allocates: whether the text
    grows or shrinks, it returns the first argument, of the type it had, with the
    occurrences of the second, taken from the left, replaced by the third. *)
Theorem StrReplaceFunction_correct {W} `{!EvalHost W} n f e1 e2 e3 (s s' : EvalEnv W) u1 u2 u3 init find rep :
  functionPointer f = fp_StrReplaceFunction →
  let e := Some (EFcall f [e1; e2; e3]) in
  gives (EvaluateExpression (S n)) (enter e s) [e1; e2; e3] [u1; u2; u3] s' →
  lexeme_text u1 = Some init → lexeme_text u2 = Some find → lexeme_text u3 = Some rep → find ≠ "" →
  NUL ∉ chars init → NUL ∉ chars rep → zlength (chars init) < SIZE_MAX →
  ∃ r, replaced (chars find) (chars rep) (chars init) r ∧
    (zlength r < SIZE_MAX →
     EvaluateExpression (S (S n)) e s =
       Some (set_uv_value (lexeme_like u1 (of_chars r)) initial_returnValue, enter (current_of s) s')).
Proof.
  intros Hfp e Hg T1 T2 T3 Hf Hi Hp Hl. subst e.
  destruct (replaced_exists (chars find) (chars rep)) with (s := chars init) as [r Hr]; [destruct find; [done|discriminate]|].
  exists r. split; [done|]. intros Hrl.
  pose proof (str_replace_eq init find rep r Hf Hr Hi Hp Hl Hrl) as Hrep.
  assert (Hret : ∀ x, returned (set_uv_value (lexeme_like u1 x) initial_returnValue) = set_uv_value (lexeme_like u1 x) initial_returnValue)
    by (intros x; unfold lexeme_like, returned; by destruct (uv_value u1)).
  rewrite <- Hret. eapply eval_udf. rewrite Hfp. unfold call_functionPointer.
  eapply (StrReplaceFunction_eq (EvaluateExpression (S n))); [reflexivity|exact Hg|exact T1|exact T2|exact T3|exact Hf|exact Hrep].
Qed.
Lemma StrReplaceFunction_correct_witness :
  ∃ r, replaced (chars "-") (chars "--") (chars "a-b-") r ∧
    (zlength r < SIZE_MAX → EvaluateExpression 2 (Some (w_call "str-replace" [w_sym "a-b-"; w_str "-"; w_str "--"])) w_eval =
      Some (mkUDFValue (VSymbol (of_chars r)) 0 SIZE_MAX, w_eval)).
Proof.
  set (call := w_call "str-replace" _).
  exact (StrReplaceFunction_correct 0 (w_fn "str-replace") (w_sym "a-b-") (w_str "-") (w_str "--") w_eval (enter (Some call) w_eval)
    (set_uv_value (VSymbol "a-b-") initial_returnValue) (w_text "-") (w_text "--") "a-b-" "-" "--"
    eq_refl ltac:(repeat econstructor) eq_refl eq_refl eq_refl ltac:(discriminate)
    ltac:(apply (bool_decide_unpack _); vm_compute; exact I) ltac:(apply (bool_decide_unpack _); vm_compute; exact I)
    ltac:(vm_compute; reflexivity)).
Defined.

(** C34: on valid UTF-8, [str-index] and [sub-string] count the same characters:
    when [x1] first occurs in [x2] after [pre], [(str-index x1 x2)] is one more
    than the number of characters of [pre], and [sub-string] from there on with
    the length of [x1] returns [x1]. *)
Theorem str_index_sub_string {W} `{!EvalHost W} n fi fs e1 e2 (s s' : EvalEnv W) u1 u2 x1 x2 pre post :
  functionPointer fi = fp_StrIndexFunction → functionPointer fs = fp_SubStringFunction →
  let e := Some (EFcall fi [e1; e2]) in
  gives (EvaluateExpression (S n)) (enter e s) [e1; e2] [u1; u2] s' →
  lexeme_text u1 = Some x1 → lexeme_text u2 = Some x2 → x1 ≠ "" → NUL ∉ chars x2 →
  valid_utf8 (chars x1) = true → valid_utf8 (chars x2) = true →
  chars x2 = pre ++ chars x1 ++ post → first_in (chars x1) pre post →
  let i := utf8_length pre + 1 in
  EvaluateExpression (S (S n)) e s = Some (mkUDFValue (VInteger i) 0 SIZE_MAX, enter (current_of s) s') ∧
  ∀ s1, error_of s1 = false →
    let e' := Some (EFcall fs [EConst (VInteger i); EConst (VInteger (i + utf8_length (chars x1) - 1)); EConst (VString x2)]) in
    EvaluateExpression 2 e' s1 = Some (mkUDFValue (VString x1) 0 SIZE_MAX, enter (current_of s1) s1).
Proof.
  intros Hfi Hfs e Hg T1 T2 Hne Hn Hv1 Hv2 Heq Hf i. subst e.
  pose proof (str_index_eq x1 x2 pre post Hn Hne Hv2 Hv1 Heq Hf) as Hk.
  assert (Hi : i = Z.of_nat (length (utf8_chars pre) + 1)) by (unfold i, utf8_length, zlength; lia).
  assert (Hne1 : chars x1 ≠ []) by (destruct x1; [done|discriminate]).
  split.
  - rewrite Hi. change (mkUDFValue ?v 0 SIZE_MAX) with (returned (set_uv_value v initial_returnValue)).
    eapply eval_udf. rewrite Hfi. unfold call_functionPointer.
    eapply (StrIndexFunction_eq (EvaluateExpression (S n))); [reflexivity|exact Hg|exact T1|exact T2|exact Hne|exact Hk].
  - intros s1 Herr e'. subst e'.
    assert (Hlen : 0 < utf8_length (chars x1)).
    { unfold utf8_length, zlength. pose proof (concat_utf8_chars (chars x1)) as Hc. destruct (utf8_chars (chars x1)); [by rewrite <- Hc in Hne1|simpl; lia]. }
    assert (Hpre : 0 <= utf8_length pre) by apply zlength_nonneg.
    assert (Hx : x1 = of_chars (characters (chars x2) (Z.max i 1 - 1) (i + utf8_length (chars x1) - 1 - 1))).
    { rewrite <- (of_chars_chars x1) at 1. f_equal. unfold characters. rewrite Heq in *.
      rewrite (valid_occurrence _ _ _ Hv2 Hv1 Hne1). unfold i, utf8_length, zlength in *.
      replace (Z.to_nat (Z.max _ 1 - 1)) with (length (utf8_chars pre)) by lia. rewrite drop_app_length.
      match goal with |- context [take ?k _] => replace k with (length (utf8_chars (chars x1))) by lia end.
      by rewrite take_app_length, concat_utf8_chars. }
    rewrite Hx at 2. change (mkUDFValue ?v 0 SIZE_MAX) with (returned (set_uv_value v initial_returnValue)).
    rewrite eval_call, Hfs. unfold call_functionPointer.
    erewrite (SubStringFunction_eq (EvaluateExpression 1) _ (enter (Some (EFcall fs [EConst (VInteger i); EConst (VInteger (i + utf8_length (chars x1) - 1)); EConst (VString x2)])) s1)
      _ _ _ (set_uv_value (VInteger i) initial_returnValue) (set_uv_value (VInteger (i + utf8_length (chars x1) - 1)) initial_returnValue) (w_text x2));
      [reflexivity|reflexivity| |reflexivity|reflexivity|reflexivity|exact Hn|lia].
    repeat (econstructor; [reflexivity|exact Herr|]). constructor.
Qed.
Lemma str_index_sub_string_witness :
  EvaluateExpression 2 (Some (w_call "str-index" [w_str "b"; w_str w_word])) w_eval = Some (mkUDFValue (VInteger 3) 0 SIZE_MAX, w_eval) ∧
  ∀ s1, error_of s1 = false →
    EvaluateExpression 2 (Some (w_call "sub-string" [w_int 3; w_int 3; w_str w_word])) s1 = Some (mkUDFValue (VString "b") 0 SIZE_MAX, enter (current_of s1) s1).
Proof.
  set (call := w_call "str-index" _).
  exact (str_index_sub_string 0 (w_fn "str-index") (w_fn "sub-string") (w_str "b") (w_str w_word) w_eval (enter (Some call) w_eval)
    (w_text "b") (w_text w_word) "b" w_word [char_of 195; char_of 164; char_of 45] [char_of 45]
    eq_refl eq_refl ltac:(repeat econstructor) eq_refl eq_refl ltac:(discriminate)
    ltac:(apply (bool_decide_unpack _); vm_compute; exact I) eq_refl eq_refl eq_refl
    ltac:(intros [|x [|y [|z a]]] b E; [discriminate E|discriminate E|discriminate E|simpl; lia])).
Defined.

(** [sub-string] never touches memory outside the text or the result,
    whatever the bytes of the text and the integers are: it returns the characters
    from the first index to the second, cut to the text. *)
Theorem SubStringFunction_correct {W} `{!EvalHost W} n f e1 e2 e3 (s s' : EvalEnv W) u1 u2 u3 a b x :
  functionPointer f = fp_SubStringFunction →
  let e := Some (EFcall f [e1; e2; e3]) in
  gives (EvaluateExpression (S n)) (enter e s) [e1; e2; e3] [u1; u2; u3] s' →
  uv_value u1 = VInteger a → uv_value u2 = VInteger b → lexeme_text u3 = Some x → NUL ∉ chars x → 1 <= b →
  EvaluateExpression (S (S n)) e s =
    Some (set_uv_value (VString (of_chars (characters (chars x) (Z.max a 1 - 1) (b - 1)))) initial_returnValue,
          enter (current_of s) s').
Proof.
  intros Hfp e Hg Ha Hb Hx Hn Hb1. subst e.
  change (set_uv_value (VString ?v) initial_returnValue) with (returned (set_uv_value (VString v) initial_returnValue)).
  eapply eval_udf. rewrite Hfp. unfold call_functionPointer.
  eapply (SubStringFunction_eq (EvaluateExpression (S n))); [reflexivity|exact Hg|exact Ha|exact Hb|exact Hx|exact Hn|exact Hb1].
Qed.
Lemma SubStringFunction_correct_witness :
  EvaluateExpression 2 (Some (w_call "sub-string" [w_int (-4); w_int 2; w_str w_word])) w_eval =
    Some (mkUDFValue (VString (String (char_of 195) (String (char_of 164) "-"))) 0 SIZE_MAX, w_eval).
Proof.
  set (call := w_call "sub-string" _).
  exact (SubStringFunction_correct 0 (w_fn "sub-string") (w_int (-4)) (w_int 2) (w_str w_word) w_eval (enter (Some call) w_eval)
    (set_uv_value (VInteger (-4)) initial_returnValue) (set_uv_value (VInteger 2) initial_returnValue) (w_text w_word) (-4) 2 w_word
    eq_refl ltac:(repeat econstructor) eq_refl eq_refl eq_refl ltac:(apply (bool_decide_unpack _); vm_compute; exact I) ltac:(lia)).
Defined.

(** [str-cat] and [sym-cat] return the concatenation of the texts of their
    arguments, numbers printed as [FloatToString] and [LongIntegerToString] do, in
    a buffer of exactly that size. *)
Theorem StrOrSymCat_correct {W} `{!EvalHost W} n f es (s s' : EvalEnv W) us xs :
  functionPointer f ∈ [fp_StrCatFunction; fp_SymCatFunction] → es ≠ [] →
  let e := Some (EFcall f es) in
  gives (EvaluateExpression (S n)) (enter e s) es us s' →
  Forall2 (fun u x => argument_text u = Some x) us xs → Forall (fun x => NUL ∉ chars x) xs →
  let text := of_chars (concat (chars <$> xs)) in
  EvaluateExpression (S (S n)) e s =
    Some (mkUDFValue (match functionPointer f with fp_StrCatFunction => VString text | _ => VSymbol text end) 0 SIZE_MAX,
          enter (current_of s) s').
Proof.
  intros Hfp Hes e Hg Hxs Hn text. subst e.
  pose proof (gives_length _ _ _ _ _ Hg) as Hlen. pose proof (Forall2_length _ _ _ Hxs) as Hlen'.
  assert (Hxs' : xs ≠ []) by (destruct xs, us, es; done).
  destruct (string_arguments_eq (EvaluateExpression (S n)) (enter (Some (EFcall f es)) s) s' es us xs f [] 1 es initial_returnValue None
    Hg Hxs eq_refl ltac:(by exists [])) as (p & l & Hargs).
  assert (Hcat : ∀ t, StrOrSymCatFunction (EvaluateExpression (S n)) t (enter (Some (EFcall f es)) s, mkUDFContext f 1 es initial_returnValue) =
    Some (tt, (s', mkUDFContext f p l (set_uv_value (lexeme_of_type t text) initial_returnValue)))).
  { intros t. unfold StrOrSymCatFunction, UDFArgumentCount. rewrite M_bind_assoc.
    mrun (current_args_eq (enter (Some (EFcall f es)) s) f es (mkUDFContext f 1 es initial_returnValue) eq_refl). rewrite M_bind_ret.
    rewrite (proj2 (Z.eqb_neq _ 0)) by (destruct es; [done|cbn [length]; lia]). rewrite Nat2Z.id.
    mrun Hargs. by rewrite (concatenated_eq xs Hxs' Hn), M_fromOption_Some. }
  repeat (apply elem_of_cons in Hfp as [Hfp|Hfp]); [| |by apply elem_of_nil in Hfp]; rewrite Hfp.
  - change (mkUDFValue (VString text) 0 SIZE_MAX) with (returned (set_uv_value (VString text) initial_returnValue)).
    eapply eval_udf. rewrite Hfp. apply (Hcat STRING_TYPE).
  - change (mkUDFValue (VSymbol text) 0 SIZE_MAX) with (returned (set_uv_value (VSymbol text) initial_returnValue)).
    eapply eval_udf. rewrite Hfp. apply (Hcat SYMBOL_TYPE).
Qed.
Lemma StrOrSymCat_correct_witness :
  EvaluateExpression 2 (Some (w_call "str-cat" [w_str "n="; w_int (-7); w_sym ","; EConst (VFloat (double_of_Z 2))])) w_eval =
    Some (mkUDFValue (VString "n=-7,2.0") 0 SIZE_MAX, w_eval).
Proof.
  set (call := w_call "str-cat" _).
  refine (eq_trans (StrOrSymCat_correct 0 (w_fn "str-cat") [w_str "n="; w_int (-7); w_sym ","; EConst (VFloat (double_of_Z 2))] w_eval (enter (Some call) w_eval)
    ((fun v => set_uv_value v initial_returnValue) <$> [VString "n="; VInteger (-7); VSymbol ","; VFloat (double_of_Z 2)])
    ["n="; "-7"; ","; "2.0"] ltac:(left) ltac:(discriminate) ltac:(repeat econstructor)
    ltac:(repeat first [apply Forall2_nil_2 | apply Forall2_cons_2; [vm_compute; reflexivity|]])
    ltac:(apply (bool_decide_unpack _); vm_compute; exact I)) _).
  vm_compute. reflexivity.
Defined.
