(* ===== verification/StringRouters.v ===== *)
(** * String routers: [strngrtr.c]

    Sources that are read from a character array, destinations that are written
    to one or to a string builder, each found by its logical name.  What a
    callback does when its router is gone, a system error reported through the
    routers themselves, is an argument: [Routers] supplies it. *)
From S2P Require Import Prelude Values Router Process Hash TextBuffer IOState.
#[local] Open Scope nat_scope.

Section string_routers.
Context {W : Type}.
Abbreviation P := (P (IOEnv W)).

(** ** Finding *)

Fixpoint find_string_router (name : string) (l : list StringRouter) : option StringRouter :=
  match l with
  | [] => None
  | head :: l' => if String.eqb (sr_name head) name then Some head else find_string_router name l'
  end.
Fixpoint find_builder_router (name : string) (l : list StringBuilderRouter) : option StringBuilderRouter :=
  match l with
  | [] => None
  | head :: l' => if String.eqb (sbr_name head) name then Some head else find_builder_router name l'
  end.

Definition FindStringRouter (name : string) : P (option StringRouter) :=
  l ← getIO ListOfStringRouters; mret (find_string_router name l).
Definition FindStringBuilderRouter (name : string) : P (option StringBuilderRouter) :=
  l ← getIO ListOfStringBuilderRouters; mret (find_builder_router name l).

(** Write through the pointer that [FindStringRouter] returned. *)
Fixpoint update_found (name : string) (f : StringRouter → StringRouter) (l : list StringRouter) : list StringRouter :=
  match l with
  | [] => []
  | head :: l' => if String.eqb (sr_name head) name then f head :: l' else head :: update_found name f l'
  end.
Definition update_string_router (name : string) (f : StringRouter → StringRouter) : P unit :=
  modifyIO (fun s => put_string_routers (update_found name f (ListOfStringRouters s)) s).

(** ** Callbacks *)

Definition query_string_callback (logicalName : LogicalName) : P bool :=
  l ← getIO ListOfStringRouters;
  match l with
  | [] => mret false
  | _ => name ← someIO (name_of logicalName); mret (bool_decide (is_Some (find_string_router name l)))
  end.

Definition write_string_callback (failure : P unit) (logicalName : LogicalName) (str : string) : P unit :=
  name ← someIO (name_of logicalName);
  head ← FindStringRouter name;
  match head with
  | None => failure
  | Some head =>
      if negb (readWriteType head =? WRITE_STRING)%Z then mret tt
      else if maximumPosition head =? 0 then mret tt
      else if maximumPosition head <=? currentPosition head + 1 then mret tt
      else
        _ ← array_strncpy (writeString head) (currentPosition head) str
              (maximumPosition head - currentPosition head - 1);
        update_string_router name (set_currentPosition (currentPosition head + String.length str))
  end.

(** After a failure that returns, [head] is [NULL] and is read. *)
Definition read_string_callback (failure : P unit) (logicalName : LogicalName) : P Z :=
  name ← someIO (name_of logicalName);
  head ← FindStringRouter name;
  match head with
  | None => _ ← failure; someIO None
  | Some head =>
      if negb (readWriteType head =? READ_STRING)%Z then mret EOF
      else if maximumPosition head <=? currentPosition head then
        _ ← update_string_router name (set_currentPosition (currentPosition head + 1));
        mret EOF
      else
        c ← array_byte (readString head) (Z.of_nat (currentPosition head));
        _ ← update_string_router name (set_currentPosition (currentPosition head + 1));
        mret (code_of c)
  end.

Definition unread_string_callback (failure : P unit) (logicalName : LogicalName) : P Z :=
  name ← someIO (name_of logicalName);
  head ← FindStringRouter name;
  match head with
  | None => _ ← failure; someIO None
  | Some head =>
      if negb (readWriteType head =? READ_STRING)%Z then mret 0%Z
      else
        _ ← (if 0 <? currentPosition head
             then update_string_router name (set_currentPosition (currentPosition head - 1)) else mret tt);
        mret 1%Z
  end.

Definition query_builder_callback (logicalName : LogicalName) : P bool :=
  l ← getIO ListOfStringBuilderRouters;
  match l with
  | [] => mret false
  | _ => name ← someIO (name_of logicalName); mret (bool_decide (is_Some (find_builder_router name l)))
  end.

Definition write_builder_callback (failure : P unit) (logicalName : LogicalName) (str : string) : P unit :=
  name ← someIO (name_of logicalName);
  head ← FindStringBuilderRouter name;
  match head with
  | None => failure
  | Some head =>
      sbs ← getIO builders;
      theSB ← someIO (sbs !! SBR head);
      theSB' ← someIO (SBAppend theSB str);
      modifyIO (put_builders (<[SBR head := theSB']> sbs))
  end.

(** ** Opening and closing *)

Definition push_string_router (r : StringRouter) : P unit :=
  modifyIO (fun s => put_string_routers (r :: ListOfStringRouters s) s).

Definition CreateReadStringSource (name : string) (str : option ptr) (currentPosition maximumPosition : nat) : P bool :=
  found ← FindStringRouter name;
  match found with
  | Some _ => mret false
  | None =>
      _ ← push_string_router (mkStringRouter name str None currentPosition maximumPosition READ_STRING);
      mret true
  end.

Definition OpenStringSource (name : string) (str : option ptr) (currentPosition : nat) : P bool :=
  match str with
  | None => CreateReadStringSource name None 0 0
  | Some p =>
      maximumPosition ← array_strlen p;
      CreateReadStringSource name str currentPosition maximumPosition
  end.

Definition OpenTextSource (name : string) (str : option ptr) (currentPosition maximumPosition : nat) : P bool :=
  match str with
  | None => CreateReadStringSource name None 0 0
  | Some _ => CreateReadStringSource name str currentPosition maximumPosition
  end.

Fixpoint remove_string_router (name : string) (l : list StringRouter) : option (list StringRouter) :=
  match l with
  | [] => None
  | head :: l' => if String.eqb (sr_name head) name then Some l' else cons head <$> remove_string_router name l'
  end.
Definition CloseStringSource (name : string) : P bool :=
  l ← getIO ListOfStringRouters;
  match remove_string_router name l with
  | Some l' => _ ← modifyIO (put_string_routers l'); mret true
  | None => mret false
  end.

Definition OpenStringDestination (name : string) (str : option ptr) (maximumPosition : nat) : P bool :=
  found ← FindStringRouter name;
  match found with
  | Some _ => mret false
  | None =>
      _ ← push_string_router (mkStringRouter name None str 0 maximumPosition WRITE_STRING);
      mret true
  end.
Definition CloseStringDestination (name : string) : P bool := CloseStringSource name.

Definition OpenStringBuilderDestination (name : string) (theSB : ptr) : P bool :=
  found ← FindStringBuilderRouter name;
  match found with
  | Some _ => mret false
  | None =>
      _ ← modifyIO (fun s => put_builder_routers (mkStringBuilderRouter name theSB :: ListOfStringBuilderRouters s) s);
      mret true
  end.

Fixpoint remove_builder_router (name : string) (l : list StringBuilderRouter) : option (list StringBuilderRouter) :=
  match l with
  | [] => None
  | head :: l' => if String.eqb (sbr_name head) name then Some l' else cons head <$> remove_builder_router name l'
  end.
Definition CloseStringBuilderDestination (name : string) : P bool :=
  l ← getIO ListOfStringBuilderRouters;
  match remove_builder_router name l with
  | Some l' => _ ← modifyIO (put_builder_routers l'); mret true
  | None => mret false
  end.
End string_routers.
