(* ===== verification/Routers.v ===== *)
(** * Routers: [router.c]

    The list of routers by descending priority, and the generic functions that
    pass a request to the first active router that recognises its logical
    name, unless a fast path applies.  The log of [Router] that the other
    components write is replayed on the routers by [report]. *)
From S2P Require Import Prelude Values Router Process Hash TextBuffer IOState StringRouters.
#[local] Open Scope Z_scope.

Definition linefeed : Z := 10.

(** [WriteString] looks at the address of a name only to compare it with a [FILE]. *)
Definition literal (name : string) : LogicalName := LName 1 name.

(** What a function logs from an empty log. *)
#[export] Instance log_router : Router (list output_item) := { map_output f := f }.
Definition log_of (m : M (list output_item) unit) : list output_item :=
  match m [] with Some (_, items) => items | None => [] end.

Section routers.
Context {W : Type} `{!RouterHost W}.
Abbreviation P := (P (IOEnv W)).
Implicit Types (r : router) (logicalName : LogicalName).

Definition router_field {A} (f : routerData → A) : P A := getIO (fun s => f (router_data s)).

(** ** The line count of [scanner.c] *)

Definition add_line_count (d : Z) : P unit :=
  n ← getIO (fun s => LineCount (scanner_data s));
  if (LLONG_MIN <=? n + d) && (n + d <=? LLONG_MAX)
  then modifyIO (fun s => put_scanner_data (set_LineCount (n + d) (scanner_data s)) s) else someIO None.
Definition IncrementLineCount : P unit := add_line_count 1.
Definition DecrementLineCount : P unit := add_line_count (-1).
Definition GetLineCount : P Z := getIO (fun s => LineCount (scanner_data s)).
Definition SetLineCount (value : Z) : P Z :=
  oldValue ← GetLineCount;
  _ ← modifyIO (fun s => put_scanner_data (set_LineCount value (scanner_data s)) s);
  mret oldValue.
Definition ResetLineCount : P unit := _ ← SetLineCount 0; mret tt.

(** Count the line when the characters come from the router whose lines are
    counted: [==] in the fast paths, [strcmp] otherwise. *)
Definition counts_by_pointer logicalName : P bool :=
  l ← router_field LineCountRouter; mret (same_pointer_opt logicalName l).
Definition counts_by_name logicalName : P bool :=
  l ← router_field LineCountRouter;
  match l with
  | None => mret false
  | Some l => n1 ← someIO (name_of logicalName); n2 ← someIO (name_of l); mret (String.eqb n1 n2)
  end.
Definition count_line (inchar : Z) (counts : P bool) (count : P unit) : P unit :=
  if inchar =? linefeed then b ← counts; if b : bool then count else mret tt else mret tt.

(** ** Queries *)

Definition QueryRouter logicalName r : P bool :=
  if negb (active r) then mret false
  else
    match queryCallback r with
    | None => mret false
    | Some QueryStringCallback => query_string_callback logicalName
    | Some QueryStringBuilderCallback => query_builder_callback logicalName
    | Some (HostQuery f) => on_world (host_query f logicalName (context r))
    end.

(** The first router of the list with the callback that answers the query. *)
Fixpoint find_recognizer {A} (callback : router → option A) logicalName (l : list router) : P (option (router * A)) :=
  match l with
  | [] => mret None
  | r :: l' =>
      match callback r with
      | None => find_recognizer callback logicalName l'
      | Some c =>
          b ← QueryRouter logicalName r;
          if b : bool then mret (Some (r, c)) else find_recognizer callback logicalName l'
      end
  end.
Definition recognizer {A} (callback : router → option A) logicalName : P (option (router * A)) :=
  l ← router_field ListOfRouters; find_recognizer callback logicalName l.

Definition PrintRouterExists logicalName : P bool :=
  f ← router_field FastSaveFilePtr;
  if is_file logicalName f then mret true
  else found ← recognizer writeCallback logicalName; mret (bool_decide (is_Some found)).

(** Any active router; the callback found is its query function. *)
Definition QueryRouters logicalName : P bool :=
  found ← recognizer queryCallback logicalName; mret (bool_decide (is_Some found)).

(** ** Exit *)

Definition exit_router (num : Z) r : P unit :=
  match exitCallback r with
  | Some f =>
      if active r then
        aborted ← on_world (host_exit f num (context r));
        whenP aborted (modify_router (set_AbortFlag true))
      else mret tt
  | None => mret tt
  end.

(** The process ends, unless an exit callback called [AbortExit]. *)
Definition ExitRouter (num : Z) : P unit :=
  _ ← modify_router (set_AbortFlag false);
  l ← router_field ListOfRouters;
  _ ← forM l (exit_router num);
  aborted ← router_field AbortFlag;
  if aborted : bool then mret tt else Process.ExitRouter num.
Definition AbortExit : P unit := modify_router (set_AbortFlag true).

(** ** Output *)

Definition UnrecognizedRouterMessage_log (name : string) : M (list output_item) unit :=
  _ ← PrintErrorID "ROUTER" 1 false;
  _ ← Router.WriteString STDERR "Logical name '";
  _ ← Router.WriteString STDERR name;
  Router.WriteString STDERR ("' was not recognized by any routers." +:+ newline).

(** A message is written one string at a time. *)
Definition report_with (write : LogicalName → string → P unit) (m : M (list output_item) unit) : P unit :=
  forM (log_of m) (fun i => match i with OString name str => write (literal name) str | _ => someIO None end).

Definition call_write (write : LogicalName → string → P unit) r (w : WriteFunction) logicalName (str : string) : P unit :=
  let failure := _ ← report_with write (SystemError "ROUTER" 3); ExitRouter EXIT_FAILURE in
  match w with
  | WriteStringCallback => write_string_callback failure logicalName str
  | WriteStringBuilderCallback => write_builder_callback failure logicalName str
  | HostWrite f => on_world (host_write f logicalName str (context r))
  end.

(** Messages nest: a name that no router recognises is reported on [STDERR],
    and nothing is reported when that is not recognised either; [depth] bounds
    the nesting. *)
Fixpoint write_string (depth : nat) logicalName (str : string) : P unit :=
  match depth with
  | O => someIO None
  | S depth' =>
      f ← router_field FastSaveFilePtr;
      if is_file logicalName f then f ← someIO f; fprintf f str
      else
        found ← recognizer writeCallback logicalName;
        match found with
        | Some (r, w) => call_write (write_string depth') r w logicalName str
        | None =>
            name ← someIO (name_of logicalName);
            if String.eqb STDERR name then mret tt
            else report_with (write_string depth') (UnrecognizedRouterMessage_log name)
        end
  end.

Definition WriteString logicalName (str : string) : P unit := write_string 2 logicalName str.
Definition Write (str : string) : P unit := WriteString (literal STDOUT) str.
Definition Writeln (str : string) : P unit :=
  _ ← WriteString (literal STDOUT) str; WriteString (literal STDOUT) newline.

(** The messages of the other components. *)
Definition report (m : M (list output_item) unit) : P unit := report_with WriteString m.
Definition UnrecognizedRouterMessage logicalName : P unit :=
  name ← someIO (name_of logicalName); report (UnrecognizedRouterMessage_log name).
Definition PrintNRouter logicalName (str : string) (length : nat) : P unit :=
  tempStr ← someIO (c_string (Some ((Some <$> padded str length) ++ [Some NUL])));
  WriteString logicalName tempStr.

(** ** Input *)

Definition ReadRouter logicalName : P Z :=
  load ← router_field FastLoadFilePtr;
  if is_file logicalName load then
    f ← someIO load;
    inchar ← getc f;
    _ ← count_line inchar (counts_by_pointer logicalName) IncrementLineCount;
    mret inchar
  else
  fast ← router_field FastCharGetRouter;
  if same_pointer_opt logicalName fast then
    str ← router_field FastCharGetString;
    i ← router_field FastCharGetIndex;
    c ← array_byte str i;
    _ ← modify_router (set_FastCharGetIndex (i + 1));
    if bool_decide (c = NUL) then mret EOF
    else
      _ ← count_line (code_of c) (counts_by_pointer logicalName) IncrementLineCount;
      mret (code_of c)
  else
    found ← recognizer readCallback logicalName;
    match found with
    | Some (r, read) =>
        inchar ← match read with
          | ReadStringCallback =>
              read_string_callback (_ ← report (SystemError "ROUTER" 1); ExitRouter EXIT_FAILURE) logicalName
          | HostRead f => on_world (host_read f logicalName (context r))
          end;
        _ ← count_line inchar (counts_by_name logicalName) IncrementLineCount;
        mret inchar
    | None => _ ← UnrecognizedRouterMessage logicalName; mret (-1)
    end.

Definition UnreadRouter logicalName (ch : Z) : P Z :=
  load ← router_field FastLoadFilePtr;
  if is_file logicalName load then
    _ ← count_line ch (counts_by_pointer logicalName) DecrementLineCount;
    f ← someIO load; ungetc ch f
  else
  fast ← router_field FastCharGetRouter;
  if same_pointer_opt logicalName fast then
    _ ← count_line ch (counts_by_pointer logicalName) DecrementLineCount;
    i ← router_field FastCharGetIndex;
    _ ← (if 0 <? i then modify_router (set_FastCharGetIndex (i - 1)) else mret tt);
    mret ch
  else
    found ← recognizer unreadCallback logicalName;
    match found with
    | Some (r, unread) =>
        _ ← count_line ch (counts_by_name logicalName) DecrementLineCount;
        match unread with
        | UnreadStringCallback =>
            unread_string_callback (_ ← report (SystemError "ROUTER" 2); ExitRouter EXIT_FAILURE) logicalName
        | HostUnread f => on_world (host_unread f logicalName ch (context r))
        end
    | None => _ ← UnrecognizedRouterMessage logicalName; mret (-1)
    end.

(** ** The list of routers *)

Fixpoint name_in_use (routerName : string) (l : list router) : bool :=
  match l with [] => false | r :: l' => String.eqb (router_name r) routerName || name_in_use routerName l' end.
(** Before the first router whose priority is not higher. *)
Fixpoint insert_router (newPtr : router) (l : list router) : list router :=
  match l with
  | [] => [newPtr]
  | r :: l' => if priority newPtr <? priority r then r :: insert_router newPtr l' else newPtr :: l
  end.

Definition AddRouter (routerName : string) (prio : Z) (queryFunction : option QueryFunction)
    (writeFunction : option WriteFunction) (readFunction : option ReadFunction)
    (unreadFunction : option UnreadFunction) (exitFunction : option ptr) (ctx : option ptr) : P bool :=
  l ← router_field ListOfRouters;
  if name_in_use routerName l then mret false
  else
    let newPtr := mkRouter routerName true prio ctx queryFunction writeFunction exitFunction readFunction unreadFunction in
    _ ← modify_router (set_ListOfRouters (insert_router newPtr l));
    mret true.

Fixpoint delete_router (routerName : string) (l : list router) : option (list router) :=
  match l with
  | [] => None
  | r :: l' => if String.eqb (router_name r) routerName then Some l' else cons r <$> delete_router routerName l'
  end.
Definition DeleteRouter (routerName : string) : P bool :=
  l ← router_field ListOfRouters;
  match delete_router routerName l with
  | Some l' => _ ← modify_router (set_ListOfRouters l'); mret true
  | None => mret false
  end.

Fixpoint set_router_active (v : bool) (routerName : string) (l : list router) : option (list router) :=
  match l with
  | [] => None
  | r :: l' => if String.eqb (router_name r) routerName then Some (set_active v r :: l')
               else cons r <$> set_router_active v routerName l'
  end.
Definition change_active (v : bool) (routerName : string) : P bool :=
  l ← router_field ListOfRouters;
  match set_router_active v routerName l with
  | Some l' => _ ← modify_router (set_ListOfRouters l'); mret true
  | None => mret false
  end.
Definition DeactivateRouter (routerName : string) : P bool := change_active false routerName.
Definition ActivateRouter (routerName : string) : P bool := change_active true routerName.

Fixpoint find_router (routerName : string) (l : list router) : option router :=
  match l with [] => None | r :: l' => if String.eqb (router_name r) routerName then Some r else find_router routerName l' end.
Definition FindRouter (routerName : string) : P (option router) :=
  l ← router_field ListOfRouters; mret (find_router routerName l).

(** ** Fast paths *)

Definition SetFastLoad (filePtr : option ptr) : P unit := modify_router (set_FastLoadFilePtr filePtr).
Definition SetFastSave (filePtr : option ptr) : P unit := modify_router (set_FastSaveFilePtr filePtr).
Definition GetFastLoad : P (option ptr) := router_field FastLoadFilePtr.
Definition GetFastSave : P (option ptr) := router_field FastSaveFilePtr.

(** ** Start *)

(** The routers of [InitializeStringRouter], after those of [InitializeFileRouter]. *)
Definition InitializeStringRouter : P unit :=
  _ ← AddRouter "string" 0 (Some QueryStringCallback) (Some WriteStringCallback) (Some ReadStringCallback)
        (Some UnreadStringCallback) None None;
  _ ← AddRouter "stringBuilder" 0 (Some QueryStringBuilderCallback) (Some WriteStringBuilderCallback) None None None None;
  mret tt.
End routers.
