(* ===== verification/PPrint.v ===== *)
(** * The pretty print buffer: [pprint.c] *)
From S2P Require Import Prelude Values Router Process Hash TextBuffer IOState.
#[local] Open Scope nat_scope.

Definition PP_CR_FIXED_BUFFER_SIZE : Z := 120.

(** [InitializePrettyPrintData] *)
Definition initial_pp_data : prettyPrintData := mkPrettyPrintData false true 0 0 0 empty_buffer.

Definition set_PPBuffer (once twice : nat) b d :=
  mkPrettyPrintData (PPBufferStatus d) (PPBufferEnabled d) (IndentationDepth d) once twice b.
Definition set_IndentationDepth v d :=
  mkPrettyPrintData (PPBufferStatus d) (PPBufferEnabled d) v (PPBackupOnce d) (PPBackupTwice d) (PPBuffer d).
Definition set_PPBufferStatus v d :=
  mkPrettyPrintData v (PPBufferEnabled d) (IndentationDepth d) (PPBackupOnce d) (PPBackupTwice d) (PPBuffer d).
Definition set_PPBufferEnabled v d :=
  mkPrettyPrintData (PPBufferStatus d) v (IndentationDepth d) (PPBackupOnce d) (PPBackupTwice d) (PPBuffer d).

(** The growth of [SavePPBuffer], and what it saves. *)
Definition save_string (str : string) (d : prettyPrintData) : option prettyPrintData :=
  let b := PPBuffer d in
  let increment := if 512 <? position b then position b * 3 else 512 in
  b ← (if maximum b <=? String.length str + position b + 1 then
         m ← genrealloc (bytes b) (maximum b) (maximum b + increment);
         Some (mkBuffer m (position b) (maximum b + increment))
       else Some b);
  b' ← AppendToString str b;
  Some (set_PPBuffer (position b) (PPBackupOnce d) b' d).

Section pprint.
Context {W : Type}.
Abbreviation P := (P (IOEnv W)).

Definition pp_field {A} (f : prettyPrintData → A) : P A := getIO (fun s => f (pp_data s)).
Definition update_pp (d : prettyPrintData) : P unit := modifyIO (put_pp_data d).

Definition FlushPPBuffer : P unit :=
  d ← getIO pp_data;
  match bytes (PPBuffer d) with
  | None => mret tt
  | Some _ =>
      m ← someIO (write_byte (bytes (PPBuffer d)) 0 NUL);
      update_pp (set_PPBuffer 0 0 (mkBuffer m 0 (maximum (PPBuffer d))) d)
  end.

Definition DestroyPPBuffer : P unit :=
  d ← getIO pp_data; update_pp (set_PPBuffer 0 0 empty_buffer d).

Definition SavePPBuffer (str : string) : P unit :=
  d ← getIO pp_data;
  if negb (PPBufferStatus d) || negb (PPBufferEnabled d) then mret tt
  else d' ← someIO (save_string str d); update_pp d'.

Definition PPBackup : P unit :=
  d ← getIO pp_data;
  match bytes (PPBuffer d) with
  | None => mret tt
  | Some _ =>
      if negb (PPBufferStatus d) || negb (PPBufferEnabled d) then mret tt
      else
        m ← someIO (write_byte (bytes (PPBuffer d)) (PPBackupOnce d) NUL);
        update_pp (set_PPBuffer (PPBackupTwice d) (PPBackupTwice d)
                     (mkBuffer m (PPBackupOnce d) (maximum (PPBuffer d))) d)
  end.

(** The copy, or [NULL]. *)
Definition CopyPPBuffer : P (option string) :=
  b ← pp_field PPBuffer;
  match bytes b with
  | None => mret None
  | Some _ => str ← someIO (c_string (bytes b)); mret (Some str)
  end.
Definition GetPPBuffer : P memory := pp_field (fun d => bytes (PPBuffer d)).

(** A line feed and the indentation; the buffer on the stack is used when the
    size that is needed, a [size_t], is at most its size. *)
Definition indentation (depth : Z) : option string :=
  let needed := size_t (depth + 2) in
  let size := if (PP_CR_FIXED_BUFFER_SIZE <? needed)%Z then needed else PP_CR_FIXED_BUFFER_SIZE in
  if (depth + 2 <=? size)%Z
  then Some (String.string_of_list_ascii (char_of 10 :: replicate (Z.to_nat depth) (char_of 32))) else None.
Definition PPCRAndIndent : P unit :=
  d ← getIO pp_data;
  if negb (PPBufferStatus d) || negb (PPBufferEnabled d) then mret tt
  else buffer ← someIO (indentation (IndentationDepth d)); SavePPBuffer buffer.

Definition IncrementIndentDepth (value : Z) : P unit :=
  d ← getIO pp_data; update_pp (set_IndentationDepth (size_t (IndentationDepth d + value)) d).
Definition DecrementIndentDepth (value : Z) : P unit :=
  d ← getIO pp_data; update_pp (set_IndentationDepth (size_t (IndentationDepth d - value)) d).
Definition SetIndentDepth (value : Z) : P unit :=
  d ← getIO pp_data; update_pp (set_IndentationDepth value d).
Definition SetPPBufferStatus (value : bool) : P unit :=
  d ← getIO pp_data; update_pp (set_PPBufferStatus value d).
Definition GetPPBufferStatus : P bool := pp_field PPBufferStatus.
Definition SetPPBufferEnabled (value : bool) : P bool :=
  d ← getIO pp_data; _ ← update_pp (set_PPBufferEnabled value d); mret (PPBufferEnabled d).
Definition GetPPBufferEnabled : P bool := pp_field PPBufferEnabled.
End pprint.
