(* ===== verification/Scanner.v ===== *)
(** * The scanner: [scanner.c]

    [GetToken] reads characters through the routers, builds the text of a token
    in [GlobalString], interns its value and its print form in the symbol
    tables and saves the print form in the pretty print buffer.  The state is
    that of the tables, with the routers as their host.  The loops over the
    input take fuel; [None] pointers are [NULL].  Characters are classified as
    in the C locale. *)
From S2P Require Import Prelude Values Router Process Hash SList AtomState Atoms.
From S2P Require Import TextBuffer IOState Routers NumberText PPrint.
#[local] Open Scope Z_scope.

(** ** Characters *)

Definition isalpha (c : Z) : bool := ((65 <=? c) && (c <=? 90)) || ((97 <=? c) && (c <=? 122)).
Definition isprint (c : Z) : bool := (32 <=? c) && (c <=? 126).
Definition isspace (c : Z) : bool := (c =? 32) || ((9 <=? c) && (c <=? 13)).

Definition semicolon : Z := 59.
Definition left_parenthesis : Z := 40.
Definition right_parenthesis : Z := 41.
Definition question_mark : Z := 63.
Definition dollar : Z := 36.
Definition asterisk : Z := 42.
Definition less_than : Z := 60.
Definition left_bracket : Z := 91.
Definition right_bracket : Z := 93.
Definition ampersand : Z := 38.
Definition vertical_bar : Z := 124.
Definition tilde : Z := 126.
Definition space : Z := 32.
Definition carriage_return : Z := 13.

(** The characters that end a symbol or a number. *)
Definition delimiter (c : Z) : bool :=
  (c =? less_than) || (c =? quote) || (c =? left_parenthesis) || (c =? right_parenthesis) ||
  (c =? ampersand) || (c =? vertical_bar) || (c =? tilde) || (c =? space) || (c =? semicolon).

(** ** Tokens *)

Inductive TokenType :=
  | SYMBOL_TOKEN | STRING_TOKEN | INSTANCE_NAME_TOKEN | FLOAT_TOKEN | INTEGER_TOKEN
  | LEFT_PARENTHESIS_TOKEN | RIGHT_PARENTHESIS_TOKEN
  | SF_VARIABLE_TOKEN | MF_VARIABLE_TOKEN | GBL_VARIABLE_TOKEN
  | SF_WILDCARD_TOKEN | MF_WILDCARD_TOKEN | MF_GBL_VARIABLE_TOKEN
  | NOT_CONSTRAINT_TOKEN | AND_CONSTRAINT_TOKEN | OR_CONSTRAINT_TOKEN
  | STOP_TOKEN | UNKNOWN_VALUE_TOKEN.
#[export] Instance TokenType_eq_dec : EqDecision TokenType.
Proof. solve_decision. Defined.

(** [struct token] *)
Record token := mkToken { tknType : TokenType; tkn_value : option ptr; printForm : string }.

Definition GBL_VARIABLE : Z := 33.
Definition MF_GBL_VARIABLE : Z := 34.
Definition SF_VARIABLE : Z := 35.
Definition MF_VARIABLE : Z := 36.
Definition TokenTypeToType (theType : TokenType) : Z :=
  match theType with
  | FLOAT_TOKEN => FLOAT_TYPE
  | INTEGER_TOKEN => INTEGER_TYPE
  | SYMBOL_TOKEN => SYMBOL_TYPE
  | STRING_TOKEN => STRING_TYPE
  | INSTANCE_NAME_TOKEN => INSTANCE_NAME_TYPE
  | SF_VARIABLE_TOKEN => SF_VARIABLE
  | MF_VARIABLE_TOKEN => MF_VARIABLE
  | GBL_VARIABLE_TOKEN => GBL_VARIABLE
  | MF_GBL_VARIABLE_TOKEN => MF_GBL_VARIABLE
  | _ => VOID_TYPE
  end.
Definition CopyToken (source : token) : token := mkToken (tknType source) (tkn_value source) (printForm source).

Section scanner.
Context {W : Type} `{!RouterHost W}.
Abbreviation env := (AtomEnv (IOEnv W)).
Abbreviation P := (P env).
Implicit Types (logicalName : LogicalName).

(** A computation of the routers. *)
Definition io {A} (m : Process.P (IOEnv W) A) : P A := fun s =>
  match m (host s) with
  | Returned a h => Returned a (put_host h s)
  | Exited c h => Exited c (put_host h s)
  | Undefined => Undefined
  end.

Definition Read logicalName : P Z := io (ReadRouter logicalName).
Definition Unread logicalName (ch : Z) : P unit := _ ← io (UnreadRouter logicalName ch); mret tt.

(** ** [GlobalString] *)

Definition get_global : P Buffer := getsP (fun s => GlobalBuffer (scanner_data (host s))).
Definition put_global (b : Buffer) : P unit :=
  io (modifyIO (fun h => put_scanner_data (set_GlobalBuffer b (scanner_data h)) h)).
Definition add_global (inchar : Z) : P unit :=
  b ← get_global; b' ← someP (expand inchar b); put_global b'.
(** The string it points to, from an offset on. *)
Definition global_string (i : nat) : P (option string) :=
  b ← get_global;
  match bytes b with
  | None => if (i =? 0)%nat then mret None else someP None
  | Some cells => if (i <=? length cells)%nat then str ← someP (string_from (drop i cells)); mret (Some str) else someP None
  end.
Definition global_byte (i : nat) : P byte := b ← get_global; someP (read_byte (bytes b) i).
Definition set_global_byte (i : nat) (c : byte) : P unit :=
  b ← get_global; m ← someP (write_byte (bytes b) i c); put_global (mkBuffer m (position b) (maximum b)).

(** A name in [GlobalString] without its first and its last character, which
    is put back as [c]. *)
Definition inner_name (create : option string → P ptr) (count : nat) (c : Z) : P ptr :=
  _ ← set_global_byte (count - 1) NUL;
  str ← global_string 1;
  p ← create str;
  _ ← set_global_byte (count - 1) (char_of c);
  mret p.

(** The [contents] of a lexeme. *)
Definition lexeme_text (p : ptr) : P string :=
  n ← node p; someP (match contents n with ALexeme _ str => Some str | _ => None end).

(** [StringPrintForm], [AppendStrings], [FloatToString] and [LongIntegerToString]:
    the contents of a new string. *)
Definition created_string (str : option string) : P string :=
  str ← someP str; p ← CreateString (Some str); lexeme_text p.
Definition StringPrintForm (str : string) : P string := created_string (string_print_form str).
Definition AppendStrings (str1 str2 : string) : P string := created_string (append_strings str1 str2).
Definition FloatToString (w : Z) : P string := created_string (Some (float_to_string w)).
Definition LongIntegerToString (number : Z) : P string := created_string (Some (integer_to_string number)).

(** ** [ScanSymbol] *)

Definition symbol_char (inchar : Z) : bool :=
  negb (delimiter inchar) && (IsUTF8MultiByteStart inchar || IsUTF8MultiByteContinuation inchar || isprint inchar).

Fixpoint symbol_loop (fuel : nat) logicalName (count : nat) (inchar : Z) : P (nat * Z) :=
  match fuel with
  | O => someP None
  | S fuel' =>
      if symbol_char inchar then
        _ ← add_global inchar;
        inchar ← Read logicalName;
        symbol_loop fuel' logicalName (count + 1) inchar
      else mret (count, inchar)
  end.

Definition ScanSymbol (fuel : nat) logicalName (count : nat) : P (ptr * TokenType) :=
  inchar ← Read logicalName;
  '(count, inchar) ← symbol_loop fuel logicalName count inchar;
  _ ← Unread logicalName inchar;
  if (2 <? count)%nat then
    first ← global_byte 0;
    bracketed ← (if code_of first =? left_bracket
                 then last ← global_byte (count - 1); mret (code_of last =? right_bracket) else mret false);
    if bracketed : bool then
      symbol ← inner_name CreateInstanceName count right_bracket;
      mret (symbol, INSTANCE_NAME_TOKEN)
    else str ← global_string 0; p ← CreateSymbol str; mret (p, SYMBOL_TOKEN)
  else str ← global_string 0; p ← CreateSymbol str; mret (p, SYMBOL_TOKEN).

(** ** [ScanString] *)

Fixpoint string_loop (fuel : nat) logicalName (b : Buffer) (inchar : Z) : P (Buffer * Z) :=
  match fuel with
  | O => someP None
  | S fuel' =>
      if (inchar =? quote) || (inchar =? EOF) then mret (b, inchar)
      else
        inchar ← (if inchar =? backslash then Read logicalName else mret inchar);
        b' ← someP (expand inchar b);
        inchar ← Read logicalName;
        string_loop fuel' logicalName b' inchar
  end.

Definition UnterminatedString_log : M (list output_item) unit :=
  _ ← PrintErrorID "SCANNER" 1 true;
  Router.WriteString STDERR ("Encountered End-Of-File while scanning a string" +:+ newline).

Definition ScanString (fuel : nat) logicalName : P ptr :=
  inchar ← Read logicalName;
  '(b, inchar) ← string_loop fuel logicalName empty_buffer inchar;
  ignore ← getsP (fun s => IgnoreCompletionErrors (scanner_data (host s)));
  _ ← whenP ((inchar =? EOF) && negb ignore) (io (report UnterminatedString_log));
  match bytes b with
  | None => CreateString (Some "")
  | Some _ => str ← someP (c_string (bytes b)); CreateString (Some str)
  end.

(** ** [ScanNumber] *)

Definition SIGN : Z := -1.
Definition INTEGRAL : Z := 0.
Definition DECIMAL : Z := 1.
Definition EXPONENT_BEGIN : Z := 2.
Definition EXPONENT_VALUE : Z := 3.
Definition DONE : Z := 5.
Definition ERROR : Z := 9.

Definition is_sign (c : Z) : bool := (c =? plus_sign) || (c =? minus_sign).
Definition is_e (c : Z) : bool := (c =? upper_e) || (c =? lower_e).
(** The end of a number after its first character. *)
Definition ends_number (c : Z) : bool := delimiter c || (negb (IsUTF8MultiByteStart c) && negb (isprint c)).

(** One character: the phase, [digitFound], [processFloat], and whether the
    character is added to the string.  [sign_last] tells whether the last
    character of the string is a sign. *)
Definition number_step (phase : Z) (digitFound processFloat sign_last : bool) (inchar : Z) : Z * bool * bool * bool :=
  if phase =? SIGN then
    if isdigit inchar then (INTEGRAL, true, processFloat, true)
    else if is_sign inchar then (INTEGRAL, digitFound, processFloat, true)
    else if inchar =? point then (DECIMAL, digitFound, true, true)
    else if is_e inchar then (EXPONENT_BEGIN, digitFound, true, true)
    else if delimiter inchar || negb (isprint inchar) then (DONE, digitFound, processFloat, false)
    else (ERROR, digitFound, processFloat, true)
  else if phase =? INTEGRAL then
    if isdigit inchar then (INTEGRAL, true, processFloat, true)
    else if inchar =? point then (DECIMAL, digitFound, true, true)
    else if is_e inchar then (EXPONENT_BEGIN, digitFound, true, true)
    else if ends_number inchar then (DONE, digitFound, processFloat, false)
    else (ERROR, digitFound, processFloat, true)
  else if phase =? DECIMAL then
    if isdigit inchar then (DECIMAL, true, processFloat, true)
    else if is_e inchar then (EXPONENT_BEGIN, digitFound, processFloat, true)
    else if ends_number inchar then (DONE, digitFound, processFloat, false)
    else (ERROR, digitFound, processFloat, true)
  else if phase =? EXPONENT_BEGIN then
    if isdigit inchar then (EXPONENT_VALUE, digitFound, processFloat, true)
    else if is_sign inchar then (EXPONENT_VALUE, digitFound, processFloat, true)
    else if ends_number inchar then (DONE, false, processFloat, false)
    else (ERROR, digitFound, processFloat, true)
  else
    if isdigit inchar then (EXPONENT_VALUE, digitFound, processFloat, true)
    else if ends_number inchar then (DONE, if sign_last then false else digitFound, processFloat, false)
    else (ERROR, digitFound, processFloat, true).

(** [GlobalString[count-1]], read only at the end of an exponent. *)
Definition sign_is_last (phase : Z) (count : nat) (inchar : Z) : P bool :=
  if (phase =? EXPONENT_VALUE) && negb (isdigit inchar) && ends_number inchar
  then c ← global_byte (count - 1); mret (is_sign (code_of c)) else mret false.

Fixpoint number_loop (fuel : nat) logicalName (phase : Z) (digitFound processFloat : bool) (count : nat) (inchar : Z)
    : P (Z * bool * bool * nat * Z) :=
  match fuel with
  | O => someP None
  | S fuel' =>
      if (phase =? DONE) || (phase =? ERROR) then mret (phase, digitFound, processFloat, count, inchar)
      else
        sign_last ← sign_is_last phase count inchar;
        let '(phase, digitFound, processFloat, added) := number_step phase digitFound processFloat sign_last inchar in
        _ ← whenP added (add_global inchar);
        let count := if added then (count + 1)%nat else count in
        inchar ← (if negb (phase =? DONE) && negb (phase =? ERROR) then Read logicalName else mret inchar);
        number_loop fuel' logicalName phase digitFound processFloat count inchar
  end.

Definition IntegerOverflow_log : M (list output_item) unit :=
  _ ← PrintWarningID "SCANNER" 1 false;
  Router.WriteString STDWRN ("Over or underflow of long long integer." +:+ newline).

Definition ScanNumber (fuel : nat) logicalName : P token :=
  inchar ← Read logicalName;
  '(phase, digitFound, processFloat, count, inchar) ← number_loop fuel logicalName SIGN false false 0 inchar;
  if phase =? ERROR then
    '(p, type) ← ScanSymbol fuel logicalName count;
    str ← lexeme_text p;
    mret (mkToken type (Some p) str)
  else
    _ ← Unread logicalName inchar;
    if negb digitFound then
      str ← global_string 0;
      p ← CreateSymbol str;
      str ← lexeme_text p;
      mret (mkToken SYMBOL_TOKEN (Some p) str)
    else
      str ← global_string 0;
      str ← someP str;
      if processFloat : bool then
        let fvalue := bits_of_double (atof (chars str)) in
        p ← CreateFloat fvalue;
        form ← FloatToString fvalue;
        mret (mkToken FLOAT_TOKEN (Some p) form)
      else
        let '(lvalue, errno) := strtoll (chars str) in
        _ ← whenP errno (io (report IntegerOverflow_log));
        p ← CreateInteger lvalue;
        form ← LongIntegerToString lvalue;
        mret (mkToken INTEGER_TOKEN (Some p) form).

(** ** [GetToken] *)

Definition white_space (c : Z) : bool :=
  (c =? space) || (c =? linefeed) || (c =? 12) || (c =? carriage_return) || (c =? semicolon) || (c =? 9).

Fixpoint skip_comment (fuel : nat) logicalName (inchar : Z) : P Z :=
  match fuel with
  | O => someP None
  | S fuel' =>
      if (inchar =? linefeed) || (inchar =? carriage_return) || (inchar =? EOF) then mret inchar
      else inchar ← Read logicalName; skip_comment fuel' logicalName inchar
  end.
Fixpoint skip_white_space (fuel : nat) logicalName (inchar : Z) : P Z :=
  match fuel with
  | O => someP None
  | S fuel' =>
      if white_space inchar then
        _ ← (if inchar =? semicolon
             then inchar ← Read logicalName; _ ← skip_comment fuel logicalName inchar; mret tt else mret tt);
        inchar ← Read logicalName;
        skip_white_space fuel' logicalName inchar
      else mret inchar
  end.

Definition starts_name (c : Z) : bool := isalpha c || IsUTF8MultiByteStart c.

Definition InvalidVariable_log (buffer : string) : M (list output_item) unit :=
  _ ← PrintErrorID "SCANNER" 2 true;
  _ ← Router.WriteString STDERR "The character '";
  _ ← Router.WriteString STDERR buffer;
  Router.WriteString STDERR ("' is not valid as the first character of a variable name." +:+ newline).

(** The rest of a variable or of a wildcard after its [prefix], ["?"] or ["$?"]. *)
Definition scan_variable (fuel : nat) logicalName (prefix : string) (variable global wildcard : TokenType) : P token :=
  inchar ← Read logicalName;
  if starts_name inchar || (inchar =? asterisk) then
    _ ← Unread logicalName inchar;
    '(p, _) ← ScanSymbol fuel logicalName 0;
    str ← lexeme_text p;
    let cs := chars str in
    if bool_decide (cs !! 0%nat = Some (char_of asterisk)) && (1 <? length cs)%nat
       && bool_decide (last cs = Some (char_of asterisk)) then
      form ← AppendStrings prefix str;
      s ← global_string 0;
      s ← someP s;
      name ← inner_name CreateSymbol (String.length s) inchar;
      mret (mkToken global (Some name) form)
    else
      form ← AppendStrings prefix str;
      mret (mkToken variable (Some p) form)
  else if isprint inchar && negb (isspace inchar) && negb (inchar =? left_parenthesis)
          && negb (inchar =? right_parenthesis) then
    let buffer := String (char_of inchar) "" in
    _ ← io (report (InvalidVariable_log buffer));
    form ← AppendStrings prefix buffer;
    mret (mkToken STOP_TOKEN None form)
  else
    p ← CreateSymbol (Some prefix);
    _ ← Unread logicalName inchar;
    mret (mkToken wildcard (Some p) prefix).

(** A token of one character, whose value is a string. *)
Definition punctuation (type : TokenType) (str : string) : P token :=
  p ← CreateString (Some str); mret (mkToken type (Some p) str).

(** A symbol, or an instance name, in progress. *)
Definition symbol_token (fuel : nat) logicalName (count : nat) (force : bool) : P token :=
  '(p, type) ← ScanSymbol fuel logicalName count;
  str ← lexeme_text p;
  mret (mkToken (if force then SYMBOL_TOKEN else type) (Some p) str).

Definition scan_token (fuel : nat) logicalName (inchar : Z) : P token :=
  if starts_name inchar then
    _ ← Unread logicalName inchar; symbol_token fuel logicalName 0 true
  else if isdigit inchar then
    _ ← Unread logicalName inchar; ScanNumber fuel logicalName
  else if inchar =? quote then
    p ← ScanString fuel logicalName;
    str ← lexeme_text p;
    form ← StringPrintForm str;
    mret (mkToken STRING_TOKEN (Some p) form)
  else if (inchar =? minus_sign) || (inchar =? point) || (inchar =? plus_sign) then
    _ ← Unread logicalName inchar; ScanNumber fuel logicalName
  else if inchar =? question_mark then
    scan_variable fuel logicalName "?" SF_VARIABLE_TOKEN GBL_VARIABLE_TOKEN SF_WILDCARD_TOKEN
  else if inchar =? dollar then
    inchar ← Read logicalName;
    if inchar =? question_mark then
      scan_variable fuel logicalName "$?" MF_VARIABLE_TOKEN MF_GBL_VARIABLE_TOKEN MF_WILDCARD_TOKEN
    else
      _ ← add_global dollar;
      _ ← Unread logicalName inchar;
      symbol_token fuel logicalName 1 true
  else if inchar =? less_than then
    _ ← add_global less_than; symbol_token fuel logicalName 1 true
  else if inchar =? left_parenthesis then punctuation LEFT_PARENTHESIS_TOKEN "("
  else if inchar =? right_parenthesis then punctuation RIGHT_PARENTHESIS_TOKEN ")"
  else if inchar =? tilde then punctuation NOT_CONSTRAINT_TOKEN "~"
  else if inchar =? vertical_bar then punctuation OR_CONSTRAINT_TOKEN "|"
  else if inchar =? ampersand then punctuation AND_CONSTRAINT_TOKEN "&"
  else if (inchar =? EOF) || (inchar =? 0) || (inchar =? 3) then
    p ← CreateSymbol (Some "stop"); mret (mkToken STOP_TOKEN (Some p) "")
  else if isprint inchar then
    _ ← Unread logicalName inchar; symbol_token fuel logicalName 0 false
  else mret (mkToken UNKNOWN_VALUE_TOKEN None "<<<unprintable character>>>").

Definition GetToken (fuel : nat) logicalName : P token :=
  b ← get_global;
  _ ← put_global (mkBuffer (bytes b) 0 0);
  inchar ← Read logicalName;
  inchar ← skip_white_space fuel logicalName inchar;
  theToken ← scan_token fuel logicalName inchar;
  _ ← (if bool_decide (tknType theToken = INSTANCE_NAME_TOKEN) then
         _ ← io (SavePPBuffer "[");
         _ ← io (SavePPBuffer (printForm theToken));
         io (SavePPBuffer "]")
       else io (SavePPBuffer (printForm theToken)));
  b ← get_global;
  _ ← (match bytes b with Some _ => put_global empty_buffer | None => mret tt end);
  mret theToken.
End scanner.
