(* ===== verification/RouterProofs.v ===== *)
(** * Dispatch on the routers

    The list of routers stays sorted by descending priority with distinct
    names; a request goes to the first active router that has the callback and
    answers the query, and messages nest at most once.

    Then string destinations and builders, and string sources, an instance of
    the interface [CharSource]. *)
From Stdlib Require Import Sorting.Sorted.
From S2P Require Import Prelude Values Router Process Hash TextBuffer TextProofs IOState StringRouters.
From S2P Require Import Routers.
#[local] Open Scope Z_scope.

(** ** The list of routers *)

Definition higher (r1 r2 : router) : Prop := priority r2 <= priority r1.
Record routers_ok (l : list router) : Prop := {
  ro_names : NoDup (router_name <$> l);
  ro_sorted : StronglySorted higher l;
}.

Lemma name_in_use_spec n l : name_in_use n l = bool_decide (n ∈ router_name <$> l).
Proof.
  induction l as [|r l IH]; [done|]. cbn [name_in_use fmap list_fmap]. rewrite IH.
  destruct (String.eqb_spec (router_name r) n) as [E|E]; symmetry.
  - rewrite bool_decide_true by (rewrite E; apply list_elem_of_here). done.
  - cbn [orb]. apply bool_decide_ext. rewrite elem_of_cons. naive_solver.
Qed.

Lemma insert_router_split r l : StronglySorted higher l →
  ∃ l1 l2, l = l1 ++ l2 ∧ insert_router r l = l1 ++ r :: l2 ∧
    (∀ x, x ∈ l1 → priority r < priority x) ∧ (∀ x, x ∈ l2 → priority x <= priority r).
Proof.
  induction 1 as [|x l Hs IH Hx]; [by exists [], []; set_solver|]. cbn [insert_router].
  destruct (Z.ltb_spec (priority r) (priority x)) as [Hlt|Hge].
  - destruct IH as (l1 & l2 & -> & -> & H1 & H2). exists (x :: l1), l2. split_and!; [done..| |done].
    intros y [->|Hy]%elem_of_cons; auto.
  - exists [], (x :: l). split_and!; [done..|set_solver|]. intros y [->|Hy]%elem_of_cons; [done|].
    rewrite List.Forall_forall in Hx. specialize (Hx y). rewrite <- list_elem_of_In in Hx. specialize (Hx Hy). unfold higher in Hx. lia.
Qed.

Lemma StronglySorted_app_intro l1 l2 : StronglySorted higher l1 → StronglySorted higher l2 →
  (∀ x y, x ∈ l1 → y ∈ l2 → higher x y) → StronglySorted higher (l1 ++ l2).
Proof.
  induction 1 as [|x l1 Hs IH Hx]; intros H2 H3; [done|]. cbn. constructor.
  - apply IH; [done|]. intros a b Ha Hb. apply H3; [by apply list_elem_of_further|done].
  - apply Forall_app. split; [done|]. apply Forall_forall. intros b Hb. apply H3; [apply list_elem_of_here|done].
Qed.

Lemma insert_router_ok r l : routers_ok l → router_name r ∉ router_name <$> l → routers_ok (insert_router r l).
Proof.
  intros [Hn Hs] Hr. destruct (insert_router_split r l Hs) as (l1 & l2 & -> & -> & H1 & H2).
  destruct (StronglySorted_app_inv _ _ _ Hs) as (Hs1 & Hs2 & H3). split.
  - rewrite fmap_app in *. cbn [fmap list_fmap] in *. apply NoDup_Permutation_proper with (router_name r :: (router_name <$> l1) ++ (router_name <$> l2)).
    { by rewrite Permutation_middle. }
    by constructor.
  - apply StronglySorted_app_intro; [done| |].
    + constructor; [done|]. apply Forall_forall. exact H2.
    + intros x y Hx [->|Hy]%elem_of_cons; [specialize (H1 x Hx); unfold higher; lia|by apply H3].
Qed.

Lemma delete_router_split n l : match delete_router n l with
  | Some l' => ∃ l1 r l2, l = l1 ++ r :: l2 ∧ l' = l1 ++ l2 ∧ router_name r = n ∧ n ∉ router_name <$> l1
  | None => n ∉ router_name <$> l
  end.
Proof.
  induction l as [|r l IH]; [cbn; set_solver|]. cbn [delete_router].
  destruct (String.eqb_spec (router_name r) n) as [E|E].
  - exists [], r, l. split_and!; [done..|set_solver].
  - destruct (delete_router n l) as [l'|]; cbn [fmap option_fmap option_map].
    + destruct IH as (l1 & x & l2 & -> & -> & Hx & Hn). exists (r :: l1), x, l2. split_and!; try done. set_solver.
    + cbn [fmap list_fmap]. set_solver.
Qed.
Lemma delete_router_ok n l l' : routers_ok l → delete_router n l = Some l' → routers_ok l'.
Proof.
  intros [Hn Hs] Hd. pose proof (delete_router_split n l) as H. rewrite Hd in H.
  destruct H as (l1 & r & l2 & -> & -> & _). split.
  - rewrite fmap_app in *. cbn [fmap list_fmap] in Hn. rewrite NoDup_app in *. destruct Hn as (H1 & H2 & H3).
    apply NoDup_cons in H3 as [_ H3]. split_and!; [done| |done]. set_solver.
  - destruct (StronglySorted_app_inv _ _ _ Hs) as (Hs1 & Hs2 & H3). apply StronglySorted_inv in Hs2 as [Hs2 _].
    apply StronglySorted_app_intro; [done..|]. intros x y Hx Hy. apply H3; [done|by apply list_elem_of_further].
Qed.

Lemma set_router_active_split v n l : match set_router_active v n l with
  | Some l' => ∃ l1 r l2, l = l1 ++ r :: l2 ∧ l' = l1 ++ set_active v r :: l2 ∧ router_name r = n ∧ n ∉ router_name <$> l1
  | None => n ∉ router_name <$> l
  end.
Proof.
  induction l as [|r l IH]; [cbn; set_solver|]. cbn [set_router_active].
  destruct (String.eqb_spec (router_name r) n) as [E|E].
  - exists [], r, l. split_and!; [done..|set_solver].
  - destruct (set_router_active v n l) as [l'|]; cbn [fmap option_fmap option_map].
    + destruct IH as (l1 & x & l2 & -> & -> & Hx & Hn). exists (r :: l1), x, l2. split_and!; try done. set_solver.
    + cbn [fmap list_fmap]. set_solver.
Qed.
Lemma set_router_active_ok v n l l' : routers_ok l → set_router_active v n l = Some l' → routers_ok l'.
Proof.
  intros [Hn Hs] Ha. pose proof (set_router_active_split v n l) as H. rewrite Ha in H.
  destruct H as (l1 & r & l2 & -> & -> & _). split.
  - by rewrite fmap_app in *.
  - destruct (StronglySorted_app_inv _ _ _ Hs) as (Hs1 & Hs2 & H3). apply StronglySorted_inv in Hs2 as [Hs2 Hf].
    apply StronglySorted_app_intro; [done|by constructor|].
    intros x y Hx [->|Hy]%elem_of_cons; [by apply (H3 x r Hx), list_elem_of_here|by apply H3, list_elem_of_further].
Qed.

(** ** Hosts *)

(** What the routers rely on of the other callbacks: they return, and a query
    only answers.  The answer may depend on the rest of the system. *)
Class HostLaws (W : Type) `{!RouterHost W} := {
  answers : ptr → LogicalName → option ptr → W → bool;
  query_law f n c w : host_query f n c w = Some (answers f n c w, w);
  write_law f n str c w : ∃ w', host_write f n str c w = Some (tt, w');
  read_law f n c w : ∃ z w', host_read f n c w = Some (z, w');
  unread_law f n z c w : ∃ z' w', host_unread f n z c w = Some (z', w');
}.

Section dispatch.
Context {W : Type} `{!RouterHost W} `{!HostLaws W}.
Implicit Types (h : IOEnv W) (r : router).

Definition string_known h (n : string) : bool := bool_decide (is_Some (find_string_router n (ListOfStringRouters h))).
Definition builder_known h (n : string) : bool := bool_decide (is_Some (find_builder_router n (ListOfStringBuilderRouters h))).

(** Whether a router answers for a name. *)
Definition responds h (a : ptr) (n : string) r : bool :=
  active r &&
  match queryCallback r with
  | None => false
  | Some QueryStringCallback => string_known h n
  | Some QueryStringBuilderCallback => builder_known h n
  | Some (HostQuery f) => answers f (LName a n) (context r) (world h)
  end.

Lemma QueryRouter_eq a n r h : QueryRouter (LName a n) r h = Returned (responds h a n r) h.
Proof.
  unfold QueryRouter, responds. destruct (active r); [|done]. cbn [negb andb].
  destruct (queryCallback r) as [[| |f]|]; [| | |done].
  - unfold query_string_callback, string_known. unfold mbind, P_bind, getIO. by destruct (ListOfStringRouters h).
  - unfold query_builder_callback, builder_known. unfold mbind, P_bind, getIO. by destruct (ListOfStringBuilderRouters h).
  - unfold on_world. rewrite query_law. by destruct h.
Qed.

(** The router a request goes to. *)
Definition first_responder {A} (callback : router → option A) h (a : ptr) (n : string) : option (router * A) :=
  head (omap (fun r => if responds h a n r then pair r <$> callback r else None) (ListOfRouters (router_data h))).

Lemma recognizer_eq {A} (callback : router → option A) a n h :
  recognizer callback (LName a n) h = Returned (first_responder callback h a n) h.
Proof.
  unfold recognizer, first_responder, router_field. unfold mbind at 1, P_bind at 1, getIO.
  induction (ListOfRouters (router_data h)) as [|r l IH]; [done|]. cbn [find_recognizer omap list_omap].
  destruct (callback r) as [c|]; cycle 1.
  { rewrite IH. by destruct (responds h a n r). }
  unfold mbind, P_bind in *. rewrite QueryRouter_eq. by destruct (responds h a n r).
Qed.

Lemma first_responder_Some {A} (callback : router → option A) h a n r c :
  first_responder callback h a n = Some (r, c) → ∃ l1 l2, ListOfRouters (router_data h) = l1 ++ r :: l2 ∧
    responds h a n r = true ∧ callback r = Some c ∧ ∀ x, x ∈ l1 → responds h a n x = false ∨ callback x = None.
Proof.
  unfold first_responder. induction (ListOfRouters (router_data h)) as [|x l IH]; [done|]. cbn [omap list_omap].
  destruct (responds h a n x) eqn:E; [destruct (callback x) as [c'|] eqn:Ec|]; cbn [fmap option_fmap option_map].
  - cbn. intros [= -> ->]. exists [], l. split_and!; [done..|set_solver].
  - intros (l1 & l2 & -> & H)%IH. exists (x :: l1), l2. split_and!; try apply H; [done|].
    intros y [->|Hy]%elem_of_cons; [by right|by apply H].
  - intros (l1 & l2 & -> & H)%IH. exists (x :: l1), l2. split_and!; try apply H; [done|].
    intros y [->|Hy]%elem_of_cons; [by left|by apply H].
Qed.
Lemma first_responder_None {A} (callback : router → option A) h a n :
  first_responder callback h a n = None → ∀ x, x ∈ ListOfRouters (router_data h) → responds h a n x = false ∨ callback x = None.
Proof.
  unfold first_responder. induction (ListOfRouters (router_data h)) as [|x l IH]; [set_solver|]. cbn [omap list_omap].
  destruct (responds h a n x) eqn:E; [destruct (callback x) as [c'|] eqn:Ec|]; cbn [fmap option_fmap option_map]; [done| |];
    intros H y [->|Hy]%elem_of_cons; auto.
Qed.

(** The one chosen has the highest priority of all that could take the request. *)
Lemma first_responder_highest {A} (callback : router → option A) h a n r c x :
  routers_ok (ListOfRouters (router_data h)) → first_responder callback h a n = Some (r, c) →
  x ∈ ListOfRouters (router_data h) → responds h a n x = true → callback x ≠ None → priority x <= priority r.
Proof.
  intros [_ Hs] (l1 & l2 & E & _ & _ & H1)%first_responder_Some Hx Hr Hc. rewrite E in *.
  apply elem_of_app in Hx as [Hx|Hx]; [destruct (H1 x Hx); congruence|].
  apply elem_of_cons in Hx as [->|Hx]; [done|].
  apply StronglySorted_app_inv in Hs as (_ & Hs & _). apply StronglySorted_inv in Hs as [_ Hs].
  rewrite Forall_forall in Hs. by apply Hs.
Qed.

(** ** Nesting of messages *)

Lemma call_write_failure_free write1 write2 h r w a n str :
  first_responder writeCallback h a n = Some (r, w) →
  (w = WriteStringCallback → string_known h n = true) → (w = WriteStringBuilderCallback → builder_known h n = true) →
  call_write write1 r w (LName a n) str h = call_write write2 r w (LName a n) str h.
Proof.
  intros _ H1 H2. unfold call_write. destruct w as [| |f]; [| |done].
  - specialize (H1 eq_refl). unfold string_known in H1. apply bool_decide_eq_true_1 in H1 as [x Hx].
    unfold write_string_callback, FindStringRouter, someIO, name_of. unfold mbind, P_bind, getIO. cbn. by rewrite Hx.
  - specialize (H2 eq_refl). unfold builder_known in H2. apply bool_decide_eq_true_1 in H2 as [x Hx].
    unfold write_builder_callback, FindStringBuilderRouter, someIO, name_of. unfold mbind, P_bind, getIO. cbn. by rewrite Hx.
Qed.

(** A router with a string callback has the query of the same kind, as
    [InitializeStringRouter] installs them. *)
Definition paired r : Prop :=
  (writeCallback r = Some WriteStringCallback → queryCallback r = Some QueryStringCallback) ∧
  (writeCallback r = Some WriteStringBuilderCallback → queryCallback r = Some QueryStringBuilderCallback) ∧
  (readCallback r = Some ReadStringCallback → queryCallback r = Some QueryStringCallback) ∧
  (unreadCallback r = Some UnreadStringCallback → queryCallback r = Some QueryStringCallback).
Definition all_paired h : Prop := ∀ r, r ∈ ListOfRouters (router_data h) → paired r.

Lemma responder_known h a n r w : all_paired h → first_responder writeCallback h a n = Some (r, w) →
  (w = WriteStringCallback → string_known h n = true) ∧ (w = WriteStringBuilderCallback → builder_known h n = true).
Proof.
  intros Hp (l1 & l2 & E & Hr & Hw & _)%first_responder_Some.
  assert (paired r) as (P1 & P2 & _) by (apply Hp; rewrite E; set_solver).
  unfold responds in Hr. apply andb_true_iff in Hr as [_ Hr].
  split; intros ->; [rewrite P1 in Hr by done|rewrite P2 in Hr by done]; done.
Qed.
End dispatch.

(** * Output through the routers

    [WriteString] hands its text to the router it finds; a string destination
    keeps what fits in its array, a string builder keeps everything. *)

#[local] Open Scope nat_scope.

(** ** Loops *)

Lemma forM_ext_inv {St A} (I : St → Prop) (l : list A) (f g : A → P St unit) s :
  (∀ x s, I s → f x s = g x s) → (∀ x s s', I s → f x s = Returned tt s' → I s') → I s → forM l f s = forM l g s.
Proof.
  intros Hfg HI. revert s. induction l as [|x l IH]; intros s Hs; [done|]. cbn [forM].
  unfold mbind, P_bind. rewrite <- (Hfg x s Hs). destruct (f x s) as [[] s'| |] eqn:E; [|done..]. apply IH. by eapply HI.
Qed.

Section output.
Context {W : Type} `{!RouterHost W} `{!HostLaws W}.
Implicit Types (h : IOEnv W) (r : router).

(** ** Dispatch *)

(** The callbacks of a router that was found do not fail. *)
Definition no_report : LogicalName → string → P (IOEnv W) unit := fun _ _ => someIO None.

Lemma write_string_found k h a n str r w : all_paired h → first_responder writeCallback h a n = Some (r, w) →
  write_string (S k) (LName a n) str h = call_write no_report r w (LName a n) str h.
Proof.
  intros Hp Hf. cbn [write_string]. unfold mbind at 1, P_bind at 1, router_field, getIO. cbn [is_file].
  unfold mbind at 1, P_bind at 1. rewrite recognizer_eq, Hf.
  apply (call_write_failure_free _ _ _ _ _ _ _ _ Hf); by eapply responder_known.
Qed.
Lemma write_string_lost k h a n str : first_responder writeCallback h a n = None →
  write_string (S k) (LName a n) str h =
  if String.eqb STDERR n then Returned tt h else report_with (write_string k) (UnrecognizedRouterMessage_log n) h.
Proof.
  intros Hf. cbn [write_string]. unfold mbind at 1, P_bind at 1, router_field, getIO. cbn [is_file].
  unfold mbind at 1, P_bind at 1. rewrite recognizer_eq, Hf. unfold mbind at 1, P_bind at 1. cbn [someIO name_of].
  by destruct (String.eqb STDERR n).
Qed.

Lemma no_report_fails h : report_with no_report (SystemError "ROUTER" 3) h = Undefined.
Proof. reflexivity. Qed.
Lemma call_write_router_data h a n str r w h' :
  call_write no_report r w (LName a n) str h = Returned tt h' → router_data h' = router_data h.
Proof.
  unfold call_write. set (failure := mbind _ (report_with _ _)).
  assert (failure h = Undefined) as Hfail by (subst failure; unfold mbind, P_bind; by rewrite no_report_fails).
  clearbody failure. destruct w as [| |f].
  - unfold write_string_callback, FindStringRouter, array_strncpy, update_string_router, someIO, name_of.
    unfold mbind, P_bind, getIO, modifyIO. cbn. destruct (find_string_router _ _) as [sr|]; [|by rewrite Hfail].
    destruct (negb _); [by intros [= <-]|]. destruct (_ =? 0); [by intros [= <-]|]. case_match; [by intros [= <-]|].
    destruct (writeString sr); [|done]. destruct (arrays h !! _); [|done]. cbn.
    destruct (write_bytes _ _ _) as [[]|]; [|done..]. by intros [= <-].
  - unfold write_builder_callback, FindStringBuilderRouter, someIO, name_of.
    unfold mbind, P_bind, getIO, modifyIO. cbn. destruct (find_builder_router _ _) as [sr|]; [|by rewrite Hfail].
    destruct (builders h !! _); [|done]. cbn. destruct (SBAppend _ _); [|done]. by intros [= <-].
  - unfold on_world. destruct (host_write _ _ _ _ _) as [[[] w']|]; [|done]. by intros [= <-].
Qed.

Lemma write_stderr_depth k h str : all_paired h →
  write_string (S k) (literal STDERR) str h = write_string 1 (literal STDERR) str h.
Proof.
  intros Hp. unfold literal. destruct (first_responder writeCallback h 1 STDERR) as [[r w]|] eqn:E.
  - by rewrite !(write_string_found _ _ _ _ _ _ _ Hp E).
  - by rewrite !(write_string_lost _ _ _ _ _ E).
Qed.
Lemma write_stderr_keeps k h str h' : all_paired h →
  write_string (S k) (literal STDERR) str h = Returned tt h' → router_data h' = router_data h.
Proof.
  intros Hp. unfold literal. destruct (first_responder writeCallback h 1 STDERR) as [[r w]|] eqn:E.
  - rewrite (write_string_found _ _ _ _ _ _ _ Hp E). apply call_write_router_data.
  - rewrite (write_string_lost _ _ _ _ _ E). by intros [= <-].
Qed.

(** A message on [STDERR] alone. *)
Definition on_stderr (m : M (list output_item) unit) : Prop :=
  Forall (fun i => ∃ str, i = OString STDERR str) (log_of m).

Lemma report_depth k m h : on_stderr m → all_paired h →
  report_with (write_string (S k)) m h = report_with (write_string 1) m h.
Proof.
  unfold on_stderr, report_with. intros Hm Hp. revert h Hp. induction Hm as [|i l [str ->] Hm IH]; intros h Hp; [done|].
  cbn [forM]. unfold mbind, P_bind. rewrite (write_stderr_depth k h str Hp).
  destruct (write_string 1 (literal STDERR) str h) as [[] h'| |] eqn:E; [|done..]. apply IH.
  unfold all_paired. by rewrite (write_stderr_keeps _ _ _ _ Hp E).
Qed.

Lemma unrecognized_on_stderr n : on_stderr (UnrecognizedRouterMessage_log n).
Proof. unfold on_stderr. repeat (constructor; [by eexists|]). constructor. Qed.

(** Two levels are enough. *)
Lemma write_string_depth k h a n str : all_paired h →
  write_string (S (S k)) (LName a n) str h = WriteString (LName a n) str h.
Proof.
  intros Hp. unfold WriteString. destruct (first_responder writeCallback h a n) as [[r w]|] eqn:E.
  - by rewrite !(write_string_found _ _ _ _ _ _ _ Hp E).
  - rewrite !(write_string_lost _ _ _ _ _ E). destruct (String.eqb STDERR n); [done|].
    apply report_depth; [apply unrecognized_on_stderr|done].
Qed.

(** ** String destinations *)

(** The array after the text: what fits before the last byte, and zeros. *)
Definition dest_cells (max : nat) (cells : list (option byte)) (l : list byte) : list (option byte) :=
  let t := take (max - 1) l in
  (Some <$> (t ++ replicate (max - 1 - length t) NUL)) ++ drop (max - 1) cells.

(** An open destination in the array [p], with the text written to it so far. *)
Record dest_open (h : IOEnv W) (a : ptr) (n : string) (p : ptr) (max : nat) (cells : list (option byte)) (l : list byte) : Prop := {
  do_paired : all_paired h;
  do_router : ∃ r, first_responder writeCallback h a n = Some (r, WriteStringCallback);
  do_string : ∃ sr, find_string_router n (ListOfStringRouters h) = Some sr ∧ writeString sr = Some p ∧
    maximumPosition sr = max ∧ readWriteType sr = WRITE_STRING ∧
    Nat.min (currentPosition sr) (max - 1) = Nat.min (length l) (max - 1);
  do_array : arrays h !! p = Some cells;
  do_room : max <= length cells;
  do_prefix : take (Nat.min (length l) (max - 1)) cells = Some <$> take (max - 1) l;
}.

Lemma find_update_found n f l sr : (∀ x, sr_name (f x) = sr_name x) →
  find_string_router n l = Some sr → find_string_router n (update_found n f l) = Some (f sr).
Proof.
  intros Hf. induction l as [|x l IH]; [done|]. cbn [find_string_router update_found].
  destruct (String.eqb (sr_name x) n) eqn:E; cbn [find_string_router]; [intros [= ->]|].
  - by rewrite Hf, E.
  - by rewrite E.
Qed.
Lemma known_update_found n' n f l : (∀ x, sr_name (f x) = sr_name x) →
  is_Some (find_string_router n' (update_found n f l)) ↔ is_Some (find_string_router n' l).
Proof.
  intros Hf. induction l as [|x l IH]; [done|]. cbn [find_string_router update_found].
  destruct (String.eqb (sr_name x) n) eqn:E; cbn [find_string_router].
  - rewrite Hf. by destruct (String.eqb (sr_name x) n').
  - by destruct (String.eqb (sr_name x) n').
Qed.

Lemma first_responder_ext {A} (callback : router → option A) h h' a n :
  router_data h' = router_data h → world h' = world h →
  string_known h' n = string_known h n → builder_known h' n = builder_known h n →
  first_responder callback h' a n = first_responder callback h a n.
Proof.
  intros H1 H2 H3 H4. unfold first_responder. rewrite H1. f_equal.
  assert (∀ r, responds h' a n r = responds h a n r) as Hr by (intros r; unfold responds; by rewrite H2, H3, H4).
  induction (ListOfRouters (router_data h)) as [|r l IH]; [done|]. cbn. rewrite Hr. by rewrite IH.
Qed.

Lemma dest_cells_take (max : nat) cells l w :
  take (max - 1) l = l → length l <= max - 1 →
  (Some <$> (l ++ padded w (max - length l - 1))) ++ drop (max - 1) cells = dest_cells max cells (l ++ chars w).
Proof.
  intros Ht Hl. unfold dest_cells, padded. f_equal. f_equal. rewrite !take_app, !(take_ge l) by lia. rewrite <- app_assoc. f_equal.
  replace (max - length l - 1) with (max - 1 - length l) by lia. f_equal.
  rewrite take_replicate, length_app, length_take. f_equal. lia.
Qed.

(** One write: the array holds the text as far as it fits, and nothing else changes. *)
Lemma WriteString_dest h a n p max cells l str : dest_open h a n p max cells l → ∃ h',
  WriteString (LName a n) str h = Returned tt h' ∧
  dest_open h' a n p max (if length l <? max - 1 then dest_cells max cells (l ++ chars str) else cells) (l ++ chars str) ∧
  router_data h' = router_data h ∧ world h' = world h ∧ builders h' = builders h ∧ files h' = files h ∧
  (∀ q, q ≠ p → arrays h' !! q = arrays h !! q).
Proof.
  intros [Hp [r Hr] (sr & Hsr & Hw & Hmax & Htype & Hcur) Ha Hroom Hpre]. unfold WriteString.
  set (cells' := if length l <? max - 1 then _ else _).
  rewrite (write_string_found _ _ _ _ _ _ _ Hp Hr). unfold call_write. set (failure := mbind _ _). clearbody failure.
  unfold write_string_callback, FindStringRouter, array_strncpy, update_string_router, someIO, name_of.
  unfold mbind, P_bind, getIO, modifyIO. cbn. rewrite Hsr, Htype, Hmax. cbn. rewrite Hw. cbn.
  destruct (Nat.eqb_spec max 0) as [->|Hm0].
  { exists h. split; [done|]. subst cells'. rewrite (proj2 (Nat.ltb_ge _ _)) by lia. split_and!; try done.
    split; try done; [by exists r| |]; rewrite !Nat.min_0_r in *; [exists sr; rewrite Nat.min_0_r; done|done]. }
  destruct (Nat.leb_spec max (currentPosition sr + 1)) as [Hskip|Hfit].
  - exists h. split; [done|]. subst cells'. rewrite (proj2 (Nat.ltb_ge _ _)) by lia. split_and!; try done. split; try done; [by exists r| |].
    + exists sr. split_and!; try done. rewrite length_app. lia.
    + rewrite length_app, take_app_le by lia. rewrite <- Hpre. f_equal. lia.
  - assert (currentPosition sr = length l ∧ length l < max - 1) as [Hc Hlt] by lia.
    cbn beta. rewrite Ha, Hc. cbn beta iota.
    assert (cells' = dest_cells max cells (l ++ chars str)) as -> by (subst cells'; by rewrite (proj2 (Nat.ltb_lt _ _)) by lia).
    rewrite Nat.min_l, (take_ge l) in Hpre by lia.
    assert (Hcells : cells = (Some <$> l) ++ drop (length l) cells) by (rewrite <- Hpre; by rewrite take_drop).
    assert (Hpad : length (padded str (max - length l - 1)) = max - length l - 1).
    { unfold padded. rewrite length_take, length_app, length_replicate. lia. }
    assert (Hwb : write_bytes (Some cells) (length l) (padded str (max - length l - 1)) = Some (Some (dest_cells max cells (l ++ chars str)))).
    { pose proof (write_bytes_at l (padded str (max - length l - 1)) (drop (length l) cells)) as Hwb.
      rewrite <- Hcells in Hwb. rewrite Hwb by (rewrite Hpad, length_drop; lia).
      rewrite Hpad, drop_drop. replace (length l + (max - length l - 1)) with (max - 1) by lia.
      rewrite dest_cells_take; [done|by rewrite take_ge by lia|lia]. }
    rewrite Hwb. cbn beta iota.
    eexists. split; [done|]. split.
    + assert (∀ x, sr_name (set_currentPosition (length l + String.length str) x) = sr_name x) as Hname by done.
      split; cbn.
      * exact Hp.
      * exists r. rewrite <- Hr. apply first_responder_ext; try done. unfold string_known. apply bool_decide_ext.
        by apply known_update_found.
      * eexists. split; [by apply find_update_found|]. cbn. split_and!; try done. rewrite length_app, length_chars. done.
      * by rewrite lookup_insert_eq.
      * unfold dest_cells. rewrite length_app, length_fmap, length_app, length_replicate, length_drop, length_take. lia.
      * unfold dest_cells. set (t := take (max - 1) (l ++ chars str)).
        assert (length t = Nat.min (length (l ++ chars str)) (max - 1)) as Ht by (subst t; rewrite length_take; lia).
        rewrite <- Ht, fmap_app, <- app_assoc, take_app_le by (rewrite length_fmap; done).
        by rewrite take_ge by (by rewrite length_fmap).
    + split_and!; try done. intros q Hq. cbn. by rewrite lookup_insert_ne.
Qed.

(** Several writes in a row. *)
Lemma dest_cells_twice max cells l l' : max <= length cells → dest_cells max (dest_cells max cells l) l' = dest_cells max cells l'.
Proof.
  intros Hm. unfold dest_cells. f_equal. set (t := take (max - 1) l).
  assert (length t <= max - 1) by (subst t; rewrite length_take; lia).
  rewrite drop_app_ge; rewrite length_fmap, length_app, length_replicate; [|lia].
  replace (max - 1 - (length t + (max - 1 - length t))) with 0 by lia. by rewrite drop_0.
Qed.
Lemma dest_cells_full max cells l l' : max - 1 <= length l → dest_cells max cells (l ++ l') = dest_cells max cells l.
Proof. intros H. unfold dest_cells. by rewrite take_app_le. Qed.

Lemma WriteString_dest_many h a n p max cells0 cells l strs : dest_open h a n p max cells l →
  max <= length cells0 → cells = dest_cells max cells0 l → ∃ h',
  forM strs (WriteString (LName a n)) h = Returned tt h' ∧
  dest_open h' a n p max (dest_cells max cells0 (l ++ (strs ≫= chars))) (l ++ (strs ≫= chars)) ∧
  (∀ q, q ≠ p → arrays h' !! q = arrays h !! q).
Proof.
  intros H Hm ->. revert h l H. induction strs as [|str strs IH]; intros h l H; cbn [forM mbind list_bind].
  { exists h. rewrite app_nil_r. done. }
  destruct (WriteString_dest h a n p max _ l str H) as (h1 & E & H1 & _ & _ & _ & _ & Hq).
  assert ((if length l <? max - 1 then dest_cells max (dest_cells max cells0 l) (l ++ chars str) else dest_cells max cells0 l) =
    dest_cells max cells0 (l ++ chars str)) as Hc.
  { destruct (Nat.ltb_spec (length l) (max - 1)); [by apply dest_cells_twice|by rewrite dest_cells_full by lia]. }
  rewrite Hc in H1. destruct (IH h1 _ H1) as (h2 & E2 & H2 & Hq2). exists h2. split_and!.
  - unfold mbind at 1, P_bind at 1. by rewrite E.
  - by rewrite <- app_assoc in H2.
  - intros q Hne. by rewrite Hq2, Hq.
Qed.

(** ** String builder destinations *)

Record builder_open (h : IOEnv W) (a : ptr) (n : string) (p : ptr) (l : list byte) : Prop := {
  bo_paired : all_paired h;
  bo_router : ∃ r, first_responder writeCallback h a n = Some (r, WriteStringBuilderCallback);
  bo_builder : ∃ x, find_builder_router n (ListOfStringBuilderRouters h) = Some x ∧ SBR x = p;
  bo_contents : ∃ theSB, builders h !! p = Some theSB ∧ builds theSB l;
}.

Lemma WriteString_builder h a n p l str : builder_open h a n p l → ∃ theSB h',
  WriteString (LName a n) str h = Returned tt h' ∧ builder_open h' a n p (l ++ chars str) ∧
  h' = put_builders (<[p := theSB]> (builders h)) h.
Proof.
  intros [Hp [r Hr] (x & Hx & Hsb) (theSB & Hb & Hl)]. unfold WriteString.
  rewrite (write_string_found _ _ _ _ _ _ _ Hp Hr). unfold call_write. set (failure := mbind _ _). clearbody failure.
  destruct (SBAppend_builds theSB str l Hl) as (theSB' & E & Hl').
  exists theSB', (put_builders (<[p := theSB']> (builders h)) h). split_and!.
  - unfold write_builder_callback, FindStringBuilderRouter, someIO, name_of.
    unfold mbind, P_bind, getIO, modifyIO. cbn. rewrite Hx. cbn. rewrite Hsb, Hb, E. done.
  - split; [done|by exists r|by exists x|]. exists theSB'. cbn. by rewrite lookup_insert_eq.
  - done.
Qed.
Lemma WriteString_builder_many h a n p l strs : builder_open h a n p l → ∃ h',
  forM strs (WriteString (LName a n)) h = Returned tt h' ∧ builder_open h' a n p (l ++ (strs ≫= chars)).
Proof.
  revert h l. induction strs as [|str strs IH]; intros h l H; cbn [forM mbind list_bind].
  { exists h. by rewrite app_nil_r. }
  destruct (WriteString_builder h a n p l str H) as (theSB & h1 & E & H1 & _).
  destruct (IH h1 _ H1) as (h2 & E2 & H2). exists h2. rewrite <- app_assoc in H2. split; [|done].
  unfold mbind at 1, P_bind at 1. by rewrite E.
Qed.
End output.

(** * Input through the routers

    A logical name from which characters can be read and pushed back, as an
    interface; a string source implements it. *)

#[local] Open Scope nat_scope.

(** The character at an offset of the input, as [ReadRouter] returns it. *)
Definition code_at (l : list byte) (i : nat) : Z := match l !! i with Some c => code_of c | None => EOF end.

(** A message of the scanner: strings for [STDERR] and [STDWRN]. *)
Definition plain_message (m : M (list output_item) unit) : Prop :=
  Forall (fun i => ∃ str, i = OString STDERR str ∨ i = OString STDWRN str) (log_of m).

(** What the scanner relies on: [at_ l i h] says that in the state [h] the input
    named [name] is [l] and [i] characters of it were read.  Past the end there
    are only [EOF]s.  Reports do not disturb the input. *)
Class CharSource {W : Type} `{!RouterHost W} (name : LogicalName) (at_ : list byte → nat → IOEnv W → Prop) := {
  source_read l i h : at_ l i h → ∃ h', ReadRouter name h = Returned (code_at l i) h' ∧ at_ l (S i) h' ∧
    scanner_data h' = scanner_data h ∧ pp_data h' = pp_data h;
  source_unread l i h ch : at_ l (S i) h → ∃ z h', UnreadRouter name ch h = Returned z h' ∧ at_ l i h' ∧
    scanner_data h' = scanner_data h ∧ pp_data h' = pp_data h;
  source_report l i h m : plain_message m → at_ l i h → ∃ h', report m h = Returned tt h' ∧ at_ l i h' ∧
    scanner_data h' = scanner_data h ∧ pp_data h' = pp_data h;
  source_scanner l i h b : at_ l i h → at_ l i (put_scanner_data (set_GlobalBuffer b (scanner_data h)) h);
  source_pp l i h d : at_ l i h → at_ l i (put_pp_data d h);
}.

Section source.
Context {W : Type} `{!RouterHost W} `{!HostLaws W}.
Implicit Types (h : IOEnv W) (r : router).

(** Messages go to other callbacks or nowhere, whatever the rest of the system does. *)
Definition messages_safe h : Prop := ∀ w m, m ∈ [STDERR; STDWRN] →
  match first_responder writeCallback (put_world w h) 1 m with
  | Some (_, HostWrite _) | None => True
  | _ => False
  end.

Lemma put_world_id h : put_world (world h) h = h.
Proof. by destruct h. Qed.
Lemma put_world_twice w w' h : put_world w (put_world w' h) = put_world w h.
Proof. done. Qed.

Lemma call_host_write f r h a n str : ∃ w, call_write no_report r (HostWrite f) (LName a n) str h = Returned tt (put_world w h).
Proof.
  unfold call_write, on_world. destruct (write_law f (LName a n) str (context r) (world h)) as [w' ->]. by exists w'.
Qed.

Lemma write_stderr_safe k h str : all_paired h → messages_safe h →
  ∃ w, write_string (S k) (literal STDERR) str h = Returned tt (put_world w h).
Proof.
  intros Hp Hs. specialize (Hs (world h) STDERR). rewrite put_world_id in Hs. unfold literal.
  destruct (first_responder writeCallback h 1 STDERR) as [[r w]|] eqn:E.
  - rewrite (write_string_found _ _ _ _ _ _ _ Hp E). destruct w; try (exfalso; apply Hs; apply list_elem_of_here).
    apply call_host_write.
  - rewrite (write_string_lost _ _ _ _ _ E). exists (world h). by rewrite put_world_id.
Qed.

Definition on_names (names : list string) (m : M (list output_item) unit) : Prop :=
  Forall (fun i => ∃ n str, i = OString n str ∧ n ∈ names) (log_of m).

Lemma report_safe names write m h : (∀ n str h', n ∈ names → all_paired h' → messages_safe h' →
    ∃ w, write (literal n) str h' = Returned tt (put_world w h')) →
  on_names names m → all_paired h → messages_safe h →
  ∃ w, report_with write m h = Returned tt (put_world w h).
Proof.
  unfold on_names, report_with. intros Hw Hm. revert h. induction Hm as [|i l (n & str & -> & Hn) Hm IH]; intros h Hp Hs.
  { exists (world h). cbn [forM]. by rewrite put_world_id. }
  cbn [forM]. unfold mbind, P_bind. destruct (Hw n str h Hn Hp Hs) as [w ->].
  destruct (IH (put_world w h)) as [w' ->]; [done|by intros w'; rewrite put_world_twice; apply Hs|]. by exists w'.
Qed.

Lemma WriteString_safe n str h : n ∈ [STDERR; STDWRN] → all_paired h → messages_safe h →
  ∃ w, WriteString (literal n) str h = Returned tt (put_world w h).
Proof.
  intros Hn Hp Hs. unfold WriteString. destruct (decide (n = STDERR)) as [->|Hne]; [by apply write_stderr_safe|].
  pose proof (Hs (world h) n Hn) as Hr. rewrite put_world_id in Hr. unfold literal.
  destruct (first_responder writeCallback h 1 n) as [[r w]|] eqn:E.
  - rewrite (write_string_found _ _ _ _ _ _ _ Hp E). destruct w; try done. apply call_host_write.
  - rewrite (write_string_lost _ _ _ _ _ E). destruct (String.eqb_spec STDERR n); [congruence|].
    apply (report_safe [STDERR]); [|repeat (constructor; [by do 2 eexists; split; [done|apply list_elem_of_here]|]); constructor|done|done].
    intros n' str' h' ->%list_elem_of_singleton Hp' Hs'. by apply write_stderr_safe.
Qed.

Lemma report_plain m h : plain_message m → all_paired h → messages_safe h →
  ∃ w, report m h = Returned tt (put_world w h).
Proof.
  intros Hm. apply (report_safe [STDERR; STDWRN]); [apply WriteString_safe|].
  eapply Forall_impl; [exact Hm|]. intros i [str [->| ->]]; do 2 eexists; (split; [done|set_solver]).
Qed.

(** ** String sources *)

(** [name], a string source over the array [p], of which [i] characters are read. *)
Record source_open (a : ptr) (n : string) (p : ptr) (l : list byte) (i : nat) (h : IOEnv W) : Prop := {
  so_paired : all_paired h;
  so_messages : messages_safe h;
  so_fast : same_pointer_opt (LName a n) (FastCharGetRouter (router_data h)) = false;
  so_lines : LineCountRouter (router_data h) = None ∨
    ∃ b m, LineCountRouter (router_data h) = Some (LName b m) ∧ m ≠ n;
  so_reader w : ∃ r, first_responder readCallback (put_world w h) a n = Some (r, ReadStringCallback);
  so_unreader w : ∃ r, first_responder unreadCallback (put_world w h) a n = Some (r, UnreadStringCallback);
  so_string : ∃ sr, find_string_router n (ListOfStringRouters h) = Some sr ∧ readString sr = Some p ∧
    maximumPosition sr = length l ∧ readWriteType sr = READ_STRING ∧ currentPosition sr = i;
  so_array : ∃ rest, arrays h !! p = Some ((Some <$> l) ++ rest);
}.

(** The state after the source was read to an offset. *)
Definition source_at (n : string) (i : nat) h : IOEnv W :=
  put_string_routers (update_found n (set_currentPosition i) (ListOfStringRouters h)) h.

Lemma first_responder_source {A} (callback : router → option A) a n' n i h :
  first_responder callback (source_at n i h) a n' = first_responder callback h a n'.
Proof.
  apply first_responder_ext; try done. unfold string_known. apply bool_decide_ext. by apply known_update_found.
Qed.
Lemma source_open_at a n p l i j h : source_open a n p l i h → source_open a n p l j (source_at n j h).
Proof.
  intros [H1 H2 H3 H4 H5 H6 (sr & Hsr & Hr & Hm & Ht & Hc) H8]. split; try done.
  - intros w m Hm'. specialize (H2 w m Hm'). change (put_world w (source_at n j h)) with (source_at n j (put_world w h)).
    by rewrite first_responder_source.
  - intros w. change (put_world w (source_at n j h)) with (source_at n j (put_world w h)). rewrite first_responder_source. apply H5.
  - intros w. change (put_world w (source_at n j h)) with (source_at n j (put_world w h)). rewrite first_responder_source. apply H6.
  - eexists. split; [by apply find_update_found|]. done.
Qed.

Lemma no_line_count a n p l i h ch m : source_open a n p l i h → count_line ch (counts_by_name (LName a n)) m h = Returned tt h.
Proof.
  intros H. unfold count_line. destruct (ch =? linefeed)%Z; [|done]. unfold counts_by_name, router_field, someIO.
  unfold mbind, P_bind, getIO. destruct (so_lines _ _ _ _ _ _ H) as [->|(b & n' & -> & Hn)]; [done|]. cbn.
  by rewrite (proj2 (String.eqb_neq n n')) by done.
Qed.

Lemma ReadRouter_source a n p l i h : source_open a n p l i h →
  ReadRouter (LName a n) h = Returned (code_at l i) (source_at n (S i) h).
Proof.
  intros H. unfold ReadRouter. unfold mbind at 1, P_bind at 1, router_field at 1, getIO at 1. cbn [is_file].
  unfold mbind at 1, P_bind at 1, router_field at 1, getIO at 1. rewrite (so_fast _ _ _ _ _ _ H).
  unfold mbind at 1, P_bind at 1. rewrite recognizer_eq.
  destruct (so_reader _ _ _ _ _ _ H (world h)) as [r Hr]. rewrite put_world_id in Hr. rewrite Hr.
  set (failure := mbind _ (report _)). clearbody failure.
  assert (read_string_callback failure (LName a n) h = Returned (code_at l i) (source_at n (S i) h)) as Hread.
  { destruct (so_string _ _ _ _ _ _ H) as (sr & Hsr & Hp & Hm & Ht & Hc). destruct (so_array _ _ _ _ _ _ H) as [rest Ha].
    unfold read_string_callback, FindStringRouter, array_byte, update_string_router, someIO, name_of.
    unfold mbind, P_bind, getIO, modifyIO. cbn. rewrite Hsr, Ht, Hm, Hc, Hp. cbn [negb READ_STRING Z.eqb]. unfold code_at.
    destruct (Nat.leb_spec (length l) i) as [Hge|Hlt].
    - rewrite lookup_ge_None_2 by done. by rewrite Nat.add_1_r.
    - destruct (lookup_lt_is_Some_2 l i Hlt) as [c Hlc]. rewrite Hlc.
      rewrite (proj2 (Z.ltb_ge _ _)) by lia. cbn. rewrite Ha. cbn.
      rewrite Nat2Z.id, lookup_app_l by (by rewrite length_fmap). rewrite list_lookup_fmap, Hlc. cbn. by rewrite Nat.add_1_r. }
  unfold mbind at 1, P_bind at 1. rewrite Hread. unfold mbind, P_bind.
  by rewrite (no_line_count a n p l (S i)) by by eapply source_open_at.
Qed.

Lemma UnreadRouter_source a n p l i h ch : source_open a n p l (S i) h →
  UnreadRouter (LName a n) ch h = Returned 1%Z (source_at n i h).
Proof.
  intros H. unfold UnreadRouter. unfold mbind at 1, P_bind at 1, router_field at 1, getIO at 1. cbn [is_file].
  unfold mbind at 1, P_bind at 1, router_field at 1, getIO at 1. rewrite (so_fast _ _ _ _ _ _ H).
  unfold mbind at 1, P_bind at 1. rewrite recognizer_eq.
  destruct (so_unreader _ _ _ _ _ _ H (world h)) as [r Hr]. rewrite put_world_id in Hr. rewrite Hr.
  set (failure := mbind _ (report _)). clearbody failure.
  unfold mbind at 1, P_bind at 1. rewrite (no_line_count a n p l (S i)) by done.
  destruct (so_string _ _ _ _ _ _ H) as (sr & Hsr & Hp & Hm & Ht & Hc).
  unfold unread_string_callback, FindStringRouter, update_string_router, someIO, name_of.
  unfold mbind, P_bind, getIO, modifyIO. cbn. rewrite Hsr, Ht, Hc. cbn. by rewrite Nat.sub_0_r.
Qed.

Lemma source_open_world a n p l i h w : source_open a n p l i h → source_open a n p l i (put_world w h).
Proof. intros [H1 H2 H3 H4 H5 H6 H7 H8]. by split. Qed.

(** A string source is a source of characters. *)
#[export] Instance string_source a n p : CharSource (LName a n) (source_open a n p).
Proof.
  split.
  - intros l i h H. rewrite (ReadRouter_source _ _ _ _ _ _ H). eexists. split_and!; [done|by eapply source_open_at|done..].
  - intros l i h ch H. rewrite (UnreadRouter_source _ _ _ _ _ _ _ H). do 2 eexists. split_and!; [done|by eapply source_open_at|done..].
  - intros l i h m Hm H. destruct (report_plain m h Hm (so_paired _ _ _ _ _ _ H) (so_messages _ _ _ _ _ _ H)) as [w ->].
    eexists. split_and!; [done|by apply source_open_world|done..].
  - intros l i h b [H1 H2 H3 H4 H5 H6 H7 H8]. by split.
  - intros l i h d [H1 H2 H3 H4 H5 H6 H7 H8]. by split.
Qed.
End source.
