(* ===== verification/Lexer.v ===== *)
(** * The reference tokenizer

    What [GetToken] promises, as a function on the characters of the input:
    the type of the next token, the atom that is its value, its print form and
    the characters after it. *)
From S2P Require Import Prelude Values Router Process Hash SList AtomState.
From S2P Require Import TextBuffer TextProofs IOState Routers NumberText Scanner.
#[local] Open Scope Z_scope.

Record lexed := mkLexed { lx_type : TokenType; lx_value : option Atom; lx_form : string; lx_rest : list byte }.
Definition with_type (type : TokenType) (x : lexed) : lexed := mkLexed type (lx_value x) (lx_form x) (lx_rest x).

(** White space and comments. *)
Fixpoint skip_space (comment : bool) (l : list byte) : list byte :=
  match l with
  | [] => []
  | c :: l' =>
      if comment then skip_space (negb ((code_of c =? linefeed) || (code_of c =? carriage_return))) l'
      else if code_of c =? semicolon then skip_space true l'
      else if white_space (code_of c) then skip_space false l'
      else l
  end.

(** A symbol, or an instance name in brackets, that starts with [acc]. *)
Definition is_symbol_char (c : byte) : bool := symbol_char (code_of c).
Definition bracketed (cs : list byte) : bool :=
  (2 <? length cs)%nat && bool_decide (head cs = Some (char_of left_bracket)) && bool_decide (last cs = Some (char_of right_bracket)).
Definition inner (cs : list byte) : list byte := drop 1 (take (length cs - 1) cs).
Definition lex_symbol (acc l : list byte) : lexed :=
  let cs := acc ++ take_while is_symbol_char l in
  let rest := drop_while is_symbol_char l in
  if bracketed cs then mkLexed INSTANCE_NAME_TOKEN (Some (ALexeme INSTANCE_NAME_TYPE (text (inner cs)))) (text (inner cs)) rest
  else mkLexed SYMBOL_TOKEN (Some (ALexeme SYMBOL_TYPE (text cs))) (text cs) rest.

(** The characters of a string after its opening quote. *)
Fixpoint lex_string (acc l : list byte) : list byte * list byte :=
  match l with
  | [] => (acc, [])
  | c :: l' =>
      if code_of c =? quote then (acc, l')
      else if code_of c =? backslash then
        match l' with
        | [] => (expand_char acc EOF, [])
        | c' :: l'' => lex_string (expand_char acc (code_of c')) l''
        end
      else lex_string (expand_char acc (code_of c)) l'
  end.
(** What [StringPrintForm] makes of a string. *)
Definition shown (str : string) : string :=
  text (foldl expand_char [] (quote :: (char_value <$> escape (chars str)) ++ [quote])).

(** The characters of a number. *)
Definition sign_last (acc : list byte) : bool := match last acc with Some c => is_sign (code_of c) | None => false end.
Fixpoint number_run (phase : Z) (digitFound processFloat : bool) (acc l : list byte)
    : Z * bool * bool * list byte * list byte :=
  match l with
  | [] =>
      let '(phase, digitFound, processFloat, _) := number_step phase digitFound processFloat (sign_last acc) EOF in
      (phase, digitFound, processFloat, acc, [])
  | c :: l' =>
      let '(phase, digitFound, processFloat, _) := number_step phase digitFound processFloat (sign_last acc) (code_of c) in
      if phase =? DONE then (phase, digitFound, processFloat, acc, l)
      else if phase =? ERROR then (phase, digitFound, processFloat, acc ++ [c], l')
      else number_run phase digitFound processFloat (acc ++ [c]) l'
  end.
Definition number_value (processFloat : bool) (cs : list byte) : Atom :=
  if processFloat then AFloat (bits_of_double (atof cs)) else AInteger (strtoll cs).1.
Definition number_form (a : Atom) : string :=
  match a with AFloat w => float_to_string w | AInteger z => integer_to_string z | _ => "" end.
Definition number_type (a : Atom) : TokenType := match a with AFloat _ => FLOAT_TOKEN | _ => INTEGER_TOKEN end.
Definition lex_number (l : list byte) : lexed :=
  let '(phase, digitFound, processFloat, cs, rest) := number_run SIGN false false [] l in
  if phase =? ERROR then lex_symbol cs rest
  else if digitFound then
    let a := number_value processFloat cs in mkLexed (number_type a) (Some a) (number_form a) rest
  else mkLexed SYMBOL_TOKEN (Some (ALexeme SYMBOL_TYPE (text cs))) (text cs) rest.

(** After the prefix of a variable. *)
Definition starred (cs : list byte) : bool :=
  (1 <? length cs)%nat && bool_decide (head cs = Some (char_of asterisk)) && bool_decide (last cs = Some (char_of asterisk)).
Definition lex_variable (prefix : string) (variable global wildcard : TokenType) (l : list byte) : lexed :=
  match l with
  | [] => mkLexed wildcard (Some (ALexeme SYMBOL_TYPE prefix)) prefix []
  | c :: l' =>
      if starts_name (code_of c) || (code_of c =? asterisk) then
        let cs := take_while is_symbol_char l in
        let rest := drop_while is_symbol_char l in
        let form := text (chars (prefix +:+ text cs)) in
        if starred cs then mkLexed global (Some (ALexeme SYMBOL_TYPE (text (inner cs)))) form rest
        else mkLexed variable (Some (ALexeme SYMBOL_TYPE (text cs))) form rest
      else if isprint (code_of c) && negb (isspace (code_of c)) && negb (code_of c =? left_parenthesis)
              && negb (code_of c =? right_parenthesis) then
        mkLexed STOP_TOKEN None (text (chars (prefix +:+ String c ""))) l'
      else mkLexed wildcard (Some (ALexeme SYMBOL_TYPE prefix)) prefix l
  end.

(** The tokens of one character. *)
Definition punctuation_type (c : Z) : option (TokenType * string) :=
  if c =? left_parenthesis then Some (LEFT_PARENTHESIS_TOKEN, "(")
  else if c =? right_parenthesis then Some (RIGHT_PARENTHESIS_TOKEN, ")")
  else if c =? tilde then Some (NOT_CONSTRAINT_TOKEN, "~")
  else if c =? vertical_bar then Some (OR_CONSTRAINT_TOKEN, "|")
  else if c =? ampersand then Some (AND_CONSTRAINT_TOKEN, "&")
  else None.
Definition stop_token (rest : list byte) : lexed := mkLexed STOP_TOKEN (Some (ALexeme SYMBOL_TYPE "stop")) "" rest.

(** A token that starts with the first character of the input. *)
Definition lex_token (l : list byte) : lexed :=
  match l with
  | [] => stop_token []
  | b :: l' =>
      let c := code_of b in
      if starts_name c then with_type SYMBOL_TOKEN (lex_symbol [] l)
      else if isdigit c || is_sign c || (c =? point) then lex_number l
      else if c =? quote then
        let '(cs, rest) := lex_string [] l' in
        mkLexed STRING_TOKEN (Some (ALexeme STRING_TYPE (text cs))) (shown (text cs)) rest
      else if c =? question_mark then lex_variable "?" SF_VARIABLE_TOKEN GBL_VARIABLE_TOKEN SF_WILDCARD_TOKEN l'
      else if (c =? dollar) && bool_decide (head l' = Some (char_of question_mark)) then
        lex_variable "$?" MF_VARIABLE_TOKEN MF_GBL_VARIABLE_TOKEN MF_WILDCARD_TOKEN (drop 1 l')
      else if (c =? dollar) || (c =? less_than) then with_type SYMBOL_TOKEN (lex_symbol [b] l')
      else
        match punctuation_type c with
        | Some (type, str) => mkLexed type (Some (ALexeme STRING_TYPE str)) str l'
        | None =>
            if (c =? 0) || (c =? 3) then stop_token l'
            else if isprint c then lex_symbol [] l
            else mkLexed UNKNOWN_VALUE_TOKEN None "<<<unprintable character>>>" l'
        end
  end.
Definition lex (l : list byte) : lexed := lex_token (skip_space false l).

(** The one integer that the tables cannot hash. *)
Definition no_least_integer (x : lexed) : Prop := lx_value x ≠ Some (AInteger LLONG_MIN).
