(* ===== verification/ScanProofs.v ===== *)
(** * The parts of the scanner meet the reference tokenizer

    Each step of the scanner is described by what it returns and by the facts
    it keeps: where the input is, what [GlobalString] holds, which atoms are
    interned. *)
From S2P Require Import Prelude Values Router Process Hash SList AtomState Atoms AtomProofs.
From S2P Require Import TextBuffer TextProofs IOState Routers RouterProofs.
From S2P Require Import NumberText PPrint Scanner Lexer.
#[local] Open Scope nat_scope.

(** ** Code that returns *)

Definition returns {St A} (m : P St A) (s : St) (Q : A → St → Prop) : Prop := ∃ a s', m s = Returned a s' ∧ Q a s'.

Lemma returns_bind {St A B} (m : P St A) (f : A → P St B) s Q :
  returns m s (fun a s' => returns (f a) s' Q) → returns (m ≫= f) s Q.
Proof. intros (a & s' & Hm & b & s'' & Hf & HQ). exists b, s''. split; [|done]. by rewrite (P_bind_Returned _ _ _ _ _ Hm). Qed.
Lemma returns_ret {St A} (a : A) (s : St) (Q : A → St → Prop) : Q a s → returns (mret a : P St A) s Q.
Proof. intros HQ. by exists a, s. Qed.
Lemma returns_mono {St A} (m : P St A) s (Q Q' : A → St → Prop) :
  returns m s Q → (∀ a s', Q a s' → Q' a s') → returns m s Q'.
Proof. intros (a & s' & Hm & HQ) HQ'. exists a, s'. auto. Qed.
Lemma returns_whenP {St} (b : bool) (m : P St unit) s (Q : unit → St → Prop) :
  (b = true → returns m s Q) → (b = false → Q tt s) → returns (whenP b m) s Q.
Proof. intros H1 H2. destruct b; [by apply H1|by apply returns_ret, H2]. Qed.

Section scan.
Context {W : Type} `{!RouterHost W}.
Context (name : LogicalName) (at_ : list byte → nat → IOEnv W → Prop) `{!CharSource name at_}.
Abbreviation env := (AtomEnv (IOEnv W)).
Implicit Types (s : env) (K : list (Atom * ptr)).

(** The input [l] is at [i], [GlobalString] holds [b], the atoms [K] are interned. *)
Record ready (l : list byte) (i : nat) (b : list byte) K s : Prop := {
  rd_at : at_ l i (host s);
  rd_global : holds (GlobalBuffer (scanner_data (host s))) b;
  rd_pp : ∃ t, holds (PPBuffer (pp_data (host s))) t;
  rd_atoms : ∃ C, atoms_inv s C;
  rd_known a p : (a, p) ∈ K → interned s a p;
}.

Lemma atoms_inv_host s C h : atoms_inv s C → atoms_inv (put_host h s) C.
Proof. by intros [H1 H2 H3]. Qed.

(** ** Input and messages *)

Lemma io_returns {A} (m : P (IOEnv W) A) s (Q : A → env → Prop) :
  returns m (host s) (fun a h => Q a (put_host h s)) → returns (io m) s Q.
Proof. intros (a & h & Hm & HQ). exists a, (put_host h s). split; [|done]. unfold io. by rewrite Hm. Qed.

(** A step of the routers that leaves the data of the scanner alone. *)
Lemma ready_host l i j b K s h : ready l i b K s → at_ l j h →
  scanner_data h = scanner_data (host s) → pp_data h = pp_data (host s) → ready l j b K (put_host h s).
Proof.
  intros [H1 H2 H3 [C H4] H5] Ha Hs Hp. split; cbn; [done|by rewrite Hs|by rewrite Hp| |done].
  exists C. by apply atoms_inv_host.
Qed.

Lemma Read_returns l i b K s (Q : Z → env → Prop) : ready l i b K s →
  (∀ s', ready l (S i) b K s' → Q (code_at l i) s') → returns (Read name) s Q.
Proof.
  intros H HQ. apply io_returns. destruct (source_read _ _ _ (rd_at _ _ _ _ _ H)) as (h & Hr & Ha & Hs & Hp).
  exists (code_at l i), h. split; [done|]. by apply HQ, (ready_host l i).
Qed.
Lemma Unread_returns l i b K s ch (Q : unit → env → Prop) : ready l (S i) b K s →
  (∀ s', ready l i b K s' → Q tt s') → returns (Unread name ch) s Q.
Proof.
  intros H HQ. unfold Unread. apply returns_bind, io_returns.
  destruct (source_unread _ _ _ ch (rd_at _ _ _ _ _ H)) as (z & h & Hr & Ha & Hs & Hp).
  exists z, h. split; [done|]. by apply returns_ret, HQ, (ready_host l (S i)).
Qed.
Lemma report_returns l i b K s m (Q : unit → env → Prop) : plain_message m → ready l i b K s →
  (∀ s', ready l i b K s' → Q tt s') → returns (io (report m)) s Q.
Proof.
  intros Hm H HQ. apply io_returns. destruct (source_report _ _ _ m Hm (rd_at _ _ _ _ _ H)) as (h & Hr & Ha & Hs & Hp).
  exists tt, h. split; [done|]. by apply HQ, (ready_host l i).
Qed.

(** ** [GlobalString] *)

Definition global s : Buffer := GlobalBuffer (scanner_data (host s)).
Definition with_global (b : Buffer) s : env :=
  put_host (put_scanner_data (set_GlobalBuffer b (scanner_data (host s))) (host s)) s.
Lemma ready_with_global l i b b' K s B : ready l i b K s → holds B b' → ready l i b' K (with_global B s).
Proof.
  intros [H1 H2 H3 [C H4] H5] HB. split; cbn; [by apply source_scanner|done|done| |done]. exists C. by apply atoms_inv_host.
Qed.

Lemma add_global_returns l i b K s inchar (Q : unit → env → Prop) : ready l i b K s →
  (∀ s', ready l i (expand_char b inchar) K s' → Q tt s') → returns (add_global inchar) s Q.
Proof.
  intros H HQ. destruct (expand_holds inchar _ _ (rd_global _ _ _ _ _ H)) as (B & HB & Hh & _).
  exists tt, (with_global B s). split; [|by apply HQ, (ready_with_global _ _ b)].
  unfold add_global, get_global, put_global, io. unfold mbind, P_bind, getsP, someP. by rewrite HB.
Qed.

Lemma string_from_text (l : list byte) rest : string_from ((Some <$> l) ++ Some NUL :: rest) = Some (text l).
Proof.
  unfold text. induction l as [|c l IH]; [done|]. cbn [fmap list_fmap app string_from until_nul].
  destruct (bool_decide (c = NUL)); [done|]. by rewrite IH.
Qed.
Lemma global_string_returns l i b K s k (Q : option string → env → Prop) : ready l i b K s → b ≠ [] → k <= length b →
  Q (Some (text (drop k b))) s → returns (global_string k) s Q.
Proof.
  intros H Hb Hk HQ. exists (Some (text (drop k b))), s. split; [|done]. destruct (rd_global _ _ _ _ _ H) as [_ HB].
  unfold global_string, get_global. unfold mbind, P_bind, getsP.
  destruct (bytes _) as [cells|]; [|by destruct HB as [-> _]]. destruct HB as [_ [rest ->]].
  rewrite (proj2 (Nat.leb_le _ _)) by (rewrite length_app, length_fmap; lia).
  rewrite drop_app_le by (by rewrite length_fmap). rewrite <- fmap_drop. by rewrite string_from_text.
Qed.

Lemma set_global_byte_returns l i b K s k c (Q : unit → env → Prop) : ready l i b K s → k < length b →
  (∀ s', ready l i (<[k := c]> b) K s' → Q tt s') → returns (set_global_byte k c) s Q.
Proof.
  intros H Hk HQ. destruct (rd_global _ _ _ _ _ H) as [Hp HB].
  destruct (bytes (GlobalBuffer (scanner_data (host s)))) as [cells|] eqn:E; [|destruct HB as [-> _]; cbn in Hk; lia].
  destruct HB as [Hl [rest ->]].
  exists tt, (with_global (mkBuffer (Some (<[k := Some c]> ((Some <$> b) ++ Some NUL :: rest))) (position (global s)) (maximum (global s))) s).
  split.
  - unfold set_global_byte, get_global, put_global, io. unfold mbind, P_bind, getsP, someP. rewrite E. unfold write_byte.
    cbn [mbind option_bind]. by rewrite (proj2 (Nat.ltb_lt _ _)) by (rewrite length_app, length_fmap; lia).
  - apply HQ, (ready_with_global _ _ b); [done|]. split; [by rewrite length_insert|]. cbn [bytes maximum].
    rewrite length_insert. split; [done|]. exists rest.
    rewrite insert_app_l by (by rewrite length_fmap). by rewrite list_fmap_insert.
Qed.

Lemma global_byte_returns l i b K s k c (Q : byte → env → Prop) : ready l i b K s → b !! k = Some c →
  Q c s → returns (global_byte k) s Q.
Proof.
  intros H Hk HQ. exists c, s. split; [|done]. destruct (rd_global _ _ _ _ _ H) as [_ Hb].
  unfold global_byte, get_global. unfold mbind, P_bind, getsP, someP. unfold read_byte.
  destruct (bytes _) as [cells|]; [|by destruct Hb as [-> _]]. destruct Hb as [_ [rest ->]]. cbn [mbind option_bind].
  rewrite lookup_app_l by (rewrite length_fmap; by eapply lookup_lt_Some). by rewrite list_lookup_fmap, Hk.
Qed.

(** ** Interning *)

Lemma ready_known l i b K s a p : ready l i b K s → interned s a p → ready l i b ((a, p) :: K) s.
Proof. intros [H1 H2 H3 H4 H5] Hi. split; try done. intros a' p' [[= -> ->]|Hin]%elem_of_cons; auto. Qed.
Lemma ready_forget l i b K x s : ready l i b (x :: K) s → ready l i b K s.
Proof. intros [H1 H2 H3 H4 H5]. split; try done. intros a p Hin. apply H5. by apply list_elem_of_further. Qed.

Lemma creates_returns l i b K s a create (Q : ptr → env → Prop) : ready l i b K s →
  (∀ C, atoms_inv s C → creates a create s C) →
  (∀ p s', ready l i b ((a, p) :: K) s' → Q p s') → returns create s Q.
Proof.
  intros H Hc HQ. destruct (rd_atoms _ _ _ _ _ H) as [C HC].
  destruct (Hc C HC) as [(p & Hp & _ & E)|(_ & x & Hx & E & Hinv)].
  - exists p, s. split; [done|]. by apply HQ, ready_known.
  - do 2 eexists. split; [exact E|]. apply HQ. destruct H as [H1 H2 H3 H4 H5]. split; try done; [by eexists|].
    intros a' p' [[= -> ->]|Hin]%elem_of_cons; apply added_interned; [by left|right; by apply H5].
Qed.
Lemma CreateSymbol_returns l i b K s str (Q : ptr → env → Prop) : ready l i b K s →
  (∀ p s', ready l i b ((ALexeme SYMBOL_TYPE str, p) :: K) s' → Q p s') → returns (CreateSymbol (Some str)) s Q.
Proof. intros H. apply (creates_returns _ _ _ _ _ _ _ _ H). intros C HC. apply AddSymbol_creates; [done|by vm_compute; auto]. Qed.
Lemma CreateString_returns l i b K s str (Q : ptr → env → Prop) : ready l i b K s →
  (∀ p s', ready l i b ((ALexeme STRING_TYPE str, p) :: K) s' → Q p s') → returns (CreateString (Some str)) s Q.
Proof. intros H. apply (creates_returns _ _ _ _ _ _ _ _ H). intros C HC. apply AddSymbol_creates; [done|by vm_compute; auto]. Qed.
Lemma CreateInstanceName_returns l i b K s str (Q : ptr → env → Prop) : ready l i b K s →
  (∀ p s', ready l i b ((ALexeme INSTANCE_NAME_TYPE str, p) :: K) s' → Q p s') → returns (CreateInstanceName (Some str)) s Q.
Proof. intros H. apply (creates_returns _ _ _ _ _ _ _ _ H). intros C HC. apply AddSymbol_creates; [done|by vm_compute; auto]. Qed.

Lemma lexeme_text_returns l i b K s t str p (Q : string → env → Prop) : ready l i b K s →
  (ALexeme t str, p) ∈ K → Q str s → returns (lexeme_text p) s Q.
Proof.
  intros H Hin HQ. exists str, s. split; [|done]. destruct (proj1 (interned_node _ _ _) (rd_known _ _ _ _ _ H _ _ Hin)) as (n & Hn & Hc).
  unfold lexeme_text, node, someP. unfold mbind, P_bind, getsP. by rewrite Hn, Hc.
Qed.

Lemma created_string_returns l i b K s str (Q : string → env → Prop) : ready l i b K s →
  (∀ s', ready l i b K s' → Q str s') → returns (created_string (Some str)) s Q.
Proof.
  intros H HQ. unfold created_string. apply returns_bind. exists str, s. split; [done|]. apply returns_bind.
  apply (CreateString_returns _ _ _ _ _ _ _ H). intros p s' H'.
  apply (lexeme_text_returns _ _ _ _ _ STRING_TYPE str _ _ H'); [apply list_elem_of_here|]. by apply HQ, (ready_forget _ _ _ _ _ _ H').
Qed.

(** ** Names without their first and last characters *)

Lemma until_nul_snoc l : until_nul (l ++ [NUL]) = until_nul l.
Proof. induction l as [|c l IH]; [done|]. cbn. by rewrite IH. Qed.

Lemma inner_name_returns create l i b K s z mk (Q : ptr → env → Prop) :
  (∀ l i b K s str (Q : ptr → env → Prop), ready l i b K s →
     (∀ p s', ready l i b ((mk str, p) :: K) s' → Q p s') → returns (create (Some str)) s Q) →
  ready l i b K s → 1 < length b → last b = Some (char_of z) →
  (∀ p s', ready l i b ((mk (text (inner b)), p) :: K) s' → Q p s') →
  returns (inner_name create (length b) z) s Q.
Proof.
  intros Hcreate H Hlen [b0 Hb]%last_Some HQ. subst b. rewrite length_app in *. cbn [length] in *.
  unfold inner_name. replace (length b0 + 1 - 1) with (length b0) by lia.
  apply returns_bind, (set_global_byte_returns _ _ _ _ _ _ _ _ H); [rewrite length_app; cbn; lia|]. intros s1 H1.
  rewrite insert_app_r_alt, Nat.sub_diag in H1 by lia. cbn [insert list_insert] in H1.
  apply returns_bind, (global_string_returns _ _ _ _ _ _ _ H1); [by destruct b0|rewrite length_app; cbn; lia|].
  apply returns_bind, (Hcreate _ _ _ _ _ _ _ H1). intros p s2 H2.
  apply returns_bind, (set_global_byte_returns _ _ _ _ _ _ _ _ H2); [rewrite length_app; cbn; lia|]. intros s3 H3.
  rewrite insert_app_r_alt, Nat.sub_diag in H3 by lia. cbn [insert list_insert] in H3.
  apply returns_ret, HQ. replace (text (inner (b0 ++ [char_of z]))) with (text (drop 1 (b0 ++ [NUL]))); [done|].
  unfold inner, text. rewrite length_app. cbn [length]. replace (length b0 + 1 - 1) with (length b0) by lia.
  rewrite take_app_length, drop_app_le by lia. by rewrite until_nul_snoc.
Qed.

(** ** [ScanSymbol] *)

Lemma code_at_nil l i : drop i l = [] → code_at l i = EOF.
Proof. intros H. unfold code_at. apply (f_equal length) in H. rewrite length_drop in H. cbn in H. by rewrite lookup_ge_None_2 by lia. Qed.
Lemma code_at_cons l i c r : drop i l = c :: r → code_at l i = code_of c ∧ drop (S i) l = r ∧ i < length l.
Proof.
  intros H. unfold code_at. assert (l !! i = Some c) as ->.
  { rewrite <- (Nat.add_0_r i), <- lookup_drop, H. done. }
  split; [done|]. split.
  - rewrite <- Nat.add_1_r, <- drop_drop, H. done.
  - apply (f_equal length) in H. rewrite length_drop in H. cbn in H. lia.
Qed.
Lemma drop_S_nil {A} (l : list A) i : drop i l = [] → drop (S i) l = [].
Proof. intros H. by rewrite <- Nat.add_1_r, <- drop_drop, H. Qed.

Lemma symbol_char_expand b c : is_symbol_char c = true → expand_char b (code_of c) = b ++ [c].
Proof.
  unfold is_symbol_char, expand_char. intros H. rewrite char_of_code.
  destruct (Z.eqb_spec (code_of c) BACKSPACE) as [E|]; [by rewrite E in H|done].
Qed.

Lemma symbol_loop_returns fuel l i b K s count (Q : nat * Z → env → Prop) :
  ready l (S i) b K s → length l - i < fuel →
  (∀ s' ts, ts = take_while is_symbol_char (drop i l) → ready l (S (i + length ts)) (b ++ ts) K s' →
     Q (count + length ts, code_at l (i + length ts)) s') →
  returns (symbol_loop fuel name count (code_at l i)) s Q.
Proof.
  revert i b s count. induction fuel as [|fuel IH]; intros i b s count H Hf HQ; [lia|]. cbn [symbol_loop].
  destruct (drop i l) as [|c r] eqn:E.
  - rewrite (code_at_nil _ _ E). apply returns_ret. specialize (HQ s [] eq_refl).
    rewrite !Nat.add_0_r, app_nil_r, (code_at_nil _ _ E) in HQ. by apply HQ.
  - destruct (code_at_cons _ _ _ _ E) as (Hc & Hr & Hi). rewrite Hc. change (symbol_char (code_of c)) with (is_symbol_char c).
    cbn [take_while] in HQ. destruct (is_symbol_char c) eqn:Ec.
    + apply returns_bind, (add_global_returns _ _ _ _ _ _ _ H). intros s1 H1. rewrite symbol_char_expand in H1 by done.
      apply returns_bind, (Read_returns _ _ _ _ _ _ H1). intros s2 H2.
      apply (IH (S i) (b ++ [c])); [done|lia|]. intros s3 ts Hts H3. rewrite Hr in Hts.
      specialize (HQ s3 (c :: ts)). cbn [length] in HQ. rewrite <- app_assoc in H3.
      replace (i + S (length ts)) with (S i + length ts) in HQ by lia.
      replace (count + 1 + length ts) with (count + S (length ts)) by lia. apply HQ; [by f_equal|done].
    + apply returns_ret. specialize (HQ s [] eq_refl). rewrite !Nat.add_0_r, app_nil_r, Hc in HQ. by apply HQ.
Qed.

Lemma drop_take_while {A} (f : A → bool) l : drop (length (take_while f l)) l = drop_while f l.
Proof. induction l as [|x l IH]; [done|]. cbn. destruct (f x); [apply IH|done]. Qed.

Lemma bracketed_at cs : 2 < length cs →
  ∃ c0 cl, cs !! 0 = Some c0 ∧ cs !! (length cs - 1) = Some cl ∧ last cs = Some cl ∧
  bracketed cs = (code_of c0 =? left_bracket)%Z && (code_of cl =? right_bracket)%Z.
Proof.
  intros Hl. destruct cs as [|c0 cs]; [cbn in Hl; lia|]. destruct (last (c0 :: cs)) as [cl|] eqn:E; [|by apply last_None in E].
  exists c0, cl. split; [done|]. rewrite last_lookup in E. replace (length (c0 :: cs) - 1) with (pred (length (c0 :: cs))) by lia.
  split; [done|]. split; [done|]. unfold bracketed. rewrite (proj2 (Nat.ltb_lt _ _)) by done. rewrite last_lookup, E. cbn [head andb].
  assert (∀ c z, (0 <= z < 256)%Z → bool_decide (Some c = Some (char_of z)) = (code_of c =? z)%Z) as Heq.
  { intros c z Hz. destruct (Z.eqb_spec (code_of c) z) as [<-|Hn].
    - rewrite char_of_code. by apply bool_decide_eq_true.
    - apply bool_decide_eq_false. intros [= ->]. apply Hn. rewrite code_of_char. by apply Z.mod_small. }
  by rewrite !Heq by (vm_compute; split; congruence).
Qed.

Lemma ScanSymbol_returns fuel l i b K s (Q : ptr * TokenType → env → Prop) :
  ready l i b K s → b ++ take_while is_symbol_char (drop i l) ≠ [] → length l < fuel →
  (∀ p a s' j, lx_value (lex_symbol b (drop i l)) = Some a → drop j l = lx_rest (lex_symbol b (drop i l)) →
     ready l j (b ++ take_while is_symbol_char (drop i l)) ((a, p) :: K) s' → Q (p, lx_type (lex_symbol b (drop i l))) s') →
  returns (ScanSymbol fuel name (length b)) s Q.
Proof.
  intros H Hne Hf HQ. unfold ScanSymbol. apply returns_bind, (Read_returns _ _ _ _ _ _ H). intros s1 H1.
  apply returns_bind, (symbol_loop_returns _ _ _ _ _ _ _ _ H1); [lia|]. intros s2 ts Hts H2.
  apply returns_bind, (Unread_returns _ _ _ _ _ _ _ H2). intros s3 H3.
  rewrite <- Hts in Hne, HQ. assert (Hrest : drop (i + length ts) l = drop_while is_symbol_char (drop i l)).
  { by rewrite <- drop_drop, Hts, drop_take_while. }
  unfold lex_symbol in HQ. rewrite <- Hts in HQ. set (cs := b ++ ts) in *.
  replace (length b + length ts) with (length cs) by (subst cs; by rewrite length_app).
  assert (Hsym : bracketed cs = false → returns (str ← global_string 0; p ← CreateSymbol str; mret (p, SYMBOL_TOKEN)) s3 Q).
  { intros Hb. rewrite Hb in HQ. apply returns_bind, (global_string_returns _ _ _ _ _ _ _ H3); [done|lia|]. rewrite drop_0.
    apply returns_bind, (CreateSymbol_returns _ _ _ _ _ _ _ H3). intros p s4 H4. apply returns_ret.
    eapply HQ; [done| |exact H4]. done. }
  destruct (Nat.ltb_spec 2 (length cs)) as [Hlen|Hlen]; cycle 1.
  { apply Hsym. unfold bracketed. by rewrite (proj2 (Nat.ltb_ge _ _)) by done. }
  destruct (bracketed_at cs Hlen) as (c0 & cl & H0 & Hl & Hlast & Hb).
  apply returns_bind, (global_byte_returns _ _ _ _ _ _ _ _ H3 H0). apply returns_bind.
  apply (returns_mono _ _ (fun a s' => a = bracketed cs ∧ s' = s3)).
  { rewrite Hb. destruct (code_of c0 =? left_bracket)%Z; [|by apply returns_ret].
    apply returns_bind, (global_byte_returns _ _ _ _ _ _ _ _ H3 Hl). by apply returns_ret. }
  intros x s' [-> ->]. destruct (bracketed cs) eqn:Ebr; [|by apply Hsym].
  apply returns_bind. apply (inner_name_returns _ l (i + length ts) cs K _ right_bracket (ALexeme INSTANCE_NAME_TYPE)); [|done|lia| |].
  - intros. by eapply CreateInstanceName_returns.
  - symmetry in Hb. apply andb_true_iff in Hb as [_ Hb]. apply Z.eqb_eq in Hb. by rewrite <- Hb, char_of_code.
  - intros p s4 H4. apply returns_ret. eapply HQ; [done| |exact H4]. done.
Qed.

(** ** [ScanString] *)

Lemma lex_string_step acc c r : code_of c ≠ quote →
  lex_string acc (c :: r) =
  if (code_of c =? backslash)%Z
  then match r with [] => (expand_char acc EOF, []) | c' :: r' => lex_string (expand_char acc (code_of c')) r' end
  else lex_string (expand_char acc (code_of c)) r.
Proof. intros Hq. cbn [lex_string]. by rewrite (proj2 (Z.eqb_neq _ _)) by done. Qed.
Lemma code_of_not_EOF c : code_of c ≠ EOF.
Proof. pose proof (code_of_bounds c). unfold EOF. lia. Qed.

Lemma string_loop_returns fuel l i b K s acc B (Q : Buffer * Z → env → Prop) :
  ready l (S i) b K s → holds B acc → length l - i < fuel →
  (∀ B' ch j s', holds B' (lex_string acc (drop i l)).1 → drop j l = (lex_string acc (drop i l)).2 →
     ready l j b K s' → Q (B', ch) s') →
  returns (string_loop fuel name B (code_at l i)) s Q.
Proof.
  revert i s acc B. induction fuel as [|fuel IH]; intros i s acc B H HB Hf HQ; [lia|]. cbn [string_loop].
  destruct (drop i l) as [|c r] eqn:E.
  { rewrite (code_at_nil _ _ E). cbn. apply returns_ret. eapply HQ; [exact HB| |exact H]. by rewrite (drop_S_nil _ _ E). }
  destruct (code_at_cons _ _ _ _ E) as (-> & Hr & Hi).
  rewrite (proj2 (Z.eqb_neq _ _) (code_of_not_EOF c)), orb_false_r.
  destruct (Z.eqb_spec (code_of c) quote) as [Eq|Eq].
  { apply returns_ret. cbn [lex_string] in HQ. rewrite (proj2 (Z.eqb_eq _ _) Eq) in HQ. eapply HQ; [exact HB|exact Hr|exact H]. }
  rewrite (lex_string_step _ _ _ Eq) in HQ. apply returns_bind.
  destruct (code_of c =? backslash)%Z.
  - apply (Read_returns _ _ _ _ _ _ H). intros s1 H1.
    destruct (expand_holds (code_at l (S i)) B acc HB) as (B' & HB' & Hh & _).
    apply returns_bind. exists B', s1. split; [unfold someP; by rewrite HB'|].
    apply returns_bind, (Read_returns _ _ _ _ _ _ H1). intros s2 H2.
    apply (IH (S (S i)) s2 _ B' H2 Hh); [lia|]. intros B2 ch j s3 Hh3 Hj H3. apply (HQ B2 ch j s3); [| |done].
    + destruct r as [|c' r'].
      * rewrite (drop_S_nil _ _ Hr) in Hh3. by rewrite (code_at_nil _ _ Hr) in Hh3.
      * destruct (code_at_cons _ _ _ _ Hr) as (Hc' & Hr' & _). by rewrite Hr', Hc' in Hh3.
    + destruct r as [|c' r'].
      * by rewrite (drop_S_nil _ _ Hr) in Hj.
      * destruct (code_at_cons _ _ _ _ Hr) as (Hc' & Hr' & _). by rewrite Hr', Hc' in Hj.
  - apply returns_ret. destruct (expand_holds (code_of c) B acc HB) as (B' & HB' & Hh & _).
    apply returns_bind. exists B', s. split; [unfold someP; by rewrite HB'|].
    apply returns_bind, (Read_returns _ _ _ _ _ _ H). intros s2 H2.
    apply (IH (S i) s2 _ B' H2 Hh); [lia|]. intros B2 ch j s3 Hh3 Hj H3. rewrite Hr in *. by apply (HQ B2 ch j s3).
Qed.

Lemma UnterminatedString_plain : plain_message UnterminatedString_log.
Proof. unfold plain_message. repeat (constructor; [eexists; by left|]). constructor. Qed.

Lemma ScanString_returns fuel l i b K s (Q : ptr → env → Prop) : ready l i b K s → length l < fuel →
  (∀ p j s', drop j l = (lex_string [] (drop i l)).2 →
     ready l j b ((ALexeme STRING_TYPE (text (lex_string [] (drop i l)).1), p) :: K) s' → Q p s') →
  returns (ScanString fuel name) s Q.
Proof.
  intros H Hf HQ. unfold ScanString. apply returns_bind, (Read_returns _ _ _ _ _ _ H). intros s1 H1.
  apply returns_bind, (string_loop_returns _ _ _ _ _ _ [] _ _ H1 holds_empty); [lia|]. intros B ch j s2 HB Hj H2.
  apply returns_bind. exists (IgnoreCompletionErrors (scanner_data (host s2))), s2. split; [done|].
  apply returns_bind, (returns_mono _ _ (fun _ s' => ready l j b K s')).
  { apply returns_whenP; [|done]. intros _. by apply (report_returns _ _ _ _ _ _ _ UnterminatedString_plain H2). }
  intros _ s3 H3. destruct (bytes B) eqn:EB.
  - apply returns_bind. exists (text (lex_string [] (drop i l)).1), s3. split.
    + unfold someP. rewrite <- EB, (c_string_holds B _ HB) by (by rewrite EB). done.
    + apply (CreateString_returns _ _ _ _ _ _ _ H3). intros p s4 H4. by apply (HQ p j).
  - assert ((lex_string [] (drop i l)).1 = []) as Hnil by (destruct HB as [_ HB]; rewrite EB in HB; apply HB).
    apply (CreateString_returns _ _ _ _ _ _ _ H3). intros p s4 H4. rewrite Hnil in HQ. by apply (HQ p j).
Qed.

(** ** [ScanNumber] *)

Definition open_phase (phase : Z) : Prop := phase ∈ [SIGN; INTEGRAL; DECIMAL; EXPONENT_BEGIN; EXPONENT_VALUE].

Lemma open_SIGN : open_phase SIGN.
Proof. apply list_elem_of_here. Qed.
Lemma open_phase_continues phase : open_phase phase → (phase =? DONE)%Z = false ∧ (phase =? ERROR)%Z = false.
Proof. unfold open_phase. rewrite !elem_of_cons, elem_of_nil. intros H. by destruct_or! H; subst. Qed.

Lemma number_step_cases phase df pf sl c : open_phase phase →
  match number_step phase df pf sl c with
  | (phase', _, _, added) =>
      if added then (c =? BACKSPACE)%Z = false ∧ (c =? EOF)%Z = false ∧ (c =? 0)%Z = false ∧ (open_phase phase' ∨ phase' = ERROR) ∧ phase' ≠ SIGN
      else phase' = DONE
  end.
Proof.
  intros Hp. assert (Hopen : ∀ z, z ∈ [INTEGRAL; DECIMAL; EXPONENT_BEGIN; EXPONENT_VALUE] → open_phase z ∧ z ≠ SIGN).
  { intros z Hz. split; [unfold open_phase; by apply list_elem_of_further|]. intros ->.
    rewrite !elem_of_cons, elem_of_nil in Hz. by destruct_or! Hz. }
  assert (Hc : ∀ f : Z → bool, f BACKSPACE = false → f EOF = false → f 0%Z = false → f c = true → (c =? BACKSPACE)%Z = false ∧ (c =? EOF)%Z = false ∧ (c =? 0)%Z = false).
  { intros f H1 H2 H0 H3. split_and!; apply Z.eqb_neq; intros ->; congruence. }
  assert (Hstep : ∀ f z, f BACKSPACE = false → f EOF = false → f 0%Z = false → f c = true → z ∈ [INTEGRAL; DECIMAL; EXPONENT_BEGIN; EXPONENT_VALUE] →
    (c =? BACKSPACE)%Z = false ∧ (c =? EOF)%Z = false ∧ (c =? 0)%Z = false ∧ (open_phase z ∨ z = ERROR) ∧ z ≠ SIGN).
  { intros f z H1 H2 H0 H3 Hz. destruct (Hc f H1 H2 H0 H3) as (?&?&?), (Hopen z Hz). auto 10. }
  assert (Herr : ∀ f, f BACKSPACE = true → f EOF = true → f 0%Z = true → f c = false →
    (c =? BACKSPACE)%Z = false ∧ (c =? EOF)%Z = false ∧ (c =? 0)%Z = false ∧ (open_phase ERROR ∨ ERROR = ERROR) ∧ ERROR ≠ SIGN).
  { intros f H1 H2 H0 H3.
    destruct (Hc (fun z => negb (f z))) as (?&?&?); [by rewrite H1|by rewrite H2|by rewrite H0|by rewrite H3|]. auto 10. }
  unfold open_phase in Hp. rewrite !elem_of_cons, elem_of_nil in Hp. unfold number_step.
  destruct_or! Hp; subst; cbn [Z.eqb SIGN INTEGRAL DECIMAL EXPONENT_BEGIN EXPONENT_VALUE];
    repeat match goal with |- context [if ?b then _ else _] => destruct b eqn:? end; try done;
    first [ eapply (Hstep isdigit); [done..|]; set_solver | eapply (Hstep is_sign); [done..|]; set_solver
    | eapply (Hstep (fun c => c =? point)%Z); [done..|]; set_solver | eapply (Hstep is_e); [done..|]; set_solver
    | by apply (Herr ends_number) | by apply (Herr (fun c => delimiter c || negb (isprint c))) ].
Qed.

Lemma number_step_sign phase df pf sl1 sl2 c : open_phase phase →
  (phase =? EXPONENT_VALUE)%Z && negb (isdigit c) && ends_number c = false →
  number_step phase df pf sl1 c = number_step phase df pf sl2 c.
Proof.
  unfold open_phase. rewrite !elem_of_cons, elem_of_nil. intros Hp. unfold number_step.
  destruct_or! Hp; subst; cbn [Z.eqb SIGN INTEGRAL DECIMAL EXPONENT_BEGIN EXPONENT_VALUE]; try done.
  destruct (isdigit c); [done|]. destruct (ends_number c); [|done]. cbn. done.
Qed.

Lemma sign_is_last_returns phase l i b K s df pf c (Q : bool → env → Prop) : open_phase phase → ready l i b K s →
  (phase ≠ SIGN → b ≠ []) →
  (∀ sl, number_step phase df pf sl c = number_step phase df pf (sign_last b) c → Q sl s) →
  returns (sign_is_last phase (length b) c) s Q.
Proof.
  intros Hp H Hb HQ. unfold sign_is_last. destruct (_ && _) eqn:E; cycle 1.
  { apply returns_ret, HQ. by apply number_step_sign. }
  apply andb_true_iff in E as [E _]. apply andb_true_iff in E as [E _]. apply Z.eqb_eq in E. subst phase.
  destruct (last b) as [cl|] eqn:El; [|apply last_None in El; by destruct (Hb ltac:(done))].
  apply returns_bind, (global_byte_returns _ _ _ _ _ _ cl _ H); [by rewrite Nat.sub_1_r, <- last_lookup|].
  apply returns_ret, HQ. unfold sign_last. by rewrite El.
Qed.

Lemma number_loop_returns fuel phase df pf l i b K s (Q : Z * bool * bool * nat * Z → env → Prop) :
  open_phase phase → ready l (S i) b K s → (phase ≠ SIGN → b ≠ []) → S (length l - i) < fuel →
  (∀ phase' df' pf' cs rest j ch s', number_run phase df pf b (drop i l) = (phase', df', pf', cs, rest) →
     drop j l = rest → ready l (if phase' =? ERROR then j else S j)%Z cs K s' →
     Q (phase', df', pf', length cs, ch) s') →
  returns (number_loop fuel name phase df pf (length b) (code_at l i)) s Q.
Proof.
  revert phase df pf i b s. induction fuel as [|fuel IH]; intros phase df pf i b s Hp H Hb Hf HQ; [lia|]. cbn [number_loop].
  destruct (open_phase_continues _ Hp) as [-> ->]. cbn [orb].
  apply returns_bind, (sign_is_last_returns _ _ _ _ _ _ df pf _ _ Hp H Hb). intros sl Hsl. rewrite Hsl.
  pose proof (number_step_cases phase df pf (sign_last b) (code_at l i) Hp) as Hcases.
  destruct (number_step phase df pf (sign_last b) (code_at l i)) as [[[phase' df'] pf'] added] eqn:Estep. destruct added; cycle 1.
  - subst phase'. apply returns_bind, returns_ret. apply returns_bind, returns_ret.
    destruct fuel as [|fuel]; [lia|]. cbn. apply returns_ret.
    apply (HQ DONE df' pf' b (drop i l) i); [|done|exact H].
    destruct (drop i l) as [|c r] eqn:E; cbn [number_run].
    + rewrite (code_at_nil _ _ E) in Estep. by rewrite Estep.
    + destruct (code_at_cons _ _ _ _ E) as (Hc & _). rewrite Hc in Estep. by rewrite Estep.
  - destruct Hcases as (Hnb & Hne & _ & Hopen & Hns). destruct (drop i l) as [|c r] eqn:E.
    { by rewrite (code_at_nil _ _ E) in Hne. }
    destruct (code_at_cons _ _ _ _ E) as (Hc & Hr & Hi). rewrite Hc in *.
    apply returns_bind, (add_global_returns _ _ _ _ _ _ _ H). intros s1 H1.
    unfold expand_char in H1. rewrite Hnb, char_of_code in H1. cbn [number_run] in HQ. rewrite Estep in HQ.
    replace (length b + 1) with (length (b ++ [c])) by (by rewrite length_app).
    destruct Hopen as [Hopen| ->].
    + destruct (open_phase_continues _ Hopen) as [E1 E2]. rewrite E1, E2 in *. cbn [negb andb].
      apply returns_bind, (Read_returns _ _ _ _ _ _ H1). intros s2 H2.
      apply IH; [done|done|by intros _; destruct b|lia|]. by rewrite Hr.
    + cbn [negb andb Z.eqb ERROR DONE]. apply returns_bind, returns_ret. destruct fuel as [|fuel]; [lia|].
      apply returns_ret. apply (HQ ERROR df' pf' (b ++ [c]) r (S i)); [done|done|exact H1].
Qed.
(** The characters of a number contain no [NUL] and extend those before. *)
Lemma number_run_chars phase df pf acc l : open_phase phase → NUL ∉ acc →
  NUL ∉ (number_run phase df pf acc l).1.2 ∧ ∃ k, (number_run phase df pf acc l).1.2 = acc ++ k.
Proof.
  revert phase df pf acc. induction l as [|c l IH]; intros phase df pf acc Hp Hn; cbn [number_run].
  { destruct (number_step _ _ _ _ _) as [[[??]?]?]. cbn. split; [done|]. exists []. by rewrite app_nil_r. }
  pose proof (number_step_cases phase df pf (sign_last acc) (code_of c) Hp) as Hcases.
  destruct (number_step _ _ _ _ _) as [[[phase' df'] pf'] added]. destruct added.
  - destruct Hcases as (_ & _ & H0 & Hopen & _).
    assert (NUL ∉ acc ++ [c]) as Hn'.
    { rewrite not_elem_of_app. split; [done|]. intros <-%list_elem_of_singleton. done. }
    destruct Hopen as [Hopen| ->].
    + destruct (open_phase_continues _ Hopen) as [-> ->]. destruct (IH phase' df' pf' _ Hopen Hn') as [H1 [k Hk]].
      split; [done|]. exists (c :: k). rewrite Hk. by rewrite <- app_assoc.
    + cbn. split; [done|]. by exists [c].
  - subst phase'. cbn. split; [done|]. exists []. by rewrite app_nil_r.
Qed.
Lemma number_run_starts c l : isdigit (code_of c) || is_sign (code_of c) || (code_of c =? point)%Z = true →
  (number_run SIGN false false [] (c :: l)).1.2 ≠ [].
Proof.
  intros Hc. cbn [number_run]. unfold number_step. cbn [Z.eqb SIGN].
  assert (∀ ph df pf, open_phase ph → (number_run ph df pf ([] ++ [c]) l).1.2 ≠ []) as Hrun.
  { intros ph df pf Hp. destruct (decide (c = NUL)) as [->|Hn]; [done|].
    destruct (number_run_chars ph df pf [c] l Hp) as [_ [k Hk]]; [set_solver|]. cbn [app]. by rewrite Hk. }
  destruct (isdigit (code_of c)); [apply Hrun; unfold open_phase; set_solver|].
  destruct (is_sign (code_of c)); [apply Hrun; unfold open_phase; set_solver|].
  cbn [orb] in Hc. rewrite Hc. apply Hrun. unfold open_phase. set_solver.
Qed.

(** ** Tokens *)

(** The token that was scanned is the one of the reference. *)
Definition token_matches (x : lexed) (t : token) K : Prop :=
  tknType t = lx_type x ∧ printForm t = lx_form x ∧
  match lx_value x with Some a => ∃ p, tkn_value t = Some p ∧ (a, p) ∈ K | None => tkn_value t = None end.
Definition scanned (l : list byte) K (x : lexed) (t : token) s : Prop :=
  ∃ j b K', drop j l = lx_rest x ∧ ready l j b K' s ∧ (∀ y, y ∈ K → y ∈ K') ∧ token_matches x t K'.

Lemma scanned_intro l j b K K' x type p a form s :
  drop j l = lx_rest x → ready l j b K' s → (∀ y, y ∈ (a, p) :: K → y ∈ K') →
  type = lx_type x → form = lx_form x → lx_value x = Some a → scanned l K x (mkToken type (Some p) form) s.
Proof.
  intros Hj Hr HK -> -> Hv. exists j, b, K'. split_and!; [done|done| |].
  - intros y Hy. apply HK. by apply list_elem_of_further.
  - split_and!; [done|done|]. rewrite Hv. exists p. split; [done|]. apply HK, list_elem_of_here.
Qed.

Lemma lex_symbol_lexeme b l : ∃ t, lx_value (lex_symbol b l) = Some (ALexeme t (lx_form (lex_symbol b l))).
Proof. unfold lex_symbol. destruct (bracketed _); by eexists. Qed.

(** A symbol and the text of its lexeme. *)
Lemma symbol_returns fuel l i b K s (force : bool) (Q : token → env → Prop) :
  ready l i b K s → b ++ take_while is_symbol_char (drop i l) ≠ [] → length l < fuel →
  let x := lex_symbol b (drop i l) in
  (∀ t s', scanned l K (if force then with_type SYMBOL_TOKEN x else x) t s' → Q t s') →
  returns (symbol_token fuel name (length b) force) s Q.
Proof.
  intros H Hne Hf x HQ. unfold symbol_token. apply returns_bind, (ScanSymbol_returns _ _ _ _ _ _ _ H Hne Hf).
  fold x. intros p a s1 j Hv Hj H1. destruct (lex_symbol_lexeme b (drop i l)) as [t Ht]. fold x in Ht.
  assert (a = ALexeme t (lx_form x)) as -> by congruence.
  apply returns_bind, (lexeme_text_returns _ _ _ _ _ t (lx_form x) p _ H1); [apply list_elem_of_here|].
  apply returns_ret, HQ. destruct force; by eapply scanned_intro.
Qed.

Lemma IntegerOverflow_plain : plain_message IntegerOverflow_log.
Proof. unfold plain_message. repeat (constructor; [eexists; by right|]). constructor. Qed.

Lemma strtoll_range cs : (LLONG_MIN <= (strtoll cs).1 <= LLONG_MAX)%Z.
Proof.
  unfold strtoll. destruct (take_sign cs) as [negative l']. cbn zeta. set (z := if negative then _ else _).
  destruct (Z.ltb_spec z LLONG_MIN); [by vm_compute|]. destruct (Z.ltb_spec LLONG_MAX z); [by vm_compute|]. cbn [fst]. lia.
Qed.
Lemma bits_of_double_word d : is_word (bits_of_double d).
Proof. unfold is_word, bits_of_double. apply Z.mod_pos_bound. lia. Qed.

Lemma ScanNumber_returns fuel l i b0 K s (Q : token → env → Prop) :
  ready l i [] K s → drop i l = b0 :: drop (S i) l →
  isdigit (code_of b0) || is_sign (code_of b0) || (code_of b0 =? point)%Z = true →
  S (length l) < fuel → no_least_integer (lex_number (drop i l)) →
  (∀ t s', scanned l K (lex_number (drop i l)) t s' → Q t s') →
  returns (ScanNumber fuel name) s Q.
Proof.
  intros H Hd Hstart Hf Hleast HQ. unfold ScanNumber. apply returns_bind, (Read_returns _ _ _ _ _ _ H). intros s1 H1.
  apply returns_bind, (number_loop_returns _ SIGN _ _ _ _ [] _ _ _ open_SIGN H1 ltac:(done)); [lia|].
  intros phase df pf cs rest j ch s2 Hrun Hj H2.
  destruct (number_run_chars SIGN false false [] (drop i l)) as [Hnul _]; [unfold open_phase; set_solver|set_solver|].
  pose proof (number_run_starts b0 (drop (S i) l) Hstart) as Hne. rewrite <- Hd in Hne.
  unfold lex_number in *. rewrite Hrun in *. cbn [fst snd] in *.
  destruct (phase =? ERROR)%Z.
  - change (returns (symbol_token fuel name (length cs) false) s2 Q).
    apply (symbol_returns _ _ _ _ _ _ false _ H2); [by destruct cs|lia|]. rewrite Hj. exact HQ.
  - apply returns_bind, (Unread_returns _ _ _ _ _ _ _ H2). intros s3 H3. destruct df; cbn [negb]; cycle 1.
    + apply returns_bind, (global_string_returns _ _ _ _ _ _ _ H3 Hne); [lia|]. rewrite drop_0.
      apply returns_bind, (CreateSymbol_returns _ _ _ _ _ _ _ H3). intros p s4 H4.
      apply returns_bind, (lexeme_text_returns _ _ _ _ _ SYMBOL_TYPE (text cs) p _ H4); [apply list_elem_of_here|].
      apply returns_ret, HQ. by eapply scanned_intro.
    + apply returns_bind, (global_string_returns _ _ _ _ _ _ _ H3 Hne); [lia|]. rewrite drop_0.
      apply returns_bind. exists (text cs), s3. split; [done|].
      assert (chars (text cs) = cs) as ->.
      { unfold text, chars. rewrite until_nul_id by done. apply String.list_ascii_of_string_of_list_ascii. }
      destruct pf.
      * apply returns_bind, (creates_returns _ _ _ _ _ (AFloat (bits_of_double (atof cs))) _ _ H3); [intros C HC; apply CreateFloat_creates; [done|apply bits_of_double_word]|].
        intros p s4 H4. apply returns_bind, (created_string_returns _ _ _ _ _ _ _ H4). intros s5 H5.
        apply returns_ret, HQ. by eapply scanned_intro.
      * cbn [lx_value number_value] in Hleast. unfold no_least_integer in Hleast. cbn [lx_value number_value] in Hleast.
        pose proof (strtoll_range cs) as Hrange. destruct (strtoll cs) as [z errno] eqn:Ez. cbn [fst] in *.
        apply returns_bind, (returns_mono _ _ (fun _ s' => ready l j cs K s')).
        { apply returns_whenP; [|done]. intros _. by apply (report_returns _ _ _ _ _ _ _ IntegerOverflow_plain H3). }
        intros _ s4 H4. apply returns_bind, (creates_returns _ _ _ _ _ (AInteger z) _ _ H4).
        { intros C HC. apply CreateInteger_creates; [done|]. assert (z ≠ LLONG_MIN) by (intros ->; by apply Hleast). lia. }
        intros p s5 H5. apply returns_bind, (created_string_returns _ _ _ _ _ _ _ H5). intros s6 H6.
        apply returns_ret, HQ. eapply scanned_intro; [|exact H6|done|..]; unfold number_value; rewrite ?Ez; done.
Qed.

(** ** Variables *)

Lemma starts_symbol c : starts_name (code_of c) || (code_of c =? asterisk)%Z = true → is_symbol_char c = true.
Proof. by destruct c as [[] [] [] [] [] [] [] []]. Qed.
Lemma starts_no_bracket c : starts_name (code_of c) || (code_of c =? asterisk)%Z = true → c ≠ char_of left_bracket.
Proof. by destruct c as [[] [] [] [] [] [] [] []]. Qed.
Lemma symbol_char_not_nul c : is_symbol_char c = true → c ≠ NUL.
Proof. by intros H ->. Qed.
Lemma symbol_chars_nul l : NUL ∉ take_while is_symbol_char l.
Proof. intros H%take_while_all. done. Qed.
Lemma chars_text l : NUL ∉ l → chars (text l) = l.
Proof. intros H. unfold text, chars. rewrite until_nul_id by done. apply String.list_ascii_of_string_of_list_ascii. Qed.
Lemma InvalidVariable_plain buffer : plain_message (InvalidVariable_log buffer).
Proof. unfold plain_message. repeat (constructor; [eexists; by left|]). constructor. Qed.

Lemma AppendStrings_returns l i b K s str1 str2 (Q : string → env → Prop) : ready l i b K s →
  (∀ s', ready l i b K s' → Q (text (chars (str1 +:+ str2))) s') → returns (AppendStrings str1 str2) s Q.
Proof. intros H HQ. unfold AppendStrings. rewrite append_strings_correct. by apply (created_string_returns _ _ _ _ _ _ _ H). Qed.

Lemma lex_symbol_plain c l : c ≠ char_of left_bracket → is_symbol_char c = true →
  let cs := take_while is_symbol_char (c :: l) in
  lex_symbol [] (c :: l) = mkLexed SYMBOL_TOKEN (Some (ALexeme SYMBOL_TYPE (text cs))) (text cs) (drop_while is_symbol_char (c :: l)).
Proof.
  intros Hb Hc cs. unfold lex_symbol. cbn [app]. fold cs.
  assert (bracketed cs = false) as ->; [|done].
  unfold bracketed. subst cs. cbn [take_while]. rewrite Hc. cbn [head].
  rewrite (bool_decide_false (Some c = _)) by congruence. by rewrite andb_false_r.
Qed.

Lemma scan_variable_returns fuel l i K s prefix variable global_ wildcard (Q : token → env → Prop) :
  ready l i [] K s → length l < fuel →
  (∀ t s', scanned l K (lex_variable prefix variable global_ wildcard (drop i l)) t s' → Q t s') →
  returns (scan_variable fuel name prefix variable global_ wildcard) s Q.
Proof.
  intros H Hf HQ. unfold scan_variable. apply returns_bind, (Read_returns _ _ _ _ _ _ H). intros s1 H1.
  assert (Hwild : drop i l = lx_rest (lex_variable prefix variable global_ wildcard (drop i l)) →
    lex_variable prefix variable global_ wildcard (drop i l) = mkLexed wildcard (Some (ALexeme SYMBOL_TYPE prefix)) prefix (drop i l) →
    returns (p ← CreateSymbol (Some prefix); _ ← Unread name (code_at l i); mret (mkToken wildcard (Some p) prefix)) s1 Q).
  { intros _ E. apply returns_bind, (CreateSymbol_returns _ _ _ _ _ _ _ H1). intros p s2 H2.
    apply returns_bind, (Unread_returns _ _ _ _ _ _ _ H2). intros s3 H3. apply returns_ret, HQ. rewrite E. by eapply scanned_intro. }
  destruct (drop i l) as [|c r] eqn:E.
  { rewrite (code_at_nil _ _ E) in *. by apply Hwild. }
  destruct (code_at_cons _ _ _ _ E) as (Hc & Hr & Hi). rewrite Hc in *. cbn [lex_variable] in *.
  destruct (starts_name (code_of c) || (code_of c =? asterisk)%Z) eqn:Estart.
  - apply returns_bind, (Unread_returns _ _ _ _ _ _ _ H1). intros s2 H2.
    pose proof (starts_symbol c Estart) as Hsym.
    pose proof (lex_symbol_plain c r (starts_no_bracket c Estart) Hsym) as Hlex. cbn zeta in Hlex.
    set (cs := take_while is_symbol_char (c :: r)) in *.
    assert (Hcs : cs = c :: take_while is_symbol_char r) by (subst cs; cbn [take_while]; by rewrite Hsym).
    assert (Hnul : NUL ∉ cs) by apply symbol_chars_nul.
    apply returns_bind, (ScanSymbol_returns _ _ _ [] _ _ _ H2); rewrite ?E; cbn [app]; fold cs; [by rewrite Hcs|lia|].
    rewrite Hlex. cbn [lx_value lx_rest lx_type]. intros p a s3 j [= <-] Hj H3. cbn beta iota.
    apply returns_bind, (lexeme_text_returns _ _ _ _ _ SYMBOL_TYPE (text cs) p _ H3); [apply list_elem_of_here|].
    cbn zeta. rewrite (chars_text cs Hnul).
    assert (bool_decide (cs !! 0 = Some (char_of asterisk)) && (1 <? length cs) && bool_decide (last cs = Some (char_of asterisk)) = starred cs) as ->.
    { unfold starred. rewrite Hcs. cbn [head lookup list_lookup]. by rewrite (andb_comm (1 <? _)). }
    destruct (starred cs) eqn:Est.
    + unfold starred in Est. apply andb_true_iff in Est as [Est Hlast]. apply andb_true_iff in Est as [Hlen Hhead].
      apply bool_decide_eq_true in Hlast, Hhead. apply Nat.ltb_lt in Hlen.
      assert (c = char_of asterisk) as -> by (rewrite Hcs in Hhead; by injection Hhead).
      apply returns_bind, (AppendStrings_returns _ _ _ _ _ _ _ _ H3). intros s4 H4.
      apply returns_bind, (global_string_returns _ _ _ _ _ _ _ H4); [by rewrite Hcs|lia|]. rewrite drop_0.
      apply returns_bind. exists (text cs), s4. split; [done|].
      rewrite <- length_chars, (chars_text cs Hnul).
      apply returns_bind, (inner_name_returns _ _ _ _ _ _ _ (ALexeme SYMBOL_TYPE) _ CreateSymbol_returns H4 Hlen Hlast).
      intros q s5 H5. apply returns_ret, HQ. eapply scanned_intro; [exact Hj|exact H5| |done..]. set_solver.
    + apply returns_bind, (AppendStrings_returns _ _ _ _ _ _ _ _ H3). intros s4 H4.
      apply returns_ret, HQ. by eapply scanned_intro.
  - destruct (isprint (code_of c) && negb (isspace (code_of c)) && negb (code_of c =? left_parenthesis)%Z
      && negb (code_of c =? right_parenthesis)%Z) eqn:Ebad.
    + rewrite char_of_code. apply returns_bind, (report_returns _ _ _ _ _ _ _ (InvalidVariable_plain _) H1). intros s2 H2.
      apply returns_bind, (AppendStrings_returns _ _ _ _ _ _ _ _ H2). intros s3 H3.
      apply returns_ret, HQ. exists (S i), [], K. by split_and!.
    + by apply Hwild.
Qed.

(** ** White space *)

Lemma skip_comment_returns fuel l i b K s (Q : Z → env → Prop) :
  ready l (S i) b K s → length l - i < fuel →
  (∀ j ch s', i <= j → skip_space true (drop i l) = skip_space false (drop (S j) l) → ready l (S j) b K s' → Q ch s') →
  returns (skip_comment fuel name (code_at l i)) s Q.
Proof.
  revert i s. induction fuel as [|fuel IH]; intros i s H Hf HQ; [lia|]. cbn [skip_comment].
  destruct (drop i l) as [|c r] eqn:E.
  { rewrite (code_at_nil _ _ E). cbn. apply returns_ret. apply (HQ i); [lia|by rewrite (drop_S_nil _ _ E)|done]. }
  destruct (code_at_cons _ _ _ _ E) as (-> & Hr & Hi). rewrite (proj2 (Z.eqb_neq _ _) (code_of_not_EOF c)), orb_false_r.
  cbn [skip_space] in HQ. destruct (_ || _) eqn:Eend.
  - apply returns_ret. apply (HQ i); [lia| |done]. by rewrite Hr.
  - apply returns_bind, (Read_returns _ _ _ _ _ _ H). intros s2 H2. apply (IH (S i)); [done|lia|].
    intros j ch s3 Hj Hskip H3. rewrite Hr in Hskip. apply (HQ j); [lia|done|done].
Qed.

Lemma skip_white_space_returns fuel l i b K s (Q : Z → env → Prop) :
  ready l (S i) b K s → length l - i < fuel →
  (∀ j s', drop j l = skip_space false (drop i l) → ready l (S j) b K s' → Q (code_at l j) s') →
  returns (skip_white_space fuel name (code_at l i)) s Q.
Proof.
  revert i s. induction fuel as [|fuel IH]; intros i s H Hf HQ; [lia|]. cbn [skip_white_space].
  destruct (drop i l) as [|c r] eqn:E.
  { rewrite (code_at_nil _ _ E). cbn. apply returns_ret. rewrite <- (code_at_nil _ _ E). by apply HQ. }
  destruct (code_at_cons _ _ _ _ E) as (Hc & Hr & Hi). rewrite Hc. cbn [skip_space] in HQ.
  destruct (Z.eqb_spec (code_of c) semicolon) as [Esc|Esc].
  - rewrite Esc. change (white_space semicolon) with true. change (semicolon =? semicolon)%Z with true. cbn iota.
    apply returns_bind, returns_bind, (Read_returns _ _ _ _ _ _ H). intros s1 H1.
    apply returns_bind, (skip_comment_returns _ _ _ _ _ _ _ H1); [lia|]. intros j ch s2 Hj Hskip H2.
    apply returns_ret, returns_bind, (Read_returns _ _ _ _ _ _ H2). intros s3 H3.
    apply (IH (S j)); [done|lia|]. intros k s4 Hk. apply HQ. by rewrite Hk, <- Hskip, Hr.
  - destruct (white_space (code_of c)) eqn:Ew.
    + apply returns_bind, returns_ret, returns_bind, (Read_returns _ _ _ _ _ _ H). intros s3 H3.
      apply (IH (S i)); [done|lia|]. intros k s4 Hk. apply HQ. by rewrite Hk, Hr.
    + apply returns_ret. rewrite <- Hc. by apply HQ.
Qed.

(** ** [GetToken] *)

Lemma StringPrintForm_returns l i b K s str (Q : string → env → Prop) : ready l i b K s →
  (∀ s', ready l i b K s' → Q (shown str) s') → returns (StringPrintForm str) s Q.
Proof. intros H HQ. unfold StringPrintForm. rewrite string_print_form_eq. by apply (created_string_returns _ _ _ _ _ _ _ H). Qed.

Lemma punctuation_returns l i b K s type str x (Q : token → env → Prop) : ready l i b K s →
  x = mkLexed type (Some (ALexeme STRING_TYPE str)) str (drop i l) →
  (∀ t s', scanned l K x t s' → Q t s') → returns (punctuation type str) s Q.
Proof.
  intros H -> HQ. apply returns_bind, (CreateString_returns _ _ _ _ _ _ _ H). intros p s1 H1. apply returns_ret, HQ.
  by eapply scanned_intro.
Qed.
Lemma stop_returns l i b K s x (Q : token → env → Prop) : ready l i b K s → x = stop_token (drop i l) →
  (∀ t s', scanned l K x t s' → Q t s') →
  returns (p ← CreateSymbol (Some "stop"); mret (mkToken STOP_TOKEN (Some p) "")) s Q.
Proof.
  intros H -> HQ. apply returns_bind, (CreateSymbol_returns _ _ _ _ _ _ _ H). intros p s1 H1. apply returns_ret, HQ.
  by eapply scanned_intro.
Qed.

(** What is left once the other tokens are excluded. *)
Lemma other_symbol c : isprint (code_of c) = true → starts_name (code_of c) = false →
  isdigit (code_of c) || is_sign (code_of c) || (code_of c =? point)%Z = false →
  (code_of c =? quote)%Z = false → (code_of c =? question_mark)%Z = false → (code_of c =? dollar)%Z = false →
  (code_of c =? less_than)%Z = false → punctuation_type (code_of c) = None → white_space (code_of c) = false →
  is_symbol_char c = true.
Proof. by destruct c as [[] [] [] [] [] [] [] []]. Qed.
Lemma name_is_symbol c : starts_name (code_of c) = true → is_symbol_char c = true.
Proof. intros H. apply starts_symbol. by rewrite H. Qed.

Lemma scan_token_returns fuel l i K s (Q : token → env → Prop) :
  ready l (S i) [] K s → (∀ c r, drop i l = c :: r → white_space (code_of c) = false) →
  S (length l) < fuel → no_least_integer (lex_token (drop i l)) →
  (∀ t s', scanned l K (lex_token (drop i l)) t s' → Q t s') →
  returns (scan_token fuel name (code_at l i)) s Q.
Proof.
  intros H Hws Hf Hleast HQ. unfold scan_token. destruct (drop i l) as [|c r] eqn:E.
  { rewrite (code_at_nil _ _ E). apply (stop_returns _ _ _ _ _ (stop_token []) _ H); [by rewrite (drop_S_nil _ _ E)|exact HQ]. }
  destruct (code_at_cons _ _ _ _ E) as (-> & Hr & Hi). specialize (Hws c r eq_refl). cbn [lex_token] in Hleast, HQ.
  destruct (starts_name (code_of c)) eqn:E1.
  { apply returns_bind, (Unread_returns _ _ _ _ _ _ _ H). intros s1 H1.
    apply (symbol_returns _ _ _ [] _ _ true _ H1); rewrite ?E; [|lia|exact HQ].
    cbn [app take_while]. by rewrite (name_is_symbol c E1). }
  assert (Hnum : isdigit (code_of c) || is_sign (code_of c) || (code_of c =? point)%Z = true →
    returns (_ ← Unread name (code_of c); ScanNumber fuel name) s Q).
  { intros En. rewrite En in Hleast, HQ. apply returns_bind, (Unread_returns _ _ _ _ _ _ _ H). intros s1 H1.
    apply (ScanNumber_returns _ _ _ c _ _ _ H1); rewrite ?E, ?Hr; done. }
  destruct (isdigit (code_of c)) eqn:E2; [by apply Hnum|].
  destruct (is_sign (code_of c) || (code_of c =? point)%Z) eqn:E3.
  { unfold is_sign in E3. destruct (Z.eqb_spec (code_of c) quote) as [Eq|Eq]; [by rewrite Eq in E3|].
    assert ((code_of c =? minus_sign)%Z || (code_of c =? point)%Z || (code_of c =? plus_sign)%Z = true) as ->.
    { revert E3. by destruct (code_of c =? minus_sign)%Z, (code_of c =? point)%Z, (code_of c =? plus_sign)%Z. }
    by apply Hnum. }
  cbn [orb] in *. rewrite E3 in *.
  assert ((code_of c =? minus_sign)%Z || (code_of c =? point)%Z || (code_of c =? plus_sign)%Z = false) as ->.
  { revert E3. unfold is_sign. by destruct (code_of c =? minus_sign)%Z, (code_of c =? point)%Z, (code_of c =? plus_sign)%Z. }
  destruct (code_of c =? quote)%Z eqn:E4.
  { apply returns_bind, (ScanString_returns _ _ _ _ _ _ _ H); [lia|]. intros p j s1 Hj H1. rewrite Hr in *.
    destruct (lex_string [] r) as [cs rest]. cbn [fst snd] in *.
    apply returns_bind, (lexeme_text_returns _ _ _ _ _ STRING_TYPE (text cs) p _ H1); [apply list_elem_of_here|].
    apply returns_bind, (StringPrintForm_returns _ _ _ _ _ _ _ H1). intros s2 H2. apply returns_ret, HQ. by eapply scanned_intro. }
  destruct (code_of c =? question_mark)%Z eqn:E5.
  { apply (scan_variable_returns _ _ _ _ _ _ _ _ _ _ H); [lia|]. by rewrite Hr. }
  destruct (code_of c =? dollar)%Z eqn:E6.
  { apply returns_bind, (Read_returns _ _ _ _ _ _ H). intros s1 H1. cbn [andb orb] in *.
    assert (Hcode : (code_at l (S i) =? question_mark)%Z = bool_decide (head r = Some (char_of question_mark))).
    { destruct r as [|c' r'].
      - by rewrite (code_at_nil _ _ Hr).
      - destruct (code_at_cons _ _ _ _ Hr) as (-> & _). cbn [head]. destruct (Z.eqb_spec (code_of c') question_mark) as [Eq|Eq]; symmetry.
        + apply bool_decide_eq_true. f_equal. by rewrite <- Eq, char_of_code.
        + apply bool_decide_eq_false. intros [= ->]. done. }
    rewrite Hcode. destruct (bool_decide _) eqn:Eq.
    - apply (scan_variable_returns _ _ _ _ _ _ _ _ _ _ H1); [lia|].
      assert (drop (S (S i)) l = drop 1 r) as Hr'; [|by rewrite Hr'].
      by rewrite <- Nat.add_1_r, <- drop_drop, Hr.
    - apply returns_bind, (add_global_returns _ _ _ _ _ _ _ H1). intros s2 H2.
      apply returns_bind, (Unread_returns _ _ _ _ _ _ _ H2). intros s3 H3.
      apply Z.eqb_eq in E6. assert (c = char_of dollar) as -> by (by rewrite <- E6, char_of_code).
      change (expand_char [] dollar) with [char_of dollar] in H3.
      apply (symbol_returns _ _ _ [char_of dollar] _ _ true _ H3); rewrite ?Hr; [done|lia|exact HQ]. }
  destruct (code_of c =? less_than)%Z eqn:E7.
  { cbn [andb orb] in *. apply returns_bind, (add_global_returns _ _ _ _ _ _ _ H). intros s2 H2.
    apply Z.eqb_eq in E7. assert (c = char_of less_than) as -> by (by rewrite <- E7, char_of_code).
    change (expand_char [] less_than) with [char_of less_than] in H2.
    apply (symbol_returns _ _ _ [char_of less_than] _ _ true _ H2); rewrite ?Hr; [done|lia|exact HQ]. }
  cbn [andb orb] in *. destruct (punctuation_type (code_of c)) as [[type str]|] eqn:E8.
  { unfold punctuation_type in E8.
    repeat match goal with |- returns (if ?b then _ else _) _ _ => destruct b; [injection E8 as <- <-;
      apply (punctuation_returns _ _ _ _ _ _ _ _ _ H eq_refl); by rewrite Hr|] end. done. }
  pose proof E8 as E8'. unfold punctuation_type in E8'.
  repeat match goal with |- returns (if (code_of c =? ?z)%Z then punctuation _ _ else _) _ _ => destruct (code_of c =? z)%Z; [done|] end.
  rewrite (proj2 (Z.eqb_neq _ _) (code_of_not_EOF c)). cbn [orb].
  destruct ((code_of c =? 0)%Z || (code_of c =? 3)%Z) eqn:E9.
  { apply (stop_returns _ _ _ _ _ (stop_token r) _ H); [by rewrite Hr|exact HQ]. }
  destruct (isprint (code_of c)) eqn:E10.
  - apply returns_bind, (Unread_returns _ _ _ _ _ _ _ H). intros s1 H1.
    apply (symbol_returns _ _ _ [] _ _ false _ H1); rewrite ?E; [|lia|exact HQ].
    cbn [app take_while]. by rewrite other_symbol by (rewrite ?E2; done).
  - apply returns_ret, HQ. exists (S i), [], K. by split_and!.
Qed.

(** ** The pretty print buffer *)

(** A buffer whose [NUL] is not written yet. *)
Lemma AppendToString_prefix str b l : has_room b l 0 →
  ∃ b', AppendToString str b = Some b' ∧ holds b' (l ++ chars str).
Proof.
  intros (Hp & rest & Hb & Hl & _). unfold AppendToString.
  assert (∃ b', EnlargeString (String.length str) b = Some b' ∧ has_room b' l (String.length str + 1)) as (b' & -> & Hr).
  { unfold EnlargeString. destruct (Nat.ltb_spec (maximum b) (String.length str + position b + 1)) as [Hg|Hg].
    - cbn zeta. set (n := if _ <? sizeof_char_ptr then _ else _).
      assert (String.length str + position b + 1 <= n) as Hn
        by (subst n; destruct (Nat.ltb_spec (String.length str + position b + 1) sizeof_char_ptr); lia).
      rewrite Hb. unfold genrealloc. rewrite (proj2 (Nat.leb_le _ _)) by (rewrite length_app, length_fmap; lia).
      cbn [mbind option_bind]. eexists. split; [done|]. split; [done|]. cbn [bytes maximum].
      rewrite Nat.min_l, take_ge, <- app_assoc by (rewrite ?length_app, ?length_fmap; lia).
      eexists. split; [done|]. rewrite length_app, length_replicate. lia.
    - eexists. split; [done|]. split; [done|]. exists rest. split_and!; [done..|lia]. }
  cbn [mbind option_bind]. rewrite <- length_chars in *.
  destruct (write_string_room b' l (chars str) _ Hr) as (m & -> & Hh); [done|]. by eexists.
Qed.

Lemma save_string_holds str d t : holds (PPBuffer d) t → ∃ d', save_string str d = Some d' ∧
  holds (PPBuffer d') (t ++ chars str) ∧ PPBackupOnce d' = length t ∧ PPBackupTwice d' = PPBackupOnce d.
Proof.
  intros Hb. destruct (Hb) as [Hp _]. unfold save_string. cbn zeta. set (increment := if _ <? _ then _ else 512).
  match goal with |- context [mbind (M := option) _ ?m] => set (grown := m) end.
  assert (∃ b, grown = Some b ∧ position b = length t ∧ ∃ b', AppendToString str b = Some b' ∧ holds b' (t ++ chars str))
    as (b & -> & Hpos & b' & Ha & Hh).
  { subst grown. destruct (Nat.leb_spec (maximum (PPBuffer d)) (String.length str + position (PPBuffer d) + 1)) as [Hle|Hgt].
    - assert (1 <= increment) as Hi.
      { subst increment. destruct (Nat.ltb_spec 512 (position (PPBuffer d))); lia. }
      destruct (genrealloc_room (PPBuffer d) t (maximum (PPBuffer d) + increment) Hb) as (rest & -> & Hl).
      { destruct (holds_fits _ _ Hb) as [Hf|[-> _]]; cbn [length]; lia. }
      cbn [mbind option_bind]. eexists. split; [done|]. split; [done|].
      apply AppendToString_prefix. split; [done|]. exists rest. split_and!; [done..|lia].
    - eexists. split; [done|]. split; [done|]. by apply AppendToString_holds. }
  cbn [mbind option_bind]. rewrite Ha. cbn [mbind option_bind]. eexists. by split_and!.
Qed.

Lemma SavePPBuffer_returns l i b K s str (Q : unit → env → Prop) : ready l i b K s →
  (∀ s', ready l i b K s' → Q tt s') → returns (io (SavePPBuffer str)) s Q.
Proof.
  intros H HQ. apply io_returns. destruct (rd_pp _ _ _ _ _ H) as [t Ht].
  unfold SavePPBuffer. apply returns_bind. exists (pp_data (host s)), (host s). split; [done|].
  destruct (_ || _).
  - apply returns_ret, HQ. by apply (ready_host l i); [|apply (rd_at _ _ _ _ _ H)|..].
  - destruct (save_string_holds str _ _ Ht) as (d' & Hd & Hh & _).
    apply returns_bind. exists d', (host s). split; [unfold someIO; by rewrite Hd|].
    eexists tt, _. split; [done|]. apply HQ. destruct H as [H1 H2 H3 [C H4] H5].
    split; cbn; [by apply source_pp|done|by eexists|eexists; by apply atoms_inv_host|done].
Qed.

Lemma skip_space_head m l c r : skip_space m l = c :: r → white_space (code_of c) = false.
Proof.
  revert m. induction l as [|c0 l IH]; intros m; cbn [skip_space]; [done|].
  destruct m; [apply IH|]. destruct (code_of c0 =? semicolon)%Z; [apply IH|].
  destruct (white_space (code_of c0)) eqn:Ew; [apply IH|]. by intros [= -> ->].
Qed.

(** Between two tokens. *)
Record idle (l : list byte) (i : nat) K s : Prop := { id_ready : ready l i [] K s; id_global : bytes (global s) = None }.

Lemma GetToken_returns fuel l i K s : idle l i K s → S (length l) < fuel → no_least_integer (lex (drop i l)) →
  returns (GetToken fuel name) s (fun t s' => ∃ j K', drop j l = lx_rest (lex (drop i l)) ∧ idle l j K' s' ∧
    (∀ y, y ∈ K → y ∈ K') ∧ token_matches (lex (drop i l)) t K').
Proof.
  intros [H Hg] Hf Hleast. unfold GetToken. apply returns_bind. exists (global s), s. split; [done|].
  apply returns_bind. exists tt, (with_global (mkBuffer (bytes (global s)) 0 0) s). split; [done|].
  rewrite Hg. assert (H0 : ready l i [] K (with_global (mkBuffer None 0 0) s)) by (by apply (ready_with_global _ _ [])).
  apply returns_bind, (Read_returns _ _ _ _ _ _ H0). intros s1 H1.
  apply returns_bind, (skip_white_space_returns _ _ _ _ _ _ _ H1); [lia|]. intros k s2 Hk H2. unfold lex in *. rewrite <- Hk in *.
  apply returns_bind, (scan_token_returns _ _ _ _ _ _ H2); [|lia|done|].
  { intros c r E. rewrite E in Hk. by apply (skip_space_head false (drop i l) c r). }
  intros t s3 (j & b & K' & Hj & H3 & HK & Hm). apply returns_bind.
  apply (returns_mono _ _ (fun _ s' => ready l j b K' s')).
  { destruct (bool_decide _).
    - apply returns_bind, (SavePPBuffer_returns _ _ _ _ _ _ _ H3). intros s4 H4.
      apply returns_bind, (SavePPBuffer_returns _ _ _ _ _ _ _ H4). intros s5 H5. by apply (SavePPBuffer_returns _ _ _ _ _ _ _ H5).
    - by apply (SavePPBuffer_returns _ _ _ _ _ _ _ H3). }
  intros _ s4 H4. apply returns_bind. exists (global s4), s4. split; [done|]. apply returns_bind.
  destruct (bytes (global s4)) as [cells|] eqn:EB.
  - exists tt, (with_global empty_buffer s4). split; [done|]. apply returns_ret. exists j, K'. split_and!; [done| |done..].
    split; [|done]. by apply (ready_with_global _ _ b).
  - apply returns_ret, returns_ret. exists j, K'. split_and!; [done| |done..]. split; [|done].
    destruct (rd_global _ _ _ _ _ H4) as [_ Hb]. unfold global in EB. rewrite EB in Hb. by destruct Hb as [-> _].
Qed.
End scan.
