(* ===== verification/LexProofs.v ===== *)
(** * Printed values read back

    The decimal numerals of [printf] and [strtoll], and the reference tokenizer
    on the printed forms of integers, strings, symbols and instance names. *)
From S2P Require Import Prelude Values Router Process Hash SList AtomState.
From S2P Require Import TextBuffer TextProofs IOState Routers RouterProofs NumberText PPrint Scanner.
From S2P Require Import Lexer ScanProofs.
#[local] Open Scope Z_scope.

(** ** Decimal numerals *)

Lemma digit_code d : 0 <= d < 10 → code_of (digit_char d) = 48 + d.
Proof. intros H. unfold digit_char. rewrite code_of_char. apply Z.mod_small. lia. Qed.
Lemma digit_is_digit d : 0 <= d < 10 → is_digit (digit_char d) = true.
Proof. intros H. unfold is_digit, isdigit. rewrite digit_code by done. lia. Qed.

Lemma digits_value_snoc l c : digits_value (l ++ [c]) = 10 * digits_value l + digit_value c.
Proof. unfold digits_value. by rewrite foldl_app. Qed.

Lemma low_digits_all k n : Forall (fun c => is_digit c = true) (low_digits k n).
Proof.
  revert n. induction k as [|k IH]; intros n; cbn [low_digits]; [constructor|].
  apply Forall_app. split; [apply IH|]. constructor; [|constructor]. apply digit_is_digit. apply Z.mod_pos_bound. lia.
Qed.
Lemma low_digits_length k n : length (low_digits k n) = k.
Proof. revert n. induction k as [|k IH]; intros n; [done|]. cbn [low_digits]. rewrite length_app, IH. cbn. lia. Qed.

Lemma low_digits_value k n : 0 <= n < 10 ^ Z.of_nat k → digits_value (low_digits k n) = n.
Proof.
  revert n. induction k as [|k IH]; intros n H.
  { cbn in *. lia. }
  cbn [low_digits]. rewrite digits_value_snoc. unfold digit_value. rewrite digit_code by (apply Z.mod_pos_bound; lia).
  rewrite Nat2Z.inj_succ, Z.pow_succ_r in H by lia. rewrite IH.
  - pose proof (Z.div_mod n 10 ltac:(lia)). lia.
  - split; [apply Z.div_pos; lia|]. apply Z.div_lt_upper_bound; lia.
Qed.

Lemma digit_count_bound fuel n : 0 <= n < 2 ^ (Z.of_nat fuel + 1) → n < 10 ^ Z.of_nat (digit_count_loop fuel n).
Proof.
  revert n. induction fuel as [|fuel IH]; intros n H; cbn [digit_count_loop].
  { cbn in *. lia. }
  destruct (Z.ltb_spec n 10); [cbn; lia|].
  rewrite (Nat2Z.inj_succ fuel) in H. replace (Z.succ (Z.of_nat fuel) + 1) with (Z.succ (Z.of_nat fuel + 1)) in H by lia.
  rewrite Z.pow_succ_r in H by lia.
  assert (0 <= n / 10 < 2 ^ (Z.of_nat fuel + 1)) as Hd.
  { split; [apply Z.div_pos; lia|]. apply Z.div_lt_upper_bound; lia. }
  specialize (IH _ Hd). rewrite Nat2Z.inj_succ, Z.pow_succ_r by lia.
  pose proof (Z.div_mod n 10 ltac:(lia)). pose proof (Z.mod_pos_bound n 10 ltac:(lia)). lia.
Qed.
Lemma digits_of_value n : 0 <= n → digits_value (digits_of n) = n.
Proof.
  intros Hn. unfold digits_of. apply low_digits_value. split; [done|]. apply digit_count_bound. split; [done|].
  rewrite Z2Nat.id by apply Z.log2_nonneg. destruct (decide (n = 0)) as [->|]; [done|].
  rewrite Z.add_1_r. apply Z.log2_spec. lia.
Qed.
Lemma digits_of_all n : Forall (fun c => is_digit c = true) (digits_of n).
Proof. apply low_digits_all. Qed.
Lemma digits_of_cons n : ∃ c l, digits_of n = c :: l.
Proof.
  destruct (digits_of n) as [|c l] eqn:E; [|by exists c, l]. exfalso.
  apply (f_equal length) in E. unfold digits_of in E. rewrite low_digits_length in E. unfold digit_count in E.
  destruct (Z.to_nat (Z.log2 n)) as [|f]; cbn in E; [done|]. by destruct (n <? 10).
Qed.

Lemma take_while_digits ds rest : Forall (fun c => is_digit c = true) ds →
  match rest with [] => True | c :: _ => is_digit c = false end → take_while is_digit (ds ++ rest) = ds.
Proof.
  induction 1 as [|c ds Hc _ IH]; intros Hr; cbn [app take_while].
  - destruct rest as [|c r]; [done|]. cbn [take_while]. by rewrite Hr.
  - rewrite Hc. by rewrite IH.
Qed.

Lemma digit_not_sign c : is_digit c = true → (code_of c =? minus_sign) = false ∧ (code_of c =? plus_sign) = false.
Proof. unfold is_digit, isdigit, minus_sign, plus_sign. intros H. split; apply Z.eqb_neq; lia. Qed.
Lemma take_sign_digits ds : Forall (fun c => is_digit c = true) ds → take_sign ds = (false, ds).
Proof. intros [|c l Hc _]; [done|]. cbn [take_sign]. by destruct (digit_not_sign c Hc) as [-> ->]. Qed.

(** [strtoll] reads what [%lld] prints. *)
Lemma strtoll_printf z : LLONG_MIN <= z <= LLONG_MAX → strtoll (printf_lld z) = (z, false).
Proof.
  intros Hz. unfold printf_lld, strtoll.
  assert (Hd : ∀ n, take_while is_digit (digits_of n) = digits_of n).
  { intros n. rewrite <- (app_nil_r (digits_of n)) at 1. by apply take_while_digits; [apply digits_of_all|]. }
  destruct (Z.ltb_spec z 0).
  - cbn [take_sign]. change (code_of (char_of minus_sign) =? minus_sign) with true. cbn iota.
    rewrite Hd, digits_of_value by lia. rewrite Z.opp_involutive.
    rewrite (proj2 (Z.ltb_ge _ _)) by lia. by rewrite (proj2 (Z.ltb_ge _ _)) by lia.
  - rewrite take_sign_digits by apply digits_of_all. rewrite Hd, digits_of_value by lia.
    rewrite (proj2 (Z.ltb_ge _ _)) by lia. by rewrite (proj2 (Z.ltb_ge _ _)) by lia.
Qed.

(** ** Numbers in the input *)

(** The text after a number. *)
Definition number_boundary (rest : list byte) : Prop :=
  match rest with [] => True | c :: _ => ends_number (code_of c) = true end.

Lemma number_step_end df pf sl c : ends_number (code_of c) = true →
  number_step INTEGRAL df pf sl (code_of c) = (DONE, df, pf, false).
Proof. by destruct c as [[] [] [] [] [] [] [] []]. Qed.
Lemma number_step_digit df pf sl z : isdigit z = true → number_step INTEGRAL df pf sl z = (INTEGRAL, true, pf, true).
Proof. intros H. unfold number_step. cbn [Z.eqb SIGN INTEGRAL]. by rewrite H. Qed.

Lemma number_run_digits pf acc ds rest : Forall (fun c => is_digit c = true) ds → number_boundary rest →
  ∀ df, number_run INTEGRAL (df || bool_decide (ds ≠ [])) pf (acc ++ ds) rest = number_run INTEGRAL df pf acc (ds ++ rest).
Proof.
  intros Hds Hr. revert acc. induction Hds as [|c ds Hc Hds IH]; intros acc df.
  { rewrite app_nil_r. cbn. by rewrite orb_false_r. }
  cbn [app number_run]. rewrite (number_step_digit _ _ _ _ Hc). cbn [Z.eqb DONE ERROR INTEGRAL]. rewrite <- IH.
  rewrite <- app_assoc. cbn [app]. by rewrite (bool_decide_true (c :: ds ≠ [])), orb_true_r by done.
Qed.
Lemma number_run_end df pf acc rest : number_boundary rest → number_run INTEGRAL df pf acc rest = (DONE, df, pf, acc, rest).
Proof.
  destruct rest as [|c r]; intros Hr; [done|]. cbn [number_run]. by rewrite number_step_end by done.
Qed.

Lemma number_run_printf z rest : number_boundary rest →
  number_run SIGN false false [] (printf_lld z ++ rest) = (DONE, true, false, printf_lld z, rest).
Proof.
  intros Hr. unfold printf_lld. assert (Hn : ∀ n, bool_decide (digits_of n ≠ []) = true).
  { intros n. apply bool_decide_eq_true. destruct (digits_of_cons n) as (c & l & ->). done. }
  destruct (z <? 0).
  - cbn [app number_run]. change (number_step SIGN false false (sign_last []) (code_of (char_of minus_sign))) with (INTEGRAL, false, false, true).
    cbn [Z.eqb DONE ERROR INTEGRAL]. rewrite <- number_run_digits by (try done; apply digits_of_all).
    rewrite Hn. by rewrite number_run_end.
  - destruct (digits_of_cons z) as (c & l & E). pose proof (digits_of_all z) as Hall. rewrite E in *.
    apply Forall_cons in Hall as [Hc Hl]. cbn [app number_run].
    assert (number_step SIGN false false (sign_last []) (code_of c) = (INTEGRAL, true, false, true)) as ->.
    { unfold number_step. cbn [Z.eqb SIGN]. unfold is_digit in Hc. by rewrite Hc. }
    cbn [Z.eqb DONE ERROR INTEGRAL]. rewrite <- (number_run_digits _ _ _ _ Hl Hr). by rewrite number_run_end.
Qed.

Lemma skip_space_id c l : white_space (code_of c) = false → skip_space false (c :: l) = c :: l.
Proof.
  intros H. cbn [skip_space]. rewrite H. destruct (Z.eqb_spec (code_of c) semicolon) as [E|]; [|done]. by rewrite E in H.
Qed.

Lemma printf_starts z : ∃ c l, printf_lld z = c :: l ∧ is_digit c || is_sign (code_of c) = true.
Proof.
  unfold printf_lld. destruct (z <? 0); [by do 2 eexists|]. destruct (digits_of_cons z) as (c & l & E). rewrite E.
  exists c, l. split; [done|]. pose proof (digits_of_all z) as H. rewrite E in H. apply Forall_cons in H as [-> _]. done.
Qed.
Lemma number_start c : is_digit c || is_sign (code_of c) = true →
  white_space (code_of c) = false ∧ starts_name (code_of c) = false ∧
  isdigit (code_of c) || is_sign (code_of c) || (code_of c =? point) = true.
Proof. by destruct c as [[] [] [] [] [] [] [] []]. Qed.

(** An integer in the input, as it is printed. *)
Lemma lex_integer z rest : LLONG_MIN <= z <= LLONG_MAX → number_boundary rest →
  lex (printf_lld z ++ rest) = mkLexed INTEGER_TOKEN (Some (AInteger z)) (integer_to_string z) rest.
Proof.
  intros Hz Hr. destruct (printf_starts z) as (c & l & E & Hc). destruct (number_start c Hc) as (H1 & H2 & H3).
  unfold lex. rewrite E. cbn [app]. rewrite (skip_space_id _ _ H1). cbn [lex_token]. rewrite H2, H3.
  change (c :: l ++ rest) with ((c :: l) ++ rest). rewrite <- E. unfold lex_number. rewrite number_run_printf by done.
  unfold number_value. by rewrite strtoll_printf.
Qed.

(** ** Strings, symbols and instance names in the input *)

Lemma lex_string_escape cs acc rest : char_of BACKSPACE ∉ cs →
  lex_string acc (escape cs ++ char_of quote :: rest) = (acc ++ cs, rest).
Proof.
  revert acc. induction cs as [|c cs IH]; intros acc Hb.
  { by rewrite app_nil_r. }
  assert (Hc : expand_char acc (code_of c) = acc ++ [c]).
  { unfold expand_char. rewrite char_of_code. destruct (Z.eqb_spec (code_of c) BACKSPACE) as [E|]; [|done].
    exfalso. apply Hb. rewrite <- E, char_of_code. apply list_elem_of_here. }
  change (escape (c :: cs)) with ((if (code_of c =? quote) || (code_of c =? backslash) then [char_of backslash; c] else [c]) ++ escape cs).
  destruct (Z.eqb_spec (code_of c) quote) as [Eq|Eq]; [|destruct (Z.eqb_spec (code_of c) backslash) as [Es|Es]].
  - cbn [orb app]. cbn [lex_string]. change (code_of (char_of backslash) =? quote) with false.
    change (code_of (char_of backslash) =? backslash) with true. cbn iota.
    rewrite Hc, IH by set_solver. by rewrite <- app_assoc.
  - cbn [orb app]. cbn [lex_string]. change (code_of (char_of backslash) =? quote) with false.
    change (code_of (char_of backslash) =? backslash) with true. cbn iota.
    rewrite Hc, IH by set_solver. by rewrite <- app_assoc.
  - cbn [orb app]. cbn [lex_string]. rewrite (proj2 (Z.eqb_neq _ _) Eq), (proj2 (Z.eqb_neq _ _) Es).
    rewrite Hc, IH by set_solver. by rewrite <- app_assoc.
Qed.

Lemma shown_plain cs : plain cs → shown (String.string_of_list_ascii cs) = String.string_of_list_ascii (quoted cs).
Proof.
  intros Hp. pose proof (string_print_form_eq (String.string_of_list_ascii cs)) as E. fold (shown (String.string_of_list_ascii cs)) in E.
  assert (chars (String.string_of_list_ascii cs) = cs) as Hcs by apply String.list_ascii_of_string_of_list_ascii.
  rewrite string_print_form_plain in E by by rewrite Hcs. rewrite Hcs in E. congruence.
Qed.
Lemma text_plain cs : NUL ∉ cs → text cs = String.string_of_list_ascii cs.
Proof. intros H. unfold text. by rewrite until_nul_id. Qed.

Lemma lex_quoted cs rest : plain cs →
  lex (quoted cs ++ rest) = mkLexed STRING_TOKEN (Some (ALexeme STRING_TYPE (String.string_of_list_ascii cs)))
    (String.string_of_list_ascii (quoted cs)) rest.
Proof.
  intros Hp. unfold lex, quoted. cbn [app]. rewrite skip_space_id by done. cbn [lex_token].
  change (starts_name (code_of (char_of quote))) with false. change (isdigit (code_of (char_of quote)) || _ || _) with false.
  change (code_of (char_of quote) =? quote) with true. cbn iota. rewrite <- app_assoc. cbn [app].
  rewrite lex_string_escape by apply Hp. cbn [app]. rewrite text_plain by apply Hp. by rewrite shown_plain.
Qed.

(** The text after a symbol. *)
Definition symbol_boundary (rest : list byte) : Prop :=
  match rest with [] => True | c :: _ => is_symbol_char c = false end.
Lemma take_while_boundary cs rest : Forall (fun c => is_symbol_char c = true) cs → symbol_boundary rest →
  take_while is_symbol_char (cs ++ rest) = cs ∧ drop_while is_symbol_char (cs ++ rest) = rest.
Proof.
  induction 1 as [|c cs Hc _ IH]; intros Hr; cbn [app take_while drop_while].
  - destruct rest as [|c r]; [done|]. cbn [take_while drop_while]. by rewrite Hr.
  - rewrite Hc. destruct (IH Hr) as [-> ->]. done.
Qed.
Lemma symbol_chars_not_nul cs : Forall (fun c => is_symbol_char c = true) cs → NUL ∉ cs.
Proof. intros H Hin. rewrite Forall_forall in H. by specialize (H _ Hin). Qed.

Lemma name_start c : starts_name (code_of c) = true → white_space (code_of c) = false ∧ c ≠ char_of left_bracket.
Proof. by destruct c as [[] [] [] [] [] [] [] []]. Qed.

Lemma lex_name c cs rest : starts_name (code_of c) = true → Forall (fun c => is_symbol_char c = true) cs → symbol_boundary rest →
  lex ((c :: cs) ++ rest) = mkLexed SYMBOL_TOKEN (Some (ALexeme SYMBOL_TYPE (String.string_of_list_ascii (c :: cs))))
    (String.string_of_list_ascii (c :: cs)) rest.
Proof.
  intros Hc Hcs Hr. destruct (name_start c Hc) as [Hw Hb]. unfold lex. cbn [app]. rewrite skip_space_id by done.
  cbn [lex_token]. rewrite Hc. pose proof (name_is_symbol c Hc) as Hs.
  pose proof (lex_symbol_plain c (cs ++ rest) Hb Hs) as E. cbn zeta in E. rewrite E. unfold with_type. cbn [lx_value lx_form lx_rest].
  assert (Forall (fun c => is_symbol_char c = true) (c :: cs)) as Hall by by constructor.
  destruct (take_while_boundary (c :: cs) rest Hall Hr) as [E1 E2]. cbn [app] in E1, E2. rewrite E1, E2.
  by rewrite text_plain by by apply symbol_chars_not_nul.
Qed.

Lemma lex_bracketed cs rest : cs ≠ [] → Forall (fun c => is_symbol_char c = true) cs → symbol_boundary rest →
  lex (char_of left_bracket :: cs ++ char_of right_bracket :: rest) =
  mkLexed INSTANCE_NAME_TOKEN (Some (ALexeme INSTANCE_NAME_TYPE (String.string_of_list_ascii cs))) (String.string_of_list_ascii cs) rest.
Proof.
  intros Hne Hcs Hr. unfold lex. rewrite skip_space_id by done. cbn [lex_token].
  change (starts_name (code_of (char_of left_bracket))) with false.
  change (isdigit (code_of (char_of left_bracket)) || is_sign (code_of (char_of left_bracket)) || (code_of (char_of left_bracket) =? point)) with false.
  change (code_of (char_of left_bracket) =? quote) with false. change (code_of (char_of left_bracket) =? question_mark) with false.
  change (code_of (char_of left_bracket) =? dollar) with false. change (code_of (char_of left_bracket) =? less_than) with false.
  change (punctuation_type (code_of (char_of left_bracket))) with (@None (TokenType * string)).
  change ((code_of (char_of left_bracket) =? 0) || (code_of (char_of left_bracket) =? 3)) with false.
  change (isprint (code_of (char_of left_bracket))) with true. cbn [andb orb]. unfold lex_symbol.
  set (all := char_of left_bracket :: cs ++ [char_of right_bracket]).
  assert (Hall : Forall (fun c => is_symbol_char c = true) all).
  { subst all. constructor; [done|]. apply Forall_app. split; [done|]. by repeat constructor. }
  destruct (take_while_boundary all rest Hall Hr) as [E1 E2]. subst all.
  change ((char_of left_bracket :: cs ++ [char_of right_bracket]) ++ rest) with (char_of left_bracket :: (cs ++ [char_of right_bracket]) ++ rest) in *.
  rewrite <- app_assoc in E1, E2. cbn [app] in E1, E2. rewrite E1, E2. cbn [app].
  assert (bracketed (char_of left_bracket :: cs ++ [char_of right_bracket]) = true) as ->.
  { unfold bracketed. rewrite app_comm_cons, last_snoc. cbn [head app length]. rewrite length_app. cbn [length].
    rewrite (proj2 (Nat.ltb_lt _ _)) by (destruct cs; [done|cbn; lia]). done. }
  assert (inner (char_of left_bracket :: cs ++ [char_of right_bracket]) = cs) as ->.
  { unfold inner. cbn [length]. rewrite length_app. cbn [length]. replace (S (length cs + 1) - 1)%nat with (S (length cs)) by lia.
    cbn [firstn]. rewrite take_app_length. done. }
  by rewrite text_plain by by apply symbol_chars_not_nul.
Qed.
