(* ===== verification/Print.v ===== *)
(** * Printing an atom: [PrintAtom] of [prntutil.c]

    The types with a print function of their own, external addresses among
    them, are printed by an argument. *)
From S2P Require Import Prelude Values Router Process Hash SList AtomState Atoms.
From S2P Require Import TextBuffer IOState Routers NumberText Scanner.

Section print.
Context {W : Type} `{!RouterHost W}.
Abbreviation P := (P (AtomEnv (IOEnv W))).

Definition write logicalName (str : string) : P unit := io (WriteString logicalName str).

Definition WriteFloat logicalName (number : Z) : P unit :=
  theString ← FloatToString number; write logicalName theString.
Definition WriteInteger logicalName (number : Z) : P unit := write logicalName (integer_to_string number).

(** [PreserveEscapedCharacters] is the first argument. *)
Definition PrintAtom (preserve : bool) (print_other : ptr → P unit) logicalName (value : ptr) : P unit :=
  n ← node value;
  match contents n with
  | AFloat number => WriteFloat logicalName number
  | AInteger number => WriteInteger logicalName number
  | ALexeme type str =>
      if (type =? SYMBOL_TYPE)%Z then write logicalName str
      else if (type =? STRING_TYPE)%Z then
        if preserve then form ← StringPrintForm str; write logicalName form
        else
          _ ← write logicalName (String (char_of quote) "");
          _ ← write logicalName str;
          write logicalName (String (char_of quote) "")
      else if (type =? INSTANCE_NAME_TYPE)%Z then
        _ ← write logicalName "[";
        _ ← write logicalName str;
        write logicalName "]"
      else print_other value
  | _ => print_other value
  end.
End print.
