(* ===== verification/IOWitness.v ===== *)
(** * An environment for the routers and the scanner

    The rest of the system as a log of what its callback writes; the string
    routers as [InitializeStringRouter] installs them; a string to read and a
    string builder to write to.  The witnesses run on it. *)
From S2P Require Import Prelude Values Router Process Hash SList AtomState Atoms AtomProofs.
From S2P Require Import AtomWitness.
From S2P Require Import TextBuffer TextProofs IOState StringRouters Routers RouterProofs.
From S2P Require Import NumberText PPrint Scanner Lexer ScanProofs.
#[local] Open Scope nat_scope.

(** A terminal: it answers for [STDERR], [STDWRN] and [STDOUT]. *)
Definition Terminal : Type := list string.
Definition terminal_names (n : LogicalName) : bool :=
  match n with LName _ m => bool_decide (m ∈ [STDERR; STDWRN; STDOUT]) | LFile _ => false end.
#[export] Instance Terminal_host : RouterHost Terminal := {
  host_query _ n _ w := Some (terminal_names n, w);
  host_write _ _ str _ w := Some (tt, w ++ [str]);
  host_read _ _ _ w := Some (EOF, w);
  host_unread _ _ ch _ w := Some (ch, w);
  host_exit _ _ _ w := Some (false, w);
}.
#[export] Instance Terminal_laws : HostLaws Terminal.
Proof.
  refine {| answers := fun _ n _ _ => terminal_names n |}; intros; cbn; eauto.
Defined.

Definition bare_io : IOEnv Terminal :=
  mkIOEnv (mkRouterData None None None 0 [] None None false) [] []
    (mkScannerData empty_buffer 0 false) (set_PPBufferStatus true initial_pp_data) ∅ ∅ ∅ [].

Definition routers_io : IOEnv Terminal :=
  match (_ ← InitializeStringRouter;
         AddRouter "terminal" 10 (Some (HostQuery 1)) (Some (HostWrite 1)) (Some (HostRead 1)) (Some (HostUnread 1)) None None) bare_io with
  | Returned _ h => h
  | _ => bare_io
  end.

Definition source_name : LogicalName := LName 2 "text".
Definition dest_name : LogicalName := LName 3 "buffer".
Definition builder_name : LogicalName := LName 4 "builder".

(** With the text to read, an array of eight bytes and an empty builder. *)
Definition open_io (str : string) : IOEnv Terminal :=
  let h := put_arrays {[ 1%positive := (Some <$> chars str) ++ [Some NUL]; 2%positive := replicate 8 (Some NUL) ]} routers_io in
  let h := put_builders {[ 1%positive := mkStringBuilder (mkBuffer (Some (Some NUL :: replicate 16 None)) 0 17) 17 ]} h in
  match (_ ← OpenStringSource "text" (Some 1%positive) 0;
         _ ← OpenStringDestination "buffer" (Some 2%positive) 8;
         OpenStringBuilderDestination "builder" 1) h with
  | Returned _ h => h
  | _ => h
  end.
Definition open_env (str : string) : AtomEnv (IOEnv Terminal) := initial_env [] ∅ (open_io str).

Example routers_installed : map router_name (ListOfRouters (router_data routers_io)) = ["terminal"; "stringBuilder"; "string"].
Proof. vm_compute. reflexivity. Qed.

(** ** The environment is in order *)

Definition demo_text : string := "foo [bar] -12 " +:+ String.string_of_list_ascii (quoted (chars "a b")) +:+ " ".
Definition demo_io : IOEnv Terminal := open_io demo_text.
Definition demo_env : AtomEnv (IOEnv Terminal) := open_env demo_text.

Lemma demo_routers_ok : routers_ok (ListOfRouters (router_data demo_io)).
Proof.
  split.
  - apply (bool_decide_unpack _). vm_compute. exact I.
  - vm_compute. repeat constructor; discriminate.
Qed.
Lemma demo_paired : all_paired demo_io.
Proof.
  intros r Hr. assert (Forall paired (ListOfRouters (router_data demo_io))) as Hall.
  { vm_compute. repeat constructor; discriminate. }
  rewrite Forall_forall in Hall. by apply Hall.
Qed.
Lemma demo_messages_safe : messages_safe demo_io.
Proof.
  intros w m Hm. rewrite !elem_of_cons, elem_of_nil in Hm. destruct_or! Hm; try done; subst; vm_compute; exact I.
Qed.
Lemma demo_source : source_open 2 "text" 1 (chars demo_text) 0 demo_io.
Proof.
  split; [apply demo_paired|apply demo_messages_safe|done|by left|..].
  - intros w. eexists. vm_compute. reflexivity.
  - intros w. eexists. vm_compute. reflexivity.
  - eexists. split; [vm_compute; reflexivity|]. by split_and!.
  - exists [Some NUL]. vm_compute. reflexivity.
Qed.
Lemma demo_dest : dest_open demo_io 3 "buffer" 2 8 (replicate 8 (Some NUL)) [].
Proof.
  split; [apply demo_paired|..].
  - eexists. vm_compute. reflexivity.
  - eexists. split; [vm_compute; reflexivity|]. by split_and!.
  - vm_compute. reflexivity.
  - cbn. lia.
  - done.
Qed.
Lemma demo_builder : builder_open demo_io 4 "builder" 1 [].
Proof.
  split; [apply demo_paired|..].
  - eexists. vm_compute. reflexivity.
  - eexists. split; [vm_compute; reflexivity|]. done.
  - eexists. split; [vm_compute; reflexivity|]. split_and!; [|done|cbn; lia]. split; [done|]. split; [done|by eexists].
Qed.
Lemma demo_idle : idle (source_open 2 "text" 1) (chars demo_text) 0 [] demo_env.
Proof.
  split; [|done]. split.
  - exact demo_source.
  - exact holds_empty.
  - exists []. exact holds_empty.
  - eexists. apply initial_atoms_inv.
  - intros a p Hin. by apply not_elem_of_nil in Hin.
Qed.
