(* ===== verification/RouterTheorems.v ===== *)
(** * Theorems on growing strings and UTF-8

    [utility.c], [genrealloc] of [memalloc.c] and [pprint.c].

    Then the routers, with their destinations and sources. *)
From S2P Require Import Prelude Values Router Process Hash SList AtomState Atoms AtomWitness TextBuffer.
From S2P Require Import TextProofs IOState StringRouters Routers NumberText PPrint Scanner RouterProofs.
From S2P Require Import Lexer ScanProofs IOWitness.
#[local] Open Scope nat_scope.

(** ** Buffers *)

(** An operation on a growing string, with the arguments that its callers may give. *)
Inductive text_op :=
  | Expand (inchar : Z)
  | Append (str : string)
  | AppendN (str : string) (n : nat).
Definition op_ok (o : text_op) : Prop :=
  match o with AppendN str n => NUL ∉ chars str ∧ 1 <= n <= String.length str + 1 | _ => True end.
Definition run_op (b : Buffer) (o : text_op) : option Buffer :=
  match o with
  | Expand c => ExpandStringWithChar c b (maximum b + 80)
  | Append str => AppendToString str b
  | AppendN str n => AppendNToString str b n
  end.
(** The characters it leaves. *)
Definition op_effect (l : list byte) (o : text_op) : list byte :=
  match o with
  | Expand c => expand_char l c
  | Append str => l ++ chars str
  | AppendN str n => l ++ take n (chars str)
  end.

(** C23: However a string is built from nothing, by adding characters, backspaces
    and strings, no operation leaves its allocation: the string holds exactly
    the characters that were added and not deleted, with the final [NUL] inside
    the allocation. *)
Theorem string_building_safe ops :
  Forall op_ok ops → ∃ b, foldl (fun b o => b ← b; run_op b o) (Some empty_buffer) ops = Some b ∧
  holds b (foldl op_effect [] ops).
Proof.
  intros Hops. assert (∀ b l, holds b l → ∃ b', foldl (fun b o => b ← b; run_op b o) (Some b) ops = Some b' ∧
    holds b' (foldl op_effect l ops)) as Hrun; [|by apply (Hrun empty_buffer [])].
  induction Hops as [|o ops Ho _ IH]; intros b l Hb; [by exists b|]. cbn [foldl mbind option_bind].
  destruct o as [c|str|str n]; cbn [run_op op_effect].
  - destruct (ExpandStringWithChar_holds c b (maximum b + 80) l Hb) as (b' & -> & Hb'); [lia|]. by apply IH.
  - destruct (AppendToString_holds str b l Hb) as (b' & -> & Hb'). by apply IH.
  - destruct Ho as [Hn Hk]. destruct (AppendNToString_holds str b n l Hb Hn Hk) as (b' & -> & Hb'). by apply IH.
Qed.
Definition sample_ops : list text_op := [Append "abc"; Expand 195; Expand 164; Expand BACKSPACE; AppendN "defg" 2].
Lemma string_building_safe_witness : ∃ b,
  foldl (fun b o => b ← b; run_op b o) (Some empty_buffer) sample_ops = Some b ∧ holds b (chars "abcde").
Proof.
  apply (string_building_safe sample_ops). unfold sample_ops. repeat constructor; [|cbn; lia..].
  apply (bool_decide_eq_false_1 (NUL ∈ chars "defg")). vm_compute. reflexivity.
Defined.

(** [StringPrintForm] returns, for every string; without backspaces it is
    the string in quotes, with a backslash before quotes and backslashes. *)
Theorem StringPrintForm_correct str :
  is_Some (string_print_form str) ∧
  (plain (chars str) → string_print_form str = Some (String.string_of_list_ascii (quoted (chars str)))).
Proof. split; [rewrite string_print_form_eq; by eexists|]. apply string_print_form_plain. Qed.

(** A backspace in the string deletes what was already printed, the opening
    quote included. *)
Example print_form_of_backspace :
  string_print_form (String (char_of 8) "") = Some (String (char_of 34) "") ∧
  string_print_form ("ab" +:+ String (char_of 8) "c") = Some (String (char_of 34) "ac" +:+ String (char_of 34) "").
Proof. split; vm_compute; reflexivity. Qed.

(** ** UTF-8 *)

(** On a string without [NUL], [UTF8Length], [UTF8Offset] and [UTF8CharNum]
    count its characters, a byte with at most three continuation bytes each,
    without reading past its end; the offset of a character and the number of
    the character at an offset are inverse. *)
Theorem UTF8_roundtrip l n :
  NUL ∉ l →
  UTF8Length l = Some (length (utf8_chars l)) ∧ concat (utf8_chars l) = l ∧
  ∃ offs, UTF8Offset l n = Some offs ∧ offs = length (concat (take n (utf8_chars l))) ∧
    UTF8CharNum l offs = Some (Nat.min n (length (utf8_chars l))).
Proof.
  intros Hl. unfold UTF8Length, UTF8Offset, UTF8CharNum. split_and!.
  - apply (utf8_length_loop_correct (S (length l)) [] l 0); [lia|done].
  - apply concat_utf8_chars.
  - eexists. split; [apply (utf8_offset_loop_correct n [] l Hl)|]. split; [done|].
    apply (utf8_charnum_loop_correct (S (length l)) n [] l 0); [lia|done].
Qed.
Definition umlauts : list byte := [char_of 97; char_of 195; char_of 164; char_of 226; char_of 130; char_of 172].
Lemma UTF8_roundtrip_witness : UTF8Length umlauts = Some 3 ∧ UTF8Offset umlauts 2 = Some 3 ∧ UTF8CharNum umlauts 3 = Some 2.
Proof.
  destruct (UTF8_roundtrip umlauts 2) as (H1 & _ & offs & H2 & -> & H3).
  - apply (bool_decide_eq_false_1 (NUL ∈ umlauts)). vm_compute. reflexivity.
  - split_and!; [exact H1|exact H2|exact H3].
Defined.

(** ** The pretty print buffer *)

Section pretty_print.
Context {W : Type}.
Implicit Types (h : IOEnv W).

Lemma SavePPBuffer_holds h str t : PPBufferStatus (pp_data h) = true → PPBufferEnabled (pp_data h) = true →
  holds (PPBuffer (pp_data h)) t → ∃ d, SavePPBuffer str h = Returned tt (put_pp_data d h) ∧
  holds (PPBuffer d) (t ++ chars str) ∧ PPBackupOnce d = length t ∧ PPBackupTwice d = PPBackupOnce (pp_data h) ∧
  PPBufferStatus d = true ∧ PPBufferEnabled d = true ∧ bytes (PPBuffer d) ≠ None.
Proof.
  intros Hs He Ht. destruct (save_string_holds str _ _ Ht) as (d & Hd & Hh & H1 & H2). exists d.
  assert (PPBufferStatus d = true ∧ PPBufferEnabled d = true ∧ bytes (PPBuffer d) ≠ None) as (H3 & H4 & H5).
  { unfold save_string in Hd. apply bind_Some in Hd as (b & _ & Hd). apply bind_Some in Hd as (b' & Hb' & [= <-]).
    split_and!; [done|done|]. by eapply AppendToString_allocates. }
  split_and!; try done. unfold SavePPBuffer. unfold mbind, P_bind, getIO. rewrite Hs, He. cbn [negb orb].
  unfold someIO. rewrite Hd. done.
Qed.

Lemma PPBackup_holds h t : PPBufferStatus (pp_data h) = true → PPBufferEnabled (pp_data h) = true →
  bytes (PPBuffer (pp_data h)) ≠ None → holds (PPBuffer (pp_data h)) t → PPBackupOnce (pp_data h) <= length t →
  ∃ d, PPBackup h = Returned tt (put_pp_data d h) ∧ holds (PPBuffer d) (take (PPBackupOnce (pp_data h)) t) ∧
  PPBackupOnce d = PPBackupTwice (pp_data h) ∧ PPBufferStatus d = true ∧ PPBufferEnabled d = true ∧ bytes (PPBuffer d) ≠ None.
Proof.
  intros Hs He Hn Ht Hk. unfold PPBackup. unfold mbind, P_bind, getIO. destruct (Ht) as [Hp Hb].
  set (k := PPBackupOnce (pp_data h)) in *.
  destruct (bytes (PPBuffer (pp_data h))) as [cells|] eqn:E; [|done]. rewrite Hs, He. cbn [negb orb].
  destruct Hb as [Hl [rest ->]]. assert (∃ r1 rest', (Some <$> t) ++ Some NUL :: rest = (Some <$> take k t) ++ r1 :: rest') as (r1 & rest' & Er).
  { assert ((Some <$> t) = (Some <$> take k t) ++ (Some <$> drop k t)) as -> by (by rewrite <- fmap_app, take_drop).
    rewrite <- app_assoc.
    destruct (drop k t) as [|c r]; cbn [fmap list_fmap app]; by do 2 eexists. }
  assert (k = length (take k t)) as Hkl by (rewrite length_take; lia).
  destruct (room_NUL (take k t) (r1 :: rest') (maximum (PPBuffer (pp_data h))) k) as (m & Hm & Hh);
    [cbn; lia| |done|].
  { apply (f_equal length) in Er. rewrite length_app, length_fmap in Hl, Er. rewrite length_app, length_fmap in Er. lia. }
  rewrite <- Er in Hm. unfold someIO. rewrite Hm. eexists. split; [done|]. split_and!; [done..|].
  cbn [PPBuffer set_PPBuffer bytes]. by eapply write_byte_allocates.
Qed.

(** [PPBackup] takes back the string saved last, and a second one the
    string before it. *)
Theorem PPBackup_roundtrip h t str1 str2 :
  PPBufferStatus (pp_data h) = true → PPBufferEnabled (pp_data h) = true → holds (PPBuffer (pp_data h)) t →
  ∃ h1 h2, (_ ← SavePPBuffer str1; _ ← SavePPBuffer str2; PPBackup) h = Returned tt h1 ∧
    holds (PPBuffer (pp_data h1)) (t ++ chars str1) ∧
    PPBackup h1 = Returned tt h2 ∧ holds (PPBuffer (pp_data h2)) t.
Proof.
  intros Hs He Ht. destruct (SavePPBuffer_holds h str1 t Hs He Ht) as (d1 & E1 & H1 & Ho1 & _ & Hs1 & He1 & _).
  destruct (SavePPBuffer_holds (put_pp_data d1 h) str2 _ Hs1 He1 H1) as (d2 & E2 & H2 & Ho2 & Ht2 & Hs2 & He2 & Hn2).
  set (h2 := put_pp_data d2 (put_pp_data d1 h)) in *.
  destruct (PPBackup_holds h2 _ Hs2 He2 Hn2 H2) as (d3 & E3 & H3 & Ho3 & Hs3 & He3 & Hn3).
  { cbn. rewrite Ho2, (length_app _ (chars str2)). lia. }
  cbn [h2 pp_data put_pp_data] in H3, Ho3. rewrite Ho2, take_app_length in H3. rewrite Ht2 in Ho3. cbn [pp_data put_pp_data] in Ho3.
  destruct (PPBackup_holds (put_pp_data d3 h2) _ Hs3 He3 Hn3 H3) as (d4 & E4 & H4 & _).
  { cbn. rewrite Ho3, Ho1, length_app. lia. }
  cbn [pp_data put_pp_data] in H4. rewrite Ho3, Ho1, take_app_length in H4.
  exists (put_pp_data d3 h2), (put_pp_data d4 (put_pp_data d3 h2)). split_and!; [|done|done|done].
  rewrite (P_bind_Returned _ _ _ _ _ E1), (P_bind_Returned _ _ _ _ _ E2). done.
Qed.
End pretty_print.

Definition pp_env : IOEnv unit :=
  mkIOEnv (mkRouterData None None None 0 [] None None false) [] []
    (mkScannerData empty_buffer 0 false) (set_PPBufferStatus true initial_pp_data) ∅ ∅ ∅ tt.
Lemma PPBackup_roundtrip_witness : ∃ h1 h2,
  (_ ← SavePPBuffer "(assert"; _ ← SavePPBuffer " "; PPBackup) pp_env = Returned tt h1 ∧
  holds (PPBuffer (pp_data h1)) (chars "(assert") ∧ PPBackup h1 = Returned tt h2 ∧ holds (PPBuffer (pp_data h2)) [].
Proof. apply (PPBackup_roundtrip pp_env [] "(assert" " "); [reflexivity|reflexivity|exact holds_empty]. Defined.

(** * Theorems on the routers

    [router.c] and [strngrtr.c]: the order of the routers, the router that gets
    a request, the nesting of messages, and what string destinations, string
    builders and string sources make of the requests. *)

#[local] Open Scope nat_scope.

Section theorems.
Context {W : Type} `{!RouterHost W} `{!HostLaws W}.
Implicit Types (h : IOEnv W) (r : router).

Abbreviation routers h := (ListOfRouters (router_data h)).

(** ** The list of routers *)

(** An operation on the list of routers. *)
Inductive router_step : IOEnv W → IOEnv W → Prop :=
| step_add n prio q w rd un ex ctx b h h' : AddRouter n prio q w rd un ex ctx h = Returned b h' → router_step h h'
| step_delete n b h h' : DeleteRouter n h = Returned b h' → router_step h h'
| step_activate n b h h' : ActivateRouter n h = Returned b h' → router_step h h'
| step_deactivate n b h h' : DeactivateRouter n h = Returned b h' → router_step h h'.

Lemma change_active_ok v n b h h' : change_active v n h = Returned b h' → routers_ok (routers h) → routers_ok (routers h').
Proof.
  unfold change_active, router_field, modify_router. unfold mbind, P_bind, getIO, modifyIO.
  destruct (set_router_active v n (routers h)) as [l'|] eqn:E; intros [= <- <-] Hok; [|done].
  by apply (set_router_active_ok _ _ _ _ Hok E).
Qed.

(** C19: After any sequence of additions, deletions, activations and
    deactivations the routers have distinct names and stand in the order of
    descending priority. *)
Theorem routers_stay_sorted h h' :
  routers_ok (routers h) → rtc router_step h h' → routers_ok (routers h').
Proof.
  intros Hok Hsteps. induction Hsteps as [h|h h1 h' Hstep _ IH]; [done|]. apply IH. clear IH.
  destruct Hstep as [n prio q w rd un ex ctx b h h1 E|n b h h1 E|n b h h1 E|n b h h1 E].
  - revert E. unfold AddRouter, router_field, modify_router. unfold mbind, P_bind, getIO, modifyIO.
    rewrite name_in_use_spec. destruct (bool_decide_reflect (n ∈ router_name <$> routers h)) as [Hin|Hin]; intros [= <- <-]; [done|].
    by apply insert_router_ok.
  - revert E. unfold DeleteRouter, router_field, modify_router. unfold mbind, P_bind, getIO, modifyIO.
    destruct (delete_router n (routers h)) as [l'|] eqn:E; intros [= <- <-]; [|done]. by apply (delete_router_ok _ _ _ Hok E).
  - by apply (change_active_ok _ _ _ _ _ E).
  - by apply (change_active_ok _ _ _ _ _ E).
Qed.

(** [AddRouter] refuses a name in use; otherwise the new router, active,
    comes before the first one of no higher priority, and [DeleteRouter] undoes
    the addition. *)
Theorem AddRouter_roundtrip h n prio q w rd un ex ctx :
  routers_ok (routers h) →
  let r := mkRouter n true prio ctx q w ex rd un in
  if bool_decide (n ∈ router_name <$> routers h)
  then AddRouter n prio q w rd un ex ctx h = Returned false h
  else ∃ l1 l2 h', routers h = l1 ++ l2 ∧ AddRouter n prio q w rd un ex ctx h = Returned true h' ∧
    routers h' = l1 ++ r :: l2 ∧
    (∀ x, x ∈ l1 → (prio < priority x)%Z) ∧ (∀ x, x ∈ l2 → (priority x <= prio)%Z) ∧
    DeleteRouter n h' = Returned true h.
Proof.
  intros Hok r. unfold AddRouter, DeleteRouter, router_field, modify_router. unfold mbind, P_bind, getIO, modifyIO.
  rewrite name_in_use_spec. destruct (bool_decide_reflect (n ∈ router_name <$> routers h)) as [Hin|Hin]; [done|].
  destruct (insert_router_split r (routers h) (ro_sorted _ Hok)) as (l1 & l2 & E & Ei & H1 & H2).
  exists l1, l2. eexists. split_and!; [done|done|cbn; by rewrite <- Ei|done|done|]. cbn. fold r. rewrite Ei.
  pose proof (delete_router_split n (l1 ++ r :: l2)) as Hd. destruct (delete_router n (l1 ++ r :: l2)) as [l'|].
  - destruct Hd as (k1 & x & k2 & Hk & -> & Hx & Hn). rewrite E, fmap_app, elem_of_app in Hin.
    assert (k1 = l1 ∧ x = r ∧ k2 = l2) as (-> & -> & ->).
    { apply app_eq_inv in Hk as [(k & -> & Hk)|(k & -> & Hk)].
      - destruct k as [|y k]; [rewrite app_nil_r; by injection Hk|]. injection Hk as <- ->. exfalso. apply Hin. left. set_solver.
      - destruct k as [|y k]; [rewrite app_nil_r; by injection Hk|]. injection Hk as -> ->. exfalso. apply Hn. set_solver. }
    rewrite <- E. by destruct h as [[] ? ? ? ? ? ? ? ?].
  - exfalso. apply Hd. rewrite fmap_app. cbn [fmap list_fmap]. apply elem_of_app. right. apply list_elem_of_here.
Qed.

(** ** Dispatch *)

(** C20: [WriteString] gives the text to one router: an active one that has a
    write callback and answers the query, of the highest priority among those;
    its callback finds its string router.  When there is none, nothing is
    written for [STDERR], and otherwise the message of an unrecognised name is,
    to the router that [STDERR] has. *)
Theorem WriteString_dispatch h a n str :
  routers_ok (routers h) → all_paired h →
  match first_responder writeCallback h a n with
  | Some (r, w) =>
      r ∈ routers h ∧ responds h a n r = true ∧ writeCallback r = Some w ∧
      (∀ x, x ∈ routers h → responds h a n x = true → writeCallback x ≠ None → (priority x <= priority r)%Z) ∧
      WriteString (LName a n) str h = call_write no_report r w (LName a n) str h
  | None =>
      (∀ x, x ∈ routers h → responds h a n x = false ∨ writeCallback x = None) ∧
      WriteString (LName a n) str h =
        if String.eqb STDERR n then Returned tt h else report (UnrecognizedRouterMessage_log n) h
  end.
Proof.
  intros Hok Hp. destruct (first_responder writeCallback h a n) as [[r w]|] eqn:E.
  - destruct (first_responder_Some _ _ _ _ _ _ E) as (l1 & l2 & El & Hr & Hw & _). split_and!; [|done|done| |].
    + rewrite El. set_solver.
    + intros x. by apply (first_responder_highest _ _ _ _ _ _ _ Hok E).
    + by apply write_string_found.
  - split; [by apply first_responder_None|]. unfold WriteString. rewrite (write_string_lost _ _ _ _ _ E).
    destruct (String.eqb STDERR n); [done|]. unfold report, WriteString. symmetry.
    apply (report_depth 1); [apply unrecognized_on_stderr|done].
Qed.

(** Messages nest at most once: however deep the nesting that is allowed,
    [WriteString] does the same. *)
Theorem WriteString_nesting depth h a n str :
  all_paired h → 2 <= depth → write_string depth (LName a n) str h = WriteString (LName a n) str h.
Proof.
  intros Hp Hd. destruct depth as [|[|depth]]; [lia|lia|]. by apply write_string_depth.
Qed.

(** ** Destinations *)

(** C21: Whatever is written to a string destination over an array, and however
    much, the array then holds the text up to the size given less one byte,
    padded with zeros; the byte at that place, the other bytes and the other
    arrays keep their contents. *)
Theorem string_destination_bounded h a n p max cells strs :
  dest_open h a n p max cells [] → strs ≠ [] → ∃ h', forM strs (WriteString (LName a n)) h = Returned tt h' ∧
  arrays h' !! p = Some (if 2 <=? max then dest_cells max cells (strs ≫= chars) else cells) ∧
  (∀ q, q ≠ p → arrays h' !! q = arrays h !! q).
Proof.
  intros H Hne. destruct strs as [|str strs]; [done|]. cbn [forM mbind list_bind].
  destruct (WriteString_dest h a n p max cells [] str H) as (h1 & E & H1 & _ & _ & _ & _ & Hq).
  unfold mbind at 1, P_bind at 1. rewrite E. pose proof (do_room _ _ _ _ _ _ _ H) as Hroom.
  destruct (Nat.leb_spec 2 max) as [Hm|Hm].
  - rewrite (proj2 (Nat.ltb_lt _ _)) in H1 by (cbn; lia).
    destruct (WriteString_dest_many h1 a n p max cells _ _ strs H1 Hroom eq_refl) as (h2 & E2 & H2 & Hq2).
    exists h2. split_and!; [done|by apply (do_array _ _ _ _ _ _ _ H2)|]. intros q Hn. by rewrite Hq2, Hq.
  - rewrite (proj2 (Nat.ltb_ge _ _)) in H1 by (cbn; lia).
    assert (∀ l, dest_cells max cells l = cells) as Hid.
    { intros l. unfold dest_cells. replace (max - 1) with 0 by lia. by rewrite take_0, drop_0. }
    destruct (WriteString_dest_many h1 a n p max cells cells _ strs H1 Hroom (eq_sym (Hid _))) as (h2 & E2 & H2 & Hq2).
    exists h2. split_and!; [done|rewrite (do_array _ _ _ _ _ _ _ H2); by rewrite Hid|]. intros q Hn. by rewrite Hq2, Hq.
Qed.

(** What is written to a string builder is what [SBCopy] returns. *)
Theorem string_builder_collects h a n p strs :
  builder_open h a n p [] → ∃ h' theSB, forM strs (WriteString (LName a n)) h = Returned tt h' ∧
  builders h' !! p = Some theSB ∧ SBCopy theSB = Some (text (strs ≫= chars)).
Proof.
  intros H. destruct (WriteString_builder_many h a n p [] strs H) as (h' & E & H').
  destruct (bo_contents _ _ _ _ _ H') as (theSB & Hb & Hl). exists h', theSB. split_and!; [done|done|]. by apply SBCopy_builds.
Qed.

(** ** Sources *)

(** Read [k] characters. *)
Fixpoint read_many (k : nat) (name : LogicalName) : P (IOEnv W) (list Z) :=
  match k with O => mret [] | S k' => c ← ReadRouter name; cs ← read_many k' name; mret (c :: cs) end.

Lemma read_many_source a n p l i k h : source_open a n p l i h → ∃ h', 
  read_many k (LName a n) h = Returned (code_at l <$> seq i k) h' ∧ source_open a n p l (i + k) h'.
Proof.
  revert i h. induction k as [|k IH]; intros i h H; cbn [read_many seq fmap list_fmap].
  { exists h. rewrite Nat.add_0_r. done. }
  rewrite (P_bind_Returned _ _ _ _ _ (ReadRouter_source _ _ _ _ _ _ H)).
  destruct (IH (S i) _ (source_open_at _ _ _ _ _ (S i) _ H)) as (h' & E & H'). exists h'.
  rewrite (P_bind_Returned _ _ _ _ _ E). split; [done|]. by replace (i + S k) with (S i + k) by lia.
Qed.

(** A string source gives its characters one by one and then [EOF] for
    ever; a character that is put back is read again. *)
Theorem string_source_reads h a n p l i k ch :
  source_open a n p l i h → ∃ h' h'' z,
  read_many k (LName a n) h = Returned (code_at l <$> seq i k) h' ∧
  (0 < k → UnreadRouter (LName a n) ch h' = Returned z h'' ∧
    ∃ h3, ReadRouter (LName a n) h'' = Returned (code_at l (i + k - 1)) h3).
Proof.
  intros H. destruct (read_many_source a n p l i k h H) as (h' & E & H'). exists h', (source_at n (i + k - 1) h'), 1%Z.
  split; [done|]. intros Hk. replace (i + k) with (S (i + k - 1)) in H' by lia. split.
  - by apply (UnreadRouter_source a n p l).
  - eexists. apply (ReadRouter_source a n p l). by apply (source_open_at _ _ _ _ (S (i + k - 1))).
Qed.

(** C22: The fast path for strings reads past the end of its string: once it has
    returned [EOF], the next character is the one after the final [NUL], which
    is not in the array. *)
Theorem FastCharGet_overruns h name p l :
  FastCharGetRouter (router_data h) = Some name → same_pointer name name = true → is_file name (FastLoadFilePtr (router_data h)) = false →
  FastCharGetString (router_data h) = Some p → arrays h !! p = Some ((Some <$> l) ++ [Some NUL]) →
  FastCharGetIndex (router_data h) = Z.of_nat (length l) →
  ∃ h', ReadRouter name h = Returned EOF h' ∧ ReadRouter name h' = Undefined.
Proof.
  intros Hr Hs Hf Hstr Ha Hi. unfold ReadRouter, router_field, modify_router, array_byte, someIO.
  unfold mbind, P_bind, getIO, modifyIO. rewrite Hf. cbn beta iota.
  rewrite Hr. cbn [same_pointer_opt]. rewrite Hs. cbn beta iota. rewrite Hstr, Hi.
  rewrite (proj2 (Z.ltb_ge _ _)) by lia. cbn. rewrite Ha. cbn.
  rewrite Nat2Z.id, lookup_app_r, length_fmap, Nat.sub_diag by (by rewrite length_fmap). cbn.
  eexists. split; [done|]. cbn. rewrite Hf. cbn. rewrite Hr. cbn [same_pointer_opt]. rewrite Hs. cbn. rewrite Hstr.
  rewrite (proj2 (Z.ltb_ge _ _)) by lia. cbn. rewrite Ha. cbn.
  rewrite lookup_ge_None_2; [done|]. rewrite length_app, length_fmap. cbn. lia.
Qed.
End theorems.

(** ** Concrete runs *)

Definition after {A} (m : P (IOEnv Terminal) A) (h : IOEnv Terminal) : IOEnv Terminal :=
  match m h with Returned _ h' => h' | _ => h end.
Definition file_router : P (IOEnv Terminal) bool := AddRouter "file" 0 (Some (HostQuery 2)) (Some (HostWrite 2)) None None None None.

Lemma routers_stay_sorted_witness :
  routers_ok (ListOfRouters (router_data demo_io)) ∧
  routers_ok (ListOfRouters (router_data (after (DeactivateRouter "terminal") (after file_router demo_io)))).
Proof.
  split; [apply demo_routers_ok|]. apply (routers_stay_sorted demo_io); [apply demo_routers_ok|].
  apply rtc_l with (after file_router demo_io).
  - apply (step_add "file" 0 (Some (HostQuery 2)) (Some (HostWrite 2)) None None None None true). vm_compute. reflexivity.
  - apply rtc_once. apply (step_deactivate "terminal" true). vm_compute. reflexivity.
Defined.
Lemma AddRouter_roundtrip_witness :
  routers_ok (ListOfRouters (router_data demo_io)) ∧
  AddRouter "terminal" 5 None None None None None None demo_io = Returned false demo_io ∧
  DeleteRouter "file" (after file_router demo_io) = Returned true demo_io.
Proof.
  split; [apply demo_routers_ok|]. split.
  - exact (AddRouter_roundtrip demo_io "terminal" 5 None None None None None None demo_routers_ok).
  - destruct (AddRouter_roundtrip demo_io "file" 0 (Some (HostQuery 2)) (Some (HostWrite 2)) None None None None demo_routers_ok)
      as (l1 & l2 & h' & _ & E & _ & _ & _ & Hd).
    unfold after. unfold file_router. rewrite E. exact Hd.
Defined.
Lemma WriteString_dispatch_witness :
  WriteString (LName 4 "builder") "text" demo_io =
  call_write no_report (mkRouter "stringBuilder" true 0 None (Some QueryStringBuilderCallback) (Some WriteStringBuilderCallback) None None None)
    WriteStringBuilderCallback (LName 4 "builder") "text" demo_io.
Proof. exact (proj2 (proj2 (proj2 (proj2 (WriteString_dispatch demo_io 4 "builder" "text" demo_routers_ok demo_paired))))). Defined.
Lemma WriteString_nesting_witness :
  write_string 7 (LName 9 "nowhere") "text" demo_io = WriteString (LName 9 "nowhere") "text" demo_io.
Proof. apply WriteString_nesting; [apply demo_paired|lia]. Defined.
Lemma string_destination_bounded_witness : ∃ h',
  forM ["abc"; "defg"; "hij"] (WriteString (LName 3 "buffer")) demo_io = Returned tt h' ∧
  arrays h' !! 2%positive = Some (Some <$> (chars "abcdefg" ++ [NUL])).
Proof.
  destruct (string_destination_bounded demo_io 3 "buffer" 2 8 (replicate 8 (Some NUL)) ["abc"; "defg"; "hij"] demo_dest) as (h' & E & Ha & _).
  - discriminate.
  - exists h'. split; [exact E|exact Ha].
Defined.
Lemma string_builder_collects_witness : ∃ h' theSB,
  forM ["abc"; "defg"] (WriteString (LName 4 "builder")) demo_io = Returned tt h' ∧
  builders h' !! 1%positive = Some theSB ∧ SBCopy theSB = Some "abcdefg".
Proof. exact (string_builder_collects demo_io 4 "builder" 1 ["abc"; "defg"] demo_builder). Defined.
Lemma string_source_reads_witness : ∃ h' h'' z,
  read_many 3 (LName 2 "text") demo_io = Returned [102; 111; 111]%Z h' ∧
  UnreadRouter (LName 2 "text") 111 h' = Returned z h''.
Proof.
  destruct (string_source_reads demo_io 2 "text" 1 (chars demo_text) 0 3 111 demo_source) as (h' & h'' & z & E & Hu).
  exists h', h'', z. split; [exact E|]. exact (proj1 (Hu ltac:(lia))).
Defined.

(** A comment at the end of the string of a fast path. *)
Definition fast_io (str : string) : IOEnv Terminal :=
  put_arrays {[ 5%positive := (Some <$> chars str) ++ [Some NUL] ]}
    (after (modify_router (set_FastCharGet (Some (LName 6 "fast")) (Some 5%positive) 0)) demo_io).
Lemma FastCharGet_overruns_witness : ∃ h', ReadRouter (LName 6 "fast") (fast_io "") = Returned EOF h' ∧
  ReadRouter (LName 6 "fast") h' = Undefined.
Proof. apply (FastCharGet_overruns (fast_io "") (LName 6 "fast") 5 []); reflexivity. Defined.
Example comment_overruns :
  GetToken 100 (LName 6 "fast") (initial_env [] ∅ (fast_io "; comment")) = Undefined ∧
  GetToken 100 (LName 6 "fast") (initial_env [] ∅ (fast_io ("; comment" +:+ newline +:+ "x"))) ≠ Undefined.
Proof. split; vm_compute; [reflexivity|discriminate]. Qed.
