(* ===== verification/ScanTheorems.v ===== *)
(** * Theorems on the scanner

    [scanner.c] against the reference tokenizer, and with the printers of
    [prntutil.c]. *)
From S2P Require Import Prelude Values Router Process Hash SList AtomState Atoms AtomProofs.
From S2P Require Import AtomWitness AtomTheorems.
From S2P Require Import TextBuffer TextProofs IOState StringRouters Routers RouterProofs.
From S2P Require Import NumberText PPrint Scanner Lexer ScanProofs LexProofs Print IOWitness.
#[local] Open Scope nat_scope.

(** ** Progress of the reference tokenizer *)

Lemma skip_space_length m l : length (skip_space m l) <= length l.
Proof.
  revert m. induction l as [|c l IH]; intros m; cbn [skip_space length]; [done|].
  destruct m; [|destruct (code_of c =? semicolon)%Z; [|destruct (white_space (code_of c)); [|done]]];
    etrans; [apply IH|lia| apply IH|lia|apply IH|lia].
Qed.
Lemma drop_while_length {A} (f : A → bool) l : length (drop_while f l) <= length l.
Proof. induction l as [|x l IH]; cbn; [done|]. destruct (f x); cbn; lia. Qed.
Lemma lex_symbol_length acc l : length (lx_rest (lex_symbol acc l)) <= length l.
Proof. unfold lex_symbol. destruct (bracketed _); apply drop_while_length. Qed.
Lemma lex_symbol_shorter c l : is_symbol_char c = true → length (lx_rest (lex_symbol [] (c :: l))) <= length l.
Proof. intros H. unfold lex_symbol. destruct (bracketed _); cbn; rewrite H; apply drop_while_length. Qed.
Lemma lex_string_length acc l : length (lex_string acc l).2 <= length l.
Proof.
  remember (length l) as n eqn:Hn. revert acc l Hn. induction n as [n IH] using lt_wf_ind. intros acc l Hn.
  destruct l as [|c l]; [cbn; lia|]. cbn [lex_string length] in *.
  destruct (code_of c =? quote)%Z; [cbn; lia|]. destruct (code_of c =? backslash)%Z.
  - destruct l as [|c' l]; [cbn; lia|]. cbn [length] in *. specialize (IH (length l) ltac:(lia) (expand_char acc (code_of c')) l eq_refl). lia.
  - specialize (IH (length l) ltac:(lia) (expand_char acc (code_of c)) l eq_refl). lia.
Qed.
Lemma number_run_length phase df pf acc l : length (number_run phase df pf acc l).2 <= length l.
Proof.
  revert phase df pf acc. induction l as [|c l IH]; intros phase df pf acc; cbn [number_run].
  { by destruct (number_step _ _ _ _ _) as [[[??]?]?]. }
  destruct (number_step _ _ _ _ _) as [[[phase' df'] pf'] added]. destruct (phase' =? DONE)%Z; [done|].
  destruct (phase' =? ERROR)%Z; cbn [snd length]; [lia|]. etrans; [apply IH|lia].
Qed.
Lemma lex_number_shorter c l : isdigit (code_of c) || is_sign (code_of c) || (code_of c =? point)%Z = true →
  length (lx_rest (lex_number (c :: l))) <= length l.
Proof.
  intros Hc. unfold lex_number.
  assert (length (number_run SIGN false false [] (c :: l)).2 <= length l) as Hr.
  { cbn [number_run]. unfold number_step. cbn [Z.eqb SIGN].
    destruct (isdigit (code_of c)); [apply number_run_length|]. destruct (is_sign (code_of c)); [apply number_run_length|].
    cbn [orb] in Hc. rewrite Hc. apply number_run_length. }
  destruct (number_run SIGN false false [] (c :: l)) as [[[[phase df] pf] cs] rest]. cbn [snd] in Hr.
  destruct (phase =? ERROR)%Z; [etrans; [apply lex_symbol_length|done]|]. by destruct df.
Qed.
Lemma lex_variable_length prefix v g w l : length (lx_rest (lex_variable prefix v g w l)) <= length l.
Proof.
  destruct l as [|c l]; [done|]. cbn [lex_variable]. destruct (_ || _).
  - destruct (starred _); apply drop_while_length.
  - destruct (_ && _); cbn; lia.
Qed.

Lemma lex_token_shorter c l : white_space (code_of c) = false → length (lx_rest (lex_token (c :: l))) <= length l.
Proof.
  intros Hw. cbn [lex_token]. destruct (starts_name (code_of c)) eqn:E1.
  { unfold with_type. cbn [lx_rest]. by apply lex_symbol_shorter, name_is_symbol. }
  match goal with |- context [if ?b then lex_number _ else _] => destruct b eqn:E2 end; [by apply lex_number_shorter|].
  destruct (code_of c =? quote)%Z eqn:E3.
  { pose proof (lex_string_length [] l) as H. by destruct (lex_string [] l). }
  destruct (code_of c =? question_mark)%Z eqn:E4; [apply lex_variable_length|].
  destruct ((code_of c =? dollar)%Z && _).
  { etrans; [apply lex_variable_length|]. rewrite length_drop. lia. }
  destruct ((code_of c =? dollar)%Z || (code_of c =? less_than)%Z) eqn:E6; [apply lex_symbol_length|].
  apply orb_false_iff in E6 as [E6 E7].
  destruct (punctuation_type (code_of c)) as [[??]|] eqn:E8; [cbn; lia|].
  destruct ((code_of c =? 0)%Z || (code_of c =? 3)%Z); [cbn; lia|].
  destruct (isprint (code_of c)) eqn:E9; [|cbn; lia]. by apply lex_symbol_shorter, other_symbol.
Qed.
Lemma lex_progress l : lx_type (lex l) ≠ STOP_TOKEN → length (lx_rest (lex l)) < length l.
Proof.
  unfold lex. pose proof (skip_space_length false l) as Hl. destruct (skip_space false l) as [|c r] eqn:E; [done|].
  intros _. pose proof (lex_token_shorter c r (skip_space_head _ _ _ _ E)). cbn [length] in Hl. lia.
Qed.

Section theorems.
Context {W : Type} `{!RouterHost W}.
Context (name : LogicalName) (at_ : list byte → nat → IOEnv W → Prop) `{!CharSource name at_}.
Abbreviation env := (AtomEnv (IOEnv W)).
Implicit Types (s : env) (K : list (Atom * ptr)).

(** C16: [GetToken] implements the reference tokenizer on any source of
    characters, unless the token is the integer [LLONG_MIN], and given fuel for
    the length of the input: it returns, having met
    no undefined behaviour, with the token's type, print form and interned
    value; the input is after the token, [GlobalString] is released, and the
    tables and the atoms known before are intact. *)
Theorem GetToken_correct fuel l i K s :
  idle at_ l i K s → S (length l) < fuel → no_least_integer (lex (drop i l)) →
  ∃ t s' j K', GetToken fuel name s = Returned t s' ∧
    drop j l = lx_rest (lex (drop i l)) ∧ idle at_ l j K' s' ∧ K ⊆ K' ∧ token_matches (lex (drop i l)) t K'.
Proof.
  intros H Hf Hl. destruct (GetToken_returns name at_ fuel l i K s H Hf Hl) as (t & s' & E & j & K' & Hj & H' & HK & Hm).
  by exists t, s', j, K'.
Qed.

(** Tokens up to the first [STOP_TOKEN]. *)
Fixpoint all_tokens (calls fuel : nat) : P env (list token) :=
  match calls with
  | O => fun _ => Undefined
  | S calls' =>
      t ← GetToken fuel name;
      if bool_decide (tknType t = STOP_TOKEN) then mret [t] else ts ← all_tokens calls' fuel; mret (t :: ts)
  end.

Lemma all_tokens_mono c1 c2 fuel s ts s' : all_tokens c1 fuel s = Returned ts s' → c1 <= c2 → all_tokens c2 fuel s = Returned ts s'.
Proof.
  revert c2 s ts s'. induction c1 as [|c1 IH]; intros c2 s ts s' E Hc; [done|]. destruct c2 as [|c2]; [lia|]. cbn [all_tokens] in *.
  apply P_bind_inv in E as (t & s1 & E1 & E). rewrite (P_bind_Returned _ _ _ _ _ E1).
  destruct (bool_decide _); [done|]. apply P_bind_inv in E as (ts' & s2 & E2 & E).
  rewrite (P_bind_Returned _ _ _ _ _ (IH c2 _ _ _ E2 ltac:(lia))). done.
Qed.

(** No token of the text is the integer that cannot be hashed. *)
Fixpoint no_least (n : nat) (l : list byte) : Prop :=
  match n with O => True | S n' => no_least_integer (lex l) ∧ no_least n' (lx_rest (lex l)) end.

(** C18: Reading tokens ends, on a text none of whose tokens is the least
    integer: a [STOP_TOKEN] comes after at most as many tokens as there are
    characters left. *)
Theorem tokens_end fuel l i K s :
  idle at_ l i K s → S (length l) < fuel → no_least (S (length l)) (drop i l) →
  ∃ ts s', all_tokens (S (length (drop i l))) fuel s = Returned ts s'.
Proof.
  intros H Hf Hl. assert (length (drop i l) <= length l) as Hn by (rewrite length_drop; lia).
  assert (∀ n N i K s, n = length (drop i l) → n <= N → idle at_ l i K s → no_least (S N) (drop i l) →
    ∃ ts s', all_tokens (S n) fuel s = Returned ts s') as Hall; [|by apply (Hall _ (length l) i K s)].
  clear i K s H Hl Hn. induction n as [n IH] using lt_wf_ind. intros N i K s Hn HN H [Hl Hrest].
  destruct (GetToken_returns name at_ fuel l i K s H Hf Hl) as (t & s1 & E & j & K1 & Hj & H1 & _ & Ht & _).
  cbn [all_tokens]. rewrite (P_bind_Returned _ _ _ _ _ E).
  destruct (bool_decide_reflect (tknType t = STOP_TOKEN)) as [_|Hne]; [by do 2 eexists|].
  rewrite Ht in Hne. pose proof (lex_progress _ Hne) as Hlt. rewrite <- Hj in Hlt, Hrest.
  destruct n as [|m]; [lia|]. destruct N as [|N]; [lia|].
  destruct (IH (length (drop j l)) ltac:(lia) N j K1 s1 eq_refl ltac:(lia) H1 Hrest) as (ts & s2 & E2).
  rewrite (P_bind_Returned _ _ _ _ _ (all_tokens_mono _ (S m) _ _ _ _ E2 ltac:(lia))). by do 2 eexists.
Qed.
End theorems.

(** ** Printing and reading back *)

(** What [PrintAtom] writes, escapes preserved. *)
Definition printed (a : Atom) : string :=
  match a with
  | AFloat number => float_to_string number
  | AInteger number => integer_to_string number
  | ALexeme type str =>
      if (type =? SYMBOL_TYPE)%Z then str
      else if (type =? STRING_TYPE)%Z then String.string_of_list_ascii (quoted (chars str))
      else "[" +:+ str +:+ "]"
  | _ => ""
  end.

(** The atoms whose print form is read back: integers, strings, and the
    symbols and instance names whose text the scanner takes for one. *)
Definition readable (a : Atom) : Prop :=
  match a with
  | AInteger number => (LLONG_MIN < number <= LLONG_MAX)%Z
  | ALexeme type str =>
      if (type =? SYMBOL_TYPE)%Z then
        match chars str with
        | [] => False
        | c :: cs => starts_name (code_of c) = true ∧ Forall (fun c => is_symbol_char c = true) cs
        end
      else if (type =? STRING_TYPE)%Z then plain (chars str)
      else type = INSTANCE_NAME_TYPE ∧ chars str ≠ [] ∧ Forall (fun c => is_symbol_char c = true) (chars str)
  | _ => False
  end.
(** The text that may follow it. *)
Definition boundary (a : Atom) (rest : list byte) : Prop :=
  match a with
  | AInteger _ => number_boundary rest
  | ALexeme type _ => if (type =? STRING_TYPE)%Z then True else symbol_boundary rest
  | _ => True
  end.
Definition token_type (a : Atom) : TokenType :=
  match a with
  | AInteger _ => INTEGER_TOKEN
  | ALexeme type _ =>
      if (type =? SYMBOL_TYPE)%Z then SYMBOL_TOKEN else if (type =? STRING_TYPE)%Z then STRING_TOKEN else INSTANCE_NAME_TOKEN
  | _ => UNKNOWN_VALUE_TOKEN
  end.

Lemma chars_of_text l : chars (String.string_of_list_ascii l) = l.
Proof. apply String.list_ascii_of_string_of_list_ascii. Qed.
Lemma text_of_chars str : String.string_of_list_ascii (chars str) = str.
Proof. apply String.string_of_list_ascii_of_string. Qed.
Lemma chars_bracketed str : chars ("[" +:+ str +:+ "]") = char_of left_bracket :: chars str ++ [char_of right_bracket].
Proof. by rewrite !chars_app. Qed.

Lemma lex_printed a rest : readable a → boundary a rest →
  lx_type (lex (chars (printed a) ++ rest)) = token_type a ∧ lx_value (lex (chars (printed a) ++ rest)) = Some a ∧
  lx_rest (lex (chars (printed a) ++ rest)) = rest.
Proof.
  intros Ha Hr. destruct a as [type str|number|number| |]; try done; cbn [readable printed boundary token_type] in *.
  - destruct (Z.eqb_spec type SYMBOL_TYPE) as [->|H1]; [|destruct (Z.eqb_spec type STRING_TYPE) as [->|H2]].
    + destruct (chars str) as [|c cs] eqn:E; [done|]. destruct Ha as [Hc Hcs]. rewrite lex_name by done.
      rewrite <- E, text_of_chars. done.
    + rewrite chars_of_text, lex_quoted by done. by rewrite text_of_chars.
    + destruct Ha as (-> & Hne & Hcs). rewrite chars_bracketed. cbn [app]. rewrite <- app_assoc. cbn [app].
      rewrite lex_bracketed by done. by rewrite text_of_chars.
  - unfold integer_to_string. rewrite chars_of_text, lex_integer by (done || lia). done.
Qed.
Lemma readable_hashes a : readable a → a ≠ AInteger LLONG_MIN ∧ is_nan_atom a = false.
Proof. destruct a; cbn; try done. intros H. split; [|done]. intros [= ->]. lia. Qed.

Definition printed_all (aps : list (Atom * ptr)) : list byte := aps ≫= (fun ap => chars (printed ap.1) ++ [char_of space]).

(** *** Printing *)

Section printing.
Context {W : Type} `{!RouterHost W} `{!HostLaws W}.
Context (b : ptr) (n : string) (q : ptr).
Abbreviation env := (AtomEnv (IOEnv W)).
Implicit Types (s : env).

(** The builder behind the logical name [n] holds [l]; the atoms [K] are interned. *)
Definition printing (K : list (Atom * ptr)) (l : list byte) s : Prop :=
  builder_open (host s) b n q l ∧ (∃ C, atoms_inv s C) ∧ (∀ a p, (a, p) ∈ K → interned s a p).

Lemma write_returns K l s str Q : printing K l s → (∀ s', printing K (l ++ chars str) s' → Q tt s') →
  returns (write (LName b n) str) s Q.
Proof.
  intros (Hb & [C HC] & Hp) HQ. destruct (WriteString_builder _ _ _ _ _ str Hb) as (theSB & h & E & Hb' & _).
  exists tt, (put_host h s). split; [unfold write, io; by rewrite E|]. apply HQ. split; [done|]. split; [|done].
  exists C. by apply atoms_inv_host.
Qed.
Lemma creates_prints K l s a create (Q : ptr → env → Prop) : printing K l s → (∀ C, atoms_inv s C → creates a create s C) →
  (∀ p s', host s' = host s → printing ((a, p) :: K) l s' → Q p s') → returns create s Q.
Proof.
  intros (Hb & [C HC] & HK) Hc HQ. destruct (Hc C HC) as [(p & Hp & _ & E)|(_ & x & Hx & E & Hinv)].
  - exists p, s. split; [exact E|]. apply HQ; [done|]. split; [done|]. split; [by exists C|].
    intros a' p' [[= -> ->]|Hin]%elem_of_cons; auto.
  - do 2 eexists. split; [exact E|]. apply HQ; [done|]. split; [done|]. split; [by eexists|].
    intros a' p' [[= -> ->]|Hin]%elem_of_cons; apply added_interned; auto.
Qed.
Lemma created_string_prints K l s str Q : printing K l s → (∀ s', printing K l s' → Q str s') →
  returns (created_string (Some str)) s Q.
Proof.
  intros H HQ. unfold created_string. apply returns_bind. exists str, s. split; [done|]. apply returns_bind.
  apply (creates_prints _ _ _ (ALexeme STRING_TYPE str) _ _ H).
  { intros C HC. apply AddSymbol_creates; [done|by vm_compute; auto]. }
  intros r s' _ (Hb & HC & HK). destruct (proj1 (interned_node _ _ _) (HK _ _ (list_elem_of_here _ _))) as (x & Hx & Hc).
  exists str, s'. split; [unfold lexeme_text, node, someP; unfold mbind, P_bind, getsP; by rewrite Hx, Hc|].
  apply HQ. split; [done|]. split; [done|]. intros a p Hin. by apply HK, list_elem_of_further.
Qed.

Lemma PrintAtom_returns other K a p l s Q : readable a → (a, p) ∈ K → printing K l s →
  (∀ s', printing K (l ++ chars (printed a)) s' → Q tt s') → returns (PrintAtom true other (LName b n) p) s Q.
Proof.
  intros Ha Hin H HQ. unfold PrintAtom. apply returns_bind.
  destruct (proj1 (interned_node _ _ _) (proj2 (proj2 H) a p Hin)) as (x & Hx & Hc).
  exists x, s. split; [unfold node, someP; unfold mbind, P_bind, getsP; by rewrite Hx|].
  rewrite Hc. destruct a as [type str|number|number| |]; try done; cbn [readable printed] in *.
  - destruct (Z.eqb_spec type SYMBOL_TYPE) as [->|H1]; [by apply (write_returns _ _ _ _ _ H)|].
    destruct (Z.eqb_spec type STRING_TYPE) as [->|H2].
    + apply returns_bind. unfold StringPrintForm. rewrite string_print_form_plain by done.
      apply (created_string_prints _ _ _ _ _ H). intros s1 H1'. by apply (write_returns _ _ _ _ _ H1').
    + destruct Ha as (-> & _). change (INSTANCE_NAME_TYPE =? INSTANCE_NAME_TYPE)%Z with true. cbn iota.
      apply returns_bind, (write_returns _ _ _ _ _ H). intros s1 Hs1.
      apply returns_bind, (write_returns _ _ _ _ _ Hs1). intros s2 Hs2.
      apply (write_returns _ _ _ _ _ Hs2). intros s3 Hs3. apply HQ.
      by rewrite !chars_app, !app_assoc.
  - by apply (write_returns _ _ _ _ _ H).
Qed.

(** Atoms, a space after each. *)
Definition print_all other (aps : list (Atom * ptr)) : P env unit :=
  forM aps (fun ap => _ ← PrintAtom true other (LName b n) ap.2; write (LName b n) " ").
Lemma print_all_returns other K aps l s : Forall (fun ap => readable ap.1) aps → (∀ ap, ap ∈ aps → ap ∈ K) →
  printing K l s → returns (print_all other aps) s (fun _ s' => printing K (l ++ printed_all aps) s').
Proof.
  intros Ha. revert l s. induction Ha as [|[a p] aps Ha _ IH]; intros l s HK H; cbn [print_all forM].
  { apply returns_ret. unfold printed_all. cbn. by rewrite app_nil_r. }
  apply returns_bind, returns_bind, (PrintAtom_returns _ _ _ _ _ _ _ Ha (HK _ (list_elem_of_here _ _)) H). intros s1 H1.
  apply (write_returns _ _ _ _ _ H1). intros s2 H2. unfold printed_all. cbn [mbind list_bind fst].
  rewrite app_assoc, (app_assoc l). apply IH; [|done]. intros ap Hin. by apply HK, list_elem_of_further.
Qed.
End printing.

(** *** Reading *)

Section reading.
Context {W : Type} `{!RouterHost W}.
Context (name : LogicalName) (at_ : list byte → nat → IOEnv W → Prop) `{!CharSource name at_}.

Fixpoint read_tokens (k fuel : nat) : P (AtomEnv (IOEnv W)) (list token) :=
  match k with
  | O => mret []
  | S k' => t ← GetToken fuel name; ts ← read_tokens k' fuel; mret (t :: ts)
  end.

Lemma boundary_space a rest : boundary a (char_of space :: rest).
Proof. destruct a as [type str|number|number| |]; cbn; try done. by destruct (type =? STRING_TYPE)%Z. Qed.

Lemma read_tokens_returns fuel l aps K i s (before : bool) : Forall (fun ap => readable ap.1) aps → (∀ ap, ap ∈ aps → ap ∈ K) →
  S (length l) < fuel → idle at_ l i K s → drop i l = (if before then [char_of space] else []) ++ printed_all aps →
  returns (read_tokens (length aps) fuel) s (fun ts s' =>
    tkn_value <$> ts = Some ∘ snd <$> aps ∧ tknType <$> ts = token_type ∘ fst <$> aps ∧ ∃ j K', idle at_ l j K' s').
Proof.
  intros Ha. revert K i s before. induction Ha as [|[a p] aps Ha _ IH]; intros K i s before HK Hf H Hl; cbn [read_tokens length].
  { apply returns_ret. by split_and!; [..|exists i, K]. }
  assert (lex (drop i l) = lex (chars (printed a) ++ char_of space :: printed_all aps)) as El.
  { rewrite Hl. unfold printed_all. cbn [mbind list_bind fst]. rewrite <- app_assoc. cbn [app]. by destruct before. }
  destruct (lex_printed a (char_of space :: printed_all aps) Ha (boundary_space _ _)) as (E1 & E2 & E3).
  rewrite <- El in E1, E2, E3. destruct (readable_hashes a Ha) as [Hne Hnan].
  destruct (GetToken_returns name at_ fuel l i K s H Hf) as (t & s1 & E & j & K1 & Hj & H1 & HK1 & Ht1 & _ & Ht3).
  { unfold no_least_integer. rewrite E2. congruence. }
  rewrite E2 in Ht3. destruct Ht3 as (p' & Hp' & Hin).
  assert (p' = p) as ->.
  { destruct (rd_atoms _ _ _ _ _ _ (id_ready _ _ _ _ _ H1)) as [C HC].
    pose proof (rd_known _ _ _ _ _ _ (id_ready _ _ _ _ _ H1)) as Hknown.
    eapply interned_unique; [exact HC|by apply Hknown|by apply Hknown, HK1, HK, list_elem_of_here|done|done]. }
  apply returns_bind. exists t, s1. split; [done|]. apply returns_bind. rewrite E3 in Hj.
  destruct (IH K1 j s1 true) as (ts & s2 & E' & Hv & Hty & Hi).
  - intros ap Hap. by apply HK1, HK, list_elem_of_further.
  - done.
  - done.
  - done.
  - exists ts, s2. split; [done|]. apply returns_ret. cbn. rewrite Hv, Hty, Hp', Ht1, E1. done.
Qed.
End reading.

(** C17: The atoms that are [readable] survive printing and reading:
    [PrintAtom] writes a text to a string builder from which [GetToken], in any
    source, reads the very same nodes of the tables, in order.  Readable are the
    integers but the least, the strings without a backspace, the symbols that
    begin with a letter or a UTF-8 character and consist of symbol characters,
    and the instance names that consist of symbol characters; other symbols
    ([1], [a b]) and strings with a backspace do not come back. *)
Theorem print_read_roundtrip {W} `{!RouterHost W} `{!HostLaws W} aps K other (s : AtomEnv (IOEnv W)) b n q l :
  Forall (fun ap => readable ap.1) aps → (∀ ap, ap ∈ aps → ap ∈ K) → printing b n q K l s →
  ∃ s1, print_all b n other aps s = Returned tt s1 ∧ printing b n q K (l ++ printed_all aps) s1 ∧
  ∀ name at_ (_ : CharSource name at_) fuel (s2 : AtomEnv (IOEnv W)),
    idle at_ (printed_all aps) 0 K s2 → S (length (printed_all aps)) < fuel →
    ∃ ts s3, read_tokens name (length aps) fuel s2 = Returned ts s3 ∧
      tkn_value <$> ts = Some ∘ snd <$> aps ∧ tknType <$> ts = token_type ∘ fst <$> aps.
Proof.
  intros Ha HK H. destruct (print_all_returns b n q other K aps l s Ha HK H) as ([] & s1 & E & H1).
  exists s1. split; [done|]. split; [done|]. intros name at_ Hs fuel s2 Hidle Hf.
  destruct (read_tokens_returns name at_ fuel (printed_all aps) aps K 0 s2 false Ha HK Hf Hidle eq_refl) as (ts & s3 & E3 & Hv & Ht & _).
  by exists ts, s3.
Qed.

(** ** Concrete runs *)

Lemma GetToken_correct_witness : ∃ t s' (K' : list (Atom * ptr)),
  GetToken 100 (LName 2 "text") demo_env = Returned t s' ∧
  tknType t = SYMBOL_TOKEN ∧ printForm t = "foo" ∧ ∃ p, tkn_value t = Some p ∧ (ALexeme SYMBOL_TYPE "foo", p) ∈ K'.
Proof.
  destruct (GetToken_correct (LName 2 "text") (source_open 2 "text" 1) 100 (chars demo_text) 0 [] demo_env demo_idle)
    as (t & s' & j & K' & E & _ & _ & _ & Hm).
  - apply (bool_decide_unpack _). vm_compute. exact I.
  - vm_compute. discriminate.
  - exists t, s', K'. split; [exact E|exact Hm].
Defined.
Lemma tokens_end_witness : ∃ ts s', all_tokens (LName 2 "text") 21 100 demo_env = Returned ts s'.
Proof.
  apply (tokens_end (LName 2 "text") (source_open 2 "text" 1) 100 (chars demo_text) 0 [] demo_env demo_idle).
  - apply (bool_decide_unpack _). vm_compute. exact I.
  - vm_compute. repeat split; discriminate.
Defined.

Definition demo_atoms : list Atom :=
  [ALexeme SYMBOL_TYPE "foo"; ALexeme INSTANCE_NAME_TYPE "bar"; AInteger (-12); ALexeme STRING_TYPE "a b"].
Definition create_demo_atoms : P (AtomEnv (IOEnv Terminal)) (list ptr) :=
  p1 ← CreateSymbol (Some "foo"); p2 ← CreateInstanceName (Some "bar");
  p3 ← CreateInteger (-12); p4 ← CreateString (Some "a b"); mret [p1; p2; p3; p4].

Lemma demo_printing : returns create_demo_atoms demo_env (fun ps s =>
  let K := reverse (zip demo_atoms ps) in length ps = 4 ∧ printing 4 "builder" 1 K [] s ∧ host s = demo_io).
Proof.
  assert (printing 4 "builder" 1 [] [] demo_env) as H0.
  { split; [apply demo_builder|]. split; [eexists; apply initial_atoms_inv|]. intros a p Hin. by apply not_elem_of_nil in Hin. }
  assert (host demo_env = demo_io) as E0 by reflexivity. revert H0 E0. generalize demo_env. intros s0 H0 E0.
  unfold create_demo_atoms. apply returns_bind, (creates_prints _ _ _ _ _ _ (ALexeme SYMBOL_TYPE "foo") _ _ H0).
  { intros C HC. apply AddSymbol_creates; [done|by vm_compute; auto]. }
  intros p1 s1 E1 H1. apply returns_bind, (creates_prints _ _ _ _ _ _ (ALexeme INSTANCE_NAME_TYPE "bar") _ _ H1).
  { intros C HC. apply AddSymbol_creates; [done|by vm_compute; auto]. }
  intros p2 s2 E2 H2. apply returns_bind, (creates_prints _ _ _ _ _ _ (AInteger (-12)) _ _ H2).
  { intros C HC. apply CreateInteger_creates; [done|vm_compute; split; [reflexivity|discriminate]]. }
  intros p3 s3 E3 H3. apply returns_bind, (creates_prints _ _ _ _ _ _ (ALexeme STRING_TYPE "a b") _ _ H3).
  { intros C HC. apply AddSymbol_creates; [done|by vm_compute; auto]. }
  intros p4 s4 E4 H4. apply returns_ret. split; [done|]. split; [exact H4|]. by rewrite E4, E3, E2, E1.
Qed.

(** The text of four atoms, printed and read. *)
Lemma print_read_roundtrip_witness : ∃ ps s other s1 ts s3, create_demo_atoms demo_env = Returned ps s ∧
  print_all 4 "builder" other (zip demo_atoms ps) s = Returned tt s1 ∧
  builder_open (host s1) 4 "builder" 1 (chars demo_text) ∧
  read_tokens (LName 2 "text") 4 100 s = Returned ts s3 ∧ tkn_value <$> ts = Some <$> ps.
Proof.
  destruct demo_printing as (ps & s & Ec & Hlen & Hp & Hh). destruct ps as [|p1 [|p2 [|p3 [|p4 []]]]]; try discriminate.
  set (aps := zip demo_atoms [p1; p2; p3; p4]) in *.
  assert (printed_all aps = chars demo_text) as Ht by (vm_compute; reflexivity).
  assert (Forall (fun ap => readable ap.1) aps) as Ha.
  { repeat apply Forall_cons_2; [..|apply Forall_nil_2].
    - split; [reflexivity|]. apply (bool_decide_unpack _). vm_compute. exact I.
    - split; [reflexivity|]. split; [discriminate|]. apply (bool_decide_unpack _). vm_compute. exact I.
    - vm_compute. split; [reflexivity|discriminate].
    - split; apply (bool_decide_unpack _); vm_compute; exact I. }
  destruct (print_read_roundtrip aps (reverse aps) (fun _ => mret tt) s 4 "builder" 1 [] Ha) as (s1 & E & H1 & Hread).
  - intros ap Hin. by apply elem_of_reverse_2.
  - exact Hp.
  - rewrite Ht in *.
    destruct (Hread (LName 2 "text") (source_open 2 "text" 1) _ 100 s) as (ts & s3 & E3 & Hv & _).
    + destruct demo_idle as [Hi Hg]. split.
      * destruct Hi as [R1 R2 R3 _ _]. destruct Hp as (_ & HC & HK). split; rewrite ?Hh; try assumption.
      * unfold global. rewrite Hh. exact Hg.
    + apply (bool_decide_unpack _). vm_compute. exact I.
    + exists [p1; p2; p3; p4], s, (fun _ => mret tt), s1, ts, s3. split; [exact Ec|]. split; [exact E|]. split; [exact (proj1 H1)|].
      split; [exact E3|exact Hv].
Defined.

(** The least integer: its table entry is looked up with [llabs(LLONG_MIN)]. *)
Example least_integer : GetToken 100 (LName 2 "text") (open_env "-9223372036854775808 ") = Undefined.
Proof. vm_compute. reflexivity. Qed.
