(* ===== verification/CommandLine.v ===== *)
(** * The command loop: [commline.c]

    Characters are added to the command string until it holds a complete
    command, which is then routed: a constant is printed, a variable or a
    function call evaluated, a construct parsed.  The parsers, the evaluator,
    batch files and callbacks are the interface [CommandHost].

    First the definitions, then [CompleteCommand] as an automaton that sees one
    character at a time, and what happens while a command is typed. *)
From S2P Require Import Prelude Values Router Process Hash SList AtomState Atoms AtomProofs.
From S2P Require Import AtomWitness.
From S2P Require Import TextBuffer TextProofs IOState StringRouters Routers RouterProofs.
From S2P Require Import NumberText PPrint Scanner Lexer ScanProofs LexProofs Print IOWitness ScanTheorems.
#[local] Open Scope nat_scope.

(** ** Is the command complete? *)

(** [isprint(c)] of a [char], which is negative from 128 on: undefined there. *)
Definition isprint_char (c : byte) : option bool :=
  if (code_of c <? 128)%Z then Some (isprint (code_of c)) else None.

Definition line_end (c : byte) : bool := (code_of c =? linefeed)%Z || (code_of c =? carriage_return)%Z.
Definition blank (c : byte) : bool := (code_of c =? space)%Z || (code_of c =? 12)%Z || (code_of c =? 9)%Z.

(** The position after the string, and [*complete]. *)
Fixpoint do_string (fuel : nat) (str : list byte) (pos : nat) : option (nat * bool) :=
  match fuel with
  | O => None
  | S fuel' =>
      inchar ← char_at str pos;
      if (code_of inchar =? quote)%Z then Some (pos + 1, true)
      else
        '(pos, inchar) ←
          (if (code_of inchar =? backslash)%Z then c ← char_at str (pos + 1); Some (pos + 1, c) else Some (pos, inchar));
        if bool_decide (inchar = NUL) then Some (pos, false) else do_string fuel' str (pos + 1)
  end.
Definition DoString (str : list byte) (pos : nat) : option (nat * bool) := do_string (S (length str)) str pos.

Fixpoint do_comment (fuel : nat) (str : list byte) (pos : nat) : option nat :=
  match fuel with
  | O => None
  | S fuel' =>
      inchar ← char_at str pos;
      if line_end inchar || bool_decide (inchar = NUL) then Some pos else do_comment fuel' str (pos + 1)
  end.
Definition DoComment (str : list byte) (pos : nat) : option nat := do_comment (S (length str)) str pos.

Fixpoint do_white_space (fuel : nat) (str : list byte) (pos : nat) : option nat :=
  match fuel with
  | O => None
  | S fuel' =>
      inchar ← char_at str pos;
      if blank inchar then do_white_space fuel' str (pos + 1) else Some pos
  end.
Definition DoWhiteSpace (str : list byte) (pos : nat) : option nat := do_white_space (S (length str)) str pos.

(** The rest of a line that starts with another character. *)
Fixpoint rest_of_line (fuel : nat) (mstring : list byte) (i : nat) (error : bool) : option Z :=
  match fuel with
  | O => None
  | S fuel' =>
      inchar ← char_at mstring i;
      if bool_decide (inchar = NUL) then Some 0%Z
      else if line_end inchar then Some (if error then -1 else 1)%Z
      else rest_of_line fuel' mstring (i + 1) error
  end.

(** The [while] loop; each turn reads at least one character. *)
Fixpoint complete_loop (fuel : nat) (mstring : list byte) (i depth : nat) (moreThanZero error : bool) : option Z :=
  match fuel with
  | O => None
  | S fuel' =>
      inchar ← char_at mstring i;
      let i := i + 1 in
      if bool_decide (inchar = NUL) then Some 0%Z
      else if line_end inchar then
        if error then Some (-1)%Z
        else if moreThanZero && (depth =? 0) then Some 1%Z
        else i ← DoWhiteSpace mstring i; complete_loop fuel' mstring i depth moreThanZero error
      else if blank inchar then
        i ← DoWhiteSpace mstring i; complete_loop fuel' mstring i depth moreThanZero error
      else if (code_of inchar =? quote)%Z then
        '(i, complete) ← DoString mstring i;
        complete_loop fuel' mstring i depth (if (depth =? 0) && complete then true else moreThanZero) error
      else if (code_of inchar =? semicolon)%Z then
        i ← DoComment mstring i;
        c ← char_at mstring i;
        let at_end := bool_decide (c = NUL) in
        if moreThanZero && (depth =? 0) && negb at_end then Some (if error then -1 else 1)%Z
        else complete_loop fuel' mstring (if at_end then i else i + 1) depth moreThanZero error
      else if (code_of inchar =? left_parenthesis)%Z then
        if (0 <? depth) || negb moreThanZero then complete_loop fuel' mstring i (depth + 1) true error
        else complete_loop fuel' mstring i depth moreThanZero error
      else if (code_of inchar =? right_parenthesis)%Z then
        if 0 <? depth then complete_loop fuel' mstring i (depth - 1) moreThanZero error
        else complete_loop fuel' mstring i depth moreThanZero (if moreThanZero then error else true)
      else if depth =? 0 then
        printable ← (if IsUTF8MultiByteStart (code_of inchar) then Some true else isprint_char inchar);
        if (printable : bool) then rest_of_line (S (length mstring)) mstring i error
        else complete_loop fuel' mstring i depth moreThanZero error
      else complete_loop fuel' mstring i depth moreThanZero error
  end.

(** 1: complete, 0: not complete, -1: complete with an error. *)
Definition CompleteCommand (mstring : option string) : option Z :=
  match mstring with
  | None => Some 0%Z
  | Some mstring => complete_loop (S (String.length mstring)) (chars mstring) 0 0 false false
  end.

(** ** The state *)

Inductive BuildError := BE_NO_ERROR | BE_COULD_NOT_BUILD_ERROR | BE_CONSTRUCT_NOT_FOUND_ERROR | BE_PARSING_ERROR.
#[export] Instance BuildError_eq_dec : EqDecision BuildError.
Proof. solve_decision. Defined.

(** What the command loop calls outside this development: batch files, the
    parsers, the evaluator, cleaning up, the callbacks.  [X] are expressions,
    [V] the values of expressions.  None of it changes the command string. *)
Class CommandHost (W X V : Type) := {
  GetHaltExecution : W → bool;
  SetHaltExecution : bool → W → W;
  SetEvaluationError : bool → W → W;
  BatchActive : W → bool;
  DanglingConstructs : W → Z;
  set_DanglingConstructs : Z → W → W;
  LLGetcBatch : LogicalName → bool → P (AtomEnv (IOEnv W)) Z;
  CloseAllBatchSources : P (AtomEnv (IOEnv W)) unit;
  CleanCurrentGarbageFrame : P (AtomEnv (IOEnv W)) unit;
  CallPeriodicTasks : P (AtomEnv (IOEnv W)) unit;
  FlushParsingMessages : P (AtomEnv (IOEnv W)) unit;
  SetWarningFileName : option string → P (AtomEnv (IOEnv W)) unit;
  SetErrorFileName : option string → P (AtomEnv (IOEnv W)) unit;
  call_after_prompt : ptr → P (AtomEnv (IOEnv W)) unit;
  call_before_execution : ptr → P (AtomEnv (IOEnv W)) bool;
  print_other : ptr → P (AtomEnv (IOEnv W)) unit;
  GenConstant : Z → option ptr → X;
  ParseConstruct : string → LogicalName → P (AtomEnv (IOEnv W)) BuildError;
  Function2Parse : LogicalName → string → P (AtomEnv (IOEnv W)) (option X);
  ClearParsedBindNames : P (AtomEnv (IOEnv W)) unit;
  ExpressionInstall : X → P (AtomEnv (IOEnv W)) unit;
  ExpressionDeinstall : X → P (AtomEnv (IOEnv W)) unit;
  ReturnExpression : X → P (AtomEnv (IOEnv W)) unit;
  EvaluateExpression : X → P (AtomEnv (IOEnv W)) V;
  is_void : V → bool;
  WriteUDFValue : LogicalName → V → P (AtomEnv (IOEnv W)) unit;
}.

(** [struct commandLineData], the fields of [struct routerData] that belong to
    the command loop, and one of [struct printUtilityData]. *)
Record commandLineData (X : Type) := mkCommandLineData {
  EvaluatingTopLevelCommand : bool;
  HaltCommandLoopBatch : bool;
  CurrentCommand : option X;
  CommandString : option ptr;
  MaximumCharacters : nat;
  ParsingTopLevelCommand : bool;
  BannerString : string;
  AfterPromptCallback : option ptr;
  BeforeCommandExecutionCallback : option ptr;
}.
Arguments mkCommandLineData {X}.
Arguments EvaluatingTopLevelCommand {X}.
Arguments HaltCommandLoopBatch {X}.
Arguments CurrentCommand {X}.
Arguments CommandString {X}.
Arguments MaximumCharacters {X}.
Arguments ParsingTopLevelCommand {X}.
Arguments BannerString {X}.
Arguments AfterPromptCallback {X}.
Arguments BeforeCommandExecutionCallback {X}.
Record commandInput := mkCommandInput { CommandBufferInputCount : nat; InputUngets : nat; AwaitingInput : bool }.

Record CommandEnv (W X : Type) := mkCommandEnv {
  command_data : commandLineData X;
  command_input : commandInput;
  PreserveEscapedCharacters : bool;
  tables : AtomEnv (IOEnv W);
}.
Arguments mkCommandEnv {W X}.
Arguments command_data {W X}.
Arguments command_input {W X}.
Arguments PreserveEscapedCharacters {W X}.
Arguments tables {W X}.

(** The logical names of the sources of this file. *)
Definition command_name : LogicalName := LName 2 "command".
Definition completion_name : LogicalName := LName 3 "CommandCompletion".

Definition STDIN : LogicalName := LName 4 "stdin".

Definition COMMAND_PROMPT : string := "CLIPS> ".

Section command_loop.
Context {W X V : Type} `{!RouterHost W} `{!CommandHost W X V}.
Abbreviation env := (AtomEnv (IOEnv W)).
Abbreviation cenv := (CommandEnv W X).
Abbreviation P := (P (CommandEnv W X)).
Implicit Types (d : commandLineData X) (s : CommandEnv W X).

Definition set_string (p : option ptr) (max : nat) d := mkCommandLineData (EvaluatingTopLevelCommand d) (HaltCommandLoopBatch d)
  (CurrentCommand d) p max (ParsingTopLevelCommand d) (BannerString d) (AfterPromptCallback d) (BeforeCommandExecutionCallback d).
Definition set_evaluating (b : bool) (x : option X) d := mkCommandLineData b (HaltCommandLoopBatch d)
  x (CommandString d) (MaximumCharacters d) (ParsingTopLevelCommand d) (BannerString d) (AfterPromptCallback d) (BeforeCommandExecutionCallback d).
Definition set_parsing (b : bool) d := mkCommandLineData (EvaluatingTopLevelCommand d) (HaltCommandLoopBatch d)
  (CurrentCommand d) (CommandString d) (MaximumCharacters d) b (BannerString d) (AfterPromptCallback d) (BeforeCommandExecutionCallback d).
Definition set_halt_batch (b : bool) d := mkCommandLineData (EvaluatingTopLevelCommand d) b
  (CurrentCommand d) (CommandString d) (MaximumCharacters d) (ParsingTopLevelCommand d) (BannerString d) (AfterPromptCallback d) (BeforeCommandExecutionCallback d).
Definition set_callbacks (after before : option ptr) d := mkCommandLineData (EvaluatingTopLevelCommand d) (HaltCommandLoopBatch d)
  (CurrentCommand d) (CommandString d) (MaximumCharacters d) (ParsingTopLevelCommand d) (BannerString d) after before.
Definition put_atom_env (t : env) s : cenv := mkCommandEnv (command_data s) (command_input s) (PreserveEscapedCharacters s) t.
Definition put_data d s : cenv := mkCommandEnv d (command_input s) (PreserveEscapedCharacters s) (tables s).
Definition put_input (i : commandInput) s : cenv := mkCommandEnv (command_data s) i (PreserveEscapedCharacters s) (tables s).

Definition getC {A} (f : cenv → A) : P A := fun s => Returned (f s) s.
Definition modifyC (f : cenv → cenv) : P unit := fun s => Returned tt (f s).
Definition someC {A} (o : option A) : P A := fun s => match o with Some a => Returned a s | None => Undefined end.
Definition update_data (f : commandLineData X → commandLineData X) : P unit := modifyC (fun s => put_data (f (command_data s)) s).
Definition set_input (count ungets : nat) (awaiting : bool) : P unit := modifyC (put_input (mkCommandInput count ungets awaiting)).

Definition in_tables {A} (m : Process.P env A) : P A := fun s =>
  match m (tables s) with
  | Returned a t => Returned a (put_atom_env t s)
  | Exited c t => Exited c (put_atom_env t s)
  | Undefined => Undefined
  end.
Definition in_io {A} (m : Process.P (IOEnv W) A) : P A := in_tables (io m).
Definition from_world {A} (f : W → A) : P A := in_io (getIO (fun h => f (world h))).
Definition modify_world (f : W → W) : P unit := in_io (modifyIO (fun h => put_world (f (world h)) h)).
Definition write_stdout (str : string) : P unit := in_io (WriteString (literal STDOUT) str).
Definition write_stderr (str : string) : P unit := in_io (WriteString (literal STDERR) str).

(** ** The command string *)

(** The string with its length and its allocation; its memory is one of the
    arrays that string sources read. *)
Definition load_command : P Buffer :=
  d ← getC command_data;
  i ← getC command_input;
  cells ← (match CommandString d with
           | None => mret None
           | Some p => as_ ← in_io (getIO arrays); cells ← someC (as_ !! p); mret (Some cells)
           end);
  mret (mkBuffer cells (CommandBufferInputCount i) (MaximumCharacters d)).
(** A reallocation keeps the address: no one else holds it. *)
Definition store_command (b : Buffer) : P unit :=
  d ← getC command_data;
  i ← getC command_input;
  as_ ← in_io (getIO arrays);
  cells ← someC (bytes b);
  let p := default (fresh_ptr as_) (CommandString d) in
  _ ← in_io (modifyIO (put_arrays (<[p := cells]> as_)));
  _ ← update_data (set_string (Some p) (maximum b));
  set_input (position b) (InputUngets i) (AwaitingInput i).

Definition ExpandCommandString (inchar : Z) : P bool :=
  b ← load_command;
  b' ← someC (ExpandStringWithChar inchar b (maximum b + 80));
  _ ← store_command b';
  mret (negb (position b' =? position b)).

Definition FlushCommandString : P unit :=
  d ← getC command_data;
  _ ← (match CommandString d with
       | None => mret tt
       | Some p => in_io (modifyIO (fun h => put_arrays (delete p (arrays h)) h))
       end);
  _ ← update_data (set_string None 0);
  set_input 0 0 true.

Definition SetCommandString (str : string) : P unit :=
  _ ← FlushCommandString;
  let length := String.length str in
  m ← someC (genrealloc None 0 (length + 1));
  m ← someC (write_bytes m 0 (chars str ++ [NUL]));
  store_command (mkBuffer m length (length + 1)).

(** [strncpy] reads no more than [length] characters, and the string up to its end. *)
Definition SetNCommandString (str : string) (length : nat) : P unit :=
  _ ← FlushCommandString;
  m ← someC (genrealloc None 0 (length + 1));
  m ← someC (write_bytes m 0 (padded str length));
  m ← someC (write_byte m length NUL);
  store_command (mkBuffer m length (length + 1)).

Definition AppendCommandString (str : string) : P unit :=
  b ← load_command; b' ← someC (AppendToString str b); store_command b'.
Definition InsertCommandString (str : string) (position : nat) : P unit :=
  b ← load_command; b' ← someC (InsertInString str position b); store_command b'.
Definition AppendNCommandString (str : string) (length : nat) : P unit :=
  b ← load_command; b' ← someC (AppendNToString str b length); store_command b'.
Definition GetCommandString : P (option ptr) := getC (fun s => CommandString (command_data s)).

(** The string as [CompleteCommand] is given it. *)
Definition command_text : P (option string) :=
  b ← load_command;
  match bytes b with
  | None => mret None
  | Some _ => str ← someC (c_string (bytes b)); mret (Some str)
  end.

(** ** Routing a command *)

Definition constant_token (t : TokenType) : bool :=
  match t with SYMBOL_TOKEN | STRING_TOKEN | FLOAT_TOKEN | INTEGER_TOKEN | INSTANCE_NAME_TOKEN => true | _ => false end.
Definition variable_token (t : TokenType) : bool :=
  match t with GBL_VARIABLE_TOKEN | MF_GBL_VARIABLE_TOKEN | SF_VARIABLE_TOKEN | MF_VARIABLE_TOKEN => true | _ => false end.

Definition forget_file_names : P unit := _ ← in_tables (SetWarningFileName None); in_tables (SetErrorFileName None).
Definition close_command : P unit := _ ← in_io (CloseStringSource "command"); mret tt.

Definition NotACommand_log (id : Z) (message : string) : M (list output_item) unit :=
  _ ← PrintErrorID "COMMLINE" id false; Router.WriteString STDERR message.
Definition not_a_command (id : Z) (message : string) : P bool :=
  _ ← in_io (report (NotACommand_log id message)); _ ← close_command; mret false.

Definition print_constant (value : option ptr) : P unit :=
  value ← someC value;
  preserve ← getC PreserveEscapedCharacters;
  _ ← in_tables (PrintAtom preserve print_other (literal STDOUT) value);
  write_stdout newline.

Definition print_value (v : V) : P unit :=
  _ ← in_tables (WriteUDFValue (literal STDOUT) v); write_stdout newline.

(** The parsing error of a construct, with the text read so far. *)
Definition report_construct : P unit :=
  _ ← write_stderr (newline +:+ "ERROR:" +:+ newline);
  m ← in_io GetPPBuffer;
  _ ← (match m with None => mret tt | Some _ => str ← someC (c_string m); write_stderr str end);
  write_stderr newline.

Definition route_construct (errorFlag : BuildError) : P bool :=
  _ ← close_command;
  _ ← whenP (bool_decide (errorFlag = BE_PARSING_ERROR)) report_construct;
  _ ← in_io DestroyPPBuffer;
  _ ← forget_file_names;
  mret (bool_decide (errorFlag = BE_NO_ERROR)).

Definition route_call (commandName : string) (printResult : bool) : P bool :=
  danglingConstructs ← from_world DanglingConstructs;
  _ ← update_data (set_parsing true);
  top ← in_tables (Function2Parse command_name commandName);
  _ ← update_data (set_parsing false);
  _ ← in_tables ClearParsedBindNames;
  _ ← close_command;
  match top with
  | None =>
      _ ← forget_file_names;
      _ ← modify_world (set_DanglingConstructs danglingConstructs);
      mret false
  | Some top =>
      _ ← in_tables (ExpressionInstall top);
      _ ← update_data (set_evaluating true (Some top));
      returnValue ← in_tables (EvaluateExpression top);
      _ ← update_data (set_evaluating false None);
      _ ← in_tables (ExpressionDeinstall top);
      _ ← in_tables (ReturnExpression top);
      _ ← modify_world (set_DanglingConstructs danglingConstructs);
      _ ← forget_file_names;
      _ ← whenP (negb (is_void returnValue) && printResult) (print_value returnValue);
      mret true
  end.

(** The fuel of [GetToken] covers the length of the command. *)
Definition RouteCommand (command : option ptr) (printResult : bool) : P bool :=
  match command with
  | None => mret false
  | Some str =>
      n ← in_io (array_strlen str);
      let fuel := n + 2 in
      _ ← in_io (OpenStringSource "command" command 0);
      theToken ← in_tables (GetToken fuel command_name);
      if constant_token (tknType theToken) then
        _ ← close_command;
        _ ← whenP printResult (print_constant (tkn_value theToken));
        mret true
      else if variable_token (tknType theToken) then
        _ ← close_command;
        returnValue ← in_tables (EvaluateExpression (GenConstant (TokenTypeToType (tknType theToken)) (tkn_value theToken)));
        _ ← whenP printResult (print_value returnValue);
        mret true
      else if negb (bool_decide (tknType theToken = LEFT_PARENTHESIS_TOKEN)) then
        not_a_command 1 ("Expected a '(', constant, or variable." +:+ newline)
      else
        theToken ← in_tables (GetToken fuel command_name);
        if negb (bool_decide (tknType theToken = SYMBOL_TOKEN)) then
          not_a_command 2 ("Expected a command." +:+ newline)
        else
          p ← someC (tkn_value theToken);
          commandName ← in_tables (lexeme_text p);
          errorFlag ← in_tables (ParseConstruct commandName command_name);
          if negb (bool_decide (errorFlag = BE_CONSTRUCT_NOT_FOUND_ERROR)) then route_construct errorFlag
          else route_call commandName printResult
  end.

(** ** The loop *)

Definition PrintPrompt : P unit :=
  _ ← write_stdout COMMAND_PROMPT;
  d ← getC command_data;
  match AfterPromptCallback d with Some f => in_tables (call_after_prompt f) | None => mret tt end.
Definition PrintBanner : P unit := d ← getC command_data; write_stdout (BannerString d).
Definition SetAfterPromptFunction (funptr : option ptr) : P unit :=
  update_data (fun d => set_callbacks funptr (BeforeCommandExecutionCallback d) d).
Definition SetBeforeCommandExecutionFunction (funptr : option ptr) : P unit :=
  update_data (fun d => set_callbacks (AfterPromptCallback d) funptr d).
Definition TopLevelCommand : P bool := getC (fun s => ParsingTopLevelCommand (command_data s)).
Definition SetHaltCommandLoopBatch (value : bool) : P unit := update_data (set_halt_batch value).
Definition GetHaltCommandLoopBatch : P bool := getC (fun s => HaltCommandLoopBatch (command_data s)).

Definition CommandCompleteAndNotEmpty : P bool :=
  str ← command_text;
  r ← someC (CompleteCommand str);
  i ← getC command_input;
  mret (negb ((r =? 0)%Z || (CommandBufferInputCount i =? 0) || negb (AwaitingInput i))).

(** The end of halted or finished work. *)
Definition clear_errors : P unit := _ ← modify_world (SetHaltExecution false); modify_world (SetEvaluationError false).

Definition execute_command : P unit :=
  _ ← in_io FlushPPBuffer;
  _ ← in_io (SetPPBufferStatus false);
  _ ← set_input 0 0 false;
  command ← GetCommandString;
  _ ← RouteCommand command true;
  _ ← in_io FlushPPBuffer;
  _ ← in_tables FlushParsingMessages;
  _ ← clear_errors;
  _ ← FlushCommandString;
  _ ← in_tables CleanCurrentGarbageFrame;
  _ ← in_tables CallPeriodicTasks;
  PrintPrompt.

Definition ExecuteIfCommandComplete : P bool :=
  complete ← CommandCompleteAndNotEmpty;
  if negb complete then mret false
  else
    d ← getC command_data;
    go ← (match BeforeCommandExecutionCallback d with Some f => in_tables (call_before_execution f) | None => mret true end);
    if negb go then mret false else _ ← execute_command; mret true.

(** After a character was received. *)
Definition check_command : P unit :=
  halted ← from_world GetHaltExecution;
  _ ← whenP halted (_ ← clear_errors; _ ← FlushCommandString; _ ← write_stdout newline; PrintPrompt);
  _ ← ExecuteIfCommandComplete;
  mret tt.
Definition take_char (inchar : Z) : P unit :=
  _ ← ExpandCommandString (char_value (char_of inchar));
  check_command.

(** The keyboard: the end of the input is a line feed. *)
Definition DefaultGetNextEvent : P unit :=
  inchar ← in_io (ReadRouter STDIN);
  _ ← ExpandCommandString (char_value (char_of (if (inchar =? EOF)%Z then linefeed else inchar)));
  mret tt.

Definition start_loop : P unit :=
  _ ← clear_errors;
  _ ← in_tables CleanCurrentGarbageFrame;
  _ ← in_tables CallPeriodicTasks;
  _ ← PrintPrompt;
  set_input 0 0 true.

(** The endless loop, for a number of turns; the event function is [next_event]. *)
Definition command_turn (next_event : P unit) : P unit :=
  active ← from_world BatchActive;
  _ ← (if (active : bool) then
         inchar ← in_tables (LLGetcBatch STDIN true);
         if (inchar =? EOF)%Z then next_event
         else _ ← ExpandCommandString (char_value (char_of inchar)); mret tt
       else next_event);
  check_command.
Fixpoint command_turns (n : nat) (next_event : P unit) : P unit :=
  match n with O => mret tt | S n' => _ ← command_turn next_event; command_turns n' next_event end.
Definition CommandLoop (n : nat) (next_event : P unit) : P unit :=
  _ ← PrintBanner; _ ← start_loop; command_turns n next_event.

(** One unit of fuel for each character of the batch files. *)
Fixpoint CommandLoopBatchDriver (fuel : nat) : P unit :=
  match fuel with
  | O => someC None
  | S fuel' =>
      halt ← GetHaltCommandLoopBatch;
      _ ← whenP halt (_ ← in_tables CloseAllBatchSources; SetHaltCommandLoopBatch false);
      active ← from_world BatchActive;
      if negb active then mret tt
      else
        inchar ← in_tables (LLGetcBatch STDIN true);
        if (inchar =? EOF)%Z then mret tt
        else _ ← take_char inchar; CommandLoopBatchDriver fuel'
  end.
Definition CommandLoopBatch (fuel : nat) : P unit := _ ← start_loop; CommandLoopBatchDriver fuel.
Definition CommandLoopOnceThenBatch (fuel : nat) : P unit :=
  b ← ExecuteIfCommandComplete; if negb b then mret tt else CommandLoopBatchDriver fuel.

(** ** Completion *)

(** Code that is given a string at an address of its own. *)
Definition with_text {A} (str : string) (f : ptr → Process.P env A) : Process.P env A :=
  as_ ← io (getIO arrays);
  let p := fresh_ptr as_ in
  _ ← io (modifyIO (put_arrays (<[p := (Some <$> chars str) ++ [Some NUL]]> as_)));
  a ← f p;
  _ ← io (modifyIO (fun h => put_arrays (delete p (arrays h)) h));
  mret a.
Definition set_ignore (b : bool) : Process.P env unit :=
  io (modifyIO (fun h => put_scanner_data (mkScannerData (GlobalBuffer (scanner_data h)) (LineCount (scanner_data h)) b) h)).

(** The token before the one that ends the text. *)
Fixpoint last_token (n fuel : nat) (lastToken theToken : token) : Process.P env token :=
  match n with
  | O => fun _ => Undefined
  | S n' =>
      if bool_decide (tknType theToken = STOP_TOKEN) then mret lastToken
      else next ← GetToken fuel completion_name; last_token n' fuel (CopyToken theToken) next
  end.

(** [Some None] is [NULL].  A string is completed by its own last token; each
    string is shorter than the text it was read from. *)
Fixpoint GetCommandCompletionString (depth : nat) (theString : option string) (maxPosition : nat) : Process.P env (option string) :=
  match depth, theString with
  | O, _ => fun _ => Undefined
  | _, None => mret (Some "")
  | S depth', Some theString =>
      lastChar ← someP (match maxPosition with O => None | S last => char_at (chars theString) last end);
      if blank lastChar || line_end lastChar || (code_of lastChar =? quote)%Z then mret (Some "")
      else
        lastToken ← with_text theString (fun p =>
          _ ← io (OpenTextSource "CommandCompletion" (Some p) 0 maxPosition);
          _ ← set_ignore true;
          theToken ← GetToken (maxPosition + 2) completion_name;
          lastToken ← last_token (maxPosition + 2) (maxPosition + 2) (CopyToken theToken) theToken;
          _ ← io (CloseStringSource "CommandCompletion");
          _ ← set_ignore false;
          mret lastToken);
        let contents := (p ← someP (tkn_value lastToken); lexeme_text p) in
        match tknType lastToken with
        | SYMBOL_TOKEN =>
            rs ← contents;
            mret (Some (match rs with String c rs' => if (code_of c =? left_bracket)%Z then rs' else rs | _ => rs end))
        | SF_VARIABLE_TOKEN | MF_VARIABLE_TOKEN => rs ← contents; mret (Some rs)
        | GBL_VARIABLE_TOKEN | MF_GBL_VARIABLE_TOKEN | INSTANCE_NAME_TOKEN | FLOAT_TOKEN | INTEGER_TOKEN => mret None
        | STRING_TOKEN => rs ← contents; GetCommandCompletionString depth' (Some rs) (String.length rs)
        | _ => mret (Some "")
        end
  end.
End command_loop.

(** ** One character at a time *)

(** Where the text read so far ends. *)
Inductive place := Between | InString | AfterBackslash | InComment | InLine.
Record progress := mkProgress { in_place : place; depth : nat; started : bool; mistake : bool }.
Definition at_start : progress := mkProgress Between 0 false false.
Definition at_place (p : place) (st : progress) : progress := mkProgress p (depth st) (started st) (mistake st).

(** Either the command is decided, or reading goes on. *)
Definition advance (st : progress) (c : byte) : option (Z + progress) :=
  let verdict := (if mistake st then -1 else 1)%Z in
  let goes_on p := Some (inr (at_place p st)) in
  match in_place st with
  | InString =>
      if (code_of c =? quote)%Z
      then Some (inr (mkProgress Between (depth st) ((depth st =? 0) || started st) (mistake st)))
      else goes_on (if (code_of c =? backslash)%Z then AfterBackslash else InString)
  | AfterBackslash => goes_on InString
  | InComment =>
      if line_end c then if started st && (depth st =? 0) then Some (inl verdict) else goes_on Between
      else goes_on InComment
  | InLine => if line_end c then Some (inl verdict) else goes_on InLine
  | Between =>
      if line_end c then
        if mistake st then Some (inl (-1)%Z)
        else if started st && (depth st =? 0) then Some (inl 1%Z) else goes_on Between
      else if blank c then goes_on Between
      else if (code_of c =? quote)%Z then goes_on InString
      else if (code_of c =? semicolon)%Z then goes_on InComment
      else if (code_of c =? left_parenthesis)%Z then
        if (0 <? depth st) || negb (started st) then Some (inr (mkProgress Between (depth st + 1) true (mistake st)))
        else goes_on Between
      else if (code_of c =? right_parenthesis)%Z then
        if 0 <? depth st then Some (inr (mkProgress Between (depth st - 1) (started st) (mistake st)))
        else Some (inr (mkProgress Between 0 (started st) (mistake st || negb (started st))))
      else if depth st =? 0 then
        printable ← (if IsUTF8MultiByteStart (code_of c) then Some true else isprint_char c);
        goes_on (if (printable : bool) then InLine else Between)
      else goes_on Between
  end.

Fixpoint run (st : progress) (l : list byte) : option (Z + progress) :=
  match l with
  | [] => Some (inr st)
  | c :: l' =>
      r ← advance st c;
      match r with
      | inl z => Some (inl z)
      | inr st => run st l'
      end
  end.
(** What [CompleteCommand] returns for a text of which [st] is the beginning and [l] the rest. *)
Definition decide_command (st : progress) (l : list byte) : option Z :=
  r ← run st l; Some (match r with inl z => z | inr _ => 0%Z end).

(** *** The loops follow the automaton *)

Lemma char_at_eq (s : list byte) i : i <= length s →
  char_at s i = Some (match drop i s with c :: _ => c | [] => NUL end).
Proof.
  intros Hi. unfold char_at. destruct (drop i s) as [|c r] eqn:E.
  - assert (length s <= i) by (apply (f_equal length) in E; rewrite length_drop in E; cbn in E; lia).
    rewrite lookup_app_r by done. by replace (i - length s) with 0 by lia.
  - rewrite lookup_app_l by (apply (f_equal length) in E; rewrite length_drop in E; cbn in E; lia).
    rewrite <- (Nat.add_0_r i), <- lookup_drop, E. done.
Qed.
Lemma drop_next {A} (s : list A) i c r : drop i s = c :: r → drop (i + 1) s = r ∧ i < length s.
Proof.
  intros E. rewrite <- drop_drop, E. split; [done|]. apply (f_equal length) in E. rewrite length_drop in E. cbn in E. lia.
Qed.

(** What a place makes of the rest of the text, without a step. *)
Lemma decide_cons st c l : decide_command st (c :: l) =
  r ← advance st c; match r with inl z => Some z | inr st => decide_command st l end.
Proof. unfold decide_command. cbn [run]. destruct (advance st c) as [[z|st']|]; done. Qed.
Lemma decide_nil st : decide_command st [] = Some 0%Z.
Proof. done. Qed.

Section follows.
Context (s : list byte) (no_nul : NUL ∉ s).

Lemma at_end i c r : drop i s = c :: r → bool_decide (c = NUL) = false.
Proof.
  intros E. apply bool_decide_eq_false. intros ->. apply no_nul. rewrite <- (take_drop i s), E. set_solver.
Qed.

Lemma do_white_space_follows fuel pos st : in_place st = Between → pos <= length s → length s - pos < fuel →
  ∃ pos', do_white_space fuel s pos = Some pos' ∧ pos <= pos' <= length s ∧
    decide_command st (drop pos s) = decide_command st (drop pos' s).
Proof.
  intros Hst. revert pos. induction fuel as [|fuel IH]; intros pos Hpos Hf; [lia|]. cbn [do_white_space].
  rewrite char_at_eq by done. cbn [mbind option_bind]. destruct (drop pos s) as [|c r] eqn:E.
  { exists pos. rewrite E. split_and!; [done|lia|lia|done]. }
  destruct (blank c) eqn:Eb; [|exists pos; rewrite E; split_and!; [done|lia|lia|done]].
  destruct (drop_next _ _ _ _ E) as [Er Hlt]. destruct (IH (pos + 1)) as (pos' & E' & Hle & Hd); [lia|lia|].
  exists pos'. split; [done|]. split; [lia|]. rewrite <- Hd, Er, decide_cons. unfold advance. rewrite Hst.
  replace (line_end c) with false.
  2:{ unfold blank, line_end, space, linefeed, carriage_return in *. symmetry. lia. }
  rewrite Eb. cbn [mbind option_bind]. by destruct st; cbn in *; subst.
Qed.

Lemma do_comment_follows fuel pos st : pos <= length s → length s - pos < fuel →
  ∃ pos', do_comment fuel s pos = Some pos' ∧ pos <= pos' <= length s ∧
    decide_command (at_place InComment st) (drop pos s) =
      match drop pos' s with
      | [] => Some 0%Z
      | c :: r => if started st && (depth st =? 0) then Some (if mistake st then -1 else 1)%Z
                  else decide_command (at_place Between st) r
      end.
Proof.
  revert pos. induction fuel as [|fuel IH]; intros pos Hpos Hf; [lia|]. cbn [do_comment].
  rewrite char_at_eq by done. cbn [mbind option_bind]. destruct (drop pos s) as [|c r] eqn:E.
  { exists pos. rewrite E. split_and!; [done|lia|lia|done]. }
  rewrite (at_end _ _ _ E), orb_false_r. rewrite decide_cons. cbn [advance at_place in_place started depth mistake].
  destruct (line_end c) eqn:Ec.
  { exists pos. rewrite E. split_and!; [done|lia|lia|]. by destruct (started st && _). }
  destruct (drop_next _ _ _ _ E) as [Er Hlt]. destruct (IH (pos + 1)) as (pos' & E' & Hle & Hd); [lia|lia|].
  exists pos'. split; [done|]. split; [lia|]. rewrite <- Hd, Er. done.
Qed.

Lemma do_string_follows fuel pos st : pos <= length s → length s - pos < fuel →
  ∃ pos' complete, do_string fuel s pos = Some (pos', complete) ∧ pos <= pos' <= length s ∧
    decide_command (at_place InString st) (drop pos s) =
      decide_command (mkProgress Between (depth st) (if (depth st =? 0) && complete then true else started st) (mistake st)) (drop pos' s).
Proof.
  revert pos. induction fuel as [|fuel IH]; intros pos Hpos Hf; [lia|]. cbn [do_string].
  rewrite (char_at_eq s pos) by done. cbn [mbind option_bind]. destruct (drop pos s) as [|c r] eqn:E.
  { exists pos, false. rewrite E. split_and!; [done|lia|lia|done]. }
  destruct (drop_next _ _ _ _ E) as [Er Hlt]. rewrite decide_cons. cbn [advance at_place in_place started depth mistake].
  destruct (code_of c =? quote)%Z eqn:Eq.
  { exists (pos + 1), true. rewrite Er. split_and!; [done|lia|lia|]. cbn [mbind option_bind].
    by destruct (depth st =? 0). }
  destruct (code_of c =? backslash)%Z eqn:Eb; cbn [mbind option_bind].
  - rewrite char_at_eq by lia. rewrite Er. cbn [mbind option_bind]. destruct r as [|c' r'].
    { exists (pos + 1), false. rewrite Er. split_and!; [done|lia|lia|done]. }
    rewrite (at_end _ _ _ Er). destruct (drop_next _ _ _ _ Er) as [Er' Hlt'].
    destruct (IH (pos + 1 + 1)) as (pos' & b & E' & Hle & Hd); [lia|lia|].
    exists pos', b. split; [done|]. split; [lia|]. rewrite <- Hd, Er', decide_cons. done.
  - rewrite (at_end _ _ _ E). destruct (IH (pos + 1)) as (pos' & b & E' & Hle & Hd); [lia|lia|].
    exists pos', b. split; [done|]. split; [lia|]. by rewrite <- Hd, Er.
Qed.

Lemma rest_of_line_follows fuel i st : i <= length s → length s - i < fuel →
  rest_of_line fuel s i (mistake st) = decide_command (at_place InLine st) (drop i s).
Proof.
  revert i. induction fuel as [|fuel IH]; intros i Hi Hf; [lia|]. cbn [rest_of_line].
  rewrite char_at_eq by done. cbn [mbind option_bind]. destruct (drop i s) as [|c r] eqn:E; [done|].
  rewrite (at_end _ _ _ E), decide_cons. cbn [advance at_place in_place started depth mistake].
  destruct (drop_next _ _ _ _ E) as [Er Hlt]. destruct (line_end c); [done|]. rewrite IH by lia. by rewrite Er.
Qed.

Lemma complete_loop_follows fuel i d m e : i <= length s → length s - i < fuel →
  complete_loop fuel s i d m e = decide_command (mkProgress Between d m e) (drop i s).
Proof.
  revert i d m e. induction fuel as [|fuel IH]; intros i d m e Hi Hf; [lia|]. cbn [complete_loop].
  rewrite char_at_eq by done. cbn [mbind option_bind]. destruct (drop i s) as [|c r] eqn:E; [done|].
  rewrite (at_end _ _ _ E), decide_cons. cbn [advance at_place in_place started depth mistake].
  destruct (drop_next _ _ _ _ E) as [Er Hlt].
  assert (∀ d m e, complete_loop fuel s (i + 1) d m e = decide_command (mkProgress Between d m e) r) as Hnext.
  { intros. rewrite IH by lia. by rewrite Er. }
  assert (∀ d m e, (i' ← DoWhiteSpace s (i + 1); complete_loop fuel s i' d m e) = decide_command (mkProgress Between d m e) r) as Hwhite.
  { intros d' m' e'. destruct (do_white_space_follows (S (length s)) (i + 1) (mkProgress Between d' m' e') eq_refl) as (i' & E' & Hle & Hd); [lia..|].
    unfold DoWhiteSpace. rewrite E'. cbn [mbind option_bind]. rewrite IH by lia. by rewrite <- Hd, Er. }
  destruct (line_end c); [destruct e; [done|]; destruct (m && (d =? 0)); [done|apply Hwhite]|].
  destruct (blank c); [apply Hwhite|].
  destruct (code_of c =? quote)%Z.
  { destruct (do_string_follows (S (length s)) (i + 1) (mkProgress Between d m e)) as (i' & b & E' & Hle & Hd); [lia..|].
    unfold DoString. rewrite E'. cbn [mbind option_bind]. rewrite IH by lia. rewrite Er in Hd. by rewrite Hd. }
  destruct (code_of c =? semicolon)%Z.
  { destruct (do_comment_follows (S (length s)) (i + 1) (mkProgress Between d m e)) as (i' & E' & Hle & Hd); [lia..|].
    unfold DoComment. rewrite E'. cbn [mbind option_bind]. rewrite char_at_eq by lia. cbn [mbind option_bind].
    rewrite Er in Hd. rewrite Hd. cbn [depth started mistake at_place] in *. destruct (drop i' s) as [|c' r'] eqn:Ec.
    - rewrite (bool_decide_true (NUL = NUL)) by done. rewrite andb_false_r. rewrite IH by lia. by rewrite Ec.
    - rewrite (at_end _ _ _ Ec), andb_true_r. destruct (drop_next _ _ _ _ Ec) as [Er' Hlt'].
      destruct (m && (d =? 0)); [done|]. rewrite IH by lia. by rewrite Er'. }
  destruct (code_of c =? left_parenthesis)%Z; [destruct ((0 <? d) || negb m); apply Hnext|].
  destruct (code_of c =? right_parenthesis)%Z.
  { destruct d as [|d]; cbn [Nat.ltb Nat.leb]; rewrite Hnext; [|done]. by destruct m, e. }
  destruct (d =? 0); [|apply Hnext].
  destruct (if IsUTF8MultiByteStart (code_of c) then Some true else isprint_char c) as [[]|]; cbn [mbind option_bind].
  - change e with (mistake (mkProgress Between d m e)) at 1. rewrite rest_of_line_follows by lia. by rewrite Er.
  - apply Hnext.
  - done.
Qed.
End follows.

Lemma CompleteCommand_follows str : NUL ∉ chars str → CompleteCommand (Some str) = decide_command at_start (chars str).
Proof.
  intros H. cbn [CompleteCommand]. rewrite complete_loop_follows; [done|done|lia|]. rewrite length_chars. lia.
Qed.

(** *** Runs of the automaton *)

Lemma run_app st l1 l2 st' : run st l1 = Some (inr st') → run st (l1 ++ l2) = run st' l2.
Proof.
  revert st. induction l1 as [|c l1 IH]; intros st; cbn [run app]; [by intros [= ->]|].
  destruct (advance st c) as [[z|st1]|]; cbn [mbind option_bind]; [done|apply IH|done].
Qed.
(** Nothing was decided before. *)
Lemma run_prefix st l p st' : run st l = Some (inr st') → p `prefix_of` l → decide_command st p = Some 0%Z.
Proof.
  intros H [l2 ->]. revert st H. induction p as [|c p IH]; intros st; [done|]. cbn [run app]. rewrite decide_cons.
  destruct (advance st c) as [[z|st1]|]; cbn [mbind option_bind]; [done|apply IH|done].
Qed.

(** UTF-8: a byte that starts a character, then bytes that continue it. *)
Inductive encoded : list byte → Prop :=
  | encoded_nil : encoded []
  | encoded_ascii c l : (code_of c < 128)%Z → encoded l → encoded (c :: l)
  | encoded_char c cs l : IsUTF8MultiByteStart (code_of c) = true →
      Forall (fun c => IsUTF8MultiByteContinuation (code_of c) = true) cs → encoded l → encoded (c :: cs ++ l).

Definition no_verdict (r : option (Z + progress)) : Prop := ∃ st, r = Some (inr st).

(** A byte that continues a character is read inside something, and passed over. *)
Lemma continuation_passes st c : IsUTF8MultiByteContinuation (code_of c) = true →
  in_place st ≠ Between ∨ depth st ≠ 0 → ∃ st', advance st c = Some (inr st') ∧ (in_place st' ≠ Between ∨ depth st' ≠ 0).
Proof.
  intros Hc Hst. unfold IsUTF8MultiByteContinuation in Hc. rewrite Z.mod_small in Hc by apply code_of_bounds.
  unfold advance, line_end, blank, quote, semicolon, left_parenthesis, right_parenthesis, linefeed, carriage_return, space, backslash.
  assert (∀ n, (n < 128)%Z → (code_of c =? n)%Z = false) as E by (intros n Hn; lia). rewrite !E by lia. cbn [orb].
  destruct st as [[] d m e]; cbn [in_place depth at_place started mistake] in *; try (eexists; split; [done|by left]).
  destruct Hst as [|Hd]; [done|]. rewrite (proj2 (Nat.eqb_neq _ _) Hd). eexists. split; [done|by right].
Qed.
Lemma continuations_pass st cs l : Forall (fun c => IsUTF8MultiByteContinuation (code_of c) = true) cs →
  in_place st ≠ Between ∨ depth st ≠ 0 → ∃ st', run st (cs ++ l) = run st' l.
Proof.
  intros Hcs. revert st. induction Hcs as [|c cs Hc _ IH]; intros st Hst; [by exists st|].
  destruct (continuation_passes st c Hc Hst) as (st1 & E & H1). destruct (IH st1 H1) as (st' & E'). exists st'.
  cbn [run app]. by rewrite E.
Qed.

Lemma advance_ascii st c : (code_of c < 128)%Z → is_Some (advance st c).
Proof.
  intros Hc. assert (isprint_char c = Some (isprint (code_of c))) as E.
  { unfold isprint_char. by rewrite (proj2 (Z.ltb_lt _ _)). }
  unfold advance. destruct (in_place st); rewrite ?E; repeat case_match; eauto.
Qed.
Lemma advance_start st c : IsUTF8MultiByteStart (code_of c) = true →
  ∃ st', advance st c = Some (inr st') ∧ (in_place st' ≠ Between ∨ depth st' ≠ 0).
Proof.
  intros Hs. pose proof Hs as Hc. unfold IsUTF8MultiByteStart in Hc. rewrite Z.mod_small in Hc by apply code_of_bounds.
  unfold advance. rewrite Hs. unfold line_end, blank, quote, semicolon, left_parenthesis, right_parenthesis, linefeed, carriage_return, space, backslash.
  assert (∀ n, (n < 128)%Z → (code_of c =? n)%Z = false) as E by (intros n Hn; lia). rewrite !E by lia. cbn [orb].
  destruct st as [[] d m e]; cbn [in_place depth at_place started mistake] in *; try (eexists; split; [done|by left]).
  destruct (Nat.eqb_spec d 0); eexists; (split; [done|]); [by left|by right].
Qed.
Lemma run_encoded st l : encoded l → is_Some (run st l).
Proof.
  intros Hl. revert st. induction Hl as [|c l Hc _ IH|c cs l Hc Hcs _ IH]; intros st; cbn [run app]; [by eexists| |].
  - destruct (advance_ascii st c Hc) as [[z|st'] ->]; cbn [mbind option_bind]; [by eexists|apply IH].
  - destruct (advance_start st c Hc) as (st1 & -> & H1). cbn [mbind option_bind].
    destruct (continuations_pass st1 cs l Hcs H1) as (st' & ->). apply IH.
Qed.
Lemma decide_values st l z : decide_command st l = Some z → z ∈ [-1; 0; 1]%Z.
Proof.
  revert st. induction l as [|c l IH]; intros st; [intros [= <-]; set_solver|]. rewrite decide_cons.
  destruct (advance st c) as [[z'|st']|] eqn:E; cbn [mbind option_bind]; [|apply IH|done]. intros [= <-].
  unfold advance in E. repeat (case_match; simplify_option_eq; try done); try set_solver.
Qed.

(** *** Function calls *)

(** What may stand between two parentheses. *)
Inductive string_text : list byte → Prop :=
  | string_nil : string_text []
  | string_char c l : code_of c ≠ quote → code_of c ≠ backslash → string_text l → string_text (c :: l)
  | string_escape c l : string_text l → string_text (char_of backslash :: c :: l).
Definition structural (c : byte) : bool :=
  (code_of c =? quote)%Z || (code_of c =? semicolon)%Z || (code_of c =? left_parenthesis)%Z || (code_of c =? right_parenthesis)%Z.
Inductive balanced : list byte → Prop :=
  | balanced_nil : balanced []
  | balanced_char c l : structural c = false → balanced l → balanced (c :: l)
  | balanced_string t l : string_text t → balanced l → balanced (char_of quote :: t ++ char_of quote :: l)
  | balanced_comment t c l : Forall (fun c => line_end c = false) t → line_end c = true → balanced l →
      balanced (char_of semicolon :: t ++ c :: l)
  | balanced_call t l : balanced t → balanced l → balanced (char_of left_parenthesis :: t ++ char_of right_parenthesis :: l).
(** A function call or a construct. *)
Definition call_text (t : list byte) : Prop := ∃ b, balanced b ∧ t = char_of left_parenthesis :: b ++ [char_of right_parenthesis].

Lemma run_string d m e t l : string_text t →
  run (mkProgress InString d m e) (t ++ char_of quote :: l) = run (mkProgress Between d ((d =? 0) || m) e) l.
Proof.
  induction 1 as [|c t H1 H2 _ IH|c t _ IH]; cbn [app run].
  - done.
  - cbn [advance in_place depth started mistake at_place]. rewrite (proj2 (Z.eqb_neq _ _) H1), (proj2 (Z.eqb_neq _ _) H2). apply IH.
  - cbn [advance in_place depth started mistake at_place]. apply IH.
Qed.
Lemma run_comment d m t c l : Forall (fun c => line_end c = false) t → line_end c = true → d ≠ 0 →
  run (mkProgress InComment d m false) (t ++ c :: l) = run (mkProgress Between d m false) l.
Proof.
  intros Ht Hc Hd. induction Ht as [|c' t Hc' _ IH]; cbn [app run].
  - cbn [advance in_place depth started mistake at_place]. rewrite Hc, (proj2 (Nat.eqb_neq _ _) Hd), andb_false_r. done.
  - cbn [advance in_place depth started mistake at_place]. rewrite Hc'. apply IH.
Qed.

Lemma advance_open d m e : 0 < d ∨ m = false →
  advance (mkProgress Between d m e) (char_of left_parenthesis) = Some (inr (mkProgress Between (d + 1) true e)).
Proof.
  intros Hd. assert ((0 <? d) || negb m = true) as E.
  { destruct Hd as [Hd| ->]; [by rewrite (proj2 (Nat.ltb_lt _ _) Hd)|apply orb_true_r]. }
  transitivity (if (0 <? d) || negb m then Some (@inr Z _ (mkProgress Between (d + 1) true e)) else Some (inr (mkProgress Between d m e))); [reflexivity|].
  by rewrite E.
Qed.
Lemma advance_close d m e : advance (mkProgress Between (S d) m e) (char_of right_parenthesis) = Some (inr (mkProgress Between d m e)).
Proof. transitivity (Some (@inr Z _ (mkProgress Between (S d - 1) m e))); [reflexivity|]. cbn [Nat.sub]. by rewrite Nat.sub_0_r. Qed.

Lemma run_balanced d t l : balanced t → d ≠ 0 →
  run (mkProgress Between d true false) (t ++ l) = run (mkProgress Between d true false) l.
Proof.
  intros Ht. revert d l. induction Ht as [|c t Hc _ IH|s t Hs _ IH|s c t Hs Hc _ IH|b t _ IHb _ IH]; intros d l Hd.
  - done.
  - cbn [app run advance in_place depth started mistake at_place]. unfold structural in Hc. rewrite !orb_false_iff in Hc.
    destruct Hc as [[[H1 H2] H3] H4]. rewrite H1, H2, H3, H4, (proj2 (Nat.eqb_neq _ _) Hd).
    destruct (line_end c); [by apply IH|]. destruct (blank c); by apply IH.
  - cbn [app run]. change (advance _ (char_of quote)) with (Some (@inr Z _ (mkProgress InString d true false))).
    cbn [mbind option_bind]. rewrite <- app_assoc. cbn [app]. rewrite run_string by done. rewrite orb_true_r. by apply IH.
  - cbn [app run]. change (advance _ (char_of semicolon)) with (Some (@inr Z _ (mkProgress InComment d true false))).
    cbn [mbind option_bind]. rewrite <- app_assoc. cbn [app]. rewrite run_comment by done. by apply IH.
  - cbn [app run]. rewrite advance_open by (left; lia). cbn [mbind option_bind]. rewrite <- app_assoc. cbn [app].
    rewrite IHb by lia. cbn [run]. rewrite Nat.add_1_r, advance_close. by apply IH.
Qed.

(** *** Around a call *)

(** What may come before a command. *)
Inductive gap : list byte → Prop :=
  | gap_nil : gap []
  | gap_char c l : blank c || line_end c = true → gap l → gap (c :: l)
  | gap_comment t c l : Forall (fun c => line_end c = false) t → line_end c = true → gap l →
      gap (char_of semicolon :: t ++ c :: l).
(** What may follow it on its line. *)
Definition line_tail (l : list byte) : Prop :=
  ∃ b t, Forall (fun c => blank c = true) b ∧ Forall (fun c => line_end c = false) t ∧
    (l = b ∨ l = b ++ char_of semicolon :: t).

Lemma blank_not_end c : blank c = true → line_end c = false.
Proof. unfold blank, line_end, space, linefeed, carriage_return. lia. Qed.
Lemma run_gap g l : gap g → run at_start (g ++ l) = run at_start l.
Proof.
  induction 1 as [|c g Hc _ IH|t c g Ht Hc _ IH]; [done| |]; cbn [app run].
  - cbn [advance at_start in_place depth started mistake]. destruct (line_end c) eqn:E; [exact IH|].
    rewrite orb_false_r in Hc. rewrite Hc. exact IH.
  - change (advance at_start (char_of semicolon)) with (Some (@inr Z _ (at_place InComment at_start))). cbn [mbind option_bind].
    rewrite <- app_assoc. cbn [app]. induction Ht as [|c' t Hc' _ IHt]; cbn [app run].
    + cbn [advance at_start at_place in_place depth started mistake]. rewrite Hc. exact IH.
    + cbn [advance at_start at_place in_place depth started mistake]. rewrite Hc'. exact IHt.
Qed.

(** After the call: the command is there, its line is not at its end. *)
Definition complete_line (st : progress) : Prop :=
  (in_place st = Between ∨ in_place st = InComment) ∧ depth st = 0 ∧ started st = true ∧ mistake st = false.
Lemma complete_line_ends st c : complete_line st → line_end c = true → advance st c = Some (inl 1%Z).
Proof. destruct st as [p d m e]. intros ([Hp|Hp] & Hd & Hm & He) Hc; cbn in *; subst; cbn; by rewrite Hc. Qed.
Lemma run_call g t : gap g → call_text t → run at_start (g ++ t) = Some (inr (mkProgress Between 0 true false)).
Proof.
  intros Hg (b & Hb & ->). rewrite run_gap by done. cbn [run]. unfold at_start. rewrite advance_open by (by right).
  cbn [mbind option_bind]. rewrite run_balanced by done. cbn [run]. change (0 + 1) with 1. by rewrite advance_close.
Qed.
Lemma run_line_tail tl : line_tail tl → ∃ st, run (mkProgress Between 0 true false) tl = Some (inr st) ∧ complete_line st.
Proof.
  intros (b & t & Hb & Ht & Htl).
  assert (∀ l, run (mkProgress Between 0 true false) (b ++ l) = run (mkProgress Between 0 true false) l) as Hblank.
  { clear Htl. intros l. induction Hb as [|c b Hc _ IH]; [done|]. cbn [app run advance at_place in_place depth started mistake].
    rewrite (blank_not_end c Hc), Hc. exact IH. }
  destruct Htl as [-> | ->].
  - exists (mkProgress Between 0 true false). rewrite <- (app_nil_r b), Hblank. split; [done|]. split; [by left|done].
  - exists (mkProgress InComment 0 true false). rewrite Hblank. split; [|split; [by right|done]].
    cbn [run]. change (advance _ (char_of semicolon)) with (Some (@inr Z _ (mkProgress InComment 0 true false))). cbn [mbind option_bind].
    clear Hblank Hb. induction Ht as [|c t Hc _ IH]; [done|]. cbn [run advance at_place in_place depth started mistake]. rewrite Hc. exact IH.
Qed.

(** ** Theorems on complete commands *)

(** What [CompleteCommand] says of some characters. *)
Definition status (l : list byte) : option Z := CompleteCommand (Some (String.string_of_list_ascii l)).
Lemma status_eq l : NUL ∉ l → status l = decide_command at_start l.
Proof. intros H. unfold status. rewrite CompleteCommand_follows; by rewrite chars_of_text. Qed.
Lemma prefix_no_nul (p l : list byte) : p `prefix_of` l → NUL ∉ l → NUL ∉ p.
Proof. intros [k ->]. set_solver. Qed.

(** [CompleteCommand], which looks ahead for the ends of strings, comments
    and lines, decides like an automaton that sees one character at a time; on
    UTF-8 it never reads outside the string and returns 1, 0 or -1. *)
Theorem CompleteCommand_online str :
  NUL ∉ chars str → CompleteCommand (Some str) = decide_command at_start (chars str) ∧
  (encoded (chars str) → ∃ z, CompleteCommand (Some str) = Some z ∧ z ∈ [-1; 0; 1]%Z).
Proof.
  intros H. rewrite CompleteCommand_follows by done. split; [done|]. intros He.
  destruct (run_encoded at_start _ He) as [r Hr].
  assert (∃ z, decide_command at_start (chars str) = Some z) as [z Hz] by (unfold decide_command; rewrite Hr; by eexists).
  exists z. split; [done|]. by eapply decide_values.
Qed.

(** C39: A function call or construct, whatever strings, comments, line feeds
    and nested calls it has, is complete exactly when its line ends: up to
    there every beginning of it is incomplete, and from there on the command
    stays complete whatever is typed next. *)
Theorem CompleteCommand_call g t tl c rest :
  gap g → call_text t → line_tail tl → line_end c = true → NUL ∉ g ++ t ++ tl ++ c :: rest →
  status (g ++ t ++ tl ++ c :: rest) = Some 1%Z ∧ ∀ p, p `prefix_of` g ++ t ++ tl → status p = Some 0%Z.
Proof.
  intros Hg Ht Htl Hc Hn. destruct (run_line_tail tl Htl) as (st & Hst & Hend).
  assert (run at_start (g ++ t ++ tl) = Some (inr st)) as Hrun.
  { rewrite app_assoc, (run_app _ _ _ _ (run_call g t Hg Ht)). exact Hst. }
  split.
  - rewrite status_eq by done. unfold decide_command.
    replace (g ++ t ++ tl ++ c :: rest) with ((g ++ t ++ tl) ++ c :: rest) by (by rewrite <- !app_assoc).
    rewrite (run_app _ _ _ _ Hrun). cbn [run]. by rewrite (complete_line_ends st c Hend Hc).
  - intros p Hp. rewrite status_eq; [by apply (run_prefix _ _ _ _ Hrun)|]. apply (prefix_no_nul _ _ Hp).
    intros Hin. apply Hn. rewrite !app_assoc in *. set_solver.
Qed.

(** ** Constants as commands *)







(** ** While a command is typed *)

Section typing.
Context {W X V : Type} `{!RouterHost W} `{!CommandHost W X V}.
Abbreviation env := (AtomEnv (IOEnv W)).
Abbreviation cenv := (CommandEnv W X).
Implicit Types (s : cenv) (h : IOEnv W).













End typing.

(** ** Constants at the prompt *)

Section constants.
Context {W X V : Type} `{!RouterHost W} `{!HostLaws W} `{!CommandHost W X V}.
Abbreviation env := (AtomEnv (IOEnv W)).
Abbreviation cenv := (CommandEnv W X).
Implicit Types (s : cenv) (t : env) (h : IOEnv W).

(** Cleaning up between commands leaves the routers and the tables intact. *)
Definition tidy (m : P env unit) : Prop := ∀ t C, atoms_inv t C → ∃ w t' C',
  m t = Returned tt t' ∧ host t' = put_world w (host t) ∧ atoms_inv t' C' ∧
  (GetHaltExecution (world (host t)) = false → GetHaltExecution w = false).
Class CommandLaws := {
  resume_law w : GetHaltExecution (SetEvaluationError false (SetHaltExecution false w)) = false;
  parsing_messages_tidy : tidy FlushParsingMessages;
  garbage_frame_tidy : tidy CleanCurrentGarbageFrame;
  periodic_tasks_tidy : tidy CallPeriodicTasks;
}.
Context {laws : CommandLaws}.

(** The routers at the prompt: [STDOUT] is collected by the string builder [q],
    which holds [out]; the name of the command source is free, and the string
    router would answer for it. *)
Record shell_io (q : ptr) (out : list byte) h : Prop := {
  si_paired : all_paired h;
  si_messages : messages_safe h;
  si_fast : same_pointer_opt command_name (FastCharGetRouter (router_data h)) = false;
  si_lines : LineCountRouter (router_data h) = None ∨
    ∃ b m, LineCountRouter (router_data h) = Some (LName b m) ∧ m ≠ "command";
  si_free : find_string_router "command" (ListOfStringRouters h) = None;
  si_reader r w : sr_name r = "command" → ∃ x,
    first_responder readCallback (put_world w (put_string_routers (r :: ListOfStringRouters h) h)) 2 "command" = Some (x, ReadStringCallback);
  si_unreader r w : sr_name r = "command" → ∃ x,
    first_responder unreadCallback (put_world w (put_string_routers (r :: ListOfStringRouters h) h)) 2 "command" = Some (x, UnreadStringCallback);
  si_output w : builder_open (put_world w h) 1 STDOUT q out;
}.

Lemma shell_io_world q out w h : shell_io q out h → shell_io q out (put_world w h).
Proof. intros [H1 H2 H3 H4 H5 H6 H7 H8]. by split. Qed.
Lemma shell_io_scanner q out d h : shell_io q out h → shell_io q out (put_scanner_data d h).
Proof. intros [H1 H2 H3 H4 H5 H6 H7 H8]. split; try done. intros w. by destruct (H8 w). Qed.
Lemma shell_io_pp q out d h : shell_io q out h → shell_io q out (put_pp_data d h).
Proof. intros [H1 H2 H3 H4 H5 H6 H7 H8]. split; try done. intros w. by destruct (H8 w). Qed.


(** *** The source of the command *)

(** [i] of the characters [l], in the array [p], are read; [L] are the other string routers. *)
Record reading (q : ptr) (out : list byte) (p : ptr) (L : list StringRouter) (l : list byte) (i : nat) h : Prop := {
  rg_source : source_open 2 "command" p l i h;
  rg_list : ∃ r, sr_name r = "command" ∧ ListOfStringRouters h = r :: L;
  rg_closed : shell_io q out (put_string_routers L h);
}.

Lemma source_at_list i r L h : sr_name r = "command" → ListOfStringRouters h = r :: L →
  ListOfStringRouters (source_at "command" i h) = set_currentPosition i r :: L.
Proof. intros Hr E. unfold source_at. cbn. rewrite E. cbn [update_found]. by rewrite Hr. Qed.
Lemma reading_at q out p L l i j h : reading q out p L l i h → reading q out p L l j (source_at "command" j h).
Proof.
  intros [H1 (r & Hr & HL) H3]. split; [by eapply source_open_at| |exact H3].
  exists (set_currentPosition j r). split; [done|]. by apply source_at_list.
Qed.
#[export] Instance command_source q out p L : CharSource command_name (reading q out p L).
Proof.
  unfold command_name. split.
  - intros l i h H. rewrite (ReadRouter_source _ _ _ _ _ _ (rg_source _ _ _ _ _ _ _ H)). eexists.
    split_and!; [done|by eapply reading_at|done..].
  - intros l i h ch H. rewrite (UnreadRouter_source _ _ _ _ _ _ _ (rg_source _ _ _ _ _ _ _ H)). do 2 eexists.
    split_and!; [done|by eapply reading_at|done..].
  - intros l i h m Hm [H1 H2 H3]. destruct (report_plain m h Hm (so_paired _ _ _ _ _ _ H1) (so_messages _ _ _ _ _ _ H1)) as [w ->].
    eexists. split_and!; [done| |done..]. split; [by apply source_open_world|done|]. by apply (shell_io_world _ _ w) in H3.
  - intros l i h b [[H1 H2 H3 H4 H5 H6 H7 H8] HL Hc]. split; [by split|done|].
    by apply (shell_io_scanner _ _ (set_GlobalBuffer b (scanner_data h))) in Hc.
  - intros l i h d [[H1 H2 H3 H4 H5 H6 H7 H8] HL Hc]. split; [by split|done|]. by apply (shell_io_pp _ _ d) in Hc.
Qed.



(** *** The tables *)



(** *** Printing *)





(** *** The command is routed *)



Lemma put_string_routers_twice L L' h : put_string_routers L (put_string_routers L' h) = put_string_routers L h.
Proof. done. Qed.







(** *** The command is executed *)





End constants.

(** ** A system around the loop *)

(** The terminal: a command is parsed as its name, evaluated by naming it on the
    terminal, and has no value. *)
#[export] Instance Terminal_commands : CommandHost Terminal string unit := {
  GetHaltExecution _ := false;
  SetHaltExecution _ w := w;
  SetEvaluationError _ w := w;
  BatchActive _ := false;
  DanglingConstructs _ := 0%Z;
  set_DanglingConstructs _ w := w;
  LLGetcBatch _ _ := mret EOF;
  CloseAllBatchSources := mret tt;
  CleanCurrentGarbageFrame := mret tt;
  CallPeriodicTasks := mret tt;
  FlushParsingMessages := mret tt;
  SetWarningFileName _ := mret tt;
  SetErrorFileName _ := mret tt;
  call_after_prompt _ := mret tt;
  call_before_execution _ := mret true;
  print_other _ := mret tt;
  GenConstant _ _ := "variable";
  ParseConstruct _ _ := mret BE_CONSTRUCT_NOT_FOUND_ERROR;
  Function2Parse _ name := mret (Some name);
  ClearParsedBindNames := mret tt;
  ExpressionInstall _ := mret tt;
  ExpressionDeinstall _ := mret tt;
  ReturnExpression _ := mret tt;
  EvaluateExpression x := write (literal STDOUT) x;
  is_void _ := true;
  WriteUDFValue _ _ := mret tt;
}.
Definition quiet : commandLineData string := mkCommandLineData false false None None 0 false "" None None.
Definition shell_env (h : IOEnv Terminal) : CommandEnv Terminal string :=
  mkCommandEnv quiet (mkCommandInput 0 0 true) false (initial_env [] ∅ h).
(** What the terminal shows after some characters. *)
Definition typed (str : string) : option (list string) :=
  match forM (chars str) (fun c => take_char (code_of c)) (shell_env routers_io) with
  | Returned _ s => Some (world (host (tables s)))
  | _ => None
  end.
Example typed_constant : typed ("12" +:+ newline) = Some ["12"; newline; COMMAND_PROMPT].
Proof. vm_compute. reflexivity. Qed.
Example typed_call : typed ("(run" +:+ newline +:+ ") ; go" +:+ newline) = Some ["run"; COMMAND_PROMPT].
Proof. vm_compute. reflexivity. Qed.
Example typed_half : typed ("(run" +:+ newline) = Some [].
Proof. vm_compute. reflexivity. Qed.
Example typed_error : typed (")" +:+ newline) = Some ["["; "COMMLINE"; "1"; "] "; "Expected a '(', constant, or variable." +:+ newline; COMMAND_PROMPT].
Proof. vm_compute. reflexivity. Qed.

(** The error is not noticed in a comment. *)
Example comment_hides_error :
  (CompleteCommand (Some (")" +:+ newline)), CompleteCommand (Some (") ; x" +:+ newline))) = (Some (-1)%Z, Some 0%Z).
Proof. vm_compute. reflexivity. Qed.
(** A stray byte of a UTF-8 character goes to [isprint]. *)
Example stray_byte : CompleteCommand (Some (String (char_of 128) newline)) = None.
Proof. vm_compute. reflexivity. Qed.

Definition completed (str : string) : option (option string) :=
  match GetCommandCompletionString 10 (Some str) (String.length str) (tables (shell_env routers_io)) with
  | Returned r _ => Some r
  | _ => None
  end.
Definition quoted_text (str : string) : string := String (char_of quote) str.
Example completions :
  (completed "(re", completed "(re ", completed (quoted_text "(list"), completed "?x", completed "[ob", completed "12") =
  (Some (Some "re"), Some (Some ""), Some (Some "list"), Some (Some "x"), Some (Some "ob"), Some None).
Proof. vm_compute. reflexivity. Qed.
(** The last token is the empty string: the character before it is read. *)
Example completion_overruns : completed (quoted_text (quoted_text ";x")) = None.
Proof. vm_compute. reflexivity. Qed.

(** *** Standard output is collected in a string builder *)


#[export] Instance Terminal_command_laws : CommandLaws (W := Terminal) (X := string) (V := unit).
Proof.
  assert (tidy (W := Terminal) (X := string) (V := unit) (mret tt)) as Htidy.
  { intros t C H. exists (world (host t)), t, C. by rewrite put_world_id. }
  by split.
Qed.



Lemma CompleteCommand_call_witness :
  status (chars ("(run" +:+ newline +:+ ") ; go" +:+ newline +:+ "x")) = Some 1%Z ∧
  status (chars ("(run" +:+ newline +:+ ") ; go")) = Some 0%Z.
Proof.
  destruct (CompleteCommand_call [] (chars ("(run" +:+ newline +:+ ")")) (chars " ; go") (char_of linefeed) (chars "x"))
    as [H1 H2].
  - constructor.
  - exists (chars ("run" +:+ newline)). split; [|reflexivity]. repeat (apply balanced_char; [reflexivity|]). constructor.
  - exists (chars " "), (chars " go"). split; [repeat constructor|]. split; [repeat constructor|]. right. reflexivity.
  - reflexivity.
  - apply (bool_decide_unpack _). vm_compute. exact I.
  - split; [exact H1|]. apply H2. reflexivity.
Defined.
